(* ===== verification/_CoqProject ===== *)
-Q . S2P
Prelude.v
RlpEncode.v
RlpRaw.v
RlpStream.v
TrieEncoding.v
Trie.v
TrieNode.v
TrieHash.v
TrieDatabase.v
TrieGC.v
TrieFlush.v
TrieCommit.v
TrieProof.v
StackTrie.v
DeriveSha.v
Header.v
StateDB.v
StateRevert.v
StateRoot.v
SecureTrie.v
StateCommit.v
Digests.v
Hashimoto.v
VmBase.v
VmCode.v
Vm.v
VmWp.v
VmOps.v
VmTables.v
VmSafe.v
StateTransition.v
Ethash.v
VerifyHeaders.v
VmNatives.v
VmStateDB.v
Transactions.v
Receipts.v
Blocks.v
Assembly.v
