(* ===== verification/Prelude.v ===== *)
(** * Bullions: a verification of blocks, the state, the tries and the machine

    Bullions is an Ethereum node in Go (a fork of core-geth).  This library
    models the part of it that decides what the chain state is: which headers
    and blocks are valid, how a block and its messages are executed, how
    accounts change and are rolled back, how they are hashed and stored, and
    how everything is encoded.  The definitions are translated
    from the sources under src/ and keep their names; most of them compute.

    ** The program and the files

    From the bottom up, with the sources that each file models:

    - [Prelude]: outcomes of Go functions, machine integers, slices, big-endian
      numbers, Go maps with their arbitrary order of iteration.
    - RLP (src/rlp).  [RlpEncode]: the buffer [encbuf], the writers,
      [EncodeToBytes] and [Encode] of encode.go.  [RlpRaw]: [Split], [CountValues] and the
      list iterator (raw.go, iterator.go).  [RlpStream]: [Stream] and the
      decoders that [makeDecoder] selects (decode.go); the selection by
      reflection is a descriptor of types, [ty].
    - Tries (src/trie).  [TrieEncoding]: the key encodings (encoding.go).
      [Trie]: nodes, [TryGet], [TryUpdate], [TryDelete] and the loading of nodes
      (trie.go).  [TrieNode]: the stored form of nodes (node.go).  [TrieHash]:
      the hasher and [Trie.Hash] (hasher.go).  [TrieDatabase]: the database of
      nodes with its reference counts, flush list, garbage collection, [Cap] and
      [Commit] (database.go), with [TrieGC] and [TrieFlush] for its invariants.
      [TrieCommit]: the committer and [Trie.Commit] (committer.go).
      [TrieProof]: Merkle proofs, [Prove] and [VerifyProof] (proof.go).
      [StackTrie]: the trie for keys that arrive in order (stacktrie.go).
      [DeriveSha]: the roots of lists of transactions and receipts
      (core/types/derive_sha.go).
      [SecureTrie]: the trie with hashed keys and the keys behind them
      (secure_trie.go), and the database of the state (core/state/database.go).
    - The state (src/core/state).  [StateDB]: accounts and their caches, the
      journal, snapshots and [Finalise] (statedb.go, state_object.go,
      journal.go), with [StateRevert] for what a revert restores.  [StateRoot]:
      the write of slots and accounts to the tries, [IntermediateRoot], and the
      slim accounts of snapshot/account.go.  [StateCommit]: [New], [Copy] and
      [Commit] of a state, on the database of tries and the disk below it.
    - The virtual machine (src/core/vm).  [VmBase]: words, stack, memory and
      the gas of memory.  [VmCode]: code analysis and contracts.  [Vm]: gas
      functions, instructions, jump tables, the interpreter loop, calls and
      creation.  [Digests] and [VmNatives]: the native contracts.  [VmWp],
      [VmOps], [VmTables] and [VmSafe]: the proofs.
    - Messages (src/core/state_transition.go, gaspool.go).  [StateTransition]:
      from the purchase of gas to the payment of the miner.
    - [VmStateDB]: the machine and the messages on the modelled state.
    - Consensus (src/consensus).  [Hashimoto]: the proof of work and its dataset
      (ethash/algorithm.go).  [Ethash]: difficulty, headers, uncles, seals and
      rewards (ethash/consensus.go, consensus_classic.go, misc/), and the gas
      limit of the next block (core/block_validator.go).  [VerifyHeaders]: the
      goroutines that verify a batch of headers.
    - Blocks (src/core, src/core/types).  [Header]: headers and their hashes
      (types/block.go).  [Transactions]: signatures and senders
      (types/transaction.go, transaction_signing.go).  [Receipts]: receipts,
      logs and blooms (types/receipt.go, bloom9.go).  [Blocks]: [Process],
      [ApplyTransaction], [ValidateBody], [ValidateState], [GetHashFn] and the
      fork of the DAO (state_processor.go, block_validator.go, evm.go).
      [Assembly]: [NewBlock] and [FinalizeAndAssemble].

    A block is checked and executed from the top of this list to its start:
    [VerifyHeaders] accepts its header, [ValidateBody] its lists, [Process]
    runs its messages with [ApplyMessage] on a [StateDB], whose tries give the
    root that [ValidateState] compares.

    ** How code is modelled

    A function that can fail returns an [outcome]: [Ok], [Err] with the error,
    or [Panic] for a Go panic, such as an index out of range or a nil map.
    [go A] is an outcome without errors.  State is passed explicitly; the
    machine has a state monad with errors.  Integers are Z with the wrap-around
    of their width written out ([u8], [u16], [u32], [u64], [int64]); bytes are
    Z, and [bytes_ok] says that they are below 256.  The iteration over a Go
    map is a function [map_order] of a class [MapOrder] that gives any
    permutation of the keys, so theorems hold for all orders.  Objects behind
    pointers are written back to the map that holds them.  Where slices are
    aliased and it shows, the alias is modelled: the in-place conversion of
    keys, the slices of the input that the decoders return, and the memory of a
    caller that a native contract returns.  The stack trie overwrites the
    slices of its values with hashes; there a value is a copy, so the model
    holds for values that do not share memory.

    Components meet at classes.  [NodeReader] is what a trie needs of its
    database; [TrieOps] and [StateDatabase] are the interfaces of the state,
    with the laws [TrieReads] for reverting and [TrieMap] for the roots, which
    [SecureTrie] discharges; [VMState] is the interface of the machine, with the
    laws [VMLaws], which [VmStateDB] discharges for the modelled state;
    [BlockState] with [BlockLaws] is what the processor needs of the state
    between messages, which [Blocks] discharges.  [Addresses] is the set of
    addresses that the theorems on reverting compare.  The goroutines of
    [VerifyHeaders] are a step relation, and the interleaving of the threads of
    [generateDataset] is any permutation of their tasks.

    Code that is not part of the sources is a class with its documented
    behaviour as laws: [Keccak] (32 bytes for every input), [CleanCache] (a
    cache returns what was stored, or nothing), [Uint256] (256-bit integers,
    with an instance over Z), [Keccak512] (64 bytes), [Secp256k1] (a signature
    has its format, and its key is recovered), and [Packages] and [PointGroup]
    (RIPEMD-160 and the arithmetic of curves, which is generated or in
    assembly).  [ScheduleOrder] is the order of the maps of a configuration.
    [PowData] stands for the caches and datasets that ethash keeps on disk, and
    [CodeCaches] for the caches of contract code; they have no laws.  Every theorem that depends on one has a witness with a
    concrete instance.

    ** What is shown

    - The machine.  [Run_safe]: a run ends within its gas, never indexes out of
      range, and returns no more gas than it had.  [do_call_atomic]: a call that
      returns an error leaves the state as it was.  [memoryGasCost_exact],
      [codeBitmap_correct], [validJumpdest_correct]: the gas of memory and the
      jump destinations are what the protocol defines.  [natives_safe] and
      [bigModExp_correct]: the native contracts.
      [instructionSetForConfig_defined], [NewEVMInterpreter_extra] and
      [identity_returnData_aliased] delimit faults of the code.
    - Messages.  [ApplyMessage_accounts]: gas and money add up.
    - The state.  [RevertToSnapshot_exact]: a revert restores all that a state
      returns.  [IntermediateRoot_correct]: the root is that of the written
      accounts, for every order of the maps.  [state_Commit_stores]: a state
      that is committed is the state that is opened at its root, with all
      accounts and slots, and its new code on the disk.  [Copy_root]: a copy has the root of the
      original; [Copy_keeps_suicided] is a state for which it does not.
    - Tries.  [TryGet_refines], [TryUpdate_refines], [SecureTrie_refines]: tries
      are maps.  [trie_canonical], [Hash_correct], [Hash_binding]: the shape and
      the hash depend on the map only, and without collisions the hash
      determines the map.  [trie_missing_node]: a missing node is reported.
      [Commit_stores]: a committed trie can be opened again.
    - The stack trie.  [StackTrie_correct]: it takes keys in order, stores all
      nodes and has the root of the trie.  [DeriveSha_agrees],
      [DeriveSha_binding]: the root of a list is the same with both tries and
      determines the list.  [StackTrie_small] is the contents for which the two
      tries differ.
    - The trie database.  [insert_sound], [Dereference_safe], [Cap_safe],
      [Commit_durable], [Node_reads]: nothing that a root still leads to is
      lost, whatever writes fail, and a successful commit is on disk.
    - Proofs.  [VerifyProof_sound], [Prove_verifies]: a proof convinces of what
      the map holds, and nothing convinces of anything else.
    - Headers.  [verifyHeader_exact], [VerifyUncles_exact]: what is accepted is
      what the rules say.  [VerifyHeaders_delivers], [VerifyHeaders_chain]: a
      batch is verified in order on any number of goroutines, and an accepted
      one is a chain.  [CalcDifficulty_bounds], [bomb_delays_agree],
      [GetRewards_issue], [CalcGasLimit_valid]: difficulty, issue and gas limit.
      [hashimoto_light_full]: verifier and miner compute the same hash.
    - Transactions and receipts.  [SignTx_Sender], [EIP155_replay]: what was
      signed is recovered, and on no other chain.  [CreateBloom_complete]: the
      filter of a block finds all that was logged.
    - Blocks.  [Process_accounts]: the gas of a block adds up.
      [ValidateBody_binding]: the hash of a block commits to its body.
      [Assemble_validates]: what a miner assembles the validator accepts.
      [GetHashFn_cached]: the cache of block hashes is invisible.
    - Encodings.  [EncodeToBytes_correct], [DecodeBytes_correct],
      [Encode_Decode], [Split_correct], [compact_roundtrip],
      [hexToCompactInPlace_correct], [decodeNode_roundtrip],
      [decodeNode_total].  [decodeByteArray_loops] and
      [listIterator_stuck] are inputs on which the code does not end.

    ** Bounds and fuel

    - The interpreter has fuel for one step more than its gas: every step
      costs at least one unit net of what it hands to a call, so the fuel
      suffices, and [Run_safe] shows that it does.  The gas is below 2^45
      ([native_limit]): with it no native contract asks for more than the 2^48
      bytes that the runtime can address ([max_alloc]), above which Go panics;
      [natives_safe] shows an input with a larger charge that does.  That less
      memory than this may be available is not modelled.
    - The recursion of a trie operation has fuel [path_fuel], two rounds for
      every nibble of the key and two more; the recursion of the trie database
      has the height of the graph of its nodes (their rank), and its loops the
      number of nodes; a decoder has the length of its input; an insertion in
      the stack trie has the nibbles of the key and one more.  The theorems show
      that none of them is exhausted.
    - [VerifyProof] has one round for every nibble of the key and its end;
      [GetHashFn] the number of its block; a message in [ApplyTransaction] one
      step more than its gas.  A run of the goroutines of [VerifyHeaders] has at
      most four steps for every header.
    - Slices are below 2^63 bytes; encodings that are decoded below 2^47, trie
      keys below 2^56, trie values below 2^58, balances below 2^256.
    - Two faults of a run are named and not excluded: a cached analysis that is
      too short for the code, one of other code under the same hash, and a
      refund counter that the state would bring below zero.  Both are panics of
      the program ([Err CachedAnalysis] and [Err RefundBelowZero] in the
      machine, [Panic] in [ApplyTransaction]), and no theorem says anything of
      the state then.

    ** What is not modelled

    Logging, metrics, tracing and locks have no effect on results.  Of the
    modelled packages: RLP for user-defined encoders, buffered readers and
    writers that fail; trie
    iterators, range proofs, synchronisation and bloom filters; the
    snapshot tree; external EVMC
    interpreters; the generation of the ethash cache and its files; JSON and
    the storage formats of receipts and logs.  Not touched are the parts
    around: the import of blocks into the chain and its reorganisation, the
    transaction pool, mining and the proof of authority, the database back
    ends, networking, RPC, accounts and external signing, the command line
    tools and the configuration formats.  Most of their behaviour is input and
    output or concurrency between processes, and they use the state only
    through the operations above.  The elliptic curves are generated code and assembly. *)
From stdpp Require Import prelude list gmap.
From Stdlib Require Import ZArith Lia.

#[global] Open Scope Z_scope.

(** ** Outcomes of Go functions

    A Go function either returns its results, returns a non-nil error, or
    panics (index out of range, nil dereference, explicit [panic]). *)

Inductive outcome (E A : Type) : Type :=
| Ok (a : A)
| Err (e : E)
| Panic.
Arguments Ok {E A} a.
Arguments Err {E A} e.
Arguments Panic {E A}.

(** Functions that return no error: they return or panic. *)
Abbreviation go A := (outcome Empty_set A).

#[global] Instance outcome_ret {E} : MRet (outcome E) := fun A a => Ok a.
#[global] Instance outcome_bind {E} : MBind (outcome E) := fun A B f m =>
  match m with
  | Ok a => f a
  | Err e => Err e
  | Panic => Panic
  end.

(** [is_ok m]: the call returns normally. *)
Definition is_ok {E A} (m : outcome E A) : Prop := exists a, m = Ok a.

Section outcome_lemmas.
Context {E A B : Type}.
Implicit Types (m : outcome E A) (f : A -> outcome E B).

Lemma bind_Ok m f b : (m ≫= f) = Ok b <-> exists a, m = Ok a /\ f a = Ok b.
Proof. destruct m; simpl; naive_solver. Qed.

Lemma bind_Ok_eq m f a : m = Ok a -> (m ≫= f) = f a.
Proof. by intros ->. Qed.

Lemma bind_Err m f e :
  (m ≫= f) = Err e <-> m = Err e \/ exists a, m = Ok a /\ f a = Err e.
Proof. destruct m; simpl; naive_solver. Qed.
End outcome_lemmas.

(** [outcome_inv H]: splits [H : (m ≫= f) = Ok b] along its binds. *)
Ltac outcome_inv H :=
  repeat lazymatch type of H with
  | (_ ≫= _) = Ok _ =>
      let a := fresh "r" in let Ha := fresh "Hr" in
      apply bind_Ok in H; destruct H as (a & Ha & H)
  | (let '(_, _) := ?p in _) = _ => destruct p; simpl in H
  | Ok _ = Ok _ => injection H as H; subst
  end.

(** [bind_simpl]: runs the binds whose first component is a result. *)
Ltac bind_simpl := cbn [mbind outcome_bind mret outcome_ret]; cbv beta iota.

(** ** Machine integers *)

Definition u8 (x : Z) : Z := x mod 2 ^ 8.
Definition u16 (x : Z) : Z := x mod 2 ^ 16.
Definition u32 (x : Z) : Z := x mod 2 ^ 32.
Definition u64 (x : Z) : Z := x mod 2 ^ 64.

Definition is_u64 (x : Z) : Prop := 0 <= x < 2 ^ 64.

Definition is_byte (b : Z) : Prop := 0 <= b < 256.
#[global] Instance is_byte_dec b : Decision (is_byte b).
Proof. unfold is_byte. apply _. Defined.

Abbreviation bytes_ok := (Forall is_byte).

(** [solve_decidable]: closed decidable goals, by evaluation. *)
Ltac solve_decidable :=
  lazymatch goal with |- ?P => apply (bool_decide_unpack P); vm_compute; exact I end.

Lemma u8_small x : is_byte x -> u8 x = x.
Proof. unfold is_byte, u8. intros. apply Z.mod_small. lia. Qed.
Lemma u64_small x : 0 <= x < 2 ^ 64 -> u64 x = x.
Proof. intros. by apply Z.mod_small. Qed.
Lemma u32_small x : 0 <= x < 2 ^ 32 -> u32 x = x.
Proof. apply Z.mod_small. Qed.
Lemma u8_byte x : is_byte (u8 x).
Proof. unfold is_byte, u8. pose proof (Z.mod_pos_bound x (2^8)). lia. Qed.
Lemma u64_range x : 0 <= u64 x < 2 ^ 64.
Proof. apply Z.mod_pos_bound. lia. Qed.

(** A bitwise or of disjoint bits is a sum. *)
Lemma lor_add x y k :
  0 <= k -> x mod 2 ^ k = 0 -> 0 <= y < 2 ^ k -> Z.lor x y = x + y.
Proof.
  intros Hk Hx Hy. rewrite Z.add_nocarry_lxor, Z.lxor_lor; [done|..];
  apply Z.bits_inj'; intros i Hi; rewrite Z.land_spec, Z.bits_0.
  all: destruct (Z.lt_ge_cases i k).
  all: try (rewrite <- (Z.mod_small y (2 ^ k)), (Z.mod_pow2_bits_high y) by lia; by rewrite andb_false_r).
  all: rewrite <- (Z.mod_pow2_bits_low x k i), Hx, Z.bits_0 by lia; done.
Qed.

(** ** Shared data *)

(** Addresses are arrays of 20 bytes. *)
Definition is_addr (a : list Z) : Prop := Z.of_nat (length a) = 20 /\ bytes_ok a.

(** A log as a contract emits it: the fields of [types.Log] that the machine
    fills in. *)
Record LogBody := MkLogBody {
  log_Address : list Z;
  log_Topics : list (list Z);
  log_Data : list Z;
  log_BlockNumber : Z;
}.

(** ** Slices

    Go slices are lists; an [int] or [uint64] index is a [Z].  Indexing and
    slicing outside the length panic. *)

Definition zlen {A} (l : list A) : Z := Z.of_nat (length l).

(** Slices have lengths that fit an [int]. *)
Definition is_slice (b : list Z) : Prop := zlen b < 2 ^ 63.

(** [l[i]] *)
Definition idx {E A} (l : list A) (i : Z) : outcome E A :=
  if i <? 0 then Panic
  else match l !! Z.to_nat i with Some x => Ok x | None => Panic end.

(** [l[i] = x] *)
Definition upd {E A} (l : list A) (i : Z) (x : A) : outcome E (list A) :=
  if (0 <=? i) && (i <? zlen l) then Ok (<[Z.to_nat i := x]> l) else Panic.

(** [l[i:j]] *)
Definition slice {E A} (l : list A) (i j : Z) : outcome E (list A) :=
  if (0 <=? i) && (i <=? j) && (j <=? zlen l)
  then Ok (take (Z.to_nat (j - i)) (drop (Z.to_nat i) l)) else Panic.

(** [l[i:]] *)
Definition slice_from {E A} (l : list A) (i : Z) : outcome E (list A) :=
  slice l i (zlen l).

(** [b[0] = v0; b[1] = v1; ...] starting at index [i] *)
Fixpoint store {E A} (b : list A) (i : Z) (vs : list A) : outcome E (list A) :=
  match vs with
  | [] => Ok b
  | v :: vs => b' ← upd b i v; store b' (i + 1) vs
  end.

(** [copy(dst[pos:], src)]: the updated [dst] and the number of elements
    copied. *)
Definition copy_at {E A} (dst : list A) (pos : Z) (src : list A)
    : outcome E (list A * Z) :=
  if (0 <=? pos) && (pos <=? zlen dst) then
    let n := Nat.min (length dst - Z.to_nat pos) (length src) in
    Ok (take (Z.to_nat pos) dst ++ take n src ++ drop (Z.to_nat pos + n) dst,
        Z.of_nat n)
  else Panic.

Section slices.
Context {E A : Type}.
Implicit Types (l : list A).

Lemma zlen_nonneg l : 0 <= zlen l.
Proof. unfold zlen. lia. Qed.
Lemma zlen_nil : zlen (@nil A) = 0.
Proof. done. Qed.
Lemma zlen_cons x l : zlen (x :: l) = 1 + zlen l.
Proof. unfold zlen. simpl. lia. Qed.
Lemma zlen_app l k : zlen (l ++ k) = zlen l + zlen k.
Proof. unfold zlen. rewrite length_app. lia. Qed.
Lemma zlen_replicate n (x : A) : zlen (replicate n x) = Z.of_nat n.
Proof. unfold zlen. by rewrite length_replicate. Qed.
Lemma zlen_take l n : 0 <= n <= zlen l -> zlen (take (Z.to_nat n) l) = n.
Proof. unfold zlen. rewrite length_take. lia. Qed.
Lemma zlen_drop l n : 0 <= n <= zlen l -> zlen (drop (Z.to_nat n) l) = zlen l - n.
Proof. unfold zlen. rewrite length_drop. lia. Qed.
Lemma zlen_0_inv l : zlen l = 0 -> l = [].
Proof. destruct l; [done|]. rewrite zlen_cons. pose proof (zlen_nonneg l). lia. Qed.

Lemma take_zlen_app l k : take (Z.to_nat (zlen l)) (l ++ k) = l.
Proof. unfold zlen. by rewrite Nat2Z.id, take_app_length. Qed.
Lemma drop_zlen_app l k : drop (Z.to_nat (zlen l)) (l ++ k) = k.
Proof. unfold zlen. by rewrite Nat2Z.id, drop_app_length. Qed.
Lemma zlen_split l n :
  0 <= n <= zlen l -> exists l1 l2, l = l1 ++ l2 /\ zlen l1 = n /\ zlen l2 = zlen l - n.
Proof.
  intros Hn. exists (take (Z.to_nat n) l), (drop (Z.to_nat n) l).
  by rewrite take_drop, zlen_take, zlen_drop.
Qed.

Lemma idx_app l x k : @idx E A (l ++ x :: k) (zlen l) = Ok x.
Proof.
  unfold idx, zlen. destruct (Z.ltb_spec (Z.of_nat (length l)) 0); [lia|].
  by rewrite Nat2Z.id, list_lookup_middle.
Qed.
Lemma idx_0 x l : @idx E A (x :: l) 0 = Ok x.
Proof. done. Qed.
Lemma idx_Ok l i x : @idx E A l i = Ok x <-> 0 <= i /\ l !! Z.to_nat i = Some x.
Proof.
  unfold idx. destruct (Z.ltb_spec i 0); [naive_solver lia|].
  destruct (l !! Z.to_nat i); naive_solver.
Qed.
Lemma idx_in_range l i : 0 <= i < zlen l -> exists x, @idx E A l i = Ok x.
Proof.
  intros [? ?]. destruct (lookup_lt_is_Some_2 l (Z.to_nat i)) as [x Hx].
  { unfold zlen in *. lia. }
  exists x. by apply idx_Ok.
Qed.

Lemma slice_Ok l i j k :
  @slice E A l i j = Ok k <->
  0 <= i <= j /\ j <= zlen l /\ k = take (Z.to_nat (j - i)) (drop (Z.to_nat i) l).
Proof.
  unfold slice.
  destruct (Z.leb_spec 0 i), (Z.leb_spec i j), (Z.leb_spec j (zlen l)); simpl;
    naive_solver lia.
Qed.
Lemma slice_app l k r :
  @slice E A (l ++ k ++ r) (zlen l) (zlen l + zlen k) = Ok k.
Proof.
  apply slice_Ok. rewrite !zlen_app.
  pose proof (zlen_nonneg l); pose proof (zlen_nonneg k); pose proof (zlen_nonneg r).
  split; [lia|]. split; [lia|].
  replace (Z.to_nat (zlen l + zlen k - zlen l)) with (length k) by (unfold zlen; lia).
  unfold zlen. rewrite Nat2Z.id, drop_app_length, take_app_length. done.
Qed.
Lemma slice_from_app l k : @slice_from E A (l ++ k) (zlen l) = Ok k.
Proof.
  unfold slice_from. rewrite zlen_app.
  rewrite <- (app_nil_r k) at 1. apply slice_app.
Qed.

Lemma upd_app l x k y : @upd E A (l ++ x :: k) (zlen l) y = Ok (l ++ y :: k).
Proof.
  unfold upd. rewrite zlen_app, zlen_cons.
  pose proof (zlen_nonneg l); pose proof (zlen_nonneg k).
  rewrite (proj2 (Z.leb_le _ _)), (proj2 (Z.ltb_lt _ _)) by lia. simpl.
  unfold zlen. rewrite Nat2Z.id.
  by rewrite insert_app_r_alt, Nat.sub_diag by lia.
Qed.

Lemma upd_0 x l y : @upd E A (x :: l) 0 y = Ok (y :: l).
Proof. exact (upd_app [] x l y). Qed.
Lemma slice_from_1 x l : @slice_from E A (x :: l) 1 = Ok l.
Proof. exact (slice_from_app [x] l). Qed.

Lemma store_app l vs old k :
  length old = length vs ->
  @store E A (l ++ old ++ k) (zlen l) vs = Ok (l ++ vs ++ k).
Proof.
  revert l old. induction vs as [|v vs IH]; intros l [|o old] Hl; try done.
  simpl in *. rewrite upd_app. simpl.
  replace (zlen l + 1) with (zlen (l ++ [v])) by (rewrite zlen_app; done).
  replace (l ++ v :: old ++ k) with ((l ++ [v]) ++ old ++ k) by by rewrite <- app_assoc.
  rewrite IH by lia. by rewrite <- app_assoc.
Qed.

Lemma copy_at_app l old k src :
  length old = length src ->
  @copy_at E A (l ++ old ++ k) (zlen l) src = Ok (l ++ src ++ k, zlen src).
Proof.
  intros Hl. unfold copy_at. rewrite !zlen_app.
  pose proof (zlen_nonneg l); pose proof (zlen_nonneg k); pose proof (zlen_nonneg old).
  rewrite !(proj2 (Z.leb_le _ _)) by lia. simpl.
  unfold zlen. rewrite Nat2Z.id, !length_app.
  replace ((length l + (length old + length k) - length l) `min` length src)%nat
    with (length src) by lia.
  rewrite take_app_length, take_ge by lia.
  by rewrite <- Hl, drop_app_add, drop_app_length.
Qed.
End slices.

(** Indexing panics but returns no error. *)
Section no_errors.
Context {E A : Type}.
Implicit Types (l : list A).
Lemma idx_no_err l i e : @idx E A l i <> Err e.
Proof. unfold idx. by repeat case_match. Qed.
Lemma upd_no_err l i x e : @upd E A l i x <> Err e.
Proof. unfold upd. by repeat case_match. Qed.
Lemma slice_no_err l i j e : @slice E A l i j <> Err e.
Proof. unfold slice. by repeat case_match. Qed.
Lemma slice_from_no_err l i e : @slice_from E A l i <> Err e.
Proof. apply slice_no_err. Qed.
End no_errors.

Create HintDb go_errors.
#[export] Hint Resolve idx_no_err upd_no_err slice_no_err slice_from_no_err : go_errors.

(** [err_inv H]: splits [H : m = Err e] along the binds of [m]; indexing
    does not return errors. *)
Ltac err_inv H :=
  repeat match type of H with
  | (_ ≫= _) = Err _ =>
      let a := fresh "r" in let Ha := fresh "Hr" in
      apply bind_Err in H; destruct H as [H|(a & Ha & H)]
  | (let '(_, _) := ?p in _) = _ => destruct p
  | Ok _ = Err _ => discriminate H
  | Panic = Err _ => discriminate H
  | (if ?b then _ else _) = _ => destruct b
  | _ => exfalso; contradict H; solve [auto with go_errors]
  end.

#[global] Arguments idx : simpl never.
#[global] Arguments upd : simpl never.
#[global] Arguments slice : simpl never.
#[global] Arguments slice_from : simpl never.
#[global] Arguments copy_at : simpl never.
#[global] Arguments zlen : simpl never.

(** ** Big-endian integers *)

(** The value of a big-endian byte string. *)
Definition be_val (l : list Z) : Z := fold_left (fun acc b => acc * 256 + b) l 0.

(** The [n] low bytes of [x], most significant first. *)
Fixpoint be_bytes (n : nat) (x : Z) : list Z :=
  match n with
  | O => []
  | S n => be_bytes n (x / 256) ++ [x mod 256]
  end.

Lemma be_val_snoc l b : be_val (l ++ [b]) = be_val l * 256 + b.
Proof. unfold be_val. by rewrite fold_left_app. Qed.

Lemma be_val_bound l : bytes_ok l -> 0 <= be_val l < 256 ^ zlen l.
Proof.
  induction l as [|b l IH] using rev_ind; intros Hl; [done|].
  apply Forall_app in Hl as [Hl Hb]. rewrite Forall_singleton in Hb.
  specialize (IH Hl). rewrite be_val_snoc, zlen_app.
  replace (zlen [b]) with 1 by done. unfold is_byte in Hb.
  rewrite Z.pow_add_r, Z.pow_1_r by (pose proof (zlen_nonneg l); lia). lia.
Qed.

Lemma be_bytes_length n x : length (be_bytes n x) = n.
Proof.
  revert x. induction n as [|n IH]; intros x; [done|].
  simpl. rewrite length_app, IH. simpl. lia.
Qed.

Lemma be_bytes_ok n x : bytes_ok (be_bytes n x).
Proof.
  revert x. induction n as [|n IH]; intros x; simpl; [constructor|].
  apply Forall_app. split; [apply IH|]. apply Forall_singleton.
  unfold is_byte. apply Z.mod_pos_bound. lia.
Qed.

Lemma be_val_bytes n x : 0 <= x < 256 ^ Z.of_nat n -> be_val (be_bytes n x) = x.
Proof.
  revert x. induction n as [|n IH]; intros x Hx.
  - change (256 ^ Z.of_nat 0) with 1 in Hx. unfold be_val. simpl. lia.
  - simpl be_bytes. rewrite be_val_snoc, IH.
    + pose proof (Z_div_mod_eq_full x 256). lia.
    + rewrite Nat2Z.inj_succ, Z.pow_succ_r in Hx by lia.
      split; [apply Z.div_pos; lia|]. apply Z.div_lt_upper_bound; lia.
Qed.

Lemma be_bytes_val l : bytes_ok l -> be_bytes (length l) (be_val l) = l.
Proof.
  induction l as [|b l IH] using rev_ind; intros Hl; [done|].
  apply Forall_app in Hl as [Hl Hb]. rewrite Forall_singleton in Hb.
  rewrite length_app, Nat.add_comm. simpl. rewrite be_val_snoc. unfold is_byte in Hb.
  rewrite Z.div_add_l, Z.div_small, Z.add_0_r by lia.
  rewrite Z.add_comm, Z.mod_add, Z.mod_small by lia. by rewrite IH.
Qed.

(** A byte string without leading zero is determined by its value. *)
Lemma be_val_lower b l :
  bytes_ok (b :: l) -> b <> 0 -> 256 ^ zlen l <= be_val (b :: l).
Proof.
  intros Hl Hb. induction l as [|c l IH] using rev_ind.
  - apply Forall_inv in Hl. unfold is_byte in Hl. unfold be_val. simpl.
    change (256 ^ zlen []) with 1. lia.
  - rewrite app_comm_cons in *. apply Forall_app in Hl as [Hl Hc].
    rewrite Forall_singleton in Hc. specialize (IH Hl). unfold is_byte in Hc.
    rewrite be_val_snoc, zlen_app. change (zlen [c]) with 1.
    rewrite Z.pow_add_r, Z.pow_1_r by (pose proof (zlen_nonneg l); lia). lia.
Qed.

Lemma be_bytes_add n m x :
  be_bytes (n + m) x = be_bytes n (x / 256 ^ Z.of_nat m) ++ be_bytes m x.
Proof.
  revert x. induction m as [|m IH]; intros x.
  - by rewrite Nat.add_0_r, Z.div_1_r, app_nil_r.
  - rewrite Nat.add_succ_r. simpl. rewrite IH, <- app_assoc, Z.div_div by lia.
    rewrite Nat2Z.inj_succ, Z.pow_succ_r by lia. done.
Qed.

Lemma be_bytes_mod n m x : (n <= m)%nat -> be_bytes n (x mod 256 ^ Z.of_nat m) = be_bytes n x.
Proof.
  revert m x. induction n as [|n IH]; intros m x Hm; [done|].
  destruct m as [|m]; [lia|]. simpl.
  rewrite Nat2Z.inj_succ, Z.pow_succ_r by lia.
  rewrite Z.rem_mul_r by lia.
  rewrite Z.mul_comm, Z.div_add, Z.div_small, Z.add_0_l by (try apply Z.mod_pos_bound; lia).
  rewrite IH by lia. rewrite Z.mod_add, Z.mod_mod by lia. done.
Qed.

(** ** Maps keyed by hashes and addresses *)

(** The order in which Go visits a map: any order. *)
Class MapOrder := {
  map_order {V} (m : gmap (list Z) V) : list (list Z);
  map_order_spec {V} (m : gmap (list Z) V) : map_order m ≡ₚ (map_to_list m).*1;
}.

Section map_order.
Context {MO : MapOrder} {V : Type}.
Implicit Types (m : gmap (list Z) V).

Lemma map_order_elem m h : h ∈ map_order m <-> is_Some (m !! h).
Proof.
  rewrite (map_order_spec m), list_elem_of_fmap. split.
  - intros ([k v] & -> & Hkv). apply elem_of_map_to_list in Hkv. eauto.
  - intros [v Hv]. exists (h, v). split; [done|]. by apply elem_of_map_to_list.
Qed.

Lemma map_order_NoDup m : NoDup (map_order m).
Proof. rewrite (map_order_spec m). apply NoDup_fst_map_to_list. Qed.
End map_order.

Lemma map_order_set {MO : MapOrder} (X : gset (list Z)) h : h ∈ map_order (gset_to_gmap tt X) <-> h ∈ X.
Proof.
  rewrite map_order_elem, lookup_gset_to_gmap.
  destruct (decide (h ∈ X)); [rewrite option_guard_True by done|rewrite option_guard_False by done]; [split; [done|by eexists]|split; [by intros []|done]].
Qed.
