(* ===== verification/RlpEncode.v ===== *)
(** * The RLP encoder (src/rlp/encode.go)

    [encbuf] collects string data and list headers separately; [toBytes] and
    [toWriter] interleave them.  The file models the buffer, the type-directed writers
    and the rendering, and relates them to the recursive definition of RLP. *)
From stdpp Require Import prelude list.
From Stdlib Require Import ZArith Lia.
From S2P Require Import Prelude.

(** Errors of package rlp, and the [io] errors it passes on. *)
Inductive rlp_error :=
| EOF | ErrUnexpectedEOF | EOL
| ErrExpectedString | ErrExpectedList
| ErrCanonInt | ErrCanonSize | ErrElemTooLarge | ErrValueTooLarge
| ErrMoreThanOneValue
| errNotInList | errNotAtEOL | errUintOverflow
| errNegativeBigInt
| errInvalidBool (num : Z)
| decodeError (msg : decode_msg)
with decode_msg :=
| msgCanonInt | msgCanonSize | msgExpectedList | msgExpectedString
| msgTooLong | msgTooManyElems | msgTooFewElems | msgTooShort
| msgWrongEmptyKind.

Abbreviation rlp A := (outcome rlp_error A).

(** ** Integers *)

(** The loop of [intsize]; a [uint64] needs at most eight rounds. *)
Fixpoint intsize_loop (fuel : nat) (i size : Z) : Z :=
  match fuel with
  | O => size
  | S fuel =>
      let i := Z.shiftr i 8 in
      if i =? 0 then size else intsize_loop fuel i (size + 1)
  end.

Definition intsize (i : Z) : Z := intsize_loop 8 i 1.

(** The buffer with the integer written at its beginning, and the number of
    bytes written. *)
Definition putint (b : list Z) (i : Z) : rlp (list Z * Z) :=
  let byte k := u8 (Z.shiftr i k) in
  if i <? Z.shiftl 1 8 then
    b ← store b 0 [byte 0]; Ok (b, 1)
  else if i <? Z.shiftl 1 16 then
    b ← store b 0 [byte 8; byte 0]; Ok (b, 2)
  else if i <? Z.shiftl 1 24 then
    b ← store b 0 [byte 16; byte 8; byte 0]; Ok (b, 3)
  else if i <? Z.shiftl 1 32 then
    b ← store b 0 [byte 24; byte 16; byte 8; byte 0]; Ok (b, 4)
  else if i <? Z.shiftl 1 40 then
    b ← store b 0 [byte 32; byte 24; byte 16; byte 8; byte 0]; Ok (b, 5)
  else if i <? Z.shiftl 1 48 then
    b ← store b 0 [byte 40; byte 32; byte 24; byte 16; byte 8; byte 0]; Ok (b, 6)
  else if i <? Z.shiftl 1 56 then
    b ← store b 0 [byte 48; byte 40; byte 32; byte 24; byte 16; byte 8; byte 0];
    Ok (b, 7)
  else
    b ← store b 0 [byte 56; byte 48; byte 40; byte 32; byte 24; byte 16; byte 8; byte 0];
    Ok (b, 8).

Definition headsize (size : Z) : Z :=
  if size <? 56 then 1 else 1 + intsize size.

(** [s := putint(buf[1:], i); buf[0] = tag + byte(s)] *)
Definition put_tagged (buf : list Z) (tag i : Z) : rlp (list Z * Z) :=
  tl ← slice_from buf 1;
  '(tl, s) ← putint tl i;
  buf ← upd (take 1 buf ++ tl) 0 (u8 (tag + u8 s));
  Ok (buf, s).

Definition puthead (buf : list Z) (smalltag largetag size : Z) : rlp (list Z * Z) :=
  if size <? 56 then
    buf ← upd buf 0 (u8 (smalltag + u8 size));
    Ok (buf, 1)
  else
    '(buf, sizesize) ← put_tagged buf largetag size;
    Ok (buf, sizesize + 1).

(** ** The encoder buffer *)

Record listhead := ListHead {
  offset : Z;   (* index of this header in string data *)
  lh_size : Z   (* total size of encoded data (including list headers) *)
}.

Record encbuf := EncBuf {
  str : list Z;
  lheads : list listhead;
  lhsize : Z;
  sizebuf : list Z
}.

(** [eb.reset()] on a buffer of the pool. *)
Definition reset (w : encbuf) : encbuf := EncBuf [] [] 0 (sizebuf w).

Definition new_encbuf : encbuf := EncBuf [] [] 0 (replicate 9 0).

(** [w.str = append(w.str, b...)] *)
Definition append_str (w : encbuf) (b : list Z) : encbuf :=
  EncBuf (str w ++ b) (lheads w) (lhsize w) (sizebuf w).

Definition listhead_encode (head : listhead) (buf : list Z) : rlp (list Z * Z) :=
  puthead buf 0xC0 0xF7 (u64 (lh_size head)).

(** [s := putint(w.sizebuf[1:], i); w.sizebuf[0] = tag + byte(s);
    w.str = append(w.str, w.sizebuf[:s+1]...)] *)
Definition append_sized (w : encbuf) (tag i : Z) : rlp encbuf :=
  '(sb, s) ← put_tagged (sizebuf w) tag i;
  hd ← slice sb 0 (s + 1);
  Ok (EncBuf (str w ++ hd) (lheads w) (lhsize w) sb).

Definition encodeStringHeader (w : encbuf) (size : Z) : rlp encbuf :=
  if size <? 56 then Ok (append_str w [u8 (0x80 + u8 size)])
  else append_sized w 0xB7 (u64 size).

Definition encodeString (w : encbuf) (b : list Z) : rlp encbuf :=
  match b with
  | [x] => if x <=? 0x7F then Ok (append_str w [x])
           else w ← encodeStringHeader w (zlen b); Ok (append_str w b)
  | _ => w ← encodeStringHeader w (zlen b); Ok (append_str w b)
  end.

Definition encodeUint (w : encbuf) (i : Z) : rlp encbuf :=
  if i =? 0 then Ok (append_str w [0x80])
  else if i <? 128 then Ok (append_str w [u8 i])
  else append_sized w 0x80 i.

Definition size (w : encbuf) : Z := zlen (str w) + lhsize w.

(** [w.list()]: the buffer with a new header whose size field holds the
    header bytes written so far, and the index of the header. *)
Definition list_start (w : encbuf) : encbuf * Z :=
  (EncBuf (str w) (lheads w ++ [ListHead (zlen (str w)) (lhsize w)])
          (lhsize w) (sizebuf w),
   zlen (lheads w)).

Definition listEnd (w : encbuf) (index : Z) : rlp encbuf :=
  lh ← idx (lheads w) index;
  let sz := size w - offset lh - lh_size lh in
  lhs ← upd (lheads w) index (ListHead (offset lh) sz);
  Ok (EncBuf (str w) lhs
        (if sz <? 56 then lhsize w + 1 else lhsize w + (1 + intsize (u64 sz)))
        (sizebuf w)).

(** The loop of [toBytes] over the headers: output, write position, position
    in the string data. *)
Fixpoint toBytes_loop (s : list Z) (heads : list listhead) (out : list Z) (pos strpos : Z)
    : rlp (list Z * Z * Z) :=
  match heads with
  | [] => Ok (out, pos, strpos)
  | head :: heads =>
      piece ← slice s strpos (offset head);
      '(out, n) ← copy_at out pos piece;
      let pos := pos + n in
      let strpos := strpos + n in
      tl ← slice_from out pos;
      '(tl, k) ← listhead_encode head tl;
      enc ← slice tl 0 k;
      toBytes_loop s heads (take (Z.to_nat pos) out ++ tl) (pos + zlen enc) strpos
  end.

(** [copy(out[pos:], w.str[strpos:]); return out] *)
Definition toBytes_finish (s : list Z) (st : list Z * Z * Z) : rlp (list Z) :=
  let '(out, pos, strpos) := st in
  rest ← slice_from s strpos;
  '(out, _) ← copy_at out pos rest;
  Ok out.

Definition toBytes (w : encbuf) : rlp (list Z) :=
  st ← toBytes_loop (str w) (lheads w) (replicate (Z.to_nat (size w)) 0) 0 0;
  toBytes_finish (str w) st.

(** The loop of [toWriter]: [out] is what the writer, a buffer or a hash, has
    been given so far.  Such a writer takes everything and never fails. *)
Fixpoint toWriter_loop (s : list Z) (heads : list listhead) (sb out : list Z) (strpos : Z) : rlp (list Z * Z) :=
  match heads with
  | [] => Ok (out, strpos)
  | head :: heads =>
      '(out, strpos) ← (if offset head - strpos >? 0
                        then piece ← slice s strpos (offset head); Ok (out ++ piece, strpos + zlen piece)
                        else Ok (out, strpos));
      '(sb, k) ← listhead_encode head sb;
      enc ← slice sb 0 k;
      toWriter_loop s heads sb (out ++ enc) strpos
  end.

Definition toWriter (w : encbuf) (out : list Z) : rlp (list Z) :=
  '(out, strpos) ← toWriter_loop (str w) (lheads w) (sizebuf w) out 0;
  if strpos <? zlen (str w) then rest ← slice_from (str w) strpos; Ok (out ++ rest) else Ok out.

(** ** Writers *)

(** The Go value handed to [Encode], by the writer that [makeWriter] picks
    for its type. *)
Inductive item :=
| IRaw (b : list Z)          (* RawValue *)
| IBigInt (i : Z)            (* big.Int, or a non-nil *big.Int *)
| INilBigInt                 (* a nil *big.Int *)
| IUint (i : Z)
| IBool (b : bool)
| IString (b : list Z)       (* string: writeString *)
| IBytes (b : list Z)        (* []byte: writeBytes *)
| IByteArray (b : list Z)    (* [N]byte *)
| IList (l : list item)      (* slice, array or struct *)
| INilPtr (nil_is_string : bool)
| INilInterface.

(** [i.BitLen()] *)
Definition bit_len (i : Z) : Z := if i =? 0 then 0 else Z.log2 (Z.abs i) + 1.

(** [i.Bits()]: the little-endian 64-bit words of [i], [n] of them. *)
Fixpoint big_words (n : nat) (i : Z) : list Z :=
  match n with
  | O => []
  | S n => i mod 2 ^ 64 :: big_words n (i / 2 ^ 64)
  end.

Definition Bits (i : Z) : list Z :=
  big_words (Z.to_nat ((bit_len i + 63) / 64)) (Z.abs i).

(** The inner loop of [writeBigInt]: at most eight bytes of the word [d]. *)
Fixpoint write_word (j : nat) (d : Z) (buf : list Z) (index : Z) : rlp (list Z * Z) :=
  match j with
  | O => Ok (buf, index)
  | S j =>
      if index >? 0 then
        buf ← upd buf (index - 1) (u8 d);
        write_word j (Z.shiftr d 8) buf (index - 1)
      else Ok (buf, index)
  end.

Fixpoint write_words (ws : list Z) (buf : list Z) (index : Z) : rlp (list Z * Z) :=
  match ws with
  | [] => Ok (buf, index)
  | d :: ws =>
      '(buf, index) ← write_word 8 d buf index;
      write_words ws buf index
  end.

Definition writeBigInt (i : Z) (w : encbuf) : rlp encbuf :=
  if i <? 0 then Err errNegativeBigInt
  else
    let bitlen := bit_len i in
    if bitlen <=? 64 then encodeUint w (u64 i)
    else
      let length := Z.shiftr (Z.land (bitlen + 7) (-8)) 3 in
      w ← encodeStringHeader w length;
      '(buf, _) ← write_words (Bits i) (replicate (Z.to_nat length) 0) length;
      Ok (append_str w buf).

Definition writeBool (b : bool) (w : encbuf) : encbuf :=
  if b then append_str w [0x01] else append_str w [0x80].

Definition writeString (s : list Z) (w : encbuf) : rlp encbuf :=
  match s with
  | [x] => if x <=? 0x7F then Ok (append_str w [x])
           else w ← encodeStringHeader w (zlen s); Ok (append_str w s)
  | _ => w ← encodeStringHeader w (zlen s); Ok (append_str w s)
  end.

(** [makeByteArrayWriter]: by the length of the array. *)
Definition writeByteArray (b : list Z) (w : encbuf) : rlp encbuf :=
  match b with
  | [] => Ok (append_str w [0x80])
  | [x] => if x <=? 0x7F then Ok (append_str w [x]) else Ok (append_str w [0x81; x])
  | _ => w ← encodeStringHeader w (zlen b); Ok (append_str w b)
  end.

(** The writer of the value's type. *)
Fixpoint write_item (it : item) (w : encbuf) : rlp encbuf :=
  match it with
  | IRaw b => Ok (append_str w b)
  | IBigInt i => writeBigInt i w
  | INilBigInt => Ok (append_str w [0x80])
  | IUint i => encodeUint w i
  | IBool b => Ok (writeBool b w)
  | IString b => writeString b w
  | IBytes b => encodeString w b
  | IByteArray b => writeByteArray b w
  | IList l =>
      let '(w, lh) := list_start w in
      w ← (fix write_elems (l : list item) (w : encbuf) : rlp encbuf :=
             match l with
             | [] => Ok w
             | x :: l => w ← write_item x w; write_elems l w
             end) l w;
      listEnd w lh
  | INilPtr true => Ok (append_str w [0x80])
  | INilPtr false => let '(w, lh) := list_start w in listEnd w lh
  | INilInterface => Ok (append_str w [0xC0])
  end.

Fixpoint write_elems (l : list item) (w : encbuf) : rlp encbuf :=
  match l with
  | [] => Ok w
  | x :: l => w ← write_item x w; write_elems l w
  end.

(** [w.encode(val)].  A nil interface as the value itself has no type to look
    up: [rval.Type()] panics. *)
Definition encode (val : item) (w : encbuf) : rlp encbuf :=
  match val with
  | INilInterface => Panic
  | _ => write_item val w
  end.

(** [Encode] to a writer that is no [encbuf]. *)
Definition Encode (out : list Z) (val : item) (pooled : encbuf) : rlp (list Z) :=
  w ← encode val (reset pooled);
  toWriter w out.

Definition EncodeToBytes (val : item) (pooled : encbuf) : rlp (list Z) :=
  w ← encode val (reset pooled);
  toBytes w.

(** ** RLP as the yellow paper defines it *)

Definition head_spec (smalltag largetag size : Z) : list Z :=
  if size <? 56 then [smalltag + size]
  else (largetag + intsize size) :: be_bytes (Z.to_nat (intsize size)) size.

Definition string_spec (b : list Z) : list Z :=
  match b with
  | [x] => if x <? 128 then [x] else head_spec 0x80 0xB7 (zlen b) ++ b
  | _ => head_spec 0x80 0xB7 (zlen b) ++ b
  end.

Definition list_spec (payload : list Z) : list Z :=
  head_spec 0xC0 0xF7 (zlen payload) ++ payload.

(** The big-endian bytes of an integer without leading zeroes. *)
Definition int_spec (i : Z) : list Z :=
  be_bytes (Z.to_nat ((bit_len i + 7) / 8)) i.

Fixpoint rlp_spec (it : item) : list Z :=
  match it with
  | IRaw b => b
  | IBigInt i | IUint i => string_spec (int_spec i)
  | IBool b => string_spec (if b then [1] else [])
  | IString b | IBytes b | IByteArray b => string_spec b
  | INilBigInt | INilPtr true => string_spec []
  | INilPtr false | INilInterface => list_spec []
  | IList l => list_spec (concat (map rlp_spec l))
  end.

(** Values that exist as Go values. *)
Fixpoint item_ok (it : item) : Prop :=
  match it with
  | IRaw b | IString b | IBytes b | IByteArray b => bytes_ok b
  | IUint i => is_u64 i
  | IList l => Forall id (map item_ok l)
  | _ => True
  end.

(** The value contains no negative [big.Int]. *)
Fixpoint nonneg_ints (it : item) : bool :=
  match it with
  | IBigInt i => 0 <=? i
  | IList l => forallb nonneg_ints l
  | _ => true
  end.

(** ** Integer lemmas *)

Lemma intsize_loop_spec fuel i size :
  0 <= i < 256 ^ Z.of_nat (S fuel) ->
  let s := intsize_loop (S fuel) i size in
  size <= s <= size + Z.of_nat fuel /\ i < 256 ^ (s - size + 1) /\
  (size < s -> 256 ^ (s - size) <= i).
Proof.
  revert i size. induction fuel as [|fuel IH]; intros i size Hi; simpl.
  - change (Z.of_nat 1) with 1 in Hi. rewrite Z.shiftr_div_pow2 by lia.
    change (2 ^ 8) with 256. rewrite Z.div_small by lia. simpl.
    replace (size - size + 1) with 1 by lia. lia.
  - rewrite Z.shiftr_div_pow2 by lia. change (2 ^ 8) with 256.
    destruct (Z.eqb_spec (i / 256) 0) as [H0|H0].
    { replace (size - size + 1) with 1 by lia.
      pose proof (Z_div_mod_eq_full i 256); pose proof (Z.mod_pos_bound i 256). lia. }
    assert (Hq : 0 <= i / 256 < 256 ^ Z.of_nat (S fuel)).
    { split; [apply Z.div_pos; lia|]. apply Z.div_lt_upper_bound; [lia|].
      rewrite Nat2Z.inj_succ, Z.pow_succ_r in Hi by lia. lia. }
    destruct (IH _ (size + 1) Hq) as (Hs & Hub & Hlb).
    set (s := intsize_loop (S fuel) (i / 256) (size + 1)) in *.
    change (size <= s <= size + Z.of_nat (S fuel) /\ i < 256 ^ (s - size + 1) /\
            (size < s -> 256 ^ (s - size) <= i)).
    split; [lia|].
    replace (s - size + 1) with (Z.succ (s - (size + 1) + 1)) by lia.
    rewrite Z.pow_succ_r by lia.
    pose proof (Z_div_mod_eq_full i 256); pose proof (Z.mod_pos_bound i 256).
    split; [lia|]. intros _.
    destruct (Z.eq_dec s (size + 1)) as [->|].
    + replace (size + 1 - size) with 1 by lia. lia.
    + replace (s - size) with (Z.succ (s - (size + 1))) by lia.
      rewrite Z.pow_succ_r by lia. lia.
Qed.

Lemma intsize_spec i :
  is_u64 i ->
  1 <= intsize i <= 8 /\ i < 256 ^ intsize i /\ (1 < intsize i -> 256 ^ (intsize i - 1) <= i).
Proof.
  unfold is_u64. intros Hi. destruct (intsize_loop_spec 7 i 1) as (? & Hub & ?); [lia|].
  fold (intsize i) in *. replace (intsize i - 1 + 1) with (intsize i) in Hub by lia. lia.
Qed.

Lemma pow256_unique i n m :
  0 < n -> 0 < m -> 256 ^ (n - 1) <= i < 256 ^ n -> 256 ^ (m - 1) <= i < 256 ^ m -> n = m.
Proof.
  intros Hn Hm Hin Him.
  assert (n - 1 < m) by (apply (Z.pow_lt_mono_r_iff 256); lia).
  assert (m - 1 < n) by (apply (Z.pow_lt_mono_r_iff 256); lia). lia.
Qed.

Lemma intsize_unique i n :
  is_u64 i -> 0 < n -> 256 ^ (n - 1) <= i < 256 ^ n -> intsize i = n.
Proof.
  intros Hi Hn Hb. destruct (intsize_spec i Hi) as (? & Hub & Hlb).
  destruct (Z.eq_dec (intsize i) 1) as [H1|].
  - rewrite H1 in *. assert (n - 1 < 1) by (apply (Z.pow_lt_mono_r_iff 256); lia). lia.
  - apply (pow256_unique i); lia.
Qed.

Lemma intsize_small i : 0 <= i < 256 -> intsize i = 1.
Proof.
  intros Hi. destruct (intsize_spec i) as (? & Hub & Hlb); [unfold is_u64; lia|].
  destruct (Z.eq_dec (intsize i) 1); [done|].
  assert (256 ^ 1 <= 256 ^ (intsize i - 1)) by (apply Z.pow_le_mono_r; lia). lia.
Qed.

Lemma u8_shiftr i k : 0 <= k -> u8 (Z.shiftr i k) = i / 2 ^ k mod 256.
Proof. intros. unfold u8. by rewrite Z.shiftr_div_pow2. Qed.

Lemma putint_spec old k i :
  is_u64 i -> zlen old = intsize i ->
  putint (old ++ k) i = Ok (be_bytes (Z.to_nat (intsize i)) i ++ k, intsize i).
Proof.
  intros Hi Hold. unfold putint.
  assert (Hcase : forall n vs, intsize i = n -> be_bytes (Z.to_nat n) i = vs ->
            (b ← store (old ++ k) 0 vs; Ok (b, n)) =
            (Ok (be_bytes (Z.to_nat (intsize i)) i ++ k, intsize i) : rlp _)).
  { intros n vs <- <-.
    pose proof (store_app (E:=rlp_error) [] (be_bytes (Z.to_nat (intsize i)) i) old k) as Hs.
    simpl app in Hs. rewrite zlen_nil in Hs. rewrite Hs; [done|].
    rewrite be_bytes_length. unfold zlen in Hold. lia. }
  unfold is_u64 in Hi.
  repeat lazymatch goal with
  | |- context [if i <? ?b then _ else _] =>
      let v := eval vm_compute in b in change b with v; destruct (Z.ltb_spec i v)
  end;
  apply Hcase;
  (apply intsize_small || (apply intsize_unique; unfold is_u64)
   || (simpl; rewrite !u8_shiftr by lia; rewrite ?Z.div_1_r, ?Z.div_div by lia)); try lia; try done.
Qed.

(** ** Headers *)

Lemma zlen_be_bytes n x : zlen (be_bytes n x) = Z.of_nat n.
Proof. unfold zlen. by rewrite be_bytes_length. Qed.

Lemma zlen_head_spec small large sz :
  is_u64 sz -> zlen (head_spec small large sz) = headsize sz.
Proof.
  intros Hsz. unfold head_spec, headsize. destruct (Z.ltb_spec sz 56); [done|].
  rewrite zlen_cons, zlen_be_bytes. destruct (intsize_spec sz Hsz). lia.
Qed.

Lemma headsize_bound sz : is_u64 sz -> 1 <= headsize sz <= 9.
Proof.
  intros Hsz. unfold headsize. destruct (Z.ltb_spec sz 56); [lia|].
  destruct (intsize_spec sz Hsz). lia.
Qed.

Lemma put_tagged_spec old k tag i :
  is_u64 i -> zlen old = 1 + intsize i -> 0 <= tag < 248 ->
  put_tagged (old ++ k) tag i =
  Ok (((tag + intsize i) :: be_bytes (Z.to_nat (intsize i)) i) ++ k, intsize i).
Proof.
  intros Hi Hold Htag. destruct (intsize_spec i Hi) as [Hs _].
  destruct old as [|x old]; [rewrite zlen_nil in Hold; lia|]. rewrite zlen_cons in Hold.
  pose proof (slice_from_app (E:=rlp_error) [x] (old ++ k)) as Hsl.
  change (zlen [x]) with 1 in Hsl. unfold put_tagged. simpl app in *. rewrite Hsl. bind_simpl.
  rewrite putint_spec by lia || done. bind_simpl.
  pose proof (upd_app (E:=rlp_error) [] x (be_bytes (Z.to_nat (intsize i)) i ++ k)
                (u8 (tag + u8 (intsize i)))) as Hu.
  rewrite zlen_nil in Hu. simpl app in *. rewrite Hu. bind_simpl.
  rewrite (u8_small (intsize i)), u8_small by (unfold is_byte; lia). done.
Qed.

Lemma puthead_spec old k small large sz :
  is_u64 sz -> zlen old = headsize sz -> 0 <= small < 200 -> 0 <= large < 248 ->
  puthead (old ++ k) small large sz =
  Ok (head_spec small large sz ++ k, headsize sz).
Proof.
  intros Hsz Hold Hsm Hlg. unfold puthead, headsize, head_spec in *.
  unfold is_u64 in Hsz. destruct (Z.ltb_spec sz 56).
  - destruct old as [|x [|y old]]; [rewrite zlen_nil in Hold; lia| |].
    2: { rewrite !zlen_cons in Hold. pose proof (zlen_nonneg old). lia. }
    pose proof (upd_app (E:=rlp_error) [] x k (u8 (small + u8 sz))) as Hu.
    rewrite zlen_nil in Hu. simpl app in *. rewrite Hu. simpl.
    rewrite (u8_small sz), u8_small by (unfold is_byte; lia). done.
  - rewrite put_tagged_spec by done. bind_simpl. by rewrite (Z.add_comm 1).
Qed.

(** ** Rendering *)

(** The bytes that string data [s], starting at string offset [base], and
    the headers [hs] stand for. *)
Fixpoint render (base : Z) (s : list Z) (hs : list listhead) : list Z :=
  match hs with
  | [] => s
  | h :: hs =>
      let n := Z.to_nat (offset h - base) in
      take n s ++ head_spec 0xC0 0xF7 (lh_size h) ++ render (offset h) (drop n s) hs
  end.

(** The headers point into the string data, in order. *)
Fixpoint heads_ok (base : Z) (s : list Z) (hs : list listhead) : Prop :=
  match hs with
  | [] => True
  | h :: hs =>
      base <= offset h <= base + zlen s /\ is_u64 (lh_size h) /\
      heads_ok (offset h) (drop (Z.to_nat (offset h - base)) s) hs
  end.

Definition heads_size (hs : list listhead) : Z :=
  foldr (fun h acc => headsize (lh_size h) + acc) 0 hs.

Lemma heads_size_app hs hs' : heads_size (hs ++ hs') = heads_size hs + heads_size hs'.
Proof. induction hs as [|h hs IH]; simpl; [done|]. unfold heads_size in *. simpl. lia. Qed.

Lemma zlen_render base s hs :
  heads_ok base s hs -> zlen (render base s hs) = zlen s + heads_size hs.
Proof.
  revert base s. induction hs as [|h hs IH]; intros base s; simpl; [unfold heads_size; simpl; lia|].
  intros (Hoff & Hsz & Hok). rewrite !zlen_app, (IH _ _ Hok), zlen_head_spec by done.
  rewrite zlen_take, zlen_drop by lia. unfold heads_size. simpl. lia.
Qed.

Lemma render_app_str base s s' hs :
  heads_ok (base + zlen s) s' hs ->
  heads_ok base (s ++ s') hs /\
  render base (s ++ s') hs = s ++ render (base + zlen s) s' hs.
Proof.
  destruct hs as [|h hs]; simpl; [done|]. intros (Hoff & Hsz & Hok).
  pose proof (zlen_nonneg s).
  assert (Hd : drop (Z.to_nat (offset h - base)) (s ++ s') =
               drop (Z.to_nat (offset h - (base + zlen s))) s').
  { rewrite drop_app_ge by (unfold zlen in *; lia). f_equal. unfold zlen in *. lia. }
  rewrite Hd, zlen_app. split; [split; [lia|done]|].
  rewrite take_app_ge by (unfold zlen in *; lia).
  rewrite <- app_assoc. do 2 f_equal. f_equal. unfold zlen in *. lia.
Qed.

Lemma render_app base s s' hs hs' :
  heads_ok base s hs -> heads_ok (base + zlen s) s' hs' ->
  heads_ok base (s ++ s') (hs ++ hs') /\
  render base (s ++ s') (hs ++ hs') =
  render base s hs ++ render (base + zlen s) s' hs'.
Proof.
  revert base s. induction hs as [|h hs IH]; intros base s; simpl.
  { intros _. apply render_app_str. }
  intros (Hoff & Hsz & Hok) Hok'. pose proof (zlen_nonneg s').
  assert (Hlen : offset h + zlen (drop (Z.to_nat (offset h - base)) s) = base + zlen s).
  { rewrite zlen_drop by lia. lia. }
  rewrite <- Hlen in Hok'. destruct (IH _ _ Hok Hok') as [Hok2 Hr].
  rewrite Hlen in Hr.
  rewrite drop_app_le, take_app_le by (unfold zlen in *; lia).
  split; [rewrite zlen_app; split; [lia|done]|].
  rewrite Hr. by rewrite !app_assoc.
Qed.

Lemma heads_size_nonneg base s hs : heads_ok base s hs -> 0 <= heads_size hs.
Proof.
  revert base s. induction hs as [|h hs IH]; intros base s; unfold heads_size in *; simpl; [lia|].
  intros (_ & Hsz & Hok). pose proof (headsize_bound _ Hsz). specialize (IH _ _ Hok). lia.
Qed.

(** One round of the loop of [toBytes]. *)
Lemma toBytes_step h hs s1 s2 pre dn o1 o2 o3 :
  offset h = zlen pre + zlen s1 -> is_u64 (lh_size h) ->
  zlen o1 = zlen s1 -> zlen o2 = headsize (lh_size h) ->
  let dn' := dn ++ s1 ++ head_spec 0xC0 0xF7 (lh_size h) in
  toBytes_loop (pre ++ s1 ++ s2) (h :: hs) (dn ++ o1 ++ o2 ++ o3) (zlen dn) (zlen pre) =
  toBytes_loop (pre ++ s1 ++ s2) hs (dn' ++ o3) (zlen dn') (zlen pre + zlen s1).
Proof.
  intros Hoff Hsz Ho1 Ho2. simpl. rewrite Hoff, slice_app. simpl.
  rewrite copy_at_app by (unfold zlen in *; lia). simpl.
  replace (zlen dn + zlen s1) with (zlen (dn ++ s1)) by by rewrite zlen_app.
  rewrite (app_assoc dn s1), slice_from_app. simpl.
  unfold listhead_encode. rewrite u64_small, puthead_spec by (done || lia). simpl.
  pose proof (slice_app (E:=rlp_error) [] (head_spec 192 247 (lh_size h)) o3) as Hsl.
  rewrite zlen_nil, zlen_head_spec, Z.add_0_l in Hsl by done. simpl app in Hsl. rewrite Hsl. simpl.
  unfold zlen at 1. rewrite Nat2Z.id, take_app_length.
  rewrite !zlen_app, <- !app_assoc, Z.add_assoc. done.
Qed.

Lemma toBytes_loop_spec hs s pre dn old :
  heads_ok (zlen pre) s hs -> zlen old = zlen s + heads_size hs ->
  (toBytes_loop (pre ++ s) hs (dn ++ old) (zlen dn) (zlen pre) ≫= toBytes_finish (pre ++ s)) =
  Ok (dn ++ render (zlen pre) s hs).
Proof.
  revert s pre dn old. induction hs as [|h hs IH]; intros s pre dn old Hok Hold.
  - simpl. rewrite slice_from_app. simpl. unfold heads_size in Hold. simpl in Hold.
    rewrite <- (app_nil_r old), copy_at_app by (unfold zlen in *; lia).
    simpl. by rewrite app_nil_r.
  - destruct Hok as (Hoff & Hsz & Hok). pose proof (headsize_bound _ Hsz).
    pose proof (heads_size_nonneg _ _ _ Hok).
    change (heads_size (h :: hs)) with (headsize (lh_size h) + heads_size hs) in Hold.
    destruct (zlen_split s (offset h - zlen pre)) as (s1 & s2 & -> & Hs1 & _); [lia|].
    simpl render. rewrite <- Hs1 in Hok |- *. rewrite drop_zlen_app in Hok |- *.
    rewrite take_zlen_app. rewrite zlen_app in Hold. clear Hoff.
    pose proof (zlen_nonneg s1); pose proof (zlen_nonneg s2).
    destruct (zlen_split old (zlen s1)) as (o1 & o23 & -> & Ho1 & Ho23); [lia|].
    destruct (zlen_split o23 (headsize (lh_size h))) as (o2 & o3 & -> & Ho2 & Ho3); [lia|].
    rewrite toBytes_step by lia || done.
    replace (zlen pre + zlen s1) with (zlen (pre ++ s1)) by by rewrite zlen_app.
    rewrite (app_assoc pre s1).
    replace (offset h) with (zlen (pre ++ s1)) in * by (rewrite zlen_app; lia).
    rewrite IH by (done || lia). by rewrite <- !app_assoc.
Qed.

(** [toBytes] renders the buffer. *)
Lemma toBytes_spec w :
  heads_ok 0 (str w) (lheads w) -> lhsize w = heads_size (lheads w) ->
  toBytes w = Ok (render 0 (str w) (lheads w)).
Proof.
  intros Hok Hsz. unfold toBytes, size.
  apply (toBytes_loop_spec (lheads w) (str w) [] [] _ Hok).
  rewrite zlen_replicate, Hsz. pose proof (heads_size_nonneg _ _ _ Hok).
  pose proof (zlen_nonneg (str w)). lia.
Qed.

Lemma toWriter_loop_spec hs s pre sb out :
  heads_ok (zlen pre) s hs -> zlen sb = 9 ->
  ('(out, strpos) ← toWriter_loop (pre ++ s) hs sb out (zlen pre);
   if strpos <? zlen (pre ++ s) then rest ← slice_from (pre ++ s) strpos; Ok (out ++ rest) else Ok out) =
  Ok (out ++ render (zlen pre) s hs).
Proof.
  revert s pre sb out. induction hs as [|h hs IH]; intros s pre sb out Hok Hsb.
  - simpl. rewrite slice_from_app, zlen_app. bind_simpl. destruct s as [|x s].
    + by rewrite zlen_nil, Z.add_0_r, Z.ltb_irrefl, app_nil_r.
    + rewrite zlen_cons. pose proof (zlen_nonneg s). by rewrite (proj2 (Z.ltb_lt _ _)) by lia.
  - destruct Hok as (Hoff & Hsz & Hok). pose proof (headsize_bound _ Hsz).
    destruct (zlen_split s (offset h - zlen pre)) as (s1 & s2 & -> & Hs1 & _); [lia|].
    destruct (zlen_split sb (headsize (lh_size h))) as (o1 & o2 & -> & Ho1 & Ho2); [lia|].
    simpl render. rewrite <- Hs1 in Hok |- *. rewrite drop_zlen_app in Hok |- *. rewrite take_zlen_app.
    assert (Hh : offset h = zlen (pre ++ s1)) by (rewrite zlen_app; lia). rewrite Hh in Hok |- *. cbn [toWriter_loop]. rewrite Hh.
    assert (Hpiece : (if zlen (pre ++ s1) - zlen pre >? 0
        then piece ← slice (pre ++ s1 ++ s2) (zlen pre) (zlen (pre ++ s1)); Ok (out ++ piece, zlen pre + zlen piece)
        else Ok (out, zlen pre)) = (Ok (out ++ s1, zlen (pre ++ s1)) : rlp _)).
    { rewrite zlen_app, slice_app. bind_simpl. destruct s1 as [|x s1].
      - rewrite zlen_nil, Z.add_0_r, Z.sub_diag, app_nil_r. done.
      - rewrite zlen_cons. pose proof (zlen_nonneg s1). rewrite Z.gtb_ltb, (proj2 (Z.ltb_lt _ _)) by lia. done. }
    rewrite Hpiece. bind_simpl. unfold listhead_encode. rewrite u64_small, puthead_spec by (done || lia). bind_simpl.
    pose proof (slice_app (E:=rlp_error) [] (head_spec 192 247 (lh_size h)) o2) as Hsl.
    rewrite zlen_nil, zlen_head_spec, Z.add_0_l in Hsl by done. simpl app in Hsl. rewrite Hsl. bind_simpl.
    rewrite (app_assoc pre s1), IH; [by rewrite <- !app_assoc|done|]. rewrite zlen_app, zlen_head_spec in * by done. lia.
Qed.

(** [toWriter] writes the same. *)
Lemma toWriter_spec w out :
  heads_ok 0 (str w) (lheads w) -> zlen (sizebuf w) = 9 -> toWriter w out = Ok (out ++ render 0 (str w) (lheads w)).
Proof. exact (toWriter_loop_spec (lheads w) (str w) [] (sizebuf w) out). Qed.

(** ** What a writer emits *)

(** [w'] is [w] after the bytes [out] were emitted. *)
Definition emits (w w' : encbuf) (out : list Z) : Prop :=
  exists s hs sb,
    w' = EncBuf (str w ++ s) (lheads w ++ hs) (lhsize w + heads_size hs) sb /\
    zlen sb = 9 /\ heads_ok (zlen (str w)) s hs /\ render (zlen (str w)) s hs = out.

Lemma emits_sizebuf w w' out : emits w w' out -> zlen (sizebuf w') = 9.
Proof. by intros (s & hs & sb & -> & ? & _). Qed.

Lemma emits_str w b sb :
  zlen sb = 9 -> emits w (EncBuf (str w ++ b) (lheads w) (lhsize w) sb) b.
Proof.
  intros Hsb. exists b, [], sb. rewrite app_nil_r. unfold heads_size. simpl.
  by rewrite Z.add_0_r.
Qed.

Lemma emits_append w b : zlen (sizebuf w) = 9 -> emits w (append_str w b) b.
Proof. apply emits_str. Qed.

Lemma emits_trans w w1 w2 o1 o2 : emits w w1 o1 -> emits w1 w2 o2 -> emits w w2 (o1 ++ o2).
Proof.
  intros (s1 & hs1 & sb1 & -> & _ & Hok1 & <-) (s2 & hs2 & sb2 & -> & Hsb & Hok2 & <-).
  simpl in *. rewrite zlen_app in *. destruct (render_app _ _ _ _ _ Hok1 Hok2) as [Hok Hr].
  exists (s1 ++ s2), (hs1 ++ hs2), sb2. rewrite heads_size_app, !app_assoc, Z.add_assoc.
  by rewrite Hr.
Qed.

Lemma emits_list w w' out :
  is_u64 (zlen out) -> emits (list_start w).1 w' out ->
  exists w'', listEnd w' (list_start w).2 = Ok w'' /\ emits w w'' (list_spec out).
Proof.
  intros Hout (s & hs & sb & -> & Hsb & Hok & Hr). simpl in *.
  unfold listEnd, size. simpl. rewrite <- app_assoc. simpl.
  rewrite idx_app. bind_simpl. rewrite upd_app. bind_simpl. simpl.
  pose proof (zlen_render _ _ _ Hok) as Hl. rewrite Hr in Hl.
  replace (zlen (str w ++ s) + (lhsize w + heads_size hs) - zlen (str w) - lhsize w)
    with (zlen out) by (rewrite zlen_app; lia).
  eexists. split; [done|].
  exists s, (ListHead (zlen (str w)) (zlen out) :: hs), sb. split.
  { f_equal. change (heads_size (_ :: hs)) with (headsize (zlen out) + heads_size hs).
    unfold headsize. rewrite u64_small by done. destruct (zlen out <? 56); lia. }
  pose proof (zlen_nonneg s). simpl. rewrite Z.sub_diag. simpl. rewrite drop_0.
  split; [done|]. split; [split; [lia|]; done|]. unfold list_spec. by rewrite Hr.
Qed.

Lemma zlen_head_small small large sz : sz < 56 -> head_spec small large sz = [small + sz].
Proof. intros. unfold head_spec. by rewrite (proj2 (Z.ltb_lt _ _)). Qed.

Lemma append_sized_spec w tag i :
  zlen (sizebuf w) = 9 -> is_u64 i -> 0 <= tag < 248 ->
  exists w', append_sized w tag i = Ok w' /\
    emits w w' ((tag + intsize i) :: be_bytes (Z.to_nat (intsize i)) i).
Proof.
  intros Hsb Hi Htag. destruct (intsize_spec i Hi) as [Hs _]. unfold append_sized.
  destruct (zlen_split (sizebuf w) (1 + intsize i)) as (b1 & b2 & Hb & Hb1 & Hb2); [lia|].
  rewrite Hb, put_tagged_spec by done. bind_simpl.
  set (out := (tag + intsize i) :: be_bytes (Z.to_nat (intsize i)) i).
  assert (Hout : zlen out = intsize i + 1).
  { subst out. rewrite zlen_cons, zlen_be_bytes. lia. }
  pose proof (slice_app (E:=rlp_error) [] out b2) as Hsl.
  rewrite zlen_nil, Z.add_0_l, Hout, app_nil_l in Hsl. rewrite Hsl. bind_simpl.
  eexists. split; [done|]. apply emits_str. rewrite zlen_app. lia.
Qed.

Lemma encodeStringHeader_spec w sz :
  zlen (sizebuf w) = 9 -> is_u64 sz ->
  exists w', encodeStringHeader w sz = Ok w' /\ emits w w' (head_spec 0x80 0xB7 sz).
Proof.
  intros Hsb Hsz. unfold encodeStringHeader, head_spec.
  destruct (Z.ltb_spec sz 56); [|rewrite u64_small by done; by apply append_sized_spec].
  unfold is_u64 in Hsz. eexists. split; [done|].
  rewrite (u8_small sz), u8_small by (unfold is_byte; lia). by apply emits_append.
Qed.

(** A header followed by the string itself. *)
Lemma header_string_spec w b :
  zlen (sizebuf w) = 9 -> is_u64 (zlen b) ->
  exists w', (w ← encodeStringHeader w (zlen b); Ok (append_str w b)) = Ok w' /\
    emits w w' (head_spec 0x80 0xB7 (zlen b) ++ b).
Proof.
  intros Hsb Hb. destruct (encodeStringHeader_spec w _ Hsb Hb) as (w1 & -> & He).
  exists (append_str w1 b). split; [done|].
  apply (emits_trans _ _ _ _ _ He), emits_append, (emits_sizebuf _ _ _ He).
Qed.

Lemma encodeString_spec w b :
  zlen (sizebuf w) = 9 -> is_u64 (zlen b) ->
  exists w', encodeString w b = Ok w' /\ emits w w' (string_spec b).
Proof.
  intros Hsb Hb. pose proof (header_string_spec w b Hsb Hb).
  destruct b as [|x [|y b]]; [done| |done].
  simpl. destruct (Z.leb_spec x 127), (Z.ltb_spec x 128); [|lia|lia|done].
  eexists. split; [done|]. by apply emits_append.
Qed.

Lemma writeByteArray_spec w b :
  zlen (sizebuf w) = 9 -> is_u64 (zlen b) -> bytes_ok b ->
  exists w', writeByteArray b w = Ok w' /\ emits w w' (string_spec b).
Proof.
  intros Hsb Hb Hok. pose proof (header_string_spec w b Hsb Hb).
  destruct b as [|x [|y b]]; [|simpl|done].
  - eexists. split; [done|]. by apply emits_append.
  - destruct (Z.leb_spec x 127), (Z.ltb_spec x 128); try lia;
      (eexists; split; [done|]; by apply emits_append).
Qed.

(** ** Integers as strings *)

Lemma bit_len_bounds i :
  0 < i -> let n := (bit_len i + 7) / 8 in 0 < n /\ 256 ^ (n - 1) <= i < 256 ^ n.
Proof.
  intros Hi. unfold bit_len. destruct (Z.eqb_spec i 0) as [|Hi0]; [lia|]. rewrite Z.abs_eq by lia.
  pose proof (Z.log2_spec i Hi) as [Hlo Hhi]. pose proof (Z.log2_nonneg i).
  set (g := Z.log2 i) in *. set (n := (g + 1 + 7) / 8).
  assert (Hn : 8 * n <= g + 8 < 8 * n + 8).
  { subst n. pose proof (Z_div_mod_eq_full (g + 1 + 7) 8).
    pose proof (Z.mod_pos_bound (g + 1 + 7) 8). lia. }
  simpl. split; [lia|]. replace 256 with (2 ^ 8) by done.
  rewrite <- !Z.pow_mul_r by lia. split.
  - transitivity (2 ^ g); [apply Z.pow_le_mono_r; lia|lia].
  - eapply Z.lt_le_trans; [apply Hhi|]. apply Z.pow_le_mono_r; lia.
Qed.

Lemma bit_len_intsize i : 0 < i -> is_u64 i -> (bit_len i + 7) / 8 = intsize i.
Proof.
  intros Hi Hu. destruct (bit_len_bounds i Hi) as [? ?]. symmetry. by apply intsize_unique.
Qed.

Lemma int_spec_ok i : bytes_ok (int_spec i).
Proof. apply be_bytes_ok. Qed.

(** The string of an integer that does not fit a single byte below 128. *)
Lemma string_spec_int i :
  128 <= i -> string_spec (int_spec i) =
    head_spec 0x80 0xB7 ((bit_len i + 7) / 8) ++ int_spec i.
Proof.
  intros Hi. destruct (bit_len_bounds i) as [Hn Hb]; [lia|]. unfold int_spec.
  set (n := (bit_len i + 7) / 8) in *.
  assert (Hl : zlen (be_bytes (Z.to_nat n) i) = n) by (rewrite zlen_be_bytes; lia).
  destruct (be_bytes (Z.to_nat n) i) as [|x [|y b]] eqn:E; unfold string_spec; rewrite Hl;
    [done| |done].
  destruct (Z.ltb_spec x 128); [|done]. exfalso.
  change (zlen [x]) with 1 in Hl. rewrite <- Hl in *.
  simpl in E. injection E as <-. rewrite Z.mod_small in *; lia.
Qed.

Lemma encodeUint_spec w i :
  zlen (sizebuf w) = 9 -> is_u64 i ->
  exists w', encodeUint w i = Ok w' /\ emits w w' (string_spec (int_spec i)).
Proof.
  intros Hsb Hi. unfold encodeUint. unfold is_u64 in Hi.
  destruct (Z.eqb_spec i 0) as [->|].
  { eexists. split; [done|]. by apply emits_append. }
  destruct (Z.ltb_spec i 128).
  - eexists. split; [done|]. rewrite u8_small by (unfold is_byte; lia).
    replace (string_spec (int_spec i)) with [i]; [by apply emits_append|].
    unfold int_spec. rewrite bit_len_intsize, intsize_small by (unfold is_u64; lia).
    simpl. rewrite Z.mod_small by lia. by rewrite (proj2 (Z.ltb_lt _ _)).
  - rewrite string_spec_int, bit_len_intsize by (unfold is_u64; lia).
    destruct (intsize_spec i Hi) as [? _]. rewrite zlen_head_small by lia.
    unfold int_spec. rewrite bit_len_intsize by (unfold is_u64; lia).
    by apply append_sized_spec.
Qed.

(** ** Big integers *)

Lemma round_up_8 x : 0 <= x -> Z.shiftr (Z.land (x + 7) (-8)) 3 = (x + 7) / 8.
Proof.
  intros Hx. change (-8) with (Z.lnot (Z.ones 3)).
  rewrite <- Z.ldiff_land, Z.ldiff_ones_r by lia.
  rewrite Z.shiftr_shiftl_l, Z.shiftl_0_r, Z.shiftr_div_pow2 by lia. done.
Qed.

Lemma write_word_spec j d pre old suf :
  length old = j ->
  write_word j d (pre ++ old ++ suf) (zlen (pre ++ old)) =
  Ok (pre ++ be_bytes j d ++ suf, zlen pre).
Proof.
  revert d old suf. induction j as [|j IH]; intros d old suf Hl.
  - destruct old; [|done]. simpl. by rewrite app_nil_r.
  - destruct old as [|x old _] using rev_ind; [done|].
    rewrite length_app in Hl. simpl in Hl.
    simpl. rewrite !zlen_app. change (zlen [x]) with 1.
    pose proof (zlen_nonneg pre); pose proof (zlen_nonneg old).
    rewrite (proj2 (Z.gtb_lt _ _)) by lia.
    replace (zlen pre + (zlen old + 1) - 1) with (zlen (pre ++ old)) by (rewrite zlen_app; lia).
    replace (pre ++ (old ++ [x]) ++ suf) with ((pre ++ old) ++ x :: suf)
      by by rewrite <- !app_assoc.
    rewrite upd_app. bind_simpl.
    rewrite <- app_assoc, IH by lia. rewrite <- app_assoc. simpl.
    unfold u8. rewrite Z.shiftr_div_pow2 by lia. done.
Qed.

Lemma write_word_short j d old suf :
  (length old <= j)%nat ->
  write_word j d (old ++ suf) (zlen old) = Ok (be_bytes (length old) d ++ suf, 0).
Proof.
  intros Hl.
  assert (Hstop : forall j d b, write_word j d b 0 = Ok (b, 0)) by (by intros []).
  assert (Hsplit : forall m k d b i b', write_word m d b i = Ok (b', 0) ->
            write_word (m + k) d b i = Ok (b', 0)).
  { clear -Hstop. induction m as [|m IH]; intros k d b i b'; simpl.
    - intros [= -> ->]. apply Hstop.
    - destruct (i >? 0); [|done]. destruct (upd _ _ _); simpl; try done. apply IH. }
  replace j with (length old + (j - length old))%nat by lia.
  apply Hsplit, (write_word_spec (length old) d [] old suf). done.
Qed.

Lemma write_words_done ws buf : write_words ws buf 0 = Ok (buf, 0).
Proof. revert buf. induction ws as [|d ws IH]; intros buf; simpl; [done|]. apply IH. Qed.

Lemma write_words_spec n i old suf :
  0 <= i -> (length old <= 8 * n)%nat ->
  write_words (big_words n i) (old ++ suf) (zlen old) = Ok (be_bytes (length old) i ++ suf, 0).
Proof.
  revert i old suf. induction n as [|n IH]; intros i old suf Hi Hl.
  { destruct old; [done|]. simpl in Hl. lia. }
  cbn [big_words write_words]. replace (2 ^ 64) with (256 ^ Z.of_nat 8) by done.
  destruct (decide (length old <= 8)%nat).
  - rewrite write_word_short by done. bind_simpl.
    by rewrite write_words_done, be_bytes_mod by lia.
  - destruct (zlen_split old (zlen old - 8)) as (pre & o8 & -> & Hpre & Ho8);
      [unfold zlen in *; lia|].
    assert (length o8 = 8%nat) by (unfold zlen in *; lia).
    rewrite <- app_assoc, write_word_spec by done. bind_simpl.
    rewrite length_app in Hl. rewrite IH by (try apply Z.div_pos; lia).
    rewrite be_bytes_mod, length_app by lia. replace (length o8) with 8%nat.
    by rewrite be_bytes_add, <- app_assoc.
Qed.

Lemma writeBigInt_spec w i :
  zlen (sizebuf w) = 9 -> 0 <= i -> is_u64 ((bit_len i + 7) / 8) ->
  exists w', writeBigInt i w = Ok w' /\ emits w w' (string_spec (int_spec i)).
Proof.
  intros Hsb Hi Hn. unfold writeBigInt. rewrite (proj2 (Z.ltb_ge _ _)) by lia.
  destruct (Z.leb_spec (bit_len i) 64) as [Hb|Hb].
  - assert (is_u64 i).
    { unfold is_u64, bit_len in *. destruct (Z.eqb_spec i 0); [lia|].
      rewrite Z.abs_eq in Hb by lia. pose proof (Z.log2_spec i).
      assert (2 ^ Z.succ (Z.log2 i) <= 2 ^ 64) by (apply Z.pow_le_mono_r; lia). lia. }
    rewrite u64_small by done. by apply encodeUint_spec.
  - assert (Hpos : 128 <= i).
    { unfold bit_len in Hb. destruct (Z.eqb_spec i 0); [lia|].
      rewrite Z.abs_eq in Hb by lia. pose proof (Z.log2_le_mono i 127).
      change (Z.log2 127) with 6 in *. lia. }
    rewrite round_up_8 by lia.
    destruct (encodeStringHeader_spec w _ Hsb Hn) as (w1 & -> & He). bind_simpl.
    set (n := (bit_len i + 7) / 8) in *.
    assert (Hn' : 0 <= n) by (subst n; apply Z.div_pos; lia).
    pose proof (write_words_spec (Z.to_nat ((bit_len i + 63) / 64)) i
                  (replicate (Z.to_nat n) 0) []) as Hw.
    rewrite app_nil_r, zlen_replicate, length_replicate, Z2Nat.id in Hw by done.
    unfold Bits. rewrite Z.abs_eq by lia. rewrite Hw; [|lia|].
    2: { subst n. pose proof (Z_div_mod_eq_full (bit_len i + 7) 8).
         pose proof (Z.mod_pos_bound (bit_len i + 7) 8).
         pose proof (Z_div_mod_eq_full (bit_len i + 63) 64).
         pose proof (Z.mod_pos_bound (bit_len i + 63) 64). lia. }
    bind_simpl. rewrite app_nil_r. eexists. split; [done|].
    rewrite string_spec_int by lia.
    apply (emits_trans _ _ _ _ _ He), emits_append, (emits_sizebuf _ _ _ He).
Qed.

(** ** Whole values *)

Section item_induction.
Variable P : item -> Prop.
Hypothesis Hlist : forall l, Forall P l -> P (IList l).
Hypothesis Hleaf : forall it, (forall l, it <> IList l) -> P it.

Fixpoint item_nested_ind (it : item) : P it :=
  match it with
  | IList l => Hlist l
      ((fix go (l : list item) : Forall P l :=
          match l with
          | [] => Forall_nil_2 _
          | x :: l => Forall_cons_2 _ _ _ (item_nested_ind x) (go l)
          end) l)
  | it => Hleaf it ltac:(done)
  end.
End item_induction.

Lemma write_item_list l w :
  write_item (IList l) w =
  (w' ← write_elems l (list_start w).1; listEnd w' (list_start w).2).
Proof. reflexivity. Qed.

Lemma zlen_string_spec b : zlen b <= zlen (string_spec b).
Proof.
  assert (H : zlen b <= zlen (head_spec 0x80 0xB7 (zlen b) ++ b)).
  { rewrite zlen_app. pose proof (zlen_nonneg (head_spec 0x80 0xB7 (zlen b))). lia. }
  destruct b as [|x [|y b]]; [done| |done]. simpl. by destruct (x <? 128).
Qed.

(** What the writer of a value does to a buffer. *)
Definition writes (it : item) : Prop :=
  item_ok it -> zlen (rlp_spec it) < 2 ^ 64 ->
  forall w, zlen (sizebuf w) = 9 ->
  if nonneg_ints it
  then exists w', write_item it w = Ok w' /\ emits w w' (rlp_spec it)
  else write_item it w = Err errNegativeBigInt.

Lemma write_elems_spec l :
  Forall writes l -> Forall id (map item_ok l) -> zlen (concat (map rlp_spec l)) < 2 ^ 64 ->
  forall w, zlen (sizebuf w) = 9 ->
  if forallb nonneg_ints l
  then exists w', write_elems l w = Ok w' /\ emits w w' (concat (map rlp_spec l))
  else write_elems l w = Err errNegativeBigInt.
Proof.
  induction 1 as [|x l Hx _ IH]; intros Hok Hsz w Hsb; simpl in *.
  { exists w. split; [done|]. destruct w. apply (emits_append (EncBuf _ _ _ _) []) in Hsb.
    unfold append_str in Hsb. simpl in Hsb. by rewrite app_nil_r in Hsb. }
  rewrite zlen_app in Hsz. inversion Hok as [|? ? Hokx Hokl]; subst.
  pose proof (zlen_nonneg (rlp_spec x)); pose proof (zlen_nonneg (concat (map rlp_spec l))).
  specialize (Hx Hokx ltac:(lia) w Hsb). destruct (nonneg_ints x); simpl.
  - destruct Hx as (w1 & -> & He1). bind_simpl.
    specialize (IH Hokl ltac:(lia) w1 (emits_sizebuf _ _ _ He1)).
    destruct (forallb nonneg_ints l); [|done].
    destruct IH as (w2 & -> & He2). exists w2. split; [done|]. by eapply emits_trans.
  - by rewrite Hx.
Qed.

Lemma write_item_spec it : writes it.
Proof.
  induction it as [l IH|it Hleaf] using item_nested_ind; intros Hok Hsz w Hsb.
  - rewrite write_item_list. cbn [nonneg_ints rlp_spec item_ok] in *.
    assert (Hp : 0 <= zlen (concat (map rlp_spec l)) < 2 ^ 64).
    { unfold list_spec in Hsz. rewrite zlen_app in Hsz.
      pose proof (zlen_nonneg (concat (map rlp_spec l))).
      pose proof (zlen_nonneg (head_spec 0xC0 0xF7 (zlen (concat (map rlp_spec l))))). lia. }
    assert (Hsb' : zlen (sizebuf (list_start w).1) = 9) by done.
    pose proof (write_elems_spec l IH Hok ltac:(lia) _ Hsb') as Hw.
    destruct (forallb nonneg_ints l); [|by rewrite Hw].
    destruct Hw as (w1 & -> & He). bind_simpl. by apply emits_list.
  - assert (Hstr : forall b, rlp_spec it = string_spec b -> is_u64 (zlen b)).
    { intros b Hb. rewrite Hb in Hsz. pose proof (zlen_string_spec b).
      pose proof (zlen_nonneg b). unfold is_u64. lia. }
    assert (Happ : forall b, exists w', Ok (append_str w b) = (Ok w' : rlp _) /\ emits w w' b).
    { intros b. exists (append_str w b). split; [done|]. by apply emits_append. }
    destruct it; simpl in Hok |- *; try by apply Happ.
    + destruct (Z.leb_spec 0 i); [|unfold writeBigInt; by rewrite (proj2 (Z.ltb_lt _ _))].
      apply writeBigInt_spec; [done..|]. specialize (Hstr _ eq_refl).
      unfold int_spec in Hstr. rewrite zlen_be_bytes in Hstr.
      rewrite Z2Nat.id in Hstr; [done|]. apply Z.div_pos; [|lia].
      unfold bit_len. destruct (i =? 0); pose proof (Z.log2_nonneg (Z.abs i)); lia.
    + by apply encodeUint_spec.
    + destruct b; apply Happ.
    + by apply encodeString_spec, Hstr.
    + by apply encodeString_spec, Hstr.
    + by apply writeByteArray_spec; [|apply Hstr|].
    + by destruct (Hleaf l).
    + destruct nil_is_string; [apply Happ|].
      assert (He : emits (list_start w).1 (list_start w).1 []).
      { pose proof (emits_append (list_start w).1 [] Hsb) as He.
        unfold append_str in He. by rewrite app_nil_r in He. }
      by apply (emits_list w _ [] ltac:(done)) in He.
Qed.

Lemma head_spec_ok small large n :
  is_u64 n -> 0 <= small <= 0xC0 -> large = small + 55 -> bytes_ok (head_spec small large n).
Proof.
  intros Hn Hs ->. unfold head_spec, is_u64 in *. destruct (Z.ltb_spec n 56).
  - constructor; [unfold is_byte; lia|done].
  - destruct (intsize_spec n Hn). constructor; [unfold is_byte; lia|apply be_bytes_ok].
Qed.

Lemma string_spec_ok b : bytes_ok b -> is_u64 (zlen b) -> bytes_ok (string_spec b).
Proof.
  intros Hb Hu. assert (Hh : bytes_ok (head_spec 0x80 0xB7 (zlen b) ++ b)).
  { apply Forall_app. split; [|done]. by apply head_spec_ok. }
  destruct b as [|x [|y b]]; [done| |done]. unfold string_spec. by destruct (x <? 128).
Qed.

(** The encoding consists of bytes. *)
Lemma rlp_spec_ok it : item_ok it -> zlen (rlp_spec it) < 2 ^ 64 -> bytes_ok (rlp_spec it).
Proof.
  induction it as [l IH|it Hleaf] using item_nested_ind; intros Hok Hsz.
  - cbn [rlp_spec item_ok] in *. unfold list_spec in *. rewrite zlen_app in Hsz.
    pose proof (zlen_nonneg (concat (map rlp_spec l))).
    pose proof (zlen_nonneg (head_spec 0xC0 0xF7 (zlen (concat (map rlp_spec l))))).
    apply Forall_app. split; [apply head_spec_ok; [unfold is_u64; lia|lia|done]|].
    assert (Hc : zlen (concat (map rlp_spec l)) < 2 ^ 64) by lia. clear -IH Hok Hc.
    induction IH as [|x l Hx _ IHl]; simpl in *; [constructor|].
    apply Forall_cons in Hok as [Hokx Hok]. rewrite zlen_app in Hc.
    pose proof (zlen_nonneg (rlp_spec x)); pose proof (zlen_nonneg (concat (map rlp_spec l))).
    apply Forall_app. split; [apply Hx; [done|lia]|apply IHl; [done|lia]].
  - assert (Hstr : forall b, rlp_spec it = string_spec b -> bytes_ok b -> bytes_ok (rlp_spec it)).
    { intros b Hb Hbb. rewrite Hb in *. pose proof (zlen_string_spec b). pose proof (zlen_nonneg b).
      apply string_spec_ok; [done|]. unfold is_u64. lia. }
    destruct it as [b|i| |i|b|b|b|b|l|[]|]; simpl in Hok; try done; try (by eapply Hstr; [done|apply int_spec_ok]);
      try (by eapply Hstr); try (by destruct (Hleaf l)); try (by apply (Hstr []); [|constructor]).
    all: simpl; try (destruct b); solve_decidable.
Qed.

(** Both ways of encoding, of a value that is not itself a nil interface. *)
Lemma Encode_spec out val pooled :
  item_ok val -> zlen (rlp_spec val) < 2 ^ 64 -> zlen (sizebuf pooled) = 9 -> val <> INilInterface ->
  EncodeToBytes val pooled = (if nonneg_ints val then Ok (rlp_spec val) else Err errNegativeBigInt) /\
  Encode out val pooled = (if nonneg_ints val then Ok (out ++ rlp_spec val) else Err errNegativeBigInt).
Proof.
  intros Hok Hsz Hsb Hnil. unfold EncodeToBytes, Encode.
  replace (encode val (reset pooled)) with (write_item val (reset pooled)) by (by destruct val).
  pose proof (write_item_spec val Hok Hsz (reset pooled) Hsb) as Hw.
  destruct (nonneg_ints val); [|by rewrite Hw].
  destruct Hw as (w' & -> & s & hs & sb & -> & Hb & Hh & <-). bind_simpl.
  split; [by rewrite toBytes_spec|by rewrite toWriter_spec].
Qed.

Lemma EncodeToBytes_spec val pooled :
  item_ok val -> zlen (rlp_spec val) < 2 ^ 64 -> zlen (sizebuf pooled) = 9 -> val <> INilInterface ->
  EncodeToBytes val pooled = if nonneg_ints val then Ok (rlp_spec val) else Err errNegativeBigInt.
Proof. intros. by apply (Encode_spec []). Qed.

Lemma Encode_new val :
  item_ok val -> zlen (rlp_spec val) < 2 ^ 64 -> val <> INilInterface ->
  Encode [] val new_encbuf = if nonneg_ints val then Ok (rlp_spec val) else Err errNegativeBigInt.
Proof. intros. by apply Encode_spec. Qed.

(** C33. [EncodeToBytes] writes the RLP encoding of the value: whatever
    buffer the pool hands out, the deferred list headers end up in place, the
    output has exactly the computed size, and the only values that are
    rejected are those with a negative [big.Int].  [Encode] appends the same
    bytes to what a writer already has.  A nil interface, which is encoded as
    an empty list inside other values, makes both panic. *)
Theorem EncodeToBytes_correct (val : item) (pooled : encbuf) (out : list Z) :
  item_ok val -> zlen (rlp_spec val) < 2 ^ 64 -> zlen (sizebuf pooled) = 9 ->
  match val with
  | INilInterface => EncodeToBytes val pooled = Panic /\ Encode out val pooled = Panic
  | _ => EncodeToBytes val pooled = (if nonneg_ints val then Ok (rlp_spec val) else Err errNegativeBigInt) /\
         Encode out val pooled = (if nonneg_ints val then Ok (out ++ rlp_spec val) else Err errNegativeBigInt)
  end.
Proof. intros Hok Hsz Hsb. destruct val; try (by apply Encode_spec). done. Qed.

Lemma EncodeToBytes_correct_witness :
  let val := IList [IBytes [99; 97; 116]; IList [IUint 1024; IBool true]; IBigInt (2 ^ 80); IByteArray [5]; INilInterface] in
  let bytes := [215; 131; 99; 97; 116; 196; 130; 4; 0; 1; 139; 1; 0; 0; 0; 0; 0; 0; 0; 0; 0; 0; 5; 192] in
  EncodeToBytes val new_encbuf = Ok bytes /\ Encode [9] val new_encbuf = Ok (9 :: bytes).
Proof.
  apply (EncodeToBytes_correct (IList [IBytes [99; 97; 116]; IList [IUint 1024; IBool true]; IBigInt (2 ^ 80); IByteArray [5]; INilInterface]) new_encbuf [9]).
  - simpl. repeat constructor; unfold is_byte, is_u64; lia.
  - vm_compute. reflexivity.
  - reflexivity.
Defined.
