(* ===== verification/RlpRaw.v ===== *)
(** * Reading raw RLP (src/rlp/raw.go, src/rlp/iterator.go)

    [Split], [CountValues] and the list iterator work on the input slice
    without decoding it.  The file shows that they accept exactly the
    canonical encodings. *)
From stdpp Require Import prelude list.
From Stdlib Require Import ZArith Lia.
From S2P Require Import Prelude RlpEncode.

Inductive Kind := Byte | String | List.

#[global] Instance Kind_eq_dec : EqDecision Kind.
Proof. solve_decision. Defined.

Definition ListSize (contentSize : Z) : Z := u64 (headsize contentSize + contentSize).

(** The [switch] of [readSize]: the big-endian integer in the first [slen]
    bytes of [b]. *)
Definition be_size (b : list Z) (slen : Z) : Z :=
  let byte i k := Z.shiftl (nth i b 0) k in
  if slen =? 1 then byte 0%nat 0
  else if slen =? 2 then Z.lor (byte 0%nat 8) (byte 1%nat 0)
  else if slen =? 3 then Z.lor (Z.lor (byte 0%nat 16) (byte 1%nat 8)) (byte 2%nat 0)
  else if slen =? 4 then
    Z.lor (Z.lor (Z.lor (byte 0%nat 24) (byte 1%nat 16)) (byte 2%nat 8)) (byte 3%nat 0)
  else if slen =? 5 then
    Z.lor (Z.lor (Z.lor (Z.lor (byte 0%nat 32) (byte 1%nat 24)) (byte 2%nat 16))
      (byte 3%nat 8)) (byte 4%nat 0)
  else if slen =? 6 then
    Z.lor (Z.lor (Z.lor (Z.lor (Z.lor (byte 0%nat 40) (byte 1%nat 32)) (byte 2%nat 24))
      (byte 3%nat 16)) (byte 4%nat 8)) (byte 5%nat 0)
  else if slen =? 7 then
    Z.lor (Z.lor (Z.lor (Z.lor (Z.lor (Z.lor (byte 0%nat 48) (byte 1%nat 40)) (byte 2%nat 32))
      (byte 3%nat 24)) (byte 4%nat 16)) (byte 5%nat 8)) (byte 6%nat 0)
  else if slen =? 8 then
    Z.lor (Z.lor (Z.lor (Z.lor (Z.lor (Z.lor (Z.lor (byte 0%nat 56) (byte 1%nat 48))
      (byte 2%nat 40)) (byte 3%nat 32)) (byte 4%nat 24)) (byte 5%nat 16)) (byte 6%nat 8))
      (byte 7%nat 0)
  else 0.

Definition readSize (b : list Z) (slen : Z) : rlp Z :=
  if slen >? zlen b then Err ErrUnexpectedEOF
  else
    let s := be_size b slen in
    if s <? 56 then Err ErrCanonSize
    else
      b0 ← idx b 0;
      if b0 =? 0 then Err ErrCanonSize else Ok s.

Definition readKind (buf : list Z) : rlp (Kind * Z * Z) :=
  if zlen buf =? 0 then Err ErrUnexpectedEOF
  else
    b ← idx buf 0;
    '(k, tagsize, contentsize) ←
      (if b <? 0x80 then Ok (Byte, 0, 1)
       else if b <? 0xB8 then
         let contentsize := u8 (b - 0x80) in
         if (contentsize =? 1) && (zlen buf >? 1) then
           b1 ← idx buf 1;
           if b1 <? 128 then Err ErrCanonSize else Ok (String, 1, contentsize)
         else Ok (String, 1, contentsize)
       else if b <? 0xC0 then
         tl ← slice_from buf 1;
         contentsize ← readSize tl (u8 (b - 0xB7));
         Ok (String, u8 (b - 0xB7) + 1, contentsize)
       else if b <? 0xF8 then Ok (List, 1, u8 (b - 0xC0))
       else
         tl ← slice_from buf 1;
         contentsize ← readSize tl (u8 (b - 0xF7));
         Ok (List, u8 (b - 0xF7) + 1, contentsize));
    if contentsize >? u64 (zlen buf - tagsize) then Err ErrValueTooLarge
    else Ok (k, tagsize, contentsize).

Definition Split (b : list Z) : rlp (Kind * list Z * list Z) :=
  '(k, ts, cs) ← readKind b;
  content ← slice b ts (u64 (ts + cs));
  rest ← slice_from b (u64 (ts + cs));
  Ok (k, content, rest).

Definition SplitString (b : list Z) : rlp (list Z * list Z) :=
  '(k, content, rest) ← Split b;
  match k with
  | List => Err ErrExpectedString
  | _ => Ok (content, rest)
  end.

Definition SplitUint64 (b : list Z) : rlp (Z * list Z) :=
  '(content, rest) ← SplitString b;
  if zlen content =? 0 then Ok (0, rest)
  else if zlen content =? 1 then
    c0 ← idx content 0;
    if c0 =? 0 then Err ErrCanonInt else Ok (c0, rest)
  else if zlen content >? 8 then Err errUintOverflow
  else
    match readSize content (u8 (zlen content)) with
    | Ok x => Ok (x, rest)
    | Err _ => Err ErrCanonInt
    | Panic => Panic
    end.

Definition SplitList (b : list Z) : rlp (list Z * list Z) :=
  '(k, content, rest) ← Split b;
  match k with
  | List => Ok (content, rest)
  | _ => Err ErrExpectedList
  end.

(** The loop of [CountValues]; every round consumes at least one byte, so
    [length b] rounds are enough and the fuel never runs out. *)
Fixpoint CountValues_loop (fuel : nat) (b : list Z) (i : Z) : rlp Z :=
  if zlen b >? 0 then
    match fuel with
    | O => Panic
    | S fuel =>
        '(_, tagsize, size) ← readKind b;
        b ← slice_from b (u64 (tagsize + size));
        CountValues_loop fuel b (i + 1)
    end
  else Ok i.

Definition CountValues (b : list Z) : rlp Z := CountValues_loop (length b) b 0.

Record listIterator := ListIterator {
  it_data : list Z;
  it_next : list Z;
  it_err : option rlp_error
}.

Definition NewListIterator (data : list Z) : rlp listIterator :=
  '(k, t, c) ← readKind data;
  match k with
  | List =>
      d ← slice data t (u64 (t + c));
      Ok (ListIterator d [] None)
  | _ => Err ErrExpectedList
  end.

(** [readKind] returns [t = c = 0] together with an error. *)
Definition Next (it : listIterator) : outcome Empty_set (bool * listIterator) :=
  if zlen (it_data it) =? 0 then Ok (false, it)
  else
    match readKind (it_data it) with
    | Panic => Panic
    | r =>
        let '(t, c, err) :=
          match r with
          | Ok (_, t, c) => (t, c, None)
          | Err e => (0, 0, Some e)
          | Panic => (0, 0, None)
          end in
        next ← slice (it_data it) 0 (u64 (t + c));
        data ← slice_from (it_data it) (u64 (t + c));
        Ok (true, ListIterator data next err)
    end.

(** ** Sizes *)

Ltac eval_pow2 :=
  repeat match goal with |- context [2 ^ ?k] =>
    let v := eval vm_compute in (2 ^ k) in change (2 ^ k) with v end.

Ltac solve_lor :=
  repeat match goal with
  | |- context [Z.lor ?x ?y] =>
      lazymatch x with context [Z.lor _ _] => fail | _ => idtac end;
      first [ rewrite (lor_add x y 8) by (change (2 ^ 8) with 256; Z.div_mod_to_equations; lia)
            | rewrite (lor_add x y 16) by (change (2 ^ 16) with 65536; Z.div_mod_to_equations; lia)
            | rewrite (lor_add x y 24) by (change (2 ^ 24) with 16777216; Z.div_mod_to_equations; lia)
            | rewrite (lor_add x y 32) by (change (2 ^ 32) with 4294967296; Z.div_mod_to_equations; lia)
            | rewrite (lor_add x y 40) by (change (2 ^ 40) with 1099511627776; Z.div_mod_to_equations; lia)
            | rewrite (lor_add x y 48) by (change (2 ^ 48) with 281474976710656; Z.div_mod_to_equations; lia)
            | rewrite (lor_add x y 56) by (change (2 ^ 56) with 72057594037927936; Z.div_mod_to_equations; lia) ]
  end.

Lemma be_size_spec l k :
  bytes_ok l -> 1 <= zlen l <= 8 -> be_size (l ++ k) (zlen l) = be_val l.
Proof.
  intros Hl Hn. unfold zlen in *.
  assert (Hc : exists n, (1 <= n <= 8)%nat /\ length l = n) by (exists (length l); lia).
  destruct Hc as (n & Hn' & Hc). rewrite Hc. clear Hn.
  destruct n as [|[|[|[|[|[|[|[|[|n]]]]]]]]]; try lia.
  all: do 9 (try (destruct l as [|? l]; [simpl in Hc; try lia|])); try (simpl in Hc; lia).
  all: repeat match goal with H : bytes_ok (_ :: _) |- _ => inversion_clear H end.
  all: unfold is_byte in *; cbv [be_val be_size fold_left nth app].
  all: simpl Z.eqb; cbv iota beta; rewrite !Z.shiftl_mul_pow2 by lia.
  all: eval_pow2; solve_lor; lia.
Qed.

Lemma readSize_spec l k :
  bytes_ok l -> 1 <= zlen l <= 8 ->
  readSize (l ++ k) (zlen l) =
    if (be_val l <? 56) || (nth 0 l 0 =? 0) then Err ErrCanonSize else Ok (be_val l).
Proof.
  intros Hl Hn. unfold readSize. rewrite be_size_spec by done.
  rewrite Z.gtb_ltb, zlen_app. pose proof (zlen_nonneg k).
  rewrite (proj2 (Z.ltb_ge (zlen l + zlen k) _)) by lia.
  destruct l as [|x l]; [rewrite zlen_nil in Hn; lia|].
  by destruct (be_val (x :: l) <? 56).
Qed.

(** ** Accepted inputs *)

(** The canonical encoding of a value of kind [k] with the given content. *)
Definition enc (k : Kind) (c : list Z) : list Z :=
  match k with List => list_spec c | _ => string_spec c end.

(** The kind under which the encoding of a string is read. *)
Definition string_kind (c : list Z) : Kind :=
  match c with
  | [x] => if x <? 128 then Byte else String
  | _ => String
  end.

Definition kind_ok (k : Kind) (c : list Z) : Prop := k = List \/ k = string_kind c.

Lemma be_val_intsize l :
  bytes_ok l -> 1 <= zlen l <= 8 -> nth 0 l 0 <> 0 ->
  is_u64 (be_val l) /\ intsize (be_val l) = zlen l /\
  be_bytes (Z.to_nat (zlen l)) (be_val l) = l.
Proof.
  intros Hl Hn H0. destruct l as [|x l]; [done|]. simpl in H0.
  pose proof (be_val_bound _ Hl) as Hb. pose proof (be_val_lower _ _ Hl H0) as Hlo.
  assert (is_u64 (be_val (x :: l))).
  { unfold is_u64. split; [lia|]. eapply Z.lt_le_trans; [apply Hb|].
    change (2 ^ 64) with (256 ^ 8). apply Z.pow_le_mono_r; lia. }
  split; [done|]. split.
  - apply intsize_unique; [done|lia|]. rewrite zlen_cons in *.
    replace (1 + zlen l - 1) with (zlen l) by lia. lia.
  - unfold zlen. rewrite Nat2Z.id. by apply be_bytes_val.
Qed.

(** Size bytes that [readSize] accepts are the ones [putint] writes. *)
Lemma readSize_sound b n s :
  bytes_ok b -> 1 <= n <= 8 -> readSize b n = Ok s ->
  56 <= s /\ is_u64 s /\ n = intsize s /\
  exists k, b = be_bytes (Z.to_nat (intsize s)) s ++ k.
Proof.
  intros Hb Hn. destruct (Z.le_gt_cases n (zlen b)) as [Hl|Hl].
  - destruct (zlen_split b n) as (l & k & -> & <- & _); [lia|].
    apply Forall_app in Hb as [Hlb _]. rewrite readSize_spec by done.
    destruct (Z.ltb_spec (be_val l) 56), (Z.eqb_spec (nth 0 l 0) 0); simpl; try done.
    intros [= <-]. destruct (be_val_intsize l) as (? & Hi & He); [done..|].
    rewrite Hi, He. eauto.
  - unfold readSize. rewrite Z.gtb_ltb, (proj2 (Z.ltb_lt _ _)) by done. done.
Qed.

Lemma readSize_complete s k :
  is_u64 s -> 56 <= s ->
  readSize (be_bytes (Z.to_nat (intsize s)) s ++ k) (intsize s) = Ok s.
Proof.
  intros Hs H56. destruct (intsize_spec s Hs) as (Hn & Hub & Hlb).
  set (l := be_bytes (Z.to_nat (intsize s)) s).
  assert (Hl : zlen l = intsize s) by (subst l; rewrite zlen_be_bytes; lia).
  assert (Hv : be_val l = s).
  { subst l. apply be_val_bytes. rewrite Z2Nat.id by lia. unfold is_u64 in Hs. lia. }
  rewrite <- Hl, readSize_spec by (try apply be_bytes_ok; lia). rewrite Hv.
  rewrite (proj2 (Z.ltb_ge _ _)) by lia. simpl.
  assert (nth 0 l 0 <> 0) as H0.
  { intros H0. destruct l as [|x l'] eqn:E; [rewrite zlen_nil in Hl; lia|]. simpl in H0. subst x.
    assert (bytes_ok l') as Hl'.
    { pose proof (be_bytes_ok (Z.to_nat (intsize s)) s) as Hok. subst l. rewrite E in Hok.
      by inversion Hok. }
    pose proof (be_val_bound l' Hl'). rewrite zlen_cons in Hl.
    assert (be_val (0 :: l') = be_val l') by done.
    assert (Hlow : s < 256 ^ (intsize s - 1)) by (replace (intsize s - 1) with (zlen l') by lia; lia).
    destruct (Z.eq_dec (intsize s) 1) as [H1|]; [|lia]. rewrite H1 in Hlow.
    change (256 ^ (1 - 1)) with 1 in Hlow. lia. }
  by rewrite (proj2 (Z.eqb_neq _ _)).
Qed.

(** The part of [readKind] behind the tag: sizes up to 55 in the tag itself,
    larger ones in the bytes that follow. *)
Definition read_head (small large : Z) (K : Kind) (b : Z) (buf : list Z) : rlp (Kind * Z * Z) :=
  if b <? small + 56 then Ok (K, 1, b - small)
  else
    tl ← slice_from buf 1;
    contentsize ← readSize tl (b - large);
    Ok (K, b - large + 1, contentsize).

Lemma read_head_sound small large K x b k ts cs :
  bytes_ok (x :: b) -> large = small + 55 -> small <= x <= large + 8 ->
  read_head small large K x (x :: b) = Ok (k, ts, cs) ->
  k = K /\ is_u64 cs /\ exists tl, x :: b = head_spec small large cs ++ tl /\ ts = headsize cs.
Proof.
  intros Hb -> Hx. unfold read_head. inversion Hb as [|? ? Hbx Hbb]; subst.
  destruct (Z.ltb_spec x (small + 56)).
  - intros [= <- <- <-]. split; [done|]. split; [unfold is_u64; lia|]. exists b.
    unfold headsize. rewrite zlen_head_small by lia.
    rewrite (proj2 (Z.ltb_lt _ _)) by lia. split; [simpl; f_equal; lia|done].
  - pose proof (slice_from_app (E:=rlp_error) [x] b) as Hsl.
    change (zlen [x]) with 1 in Hsl. simpl app in Hsl. rewrite Hsl. bind_simpl.
    intros H'. apply bind_Ok in H' as (s & Hs & [= <- <- <-]).
    apply readSize_sound in Hs as (H56 & Hu & Hn & tl & ->); [|done|lia].
    split; [done|]. split; [done|]. exists tl. unfold head_spec, headsize.
    rewrite (proj2 (Z.ltb_ge _ _)) by lia. split; [simpl; f_equal; lia|lia].
Qed.

Lemma read_head_complete small large K cs tl :
  is_u64 cs -> large = small + 55 ->
  exists x, head_spec small large cs ++ tl = x :: drop 1 (head_spec small large cs) ++ tl /\
    small <= x <= large + 8 /\
    read_head small large K x (head_spec small large cs ++ tl) = Ok (K, headsize cs, cs).
Proof.
  intros Hcs ->. unfold head_spec, headsize, read_head. unfold is_u64 in Hcs.
  destruct (Z.ltb_spec cs 56).
  - exists (small + cs). simpl. split; [done|]. split; [lia|].
    rewrite (proj2 (Z.ltb_lt _ _)) by lia. do 2 f_equal. lia.
  - destruct (intsize_spec cs Hcs) as (Hn & _).
    exists (small + 55 + intsize cs). simpl. split; [done|]. split; [lia|].
    rewrite (proj2 (Z.ltb_ge _ _)) by lia.
    pose proof (slice_from_app (E:=rlp_error) [small + 55 + intsize cs]
                  (be_bytes (Z.to_nat (intsize cs)) cs ++ tl)) as Hsl.
    match type of Hsl with context [zlen ?l] => change (zlen l) with 1 in Hsl end.
    simpl app in Hsl. rewrite Hsl. bind_simpl.
    replace (small + 55 + intsize cs - (small + 55)) with (intsize cs) by lia.
    rewrite readSize_complete by done. bind_simpl. do 2 f_equal. f_equal. lia.
Qed.

(** [readKind] by the range of the tag byte. *)
Lemma readKind_tag x b :
  is_byte x ->
  readKind (x :: b) =
  ('(k, ts, cs) ←
     (if x <? 0x80 then Ok (Byte, 0, 1)
      else if x <? 0xC0 then
        if (x =? 0x81) && match b with y :: _ => y <? 128 | [] => false end
        then Err ErrCanonSize else read_head 0x80 0xB7 String x (x :: b)
      else read_head 0xC0 0xF7 List x (x :: b));
   if cs >? u64 (zlen (x :: b) - ts) then Err ErrValueTooLarge else Ok (k, ts, cs)).
Proof.
  intros Hx. unfold readKind, is_byte in *. rewrite zlen_cons.
  pose proof (zlen_nonneg b). rewrite (proj2 (Z.eqb_neq _ _)) by lia.
  change (idx (x :: b) 0) with (Ok x : rlp Z). bind_simpl. f_equal.
  destruct (Z.ltb_spec x 128); [done|]. unfold read_head.
  change (128 + 56) with 184; change (192 + 56) with 248.
  destruct (Z.ltb_spec x 184), (Z.ltb_spec x 192); try lia.
  - rewrite u8_small by (unfold is_byte; lia).
    destruct (Z.eqb_spec x 129) as [->|]; simpl.
    + destruct b as [|y b]; [done|]. rewrite zlen_cons.
      pose proof (zlen_nonneg b). rewrite Z.gtb_ltb, (proj2 (Z.ltb_lt _ _)) by lia. done.
    + rewrite (proj2 (Z.eqb_neq (x - 128) 1)) by lia. done.
  - rewrite (proj2 (Z.eqb_neq x 129)) by lia. simpl.
    rewrite u8_small by (unfold is_byte; lia). done.
  - destruct (Z.ltb_spec x 248); rewrite u8_small by (unfold is_byte; lia); done.
Qed.

Lemma readKind_sound buf k ts cs :
  bytes_ok buf -> zlen buf < 2 ^ 64 -> readKind buf = Ok (k, ts, cs) ->
  exists hd c r, buf = hd ++ c ++ r /\ zlen hd = ts /\ zlen c = cs /\
    enc k c = hd ++ c /\ kind_ok k c.
Proof.
  intros Hb Hlen. destruct buf as [|x b]; [done|].
  inversion Hb as [|? ? Hx Hb']; subst. rewrite readKind_tag by done.
  intros H. apply bind_Ok in H as ([[k' ts'] cs'] & Hk & H).
  destruct (Z.gtb_spec cs' (u64 (zlen (x :: b) - ts'))) as [|Hle]; [done|].
  injection H as <- <- <-.
  assert (Hbody : forall small large (K : Kind) tl, is_u64 cs' ->
            x :: b = head_spec small large cs' ++ tl -> ts' = headsize cs' ->
            exists c r, x :: b = head_spec small large (zlen c) ++ c ++ r /\
              zlen (head_spec small large (zlen c)) = ts' /\ zlen c = cs').
  { intros small large K tl Hu Heq Hts. rewrite Heq in Hle, Hlen.
    rewrite zlen_app, zlen_head_spec in Hle, Hlen by done. rewrite <- Hts in *.
    pose proof (headsize_bound _ Hu); pose proof (zlen_nonneg tl).
    rewrite u64_small in Hle by lia. unfold is_u64 in Hu.
    destruct (zlen_split tl cs') as (c & r & -> & Hc & _); [lia|].
    exists c, r. rewrite Hc, zlen_head_spec by done. done. }
  unfold is_byte in Hx. destruct (Z.ltb_spec x 128).
  { injection Hk as <- <- <-. exists [], [x], b. unfold enc, kind_ok, string_spec, string_kind.
    rewrite (proj2 (Z.ltb_lt x 128)) by done. naive_solver. }
  destruct (Z.ltb_spec x 192).
  - destruct (_ && _) eqn:Hcanon; [done|].
    apply read_head_sound in Hk as (-> & Hu & tl & Heq & Hts); [|done|lia..].
    destruct (Hbody 0x80 0xB7 String tl Hu Heq Hts) as (c & r & Hxb & Hhd & Hc).
    exists (head_spec 0x80 0xB7 (zlen c)), c, r. split; [done|]. split; [done|]. split; [done|].
    assert (Hns : forall y, c = [y] -> 128 <= y).
    { intros y ->. change (zlen [y]) with 1 in Hxb. injection Hxb as -> ->. simpl in Hcanon.
      by apply Z.ltb_ge. }
    unfold kind_ok. destruct c as [|y [|z c]]; simpl; [naive_solver| |naive_solver].
    rewrite (proj2 (Z.ltb_ge y 128)) by (by apply Hns). naive_solver.
  - apply read_head_sound in Hk as (-> & Hu & tl & Heq & Hts); [|done|lia..].
    destruct (Hbody 0xC0 0xF7 List tl Hu Heq Hts) as (c & r & Hxb & Hhd & Hc).
    exists (head_spec 0xC0 0xF7 (zlen c)), c, r. unfold kind_ok. naive_solver.
Qed.

Lemma enc_read_head small large K c r :
  large = small + 55 -> bytes_ok (head_spec small large (zlen c)) ->
  zlen (head_spec small large (zlen c) ++ c ++ r) < 2 ^ 64 ->
  exists x tl, head_spec small large (zlen c) ++ c ++ r = x :: tl /\ is_byte x /\
    small <= x <= large + 8 /\ (zlen c = 1 -> tl = c ++ r) /\
    read_head small large K x (x :: tl) = Ok (K, headsize (zlen c), zlen c) /\
    zlen c <= u64 (zlen (x :: tl) - headsize (zlen c)).
Proof.
  intros Hl Hb Hlen.
  pose proof (zlen_nonneg (head_spec small large (zlen c))).
  pose proof (zlen_nonneg c); pose proof (zlen_nonneg r).
  assert (Hu : is_u64 (zlen c)) by (rewrite !zlen_app in Hlen; unfold is_u64; lia).
  destruct (read_head_complete small large K (zlen c) (c ++ r) Hu Hl) as (x & Hx & Hr & Hh).
  exists x, (drop 1 (head_spec small large (zlen c)) ++ c ++ r).
  rewrite <- Hx. split; [done|]. split.
  { destruct (head_spec small large (zlen c)) eqn:E; [unfold head_spec in E; by destruct (_ <? _)|].
    simpl in Hx. injection Hx as ->. by inversion Hb. }
  split; [done|]. split; [by intros ->|]. split; [done|].
  rewrite !zlen_app, zlen_head_spec in * by done. rewrite u64_small by lia. lia.
Qed.

Lemma string_kind_String c :
  String = string_kind c -> forall y, c = [y] -> 128 <= y.
Proof. intros Hk y ->. simpl in Hk. by destruct (Z.ltb_spec y 128). Qed.

Lemma string_spec_header c :
  String = string_kind c -> string_spec c = head_spec 0x80 0xB7 (zlen c) ++ c.
Proof.
  intros Hk. destruct c as [|y [|? ?]]; [done| |done].
  pose proof (string_kind_String _ Hk y eq_refl). simpl. by rewrite (proj2 (Z.ltb_ge y 128)).
Qed.

Lemma readKind_complete k c r :
  bytes_ok (enc k c) -> zlen (enc k c ++ r) < 2 ^ 64 -> kind_ok k c ->
  exists hd, enc k c = hd ++ c /\ readKind (enc k c ++ r) = Ok (k, zlen hd, zlen c).
Proof.
  intros Hb Hlen Hk. pose proof (zlen_nonneg r). pose proof (zlen_nonneg c).
  assert (Hu : forall small large, enc k c = head_spec small large (zlen c) ++ c -> is_u64 (zlen c)).
  { intros small large Henc. rewrite Henc, !zlen_app in Hlen. unfold is_u64.
    pose proof (zlen_nonneg (head_spec small large (zlen c))). lia. }
  destruct k.
  - destruct Hk as [|Hk]; [done|]. unfold string_kind in Hk.
    destruct c as [|x [|y c]]; [done| |done]. destruct (Z.ltb_spec x 128) as [Hx|]; [|done].
    exists []. simpl in *. rewrite (proj2 (Z.ltb_lt x 128)) in * by done.
    split; [done|]. simpl. inversion Hb; subst. rewrite readKind_tag by done.
    rewrite (proj2 (Z.ltb_lt x 128)) by done. bind_simpl. simpl app in Hlen.
    rewrite zlen_cons, Z.sub_0_r in *.
    rewrite u64_small, Z.gtb_ltb, (proj2 (Z.ltb_ge _ _)) by lia. done.
  - destruct Hk as [|Hk]; [done|]. pose proof (string_spec_header c Hk) as Henc.
    exists (head_spec 0x80 0xB7 (zlen c)). split; [done|]. simpl in *.
    specialize (Hu _ _ Henc). rewrite Henc, <- app_assoc in *. rewrite zlen_head_spec by done.
    apply Forall_app in Hb as [Hb _].
    destruct (enc_read_head 0x80 0xB7 String c r) as (x & tl & -> & Hx & Hr & H1 & Hh & Hle); [done..|].
    rewrite readKind_tag by done. rewrite (proj2 (Z.ltb_ge x 128)), (proj2 (Z.ltb_lt x 192)) by lia.
    destruct (_ && _) eqn:Hc.
    { exfalso. apply andb_true_iff in Hc as [->%Z.eqb_eq Hc].
      assert (zlen c = 1) as Hl1 by (unfold read_head in Hh; simpl in Hh; injection Hh; lia).
      rewrite (H1 Hl1) in Hc. destruct c as [|y [|z c]]; [done| |rewrite !zlen_cons in Hl1; pose proof (zlen_nonneg c); lia].
      apply Z.ltb_lt in Hc. pose proof (string_kind_String _ Hk y eq_refl). lia. }
    rewrite Hh. bind_simpl. by rewrite Z.gtb_ltb, (proj2 (Z.ltb_ge _ _)) by done.
  - exists (head_spec 0xC0 0xF7 (zlen c)). split; [done|]. simpl in *.
    specialize (Hu _ _ eq_refl). unfold list_spec in *. rewrite <- app_assoc in *.
    rewrite zlen_head_spec by done. apply Forall_app in Hb as [Hb _].
    destruct (enc_read_head 0xC0 0xF7 List c r) as (x & tl & -> & Hx & Hr & _ & Hh & Hle); [done..|].
    rewrite readKind_tag by done. rewrite !(proj2 (Z.ltb_ge x _)) by lia.
    rewrite Hh. bind_simpl. by rewrite Z.gtb_ltb, (proj2 (Z.ltb_ge _ _)) by done.
Qed.

(** ** Splitting *)

Lemma readKind_no_panic buf : readKind buf <> Panic.
Proof.
  destruct buf as [|x b]; [done|]. unfold readKind. rewrite zlen_cons.
  pose proof (zlen_nonneg b). rewrite (proj2 (Z.eqb_neq _ _)) by lia.
  change (idx (x :: b) 0) with (Ok x : rlp Z). bind_simpl.
  assert (Hrs : forall l n, readSize l n <> Panic).
  { intros l n. unfold readSize. destruct (_ >? _); [done|]. destruct (_ <? 56) eqn:Hs; [done|].
    destruct l as [|y l]; [|by simpl; case_match].
    unfold be_size in Hs. repeat case_match; done. }
  assert (Hsl : slice_from (x :: b) 1 = (Ok b : rlp _)).
  { apply (slice_from_app (E:=rlp_error) [x] b). }
  rewrite Hsl. bind_simpl.
  assert (Hend : forall r : rlp (Kind * Z * Z), r <> Panic ->
    ('(k, ts, cs) ← r; if cs >? u64 (1 + zlen b - ts) then Err ErrValueTooLarge
                       else Ok (k, ts, cs)) <> Panic).
  { intros [[[k ts] cs]| |] Hr; simpl; [by destruct (_ >? _)|done|done]. }
  apply Hend. repeat (destruct (_ <? _); [done || idtac|]).
  - destruct (_ && _) eqn:Hc; [|done]. destruct b as [|y b]; [by destruct (_ =? 1)|].
    by simpl; case_match.
  - specialize (Hrs b (u8 (x - 183))). by destruct (readSize b (u8 (x - 183))).
  - specialize (Hrs b (u8 (x - 247))). by destruct (readSize b (u8 (x - 247))).
Qed.

Lemma Split_eq hd c r k :
  zlen (hd ++ c ++ r) < 2 ^ 64 -> readKind (hd ++ c ++ r) = Ok (k, zlen hd, zlen c) ->
  Split (hd ++ c ++ r) = Ok (k, c, r).
Proof.
  intros Hlen Hk. unfold Split. rewrite Hk. bind_simpl.
  pose proof (zlen_nonneg hd); pose proof (zlen_nonneg c); pose proof (zlen_nonneg r).
  rewrite !zlen_app in Hlen. rewrite u64_small, slice_app by lia. bind_simpl.
  replace (zlen hd + zlen c) with (zlen (hd ++ c)) by by rewrite zlen_app.
  by rewrite app_assoc, slice_from_app.
Qed.

Lemma Split_sound b k ts cs :
  bytes_ok b -> zlen b < 2 ^ 64 -> readKind b = Ok (k, ts, cs) ->
  exists c r, Split b = Ok (k, c, r) /\ b = enc k c ++ r /\ kind_ok k c.
Proof.
  intros Hb Hlen Hk. destruct (readKind_sound _ _ _ _ Hb Hlen Hk)
    as (hd & c & r & Heq & Hts & Hcs & He & Hok). subst.
  exists c, r. rewrite He, <- app_assoc. split; [by apply Split_eq|done].
Qed.

Lemma Split_complete k c r :
  bytes_ok (enc k c) -> zlen (enc k c ++ r) < 2 ^ 64 -> kind_ok k c ->
  Split (enc k c ++ r) = Ok (k, c, r).
Proof.
  intros Hb Hlen Hok. destruct (readKind_complete k c r Hb Hlen Hok) as (hd & He & Hk).
  rewrite He, <- app_assoc in *. by apply Split_eq.
Qed.

Lemma Split_iff b k c r :
  bytes_ok b -> zlen b < 2 ^ 64 ->
  Split b = Ok (k, c, r) <-> b = enc k c ++ r /\ kind_ok k c.
Proof.
  intros Hb Hlen. split.
  - intros HS. pose proof HS as HS'. unfold Split in HS.
    apply bind_Ok in HS as ([[k' ts] cs] & Hk & _).
    destruct (Split_sound _ _ _ _ Hb Hlen Hk) as (c' & r' & HS & ?).
    rewrite HS in HS'. by injection HS' as -> -> ->.
  - intros [-> Hok]. apply Forall_app in Hb as [Hb _]. by apply Split_complete.
Qed.

Lemma Split_no_panic b : bytes_ok b -> zlen b < 2 ^ 64 -> Split b <> Panic.
Proof.
  intros Hb Hlen HP. pose proof (readKind_no_panic b).
  destruct (readKind b) as [[[k ts] cs]| |] eqn:Hk; [|by unfold Split in HP; rewrite Hk in HP|done].
  destruct (Split_sound _ _ _ _ Hb Hlen Hk) as (c & r & HS & _). by rewrite HP in HS.
Qed.

(** [Split] accepts exactly the canonical encodings: it returns kind [k],
    content [c] and rest [r] if and only if the input is the encoding of [c]
    as a value of kind [k] followed by [r], and it never panics. *)
Theorem Split_correct (b : list Z) :
  bytes_ok b -> zlen b < 2 ^ 64 ->
  Split b <> Panic /\
  forall k c r, Split b = Ok (k, c, r) <-> b = enc k c ++ r /\ kind_ok k c.
Proof.
  intros Hb Hlen. split; [by apply Split_no_panic|intros; by apply Split_iff].
Qed.

Lemma Split_correct_witness :
  Split [131; 99; 97; 116; 7; 7] = Ok (String, [99; 97; 116], [7; 7]).
Proof.
  apply (Split_correct [131; 99; 97; 116; 7; 7]).
  - repeat constructor; unfold is_byte; lia.
  - reflexivity.
  - split; [reflexivity|right; reflexivity].
Defined.

(** ** Integers *)

Lemma SplitString_iff b c r :
  bytes_ok b -> zlen b < 2 ^ 64 ->
  SplitString b = Ok (c, r) <-> b = string_spec c ++ r.
Proof.
  intros Hb Hlen. unfold SplitString. split.
  - intros H. apply bind_Ok in H as ([[k c'] r'] & HS & H).
    apply Split_iff in HS as [Heq Hok]; [|done..]. by destruct k; simplify_eq.
  - intros Heq. assert (HS : Split b = Ok (string_kind c, c, r)).
    { apply Split_iff; [done..|]. split; [|by right].
      rewrite Heq. f_equal. unfold string_kind. destruct c as [|x [|? ?]]; [done| |done].
      by destruct (x <? 128). }
    rewrite HS. bind_simpl. unfold string_kind. by repeat case_match.
Qed.

(** Contents that [SplitUint64] reads are minimal big-endian integers. *)
Lemma int_spec_unique l :
  bytes_ok l -> zlen l <= 8 -> (l <> [] -> nth 0 l 0 <> 0) ->
  is_u64 (be_val l) /\ int_spec (be_val l) = l.
Proof.
  intros Hl Hn H0. destruct l as [|x l]; [done|].
  pose proof (zlen_nonneg l). rewrite zlen_cons in Hn.
  destruct (be_val_intsize (x :: l)) as (Hu & Hi & He); [done|rewrite zlen_cons; lia|by apply H0|].
  split; [done|]. unfold int_spec.
  assert (0 < be_val (x :: l)).
  { pose proof (be_val_lower x l Hl (H0 ltac:(done))).
    pose proof (Z.pow_pos_nonneg 256 (zlen l)). lia. }
  by rewrite bit_len_intsize, Hi.
Qed.

Lemma int_spec_val x :
  0 <= x -> be_val (int_spec x) = x /\ (int_spec x <> [] -> nth 0 (int_spec x) 0 <> 0).
Proof.
  intros Hx. destruct (Z.eq_dec x 0) as [->|Hx0]; [done|].
  destruct (bit_len_bounds x) as [Hn [Hlo Hhi]]; [lia|].
  unfold int_spec. set (n := (bit_len x + 7) / 8) in *.
  assert (Hv : be_val (be_bytes (Z.to_nat n) x) = x).
  { apply be_val_bytes. rewrite Z2Nat.id by lia. lia. }
  split; [done|]. intros _ H0.
  assert (Hl : zlen (be_bytes (Z.to_nat n) x) = n) by (rewrite zlen_be_bytes; lia).
  pose proof (be_bytes_ok (Z.to_nat n) x) as Hok.
  destruct (be_bytes (Z.to_nat n) x) as [|y l]; [rewrite zlen_nil in Hl; lia|].
  simpl in H0. subst y. inversion Hok as [|? ? _ Hok']; subst.
  pose proof (be_val_bound l Hok'). rewrite zlen_cons in Hl.
  assert (be_val (0 :: l) = be_val l) by done.
  replace (n - 1) with (zlen l) in Hlo by lia. lia.
Qed.

Lemma zlen_int_spec x : 0 <= x < 2 ^ 64 -> zlen (int_spec x) <= 8.
Proof.
  intros Hx. unfold int_spec. rewrite zlen_be_bytes. destruct (Z.eq_dec x 0) as [->|Hx0]; [done|].
  rewrite bit_len_intsize by (unfold is_u64; lia).
  destruct (intsize_spec x ltac:(done)). lia.
Qed.

Lemma SplitUint64_sound b x r :
  bytes_ok b -> zlen b < 2 ^ 64 ->
  SplitUint64 b = Ok (x, r) -> is_u64 x /\ b = string_spec (int_spec x) ++ r.
Proof.
  intros Hb Hlen. unfold SplitUint64.
  intros H. apply bind_Ok in H as ([c r'] & HS & H).
  apply SplitString_iff in HS; [|done..].
  assert (Hc : bytes_ok c).
  { rewrite HS, Forall_app in Hb. destruct Hb as [Hb _].
    destruct c as [|y [|z c]]; [constructor| |by apply Forall_app in Hb as [_ Hb]].
    unfold string_spec in Hb. destruct (y <? 128); [done|]. by apply Forall_app in Hb as [_ Hb]. }
  assert (Hgoal : forall v, (c <> [] -> nth 0 c 0 <> 0) -> zlen c <= 8 -> be_val c = v ->
            (Ok (v, r') : rlp _) = Ok (x, r) ->
            is_u64 x /\ b = string_spec (int_spec x) ++ r).
  { intros v H0 Hl <- [= <- <-]. destruct (int_spec_unique c) as [? ->]; done. }
  destruct (Z.eqb_spec (zlen c) 0) as [Hz|Hz].
  { apply zlen_0_inv in Hz as ->. by apply (Hgoal 0). }
  destruct (Z.eqb_spec (zlen c) 1) as [H1|H1].
  { destruct c as [|y [|z c]]; [done| |rewrite !zlen_cons in H1; pose proof (zlen_nonneg c); lia].
    simpl in H. destruct (Z.eqb_spec y 0); [done|]. by apply (Hgoal y). }
  destruct (Z.gtb_spec (zlen c) 8); [done|]. pose proof (zlen_nonneg c).
  rewrite u8_small in H by (unfold is_byte; lia).
  pose proof (readSize_spec c [] Hc ltac:(lia)) as Hrs. rewrite app_nil_r in Hrs. rewrite Hrs in H.
  destruct (Z.ltb_spec (be_val c) 56), (Z.eqb_spec (nth 0 c 0) 0); simpl in H; try done.
  by apply (Hgoal (be_val c)).
Qed.

Lemma SplitUint64_complete b x r :
  bytes_ok b -> zlen b < 2 ^ 64 ->
  is_u64 x /\ b = string_spec (int_spec x) ++ r -> SplitUint64 b = Ok (x, r).
Proof.
  intros Hb Hlen. unfold SplitUint64.
  intros [Hx Heq]. assert (HS : SplitString b = Ok (int_spec x, r)) by by apply SplitString_iff.
  rewrite HS. bind_simpl. unfold is_u64 in Hx. destruct (int_spec_val x) as [Hv H0]; [lia|].
  pose proof (zlen_int_spec x Hx). pose proof (int_spec_ok x) as Hok.
  revert Hv H0 H Hok. generalize (int_spec x) as c. intros c Hv H0 Hl Hok.
  destruct (Z.eqb_spec (zlen c) 0) as [Hz|Hz].
  { apply zlen_0_inv in Hz as ->. by rewrite <- Hv. }
  assert (Hne : nth 0 c 0 <> 0) by (apply H0; by intros ->).
  destruct (Z.eqb_spec (zlen c) 1) as [H1|H1].
  { destruct c as [|y [|z c]]; [done| |rewrite !zlen_cons in H1; pose proof (zlen_nonneg c); lia].
    simpl in *. rewrite (proj2 (Z.eqb_neq y 0)) by done. by rewrite <- Hv. }
  rewrite Z.gtb_ltb, (proj2 (Z.ltb_ge _ _)) by done. pose proof (zlen_nonneg c).
  rewrite u8_small by (unfold is_byte; lia).
  pose proof (readSize_spec c [] Hok ltac:(lia)) as Hrs. rewrite app_nil_r in Hrs. rewrite Hrs.
  assert (256 <= be_val c).
  { destruct c as [|y c]; [done|]. pose proof (be_val_lower y c Hok Hne). rewrite zlen_cons in *.
    pose proof (Z.pow_le_mono_r 256 1 (zlen c)). lia. }
  rewrite (proj2 (Z.ltb_ge _ _)), (proj2 (Z.eqb_neq (nth 0 c 0) 0)) by lia. simpl. by rewrite Hv.
Qed.

(** [SplitUint64] inverts the integer encoder: it returns [x] if and only
    if the input starts with the encoding of the 64-bit integer [x], so
    integers with leading zeroes or more than eight bytes are rejected. *)
Theorem SplitUint64_correct (b : list Z) (x : Z) (r : list Z) :
  bytes_ok b -> zlen b < 2 ^ 64 ->
  SplitUint64 b = Ok (x, r) <-> is_u64 x /\ b = string_spec (int_spec x) ++ r.
Proof.
  intros Hb Hlen. split; [by apply SplitUint64_sound|by apply SplitUint64_complete].
Qed.

Lemma SplitUint64_correct_witness : SplitUint64 [130; 4; 0; 9] = Ok (1024, [9]).
Proof.
  apply (SplitUint64_correct [130; 4; 0; 9] 1024 [9]).
  - repeat constructor; unfold is_byte; lia.
  - reflexivity.
  - split; [unfold is_u64; lia|reflexivity].
Defined.

(** ** Counting and iterating *)

Lemma zlen_enc_pos k c : 0 < zlen (enc k c).
Proof.
  assert (Hh : forall small large n, 0 < zlen (head_spec small large n ++ c)).
  { intros small large n. unfold head_spec. pose proof (zlen_nonneg c).
    destruct (n <? 56); simpl; rewrite zlen_cons, ?zlen_app;
      [lia|pose proof (zlen_nonneg (be_bytes (Z.to_nat (intsize n)) n)); lia]. }
  assert (Hs : 0 < zlen (string_spec c)).
  { destruct c as [|x [|? ?]]; [apply Hh| |apply Hh]. unfold string_spec.
    destruct (x <? 128); [done|apply Hh]. }
  destruct k; [done..|apply Hh].
Qed.

(** One value at the front of a slice. *)
Lemma readKind_step b k ts cs :
  bytes_ok b -> zlen b < 2 ^ 64 -> readKind b = Ok (k, ts, cs) ->
  exists c r, b = enc k c ++ r /\ kind_ok k c /\ u64 (ts + cs) = zlen (enc k c).
Proof.
  intros Hb Hlen Hk. destruct (readKind_sound _ _ _ _ Hb Hlen Hk)
    as (hd & c & r & Heq & Hts & Hcs & He & Hok).
  exists c, r. rewrite He, <- app_assoc. split; [done|]. split; [done|].
  rewrite zlen_app, Hts, Hcs. pose proof (zlen_nonneg hd); pose proof (zlen_nonneg c).
  pose proof (zlen_nonneg r). rewrite Heq, !zlen_app in Hlen. apply u64_small. lia.
Qed.

Definition enc_pair (v : Kind * list Z) : list Z := enc v.1 v.2.
Definition values_ok (vs : list (Kind * list Z)) : Prop := Forall (fun v => kind_ok v.1 v.2) vs.

Lemma CountValues_loop_sound fuel b i :
  bytes_ok b -> zlen b < 2 ^ 64 -> (length b <= fuel)%nat ->
  match CountValues_loop fuel b i with
  | Ok n => exists vs, values_ok vs /\ b = concat (map enc_pair vs) /\ n = i + zlen vs
  | Err _ => True
  | Panic => False
  end.
Proof.
  revert b i. induction fuel as [|fuel IH]; intros b i Hb Hlen Hf; simpl;
    (destruct (Z.gtb_spec (zlen b) 0) as [Hp|Hp];
     [|exists []; rewrite (zlen_0_inv b) by (pose proof (zlen_nonneg b); lia);
       rewrite zlen_nil; split; [constructor|]; split; [done|lia]]).
  { unfold zlen in Hp. lia. }
  pose proof (readKind_no_panic b).
  destruct (readKind b) as [[[k ts] cs]|e|] eqn:Hk; [|done|done]. bind_simpl.
  destruct (readKind_step _ _ _ _ Hb Hlen Hk) as (c & r & -> & Hok & ->).
  rewrite slice_from_app. bind_simpl. pose proof (zlen_enc_pos k c).
  apply Forall_app in Hb as [_ Hb]. rewrite length_app in Hf. rewrite zlen_app in Hlen.
  specialize (IH r (i + 1) Hb ltac:(lia) ltac:(unfold zlen in *; lia)).
  destruct (CountValues_loop fuel r (i + 1)); [|done|done].
  destruct IH as (vs & Hvs & -> & ->). exists ((k, c) :: vs). rewrite zlen_cons.
  split; [by constructor|]. split; [done|lia].
Qed.

Lemma CountValues_loop_complete vs fuel i :
  bytes_ok (concat (map enc_pair vs)) -> zlen (concat (map enc_pair vs)) < 2 ^ 64 ->
  values_ok vs -> (length (concat (map enc_pair vs)) <= fuel)%nat ->
  CountValues_loop fuel (concat (map enc_pair vs)) i = Ok (i + zlen vs).
Proof.
  revert fuel i. induction vs as [|[k c] vs IH]; intros fuel i Hb Hlen Hvs Hf.
  { destruct fuel; simpl; by rewrite zlen_nil, Z.add_0_r. }
  inversion Hvs as [|? ? Hok Hvs']; subst. simpl in *. unfold enc_pair at 1 in Hb.
  unfold enc_pair at 1 in Hlen. unfold enc_pair at 1 in Hf. unfold enc_pair at 1. simpl in *.
  pose proof (zlen_enc_pos k c). rewrite length_app in Hf.
  apply Forall_app in Hb as [Hb1 Hb2].
  destruct (readKind_complete k c (concat (map enc_pair vs)) Hb1 Hlen Hok) as (hd & He & Hk).
  pose proof (zlen_nonneg (concat (map enc_pair vs))).
  destruct fuel as [|fuel]; [unfold zlen in *; lia|]. simpl.
  rewrite Z.gtb_ltb, (proj2 (Z.ltb_lt _ _)) by (rewrite zlen_app; lia).
  rewrite Hk. bind_simpl. rewrite zlen_app in Hlen.
  replace (u64 (zlen hd + zlen c)) with (zlen (enc k c))
    by (rewrite <- zlen_app, <- He; symmetry; apply u64_small; lia).
  rewrite slice_from_app. bind_simpl.
  rewrite IH by (done || unfold zlen in *; lia). rewrite zlen_cons. f_equal. lia.
Qed.

(** [CountValues] terminates on every input without panicking, and counts
    [n] values if and only if the input is a concatenation of exactly [n]
    canonical encodings. *)
Theorem CountValues_correct (b : list Z) :
  bytes_ok b -> zlen b < 2 ^ 64 ->
  CountValues b <> Panic /\
  forall n, CountValues b = Ok n <->
    exists vs, values_ok vs /\ b = concat (map enc_pair vs) /\ n = zlen vs.
Proof.
  intros Hb Hlen. unfold CountValues.
  pose proof (CountValues_loop_sound (length b) b 0 Hb Hlen ltac:(done)) as Hs.
  split; [by intros HP; rewrite HP in Hs|]. intros n. split.
  - intros HO. rewrite HO in Hs. by setoid_rewrite Z.add_0_l in Hs.
  - intros (vs & Hvs & -> & ->). by rewrite CountValues_loop_complete.
Qed.

Lemma CountValues_correct_witness : CountValues [1; 130; 4; 0; 193; 5] = Ok 3.
Proof.
  apply (CountValues_correct [1; 130; 4; 0; 193; 5]).
  - repeat constructor; unfold is_byte; lia.
  - reflexivity.
  - exists [(Byte, [1]); (String, [4; 0]); (List, [5])].
    split; [repeat constructor; (by left) || (by right)|]. split; reflexivity.
Defined.

(** The loop [for it.Next() { if it.Err() != nil { return err }; use(it.Value()) }]. *)
Fixpoint collect (fuel : nat) (it : listIterator) : rlp (list (list Z)) :=
  match fuel with
  | O => Panic
  | S fuel =>
      match Next it with
      | Ok (false, _) => Ok []
      | Ok (true, it) =>
          match it_err it with
          | Some e => Err e
          | None => l ← collect fuel it; Ok (it_next it :: l)
          end
      | _ => Panic
      end
  end.

Lemma Next_value k c r nx er :
  bytes_ok (enc k c) -> zlen (enc k c ++ r) < 2 ^ 64 -> kind_ok k c ->
  Next (ListIterator (enc k c ++ r) nx er) = Ok (true, ListIterator r (enc k c) None).
Proof.
  intros Hb Hlen Hok. unfold Next. simpl. pose proof (zlen_enc_pos k c).
  pose proof (zlen_nonneg r). rewrite (proj2 (Z.eqb_neq _ _)) by (rewrite zlen_app; lia).
  destruct (readKind_complete k c r Hb Hlen Hok) as (hd & He & Hk). rewrite Hk.
  rewrite zlen_app in Hlen.
  replace (u64 (zlen hd + zlen c)) with (zlen (enc k c))
    by (rewrite <- zlen_app, <- He; symmetry; apply u64_small; lia).
  pose proof (slice_app (E:=Empty_set) [] (enc k c) r) as Hsl.
  rewrite zlen_nil, Z.add_0_l, app_nil_l in Hsl. rewrite Hsl. bind_simpl.
  by rewrite slice_from_app.
Qed.

(** An iterator over the encoding of a list returns the encodings of the
    list's elements, one per [Next], and then stops. *)
Theorem listIterator_elements (vs : list (Kind * list Z)) (rest : list Z) :
  let payload := concat (map enc_pair vs) in
  bytes_ok (enc List payload) -> zlen (enc List payload ++ rest) < 2 ^ 64 -> values_ok vs ->
  (it ← NewListIterator (enc List payload ++ rest); collect (S (length vs)) it)
  = Ok (map enc_pair vs).
Proof.
  intros payload Hb Hlen Hvs.
  assert (Hnew : exists nx, NewListIterator (enc List payload ++ rest) = Ok (ListIterator payload nx None)).
  { destruct (readKind_complete List payload rest Hb Hlen (or_introl eq_refl)) as (hd & He & Hk).
    unfold NewListIterator. rewrite Hk. bind_simpl. rewrite He, <- app_assoc in *.
    rewrite !zlen_app in Hlen. pose proof (zlen_nonneg hd). pose proof (zlen_nonneg payload).
    pose proof (zlen_nonneg rest). rewrite u64_small by lia. rewrite slice_app. by exists []. }
  destruct Hnew as (nx & ->). bind_simpl.
  assert (Hp : bytes_ok payload /\ zlen payload < 2 ^ 64).
  { unfold enc, list_spec in *. rewrite Forall_app in Hb. rewrite !zlen_app in Hlen.
    pose proof (zlen_nonneg (head_spec 192 247 (zlen payload))).
    pose proof (zlen_nonneg rest). split; [by destruct Hb|lia]. }
  destruct Hp as [Hpb Hpl]. clear Hb Hlen. subst payload. revert nx.
  generalize (@None rlp_error) as er.
  induction vs as [|[k c] vs IH]; intros er nx; [done|].
  inversion Hvs as [|? ? Hok Hvs']; subst.
  change (concat (map enc_pair ((k, c) :: vs))) with (enc k c ++ concat (map enc_pair vs)) in *.
  apply Forall_app in Hpb as [Hb1 Hb2].
  change (collect (S (length ((k, c) :: vs)))) with (collect (S (S (length vs)))).
  cbn [collect]. rewrite Next_value by done. simpl it_err. cbv iota.
  rewrite zlen_app in Hpl. pose proof (zlen_enc_pos k c).
  change (match Next ?it with Ok _ => _ | Err _ => _ | Panic => _ end) with (collect (S (length vs)) it).
  rewrite IH by (done || lia). done.
Qed.

Lemma listIterator_elements_witness :
  (it ← NewListIterator [196; 1; 130; 4; 0; 7]; collect 3 it) = Ok [[1]; [130; 4; 0]].
Proof.
  apply (listIterator_elements [(Byte, [1]); (String, [4; 0])] [7]).
  - solve_decidable.
  - reflexivity.
  - repeat constructor; by right.
Defined.

(** On a malformed element [Next] does not advance: it reports the error,
    leaves the data where it was and returns [true], so every later call
    returns [true] again. *)
Theorem listIterator_stuck (data : list Z) (nx : list Z) (er : option rlp_error) (e : rlp_error) :
  data <> [] -> readKind data = Err e ->
  Next (ListIterator data nx er) = Ok (true, ListIterator data [] (Some e)).
Proof.
  intros Hne Hk. unfold Next. simpl.
  assert (zlen data <> 0) by (intros H; by apply Hne, zlen_0_inv).
  rewrite (proj2 (Z.eqb_neq _ _)), Hk by done.
  pose proof (slice_app (E:=Empty_set) [] [] data) as Hsl.
  pose proof (slice_from_app (E:=Empty_set) [] data) as Hsf.
  rewrite zlen_nil in *. simpl app in *. change (u64 (0 + 0)) with 0.
  change (0 + 0) with 0 in Hsl. by rewrite Hsl, Hsf.
Qed.

Lemma listIterator_stuck_witness :
  Next (ListIterator [130; 4] [] None) = Ok (true, ListIterator [130; 4] [] (Some ErrValueTooLarge)).
Proof. by apply (listIterator_stuck [130; 4] [] None). Defined.
