(* ===== verification/RlpStream.v ===== *)
(** * The RLP stream decoder (src/rlp/decode.go)

    [Stream] reads values from an input reader, tracking the enclosing lists
    and the input limit.  The typed decoders that [makeDecoder] selects are
    modelled by a type descriptor.  The file shows that decoding inverts
    encoding and that only canonical input is accepted. *)
From stdpp Require Import prelude list.
From Stdlib Require Import ZArith Lia.
From S2P Require Import Prelude RlpEncode RlpRaw.

(** ** The stream *)

Record listpos := ListPos { lp_pos : Z; lp_size : Z }.

(** [s_kind = None] stands for [kind = -1].  The reader is the list of bytes
    it has left; the innermost list is the head of [s_stack]. The scratch
    buffer [uintbuf] is overwritten before each use and not part of the state. *)
Record Stream := MkStream {
  s_r : list Z;
  s_remaining : Z;
  s_limited : bool;
  s_kind : option Kind;
  s_size : Z;
  s_byteval : Z;
  s_kinderr : option rlp_error;
  s_stack : list listpos
}.

Definition set_kind (s : Stream) (k : option Kind) : Stream :=
  MkStream (s_r s) (s_remaining s) (s_limited s) k (s_size s) (s_byteval s)
    (s_kinderr s) (s_stack s).
Definition set_stack (s : Stream) (st : list listpos) : Stream :=
  MkStream (s_r s) (s_remaining s) (s_limited s) (s_kind s) (s_size s) (s_byteval s)
    (s_kinderr s) st.
Definition set_r (s : Stream) (r : list Z) : Stream :=
  MkStream r (s_remaining s) (s_limited s) (s_kind s) (s_size s) (s_byteval s)
    (s_kinderr s) (s_stack s).
Definition set_remaining (s : Stream) (n : Z) : Stream :=
  MkStream (s_r s) n (s_limited s) (s_kind s) (s_size s) (s_byteval s)
    (s_kinderr s) (s_stack s).
Definition set_byteval (s : Stream) (b : Z) : Stream :=
  MkStream (s_r s) (s_remaining s) (s_limited s) (s_kind s) (s_size s) b
    (s_kinderr s) (s_stack s).
Definition set_size (s : Stream) (n : Z) : Stream :=
  MkStream (s_r s) (s_remaining s) (s_limited s) (s_kind s) n (s_byteval s)
    (s_kinderr s) (s_stack s).
Definition set_kinderr (s : Stream) (e : option rlp_error) : Stream :=
  MkStream (s_r s) (s_remaining s) (s_limited s) (s_kind s) (s_size s) (s_byteval s)
    e (s_stack s).

(** Stream operations return a result and the stream, also when they fail. *)
Definition SM (A : Type) : Type := Stream -> rlp A * Stream.

#[global] Instance SM_ret : MRet SM := fun A a s => (Ok a, s).
#[global] Instance SM_bind : MBind SM := fun A B f m s =>
  match m s with
  | (Ok a, s) => f a s
  | (Err e, s) => (Err e, s)
  | (Panic, s) => (Panic, s)
  end.
Definition fails {A} (e : rlp_error) : SM A := fun s => (Err e, s).
Definition on_stream {A} (f : Stream -> rlp A * Stream) : SM A := f.
Definition panics {A} : SM A := fun s => (Panic, s).
Definition modify (f : Stream -> Stream) : SM unit := fun s => (Ok tt, f s).
Definition gets {A} (f : Stream -> A) : SM A := fun s => (Ok (f s), s).

(** [Reset]: [sized_reader] says that the reader is a [bytes.Reader] or a
    [strings.Reader], whose length is the limit when none is given. *)
Definition Reset (s : Stream) (r : list Z) (sized_reader : bool) (inputLimit : Z) : Stream :=
  let '(remaining, limited) :=
    if inputLimit >? 0 then (inputLimit, true)
    else if sized_reader then (zlen r, true)
    else (s_remaining s, false) in
  MkStream r remaining limited None 0 0 None [].

Definition willRead (n : Z) : SM unit := fun s =>
  let s := set_kind s None in
  match
    match s_stack s with
    | [] => inl s
    | tos :: st =>
        if n >? u64 (lp_size tos - lp_pos tos) then inr ErrElemTooLarge
        else inl (set_stack s (ListPos (u64 (lp_pos tos + n)) (lp_size tos) :: st))
    end
  with
  | inr e => (Err e, s)
  | inl s =>
      if s_limited s then
        if n >? s_remaining s then (Err ErrValueTooLarge, s)
        else (Ok tt, set_remaining s (s_remaining s - n))
      else (Ok tt, s)
  end.

(** [s.r.ReadByte()], with [io.EOF] turned into [io.ErrUnexpectedEOF]. *)
Definition readByte : SM Z :=
  _ ← willRead 1;
  on_stream (fun s =>
    match s_r s with
    | b :: r => (Ok b, set_r s r)
    | [] => (Err ErrUnexpectedEOF, s)
    end).

(** Reads a buffer of [n] bytes; the reader may run dry on the way. *)
Definition readFull (n : Z) : SM (list Z) :=
  _ ← willRead n;
  on_stream (fun s =>
    if n <=? zlen (s_r s) then
      (Ok (take (Z.to_nat n) (s_r s)), set_r s (drop (Z.to_nat n) (s_r s)))
    else (Err ErrUnexpectedEOF, set_r s [])).

Definition rearm : SM unit := modify (fun s => set_kind s None).

(** [uintbuf] has eight bytes: a larger size is out of its range. *)
Definition readUint (size : Z) : SM Z :=
  if size =? 0 then _ ← rearm; mret 0
  else if size =? 1 then readByte
  else if size >? 8 then panics
  else
    b ← readFull size;
    if nth 0 b 0 =? 0 then fails ErrCanonSize
    else mret (be_val b).

(** [readKind]: the kind, the size and the error, all stored by [Kind]. *)
Definition sized (k : Kind) (n : Z) : SM (Kind * Z * option rlp_error) := fun s =>
  match readUint n s with
  | (Ok size, s) => (Ok (k, size, if size <? 56 then Some ErrCanonSize else None), s)
  | (Err e, s) => (Ok (k, 0, Some e), s)
  | (Panic, s) => (Panic, s)
  end.

Definition stream_readKind : SM (Kind * Z * option rlp_error) := fun s =>
  match readByte s with
  | (Panic, s) => (Panic, s)
  | (Err err, s) =>
      let err :=
        match s_stack s with
        | [] => match err with
                | ErrUnexpectedEOF | ErrValueTooLarge => EOF
                | e => e
                end
        | _ => err
        end in
      (Ok (Byte, 0, Some err), s)
  | (Ok b, s) =>
      let s := set_byteval s 0 in
      if b <? 0x80 then (Ok (Byte, 0, None), set_byteval s b)
      else if b <? 0xB8 then (Ok (String, u8 (b - 0x80), None), s)
      else if b <? 0xC0 then sized String (u8 (b - 0xB7)) s
      else if b <? 0xF8 then (Ok (List, u8 (b - 0xC0), None), s)
      else sized List (u8 (b - 0xF7)) s
  end.

(** The error that [Kind] adds: the value is larger than what is left. *)
Definition size_error (s : Stream) (size : Z) : option rlp_error :=
  match s_stack s with
  | [] => if s_limited s && (size >? s_remaining s) then Some ErrValueTooLarge else None
  | tos :: _ => if size >? u64 (lp_size tos - lp_pos tos) then Some ErrElemTooLarge else None
  end.

Definition at_eol (s : Stream) : bool :=
  match s_stack s with
  | [] => false
  | tos :: _ => lp_pos tos =? lp_size tos
  end.

Definition kind_result (s : Stream) : rlp (Kind * Z) * Stream :=
  match s_kinderr s, s_kind s with
  | Some e, _ => (Err e, s)
  | None, Some k => (Ok (k, s_size s), s)
  | None, None => (Panic, s)
  end.

Definition stream_Kind : SM (Kind * Z) := fun s =>
  match s_kind s with
  | Some _ => kind_result s
  | None =>
      let s := set_kinderr s None in
      if at_eol s then (Err EOL, s)
      else
        match stream_readKind s with
        | (Ok (k, size, err), s) =>
            let err := match err with None => size_error s size | e => e end in
            kind_result (set_kinderr (set_size (set_kind s (Some k)) size) err)
        | (Err e, s) => (Err e, s)
        | (Panic, s) => (Panic, s)
        end
  end.

(** [make([]byte, n)] panics above the largest allocation. *)
Definition maxAlloc : Z := 2 ^ 48.
Definition make_bytes (n : Z) : SM (list Z) :=
  if n >? maxAlloc then panics else mret (replicate (Z.to_nat n) 0).

Definition lift_rlp {A} (m : rlp A) : SM A := fun s => (m, s).

Definition Bytes : SM (list Z) :=
  '(kind, size) ← stream_Kind;
  match kind with
  | Byte => b ← gets s_byteval; _ ← rearm; mret [b]
  | String =>
      b ← make_bytes size;
      b ← readFull (zlen b);
      if (size =? 1) && (nth 0 b 0 <? 128) then fails ErrCanonSize else mret b
  | List => fails ErrExpectedString
  end.

Definition Raw : SM (list Z) :=
  '(kind, size) ← stream_Kind;
  match kind with
  | Byte => b ← gets s_byteval; _ ← rearm; mret [b]
  | _ =>
      let start := headsize size in
      buf ← make_bytes (u64 (start + size));
      tl ← lift_rlp (slice_from buf start);
      body ← readFull (zlen tl);
      let buf := take (Z.to_nat start) buf ++ body in
      '(buf, _) ← lift_rlp (if decide (kind = String) then puthead buf 0x80 0xB7 size
                            else puthead buf 0xC0 0xF7 size);
      mret buf
  end.

(** [s.uint(maxbits)] *)
Definition stream_uint (maxbits : Z) : SM Z :=
  '(kind, size) ← stream_Kind;
  match kind with
  | Byte =>
      b ← gets s_byteval;
      if b =? 0 then fails ErrCanonInt else _ ← rearm; mret b
  | String =>
      if size >? maxbits / 8 then fails errUintOverflow
      else on_stream (fun s =>
        match readUint (u8 size) s with
        | (Err ErrCanonSize, s) => (Err ErrCanonInt, s)
        | (Ok v, s) => if (size >? 0) && (v <? 128) then (Err ErrCanonSize, s) else (Ok v, s)
        | r => r
        end)
  | List => fails ErrExpectedString
  end.

Definition Bool : SM bool :=
  num ← stream_uint 8;
  if num =? 0 then mret false
  else if num =? 1 then mret true
  else fails (errInvalidBool num).

(** [s.List()] *)
Definition stream_List : SM Z :=
  '(kind, size) ← stream_Kind;
  match kind with
  | List =>
      _ ← modify (fun s => set_size (set_kind (set_stack s (ListPos 0 size :: s_stack s)) None) 0);
      mret size
  | _ => fails ErrExpectedList
  end.

Definition ListEnd : SM unit := fun s =>
  match s_stack s with
  | [] => (Err errNotInList, s)
  | tos :: st =>
      if negb (lp_pos tos =? lp_size tos) then (Err errNotAtEOL, s)
      else
        let st := match st with
                  | [] => []
                  | up :: st => ListPos (u64 (lp_pos up + lp_size tos)) (lp_size up) :: st
                  end in
        (Ok tt, set_size (set_kind (set_stack s st) None) 0)
  end.

(** ** Typed decoders *)

(** The Go type decoded into, by the decoder [makeDecoder] picks. *)
Inductive ty :=
| TRaw | TBigInt | TUint (bits : Z) | TBool | TString | TBytes
| TByteArray (n : nat)
| TSlice (elem : ty)
| TArray (n : nat) (elem : ty)
| TStruct (fields : list ty) (tail : option ty)  (* with the "tail" field *)
| TPtr (elem : ty)
| TNilPtr (nilKind : Kind) (elem : ty)           (* with struct tag "nil" *)
| TInterface.

Definition wrapStreamError (err : rlp_error) : rlp_error :=
  match err with
  | ErrCanonInt => decodeError msgCanonInt
  | ErrCanonSize => decodeError msgCanonSize
  | ErrExpectedList => decodeError msgExpectedList
  | ErrExpectedString => decodeError msgExpectedString
  | errUintOverflow => decodeError msgTooLong
  | errNotAtEOL => decodeError msgTooManyElems
  | e => e
  end.

Definition wrapped {A} (m : SM A) : SM A := fun s =>
  match m s with
  | (Err e, s) => (Err (wrapStreamError e), s)
  | r => r
  end.

Definition decodeBigInt : SM item :=
  b ← wrapped Bytes;
  match b with
  | 0 :: _ => fails (wrapStreamError ErrCanonInt)
  | _ => mret (IBigInt (be_val b))
  end.

Definition decodeByteArray (vlen : nat) : SM item :=
  '(kind, size) ← stream_Kind;
  match kind with
  | Byte =>
      match vlen with
      | O => fails (decodeError msgTooLong)
      | S (S _) => fails (decodeError msgTooShort)
      | _ => on_stream (fun s =>
          (* bv, _ := s.Uint(): the error is dropped *)
          match stream_uint 64 s with
          | (Ok bv, s) => (Ok (IByteArray [u8 bv]), s)
          | (Err _, s) => (Ok (IByteArray [0]), s)
          | (Panic, s) => (Panic, s)
          end)
      end
  | String =>
      if Z.of_nat vlen <? size then fails (decodeError msgTooLong)
      else if Z.of_nat vlen >? size then fails (decodeError msgTooShort)
      else
        b ← readFull (Z.of_nat vlen);
        if (size =? 1) && (nth 0 b 0 <? 128) then fails (wrapStreamError ErrCanonSize)
        else mret (IByteArray b)
  | List => fails (wrapStreamError ErrExpectedString)
  end.

(** A decoder that may need more rounds than the fuel allows: [None]. *)
Definition fueled (A : Type) : Type := Stream -> option (rlp A * Stream).

Definition lift {A} (m : SM A) : fueled A := fun s => Some (m s).

Definition fbind {A B} (m : fueled A) (f : A -> fueled B) : fueled B := fun s =>
  match m s with
  | Some (Ok a, s) => f a s
  | Some (Err e, s) => Some (Err e, s)
  | Some (Panic, s) => Some (Panic, s)
  | None => None
  end.

(** [decodeSliceElems]: decodes elements until the end of the list. *)
Fixpoint decodeSliceElems (fuel : nat) (elemdec : fueled item) (acc : list item)
    : fueled (list item) := fun s =>
  match fuel with
  | O => None
  | S fuel =>
      match elemdec s with
      | Some (Err EOL, s) => Some (Ok acc, s)
      | Some (Ok v, s) => decodeSliceElems fuel elemdec (acc ++ [v]) s
      | Some (Err e, s) => Some (Err e, s)
      | Some (Panic, s) => Some (Panic, s)
      | None => None
      end
  end.

Definition decodeListSlice (fuel : nat) (elemdec : fueled item) : fueled item :=
  fbind (lift (wrapped stream_List)) (fun size =>
    if size =? 0 then fbind (lift ListEnd) (fun _ => lift (mret (IList [])))
    else
      fbind (decodeSliceElems fuel elemdec []) (fun l =>
        fbind (lift ListEnd) (fun _ => lift (mret (IList l))))).

(** The element loop of [decodeListArray]: [n] elements. *)
Fixpoint decodeArrayElems (n : nat) (elemdec : fueled item) (acc : list item)
    : fueled (list item) := fun s =>
  match n with
  | O => Some (Ok acc, s)
  | S n =>
      match elemdec s with
      | Some (Err EOL, s) => Some (Err (decodeError msgTooFewElems), s)
      | Some (Ok v, s) => decodeArrayElems n elemdec (acc ++ [v]) s
      | Some (Err e, s) => Some (Err e, s)
      | Some (Panic, s) => Some (Panic, s)
      | None => None
      end
  end.

Definition decodeListArray (n : nat) (elemdec : fueled item) : fueled item :=
  fbind (lift (wrapped stream_List)) (fun _ =>
    fbind (decodeArrayElems n elemdec []) (fun l =>
      fbind (lift (wrapped ListEnd)) (fun _ => lift (mret (IList l))))).

(** The field loop of the decoder of a struct. *)
Fixpoint decodeFields (decs : list (fueled item)) (acc : list item)
    : fueled (list item) := fun s =>
  match decs with
  | [] => Some (Ok acc, s)
  | dec :: decs =>
      match dec s with
      | Some (Err EOL, s) => Some (Err (decodeError msgTooFewElems), s)
      | Some (Ok v, s) => decodeFields decs (acc ++ [v]) s
      | Some (Err e, s) => Some (Err e, s)
      | Some (Panic, s) => Some (Panic, s)
      | None => None
      end
  end.

(** The decoder of [makeStructDecoder].  A field tagged "tail" takes the rest
    of the list; its elements follow the other fields. *)
Definition decodeStruct (decs : list (fueled item)) (tail : fueled (list item)) : fueled item :=
  fbind (lift (wrapped stream_List)) (fun _ =>
    fbind (decodeFields decs []) (fun l =>
      fbind tail (fun tl =>
        fbind (lift (wrapped ListEnd)) (fun _ => lift (mret (IList (l ++ tl))))))).

(** The decoder of [makeNilPtrDecoder]. *)
Definition decodeNilPtr (nilKind : Kind) (dec : fueled item) : fueled item :=
  fbind (lift (wrapped stream_Kind)) (fun '(kind, size) =>
    if negb (bool_decide (kind = Byte)) && (size =? 0) then
      if decide (kind = nilKind) then
        lift (_ ← rearm; mret (INilPtr (bool_decide (nilKind = String))))
      else lift (fails (decodeError msgWrongEmptyKind))
    else dec).

(** [decodeInterface] for [interface{}]: lists become slices of interfaces,
    everything else becomes a byte slice. *)
Fixpoint decodeInterface (fuel : nat) : fueled item :=
  match fuel with
  | O => fun _ => None
  | S fuel =>
      fbind (lift stream_Kind) (fun '(kind, _) =>
        match kind with
        | List => decodeListSlice fuel (decodeInterface fuel)
        | _ => lift (b ← Bytes; mret (IBytes b))
        end)
  end.

(** The decoder of a type. *)
Fixpoint decode (fuel : nat) (t : ty) : fueled item :=
  match t with
  | TRaw => lift (b ← Raw; mret (IRaw b))
  | TBigInt => lift decodeBigInt
  | TUint bits => lift (n ← wrapped (stream_uint bits); mret (IUint n))
  | TBool => lift (b ← wrapped Bool; mret (IBool b))
  | TString => lift (b ← wrapped Bytes; mret (IString b))
  | TBytes => lift (b ← wrapped Bytes; mret (IBytes b))
  | TByteArray n => lift (decodeByteArray n)
  | TSlice t => decodeListSlice fuel (decode fuel t)
  | TArray n t => decodeListArray n (decode fuel t)
  | TStruct ts tail =>
      decodeStruct (map (decode fuel) ts)
        (match tail with
         | Some t => decodeSliceElems fuel (decode fuel t) []
         | None => lift (mret [])
         end)
  | TPtr t => decode fuel t
  | TNilPtr k t => decodeNilPtr k (decode fuel t)
  | TInterface => decodeInterface fuel
  end.

(** [pooled] is the stream taken from [streamPool]. *)
Definition DecodeBytes (fuel : nat) (pooled : Stream) (b : list Z) (t : ty)
    : option (rlp item) :=
  match decode fuel t (Reset pooled b true (zlen b)) with
  | Some (Ok v, s) =>
      Some (if zlen (s_r s) >? 0 then Err ErrMoreThanOneValue else Ok v)
  | Some (Err e, _) => Some (Err e)
  | Some (Panic, _) => Some Panic
  | None => None
  end.

Lemma zlen_1_inv {A} (l : list A) : zlen l = 1 -> exists x, l = [x].
Proof.
  destruct l as [|x [|y l]]; [done|by exists x|].
  rewrite !zlen_cons. pose proof (zlen_nonneg l). lia.
Qed.
(** ** Positions *)

(** The bytes a value may take from the reader: the rest of the innermost
    list, or of the input. *)
Definition window (st : list listpos) (r : list Z) : Z :=
  match st with
  | [] => zlen r
  | tos :: _ => lp_size tos - lp_pos tos
  end.

Definition advance (st : list listpos) (n : Z) : list listpos :=
  match st with
  | [] => []
  | tos :: st => ListPos (lp_pos tos + n) (lp_size tos) :: st
  end.

Definition wf_pos (st : list listpos) (r : list Z) : Prop :=
  zlen r < 2 ^ 47 /\ bytes_ok r /\ 0 <= window st r <= zlen r /\
  match st with
  | [] => True
  | tos :: _ => 0 <= lp_pos tos /\ lp_size tos < 2 ^ 64
  end.

(** A stream between two values: the fields that matter then. *)
Definition ready (r : list Z) (st : list listpos) (s : Stream) : Prop :=
  s_r s = r /\ s_remaining s = zlen r /\ s_limited s = true /\ s_kind s = None /\ s_stack s = st.

(** A stream behind the header of a value. *)
Definition peeked (k : Kind) (n bv : Z) (r : list Z) (st : list listpos) (s : Stream) : Prop :=
  s_r s = r /\ s_remaining s = zlen r /\ s_limited s = true /\ s_stack s = st /\
  s_kind s = Some k /\ s_size s = n /\ s_kinderr s = None /\ (k = Byte -> s_byteval s = bv).

Lemma wf_pos_advance st l r :
  wf_pos st (l ++ r) -> zlen l <= window st (l ++ r) ->
  wf_pos (advance st (zlen l)) r /\ window (advance st (zlen l)) r = window st (l ++ r) - zlen l.
Proof.
  unfold wf_pos. rewrite zlen_app. intros (Hr & Hb & Hw & Hst) Hl. apply Forall_app in Hb as [_ Hb].
  pose proof (zlen_nonneg l); pose proof (zlen_nonneg r).
  destruct st as [|[p z] st]; simpl in *; rewrite ?zlen_app in *; split_and!; try done; lia.
Qed.

Lemma willRead_ok n r st s :
  ready r st s -> wf_pos st r -> 0 <= n <= window st r ->
  exists s', willRead n s = (Ok tt, s') /\ s_r s' = r /\ s_remaining s' = zlen r - n /\
    s_limited s' = true /\ s_kind s' = None /\ s_stack s' = advance st n.
Proof.
  intros (Hr & Hrem & Hlim & Hk & Hst) (Hz & _ & Hw & Hst') Hn. unfold willRead. simpl.
  rewrite Hst. destruct st as [|[p z] st]; simpl in *.
  - rewrite Hlim, Hrem, Z.gtb_ltb, (proj2 (Z.ltb_ge _ _)) by lia. eexists. split; [done|].
    split_and!; simpl; done || lia.
  - rewrite u64_small, Z.gtb_ltb, (proj2 (Z.ltb_ge _ _)) by lia. simpl.
    rewrite Hlim, Hrem, Z.gtb_ltb, (proj2 (Z.ltb_ge _ _)) by lia. eexists. split; [done|].
    split_and!; simpl; try (done || lia). by rewrite u64_small by lia.
Qed.

Lemma willRead_err n r st s :
  ready r st s -> wf_pos st r -> window st r < n ->
  exists e s', willRead n s = (Err e, s') /\ e <> EOL /\ s_stack s' = st.
Proof.
  intros (Hr & Hrem & Hlim & Hk & Hst) (Hz & _ & Hw & Hst') Hn. unfold willRead. simpl.
  rewrite Hst. destruct st as [|[p z] st]; simpl in *.
  - rewrite Hlim, Hrem, Z.gtb_ltb, (proj2 (Z.ltb_lt _ _)) by lia. eauto.
  - rewrite u64_small, Z.gtb_ltb, (proj2 (Z.ltb_lt _ _)) by lia. eauto.
Qed.

Lemma readFull_ok l r st s :
  ready (l ++ r) st s -> wf_pos st (l ++ r) -> zlen l <= window st (l ++ r) ->
  exists s', readFull (zlen l) s = (Ok l, s') /\ ready r (advance st (zlen l)) s'.
Proof.
  intros Hs Hwf Hl. pose proof (zlen_nonneg l). pose proof (zlen_nonneg r).
  destruct (willRead_ok (zlen l) _ _ _ Hs Hwf) as (s' & Hw & Hr & Hrem & Hlim & Hk & Hst); [lia|].
  unfold readFull, mbind, SM_bind, on_stream. rewrite Hw, Hr, zlen_app.
  rewrite (proj2 (Z.leb_le _ _)) by lia. rewrite take_zlen_app, drop_zlen_app.
  eexists. split; [done|]. unfold ready. simpl. rewrite zlen_app in Hrem. split_and!; try done. lia.
Qed.

Lemma readFull_err n r st s :
  ready r st s -> wf_pos st r -> window st r < n ->
  exists e s', readFull n s = (Err e, s') /\ e <> EOL.
Proof.
  intros Hs Hwf Hn. destruct (willRead_err _ _ _ _ Hs Hwf Hn) as (e & s' & Hw & He & _).
  unfold readFull, mbind, SM_bind. rewrite Hw. eauto.
Qed.

Lemma readByte_ok x r st s :
  ready (x :: r) st s -> wf_pos st (x :: r) -> 1 <= window st (x :: r) ->
  exists s', readByte s = (Ok x, s') /\ ready r (advance st 1) s'.
Proof.
  intros Hs Hwf Hl.
  destruct (willRead_ok 1 _ _ _ Hs Hwf) as (s' & Hw & Hr & Hrem & Hlim & Hk & Hst); [lia|].
  unfold readByte, mbind, SM_bind, on_stream. rewrite Hw, Hr. eexists. split; [done|].
  unfold ready. simpl. rewrite zlen_cons in Hrem. split_and!; try done. lia.
Qed.

Lemma readByte_err r st s :
  ready r st s -> wf_pos st r -> window st r <= 0 ->
  exists e s', readByte s = (Err e, s') /\ e <> EOL /\ s_stack s' = st.
Proof.
  intros Hs Hwf Hn. destruct (willRead_err 1 _ _ _ Hs Hwf) as (e & s' & Hw & He & Hst); [lia|].
  unfold readByte, mbind, SM_bind. rewrite Hw. eauto.
Qed.

(** The bytes of the window. *)
Definition visible (st : list listpos) (r : list Z) : list Z := take (Z.to_nat (window st r)) r.

Lemma visible_split st r :
  wf_pos st r -> exists tl, r = visible st r ++ tl /\ zlen (visible st r) = window st r /\
    bytes_ok (visible st r).
Proof.
  intros (_ & Hb & Hw & _). exists (drop (Z.to_nat (window st r)) r). unfold visible.
  rewrite take_drop, zlen_take by lia. split_and!; try done. by apply Forall_take.
Qed.

Lemma visible_app st l r :
  wf_pos st (l ++ r) -> zlen l <= window st (l ++ r) ->
  visible st (l ++ r) = l ++ visible (advance st (zlen l)) r.
Proof.
  intros Hwf Hl. destruct (wf_pos_advance _ _ _ Hwf Hl) as [_ Hw]. unfold visible. rewrite Hw.
  pose proof (zlen_nonneg l).
  rewrite take_app_ge by (unfold zlen in *; lia). do 2 f_equal. unfold zlen in *. lia.
Qed.

Lemma advance_0 st : advance st 0 = st.
Proof. destruct st as [|[p z] st]; [done|]. simpl. by rewrite Z.add_0_r. Qed.

Lemma readUint_ok l r st s :
  ready (l ++ r) st s -> wf_pos st (l ++ r) -> zlen l <= window st (l ++ r) -> zlen l <= 8 ->
  exists s',
    readUint (zlen l) s = ((if (1 <? zlen l) && (nth 0 l 0 =? 0) then Err ErrCanonSize
                            else Ok (be_val l)), s') /\
    ready r (advance st (zlen l)) s'.
Proof.
  intros Hs Hwf Hw Hl. unfold readUint. destruct (Z.eqb_spec (zlen l) 0) as [H0|H0].
  { rewrite H0. apply zlen_0_inv in H0 as ->. exists (set_kind s None). split; [done|].
    destruct Hs as (? & ? & ? & ? & Hst). unfold ready. simpl. rewrite Hst, advance_0. done. }
  pose proof (zlen_nonneg l). destruct (Z.eqb_spec (zlen l) 1) as [H1|].
  - rewrite H1. apply zlen_1_inv in H1 as [x ->].
    destruct (readByte_ok _ _ _ _ Hs Hwf) as (s' & -> & ?); [simpl in *; lia|]. eauto.
  - rewrite Z.gtb_ltb, (proj2 (Z.ltb_ge _ _)) by lia. unfold mbind, SM_bind.
    destruct (readFull_ok _ _ _ _ Hs Hwf) as (s' & -> & ?); [lia|].
    rewrite (proj2 (Z.ltb_lt 1 _)) by lia. exists s'. simpl. by destruct (nth 0 l 0 =? 0).
Qed.

(** A size field, as the raw reader reads it. *)
Lemma sized_spec k n r st s :
  ready r st s -> wf_pos st r -> 1 <= n <= 8 ->
  match readSize (visible st r) n with
  | Ok sz => exists l r' s', r = l ++ r' /\ zlen l = n /\ zlen l <= window st r /\
      sized k n s = (Ok (k, sz, None), s') /\ ready r' (advance st n) s'
  | _ => exists sz e s', sized k n s = (Ok (k, sz, Some e), s') /\ e <> EOL
  end.
Proof.
  intros Hs Hwf Hn. destruct (visible_split st r Hwf) as (tl & Hr & Hv & Hb).
  destruct (Z.le_gt_cases n (window st r)) as [Hle|Hgt].
  2:{ unfold readSize. rewrite Hv, Z.gtb_ltb, (proj2 (Z.ltb_lt _ _)) by lia. unfold sized, readUint.
      rewrite (proj2 (Z.eqb_neq n 0)) by lia. destruct (Z.eqb_spec n 1) as [Hn1|Hn1].
      - destruct (readByte_err _ _ _ Hs Hwf) as (e & s' & -> & He & _); [lia|]. eauto 6.
      - rewrite Z.gtb_ltb, (proj2 (Z.ltb_ge _ _)) by lia. unfold mbind, SM_bind.
        destruct (readFull_err _ _ _ _ Hs Hwf Hgt) as (e & s' & -> & He). eauto 6. }
  destruct (zlen_split (visible st r) n) as (l & l2 & Hl & Hln & _); [lia|].
  rewrite Hl in *. apply Forall_app in Hb as [Hb _]. subst n. rewrite readSize_spec by (done || lia).
  rewrite <- app_assoc in Hr. subst r.
  destruct (readUint_ok l (l2 ++ tl) st s) as (s' & Hu & Hrd); [done..|lia|].
  unfold sized. rewrite Hu.
  destruct (Z.ltb_spec 1 (zlen l)) as [H1|H1]; simpl.
  - destruct (Z.eqb_spec (nth 0 l 0) 0); [rewrite orb_true_r; eauto 6|]. rewrite orb_false_r.
    destruct (Z.ltb_spec (be_val l) 56); [eauto 6|]. exists l, (l2 ++ tl), s'. by split_and!.
  - destruct (zlen_1_inv l) as [x ->]; [lia|]. change (be_val [x]) with x. simpl nth.
    destruct (Z.ltb_spec x 56); [simpl; eauto 6|]. rewrite (proj2 (Z.eqb_neq x 0)) by lia. simpl.
    exists [x], (l2 ++ tl), s'. by split_and!.
Qed.
(** ** Headers *)

(** The header at the start of the visible bytes: kind, header size, content
    size. *)
Definition peek (w : list Z) : option (Kind * Z * Z) :=
  match w with
  | [] => None
  | x :: _ =>
      if x <? 0x80 then Some (Byte, 1, 0)
      else
        match (if x <? 0xC0 then read_head 0x80 0xB7 String x w
               else read_head 0xC0 0xF7 List x w) with
        | Ok (k, ts, cs) => if ts + cs <=? zlen w then Some (k, ts, cs) else None
        | _ => None
        end
  end.

(** [hd] is the header of a value of kind [k] with [n] bytes of content; a
    single byte is all header. *)
Definition is_head (k : Kind) (hd : list Z) (n : Z) : Prop :=
  match k with
  | Byte => n = 0 /\ exists x, hd = [x] /\ 0 <= x < 128
  | String => hd = head_spec 0x80 0xB7 n
  | List => hd = head_spec 0xC0 0xF7 n
  end.

Lemma is_head_zlen k hd n : is_u64 n -> is_head k hd n -> 1 <= zlen hd <= 9.
Proof.
  intros Hn Hh. pose proof (headsize_bound n Hn). destruct k; simpl in Hh.
  - destruct Hh as (_ & x & -> & _). by change (zlen [x]) with 1.
  - by rewrite Hh, zlen_head_spec.
  - by rewrite Hh, zlen_head_spec.
Qed.

Lemma peek_sound w k ts cs :
  bytes_ok w -> peek w = Some (k, ts, cs) ->
  is_u64 cs /\ exists hd c r, w = hd ++ c ++ r /\ zlen hd = ts /\ zlen c = cs /\ is_head k hd cs.
Proof.
  intros Hb. destruct w as [|x b]; [done|]. unfold peek.
  inversion Hb as [|? ? Hx Hb']; subst. unfold is_byte in Hx. destruct (Z.ltb_spec x 128).
  { intros [= <- <- <-]. split; [done|]. exists [x], [], b. naive_solver lia. }
  assert (Hbody : forall small large K, large = small + 55 -> small <= x <= large + 8 ->
    match read_head small large K x (x :: b) with
    | Ok (k, ts, cs) => if ts + cs <=? zlen (x :: b) then Some (k, ts, cs) else None
    | _ => None end = Some (k, ts, cs) ->
    k = K /\ is_u64 cs /\ exists hd c r, x :: b = hd ++ c ++ r /\ zlen hd = ts /\ zlen c = cs /\
      hd = head_spec small large cs).
  { intros small large K Hl Hr. destruct (read_head _ _ _ _ _) as [[[k' ts'] cs']| |] eqn:Hh; [|done..].
    destruct (Z.leb_spec (ts' + cs') (zlen (x :: b))) as [Hle|]; [|done]. intros [= -> -> ->].
    apply read_head_sound in Hh as (-> & Hu & tl & Heq & ->); [|done..].
    split; [done|]. split; [done|]. pose proof (zlen_head_spec small large cs Hu) as Hz.
    rewrite Heq, zlen_app, Hz in Hle. unfold is_u64 in Hu.
    destruct (zlen_split tl cs) as (c & r & -> & Hc & _); [lia|]. eauto 8. }
  destruct (Z.ltb_spec x 192); intros H'; apply Hbody in H' as (-> & Hu & hd & c & r & ? & ? & ? & ?);
    try lia; split; try done; eauto 8.
Qed.

Lemma peek_complete k hd c r :
  bytes_ok hd -> is_u64 (zlen c) -> is_head k hd (zlen c) ->
  peek (hd ++ c ++ r) = Some (k, zlen hd, zlen c).
Proof.
  intros Hb Hu Hh. pose proof (zlen_nonneg r).
  assert (Hbody : forall small large K, large = small + 55 -> hd = head_spec small large (zlen c) ->
    exists x tl, hd ++ c ++ r = x :: tl /\ small <= x <= large + 8 /\
    match read_head small large K x (x :: tl) with
    | Ok (k, ts, cs) => if ts + cs <=? zlen (x :: tl) then Some (k, ts, cs) else None
    | _ => None end = Some (K, zlen hd, zlen c)).
  { intros small large K Hl ->.
    destruct (read_head_complete small large K (zlen c) (c ++ r) Hu Hl) as (x & Hx & Hr & Hrd).
    exists x, (drop 1 (head_spec small large (zlen c)) ++ c ++ r). rewrite <- Hx. split; [done|].
    split; [done|]. rewrite Hrd, !zlen_app, zlen_head_spec by done.
    by rewrite (proj2 (Z.leb_le _ _)) by lia. }
  destruct k; simpl in Hh.
  - destruct Hh as (Hc & x & -> & Hx). rewrite Hc. simpl. by rewrite (proj2 (Z.ltb_lt x 128)) by lia.
  - destruct (Hbody 0x80 0xB7 String) as (x & tl & -> & Hx & Hm); [done..|]. unfold peek.
    by rewrite (proj2 (Z.ltb_ge x 128)), (proj2 (Z.ltb_lt x 192)) by lia.
  - destruct (Hbody 0xC0 0xF7 List) as (x & tl & -> & Hx & Hm); [done..|]. unfold peek.
    by rewrite !(proj2 (Z.ltb_ge x _)) by lia.
Qed.

(** What [readKind] finds behind the tag byte. *)
Lemma readKind_tail small large K x r st s :
  bytes_ok (x :: r) -> large = small + 55 -> small <= x <= large + 8 -> 0 <= small <= 0xC0 ->
  ready r st s -> wf_pos st r ->
  let res := (if x <? small + 56 then (Ok (K, u8 (x - small), None), s) else sized K (u8 (x - large)) s) in
  match read_head small large K x (x :: visible st r) with
  | Ok (_, ts, cs) => exists l r' s', r = l ++ r' /\ ts = 1 + zlen l /\ zlen l <= window st r /\
      res = (Ok (K, cs, None), s') /\ ready r' (advance st (zlen l)) s'
  | _ => exists sz e s', res = (Ok (K, sz, Some e), s') /\ e <> EOL
  end.
Proof.
  intros Hb Hl Hx Hsm Hs Hwf res. subst res. inversion Hb as [|? ? Hxb _]; subst.
  unfold is_byte in Hxb. unfold read_head. destruct (Z.ltb_spec x (small + 56)).
  - exists [], r, s. rewrite u8_small by (unfold is_byte; lia). destruct Hwf as (? & ? & ? & ?).
    split_and!; try done; [rewrite zlen_nil; lia|]. destruct st as [|[p z] st]; [done|].
    unfold advance. simpl. by rewrite zlen_nil, Z.add_0_r.
  - pose proof (slice_from_app (E:=rlp_error) [x] (visible st r)) as Hsl.
    change (zlen [x]) with 1 in Hsl. simpl app in Hsl. rewrite Hsl. bind_simpl.
    rewrite u8_small by (unfold is_byte; lia).
    pose proof (sized_spec K (x - (small + 55)) r st s Hs Hwf ltac:(lia)) as Hsz.
    destruct (readSize _ _); bind_simpl; try done.
    destruct Hsz as (l & r' & s' & Hr & Hn & Hw & Hres & Hrd). exists l, r', s'.
    rewrite Hn in *. split_and!; try done. lia.
Qed.
(** Whether the innermost list has been read to its end. *)
Definition list_done (st : list listpos) (r : list Z) : Prop := st <> [] /\ window st r = 0.

Lemma at_eol_spec r st s :
  ready r st s -> at_eol s = true <-> list_done st r.
Proof.
  intros (_ & _ & _ & _ & Hst). unfold at_eol, list_done. rewrite Hst.
  destruct st as [|[p z] st]; simpl; [naive_solver|]. rewrite Z.eqb_eq. naive_solver lia.
Qed.

Lemma kind_result_err s e : s_kinderr s = Some e -> kind_result s = (Err e, s).
Proof. unfold kind_result. by intros ->. Qed.

(** The size check of [Kind] passes if and only if the content is visible. *)
Lemma size_error_spec r st s n :
  ready r st s -> wf_pos st r ->
  (n <= window st r -> size_error s n = None) /\
  (window st r < n -> exists e, size_error s n = Some e /\ e <> EOL).
Proof.
  intros (_ & Hrem & Hlim & _ & Hst) (Hz & _ & Hw & Hpos). unfold size_error. rewrite Hst.
  destruct st as [|[p z] st]; simpl in *.
  - rewrite Hlim, Hrem. simpl. destruct (Z.gtb_spec n (zlen r)); split; naive_solver lia.
  - rewrite u64_small by lia. destruct (Z.gtb_spec n (z - p)); split; naive_solver lia.
Qed.

Lemma stream_Kind_unfold s :
  s_kind s = None -> at_eol s = false ->
  stream_Kind s =
  match stream_readKind (set_kinderr s None) with
  | (Ok (k, size, err), s) =>
      kind_result (set_kinderr (set_size (set_kind s (Some k)) size)
        match err with None => size_error s size | e => e end)
  | (Err e, s) => (Err e, s)
  | (Panic, s) => (Panic, s)
  end.
Proof. intros Hk He. unfold stream_Kind. rewrite Hk. unfold at_eol in *. simpl. by rewrite He. Qed.

Lemma Kind_eol r st s :
  ready r st s -> list_done st r -> exists s', stream_Kind s = (Err EOL, s') /\ ready r st s'.
Proof.
  intros Hs Hd. pose proof (proj2 (at_eol_spec _ _ _ Hs) Hd) as He. destruct Hs as (? & ? & ? & Hk & ?).
  unfold stream_Kind. rewrite Hk. unfold at_eol in *. simpl. rewrite He. eexists. split; [done|].
  by unfold ready.
Qed.

Lemma Kind_empty r st s :
  ready r st s -> wf_pos st r -> ~ list_done st r -> window st r = 0 ->
  exists e s', stream_Kind s = (Err e, s') /\ e <> EOL.
Proof.
  intros Hs Hwf Hd Hw. destruct (at_eol s) eqn:He.
  { by apply (at_eol_spec _ _ _ Hs) in He. }
  destruct Hs as (Hr & Hrem & Hlim & Hk & Hst). rewrite stream_Kind_unfold by done.
  assert (Hs' : ready r st (set_kinderr s None)) by (by unfold ready).
  destruct (readByte_err _ _ _ Hs' Hwf) as (e & s' & Hb & Hne & Hst'); [lia|].
  unfold stream_readKind. rewrite Hb, kind_result_err with (e := match s_stack s' with
    | [] => match e with ErrUnexpectedEOF | ErrValueTooLarge => EOF | e => e end | _ => e end) by done.
  do 2 eexists. split; [done|]. destruct (s_stack s'); [|done]. by destruct e.
Qed.

(** The tag byte is read, the header follows. *)
Lemma readKind_cons x r st s :
  ready (x :: r) st s -> wf_pos st (x :: r) -> 1 <= window st (x :: r) ->
  exists s', ready r (advance st 1) s' /\
    stream_readKind s =
      if x <? 0x80 then (Ok (Byte, 0, None), set_byteval s' x)
      else if x <? 0xC0 then
        if x <? 0x80 + 56 then (Ok (String, u8 (x - 0x80), None), s') else sized String (u8 (x - 0xB7)) s'
      else if x <? 0xC0 + 56 then (Ok (List, u8 (x - 0xC0), None), s') else sized List (u8 (x - 0xF7)) s'.
Proof.
  intros Hs Hwf Hw. destruct (readByte_ok _ _ _ _ Hs Hwf Hw) as (s' & Hb & Hrd).
  exists (set_byteval s' 0). split; [by unfold ready in *|]. unfold stream_readKind. rewrite Hb.
  change (0x80 + 56) with 0xB8. change (0xC0 + 56) with 0xF8.
  destruct (Z.ltb_spec x 128); [done|]. destruct (Z.ltb_spec x 184), (Z.ltb_spec x 192); try done; lia.
Qed.

Definition kind_spec (k : Kind) (ts cs : Z) (r : list Z) (st : list listpos) (s : Stream) : Prop :=
  exists hd r' s', r = hd ++ r' /\ zlen hd = ts /\ is_head k hd cs /\ 0 <= cs /\
    ts + cs <= window st r /\
    stream_Kind s = (Ok (k, cs), s') /\ peeked k cs (nth 0 hd 0) r' (advance st ts) s'.

Lemma Kind_finish_err K sz e s s' :
  s_kind s = None -> at_eol s = false ->
  stream_readKind (set_kinderr s None) = (Ok (K, sz, Some e), s') -> e <> EOL ->
  exists e' s'', stream_Kind s = (Err e', s'') /\ e' <> EOL.
Proof.
  intros Hk He Hrd Hne. rewrite stream_Kind_unfold, Hrd by done.
  rewrite kind_result_err with (e := e) by done. eauto.
Qed.

Lemma Kind_finish_ok K cs s s' r st :
  s_kind s = None -> at_eol s = false ->
  stream_readKind (set_kinderr s None) = (Ok (K, cs, None), s') ->
  ready r st s' -> wf_pos st r ->
  (cs <= window st r -> exists s'', stream_Kind s = (Ok (K, cs), s'') /\
     peeked K cs (s_byteval s') r st s'') /\
  (window st r < cs -> exists e s'', stream_Kind s = (Err e, s'') /\ e <> EOL).
Proof.
  intros Hk He Hrd Hs Hwf. rewrite stream_Kind_unfold, Hrd by done.
  destruct (size_error_spec r st s' cs Hs Hwf) as [Hok Herr]. split; intros Hcs.
  - rewrite (Hok Hcs). unfold kind_result. simpl. eexists. split; [done|].
    destruct Hs as (? & ? & ? & ? & ?). by unfold peeked.
  - destruct (Herr Hcs) as (e & -> & Hne). rewrite kind_result_err with (e := e) by done. eauto.
Qed.

Lemma Kind_body small large K x r st s s1 :
  s_kind s = None -> at_eol s = false ->
  bytes_ok (x :: r) -> large = small + 55 -> small <= x <= large + 8 -> 0 <= small <= 0xC0 ->
  K <> Byte -> (forall n, is_head K (head_spec small large n) n) ->
  ready r (advance st 1) s1 -> wf_pos st (x :: r) -> 1 <= window st (x :: r) ->
  stream_readKind (set_kinderr s None) =
    (if x <? small + 56 then (Ok (K, u8 (x - small), None), s1) else sized K (u8 (x - large)) s1) ->
  match match read_head small large K x (x :: visible (advance st 1) r) with
        | Ok (k, ts, cs) =>
            if ts + cs <=? zlen (x :: visible (advance st 1) r) then Some (k, ts, cs) else None
        | _ => None end with
  | Some (k, ts, cs) => kind_spec k ts cs (x :: r) st s
  | None => exists e s', stream_Kind s = (Err e, s') /\ e <> EOL
  end.
Proof.
  intros Hk He Hb Hl Hxr Hsm HK Hhd Hs1 Hwf Hw Hrk.
  destruct (wf_pos_advance st [x] r Hwf Hw) as [Hwf1 Hw1]. change (zlen [x]) with 1 in *.
  simpl app in Hw1.
  pose proof (readKind_tail small large K x r _ _ Hb Hl Hxr Hsm Hs1 Hwf1) as Ht. simpl in Ht.
  rewrite <- Hrk in Ht.
  destruct (visible_split _ _ Hwf1) as (tl & Hr & Hvz & Hvb).
  destruct (read_head _ _ _ _ _) as [[[k ts] cs]|e|] eqn:Hh.
  2, 3: destruct Ht as (sz & e' & s' & Hres & Hne); by eapply Kind_finish_err.
  destruct Ht as (l & r' & s2 & Hr' & -> & Hlw & Hres & Hs2).
  apply read_head_sound in Hh as (-> & Hu & tl' & Heq & Hts);
    [|constructor; [by inversion Hb|done]|done|done].
  rewrite Hr' in Hwf1. destruct (wf_pos_advance _ _ _ Hwf1) as [Hwf2 Hw2]; [by rewrite <- Hr'|].
  destruct (Kind_finish_ok _ _ _ _ _ _ Hk He Hres Hs2 Hwf2) as [Hok Herr].
  rewrite <- Hr', Hw1 in Hw2. rewrite Hw2 in *. rewrite zlen_cons, Hvz, Hw1.
  destruct (Z.leb_spec (1 + zlen l + cs) (1 + (window st (x :: r) - 1))) as [Hle|Hgt];
    [|apply Herr; lia].
  destruct (Hok ltac:(lia)) as (s3 & HK3 & Hp).
  assert (Hhead : x :: l = head_spec small large cs).
  { pose proof (zlen_head_spec small large cs Hu) as Hz.
    assert (Hp1 : (x :: l) ++ r' = head_spec small large cs ++ (tl' ++ tl)).
    { rewrite app_assoc, <- Heq. simpl. by rewrite <- Hr', <- Hr. }
    apply app_inj_1 in Hp1 as [-> _]; [done|]. unfold zlen in *. simpl. lia. }
  exists (x :: l), r', s3. rewrite zlen_cons. split_and!; try done.
  - by rewrite Hr'.
  - by rewrite Hhead.
  - apply Hu.
  - lia.
  - destruct Hp as (? & ? & ? & Hst & ? & ? & ? & ?). unfold peeked. split_and!; try done.
    rewrite Hst. destruct st as [|[p z] st]; [done|]. simpl. do 2 f_equal. lia.
Qed.

Lemma Kind_cons x r st s :
  ready (x :: r) st s -> wf_pos st (x :: r) -> 1 <= window st (x :: r) ->
  match peek (visible st (x :: r)) with
  | Some (k, ts, cs) => kind_spec k ts cs (x :: r) st s
  | None => exists e s', stream_Kind s = (Err e, s') /\ e <> EOL
  end.
Proof.
  intros Hs Hwf Hw. assert (Hb : bytes_ok (x :: r)) by apply Hwf.
  destruct (at_eol s) eqn:He; [apply (at_eol_spec _ _ _ Hs) in He as [? ?]; lia|].
  assert (Hk : s_kind s = None) by apply Hs.
  assert (Hs' : ready (x :: r) st (set_kinderr s None)) by (unfold ready in *; naive_solver).
  destruct (readKind_cons _ _ _ _ Hs' Hwf Hw) as (s1 & Hs1 & Hrk).
  destruct (wf_pos_advance st [x] r Hwf Hw) as [Hwf1 Hw1].
  pose proof (visible_app st [x] r Hwf Hw) as Hv. change (zlen [x]) with 1 in *. simpl app in *.
  rewrite Hv. unfold peek. inversion Hb as [|? ? Hx _]; subst. unfold is_byte in Hx.
  destruct (Z.ltb_spec x 128).
  { assert (Hs2 : ready r (advance st 1) (set_byteval s1 x)) by (unfold ready in *; naive_solver).
    destruct (Kind_finish_ok _ _ _ _ _ _ Hk He Hrk Hs2 Hwf1) as [Hok _].
    destruct Hok as (s2 & Hs3 & Hp); [lia|]. exists [x], r, s2. simpl. split_and!; try (done || lia).
    exists x. split; [done|lia]. }
  assert (Hbody : forall small large K, large = small + 55 -> small <= x <= large + 8 ->
    0 <= small <= 0xC0 -> K <> Byte -> (forall n, is_head K (head_spec small large n) n) ->
    stream_readKind (set_kinderr s None) =
      (if x <? small + 56 then (Ok (K, u8 (x - small), None), s1) else sized K (u8 (x - large)) s1) ->
    match match read_head small large K x (x :: visible (advance st 1) r) with
          | Ok (k, ts, cs) =>
              if ts + cs <=? zlen (x :: visible (advance st 1) r) then Some (k, ts, cs) else None
          | _ => None end with
    | Some (k, ts, cs) => kind_spec k ts cs (x :: r) st s
    | None => exists e s', stream_Kind s = (Err e, s') /\ e <> EOL
    end).
  { clear Hrk. intros small large K Hl Hxr Hsm HK Hhd Hrk.
    apply (Kind_body small large K x r st s s1); done. }
  destruct (Z.ltb_spec x 192); [apply (Hbody 0x80 0xB7 String)|apply (Hbody 0xC0 0xF7 List)];
    done || lia.
Qed.
Lemma Kind_spec r st s :
  ready r st s -> wf_pos st r -> ~ list_done st r ->
  match peek (visible st r) with
  | Some (k, ts, cs) => kind_spec k ts cs r st s
  | None => exists e s', stream_Kind s = (Err e, s') /\ e <> EOL
  end.
Proof.
  intros Hs Hwf Hd. assert (0 <= window st r <= zlen r) by apply Hwf.
  destruct (Z.eq_dec (window st r) 0) as [Hw|].
  - unfold visible. rewrite Hw. simpl. by eapply Kind_empty.
  - destruct r as [|x r]; [change (zlen (@nil Z)) with 0 in *; lia|]. apply Kind_cons; try done. lia.
Qed.

(** Asking for the kind again does not move the stream. *)
Lemma Kind_again s kn s' : stream_Kind s = (Ok kn, s') -> stream_Kind s' = (Ok kn, s').
Proof.
  assert (Hres : forall s kn s', kind_result s = (Ok kn, s') -> stream_Kind s' = (Ok kn, s')).
  { intros t kn' t'. unfold kind_result, stream_Kind.
    destruct (s_kinderr t) eqn:He; [done|]. destruct (s_kind t) as [k|] eqn:Hk; [|done].
    intros [= <- <-]. rewrite Hk. unfold kind_result. by rewrite He, Hk. }
  unfold stream_Kind at 1. destruct (s_kind s); [by apply Hres|].
  destruct (at_eol _); [done|]. destruct (stream_readKind _) as [[[[k sz] e]| |] t]; [|done..].
  by apply Hres.
Qed.

Lemma peeked_Kind k n bv r st s :
  peeked k n bv r st s -> stream_Kind s = (Ok (k, n), s).
Proof.
  intros (_ & _ & _ & _ & Hk & Hn & He & _). unfold stream_Kind, kind_result. by rewrite Hk, He, Hn.
Qed.

(** ** Contracts of decoders *)

(** [d] starts by asking for the kind. *)
Definition kind_first (d : fueled item) : Prop :=
  forall s,
  match stream_Kind s with
  | (Ok _, s') => d s' = d s
  | (Err e, s') => exists e', d s = Some (Err e', s') /\ (e' = EOL <-> e = EOL)
  | (Panic, s') => d s = Some (Panic, s')
  end.

(** Behind a header: [d] returns [v] exactly when header and content are the
    encoding of [v], and leaves the stream behind the content. *)
Definition body_ok (N : nat) (V : item -> Prop) (d : fueled item) : Prop :=
  forall k hd c r st s,
    is_head k hd (zlen c) -> bytes_ok hd -> peeked k (zlen c) (nth 0 hd 0) (c ++ r) st s ->
    wf_pos st (c ++ r) -> zlen c <= window st (c ++ r) -> (length c < N)%nat ->
    exists o s', d s = Some (o, s') /\
      match o with
      | Ok v => ready r (advance st (zlen c)) s'
      | Err e => e <> EOL
      | Panic => False
      end /\
      forall v, o = Ok v <-> V v /\ rlp_spec v = hd ++ c.

(** The encodings of the values are headers with contents. *)
Definition framed (b : list Z) : Prop :=
  exists k hd c, b = hd ++ c /\ is_head k hd (zlen c) /\ bytes_ok hd.

Record decodes (N : nat) (V : item -> Prop) (d : fueled item) : Prop := {
  decodes_kind : kind_first d;
  decodes_body : body_ok N V d;
  decodes_framed : forall v, V v -> zlen (rlp_spec v) < 2 ^ 47 -> framed (rlp_spec v)
}.

Lemma head_inj k hd c k' hd' c' r r' :
  is_head k hd (zlen c) -> bytes_ok hd -> is_u64 (zlen c) ->
  is_head k' hd' (zlen c') -> bytes_ok hd' -> is_u64 (zlen c') ->
  hd ++ c ++ r = hd' ++ c' ++ r' -> k = k' /\ hd = hd' /\ c = c' /\ r = r'.
Proof.
  intros Hh Hb Hu Hh' Hb' Hu' Heq.
  pose proof (peek_complete k hd c r Hb Hu Hh) as Hp.
  rewrite Heq, (peek_complete k' hd' c' r' Hb' Hu' Hh') in Hp. injection Hp as <- Hz Hz'.
  apply app_inj_1 in Heq as [-> Heq]; [|unfold zlen in *; lia].
  by apply app_inj_1 in Heq as [-> ->]; [|unfold zlen in *; lia].
Qed.

Lemma advance_advance st n m : advance (advance st n) m = advance st (n + m).
Proof. destruct st as [|[p z] st]; [done|]. simpl. do 2 f_equal. lia. Qed.

Lemma framed_pos b : is_u64 (zlen b) -> framed b -> 1 <= zlen b.
Proof.
  intros Hu (k & hd & c & -> & Hh & _). rewrite zlen_app in *. unfold is_u64 in *.
  pose proof (zlen_nonneg c). pose proof (zlen_nonneg hd).
  destruct (is_head_zlen k hd (zlen c)); [unfold is_u64; lia|done|lia].
Qed.

Lemma decodes_eol N V d r st s :
  decodes N V d -> ready r st s -> list_done st r ->
  exists s', d s = Some (Err EOL, s') /\ ready r st s'.
Proof.
  intros Hd Hs Hl. destruct (Kind_eol _ _ _ Hs Hl) as (s' & Hk & Hs').
  pose proof (decodes_kind _ _ _ Hd s) as Hf. rewrite Hk in Hf.
  destruct Hf as (e' & Hd' & He'). exists s'. rewrite Hd'. naive_solver.
Qed.

(** The contract of a decoder on a stream between two values. *)
Lemma decodes_ready N V d r st s :
  decodes N V d -> ready r st s -> wf_pos st r -> ~ list_done st r -> window st r <= Z.of_nat N ->
  exists o s', d s = Some (o, s') /\
    match o with
    | Ok v => exists l, r = rlp_spec v ++ l /\ V v /\ 1 <= zlen (rlp_spec v) <= window st r /\
        ready l (advance st (zlen (rlp_spec v))) s'
    | Err e => e <> EOL
    | Panic => False
    end /\
    (forall v l, V v -> r = rlp_spec v ++ l -> zlen (rlp_spec v) <= window st r -> o = Ok v).
Proof.
  intros [Hkf Hb Hfr] Hs Hwf Hl HN. specialize (Hkf s).
  pose proof (Kind_spec _ _ _ Hs Hwf Hl) as Hk.
  destruct (visible_split _ _ Hwf) as (tl & Hr & Hvz & Hvb).
  assert (Hz : 0 <= zlen r < 2 ^ 47) by (destruct Hwf; pose proof (zlen_nonneg r); lia).
  assert (Hvis : forall v l, V v -> r = rlp_spec v ++ l -> zlen (rlp_spec v) <= window st r ->
    exists k hd c, rlp_spec v = hd ++ c /\ is_head k hd (zlen c) /\ bytes_ok hd /\
      peek (visible st r) = Some (k, zlen hd, zlen c)).
  { intros v l Hv -> Hw. destruct (Hfr v Hv) as (k & hd & c & He & Hh & Hbh);
      [rewrite zlen_app in Hz; pose proof (zlen_nonneg l); lia|].
    exists k, hd, c. split_and!; try done. rewrite visible_app, He, <- app_assoc by done.
    apply peek_complete; [done| |done]. rewrite He, !zlen_app in Hz.
    pose proof (zlen_nonneg l); pose proof (zlen_nonneg hd); pose proof (zlen_nonneg c).
    unfold is_u64. lia. }
  destruct (peek (visible st r)) as [[[k ts] cs]|] eqn:Hpk.
  2:{ destruct Hk as (e & s' & Hk & He). rewrite Hk in Hkf. destruct Hkf as (e' & Hd & He').
      exists (Err e'), s'. split_and!; [done|tauto|]. intros v l Hv Hrv Hw.
      by destruct (Hvis v l Hv Hrv Hw) as (? & ? & ? & _ & _ & _ & [=]). }
  destruct Hk as (hd & r' & s1 & Hrr & <- & Hh & Hcs & Hw & Hk & Hp). rewrite Hk in Hkf.
  rewrite <- Hkf. rewrite Hrr in Hwf. destruct (wf_pos_advance st hd r') as [Hwf1 Hw1]; [done|rewrite <- Hrr; lia|].
  assert (Hc : 0 <= cs <= zlen r').
  { destruct Hwf1 as (_ & _ & Hw2 & _). rewrite <- Hrr in Hw1. lia. }
  destruct (zlen_split r' cs Hc) as (c & l & -> & <- & _).
  assert (Hbh : bytes_ok hd) by (destruct Hwf as (_ & Hb' & _); by apply Forall_app in Hb' as [? _]).
  destruct (is_head_zlen k hd (zlen c)) as [Hhd _]; [|done|].
  { rewrite Hrr, !zlen_app in Hz. unfold is_u64. pose proof (zlen_nonneg hd); pose proof (zlen_nonneg l). lia. }
  destruct (Hb k hd c l (advance st (zlen hd)) s1) as (o & s' & Hd & Ho & Hiff); try done.
  { rewrite Hw1. rewrite <- Hrr. lia. }
  { unfold zlen in *. lia. }
  exists o, s'. split; [done|]. split.
  - destruct o as [v| |]; [|done..]. destruct (proj1 (Hiff v) eq_refl) as [Hv He].
    exists l. rewrite He, Hrr, <- app_assoc, zlen_app. split_and!; try done.
    + pose proof (zlen_nonneg c). lia.
    + by rewrite <- Hrr.
    + by rewrite <- advance_advance.
  - intros v l' Hv Hrv Hwv. apply Hiff. split; [done|].
    destruct (Hvis v l' Hv Hrv Hwv) as (k' & hd' & c' & He & Hh' & Hb' & [= <- Hz1 Hz2]).
    rewrite He in *. rewrite Hrr, <- app_assoc in Hrv.
    apply app_inj_1 in Hrv as [-> Hrv]; [|unfold zlen in *; lia].
    by apply app_inj_1 in Hrv as [-> _]; [|unfold zlen in *; lia].
Qed.
(** ** Strings *)

(** The string whose encoding is the header and the content. *)
Definition content (k : Kind) (bv : Z) (c : list Z) : option (list Z) :=
  match k with
  | Byte => Some [bv]
  | String => if decide (string_kind c = String) then Some c else None
  | List => None
  end.

Lemma string_head b :
  bytes_ok b -> is_u64 (zlen b) ->
  exists k hd c, string_spec b = hd ++ c /\ is_head k hd (zlen c) /\ bytes_ok hd /\ zlen c <= zlen b /\
    content k (nth 0 hd 0) c = Some b.
Proof.
  intros Hb Hu. destruct (decide (string_kind b = String)) as [Hk|Hk].
  - exists String, (head_spec 0x80 0xB7 (zlen b)), b. rewrite string_spec_header by done.
    split_and!; try done; [by apply head_spec_ok|]. unfold content. by rewrite decide_True.
  - exists Byte, b, []. rewrite app_nil_r. destruct b as [|x [|y b]]; simpl in Hk |- *; try done.
    destruct (Z.ltb_spec x 128); [|done]. inversion Hb as [|? ? Hx _]; subst. unfold is_byte in Hx.
    split_and!; try done. exists x. split; [done|lia].
Qed.

Lemma content_iff k hd c b :
  is_head k hd (zlen c) -> bytes_ok (hd ++ c) -> zlen c < 2 ^ 47 ->
  content k (nth 0 hd 0) c = Some b <-> bytes_ok b /\ string_spec b = hd ++ c.
Proof.
  intros Hh Hb Hz. apply Forall_app in Hb as [Hbh Hbc]. pose proof (zlen_nonneg c).
  assert (Hu : is_u64 (zlen c)) by (unfold is_u64; lia). split.
  - unfold content. destruct k; simpl in Hh; [|case_decide as Hk|done]; intros [= <-].
    + destruct Hh as (Hc & x & -> & Hx). simpl. apply zlen_0_inv in Hc as ->.
      by rewrite (proj2 (Z.ltb_lt x 128)) by lia.
    + by rewrite string_spec_header, Hh by done.
  - intros [Hbb He].
    assert (Hub : is_u64 (zlen b)).
    { pose proof (zlen_string_spec b) as Hzs. rewrite He, zlen_app in Hzs.
      pose proof (zlen_nonneg b). destruct (is_head_zlen k hd _ Hu Hh). unfold is_u64. lia. }
    destruct (string_head b Hbb Hub) as (k' & hd' & c' & He' & Hh' & Hb' & Hz' & Hct).
    destruct (head_inj k hd c k' hd' c' [] []) as (-> & -> & -> & _); try done.
    + unfold is_u64 in *. pose proof (zlen_nonneg c'). lia.
    + by rewrite !app_nil_r, <- He, <- He'.
Qed.

Lemma wrap_EOL e : wrapStreamError e = EOL <-> e = EOL.
Proof. by destruct e. Qed.

Lemma SM_bind_eq {A B} (m : SM A) (f : A -> SM B) s :
  (m ≫= f) s =
  match m s with
  | (Ok a, s) => f a s
  | (Err e, s) => (Err e, s)
  | (Panic, s) => (Panic, s)
  end.
Proof. done. Qed.

(** [m] reads a string and returns what [g] makes of it. *)
Definition reads_string {A} (g : list Z -> option A) (m : SM A) : Prop :=
  forall k hd c r st s,
    is_head k hd (zlen c) -> peeked k (zlen c) (nth 0 hd 0) (c ++ r) st s ->
    wf_pos st (c ++ r) -> zlen c <= window st (c ++ r) -> bytes_ok hd ->
    match content k (nth 0 hd 0) c ≫= g with
    | Some a => exists s', m s = (Ok a, s') /\ ready r (advance st (zlen c)) s'
    | None => exists e s', m s = (Err e, s') /\ e <> EOL
    end.

Definition kind_first_SM {A} (m : SM A) : Prop :=
  forall s,
  match stream_Kind s with
  | (Ok _, s') => m s' = m s
  | (Err e, s') => exists e', m s = (Err e', s') /\ (e' = EOL <-> e = EOL)
  | (Panic, s') => m s = (Panic, s')
  end.

Lemma kind_first_bind {A} (f : Kind * Z -> SM A) : kind_first_SM (stream_Kind ≫= f).
Proof.
  intros s. unfold mbind, SM_bind. destruct (stream_Kind s) as [[kn|e|] s'] eqn:Hk; [|by eauto..].
  by rewrite (Kind_again _ _ _ Hk).
Qed.

Lemma kind_first_then {A B} (m : SM A) (f : A -> SM B) :
  kind_first_SM m -> kind_first_SM (m ≫= f).
Proof.
  intros Hm s. specialize (Hm s). unfold mbind, SM_bind.
  destruct (stream_Kind s) as [[kn|e|] s']; [by rewrite Hm| |by rewrite Hm].
  destruct Hm as (e' & -> & He). eauto.
Qed.

Lemma kind_first_wrapped {A} (m : SM A) : kind_first_SM m -> kind_first_SM (wrapped m).
Proof.
  intros Hm s. specialize (Hm s). unfold wrapped.
  destruct (stream_Kind s) as [[kn|e|] s']; [by rewrite Hm| |by rewrite Hm].
  destruct Hm as (e' & -> & He). eexists. split; [done|]. by rewrite wrap_EOL.
Qed.

Lemma kind_first_lift m : kind_first_SM m -> kind_first (lift m).
Proof.
  intros Hm s. specialize (Hm s). unfold lift.
  destruct (stream_Kind s) as [[kn|e|] s']; [by rewrite Hm| |by rewrite Hm].
  destruct Hm as (e' & -> & He). eauto.
Qed.

Lemma reads_string_wrapped {A} (g : list Z -> option A) m :
  reads_string g m -> reads_string g (wrapped m).
Proof.
  intros Hm k hd c r st s Hh Hp Hwf Hw Hb. specialize (Hm k hd c r st s Hh Hp Hwf Hw Hb).
  unfold wrapped. destruct (_ ≫= g).
  - destruct Hm as (s' & -> & Hs). eauto.
  - destruct Hm as (e & s' & -> & He). do 2 eexists. split; [done|]. by rewrite wrap_EOL.
Qed.

Lemma reads_string_bind {A B} (g : list Z -> option A) (m : SM A) (h : A -> rlp B) (f : A -> SM B) :
  (forall a s, f a s = (h a, s)) -> (forall a, h a <> Panic /\ h a <> Err EOL) ->
  reads_string g m ->
  reads_string (fun b => g b ≫= fun a => match h a with Ok v => Some v | _ => None end) (m ≫= f).
Proof.
  intros Hf Hh' Hm k hd c r st s Hh Hp Hwf Hw Hb. specialize (Hm k hd c r st s Hh Hp Hwf Hw Hb).
  rewrite SM_bind_eq. destruct (content k (nth 0 hd 0) c) as [b|]; simpl in *.
  - destruct (g b) as [a|]; simpl in *.
    + destruct Hm as (s' & -> & Hs). rewrite Hf. specialize (Hh' a).
      destruct (h a) as [v|e|]; [by eauto| |naive_solver]. exists e, s'. naive_solver.
    + destruct Hm as (e & s' & -> & He). eauto.
  - destruct Hm as (e & s' & -> & He). eauto.
Qed.

Lemma string_decodes N (g : list Z -> option item) (V : item -> Prop) (m : SM item) :
  kind_first_SM m -> reads_string g m ->
  (forall b v, bytes_ok b -> zlen b < 2 ^ 48 -> g b = Some v <-> V v /\ rlp_spec v = string_spec b) ->
  (forall v, V v -> exists b, bytes_ok b /\ rlp_spec v = string_spec b) ->
  decodes N V (lift m).
Proof.
  intros Hk Hm Hg HV. split.
  - by apply kind_first_lift.
  - intros k hd c r st s Hh Hb Hp Hwf Hw _. specialize (Hm k hd c r st s Hh Hp Hwf Hw Hb).
    assert (Hbc : bytes_ok (hd ++ c)).
    { apply Forall_app. split; [done|]. destruct Hwf as (_ & Hbc & _). by apply Forall_app in Hbc as [? _]. }
    assert (Hz : zlen c < 2 ^ 47).
    { destruct Hwf as (Hz & _). rewrite zlen_app in Hz. pose proof (zlen_nonneg r). lia. }
    unfold lift. destruct (content k (nth 0 hd 0) c) as [b|] eqn:Hc; simpl in Hm.
    + apply content_iff in Hc as [Hbb He]; [|done..].
      assert (Hub : zlen b < 2 ^ 48).
      { pose proof (zlen_string_spec b) as Hzb. rewrite He, zlen_app in Hzb.
        pose proof (zlen_nonneg b); pose proof (zlen_nonneg c).
        destruct (is_head_zlen k hd (zlen c)); [unfold is_u64; lia|done|]. lia. }
      destruct (g b) as [v|] eqn:Hgb.
      * destruct Hm as (s' & -> & Hs). exists (Ok v), s'. split_and!; try done. intros v'.
        rewrite <- He, <- Hg, Hgb by done. naive_solver.
      * destruct Hm as (e & s' & -> & Hne). exists (Err e), s'. split_and!; try done. intros v'.
        rewrite <- He, <- Hg, Hgb by done. naive_solver.
    + destruct Hm as (e & s' & -> & Hne). exists (Err e), s'. split_and!; try done. intros v'.
      split; [done|]. intros [Hv Hr]. destruct (HV v' Hv) as (b & Hbb & Hrb).
      assert (content k (nth 0 hd 0) c = Some b); [|congruence].
      apply content_iff; [done..|]. split; [done|]. congruence.
  - intros v Hv Hz. destruct (HV v Hv) as (b & Hb & He). rewrite He in *.
    pose proof (zlen_string_spec b). pose proof (zlen_nonneg b).
    destruct (string_head b Hb) as (k & hd & c & ? & ? & ? & _); [unfold is_u64; lia|].
    by exists k, hd, c.
Qed.

(** Reading rearms [Kind]. *)
Lemma peeked_ready k n bv r st s : peeked k n bv r st s -> ready r st (set_kind s None).
Proof. intros (? & ? & ? & ? & _). by unfold ready. Qed.

Lemma readFull_rearm n s : readFull n s = readFull n (set_kind s None).
Proof. done. Qed.
Lemma readByte_rearm s : readByte s = readByte (set_kind s None).
Proof. done. Qed.

Lemma make_bytes_ok n s :
  0 <= n <= maxAlloc -> make_bytes n s = (Ok (replicate (Z.to_nat n) 0), s).
Proof. intros Hn. unfold make_bytes. by rewrite Z.gtb_ltb, (proj2 (Z.ltb_ge _ _)) by lia. Qed.

Lemma make_bytes_zlen n : 0 <= n -> zlen (replicate (Z.to_nat n) 0) = n.
Proof. intros Hn. rewrite zlen_replicate. lia. Qed.

Lemma wf_pos_zlen st c r : wf_pos st (c ++ r) -> 0 <= zlen c < 2 ^ 47.
Proof.
  intros (Hz & _). rewrite zlen_app in Hz. pose proof (zlen_nonneg r); pose proof (zlen_nonneg c). lia.
Qed.

(** [Bytes] *)
Lemma single_small c : (zlen c =? 1) && (nth 0 c 0 <? 128) = negb (bool_decide (string_kind c = String)).
Proof.
  destruct c as [|x [|y c]]; [done| |].
  - simpl. by destruct (x <? 128).
  - rewrite !zlen_cons. pose proof (zlen_nonneg c). by rewrite (proj2 (Z.eqb_neq _ 1)) by lia.
Qed.

Lemma Bytes_reads : reads_string Some Bytes.
Proof.
  intros k hd c r st s Hh Hp Hwf Hw Hb. unfold Bytes. rewrite SM_bind_eq.
  rewrite (peeked_Kind _ _ _ _ _ _ Hp). pose proof (peeked_ready _ _ _ _ _ _ Hp) as Hs.
  pose proof (wf_pos_zlen _ _ _ Hwf). destruct k; simpl in Hh.
  - destruct Hh as (Hc & _). rewrite Hc, advance_0. apply zlen_0_inv in Hc as ->.
    exists (set_kind s None). split; [|done]. destruct Hp as (_ & _ & _ & _ & _ & _ & _ & Hbv).
    rewrite <- Hbv; done.
  - rewrite SM_bind_eq, make_bytes_ok by (unfold maxAlloc; lia).
    rewrite SM_bind_eq, make_bytes_zlen, readFull_rearm by lia.
    destruct (readFull_ok _ _ _ _ Hs Hwf Hw) as (s' & -> & Hs'). rewrite single_small.
    simpl. case_decide; [rewrite bool_decide_true by done|rewrite bool_decide_false by done]; simpl;
      [by eauto|]. unfold fails. eauto.
  - simpl. unfold fails. eauto.
Qed.

(** ** Decoders of string types *)

Lemma int_spec_be_val l :
  bytes_ok l -> (forall l', l <> 0 :: l') -> 0 <= be_val l /\ int_spec (be_val l) = l.
Proof.
  intros Hl H0. destruct l as [|x l]; [done|].
  assert (Hx : x <> 0) by (intros ->; by eapply H0).
  pose proof (be_val_bound _ Hl) as Hb. pose proof (be_val_lower _ _ Hl Hx) as Hlo.
  pose proof (zlen_nonneg l) as Hz. pose proof (Z.pow_pos_nonneg 256 (zlen l) ltac:(lia) Hz).
  split; [lia|]. destruct (bit_len_bounds (be_val (x :: l))) as [Hn Hbd]; [lia|].
  unfold int_spec. rewrite (pow256_unique (be_val (x :: l)) _ (zlen (x :: l)) Hn); try done.
  - unfold zlen. rewrite Nat2Z.id. by apply be_bytes_val.
  - rewrite zlen_cons in *. replace (1 + zlen l - 1) with (zlen l) by lia. lia.
Qed.

Lemma int_spec_iff b i :
  bytes_ok b -> (forall l, b <> 0 :: l) /\ i = be_val b <-> 0 <= i /\ b = int_spec i.
Proof.
  intros Hb. split.
  - intros [H0 ->]. by destruct (int_spec_be_val b Hb H0) as [? ->].
  - intros [Hi ->]. destruct (int_spec_val i Hi) as [Hv H0]. split; [|done].
    intros l Hl. rewrite Hl in H0. by destruct (H0 ltac:(done)).
Qed.

Lemma zlen_string_spec_le b : zlen b < 2 ^ 64 -> zlen (string_spec b) <= zlen b + 9.
Proof.
  intros Hb. pose proof (zlen_nonneg b) as Hz. assert (Hu : is_u64 (zlen b)) by (unfold is_u64; lia).
  pose proof (headsize_bound _ Hu) as Hh. rewrite <- (zlen_head_spec 0x80 0xB7) in Hh by done.
  destruct b as [|x [|y b]]; [done| |].
  - unfold string_spec. destruct (x <? 128); [done|]. rewrite zlen_app. lia.
  - unfold string_spec. rewrite zlen_app. lia.
Qed.

Lemma string_spec_inj b b' :
  bytes_ok b -> bytes_ok b' -> zlen b < 2 ^ 48 -> string_spec b = string_spec b' -> b = b'.
Proof.
  intros Hb Hb' Hu He. pose proof (zlen_nonneg b); pose proof (zlen_nonneg b').
  assert (Hu' : zlen b' < 2 ^ 64).
  { pose proof (zlen_string_spec b'). rewrite <- He in *. pose proof (zlen_string_spec_le b). lia. }
  destruct (string_head b Hb) as (k & hd & c & Hs & Hh & Hbh & Hz & Hc); [unfold is_u64; lia|].
  destruct (string_head b' Hb') as (k' & hd' & c' & Hs' & Hh' & Hbh' & Hz' & Hc'); [unfold is_u64; lia|].
  pose proof (zlen_nonneg c); pose proof (zlen_nonneg c').
  destruct (head_inj k hd c k' hd' c' [] []) as (-> & -> & -> & _); try done.
  - unfold is_u64. lia.
  - unfold is_u64. lia.
  - rewrite !app_nil_r. congruence.
  - congruence.
Qed.
Lemma reads_string_ext {A} (g g' : list Z -> option A) m :
  (forall b, g b = g' b) -> reads_string g m -> reads_string g' m.
Proof.
  intros Hg Hm k hd c r st s Hh Hp Hwf Hw Hb. specialize (Hm k hd c r st s Hh Hp Hwf Hw Hb).
  destruct (content _ _ _); simpl in *; [|done]. by rewrite <- Hg.
Qed.

(** Returning the string under a constructor. *)
Lemma reads_string_map {A B} (g : list Z -> option A) (m : SM A) (con : A -> B) :
  reads_string g m -> reads_string (fun b => con <$> g b) (a ← m; mret (con a)).
Proof.
  intros Hm. eapply reads_string_ext; [|by apply (reads_string_bind g m (fun a => Ok (con a)))].
  intros b. simpl. by destruct (g b).
Qed.

(** A type whose values are written as the string [f a]. *)
Lemma string_type_decodes N {A} (P : A -> Prop) (con : A -> item) (f : A -> list Z)
    (g : list Z -> option A) (m : SM item) :
  (forall a, rlp_spec (con a) = string_spec (f a)) ->
  (forall a, P a -> bytes_ok (f a)) ->
  (forall b a, bytes_ok b -> g b = Some a <-> P a /\ b = f a) ->
  kind_first_SM m -> reads_string (fun b => con <$> g b) m ->
  decodes N (fun v => exists a, v = con a /\ P a) (lift m).
Proof.
  intros Hcon Hok Hg Hk Hm. eapply string_decodes; [done..| |].
  - intros b v Hb Hu. split.
    + intros (a & Ha & ->)%fmap_Some. apply Hg in Ha as [Ha ->]; [|done]. split; [by exists a|done].
    + intros [(a & -> & Ha) He]. rewrite Hcon in He.
      apply fmap_Some. exists a. split; [|done]. apply Hg; [done|]. split; [done|].
      symmetry. symmetry in He. symmetry. apply string_spec_inj; auto.
  - intros v (a & -> & Ha). exists (f a). auto.
Qed.

Definition no_lead (b : list Z) : bool := match b with 0 :: _ => false | _ => true end.

Lemma no_lead_iff b : no_lead b = true <-> forall l, b <> 0 :: l.
Proof. destruct b as [|[] b]; simpl; naive_solver. Qed.

Lemma bigint_decodes N :
  decodes N (fun v => exists i, v = IBigInt i /\ 0 <= i) (lift decodeBigInt).
Proof.
  apply (string_type_decodes N _ IBigInt int_spec
           (fun b => if no_lead b then Some (be_val b) else None)); [done| | | |].
  - intros. apply int_spec_ok.
  - intros b i Hb. rewrite <- int_spec_iff, <- no_lead_iff by done. destruct (no_lead b); naive_solver.
  - apply kind_first_then, kind_first_wrapped, kind_first_bind.
  - eapply reads_string_ext; [|apply (reads_string_bind Some (wrapped Bytes)
      (fun b => if no_lead b then Ok (IBigInt (be_val b)) else Err (decodeError msgCanonInt)))].
    + intros b. simpl. by destruct (no_lead b).
    + intros a t. unfold fails, mret, SM_ret. by destruct a as [|[] a].
    + intros a. by destruct (no_lead a).
    + apply reads_string_wrapped, Bytes_reads.
Qed.

Lemma bytes_decodes N con m :
  (forall b, rlp_spec (con b) = string_spec b) -> kind_first_SM m -> reads_string Some m ->
  decodes N (fun v => exists b, v = con b /\ bytes_ok b) (lift (b ← m; mret (con b))).
Proof.
  intros Hcon Hk Hm. apply (string_type_decodes N _ con id Some); [done..| | |].
  - intros b a Hb. unfold id. naive_solver.
  - by apply kind_first_then.
  - by apply (reads_string_map Some m).
Qed.

(** Integers of a machine type. *)
Definition uint_ok (maxbits : Z) (b : list Z) : bool := no_lead b && (zlen b <=? maxbits / 8).

Lemma uint_byte maxbits x :
  8 <= maxbits -> 0 <= x < 128 -> uint_ok maxbits [x] = negb (x =? 0).
Proof.
  intros Hm Hx. unfold uint_ok. change (zlen [x]) with 1.
  rewrite (proj2 (Z.leb_le 1 _)) by (apply Z.div_le_lower_bound; lia). by destruct x.
Qed.

Lemma readUint_rearm n s : n <= 8 -> readUint n s = readUint n (set_kind s None).
Proof.
  intros Hn. unfold readUint. rewrite Z.gtb_ltb, (proj2 (Z.ltb_ge 8 n)) by done.
  by repeat case_match.
Qed.

Lemma stream_uint_reads maxbits :
  8 <= maxbits <= 64 ->
  reads_string (fun b => if uint_ok maxbits b then Some (be_val b) else None) (stream_uint maxbits).
Proof.
  intros Hm k hd c r st s Hh Hp Hwf Hw Hb. unfold stream_uint. rewrite SM_bind_eq.
  rewrite (peeked_Kind _ _ _ _ _ _ Hp). pose proof (peeked_ready _ _ _ _ _ _ Hp) as Hs.
  pose proof (wf_pos_zlen _ _ _ Hwf). destruct k; simpl in Hh.
  - destruct Hh as (Hc & x & -> & Hx). rewrite Hc, advance_0. apply zlen_0_inv in Hc as ->.
    destruct Hp as (_ & _ & _ & _ & _ & _ & _ & Hbv). simpl nth in *.
    rewrite SM_bind_eq. unfold gets. rewrite Hbv by done. cbn [content mbind option_bind].
    rewrite uint_byte by lia. destruct (Z.eqb_spec x 0); cbn [negb]; [unfold fails; eauto|].
    exists (set_kind s None). split; done.
  - unfold content. destruct (Z.gtb_spec (zlen c) (maxbits / 8)) as [Hgt|Hle].
    { case_decide; simpl; unfold fails; [|eauto]. unfold uint_ok.
      rewrite (proj2 (Z.leb_gt _ _)), andb_false_r by lia. eauto. }
    assert (maxbits / 8 <= 8) by (apply Z.div_le_upper_bound; lia).
    unfold on_stream. rewrite u8_small by (unfold is_byte; lia).
    rewrite readUint_rearm by lia.
    destruct (readUint_ok c r st (set_kind s None)) as (s' & -> & Hs'); [done..|lia|].
    assert (Hbc : bytes_ok c) by (destruct Hwf as (_ & Hbc & _); by apply Forall_app in Hbc as [? _]).
    assert (Hok : uint_ok maxbits c = no_lead c).
    { unfold uint_ok. by rewrite (proj2 (Z.leb_le _ _)), andb_true_r by lia. }
    destruct c as [|x [|y c]].
    + simpl. rewrite Hok. exists s'. by rewrite zlen_nil in *.
    + change (zlen [x]) with 1 in *. change (be_val [x]) with x. simpl.
      destruct (Z.ltb_spec x 128); simpl; [by eauto|]. rewrite Hok. destruct x; simpl; [lia|eauto|lia].
    + simpl string_kind. rewrite decide_True by done. cbn [mbind option_bind]. rewrite Hok.
      rewrite !zlen_cons in *. pose proof (zlen_nonneg c).
      rewrite (proj2 (Z.ltb_lt 1 _)), Z.gtb_ltb, (proj2 (Z.ltb_lt 0 _)) by lia.
      cbn [andb nth]. destruct (Z.eqb_spec x 0) as [->|Hx]; [simpl; eauto|].
      replace (no_lead (x :: y :: c)) with true by (by destruct x).
      rewrite (proj2 (Z.ltb_ge _ _)); [by eauto|].
      pose proof (be_val_lower _ _ Hbc Hx) as Hlo. rewrite zlen_cons in Hlo.
      rewrite Z.pow_add_r, Z.pow_1_r in Hlo by lia.
      pose proof (Z.pow_pos_nonneg 256 (zlen c)). lia.
  - simpl. unfold fails. eauto.
Qed.

Lemma uint_iff maxbits b i :
  maxbits mod 8 = 0 -> 0 <= maxbits -> bytes_ok b ->
  (if uint_ok maxbits b then Some (be_val b) else None) = Some i <->
  0 <= i < 2 ^ maxbits /\ b = int_spec i.
Proof.
  intros Hm Hm0 Hb. assert (H8 : maxbits = 8 * (maxbits / 8)) by (Z.div_mod_to_equations; lia).
  assert (Hpow : 2 ^ maxbits = 256 ^ (maxbits / 8)).
  { rewrite H8 at 1. by rewrite Z.pow_mul_r by (Z.div_mod_to_equations; lia). }
  rewrite Hpow. unfold uint_ok. pose proof (int_spec_iff b i Hb) as Hi. rewrite <- no_lead_iff in Hi.
  split.
  - destruct (no_lead b); [|done]. destruct (Z.leb_spec (zlen b) (maxbits / 8)); [|done]. simpl.
    intros [= Hv]. destruct (proj1 Hi) as [Hi0 Hib]; [done|]. split; [|done]. split; [done|].
    pose proof (be_val_bound b Hb). rewrite <- Hv. eapply Z.lt_le_trans; [apply H0|].
    apply Z.pow_le_mono_r; lia.
  - intros [Hr Hib]. destruct (proj2 Hi) as [-> Hv]; [naive_solver|]. simpl.
    rewrite (proj2 (Z.leb_le _ _)); [by rewrite Hv|].
    destruct (Z.eq_dec i 0) as [->|]; [subst b; unfold int_spec; simpl; rewrite zlen_nil; Z.div_mod_to_equations; lia|].
    destruct (bit_len_bounds i) as [Hn [Hlo _]]; [lia|]. subst b. unfold int_spec. rewrite zlen_be_bytes.
    assert ((bit_len i + 7) / 8 - 1 < maxbits / 8); [|lia]. apply (Z.pow_lt_mono_r_iff 256); [lia|Z.div_mod_to_equations; lia|lia].
Qed.

Lemma uint_decodes N bits :
  bits mod 8 = 0 -> 8 <= bits <= 64 ->
  decodes N (fun v => exists i, v = IUint i /\ 0 <= i < 2 ^ bits)
    (lift (n ← wrapped (stream_uint bits); mret (IUint n))).
Proof.
  intros Hm Hb. apply (string_type_decodes N _ IUint int_spec
    (fun b => if uint_ok bits b then Some (be_val b) else None)); [done| | | |].
  - intros. apply int_spec_ok.
  - intros. apply uint_iff; [done|lia|done].
  - apply kind_first_then, kind_first_wrapped, kind_first_bind.
  - apply (reads_string_map (fun b => if uint_ok bits b then Some (be_val b) else None)
             (wrapped (stream_uint bits)) IUint).
    by apply reads_string_wrapped, stream_uint_reads.
Qed.

Lemma bool_decodes N :
  decodes N (fun v => exists b, v = IBool b /\ True) (lift (b ← wrapped Bool; mret (IBool b))).
Proof.
  apply (string_type_decodes N _ IBool (fun b : bool => if b then [1] else [])
    (fun b => (if uint_ok 8 b then Some (be_val b) else None) ≫= fun n =>
       if n =? 0 then Some false else if n =? 1 then Some true else None)); [done| | | |].
  - intros [] _; [by repeat constructor|done].
  - intros b a Hb. destruct (if uint_ok 8 b then _ else _) as [n|] eqn:Hn; simpl.
    + apply uint_iff in Hn as [Hr ->]; [|done..]. destruct (Z.eqb_spec n 0) as [->|]; [by destruct a; naive_solver|].
      destruct (Z.eqb_spec n 1) as [->|]; [by destruct a; naive_solver|]. split; [done|].
      intros [_ He]. destruct (int_spec_val n) as [Hv _]; [lia|]. rewrite He in Hv.
      destruct a; vm_compute in Hv; lia.
    + split; [done|]. intros [_ ->]. by destruct a.
  - apply kind_first_then, kind_first_wrapped, kind_first_then, kind_first_bind.
  - apply (reads_string_map _ (wrapped Bool) IBool), reads_string_wrapped.
    eapply reads_string_ext; [|apply (reads_string_bind
      (fun b => if uint_ok 8 b then Some (be_val b) else None) (stream_uint 8)
      (fun num => if num =? 0 then Ok false else if num =? 1 then Ok true else Err (errInvalidBool num)))].
    + intros b. cbn beta. destruct (uint_ok 8 b); [|done]. cbn [mbind option_bind].
      by destruct (be_val b =? 0), (be_val b =? 1).
    + intros a t. by destruct (a =? 0), (a =? 1).
    + intros a. by destruct (a =? 0), (a =? 1).
    + by apply stream_uint_reads.
Qed.
Lemma bytearray_decodes N n :
  n <> 1%nat ->
  decodes N (fun v => exists b, v = IByteArray b /\ bytes_ok b /\ length b = n) (lift (decodeByteArray n)).
Proof.
  intros Hn. apply (string_type_decodes N (fun b => bytes_ok b /\ length b = n) IByteArray id
    (fun b => if decide (length b = n) then Some b else None)); [done|naive_solver| | |].
  - intros b a Hb. unfold id. case_decide; naive_solver.
  - apply kind_first_bind.
  - intros k hd c r st s Hh Hp Hwf Hw Hb. unfold decodeByteArray. rewrite SM_bind_eq.
    rewrite (peeked_Kind _ _ _ _ _ _ Hp). pose proof (peeked_ready _ _ _ _ _ _ Hp) as Hs.
    destruct k; simpl in Hh; cbn [content mbind option_bind].
    + rewrite decide_False by (simpl; lia). simpl.
      destruct n as [|[|n]]; [|done|]; unfold fails; eauto.
    + destruct (Z.ltb_spec (Z.of_nat n) (zlen c)) as [Hlt|Hge].
      { case_decide; simpl; [rewrite decide_False by (unfold zlen in *; lia)|]; simpl; unfold fails; eauto. }
      destruct (Z.gtb_spec (Z.of_nat n) (zlen c)) as [Hgt|Hle].
      { case_decide; simpl; [rewrite decide_False by (unfold zlen in *; lia)|]; simpl; unfold fails; eauto. }
      assert (Hl : Z.of_nat n = zlen c) by lia. rewrite Hl, SM_bind_eq, readFull_rearm.
      destruct (readFull_ok _ _ _ _ Hs Hwf Hw) as (s' & -> & Hs'). rewrite single_small.
      case_decide; [rewrite bool_decide_true by done|rewrite bool_decide_false by done]; simpl.
      * rewrite decide_True by (unfold zlen in *; lia). simpl. eauto.
      * unfold fails. do 2 eexists. split; [done|]. done.
    + unfold fails. eauto.
Qed.

(** [Raw] puts back the header it has read. *)
Definition raw_ok (b : list Z) : Prop :=
  bytes_ok b /\ framed b.

Lemma Raw_ok k hd c r st s :
  is_head k hd (zlen c) -> peeked k (zlen c) (nth 0 hd 0) (c ++ r) st s ->
  wf_pos st (c ++ r) -> zlen c <= window st (c ++ r) ->
  exists s', Raw s = (Ok (hd ++ c), s') /\ ready r (advance st (zlen c)) s'.
Proof.
  intros Hh Hp Hwf Hw. unfold Raw. rewrite SM_bind_eq.
  rewrite (peeked_Kind _ _ _ _ _ _ Hp). pose proof (peeked_ready _ _ _ _ _ _ Hp) as Hs.
  pose proof (wf_pos_zlen _ _ _ Hwf) as Hz.
  assert (Hu : is_u64 (zlen c)) by (unfold is_u64; lia). pose proof (headsize_bound _ Hu) as Hhs.
  destruct (decide (k = Byte)) as [->|Hk].
  { destruct Hh as (Hc & x & -> & Hx). rewrite Hc, advance_0. apply zlen_0_inv in Hc as ->.
    exists (set_kind s None). split; [|done]. destruct Hp as (_ & _ & _ & _ & _ & _ & _ & Hbv).
    rewrite app_nil_r. simpl in Hbv. rewrite <- Hbv; done. }
  set (n := headsize (zlen c)) in *.
  assert (Hrun : exists s', ready r (advance st (zlen c)) s' /\ forall (f : list Z -> rlp (list Z * Z)),
    (buf ← make_bytes (u64 (n + zlen c)); tl ← lift_rlp (slice_from buf n);
     body ← readFull (zlen tl);
     '(buf, _) ← lift_rlp (f (take (Z.to_nat n) buf ++ body)); mret buf) s =
    ('(buf, _) ← lift_rlp (f (replicate (Z.to_nat n) 0 ++ c)); mret buf) s').
  { destruct (readFull_ok _ _ _ _ Hs Hwf Hw) as (s' & Hrd & Hs'). exists s'. split; [done|]. intros f.
    rewrite u64_small by lia. rewrite SM_bind_eq, make_bytes_ok by (unfold maxAlloc; lia).
    replace (Z.to_nat (n + zlen c)) with (Z.to_nat n + length c)%nat by (unfold zlen; lia).
    rewrite replicate_add. rewrite SM_bind_eq. unfold lift_rlp at 1.
    replace (slice_from _ n) with (Ok (replicate (length c) 0) : rlp (list Z)).
    2:{ symmetry. rewrite <- (make_bytes_zlen n) at 2 by lia. apply slice_from_app. }
    rewrite SM_bind_eq, zlen_replicate. fold (zlen c). rewrite readFull_rearm, Hrd.
    rewrite take_app_le by (rewrite length_replicate; lia). by rewrite take_ge by (rewrite length_replicate; lia). }
  destruct Hrun as (s' & Hs' & Hrun). exists s'. split; [|done].
  assert (Hput : forall small large, 0 <= small < 200 -> 0 <= large < 248 ->
    puthead (replicate (Z.to_nat n) 0 ++ c) small large (zlen c) = Ok (head_spec small large (zlen c) ++ c, n)).
  { intros. apply puthead_spec; [done| |lia..]. rewrite make_bytes_zlen; [done|lia]. }
  destruct k; [done| |]; simpl in Hh; rewrite Hh; fold n.
  - etrans; [apply (Hrun (fun buf => puthead buf 128 183 (zlen c)))|].
    rewrite SM_bind_eq. unfold lift_rlp. by rewrite Hput by lia.
  - etrans; [apply (Hrun (fun buf => puthead buf 192 247 (zlen c)))|].
    rewrite SM_bind_eq. unfold lift_rlp. by rewrite Hput by lia.
Qed.

Lemma raw_decodes N :
  decodes N (fun v => exists b, v = IRaw b /\ raw_ok b) (lift (b ← Raw; mret (IRaw b))).
Proof.
  split.
  - apply kind_first_lift, kind_first_then, kind_first_bind.
  - intros k hd c r st s Hh Hb Hp Hwf Hw _. unfold lift. rewrite SM_bind_eq.
    destruct (Raw_ok _ _ _ _ _ _ Hh Hp Hwf Hw) as (s' & -> & Hs'). exists (Ok (IRaw (hd ++ c))), s'.
    split_and!; [done..|]. intros v. split; [|naive_solver]. intros [= <-]. split; [|done].
    exists (hd ++ c). split; [done|]. split; [|by exists k, hd, c]. apply Forall_app. split; [done|].
    destruct Hwf as (_ & Hbc & _). by apply Forall_app in Hbc as [? _].
  - intros v (b & -> & _ & Hf) _. done.
Qed.
(** ** Lists *)

Lemma ListEnd_ok r z st s :
  ready r (ListPos z z :: st) s -> wf_pos (advance st z) r ->
  exists s', ListEnd s = (Ok tt, s') /\ ready r (advance st z) s'.
Proof.
  intros (Hr & Hrem & Hlim & Hk & Hst) (_ & _ & Hw & Hpos). unfold ListEnd. rewrite Hst. simpl.
  rewrite Z.eqb_refl. simpl. eexists. split; [done|]. unfold ready. simpl. split_and!; try done.
  destruct st as [|[p y] st]; [done|]. simpl in *. by rewrite u64_small by lia.
Qed.

Lemma List_ok n bv r st s :
  peeked List n bv r st s ->
  exists s', stream_List s = (Ok n, s') /\ ready r (ListPos 0 n :: st) s'.
Proof.
  intros Hp. unfold stream_List. rewrite SM_bind_eq, (peeked_Kind _ _ _ _ _ _ Hp).
  destruct Hp as (? & ? & ? & Hst & _). eexists. split; [done|]. unfold ready. simpl. by rewrite Hst.
Qed.

Lemma List_err k n bv r st s :
  peeked k n bv r st s -> k <> List -> stream_List s = (Err ErrExpectedList, s).
Proof.
  intros Hp Hk. unfold stream_List. rewrite SM_bind_eq, (peeked_Kind _ _ _ _ _ _ Hp). by destruct k.
Qed.

(** Inside a list with the bytes [c] left. *)
Definition inside (c r : list Z) (z : Z) (st : list listpos) (s : Stream) : Prop :=
  ready (c ++ r) (ListPos (z - zlen c) z :: st) s /\
  wf_pos (ListPos (z - zlen c) z :: st) (c ++ r).

Lemma inside_done N V d r z st s :
  decodes N V d -> inside [] r z st s ->
  exists s', d s = Some (Err EOL, s') /\ inside [] r z st s'.
Proof.
  intros Hd [Hs Hwf]. destruct (decodes_eol _ _ _ _ _ _ Hd Hs) as (s' & Hd' & Hs').
  - split; [done|]. simpl. rewrite zlen_nil. lia.
  - by exists s'.
Qed.

Lemma inside_step N V d c r z st s :
  decodes N V d -> inside c r z st s -> c <> [] -> (length c <= N)%nat ->
  exists o s', d s = Some (o, s') /\
    match o with
    | Ok v => exists c', c = rlp_spec v ++ c' /\ V v /\ (length c' < length c)%nat /\ inside c' r z st s'
    | Err e => e <> EOL
    | Panic => False
    end /\
    (forall v c', V v -> c = rlp_spec v ++ c' -> o = Ok v).
Proof.
  intros Hd [Hs Hwf] Hc HN. assert (Hcz : 0 < zlen c) by (destruct c; [done|unfold zlen; simpl; lia]).
  assert (Hw : window (ListPos (z - zlen c) z :: st) (c ++ r) = zlen c) by (simpl; lia).
  destruct (decodes_ready _ _ _ _ _ _ Hd Hs Hwf) as (o & s' & Hds & Ho & Hcomp).
  { unfold list_done. rewrite Hw. lia. }
  { rewrite Hw. unfold zlen. lia. }
  exists o, s'. split; [done|]. rewrite Hw in *. split.
  - destruct o as [v| |]; [|done..]. destruct Ho as (l & Hl & Hv & Hz & Hs').
    assert (Hpre : exists c', c = rlp_spec v ++ c' /\ l = c' ++ r).
    { destruct (zlen_split c (zlen (rlp_spec v))) as (c1 & c2 & -> & Hc1 & _); [lia|].
      rewrite <- app_assoc in Hl. apply app_inj_1 in Hl as [-> <-]; [|unfold zlen in *; lia]. eauto. }
    destruct Hpre as (c' & -> & ->). exists c'. rewrite zlen_app, length_app in *.
    split_and!; [done..|unfold zlen in *; lia|]. rewrite <- app_assoc in *.
    destruct (wf_pos_advance _ _ _ Hwf) as [Hwf' _]; [rewrite Hw; lia|]. simpl in *.
    replace (z - (zlen (rlp_spec v) + zlen c') + zlen (rlp_spec v)) with (z - zlen c') in * by lia.
    done.
  - intros v c' Hv ->. apply (Hcomp v (c' ++ r)); [done|by rewrite app_assoc|].
    rewrite zlen_app. pose proof (zlen_nonneg c'). lia.
Qed.

Lemma slice_elems N V d fuel c r z st acc s :
  decodes N V d -> inside c r z st s -> (length c <= N)%nat -> (length c < fuel)%nat ->
  exists o s', decodeSliceElems fuel d acc s = Some (o, s') /\
    match o with
    | Ok l => inside [] r z st s' /\
        exists vs, l = acc ++ vs /\ Forall V vs /\ c = concat (map rlp_spec vs)
    | Err e => e <> EOL
    | Panic => False
    end /\
    (forall vs, Forall V vs -> c = concat (map rlp_spec vs) -> o = Ok (acc ++ vs)).
Proof.
  intros Hd. revert c acc s. induction fuel as [|fuel IH]; intros c acc s Hin HN Hf; [lia|].
  simpl. destruct (decide (c = [])) as [->|Hc].
  { destruct (inside_done _ _ _ _ _ _ _ Hd Hin) as (s' & -> & Hin').
    exists (Ok acc), s'. split; [done|]. split.
    - split; [done|]. exists []. by rewrite app_nil_r.
    - intros vs Hvs He. destruct vs as [|v vs]; [by rewrite app_nil_r|]. simpl in He.
      apply Forall_cons in Hvs as [Hv _]. symmetry in He. apply app_nil in He as [He _].
      pose proof (decodes_framed _ _ _ Hd v Hv) as Hfr. rewrite He in Hfr.
      apply framed_pos in Hfr; [done|done|done]. }
  destruct (inside_step _ _ _ _ _ _ _ _ Hd Hin Hc HN) as (o & s' & -> & Ho & Hcomp).
  destruct o as [v|e|]; [|exists (Err e), s'|done].
  - destruct Ho as (c' & -> & Hv & Hlt & Hin').
    destruct (IH c' (acc ++ [v]) s' Hin') as (o & s'' & Hrun & Ho & Hc'); [lia..|].
    exists o, s''. split; [done|]. split.
    + destruct o as [l|e|]; [|done..]. destruct Ho as (? & vs & -> & Hvs & ->). split; [done|].
      exists (v :: vs). rewrite <- app_assoc. by split_and!; [|constructor|].
    + intros vs Hvs He. destruct vs as [|v' vs]; [by simpl in He|]. simpl in He.
      apply Forall_cons in Hvs as [Hv' Hvs']. pose proof (Hcomp v' _ Hv' He) as [= ->].
      apply app_inv_head in He. rewrite (Hc' vs Hvs' He). by rewrite <- app_assoc.
  - split; [by destruct e|]. split; [done|]. intros vs Hvs He.
    destruct vs as [|v' vs]; [by simpl in He|]. simpl in He.
    apply Forall_cons in Hvs as [Hv' _]. by pose proof (Hcomp v' _ Hv' He).
Qed.
(** [E] reads the elements of a list: a list of the values [L]. *)
Definition reads_elems (N : nat) (L : list item -> Prop) (E : fueled (list item)) : Prop :=
  forall c r z st s,
    inside c r z st s -> (length c < N)%nat ->
    exists o s', E s = Some (o, s') /\
      match o with
      | Ok l => L l /\ exists c', c = concat (map rlp_spec l) ++ c' /\ inside c' r z st s'
      | Err e => e <> EOL
      | Panic => False
      end /\
      (forall l, L l -> c = concat (map rlp_spec l) -> o = Ok l).

Lemma decodeFields_reads N Vs decs acc c r z st s :
  Forall2 (decodes N) Vs decs -> inside c r z st s -> (length c <= N)%nat ->
  exists o s', decodeFields decs acc s = Some (o, s') /\
    match o with
    | Ok l => exists vs c', l = acc ++ vs /\ Forall2 (fun V v => V v) Vs vs /\
        c = concat (map rlp_spec vs) ++ c' /\ inside c' r z st s' /\ (length c' <= length c)%nat
    | Err e => e <> EOL
    | Panic => False
    end /\
    (forall vs c', Forall2 (fun V v => V v) Vs vs -> c = concat (map rlp_spec vs) ++ c' ->
       o = Ok (acc ++ vs)).
Proof.
  intros Hall. revert acc c s. induction Hall as [|V d Vs decs Hd Hall IH]; intros acc c s Hin HN; simpl.
  { exists (Ok acc), s. split; [done|]. split.
    - exists [], c. rewrite app_nil_r. by split_and!.
    - intros vs c' Hvs _. apply Forall2_nil_inv_l in Hvs as ->. by rewrite app_nil_r. }
  destruct (decide (c = [])) as [->|Hc].
  { destruct (inside_done _ _ _ _ _ _ _ Hd Hin) as (s' & -> & Hin').
    eexists _, s'. split; [done|]. split; [done|]. intros vs c' Hvs He.
    apply Forall2_cons_inv_l in Hvs as (v & vs' & Hv & _ & ->). simpl in He.
    symmetry in He. rewrite <- app_assoc in He. apply app_nil in He as [He _].
    pose proof (decodes_framed _ _ _ Hd v Hv) as Hfr. rewrite He in Hfr.
    by apply framed_pos in Hfr. }
  destruct (inside_step _ _ _ _ _ _ _ _ Hd Hin Hc HN) as (o & s' & -> & Ho & Hcomp).
  destruct o as [v|e|]; [|exists (Err e), s'|done].
  - destruct Ho as (c' & -> & Hv & Hlt & Hin').
    destruct (IH (acc ++ [v]) c' s' Hin') as (o & s'' & Hrun & Ho & Hc'); [lia|].
    exists o, s''. split; [done|]. split.
    + destruct o as [l|e|]; [|done..]. destruct Ho as (vs & c'' & -> & Hvs & -> & ? & ?).
      exists (v :: vs), c''. simpl. rewrite <- !app_assoc. split_and!; try done; [by constructor|].
      rewrite !length_app in *. lia.
    + intros vs c'' Hvs He. apply Forall2_cons_inv_l in Hvs as (v' & vs' & Hv' & Hvs' & ->).
      simpl in He. rewrite <- app_assoc in He. pose proof (Hcomp v' _ Hv' He) as [= ->].
      apply app_inv_head in He. rewrite (Hc' vs' _ Hvs' He). by rewrite <- app_assoc.
  - split; [by destruct e|]. split; [done|]. intros vs c' Hvs He.
    apply Forall2_cons_inv_l in Hvs as (v' & vs' & Hv' & _ & ->).
    simpl in He. rewrite <- app_assoc in He. by pose proof (Hcomp v' _ Hv' He).
Qed.

Lemma decodeArrayElems_fields n d acc s :
  decodeArrayElems n d acc s = decodeFields (replicate n d) acc s.
Proof.
  revert acc s. induction n as [|n IH]; intros acc s; simpl; [done|].
  destruct (d s) as [[[v|e|] s']|]; [apply IH|done..].
Qed.

Lemma decodes_ext N V d d' : (forall s, d s = d' s) -> decodes N V d -> decodes N V d'.
Proof.
  intros He [Hk Hb Hf]. split; [| |done].
  - intros s. specialize (Hk s). destruct (stream_Kind s) as [[kn|e|] s']; by rewrite <- ?He.
  - intros k hd c r st s. intros. destruct (Hb k hd c r st s) as (o & s' & ? & ?); [done..|].
    exists o, s'. by rewrite <- He.
Qed.

Lemma kind_first_fbind {A} (m : SM A) (f : A -> fueled item) :
  kind_first_SM m -> kind_first (fbind (lift m) f).
Proof.
  intros Hk s. specialize (Hk s). unfold fbind, lift.
  destruct (stream_Kind s) as [[kn|e|] s']; [by rewrite Hk| |by rewrite Hk].
  destruct Hk as (e' & -> & He). eauto.
Qed.

Lemma kind_first_list (f : Z -> fueled item) : kind_first (fbind (lift (wrapped stream_List)) f).
Proof. apply kind_first_fbind, kind_first_wrapped, kind_first_bind. Qed.

Lemma inside_start c r st s :
  ready (c ++ r) (ListPos 0 (zlen c) :: st) s -> zlen (c ++ r) < 2 ^ 47 -> bytes_ok (c ++ r) ->
  inside c r (zlen c) st s.
Proof.
  intros Hs Hz Hb. unfold inside. rewrite Z.sub_diag. split; [done|]. unfold wf_pos. simpl.
  rewrite zlen_app in *. pose proof (zlen_nonneg r); pose proof (zlen_nonneg c). split_and!; done || lia.
Qed.

Lemma inside_end c c' r st s :
  inside c' r (zlen c) st s -> wf_pos st (c ++ r) -> zlen c <= window st (c ++ r) ->
  (c' = [] -> exists s', ListEnd s = (Ok tt, s') /\ ready r (advance st (zlen c)) s') /\
  (c' <> [] -> ListEnd s = (Err errNotAtEOL, s)).
Proof.
  intros [Hs Hwf'] Hwf Hw. split.
  - intros ->. rewrite zlen_nil, Z.sub_0_r in Hs. apply ListEnd_ok; [done|]. by apply wf_pos_advance.
  - intros Hc. destruct Hs as (_ & _ & _ & _ & Hst). unfold ListEnd. rewrite Hst. simpl.
    destruct c' as [|x c']; [done|]. rewrite zlen_cons. pose proof (zlen_nonneg c').
    by rewrite (proj2 (Z.eqb_neq _ _)) by lia.
Qed.

Lemma list_spec_framed c : zlen (list_spec c) < 2 ^ 47 -> framed (list_spec c).
Proof.
  unfold list_spec. rewrite zlen_app. intros Hz. pose proof (zlen_nonneg c).
  pose proof (zlen_nonneg (head_spec 0xC0 0xF7 (zlen c))).
  exists List, (head_spec 0xC0 0xF7 (zlen c)), c. split_and!; try done.
  apply head_spec_ok; [unfold is_u64; lia|lia|done].
Qed.

(** Header and content are the encoding of a list only under kind [List]. *)
Lemma list_spec_head k hd c p :
  is_head k hd (zlen c) -> bytes_ok hd -> zlen c < 2 ^ 47 -> list_spec p = hd ++ c <-> k = List /\ p = c.
Proof.
  intros Hh Hb Hz. pose proof (zlen_nonneg c).
  assert (Hu : is_u64 (zlen c)) by (unfold is_u64; lia). split.
  - intros He. assert (Hp : zlen p < 2 ^ 48).
    { destruct (is_head_zlen _ _ _ Hu Hh). assert (Hzl : zlen (list_spec p) < 2 ^ 48).
      { rewrite He, zlen_app. lia. }
      unfold list_spec in Hzl. rewrite zlen_app in Hzl.
      pose proof (zlen_nonneg (head_spec 0xC0 0xF7 (zlen p))). lia. }
    pose proof (zlen_nonneg p). assert (Hup : is_u64 (zlen p)) by (unfold is_u64; lia).
    destruct (head_inj k hd c List (head_spec 0xC0 0xF7 (zlen p)) p [] []) as (-> & _ & -> & _); try done.
    + apply head_spec_ok; [done|lia|done].
    + rewrite !app_nil_r. symmetry. exact He.
  - intros [-> ->]. simpl in Hh. by rewrite Hh.
Qed.

Definition list_value (L : list item -> Prop) (v : item) : Prop := exists l, v = IList l /\ L l.

Lemma list_value_framed L v :
  list_value L v -> zlen (rlp_spec v) < 2 ^ 47 -> framed (rlp_spec v).
Proof. intros (l & -> & _). apply list_spec_framed. Qed.

Lemma list_value_iff L k hd c l :
  is_head k hd (zlen c) -> bytes_ok hd -> zlen c < 2 ^ 47 ->
  list_value L (IList l) /\ rlp_spec (IList l) = hd ++ c <->
  k = List /\ L l /\ concat (map rlp_spec l) = c.
Proof.
  intros Hh Hb Hz. cbn [rlp_spec]. rewrite (list_spec_head k hd c) by done. unfold list_value. naive_solver.
Qed.

(** A value of another kind is refused. *)
Lemma list_refused (f : Z -> fueled item) L k hd c r st s :
  is_head k hd (zlen c) -> bytes_ok hd -> zlen c < 2 ^ 47 ->
  peeked k (zlen c) (nth 0 hd 0) (c ++ r) st s -> k <> List ->
  exists o s', fbind (lift (wrapped stream_List)) f s = Some (o, s') /\
    match o with Ok _ => ready r (advance st (zlen c)) s' | Err e => e <> EOL | Panic => False end /\
    forall v, o = Ok v <-> list_value L v /\ rlp_spec v = hd ++ c.
Proof.
  intros Hh Hb Hz Hp Hk. exists (Err (decodeError msgExpectedList)), s. split_and!; [|done|].
  - unfold fbind, lift, wrapped. by rewrite (List_err _ _ _ _ _ _ Hp Hk).
  - intros v. split; [done|]. intros [(l & -> & _) He]. destruct Hk.
    by apply (list_spec_head k hd c) in He as [? _].
Qed.

Lemma wrapped_ok {A} (m : SM A) s a s' : m s = (Ok a, s') -> wrapped m s = (Ok a, s').
Proof. unfold wrapped. by intros ->. Qed.

Lemma list_entered c bv r st s :
  peeked List (zlen c) bv (c ++ r) st s -> wf_pos st (c ++ r) ->
  exists s', inside c r (zlen c) st s' /\
    forall A (f : Z -> fueled A), fbind (lift (wrapped stream_List)) f s = f (zlen c) s'.
Proof.
  intros Hp (Hz & Hb & _). destruct (List_ok _ _ _ _ _ Hp) as (s' & Hl & Hs').
  exists s'. split; [by apply inside_start|]. intros A f. unfold fbind, lift.
  by rewrite (wrapped_ok _ _ _ _ Hl).
Qed.

Lemma list_decodes N L E :
  reads_elems N L E ->
  decodes N (list_value L)
    (fbind (lift (wrapped stream_List)) (fun _ =>
      fbind E (fun l => fbind (lift (wrapped ListEnd)) (fun _ => lift (mret (IList l)))))).
Proof.
  intros HE. split; [apply kind_first_list| |by apply list_value_framed].
  intros k hd c r st s Hh Hb Hp Hwf Hw HN. pose proof (wf_pos_zlen _ _ _ Hwf) as [_ Hz].
  destruct (decide (k = List)) as [->|Hk].
  2:{ by apply (list_refused _ _ k). }
  destruct (list_entered _ _ _ _ _ Hp Hwf) as (s1 & Hin & ->).
  destruct (HE _ _ _ _ _ Hin HN) as (o & s2 & Hrun & Ho & Hcomp). unfold fbind at 1. rewrite Hrun.
  destruct o as [l|e|]; [|exists (Err e), s2|done].
  - destruct Ho as (Hl & c' & Hc & Hin'). destruct (inside_end _ _ _ _ _ Hin' Hwf Hw) as [Hnil Hcons].
    unfold fbind, lift. destruct (decide (c' = [])) as [->|Hne].
    + destruct (Hnil eq_refl) as (s3 & He & Hs3). rewrite (wrapped_ok _ _ _ _ He).
      exists (Ok (IList l)), s3. split_and!; [done..|]. rewrite app_nil_r in Hc. intros v. split.
      * intros [= <-]. by apply (list_value_iff _ List).
      * intros [Hv Hsp]. destruct Hv as (l' & -> & Hl').
        assert (Hc' : concat (map rlp_spec l') = c) by (by apply (list_spec_head List hd c) in Hsp as [_ ?]).
        by pose proof (Hcomp l' Hl' (eq_sym Hc')) as [= ->].
    + unfold wrapped. rewrite (Hcons Hne). eexists _, s2. split_and!; [done..|]. intros v. split; [done|].
      intros [(l' & -> & Hl') Hsp]. exfalso.
      assert (Hc' : concat (map rlp_spec l') = c) by (by apply (list_spec_head List hd c) in Hsp as [_ ?]).
      pose proof (Hcomp l' Hl' (eq_sym Hc')) as [= ->]. rewrite <- Hc' in Hc at 1.
      rewrite <- (app_nil_r (concat _)) in Hc at 1. by apply app_inv_head in Hc.
  - split_and!; [done..|]. intros v. split; [done|]. intros [(l' & -> & Hl') Hsp].
    assert (Hc' : concat (map rlp_spec l') = c) by (by apply (list_spec_head List hd c) in Hsp as [_ ?]).
    by pose proof (Hcomp l' Hl' (eq_sym Hc')).
Qed.

Lemma array_decodes N V n d :
  decodes N V d ->
  decodes N (list_value (fun l => length l = n /\ Forall V l)) (decodeListArray n d).
Proof.
  intros Hd. apply list_decodes. intros c r z st s Hin HN.
  rewrite decodeArrayElems_fields.
  destruct (decodeFields_reads N (replicate n V) (replicate n d) [] c r z st s) as (o & s' & -> & Ho & Hc);
    [|done|lia|].
  { apply Forall2_replicate; done. }
  assert (Hiff : forall vs, Forall2 (fun V v => V v) (replicate n V) vs <-> length vs = n /\ Forall V vs).
  { intros vs. clear. split; [|intros []; by apply Forall2_replicate_l].
    intros H. split; [by rewrite <- (Forall2_length _ _ _ H), length_replicate|].
    revert n H. induction vs as [|v vs IH]; intros [|n] H; inversion H; subst; constructor; eauto. }
  exists o, s'. split; [done|]. split.
  - destruct o as [l| |]; [|done..]. destruct Ho as (vs & c' & -> & Hvs & -> & Hin' & _). simpl.
    split; [by apply Hiff|]. eauto.
  - intros l Hl ->. apply (Hc l []); [by apply Hiff|by rewrite app_nil_r].
Qed.

Lemma tail_reads N V d fuel :
  decodes N V d -> (N <= fuel)%nat ->
  reads_elems N (Forall V) (decodeSliceElems fuel d []).
Proof.
  intros Hd HN c r z st s Hin Hl.
  destruct (slice_elems N V d fuel c r z st [] s Hd Hin) as (o & s' & -> & Ho & Hc); [lia..|].
  exists o, s'. split; [done|]. split; [|done].
  destruct o as [l| |]; [|done..]. destruct Ho as (Hin' & vs & -> & Hvs & ->).
  split; [done|]. exists []. by rewrite app_nil_r.
Qed.

Lemma struct_decodes N Vs decs Lt tail :
  Forall2 (decodes N) Vs decs -> reads_elems N Lt tail ->
  decodes N (list_value (fun l => exists vs tl, l = vs ++ tl /\ Forall2 (fun V v => V v) Vs vs /\ Lt tl))
    (decodeStruct decs tail).
Proof.
  intros Hd Ht.
  pose (E := fbind (decodeFields decs []) (fun l => fbind tail (fun tl => lift (mret (l ++ tl))))).
  assert (HE : reads_elems N (fun l => exists vs tl, l = vs ++ tl /\ Forall2 (fun V v => V v) Vs vs /\ Lt tl) E).
  { intros c r z st s Hin HN. subst E. unfold fbind, lift.
    destruct (decodeFields_reads N Vs decs [] c r z st s) as (o & s1 & -> & Ho & Hc); [done..|lia|].
    destruct o as [l|e|]; [|exists (Err e), s1|done].
    - destruct Ho as (vs & c1 & -> & Hvs & -> & Hin1 & Hlen).
      destruct (Ht c1 r z st s1 Hin1) as (o & s2 & -> & Ho & Hc2); [lia|].
      destruct o as [tl|e|]; [exists (Ok (vs ++ tl)), s2|exists (Err e), s2|done].
      + destruct Ho as (Htl & c2 & -> & Hin2). split; [done|]. split.
        * split; [by exists vs, tl|]. exists c2. by rewrite map_app, concat_app, app_assoc.
        * intros l (vs' & tl' & -> & Hvs' & Htl') He. rewrite map_app, concat_app in He.
          pose proof (Hc vs' _ Hvs' He) as [= ->]. apply app_inv_head in He.
          by pose proof (Hc2 tl' Htl' He) as [= ->].
      + split_and!; [done..|]. intros l (vs' & tl' & -> & Hvs' & Htl') He. rewrite map_app, concat_app in He.
        pose proof (Hc vs' _ Hvs' He) as [= ->]. apply app_inv_head in He.
        by pose proof (Hc2 tl' Htl' He).
    - split_and!; [done..|]. intros l (vs' & tl' & -> & Hvs' & Htl') He. rewrite map_app, concat_app in He.
      by pose proof (Hc vs' _ Hvs' He). }
  eapply decodes_ext; [|by apply (list_decodes N _ E)].
  intros s. unfold decodeStruct, E, fbind, lift.
  destruct (wrapped stream_List s) as [[z|e|] s1]; [|done..].
  destruct (decodeFields decs [] s1) as [[[l|e|] s2]|]; [|done..].
  by destruct (tail s2) as [[[tl|e|] s3]|].
Qed.

Lemma slice_decodes N V d fuel :
  decodes N V d -> (N < fuel)%nat ->
  decodes (S N) (list_value (Forall V)) (decodeListSlice fuel d).
Proof.
  intros Hd HN. split; [apply kind_first_list| |by apply list_value_framed].
  intros k hd c r st s Hh Hb Hp Hwf Hw Hl. pose proof (wf_pos_zlen _ _ _ Hwf) as [_ Hz].
  destruct (decide (k = List)) as [->|Hk]; [|by apply (list_refused _ _ k)].
  unfold decodeListSlice. destruct (list_entered _ _ _ _ _ Hp Hwf) as (s1 & Hin & ->).
  assert (Hend : forall s2 l, inside [] r (zlen c) st s2 -> Forall V l -> concat (map rlp_spec l) = c ->
    (forall l', Forall V l' -> c = concat (map rlp_spec l') -> l' = l) ->
    exists o s', fbind (lift ListEnd) (fun _ => lift (mret (IList l))) s2 = Some (o, s') /\
      match o with Ok _ => ready r (advance st (zlen c)) s' | Err e => e <> EOL | Panic => False end /\
      forall v, o = Ok v <-> list_value (Forall V) v /\ rlp_spec v = hd ++ c).
  { intros s2 l Hin2 Hvl Hc Huniq. destruct (inside_end _ _ _ _ _ Hin2 Hwf Hw) as [Hnil _].
    destruct (Hnil eq_refl) as (s3 & He & Hs3). exists (Ok (IList l)), s3. unfold fbind, lift. rewrite He.
    split_and!; [done..|]. intros v. split.
    - intros [= <-]. by apply (list_value_iff _ List).
    - intros [(l' & -> & Hl') Hsp]. apply (list_spec_head List hd c) in Hsp as [_ Hsp]; [|done..].
      by rewrite (Huniq l' Hl' (eq_sym Hsp)). }
  destruct (slice_elems N V d fuel c r (zlen c) st [] s1 Hd Hin) as (o & s2 & Hrun & Ho & Hc); [lia..|].
  destruct (Z.eqb_spec (zlen c) 0) as [H0|H0].
  - apply zlen_0_inv in H0 as ->. apply Hend; [done..|]. intros l' Hl' He.
    pose proof (Hc l' Hl' He) as ->. destruct Ho as (_ & vs & [= ->] & Hvs & He').
    destruct vs as [|v vs]; [done|]. exfalso. simpl in He'. symmetry in He'. apply app_nil in He' as [He' _].
    apply Forall_cons in Hvs as [Hv _].
    pose proof (decodes_framed _ _ _ Hd v Hv) as Hfr. rewrite He' in Hfr. by apply framed_pos in Hfr.
  - unfold fbind at 1. rewrite Hrun. destruct o as [l|e|]; [|exists (Err e), s2|done].
    + destruct Ho as (Hin2 & vs & -> & Hvs & Hcc). simpl in *. apply Hend; [done..|].
      intros l' Hl' He. by pose proof (Hc l' Hl' He) as [= ->].
    + split_and!; [done..|]. intros v. split; [done|]. intros [(l' & -> & Hl') Hsp].
      apply (list_spec_head List hd c) in Hsp as [_ Hsp]; [|done..].
      by pose proof (Hc l' Hl' (eq_sym Hsp)).
Qed.

Lemma decodes_mono N N' V d : (N' <= N)%nat -> decodes N V d -> decodes N' V d.
Proof.
  intros HN [Hk Hb Hf]. split; [done| |done]. intros k hd c r st s. intros.
  apply (Hb k hd c r st s); done || lia.
Qed.

(** ** Pointers with tag "nil", interfaces *)

Definition nilptr_value (nilKind : Kind) (V : item -> Prop) (v : item) : Prop :=
  v = INilPtr (bool_decide (nilKind = String)) \/
  V v /\ rlp_spec v <> [0x80] /\ rlp_spec v <> [0xC0].

Lemma empty_head k hd c :
  is_head k hd (zlen c) -> bytes_ok hd -> zlen c < 2 ^ 47 ->
  (hd ++ c = [0x80] <-> k = String /\ c = []) /\ (hd ++ c = [0xC0] <-> k = List /\ c = []).
Proof.
  intros Hh Hb Hz. pose proof (zlen_nonneg c). assert (Hu : is_u64 (zlen c)) by (unfold is_u64; lia).
  assert (Hinj : forall K x, is_head K [x] 0 -> is_byte x -> hd ++ c = [x] -> k = K /\ c = []).
  { intros K x HK Hx He. destruct (head_inj k hd c K [x] [] [] []) as (-> & _ & -> & _); try done.
    - by apply Forall_singleton.
    - by rewrite !app_nil_r. }
  split; split.
  - by apply (Hinj String).
  - intros [-> ->]. simpl in Hh. by rewrite Hh.
  - by apply (Hinj List).
  - intros [-> ->]. simpl in Hh. by rewrite Hh.
Qed.

Lemma nilptr_decodes N V nilKind d :
  nilKind <> Byte -> decodes N V d ->
  decodes N (nilptr_value nilKind V) (decodeNilPtr nilKind d).
Proof.
  intros HnK [Hk Hb Hf]. split.
  - apply kind_first_fbind, kind_first_wrapped. intros s.
    destruct (stream_Kind s) as [[kn|e|] s'] eqn:E; [by rewrite (Kind_again _ _ _ E)|by eauto|done].
  - intros k hd c r st s Hh Hbh Hp Hwf Hw Hl. pose proof (wf_pos_zlen _ _ _ Hwf) as [_ Hz].
    destruct (empty_head k hd c Hh Hbh Hz) as [H80 HC0].
    unfold decodeNilPtr, fbind, lift at 1.
    rewrite (wrapped_ok _ _ _ _ (peeked_Kind _ _ _ _ _ _ Hp)).
    destruct (negb (bool_decide (k = Byte)) && (zlen c =? 0)) eqn:Hempty.
    + apply andb_true_iff in Hempty as [Hkb Hc0]. apply negb_true_iff, bool_decide_eq_false in Hkb.
      apply Z.eqb_eq, zlen_0_inv in Hc0 as ->. rewrite app_nil_r in *.
      assert (Hhd : hd = if bool_decide (k = String) then [0x80] else [0xC0]).
      { destruct k; [done| |]; naive_solver. }
      assert (Hnil : forall v, nilptr_value nilKind V v -> rlp_spec v = hd ->
                v = INilPtr (bool_decide (nilKind = String)) /\ k = nilKind).
      { intros v [->|(_ & H1 & H2)] He.
        - split; [done|]. destruct k, nilKind; naive_solver.
        - destruct (bool_decide _); naive_solver. }
      destruct (decide (k = nilKind)) as [Hkn|Hkn].
      * eexists (Ok _), (set_kind s None). split; [reflexivity|]. split.
        { rewrite zlen_nil, advance_0. by apply (peeked_ready _ _ _ _ _ _ Hp). }
        intros v. split; [|intros [Hv He]; by destruct (Hnil v Hv He) as [-> _]].
        intros [= <-]. split; [by left|]. subst. destruct nilKind; [done| |]; done.
      * eexists (Err _), s. split; [reflexivity|]. split; [done|]. intros v. split; [done|].
        intros [Hv He]. by destruct (Hnil v Hv He).
    + destruct (Hb k hd c r st s Hh Hbh Hp Hwf Hw Hl) as (o & s' & Hrun & Ho & Hiff).
      exists o, s'. split; [done|]. split; [done|]. intros v. rewrite Hiff.
      assert (Hne : forall K, K <> Byte -> ~ (k = K /\ c = [])).
      { intros K HK [-> ->]. rewrite bool_decide_false in Hempty by done. done. }
      split.
      * intros [Hv He]. split; [right|done]. rewrite He, H80, HC0. naive_solver.
      * intros [[->|[Hv _]] He]; [|done]. exfalso.
        destruct nilKind; [done| |]; simpl in He; symmetry in He.
        -- apply H80 in He. by apply (Hne String).
        -- apply HC0 in He. by apply (Hne List).
  - intros v [->|[Hv _]]; [|by apply Hf]. intros _. destruct nilKind; [done| |].
    + exists String, [0x80], []. split_and!; [done..|]. solve_decidable.
    + exists List, [0xC0], []. split_and!; [done..|]. solve_decidable.
Qed.

Fixpoint iface (v : item) : Prop :=
  match v with
  | IBytes b => bytes_ok b
  | IList l => Forall id (map iface l)
  | _ => False
  end.

Lemma iface_list l : iface (IList l) <-> Forall iface l.
Proof. simpl. rewrite Forall_fmap. done. Qed.
Lemma decodes_iff N V V' d : (forall v, V v <-> V' v) -> decodes N V d -> decodes N V' d.
Proof.
  intros HV [Hk Hb Hf]. split; [done| |intros v Hv; apply Hf; by apply HV].
  intros k hd c r st s. intros. destruct (Hb k hd c r st s) as (o & s' & ? & ? & Hiff); [done..|].
  exists o, s'. split_and!; [done..|]. intros v. by rewrite Hiff, HV.
Qed.

Lemma kind_first_Kind (f : Kind * Z -> fueled item) : kind_first (fbind (lift stream_Kind) f).
Proof.
  apply kind_first_fbind. intros s.
  destruct (stream_Kind s) as [[kn|e|] s'] eqn:E; [by rewrite (Kind_again _ _ _ E)|by eauto|done].
Qed.

Lemma iface_framed v : iface v -> zlen (rlp_spec v) < 2 ^ 47 -> framed (rlp_spec v).
Proof.
  intros Hv Hz. destruct v; try done.
  - apply (decodes_framed _ _ _ (bytes_decodes 0 IBytes Bytes ltac:(done) (kind_first_bind _) Bytes_reads));
      [by eexists|done].
  - by apply list_spec_framed.
Qed.

Lemma interface_decodes f : decodes f iface (decodeInterface (S f)).
Proof.
  induction f as [|f IH]; (split; [apply kind_first_Kind| |apply iface_framed]);
    intros k hd c r st s Hh Hb Hp Hwf Hw Hl; [lia|].
  cbn [decodeInterface]. unfold fbind at 1, lift at 1. rewrite (peeked_Kind _ _ _ _ _ _ Hp).
  pose proof (slice_decodes f iface (decodeInterface (S f)) (S f) IH ltac:(lia)) as Hs.
  pose proof (bytes_decodes (S f) IBytes Bytes ltac:(done) (kind_first_bind _) Bytes_reads) as Hbs.
  pose proof (wf_pos_zlen _ _ _ Hwf) as [_ Hz].
  destruct (decide (k = List)) as [->|Hk].
  - destruct (decodes_body _ _ _ Hs List hd c r st s) as (o & s' & Hrun & Ho & Hiff); [done..|].
    exists o, s'. split; [done|]. split; [done|]. intros v. rewrite Hiff. split.
    + intros [(l & -> & Hv) He]. by rewrite iface_list.
    + intros [Hv He]. destruct v as [| | | | | |b| |l| |]; try done.
      * exfalso. assert (Hc : content List (nth 0 hd 0) c = Some b); [|done].
        apply content_iff; [done| |done|done]. apply Forall_app. split; [done|].
        destruct Hwf as (_ & Hbc & _). by apply Forall_app in Hbc as [? _].
      * split; [|done]. exists l. by rewrite iface_list in Hv.
  - destruct (decodes_body _ _ _ Hbs k hd c r st s) as (o & s' & Hrun & Ho & Hiff); [done..|].
    exists o, s'. split; [by destruct k|]. split; [done|]. intros v. rewrite Hiff. split.
    + intros [(b & -> & Hv) He]. done.
    + intros [Hv He]. destruct v as [| | | | | |b| |l| |]; try done.
      * split; [by exists b|done].
      * exfalso. by apply (list_spec_head k hd c) in He as [? _].
Qed.

(** ** Types *)

(** The values of a type. *)
Fixpoint has_type (t : ty) : item -> Prop :=
  match t with
  | TRaw => fun v => exists b, v = IRaw b /\ raw_ok b
  | TBigInt => fun v => exists i, v = IBigInt i /\ 0 <= i
  | TUint bits => fun v => exists i, v = IUint i /\ 0 <= i < 2 ^ bits
  | TBool => fun v => exists b, v = IBool b /\ True
  | TString => fun v => exists b, v = IString b /\ bytes_ok b
  | TBytes => fun v => exists b, v = IBytes b /\ bytes_ok b
  | TByteArray n => fun v => exists b, v = IByteArray b /\ bytes_ok b /\ length b = n
  | TSlice t => list_value (Forall (has_type t))
  | TArray n t => list_value (fun l => length l = n /\ Forall (has_type t) l)
  | TStruct ts tail =>
      list_value (fun l => exists vs tl, l = vs ++ tl /\
        Forall2 (fun V v => V v) (map has_type ts) vs /\
        match tail with Some t => Forall (has_type t) tl | None => tl = [] end)
  | TPtr t => has_type t
  | TNilPtr k t => nilptr_value k (has_type t)
  | TInterface => iface
  end.

(** Types of Go, without arrays of one byte, on which the decoder need not
    return. *)
Fixpoint ty_ok (t : ty) : bool :=
  match t with
  | TUint bits => (bits =? 8) || (bits =? 16) || (bits =? 32) || (bits =? 64)
  | TByteArray n => negb (Nat.eqb n 1)
  | TSlice t | TArray _ t | TPtr t => ty_ok t
  | TStruct ts tail => forallb ty_ok ts && match tail with Some t => ty_ok t | None => true end
  | TNilPtr k t => negb (bool_decide (k = Byte)) && ty_ok t
  | _ => true
  end.

Section ty_nested_ind.
Context (P : ty -> Prop).
Context (Hleaf : forall t, match t with TSlice _ | TArray _ _ | TStruct _ _ | TPtr _ | TNilPtr _ _ => False
                           | _ => True end -> P t).
Context (Hslice : forall t, P t -> P (TSlice t)) (Harray : forall n t, P t -> P (TArray n t)).
Context (Hptr : forall t, P t -> P (TPtr t)) (Hnil : forall k t, P t -> P (TNilPtr k t)).
Context (Hstruct : forall ts tail, Forall P ts -> (forall t, tail = Some t -> P t) -> P (TStruct ts tail)).

Fixpoint ty_nested_ind (t : ty) : P t.
Proof.
  destruct t as [| | | | | | |t|n t|ts tail|t|k t|]; try (by apply Hleaf).
  - apply Hslice, ty_nested_ind.
  - apply Harray, ty_nested_ind.
  - apply Hstruct.
    + induction ts as [|t ts IH]; constructor; [apply ty_nested_ind|apply IH].
    + destruct tail as [t|]; intros t' Ht; [injection Ht as <-; apply ty_nested_ind|discriminate Ht].
  - apply Hptr, ty_nested_ind.
  - apply Hnil, ty_nested_ind.
Qed.
End ty_nested_ind.

Lemma nil_reads N : reads_elems N (fun l => l = []) (lift (mret [])).
Proof.
  intros c r z st s Hin _. exists (Ok []), s. split; [done|]. split; [|by intros l ->].
  split; [done|]. by exists c.
Qed.

Lemma decode_decodes f t : ty_ok t = true -> decodes f (has_type t) (decode (S f) t).
Proof.
  induction t as [t Hleaf|t IH|n t IH|t IH|k t IH|ts tail IHts IHt] using ty_nested_ind;
    cbn [ty_ok]; intros Hok.
  - destruct t; try done; cbn [decode has_type].
    + apply raw_decodes.
    + apply bigint_decodes.
    + cbn [ty_ok] in Hok. rewrite !orb_true_iff, !Z.eqb_eq in Hok.
      destruct Hok as [[[->| ->]| ->]| ->]; by apply uint_decodes.
    + apply bool_decodes.
    + apply bytes_decodes; [done|apply kind_first_wrapped, kind_first_bind|
        apply reads_string_wrapped, Bytes_reads].
    + apply bytes_decodes; [done|apply kind_first_wrapped, kind_first_bind|
        apply reads_string_wrapped, Bytes_reads].
    + apply bytearray_decodes. cbn [ty_ok] in Hok. by intros ->.
    + apply interface_decodes.
  - eapply decodes_mono; [|apply slice_decodes; [by apply IH|]]; lia.
  - by apply array_decodes, IH.
  - by apply IH.
  - apply andb_true_iff in Hok as [Hk Hok]. apply nilptr_decodes; [|by apply IH].
    by intros ->.
  - apply andb_true_iff in Hok as [Hts Ht]. cbn [decode has_type]. apply struct_decodes.
    + rewrite Forall2_fmap. apply Forall_Forall2_diag. apply Forall_forall. intros t Hin.
      rewrite Forall_forall in IHts. apply IHts; [done|].
      rewrite forallb_forall in Hts. apply Hts. by apply list_elem_of_In.
    + destruct tail as [t|]; [|apply nil_reads]. apply tail_reads; [by apply IHt|lia].
Qed.

Lemma Reset_ready pooled b : ready b [] (Reset pooled b true (zlen b)).
Proof.
  unfold Reset, ready. pose proof (zlen_nonneg b). by destruct (Z.gtb_spec (zlen b) 0).
Qed.

Lemma DecodeBytes_spec fuel pooled b t :
  ty_ok t = true -> bytes_ok b -> zlen b < 2 ^ 47 -> (length b < fuel)%nat ->
  exists o, DecodeBytes fuel pooled b t = Some o /\ o <> Panic /\
    forall v, o = Ok v <-> has_type t v /\ rlp_spec v = b.
Proof.
  intros Ht Hb Hz Hf. destruct fuel as [|f]; [lia|].
  assert (Hwf : wf_pos [] b).
  { unfold wf_pos. simpl. pose proof (zlen_nonneg b). split_and!; done || lia. }
  destruct (decodes_ready _ _ _ _ _ _ (decode_decodes f t Ht) (Reset_ready pooled b) Hwf)
    as (o & s' & Hrun & Ho & Hcomp); [by intros [? _]|simpl; unfold zlen; lia|].
  unfold DecodeBytes. rewrite Hrun. simpl window in *. destruct o as [v|e|]; [|exists (Err e)|done].
  - destruct Ho as (l & Hl & Hv & Hzl & Hr & _). rewrite Hr.
    destruct (Z.gtb_spec (zlen l) 0) as [Hl0|Hl0]; eexists; (split; [done|]); (split; [done|]); intros v'; split; try done.
    + intros [Hv' He]. pose proof (Hcomp v' [] Hv') as Hc. rewrite He, app_nil_r in Hc.
      specialize (Hc eq_refl ltac:(lia)) as [= ->]. rewrite He in Hl.
      rewrite <- (app_nil_r b) in Hl at 1. apply app_inv_head in Hl. by subst l.
    + intros [= <-]. pose proof (zlen_nonneg l). rewrite (zlen_0_inv l) in Hl by lia.
      by rewrite app_nil_r in Hl.
    + intros [Hv' He]. pose proof (Hcomp v' [] Hv') as Hc. rewrite He, app_nil_r in Hc.
      by specialize (Hc eq_refl ltac:(lia)) as [= ->].
  - split_and!; [done..|]. intros v. split; [done|]. intros [Hv He].
    pose proof (Hcomp v [] Hv) as Hc. rewrite He, app_nil_r in Hc. by specialize (Hc eq_refl ltac:(lia)).
Qed.
(** ** Decoding against the encoder *)

(** C32. [DecodeBytes] accepts exactly the canonical encodings of the values of
    the type: it returns [v] if and only if [v] is a value of the type and the
    whole input is its encoding.  It always returns, and never panics, with
    fuel for one round per input byte.  The type has no array of one byte in
    it, and the input is shorter than 2^47 bytes. *)
Theorem DecodeBytes_correct (fuel : nat) (pooled : Stream) (b : list Z) (t : ty) :
  ty_ok t = true -> bytes_ok b -> zlen b < 2 ^ 47 -> (length b < fuel)%nat ->
  exists o, DecodeBytes fuel pooled b t = Some o /\ o <> Panic /\
    forall v, o = Ok v <-> has_type t v /\ rlp_spec v = b.
Proof. apply DecodeBytes_spec. Qed.

Definition idle_stream : Stream := MkStream [] 0 false None 0 0 None [].

Definition sample_type : ty := TStruct [TUint 64; TSlice TBytes; TNilPtr String (TByteArray 2)] (Some TBigInt).
Definition sample_input : list Z := [200; 130; 4; 0; 193; 7; 128; 9; 10].

Lemma DecodeBytes_correct_witness :
  DecodeBytes 10 idle_stream sample_input sample_type =
    Some (Ok (IList [IUint 1024; IList [IBytes [7]]; INilPtr true; IBigInt 9; IBigInt 10])) /\
  rlp_spec (IList [IUint 1024; IList [IBytes [7]]; INilPtr true; IBigInt 9; IBigInt 10]) = sample_input.
Proof.
  split; [reflexivity|].
  destruct (DecodeBytes_correct 10 idle_stream sample_input sample_type) as (o & Ho & _ & Hiff);
    [reflexivity|solve_decidable|reflexivity|vm_compute; lia|].
  vm_compute in Ho. injection Ho as <-. by apply Hiff.
Defined.

Lemma has_type_Forall V l :
  Forall (fun v => V v -> item_ok v /\ nonneg_ints v = true) l -> Forall V l ->
  Forall id (map item_ok l) /\ forallb nonneg_ints l = true.
Proof.
  intros Hall HV. induction Hall as [|v l Hv Hall IH]; simpl; [done|].
  apply Forall_cons in HV as [HVv HV]. destruct (Hv HVv) as [? ->]. destruct (IH HV) as [? ->].
  by split; [constructor|].
Qed.

(** Decodable values are values that the encoder accepts. *)
Lemma iface_ok v : iface v -> item_ok v /\ nonneg_ints v = true.
Proof.
  induction v as [l IH|v Hleaf] using item_nested_ind.
  - rewrite iface_list. simpl. by apply has_type_Forall.
  - destruct v; try done. by destruct (Hleaf l).
Qed.

Lemma has_type_ok t v : ty_ok t = true -> has_type t v -> item_ok v /\ nonneg_ints v = true.
Proof.
  revert v. induction t as [t Hleaf|t IH|n t IH|t IH|k t IH|ts tail IHts IHt] using ty_nested_ind;
    intros v; cbn [ty_ok has_type]; intros Hok.
  - destruct t; try done; cbn [has_type]; [..|apply iface_ok].
    all: intros (x & -> & Hx); simpl; try naive_solver.
    + split; [apply Hx|done].
    + split; [done|]. by apply Z.leb_le.
    + split; [|done]. cbn [ty_ok] in Hok. rewrite !orb_true_iff, !Z.eqb_eq in Hok. unfold is_u64.
      destruct Hok as [[[->| ->]| ->]| ->]; lia.
  - intros (l & -> & Hl). simpl. apply (has_type_Forall (has_type t)); [|done].
    apply Forall_forall. intros v _ Hv. by apply IH.
  - intros (l & -> & _ & Hl). simpl. apply (has_type_Forall (has_type t)); [|done].
    apply Forall_forall. intros v _ Hv. by apply IH.
  - by apply IH.
  - apply andb_true_iff in Hok as [_ Hok]. intros [->|[Hv _]]; [done|by apply IH].
  - apply andb_true_iff in Hok as [Hts Ht]. intros (l & -> & vs & tl & -> & Hvs & Htl). simpl.
    rewrite map_app, forallb_app.
    assert (Hv1 : Forall id (map item_ok vs) /\ forallb nonneg_ints vs = true).
    { clear -Hvs IHts Hts. revert vs Hvs. induction IHts as [|t ts Ht Hall IH]; simpl; intros vs Hvs.
      - by apply Forall2_nil_inv_l in Hvs as ->.
      - simpl in Hts. apply andb_true_iff in Hts as [Hok Hts].
        apply Forall2_cons_inv_l in Hvs as (v & vs' & Hv & Hvs & ->). simpl.
        destruct (Ht v Hok Hv) as [? ->]. destruct (IH Hts vs' Hvs) as [? ->].
        by split; [constructor|]. }
    assert (Hv2 : Forall id (map item_ok tl) /\ forallb nonneg_ints tl = true).
    { destruct tail as [t|]; [|by subst]. apply (has_type_Forall (has_type t)); [|done].
      apply Forall_forall. intros v _ Hv. by apply (IHt t eq_refl). }
    destruct Hv1 as [? ->], Hv2 as [? ->]. split; [|done]. by apply Forall_app.
Qed.

Lemma has_type_top t v : has_type t v -> v <> INilInterface.
Proof.
  revert v. induction t; intros v Hv ->; cbn [has_type] in Hv; try done; try (by destruct Hv as (? & ? & _)).
  - by apply (IHt INilInterface).
  - destruct Hv as [Hv|[Hv _]]; [done|by apply (IHt INilInterface)].
Qed.

(** C34. Every value of a decodable type, one without arrays of one byte,
    survives the round trip through [EncodeToBytes] and [DecodeBytes], whatever
    the pools hand out.  The values are those that [has_type] lists: a pointer
    is nil only under a nil tag and then does not point to a value that is
    encoded like nil, and a raw value is itself one encoding. *)
Theorem Encode_Decode (t : ty) (v : item) (pooled : encbuf) (stream : Stream) :
  ty_ok t = true -> has_type t v -> zlen (rlp_spec v) < 2 ^ 47 -> zlen (sizebuf pooled) = 9 ->
  exists b, EncodeToBytes v pooled = Ok b /\
    DecodeBytes (S (length b)) stream b t = Some (Ok v).
Proof.
  intros Ht Hv Hz Hsb. exists (rlp_spec v). destruct (has_type_ok t v Ht Hv) as [Hok Hnn].
  pose proof (rlp_spec_ok v Hok ltac:(lia)) as Hb.
  rewrite EncodeToBytes_spec, Hnn by (done || lia || by eapply has_type_top). split; [done|].
  destruct (DecodeBytes_spec (S (length (rlp_spec v))) stream (rlp_spec v) t) as (o & -> & _ & Hiff);
    [done..|lia|]. f_equal. by apply Hiff.
Qed.

Lemma Encode_Decode_witness :
  exists b, EncodeToBytes (IList [IUint 1024; IBytes [7]]) new_encbuf = Ok b /\
    DecodeBytes (S (length b)) idle_stream b (TStruct [TUint 64; TBytes] None) =
      Some (Ok (IList [IUint 1024; IBytes [7]])).
Proof.
  apply Encode_Decode; [reflexivity| |reflexivity|reflexivity].
  eexists. split; [reflexivity|]. exists [IUint 1024; IBytes [7]], []. split; [reflexivity|].
  split; [|reflexivity]. constructor; [|constructor; [|constructor]].
  - exists 1024. split; [reflexivity|lia].
  - exists [7]. split; [reflexivity|solve_decidable].
Defined.

(** ** Arrays of one byte *)

(** The state in which [decodeByteArray] leaves a stream at a zero byte. *)
Definition at_zero_byte (s : Stream) : Prop :=
  s_kind s = Some Byte /\ s_kinderr s = None /\ s_byteval s = 0.

Lemma decodeByteArray_zero s :
  at_zero_byte s -> decodeByteArray 1 s = (Ok (IByteArray [0]), s).
Proof.
  intros (Hk & He & Hb).
  assert (HK : stream_Kind s = (Ok (Byte, s_size s), s)).
  { unfold stream_Kind, kind_result. by rewrite Hk, He. }
  unfold decodeByteArray. rewrite SM_bind_eq, HK. unfold on_stream, stream_uint.
  rewrite SM_bind_eq, HK, SM_bind_eq. unfold gets. rewrite Hb. done.
Qed.

Lemma decodeSliceElems_zero fuel acc s :
  at_zero_byte s -> decodeSliceElems fuel (lift (decodeByteArray 1)) acc s = None.
Proof.
  intros Hs. revert acc. induction fuel as [|fuel IH]; intros acc; [done|].
  simpl. unfold lift at 1. by rewrite (decodeByteArray_zero s Hs), IH.
Qed.

Lemma inside_zero_loops fuel rest r z st s :
  inside (0 :: rest) r z st s ->
  decodeSliceElems fuel (lift (decodeByteArray 1)) [] s = None.
Proof.
  intros [Hs Hwf]. destruct fuel as [|fuel]; [done|].
  assert (Hw : window (ListPos (z - zlen (0 :: rest)) z :: st) ((0 :: rest) ++ r) = 1 + zlen rest).
  { simpl. rewrite zlen_cons. lia. }
  pose proof (zlen_nonneg rest).
  pose proof (Kind_spec _ _ _ Hs Hwf) as HK.
  rewrite visible_app in HK by (done || rewrite Hw, zlen_cons; lia). simpl peek in HK.
  destruct HK as (hd & r' & s1 & Hr & Hhd & _ & _ & _ & HK & Hp); [intros [_ H0]; lia|].
  apply zlen_1_inv in Hhd as [x ->]. injection Hr as <- _.
  pose proof (kind_first_lift _ (kind_first_bind _ : kind_first_SM (decodeByteArray 1)) s) as Hkf.
  rewrite HK in Hkf. assert (Hz : at_zero_byte s1).
  { destruct Hp as (_ & _ & _ & _ & ? & _ & ? & Hbv). split_and!; [done..|by apply Hbv]. }
  cbn [decodeSliceElems]. rewrite <- Hkf. unfold lift at 1.
  by rewrite (decodeByteArray_zero s1 Hz), decodeSliceElems_zero.
Qed.

(** Decoding into a slice of one-byte arrays does not terminate when the
    first element is the zero byte: [decodeByteArray] drops the error of
    [s.Uint()], which refuses a zero byte without consuming it, so that every
    round of [decodeSliceElems] reads the same byte again. *)
Theorem decodeByteArray_loops (fuel : nat) (pooled : Stream) (rest : list Z) :
  zlen rest < 55 -> bytes_ok rest ->
  DecodeBytes fuel pooled (193 + zlen rest :: 0 :: rest) (TSlice (TByteArray 1)) = None.
Proof.
  intros Hr Hb. set (b := 193 + zlen rest :: 0 :: rest). pose proof (zlen_nonneg rest).
  assert (Hbz : zlen b = 2 + zlen rest) by (subst b; rewrite !zlen_cons; lia).
  assert (Hwf : wf_pos [] b).
  { unfold wf_pos. simpl. split_and!; try (done || lia).
    constructor; [unfold is_byte; lia|]. constructor; [unfold is_byte; lia|done]. }
  assert (Hpeek : peek (visible [] b) = Some (List, 1, 1 + zlen rest)).
  { pose proof (peek_complete List [193 + zlen rest] (0 :: rest) []) as Hp.
    rewrite zlen_cons in Hp. change (zlen [193 + zlen rest]) with 1 in Hp. rewrite app_nil_r in Hp.
    unfold visible. simpl window. rewrite take_ge by (unfold zlen; lia). apply Hp.
    - apply Forall_singleton. unfold is_byte. lia.
    - unfold is_u64. lia.
    - simpl. rewrite zlen_head_small by lia. f_equal. lia. }
  pose proof (Kind_spec _ _ _ (Reset_ready pooled b) Hwf) as HK. rewrite Hpeek in HK.
  destruct HK as (hd & r' & s1 & Hbr & Hhd & _ & _ & _ & HK & Hp); [by intros [? _]|].
  apply zlen_1_inv in Hhd as [x ->]. injection Hbr as <- <-. rewrite <- (zlen_cons 0) in Hp.
  unfold DecodeBytes. cbn [decode].
  pose proof (kind_first_list (fun size =>
    if size =? 0 then fbind (lift ListEnd) (fun _ => lift (mret (IList [])))
    else fbind (decodeSliceElems fuel (lift (decodeByteArray 1)) []) (fun l =>
        fbind (lift ListEnd) (fun _ => lift (mret (IList l))))) (Reset pooled b true (zlen b))) as Hkf.
  rewrite HK in Hkf. unfold decodeListSlice. rewrite <- Hkf.
  rewrite <- (app_nil_r (0 :: rest)) in Hp at 2.
  destruct (list_entered _ _ _ _ _ Hp) as (s2 & Hin & ->).
  { rewrite app_nil_r. apply (wf_pos_advance [] [193 + zlen rest]); [done|].
    change (1 <= zlen b). lia. }
  rewrite zlen_cons, (proj2 (Z.eqb_neq _ 0)) by lia. unfold fbind at 1.
  by rewrite (inside_zero_loops _ _ _ _ _ _ Hin).
Qed.

Lemma decodeByteArray_loops_witness :
  DecodeBytes 1000 idle_stream [193; 0] (TSlice (TByteArray 1)) = None.
Proof. apply (decodeByteArray_loops 1000 idle_stream []); [reflexivity|solve_decidable]. Defined.
