(* ===== verification/TrieEncoding.v ===== *)
(** * Key encodings of the trie (src/trie/encoding.go)

    Keys occur as bytes, as nibbles with an optional terminator (hex) and in
    the compact form that is stored.  The file shows that the conversions
    invert each other and that the in-place conversion, which overwrites the
    buffer it reads, computes the same compact key. *)
From stdpp Require Import prelude list.
From Stdlib Require Import ZArith Lia.
From S2P Require Import Prelude.

Definition hasTerm (s : list Z) : bool :=
  (zlen s >? 0) && (default 0 (last s) =? 16).

(** The loop of [decodeNibbles]; two nibbles per round. *)
Fixpoint decodeNibbles_loop (fuel : nat) (nibbles bytes : list Z) (bi ni : Z) : go (list Z) :=
  if ni <? zlen nibbles then
    match fuel with
    | O => Panic
    | S fuel =>
        n0 ← idx nibbles ni;
        n1 ← idx nibbles (ni + 1);
        bytes ← upd bytes bi (Z.lor (u8 (Z.shiftl n0 4)) n1);
        decodeNibbles_loop fuel nibbles bytes (bi + 1) (ni + 2)
    end
  else Ok bytes.

Definition decodeNibbles (nibbles bytes : list Z) : go (list Z) :=
  decodeNibbles_loop (length nibbles) nibbles bytes 0 0.

Definition hexToCompact (hex : list Z) : go (list Z) :=
  let terminator := if hasTerm hex then 1 else 0 in
  hex ← (if hasTerm hex then slice hex 0 (zlen hex - 1) else Ok hex);
  let buf := replicate (Z.to_nat (zlen hex / 2 + 1)) 0 in
  buf ← upd buf 0 (u8 (Z.shiftl terminator 5));
  '(buf, hex) ←
    (if Z.land (zlen hex) 1 =? 1 then
       b0 ← idx buf 0;
       buf ← upd buf 0 (Z.lor b0 (Z.shiftl 1 4));
       b0 ← idx buf 0;
       h0 ← idx hex 0;
       buf ← upd buf 0 (Z.lor b0 h0);
       hex ← slice_from hex 1;
       Ok (buf, hex)
     else Ok (buf, hex));
  tl ← slice_from buf 1;
  tl ← decodeNibbles hex tl;
  Ok (take 1 buf ++ tl).

(** The loop of [hexToCompactInPlace]: reads and writes the same buffer. *)
Fixpoint inPlace_loop (fuel : nat) (hex : list Z) (hexLen bi ni : Z) : go (list Z) :=
  if ni <? hexLen then
    match fuel with
    | O => Panic
    | S fuel =>
        n0 ← idx hex ni;
        n1 ← idx hex (ni + 1);
        hex ← upd hex bi (Z.lor (u8 (Z.shiftl n0 4)) n1);
        inPlace_loop fuel hex hexLen (bi + 1) (ni + 2)
    end
  else Ok hex.

(** The buffer afterwards, and the length of the compact key in it. *)
Definition hexToCompactInPlace (hex : list Z) : go (list Z * Z) :=
  '(hexLen, firstByte) ←
    (if zlen hex >? 0 then
       l ← idx hex (zlen hex - 1);
       if l =? 16 then Ok (zlen hex - 1, Z.shiftl 1 5) else Ok (zlen hex, 0)
     else Ok (zlen hex, 0));
  let binLen := hexLen / 2 + 1 in
  '(firstByte, ni) ←
    (if Z.land hexLen 1 =? 1 then
       h0 ← idx hex 0;
       Ok (Z.lor (Z.lor firstByte (Z.shiftl 1 4)) h0, 1)
     else Ok (firstByte, 0));
  hex ← inPlace_loop (length hex) hex hexLen 1 ni;
  hex ← upd hex 0 firstByte;
  Ok (hex, binLen).

Fixpoint keybytesToHex_loop (str : list Z) (i : Z) (nibbles : list Z) : go (list Z) :=
  match str with
  | [] => Ok nibbles
  | b :: str =>
      nibbles ← upd nibbles (i * 2) (b / 16);
      nibbles ← upd nibbles (i * 2 + 1) (b mod 16);
      keybytesToHex_loop str (i + 1) nibbles
  end.

Definition keybytesToHex (str : list Z) : go (list Z) :=
  let l := zlen str * 2 + 1 in
  nibbles ← keybytesToHex_loop str 0 (replicate (Z.to_nat l) 0);
  upd nibbles (l - 1) 16.

Definition compactToHex (compact : list Z) : go (list Z) :=
  if zlen compact =? 0 then Ok compact
  else
    base ← keybytesToHex compact;
    b0 ← idx base 0;
    base ← (if b0 <? 2 then slice base 0 (zlen base - 1) else Ok base);
    b0 ← idx base 0;
    slice_from base (u8 (2 - Z.land b0 1)).

Definition hexToKeybytes (hex : list Z) : go (list Z) :=
  hex ← (if hasTerm hex then slice hex 0 (zlen hex - 1) else Ok hex);
  if negb (Z.land (zlen hex) 1 =? 0) then Panic
  else decodeNibbles hex (replicate (Z.to_nat (zlen hex / 2)) 0).

(** The loop of [prefixLen] from index [i] on, over the two suffixes. *)
Fixpoint prefixLen_loop (a b : list Z) (i : Z) : Z :=
  match a, b with
  | x :: a, y :: b => if x =? y then prefixLen_loop a b (i + 1) else i
  | _, _ => i
  end.

Definition prefixLen (a b : list Z) : Z := prefixLen_loop a b 0.
(** ** Nibbles *)

Definition is_nibble (x : Z) : Prop := 0 <= x < 16.
#[global] Instance is_nibble_dec x : Decision (is_nibble x).
Proof. unfold is_nibble. apply _. Defined.

(** A list of nibble pairs, as nibbles and as bytes. *)
Definition flat (ps : list (Z * Z)) : list Z := concat (map (fun p => [p.1; p.2]) ps).
Definition pack (ps : list (Z * Z)) : list Z := map (fun p => 16 * p.1 + p.2) ps.
Definition unpack (bs : list Z) : list (Z * Z) := map (fun b => (b / 16, b mod 16)) bs.

Definition pairs_ok (ps : list (Z * Z)) : Prop := Forall (fun p => is_nibble p.1 /\ is_nibble p.2) ps.

(** Nibbles come in pairs behind at most one single nibble. *)
Lemma nibbles_pairs (l : list Z) :
  Forall is_nibble l ->
  exists ps, pairs_ok ps /\ (l = flat ps \/ exists x, is_nibble x /\ l = x :: flat ps).
Proof.
  induction l as [|x l IH]; intros Hl; [by exists []; split; [constructor|left]|].
  apply Forall_cons in Hl as [Hx Hl]. destruct (IH Hl) as (ps & Hps & [->|(y & Hy & ->)]).
  - exists ps. split; [done|]. right. eauto.
  - exists ((x, y) :: ps). split; [by constructor|]. by left.
Qed.

Lemma zlen_flat ps : zlen (flat ps) = 2 * zlen ps.
Proof. induction ps as [|p ps IH]; [done|]. unfold flat in *. simpl. rewrite !zlen_cons, IH. lia. Qed.
Lemma zlen_pack ps : zlen (pack ps) = zlen ps.
Proof. unfold zlen, pack. by rewrite length_map. Qed.
Lemma flat_nibbles ps : pairs_ok ps -> Forall is_nibble (flat ps).
Proof. induction 1 as [|p ps [? ?] _ IH]; [constructor|]. unfold flat in *. simpl. by rewrite !Forall_cons. Qed.
Lemma pack_bytes ps : pairs_ok ps -> bytes_ok (pack ps).
Proof.
  unfold pack. intros Hp. rewrite Forall_fmap. eapply Forall_impl; [done|].
  unfold is_nibble, is_byte. simpl. intros p ?. lia.
Qed.
Lemma unpack_pack ps : pairs_ok ps -> unpack (pack ps) = ps.
Proof.
  induction 1 as [|[a b] ps [Ha Hb] _ IH]; [done|]. unfold is_nibble in *. simpl in *. rewrite IH.
  do 2 f_equal; Z.div_mod_to_equations; lia.
Qed.
Lemma pack_unpack bs : pack (unpack bs) = bs.
Proof. induction bs as [|b bs IH]; [done|]. simpl. rewrite IH. f_equal. Z.div_mod_to_equations; lia. Qed.
Lemma unpack_ok bs : bytes_ok bs -> pairs_ok (unpack bs).
Proof.
  unfold unpack, pairs_ok. intros Hb. rewrite Forall_fmap. eapply Forall_impl; [done|].
  unfold is_nibble, is_byte. simpl. intros b ?. Z.div_mod_to_equations; lia.
Qed.

Lemma nibble_lor a b : is_nibble a -> is_nibble b -> Z.lor (u8 (Z.shiftl a 4)) b = 16 * a + b.
Proof.
  unfold is_nibble. intros Ha Hb. rewrite Z.shiftl_mul_pow2 by lia. change (2 ^ 4) with 16.
  rewrite u8_small by (unfold is_byte; lia).
  rewrite (lor_add _ _ 4) by (change (2 ^ 4) with 16; Z.div_mod_to_equations; lia). lia.
Qed.

Lemma decodeNibbles_loop_spec ps fuel dn pre old suf :
  pairs_ok ps -> length old = length ps -> (length ps <= fuel)%nat ->
  decodeNibbles_loop fuel (dn ++ flat ps) (pre ++ old ++ suf) (zlen pre) (zlen dn) =
  Ok (pre ++ pack ps ++ suf).
Proof.
  intros Hps. revert fuel dn pre old. induction Hps as [|[a b] ps [Ha Hb] _ IH]; intros fuel dn pre old Hl Hf.
  - destruct old; [|done]. simpl. rewrite app_nil_r. destruct fuel; simpl; by rewrite Z.ltb_irrefl.
  - destruct old as [|o old]; [done|]. destruct fuel as [|fuel]; [simpl in Hf; lia|]. simpl in *.
    change (flat ((a, b) :: ps)) with (a :: b :: flat ps).
    rewrite zlen_app, !zlen_cons. pose proof (zlen_nonneg dn); pose proof (zlen_nonneg (flat ps)).
    rewrite (proj2 (Z.ltb_lt _ _)) by lia. rewrite idx_app. bind_simpl.
    replace (dn ++ a :: b :: flat ps) with ((dn ++ [a]) ++ b :: flat ps) by (by rewrite <- app_assoc).
    replace (zlen dn + 1) with (zlen (dn ++ [a])) by (by rewrite zlen_app).
    rewrite idx_app. bind_simpl. rewrite upd_app. bind_simpl. rewrite nibble_lor by done.
    replace ((dn ++ [a]) ++ b :: flat ps) with ((dn ++ [a; b]) ++ flat ps) by (by rewrite <- !app_assoc).
    replace (pre ++ 16 * a + b :: old ++ suf) with ((pre ++ [16 * a + b]) ++ old ++ suf) by (by rewrite <- app_assoc).
    replace (zlen pre + 1) with (zlen (pre ++ [16 * a + b])) by (by rewrite zlen_app).
    replace (zlen dn + 2) with (zlen (dn ++ [a; b])) by (by rewrite zlen_app).
    rewrite IH by lia. by rewrite <- app_assoc.
Qed.

Lemma decodeNibbles_spec ps old :
  pairs_ok ps -> length old = length ps -> decodeNibbles (flat ps) old = Ok (pack ps).
Proof.
  intros Hps Hl. unfold decodeNibbles.
  pose proof (decodeNibbles_loop_spec ps (length (flat ps)) [] [] old [] Hps Hl) as H.
  simpl in H. rewrite !app_nil_r in H. apply H. pose proof (zlen_flat ps). unfold zlen in *. lia.
Qed.

(** A decodable hex key: nibbles and the terminator flag. *)
Definition term (t : bool) : list Z := if t then [16] else [].
Definition hex_ok (h : list Z) : Prop := exists ns t, h = ns ++ term t /\ Forall is_nibble ns.

Lemma hasTerm_spec ns t : Forall is_nibble ns -> hasTerm (ns ++ term t) = t.
Proof.
  intros Hn. unfold hasTerm. destruct t; simpl.
  - rewrite zlen_app, last_snoc. change (zlen [16]) with 1. pose proof (zlen_nonneg ns).
    by rewrite Z.gtb_ltb, (proj2 (Z.ltb_lt _ _)) by lia.
  - rewrite app_nil_r. destruct (last ns) as [x|] eqn:Hl; simpl; [|by rewrite andb_false_r].
    assert (is_nibble x) as Hx.
    { apply last_Some in Hl as [l ->]. apply Forall_app in Hn as [_ Hn]. by rewrite Forall_singleton in Hn. }
    unfold is_nibble in Hx. by rewrite (proj2 (Z.eqb_neq x 16)), andb_false_r by lia.
Qed.

Lemma slice_term {E} (ns : list Z) (t : bool) :
  (if t then slice (ns ++ term t) 0 (zlen (ns ++ term t) - 1) else Ok (ns ++ term t)) = (Ok ns : outcome E _).
Proof.
  destruct t; simpl; [|by rewrite app_nil_r]. rewrite zlen_app. change (zlen [16]) with 1.
  replace (zlen ns + 1 - 1) with (0 + zlen ns) by lia. apply (@slice_app E Z [] ns [16]).
Qed.
(** ** The compact form *)

(** Hex-prefix encoding: the flag byte, with the first nibble when their
    number is odd, and the other nibbles in pairs. *)
Definition hex_of (single : option Z) (ps : list (Z * Z)) : list Z :=
  match single with Some x => x :: flat ps | None => flat ps end.
Definition flag_byte (single : option Z) (t : bool) : Z :=
  (if t then 32 else 0) + match single with Some x => 16 + x | None => 0 end.
Definition single_ok (single : option Z) : Prop := forall x, single = Some x -> is_nibble x.

Lemma hex_ok_iff h :
  hex_ok h <-> exists single ps t, h = hex_of single ps ++ term t /\ single_ok single /\ pairs_ok ps.
Proof.
  split.
  - intros (ns & t & -> & Hn). destruct (nibbles_pairs ns Hn) as (ps & Hps & [->|(x & Hx & ->)]).
    + by exists None, ps, t.
    + exists (Some x), ps, t. split_and!; try done. by intros ? [= <-].
  - intros (single & ps & t & -> & Hs & Hps). exists (hex_of single ps), t. split; [done|].
    destruct single as [x|]; simpl; [constructor; [by apply Hs|]|]; by apply flat_nibbles.
Qed.

Lemma hex_of_nibbles single ps : single_ok single -> pairs_ok ps -> Forall is_nibble (hex_of single ps).
Proof.
  intros Hs Hps. destruct single as [x|]; simpl; [constructor; [by apply Hs|]|]; by apply flat_nibbles.
Qed.

Lemma land_1_even n : Z.land (2 * n) 1 = 0.
Proof. change 1 with (Z.ones 1). rewrite Z.land_ones by lia. change (2 ^ 1) with 2. Z.div_mod_to_equations; lia. Qed.
Lemma land_1_odd n : Z.land (1 + 2 * n) 1 = 1.
Proof. change 1 with (Z.ones 1) at 2. rewrite Z.land_ones by lia. change (2 ^ 1) with 2. Z.div_mod_to_equations; lia. Qed.

Lemma flag_lor t x :
  is_nibble x -> Z.lor (Z.lor (if t : bool then 32 else 0) (Z.shiftl 1 4)) x = (if t then 32 else 0) + (16 + x).
Proof.
  unfold is_nibble. intros Hx. change (Z.shiftl 1 4) with 16.
  replace (Z.lor (if t then 32 else 0) 16) with (if t then 48 else 16) by by destruct t.
  rewrite (lor_add _ _ 4) by (change (2 ^ 4) with 16; destruct t; done || lia). destruct t; lia.
Qed.

Lemma hexToCompact_spec single ps t :
  single_ok single -> pairs_ok ps ->
  hexToCompact (hex_of single ps ++ term t) = Ok (flag_byte single t :: pack ps).
Proof.
  intros Hs Hps. pose proof (hex_of_nibbles _ _ Hs Hps) as Hn.
  unfold hexToCompact. rewrite hasTerm_spec, slice_term by done. bind_simpl.
  pose proof (zlen_flat ps) as Hf. pose proof (zlen_nonneg ps).
  assert (Hz : zlen (hex_of single ps) / 2 = zlen ps).
  { destruct single; simpl; rewrite ?zlen_cons, Hf; Z.div_mod_to_equations; lia. }
  rewrite Hz, Z2Nat.inj_add by lia. rewrite Nat.add_comm.
  change (replicate (Z.to_nat 1 + Z.to_nat (zlen ps)) 0) with (0 :: replicate (Z.to_nat (zlen ps)) 0).
  rewrite upd_0. bind_simpl.
  replace (u8 (Z.shiftl (if t then 1 else 0) 5)) with (if t then 32 else 0) by by destruct t.
  assert (Hend : forall b0, ('(buf, hex) ← Ok (b0 :: replicate (Z.to_nat (zlen ps)) 0, flat ps);
     tl ← slice_from buf 1; tl ← decodeNibbles hex tl; Ok (take 1 buf ++ tl)) =
     (Ok (b0 :: pack ps) : go (list Z))).
  { intros b0. bind_simpl. rewrite slice_from_1. bind_simpl.
    rewrite decodeNibbles_spec; [done|done|]. rewrite length_replicate. unfold zlen. lia. }
  unfold flag_byte. destruct single as [x|]; simpl hex_of.
  - rewrite zlen_cons, Hf, land_1_odd. simpl Z.eqb. cbv iota.
    rewrite !idx_0. bind_simpl. rewrite upd_0. bind_simpl.
    rewrite !idx_0. bind_simpl. rewrite upd_0. bind_simpl. rewrite slice_from_1. bind_simpl.
    rewrite flag_lor by (by apply Hs). apply Hend.
  - rewrite Hf, land_1_even. simpl Z.eqb. cbv iota. rewrite Z.add_0_r. apply Hend.
Qed.

Lemma keybytesToHex_loop_spec str pre old suf :
  length old = (2 * length str)%nat -> zlen pre mod 2 = 0 ->
  keybytesToHex_loop str (zlen pre / 2) (pre ++ old ++ suf) = Ok (pre ++ flat (unpack str) ++ suf).
Proof.
  revert pre old. induction str as [|b str IH]; intros pre old Hl Hp.
  { destruct old; [|done]. done. }
  destruct old as [|o1 [|o2 old]]; simpl in Hl; [lia|lia|]. simpl.
  replace (zlen pre / 2 * 2) with (zlen pre) by (Z.div_mod_to_equations; lia).
  rewrite upd_app. bind_simpl.
  replace (zlen pre + 1) with (zlen (pre ++ [b / 16])) by (by rewrite zlen_app).
  replace (pre ++ b / 16 :: o2 :: old ++ suf) with ((pre ++ [b / 16]) ++ o2 :: old ++ suf) by (by rewrite <- app_assoc).
  rewrite upd_app. bind_simpl.
  replace (zlen pre / 2 + 1) with (zlen (pre ++ [b / 16; b mod 16]) / 2).
  2:{ rewrite zlen_app. change (zlen [b / 16; b mod 16]) with (1 * 2). by rewrite Z.div_add by lia. }
  replace ((pre ++ [b / 16]) ++ b mod 16 :: old ++ suf) with ((pre ++ [b / 16; b mod 16]) ++ old ++ suf)
    by (by rewrite <- !app_assoc).
  rewrite IH; [by rewrite <- app_assoc|lia|].
  rewrite zlen_app. change (zlen [b / 16; b mod 16]) with (1 * 2). by rewrite Z.mod_add by lia.
Qed.

Lemma keybytesToHex_spec str : keybytesToHex str = Ok (flat (unpack str) ++ [16]).
Proof.
  unfold keybytesToHex. pose proof (zlen_nonneg str).
  replace (Z.to_nat (zlen str * 2 + 1)) with (2 * length str + 1)%nat by (unfold zlen; lia).
  rewrite replicate_add.
  rewrite (bind_Ok_eq _ _ (flat (unpack str) ++ [0])).
  2:{ apply (keybytesToHex_loop_spec str [] (replicate (2 * length str) 0) [0]); [|done].
      by rewrite length_replicate. }
  replace (zlen str * 2 + 1 - 1) with (zlen (flat (unpack str))).
  - apply upd_app.
  - rewrite zlen_flat. unfold zlen, unpack. rewrite length_map. lia.
Qed.

Lemma compactToHex_spec single ps t :
  single_ok single -> pairs_ok ps ->
  compactToHex (flag_byte single t :: pack ps) = Ok (hex_of single ps ++ term t).
Proof.
  intros Hs Hps. unfold compactToHex.
  rewrite zlen_cons, (proj2 (Z.eqb_neq _ 0)) by (pose proof (zlen_nonneg (pack ps)); lia).
  rewrite keybytesToHex_spec. simpl unpack. rewrite unpack_pack by done. bind_simpl.
  set (hi := (if t then 2 else 0) + (if single then 1 else 0)).
  set (lo := match single with Some x => x | None => 0 end).
  assert (Hlo : is_nibble lo) by (subst lo; destruct single; [by apply Hs|done]).
  assert (Hfb : flag_byte single t = 16 * hi + lo).
  { subst hi lo. unfold flag_byte. destruct single, t; lia. }
  unfold is_nibble in Hlo. rewrite Hfb.
  replace ((16 * hi + lo) / 16) with hi by (Z.div_mod_to_equations; lia).
  replace ((16 * hi + lo) mod 16) with lo by (Z.div_mod_to_equations; lia).
  change (flat ((hi, lo) :: ps)) with (hi :: lo :: flat ps).
  change ((hi :: lo :: flat ps) ++ [16]) with (hi :: lo :: flat ps ++ [16]).
  rewrite idx_0. bind_simpl.
  assert (Hbase : (if hi <? 2 then slice (hi :: lo :: flat ps ++ [16]) 0 (zlen (hi :: lo :: flat ps ++ [16]) - 1)
                   else Ok (hi :: lo :: flat ps ++ [16])) = (Ok (hi :: lo :: flat ps ++ term t) : go _)).
  { subst hi. destruct t; simpl term.
    - by destruct single.
    - replace (_ <? 2) with true by by destruct single.
      pose proof (@slice_term Empty_set (0 + (if single then 1 else 0) :: lo :: flat ps) true) as Hst.
      simpl in Hst. rewrite app_nil_r. exact Hst. }
  rewrite Hbase. bind_simpl. rewrite idx_0. bind_simpl.
  destruct single as [x|].
  - replace (u8 (2 - Z.land hi 1)) with (zlen [hi]) by (subst hi; by destruct t).
    apply (@slice_from_app Empty_set Z [hi]).
  - replace (u8 (2 - Z.land hi 1)) with (zlen [hi; lo]) by (subst hi; by destruct t).
    apply (@slice_from_app Empty_set Z [hi; lo]).
Qed.
(** ** In place *)

(** Writing never overtakes reading: [gap] lies between the two positions. *)
Lemma inPlace_loop_spec ps fuel w gap suf :
  pairs_ok ps -> (length ps <= fuel)%nat ->
  exists gap', length gap' = (length gap + length ps)%nat /\
  inPlace_loop fuel (w ++ gap ++ flat ps ++ suf) (zlen (w ++ gap ++ flat ps)) (zlen w) (zlen (w ++ gap)) =
  Ok (w ++ pack ps ++ gap' ++ suf).
Proof.
  intros Hps. revert fuel w gap. induction Hps as [|[a b] ps [Ha Hb] _ IH]; intros fuel w gap Hf.
  - exists gap. split; [simpl; lia|]. simpl. rewrite app_nil_r. destruct fuel; simpl; by rewrite Z.ltb_irrefl.
  - destruct fuel as [|fuel]; [simpl in Hf; lia|]. change (flat ((a, b) :: ps)) with (a :: b :: flat ps).
    assert (Hg : exists g gap', gap ++ [a; b] = g :: gap' /\ length gap' = S (length gap)).
    { destruct gap as [|g gap]; [by exists a, [b]|]. exists g, (gap ++ [a; b]).
      rewrite length_app. simpl. split; [done|lia]. }
    destruct Hg as (g & gap' & Hg & Hgl).
    assert (Hbuf : w ++ gap ++ a :: b :: flat ps ++ suf = w ++ g :: gap' ++ flat ps ++ suf).
    { f_equal. change (g :: gap' ++ flat ps ++ suf) with ((g :: gap') ++ flat ps ++ suf).
      by rewrite <- Hg, <- app_assoc. }
    assert (Hlen : zlen (w ++ gap ++ a :: b :: flat ps) = zlen ((w ++ [16 * a + b]) ++ gap' ++ flat ps)).
    { unfold zlen. rewrite !length_app. simpl. lia. }
    destruct (IH fuel (w ++ [16 * a + b]) gap') as (gap'' & Hl & Hrun); [simpl in Hf; lia|].
    exists gap''. split; [simpl; lia|]. cbn [inPlace_loop].
    rewrite (proj2 (Z.ltb_lt _ _)).
    2:{ rewrite !zlen_app, !zlen_cons. pose proof (zlen_nonneg (flat ps)). lia. }
    assert (Hi0 : idx (w ++ gap ++ a :: b :: flat ps ++ suf) (zlen (w ++ gap)) = (Ok a : go Z)).
    { rewrite app_assoc. apply idx_app. }
    assert (Hi1 : idx (w ++ gap ++ a :: b :: flat ps ++ suf) (zlen (w ++ gap) + 1) = (Ok b : go Z)).
    { replace (zlen (w ++ gap) + 1) with (zlen ((w ++ gap) ++ [a])) by (by rewrite zlen_app).
      replace (w ++ gap ++ a :: b :: flat ps ++ suf) with (((w ++ gap) ++ [a]) ++ b :: flat ps ++ suf)
        by (by rewrite <- !app_assoc). apply idx_app. }
    change ((a :: b :: flat ps) ++ suf) with (a :: b :: flat ps ++ suf).
    rewrite Hi0. bind_simpl. rewrite Hi1. bind_simpl. rewrite nibble_lor, Hbuf, upd_app, Hlen by done.
    bind_simpl. replace (zlen w + 1) with (zlen (w ++ [16 * a + b])) by (by rewrite zlen_app).
    replace (zlen (w ++ gap) + 2) with (zlen ((w ++ [16 * a + b]) ++ gap')).
    2:{ unfold zlen. rewrite !length_app. simpl. lia. }
    replace (w ++ 16 * a + b :: gap' ++ flat ps ++ suf)
      with ((w ++ [16 * a + b]) ++ gap' ++ flat ps ++ suf) by (by rewrite <- app_assoc).
    rewrite Hrun. by rewrite <- app_assoc.
Qed.

(** The first round of an even key writes between the nibbles it has read. *)
Lemma inPlace_even ps suf fuel :
  pairs_ok ps -> (length ps <= fuel)%nat -> suf <> [] \/ ps <> [] ->
  exists x gap, inPlace_loop fuel (flat ps ++ suf) (zlen (flat ps)) 1 0 = Ok (x :: pack ps ++ gap).
Proof.
  intros Hps Hf Hne. destruct Hps as [|[a b] ps [Ha Hb] Hps].
  - destruct suf as [|x suf]; [by destruct Hne|]. exists x, suf. by destruct fuel.
  - destruct fuel as [|fuel]; [simpl in Hf; lia|].
    destruct (inPlace_loop_spec ps fuel [a; 16 * a + b] [] suf Hps) as (gap & Hl & Hrun); [simpl in Hf; lia|].
    exists a, (gap ++ suf). change (flat ((a, b) :: ps)) with (a :: b :: flat ps).
    cbn [inPlace_loop]. rewrite (proj2 (Z.ltb_lt _ _)) by (rewrite !zlen_cons; pose proof (zlen_nonneg (flat ps)); lia).
    simpl app. rewrite idx_0. bind_simpl.
    pose proof (@idx_app Empty_set Z [a] b (flat ps ++ suf)) as Hi. simpl app in Hi.
    change (zlen [a]) with (0 + 1) in Hi. rewrite Hi. bind_simpl. rewrite nibble_lor by done.
    pose proof (@upd_app Empty_set Z [a] b (flat ps ++ suf) (16 * a + b)) as Hu. simpl app in Hu.
    change (zlen [a]) with 1 in Hu. rewrite Hu. bind_simpl. exact Hrun.
Qed.

Lemma hexToCompactInPlace_spec single ps t :
  single_ok single -> pairs_ok ps -> hex_of single ps ++ term t <> [] ->
  exists rest, hexToCompactInPlace (hex_of single ps ++ term t) =
    Ok (flag_byte single t :: pack ps ++ rest, zlen (flag_byte single t :: pack ps)).
Proof.
  intros Hs Hps Hne. pose proof (hex_of_nibbles _ _ Hs Hps) as Hn. unfold hexToCompactInPlace.
  set (hs := hex_of single ps) in *. set (h := hs ++ term t) in *.
  assert (Hhd : (if zlen h >? 0 then l ← idx h (zlen h - 1);
                   if l =? 16 then Ok (zlen h - 1, Z.shiftl 1 5) else Ok (zlen h, 0)
                 else Ok (zlen h, 0)) = (Ok (zlen hs, if t then 32 else 0) : go (Z * Z))).
  { destruct (exists_last Hne) as (h' & l & Hl). rewrite Hl, zlen_app. change (zlen [l]) with 1.
    pose proof (zlen_nonneg h'). rewrite Z.gtb_ltb, (proj2 (Z.ltb_lt _ _)) by lia.
    replace (zlen h' + 1 - 1) with (zlen h') by lia. rewrite idx_app. bind_simpl.
    subst h. destruct t; simpl term in *.
    - apply app_inj_tail in Hl as [-> <-]. done.
    - rewrite app_nil_r in Hl. rewrite Hl in Hn |- *. apply Forall_app in Hn as [_ Hn].
      rewrite Forall_singleton in Hn. unfold is_nibble in Hn. rewrite (proj2 (Z.eqb_neq l 16)) by lia.
      by rewrite zlen_app. }
  rewrite Hhd. bind_simpl. pose proof (zlen_flat ps) as Hf. pose proof (zlen_nonneg ps).
  assert (Hz : zlen hs / 2 + 1 = zlen (flag_byte single t :: pack ps)).
  { rewrite zlen_cons, zlen_pack. subst hs. destruct single; simpl; rewrite ?zlen_cons, Hf; Z.div_mod_to_equations; lia. }
  rewrite Hz. generalize (zlen (flag_byte single t :: pack ps)). intros n. clear Hz.
  assert (Hfuel : (length ps <= length h)%nat).
  { subst h hs. rewrite length_app. destruct single; simpl; unfold zlen in Hf; lia. }
  destruct single as [x|]; simpl in hs; subst hs.
  - rewrite zlen_cons, Hf, land_1_odd. simpl Z.eqb. cbv iota. subst h. simpl app in *. rewrite idx_0. bind_simpl.
    destruct (inPlace_loop_spec ps (length (x :: flat ps ++ term t)) [x] [] (term t) Hps Hfuel) as (gap & Hg & Hrun).
    simpl app in Hrun. change (zlen [x]) with 1 in Hrun. rewrite zlen_cons, Hf in Hrun. rewrite Hrun. bind_simpl.
    rewrite flag_lor by (by apply Hs). rewrite upd_0. bind_simpl. by exists (gap ++ term t).
  - rewrite Hf, land_1_even. simpl Z.eqb. cbv iota. bind_simpl. subst h. rewrite <- Hf.
    destruct (inPlace_even ps (term t) (length (flat ps ++ term t)) Hps Hfuel) as (y & gap & ->).
    { destruct t; [by left|]. right. intros ->. done. }
    bind_simpl. rewrite upd_0. bind_simpl. unfold flag_byte. rewrite Z.add_0_r. by exists gap.
Qed.

(** ** Properties *)

(** Compact encoding loses nothing: every hex key converts to compact
    form without panic, and converting back gives the key with its
    terminator. *)
Theorem compact_roundtrip (h : list Z) :
  hex_ok h -> exists c, hexToCompact h = Ok c /\ bytes_ok c /\ compactToHex c = Ok h.
Proof.
  intros (single & ps & t & -> & Hs & Hps)%hex_ok_iff. exists (flag_byte single t :: pack ps).
  rewrite hexToCompact_spec, compactToHex_spec by done. split_and!; try done.
  constructor; [|by apply pack_bytes]. unfold flag_byte, is_byte.
  destruct single as [x|]; [|by destruct t].
  pose proof (Hs x eq_refl) as Hx. unfold is_nibble in Hx. destruct t; lia.
Qed.

Lemma compact_roundtrip_witness :
  hexToCompact [15; 1; 12; 11; 8; 16] = Ok [63; 28; 184] /\
  exists c, hexToCompact [15; 1; 12; 11; 8; 16] = Ok c /\ bytes_ok c /\ compactToHex c = Ok [15; 1; 12; 11; 8; 16].
Proof.
  split; [reflexivity|]. apply compact_roundtrip. exists [15; 1; 12; 11; 8], true.
  split; [reflexivity|solve_decidable].
Defined.

(** The in-place conversion leaves in the buffer it overwrites exactly
    the key that [hexToCompact] allocates, for every non-empty hex key. *)
Theorem hexToCompactInPlace_correct (h : list Z) :
  hex_ok h -> h <> [] ->
  exists buf n, hexToCompactInPlace h = Ok (buf, n) /\ hexToCompact h = Ok (take (Z.to_nat n) buf).
Proof.
  intros (single & ps & t & -> & Hs & Hps)%hex_ok_iff Hne.
  destruct (hexToCompactInPlace_spec single ps t Hs Hps Hne) as (rest & Hrun).
  do 2 eexists. split; [exact Hrun|]. rewrite hexToCompact_spec by done. f_equal.
  rewrite app_comm_cons. by rewrite take_zlen_app.
Qed.

Lemma hexToCompactInPlace_correct_witness :
  exists buf n, hexToCompactInPlace [0; 15; 1; 12; 11; 8; 16] = Ok (buf, n) /\
    hexToCompact [0; 15; 1; 12; 11; 8; 16] = Ok (take (Z.to_nat n) buf).
Proof.
  apply hexToCompactInPlace_correct; [|discriminate]. exists [0; 15; 1; 12; 11; 8], true.
  split; [reflexivity|solve_decidable].
Defined.

(** Key bytes and terminated nibbles of even number correspond one to
    one: [keybytesToHex] yields them and [hexToKeybytes] undoes it. *)
Theorem keybytes_roundtrip (key : list Z) :
  bytes_ok key ->
  exists h, keybytesToHex key = Ok h /\ zlen h = 2 * zlen key + 1 /\ hasTerm h = true /\ hex_ok h /\
    hexToKeybytes h = Ok key.
Proof.
  intros Hk. exists (flat (unpack key) ++ [16]). pose proof (unpack_ok key Hk) as Hu.
  pose proof (flat_nibbles _ Hu) as Hn.
  assert (Hz : zlen (unpack key) = zlen key) by (unfold zlen, unpack; by rewrite length_map).
  rewrite keybytesToHex_spec. split_and!; [done| | | |].
  - rewrite zlen_app, zlen_flat, Hz. done.
  - by apply (hasTerm_spec _ true).
  - by exists (flat (unpack key)), true.
  - unfold hexToKeybytes. rewrite (hasTerm_spec _ true), (slice_term _ true) by done. bind_simpl.
    rewrite zlen_flat, land_1_even. simpl negb. cbv iota.
    rewrite decodeNibbles_spec, pack_unpack; [done|done|].
    rewrite length_replicate. unfold zlen. Z.div_mod_to_equations. lia.
Qed.

Lemma keybytes_roundtrip_witness :
  exists h, keybytesToHex [18; 52] = Ok h /\ zlen h = 2 * zlen [18; 52] + 1 /\ hasTerm h = true /\ hex_ok h /\
    hexToKeybytes h = Ok [18; 52].
Proof. apply keybytes_roundtrip. solve_decidable. Defined.
