(* ===== verification/Trie.v ===== *)
(** * The Merkle Patricia trie (src/trie/trie.go, src/trie/node.go)

    [Trie] holds a tree of nodes of which parts may still be in the database,
    as hash nodes.  The file models reading, inserting and deleting with the
    loading of nodes on the way, gives the trie an abstract specification (a
    canonical tree and the map it stores), and shows that the operations
    implement the map and keep the tree canonical. *)
From stdpp Require Import prelude list gmap.
From Stdlib Require Import ZArith Lia.
From S2P Require Import Prelude TrieEncoding.

(** ** Nodes *)

Record nodeFlag := NodeFlag { fl_hash : option (list Z); fl_dirty : bool }.

Inductive node :=
| nilNode
| valueNode (v : list Z)
| shortNode (Key : list Z) (Val : node) (flags : nodeFlag)
| fullNode (Children : list node) (flags : nodeFlag)
| hashNode (h : list Z).

Section node_nested_ind.
Context (P : node -> Prop).
Context (Hleaf : forall n, match n with shortNode _ _ _ | fullNode _ _ => False | _ => True end -> P n).
Context (Hshort : forall k c fl, P c -> P (shortNode k c fl)).
Context (Hfull : forall cs fl, Forall P cs -> P (fullNode cs fl)).

Fixpoint node_nested_ind (n : node) : P n.
Proof.
  destruct n as [|v|k c fl|cs fl|h]; try (by apply Hleaf).
  - apply Hshort, node_nested_ind.
  - apply Hfull. induction cs as [|c cs IH]; constructor; [apply node_nested_ind|apply IH].
Qed.
End node_nested_ind.

#[global] Instance node_nil_dec n : Decision (n = nilNode).
Proof. by destruct n; [left|right..]. Defined.

Inductive trie_error := MissingNodeError (NodeHash : list Z) (Path : list Z).

Abbreviation tr A := (outcome trie_error A).

(** [common.BytesToHash]: the last 32 bytes, padded on the left. *)
Definition BytesToHash (b : list Z) : list Z :=
  let b := if zlen b >? 32 then drop (Z.to_nat (zlen b - 32)) b else b in
  replicate (Z.to_nat (32 - zlen b)) 0 ++ b.

Definition newFlag : nodeFlag := NodeFlag None true.

(** What the trie needs of its database: [db.node(hash)]. *)
Class NodeReader := db_node : list Z -> option node.

Definition concat_keys (s1 s2 : list Z) : list Z := s1 ++ s2.

Definition is_nil (n : node) : bool := match n with nilNode => true | _ => false end.

(** The loop of [delete] over the children: the index of the only non-nil
    child, -1 if there is none and -2 if there are several. *)
Fixpoint single_child (cs : list node) (i pos : Z) : Z :=
  match cs with
  | [] => pos
  | cld :: cs =>
      if is_nil cld then single_child cs (i + 1) pos
      else if pos =? -1 then single_child cs (i + 1) i
      else -2
  end.

Section operations.
Context {db : NodeReader}.

Definition resolveHash (n : list Z) (prefix : list Z) : tr node :=
  let hash := BytesToHash n in
  match db_node hash with
  | Some node => Ok node
  | None => Err (MissingNodeError hash prefix)
  end.

Definition resolve (n : node) (prefix : list Z) : tr node :=
  match n with
  | hashNode h => resolveHash h prefix
  | _ => Ok n
  end.

(** The value, the node to put in place of [origNode], and whether nodes were
    loaded. *)
Fixpoint tryGet (fuel : nat) (origNode : node) (key : list Z) (pos : Z)
    : tr (option (list Z) * node * bool) :=
  match fuel with
  | O => Panic
  | S fuel =>
      match origNode with
      | nilNode => Ok (None, nilNode, false)
      | valueNode v => Ok (Some v, valueNode v, false)
      | shortNode k val fl =>
          if zlen key - pos <? zlen k then Ok (None, origNode, false)
          else
            seg ← slice key pos (pos + zlen k);
            if decide (k = seg) then
              '(value, newnode, didResolve) ← tryGet fuel val key (pos + zlen k);
              Ok (value, if didResolve : bool then shortNode k newnode fl else origNode, didResolve)
            else Ok (None, origNode, false)
      | fullNode cs fl =>
          i ← idx key pos;
          c ← idx cs i;
          '(value, newnode, didResolve) ← tryGet fuel c key (pos + 1);
          cs' ← (if didResolve : bool then upd cs i newnode else Ok cs);
          Ok (value, fullNode cs' fl, didResolve)
      | hashNode h =>
          prefix ← slice key 0 pos;
          child ← resolveHash h prefix;
          '(value, newnode, _) ← tryGet fuel child key pos;
          Ok (value, newnode, true)
      end
  end.

(** The node at a path, the node to put in place of [origNode], and the
    number of nodes loaded. *)
Fixpoint tryGetNode (fuel : nat) (origNode : node) (path : list Z) (pos : Z)
    : tr (node * node * Z) :=
  match fuel with
  | O => Panic
  | S fuel =>
      let reached :=
        (pos >=? zlen path) && match origNode with hashNode _ => false | _ => true end in
      if reached then
        match origNode with
        | shortNode k val _ =>
            match hexToCompact k with
            | Ok key => Ok (shortNode key val (NodeFlag None false), origNode, 0)
            | _ => Panic
            end
        | _ => Ok (origNode, origNode, 0)
        end
      else
        match origNode with
        | nilNode => Ok (nilNode, nilNode, 0)
        | valueNode _ => Ok (nilNode, nilNode, 0)
        | shortNode k val fl =>
            if zlen path - pos <? zlen k then Ok (nilNode, origNode, 0)
            else
              seg ← slice path pos (pos + zlen k);
              if decide (k = seg) then
                '(item, newnode, resolved) ← tryGetNode fuel val path (pos + zlen k);
                Ok (item, if resolved >? 0 then shortNode k newnode fl else origNode, resolved)
              else Ok (nilNode, origNode, 0)
        | fullNode cs fl =>
            i ← idx path pos;
            c ← idx cs i;
            '(item, newnode, resolved) ← tryGetNode fuel c path (pos + 1);
            cs' ← (if resolved >? 0 then upd cs i newnode else Ok cs);
            Ok (item, fullNode cs' fl, resolved)
        | hashNode h =>
            prefix ← slice path 0 pos;
            child ← resolveHash h prefix;
            '(item, newnode, resolved) ← tryGetNode fuel child path pos;
            Ok (item, newnode, resolved + 1)
        end
  end.

(** Whether the tree has changed, and the new node. *)
Fixpoint insert (fuel : nat) (n : node) (prefix key : list Z) (value : node) : tr (bool * node) :=
  match fuel with
  | O => Panic
  | S fuel =>
      if zlen key =? 0 then
        match n with
        | valueNode v =>
            match value with
            | valueNode w => Ok (negb (bool_decide (v = w)), value)
            | _ => Panic
            end
        | _ => Ok (true, value)
        end
      else
        match n with
        | shortNode nKey nVal fl =>
            let matchlen := prefixLen key nKey in
            if matchlen =? zlen nKey then
              pre ← slice key 0 matchlen;
              rest ← slice_from key matchlen;
              '(dirty, nn) ← insert fuel nVal (prefix ++ pre) rest value;
              if negb dirty then Ok (false, n) else Ok (true, shortNode nKey nn newFlag)
            else
              let branch := replicate 17 nilNode in
              x ← idx nKey matchlen;
              npre ← slice nKey 0 (matchlen + 1);
              nrest ← slice_from nKey (matchlen + 1);
              '(_, c) ← insert fuel nilNode (prefix ++ npre) nrest nVal;
              branch ← upd branch x c;
              y ← idx key matchlen;
              kpre ← slice key 0 (matchlen + 1);
              krest ← slice_from key (matchlen + 1);
              '(_, c) ← insert fuel nilNode (prefix ++ kpre) krest value;
              branch ← upd branch y c;
              if matchlen =? 0 then Ok (true, fullNode branch newFlag)
              else
                k ← slice key 0 matchlen;
                Ok (true, shortNode k (fullNode branch newFlag) newFlag)
        | fullNode cs fl =>
            i ← idx key 0;
            c ← idx cs i;
            rest ← slice_from key 1;
            '(dirty, nn) ← insert fuel c (prefix ++ [i]) rest value;
            if negb dirty then Ok (false, n)
            else cs ← upd cs i nn; Ok (true, fullNode cs newFlag)
        | nilNode => Ok (true, shortNode key value newFlag)
        | hashNode h =>
            rn ← resolveHash h prefix;
            '(dirty, nn) ← insert fuel rn prefix key value;
            if negb dirty then Ok (false, rn) else Ok (true, nn)
        | valueNode _ => Panic
        end
  end.

(** The reduction of a full node after one of its children has changed. *)
Definition reduce (cs : list node) (prefix : list Z) : tr (bool * node) :=
  let pos := single_child cs 0 (-1) in
  if pos >=? 0 then
    c ← idx cs pos;
    cnode ← (if negb (pos =? 16) then resolve c prefix else Ok nilNode);
    match cnode with
    | shortNode ck cv _ => Ok (true, shortNode (u8 pos :: ck) cv newFlag)
    | _ => Ok (true, shortNode [u8 pos] c newFlag)
    end
  else Ok (true, fullNode cs newFlag).

Fixpoint delete (fuel : nat) (n : node) (prefix key : list Z) : tr (bool * node) :=
  match fuel with
  | O => Panic
  | S fuel =>
      match n with
      | shortNode nKey nVal fl =>
          let matchlen := prefixLen key nKey in
          if matchlen <? zlen nKey then Ok (false, n)
          else if matchlen =? zlen key then Ok (true, nilNode)
          else
            pre ← slice key 0 (zlen nKey);
            rest ← slice_from key (zlen nKey);
            '(dirty, child) ← delete fuel nVal (prefix ++ pre) rest;
            if negb dirty then Ok (false, n)
            else
              match child with
              | shortNode ck cv _ => Ok (true, shortNode (concat_keys nKey ck) cv newFlag)
              | _ => Ok (true, shortNode nKey child newFlag)
              end
      | fullNode cs fl =>
          i ← idx key 0;
          c ← idx cs i;
          rest ← slice_from key 1;
          '(dirty, nn) ← delete fuel c (prefix ++ [i]) rest;
          if negb dirty then Ok (false, n)
          else cs ← upd cs i nn; reduce cs prefix
      | valueNode _ => Ok (true, nilNode)
      | nilNode => Ok (false, nilNode)
      | hashNode h =>
          rn ← resolveHash h prefix;
          '(dirty, nn) ← delete fuel rn prefix key;
          if negb dirty then Ok (false, rn) else Ok (true, nn)
      end
  end.

(** ** The trie *)

Record Trie := MkTrie { root : node; unhashed : Z }.

(** The number of nodes on a path: the hash node and the node itself for
    every nibble of the key, and the value. *)
Definition path_fuel (key : list Z) : nat := 2 * length key + 2.

(** The operations leave the trie as it is when they fail, but for the
    counter. *)
Definition TryGet (t : Trie) (key : list Z) : tr (option (list Z)) * Trie :=
  match keybytesToHex key with
  | Ok k =>
      match tryGet (path_fuel k) (root t) k 0 with
      | Ok (value, newroot, didResolve) =>
          (Ok value, if didResolve : bool then MkTrie newroot (unhashed t) else t)
      | Err e => (Err e, t)
      | Panic => (Panic, t)
      end
  | _ => (Panic, t)
  end.

(** [_, n, err := ...; if err != nil { return err }; t.root = n] *)
Definition set_root (t : Trie) (r : tr (bool * node)) : tr unit * Trie :=
  match r with
  | Ok (_, n) => (Ok tt, MkTrie n (unhashed t))
  | Err e => (Err e, t)
  | Panic => (Panic, t)
  end.

Definition TryUpdate (t : Trie) (key value : list Z) : tr unit * Trie :=
  let t := MkTrie (root t) (unhashed t + 1) in
  match keybytesToHex key with
  | Ok k =>
      if negb (zlen value =? 0) then
        set_root t (insert (path_fuel k) (root t) [] k (valueNode value))
      else set_root t (delete (path_fuel k) (root t) [] k)
  | _ => (Panic, t)
  end.

Definition TryDelete (t : Trie) (key : list Z) : tr unit * Trie :=
  let t := MkTrie (root t) (unhashed t + 1) in
  match keybytesToHex key with
  | Ok k => set_root t (delete (path_fuel k) (root t) [] k)
  | _ => (Panic, t)
  end.

Definition emptyRoot : list Z :=
  [0x56; 0xe8; 0x1f; 0x17; 0x1b; 0xcc; 0x55; 0xa6; 0xff; 0x83; 0x45; 0xe6; 0x92; 0xc0; 0xf8; 0x6e;
   0x5b; 0x48; 0xe0; 0x1b; 0x99; 0x6c; 0xad; 0xc0; 0x01; 0x62; 0x2f; 0xb5; 0xe3; 0x63; 0xb4; 0x21].

(** [New] with a database; [root] is a 32-byte hash. *)
Definition New (rootHash : list Z) : tr Trie :=
  if bool_decide (rootHash <> replicate 32 0) && bool_decide (rootHash <> emptyRoot) then
    rootnode ← resolveHash rootHash [];
    Ok (MkTrie rootnode 0)
  else Ok (MkTrie nilNode 0).

Definition trie_Reset (t : Trie) : Trie := MkTrie nilNode 0.
End operations.

(** ** Specification: canonical trees and the map they store *)

Inductive tree :=
| TEmpty
| TValue (v : list Z)
| TShort (k : list Z) (t : tree)
| TFull (ts : list tree).

(** [key] without its prefix [k]. *)
Fixpoint strip (k key : list Z) : option (list Z) :=
  match k, key with
  | [], _ => Some key
  | x :: k, y :: key => if x =? y then strip k key else None
  | _ :: _, [] => None
  end.

Fixpoint tfind (t : tree) (key : list Z) : option (list Z) :=
  match t with
  | TEmpty => None
  | TValue v => match key with [] => Some v | _ => None end
  | TShort k t => match strip k key with Some rest => tfind t rest | None => None end
  | TFull ts =>
      match key with
      | i :: rest => if i <? 0 then None else default None (map (fun t => tfind t rest) ts !! Z.to_nat i)
      | [] => None
      end
  end.

#[global] Instance tree_empty_dec t : Decision (t = TEmpty).
Proof. by destruct t; [left|right..]. Defined.

Definition filled (ts : list tree) (i : nat) : Prop := exists t, ts !! i = Some t /\ t <> TEmpty.

Definition value_child (t : tree) : Prop := t = TEmpty \/ exists v, t = TValue v /\ v <> [].

(** Canonical trees: leaves have terminated keys, extensions lead to full
    nodes, full nodes have at least two children, the last one a value. *)
Inductive canon : tree -> Prop :=
| canon_leaf ns v : Forall is_nibble ns -> v <> [] -> canon (TShort (ns ++ [16]) (TValue v))
| canon_ext ns ts : Forall is_nibble ns -> ns <> [] -> canon (TFull ts) -> canon (TShort ns (TFull ts))
| canon_full ts :
    length ts = 17%nat ->
    (forall i t, (i < 16)%nat -> ts !! i = Some t -> t = TEmpty \/ canon t) ->
    (forall t, ts !! 16%nat = Some t -> value_child t) ->
    (exists i j, i <> j /\ filled ts i /\ filled ts j) ->
    canon (TFull ts).

Definition canon0 (t : tree) : Prop := t = TEmpty \/ canon t.

(** ** The tree that a node stands for

    The operations of the trie never look at the caching flags; what holds of
    them is chosen by the clients.  A node is the root, or it is below a node
    whose hash is cached or not. *)
Inductive place := Root | Below (cached : bool).

Definition below (fl : nodeFlag) : place :=
  Below (match fl_hash fl with Some _ => true | None => false end).

(** What the flags of a node and a hash node have to satisfy at their place,
    given the tree below them. *)
Class Guard := {
  flag_ok : place -> nodeFlag -> tree -> Prop;
  hash_ok : place -> list Z -> tree -> Prop;
}.

(** The places where the operations put nodes that they have built. *)
Definition top (is_root : bool) : place := if is_root then Root else Below false.

(** Nodes that were just built are allowed, and what is allowed below a
    cached hash is allowed below a node without one. *)
Class FreshGuard (G : Guard) : Prop := {
  new_ok r t : flag_ok (top r) newFlag t;
  lift_flag b fl t : flag_ok (Below b) fl t -> flag_ok (Below false) fl t;
  lift_hash b h t : hash_ok (Below b) h t -> hash_ok (Below false) h t;
}.
#[export] Hint Extern 0 (flag_ok _ newFlag _) => first [apply (new_ok false)|apply new_ok] : core.

(** Nothing is asked of the flags. *)
Definition no_guard : Guard := {| flag_ok _ _ _ := True; hash_ok _ _ _ := True |}.
#[export] Instance no_guard_fresh : FreshGuard no_guard.
Proof. by split. Qed.

(** The nodes behind hashes are in the database. *)
Inductive rep {db : NodeReader} {G : Guard} (p : place) : node -> tree -> Prop :=
| rep_nil : rep p nilNode TEmpty
| rep_value v : rep p (valueNode v) (TValue v)
| rep_short k n fl t :
    rep (below fl) n t -> flag_ok p fl (TShort k t) -> rep p (shortNode k n fl) (TShort k t)
| rep_full cs fl ts :
    Forall2 (rep (below fl)) cs ts -> flag_ok p fl (TFull ts) -> rep p (fullNode cs fl) (TFull ts)
| rep_hash h n t :
    db_node (BytesToHash h) = Some n ->
    match n with shortNode _ _ _ | fullNode _ _ => True | _ => False end ->
    rep p n t -> hash_ok p h t -> rep p (hashNode h) t.

(** Keys as [keybytesToHex] makes them. *)
Definition terminated (key : list Z) : Prop := exists ns, key = ns ++ [16] /\ Forall is_nibble ns.
(** ** Keys *)

Lemma strip_Some k key r : strip k key = Some r <-> key = k ++ r.
Proof.
  revert key. induction k as [|x k IH]; intros key; simpl; [naive_solver|].
  destruct key as [|y key]; [naive_solver|]. destruct (Z.eqb_spec x y) as [->|]; [|naive_solver].
  rewrite IH. naive_solver.
Qed.

Lemma strip_app k r : strip k (k ++ r) = Some r.
Proof. by apply strip_Some. Qed.

Lemma strip_app_l k k' key : strip (k ++ k') key = strip k key ≫= strip k'.
Proof.
  revert key. induction k as [|x k IH]; intros key; [done|].
  destruct key as [|y key]; [done|]. simpl. by destruct (x =? y).
Qed.

Lemma prefixLen_loop_spec a b i :
  exists p a' b', a = p ++ a' /\ b = p ++ b' /\ prefixLen_loop a b i = i + zlen p /\
    match a', b' with x :: _, y :: _ => x <> y | _, _ => True end.
Proof.
  revert b i. induction a as [|x a IH]; intros b i.
  { exists [], [], b. simpl. rewrite zlen_nil. split_and!; try done. destruct b; lia. }
  destruct b as [|y b].
  { exists [], (x :: a), []. simpl. rewrite zlen_nil. split_and!; try done. lia. }
  simpl. destruct (Z.eqb_spec x y) as [->|Hne].
  - destruct (IH b (i + 1)) as (p & a' & b' & -> & -> & -> & Hd).
    exists (y :: p), a', b'. rewrite zlen_cons. split_and!; try done. lia.
  - exists [], (x :: a), (y :: b). rewrite zlen_nil. split_and!; try done. lia.
Qed.

Lemma prefixLen_spec a b :
  exists p a' b', a = p ++ a' /\ b = p ++ b' /\ prefixLen a b = zlen p /\
    match a', b' with x :: _, y :: _ => x <> y | _, _ => True end.
Proof.
  destruct (prefixLen_loop_spec a b 0) as (p & a' & b' & ? & ? & Hp & ?).
  exists p, a', b'. split_and!; try done.
Qed.

Lemma nibble_not_term ns : Forall is_nibble ns -> 16 ∉ ns.
Proof. intros Hn Hin. rewrite Forall_forall in Hn. specialize (Hn _ Hin). unfold is_nibble in Hn. lia. Qed.

Lemma terminated_cons x k :
  terminated (x :: k) <-> (x = 16 /\ k = []) \/ (is_nibble x /\ terminated k).
Proof.
  split.
  - intros (ns & He & Hn). destruct ns as [|n ns]; simpl in He; injection He as -> ->; [by left|].
    apply Forall_cons in Hn as [? ?]. right. split; [done|]. by exists ns.
  - intros [[-> ->]|[Hx (ns & -> & Hn)]]; [by exists []|]. exists (x :: ns). split; [done|by constructor].
Qed.

Lemma terminated_nonnil k : terminated k -> k <> [].
Proof. intros (ns & -> & _). by destruct ns. Qed.

Lemma terminated_app p k :
  k <> [] -> terminated (p ++ k) <-> Forall is_nibble p /\ terminated k.
Proof.
  intros Hk. induction p as [|x p IH]; simpl; [naive_solver|].
  rewrite terminated_cons, IH, Forall_cons. split; [|naive_solver].
  intros [[-> He]|?]; [|naive_solver]. apply app_nil in He as [_ ->]. done.
Qed.

(** A terminated key is no proper prefix of another one, nor of a key that
    ends before its terminator. *)
Lemma terminated_prefix k r : terminated k -> terminated (k ++ r) -> r = [].
Proof.
  intros (ns & -> & Hn) Ht. destruct r as [|x r]; [done|].
  apply terminated_app in Ht as [Hns _]; [|done]. apply Forall_app in Hns as [_ H16].
  rewrite Forall_singleton in H16. unfold is_nibble in H16. lia.
Qed.

Lemma terminated_nibbles k r : terminated k -> ~ Forall is_nibble (k ++ r).
Proof.
  intros (ns & -> & _) Hf. rewrite !Forall_app, Forall_singleton in Hf. unfold is_nibble in Hf. lia.
Qed.

(** ** Trees *)

Lemma tfind_short k t r : tfind (TShort k t) (k ++ r) = tfind t r.
Proof. simpl. by rewrite strip_app. Qed.

Lemma tfind_full ts i r :
  0 <= i -> tfind (TFull ts) (i :: r) = match ts !! Z.to_nat i with Some t => tfind t r | None => None end.
Proof.
  intros Hi. simpl. rewrite (proj2 (Z.ltb_ge _ _)) by done. rewrite list_lookup_fmap.
  by destruct (ts !! Z.to_nat i).
Qed.

Lemma tfind_full_neg ts i r : i < 0 -> tfind (TFull ts) (i :: r) = None.
Proof. intros Hi. simpl. by rewrite (proj2 (Z.ltb_lt _ _)). Qed.

(** The trees and keys that meet at a position inside a trie. *)
Definition pos_ok (t : tree) (key : list Z) : Prop :=
  (canon0 t /\ terminated key) \/ (value_child t /\ key = []).

Lemma pos_full ts i key :
  canon (TFull ts) -> terminated (i :: key) ->
  0 <= i < 17 /\ exists t, ts !! Z.to_nat i = Some t /\ pos_ok t key.
Proof.
  intros Hc Ht. inversion Hc as [| |? Hl Hch Hv _]; subst.
  apply terminated_cons in Ht as [[-> ->]|[Hi Ht]].
  - split; [lia|]. destruct (lookup_lt_is_Some_2 ts (Z.to_nat 16)) as [t Hts]; [lia|].
    exists t. split; [done|]. right. split; [by apply Hv|done].
  - unfold is_nibble in Hi. split; [lia|].
    destruct (lookup_lt_is_Some_2 ts (Z.to_nat i)) as [t Hts]; [lia|].
    exists t. split; [done|]. left. split; [|done]. apply (Hch (Z.to_nat i)); [lia|done].
Qed.

Lemma pos_short k t key :
  canon (TShort k t) -> terminated (k ++ key) -> pos_ok t key /\ k <> [] /\ t <> TEmpty.
Proof.
  intros Hc Ht. inversion Hc as [ns v Hn Hv|ns ts Hn Hne Hf|]; subst.
  - assert (key = []) as ->; [|split_and!; [|by destruct ns|done]; right; split; [by right; eauto|done]].
    apply (terminated_prefix (ns ++ [16])); [by exists ns|done].
  - split_and!; [|done..]. left. split; [by right|]. destruct key as [|x key].
    + rewrite app_nil_r in Ht. destruct (terminated_nibbles k [] Ht). by rewrite app_nil_r.
    + by apply terminated_app in Ht as [_ ?].
Qed.

Lemma pos_empty t : pos_ok t [] <-> value_child t.
Proof.
  split; [|by right]. intros [[_ Ht]|[? _]]; [|done]. by apply terminated_nonnil in Ht.
Qed.

Lemma pos_cons t x key : pos_ok t (x :: key) <-> canon0 t /\ terminated (x :: key).
Proof. split; [|by left]. by intros [?|[_ ?]]. Qed.
(** ** Reading *)

Section correctness.
Context {db : NodeReader} {G : Guard} {HG : FreshGuard G}.

(** Rounds for the key from here on; a hash node takes one more. *)
Definition rounds (n : node) (key : list Z) : nat :=
  2 * length key + match n with hashNode _ => 2 | _ => 1 end.

Lemma rounds_child n x key fuel :
  (2 * length (x :: key) <= fuel)%nat -> (rounds n key <= fuel)%nat.
Proof. unfold rounds. simpl. destruct n; lia. Qed.

Lemma rounds_app n k key fuel :
  k <> [] -> (2 * length (k ++ key) <= fuel)%nat -> (rounds n key <= fuel)%nat.
Proof.
  intros Hk. destruct k as [|x k]; [done|]. unfold rounds. simpl. rewrite length_app. destruct n; lia.
Qed.

(** A node that is not a hash node has the shape of its tree. *)
Lemma rep_TFull_inv p n ts :
  rep p n (TFull ts) -> (exists cs fl, n = fullNode cs fl /\ Forall2 (rep (below fl)) cs ts /\ flag_ok p fl (TFull ts)) \/ exists h, n = hashNode h.
Proof. inversion 1; subst; eauto 10. Qed.
Lemma rep_TShort_inv p n k t :
  rep p n (TShort k t) -> (exists c fl, n = shortNode k c fl /\ rep (below fl) c t /\ flag_ok p fl (TShort k t)) \/ exists h, n = hashNode h.
Proof. inversion 1; subst; eauto 10. Qed.
Lemma rep_hash_inv p h t :
  rep p (hashNode h) t -> exists n, db_node (BytesToHash h) = Some n /\ rep p n t /\ hash_ok p h t /\
    match n with shortNode _ _ _ | fullNode _ _ => True | _ => False end.
Proof. inversion 1; subst; eauto 10. Qed.

Lemma rep_lift b n t : rep (Below b) n t -> rep (Below false) n t.
Proof.
  remember (Below b) as p eqn:Hp. intros Hr.
  induction Hr as [|v|p k c fl t Hr _ Hfl|p cs fl ts Hrs Hfl|p h n t Hdb Hn Hr IH Hh]; subst;
    econstructor; eauto using lift_flag, lift_hash.
Qed.

Lemma Forall2_lift b cs ts : Forall2 (rep (Below b)) cs ts -> Forall2 (rep (Below false)) cs ts.
Proof. intros Hf. eapply Forall2_impl; [done|]. apply rep_lift. Qed.

Lemma resolveHash_ok h prefix n :
  db_node (BytesToHash h) = Some n -> resolveHash h prefix = Ok n.
Proof. unfold resolveHash. by intros ->. Qed.

Lemma Forall2_idx p cs ts i t :
  Forall2 (rep p) cs ts -> 0 <= i -> ts !! Z.to_nat i = Some t ->
  exists c, idx cs i = (Ok c : tr node) /\ cs !! Z.to_nat i = Some c /\ rep p c t.
Proof.
  intros Hf Hi Ht. destruct (Forall2_lookup_r _ _ _ _ _ Hf Ht) as (c & Hc & Hr).
  exists c. split_and!; try done. by apply idx_Ok.
Qed.

Lemma Forall2_upd p cs ts i c t c0 :
  Forall2 (rep p) cs ts -> 0 <= i -> cs !! Z.to_nat i = Some c0 -> rep p c t ->
  upd cs i c = (Ok (<[Z.to_nat i := c]> cs) : tr (list node)) /\
  Forall2 (rep p) (<[Z.to_nat i := c]> cs) (<[Z.to_nat i := t]> ts).
Proof.
  intros Hf Hi Hc Hr. split; [|by apply Forall2_insert].
  unfold upd. apply lookup_lt_Some in Hc. unfold zlen.
  rewrite (proj2 (Z.leb_le _ _)), (proj2 (Z.ltb_lt _ _)) by lia. done.
Qed.

Lemma tryGet_spec fuel p n t dn key :
  rep p n t -> pos_ok t key -> (rounds n key <= fuel)%nat ->
  exists n' b, tryGet fuel n (dn ++ key) (zlen dn) = Ok (tfind t key, n', b) /\ rep p n' t /\
    (b = false -> n' = n).
Proof.
  revert p n t dn key. induction fuel as [|fuel IH]; intros p n t dn key Hr Hp Hf;
    [unfold rounds in Hf; destruct n; lia|].
  pose proof (zlen_nonneg dn); pose proof (zlen_nonneg key).
  destruct Hr as [|v|k c fl t Hr Hfl|cs fl ts Hrs Hfl|h n t Hdb Hn Hr Hh]; simpl tryGet.
  - exists nilNode, false. split_and!; try done. constructor.
  - destruct Hp as [[[?|Hc] _]|[_ ->]]; [done|inversion Hc|].
    exists (valueNode v), false. split_and!; try done. constructor.
  - assert (Hcan : canon (TShort k t) /\ terminated key).
    { destruct Hp as [[[?|?] ?]|[[?|(? & ? & _)] _]]; done. }
    destruct Hcan as [Hcan Ht]. rewrite zlen_app.
    replace (zlen dn + zlen key - zlen dn) with (zlen key) by lia.
    destruct (Z.ltb_spec (zlen key) (zlen k)) as [Hlt|Hge].
    { exists (shortNode k c fl), false. split_and!; try done; [|by constructor]. simpl.
      destruct (strip k key) as [r|] eqn:Hs; [|done]. apply strip_Some in Hs as ->.
      rewrite zlen_app in Hlt. pose proof (zlen_nonneg r). lia. }
    destruct (zlen_split key (zlen k)) as (k' & r & -> & Hk' & _); [pose proof (zlen_nonneg k); lia|].
    rewrite <- Hk', slice_app. bind_simpl. destruct (decide (k = k')) as [<-|Hne].
    + destruct (pos_short _ _ _ Hcan Ht) as (Hpos & Hk & _).
      destruct (IH (below fl) c t (dn ++ k) r Hr Hpos) as (n' & b & Hrun & Hr' & Hb).
      { apply (rounds_app _ k); [done|]. unfold rounds in Hf. lia. }
      rewrite <- app_assoc, zlen_app in Hrun. rewrite Hrun. bind_simpl. rewrite tfind_short.
      eexists _, b. split; [done|]. split; [|by intros ->]. destruct b; by constructor.
    + exists (shortNode k c fl), false. split_and!; try done; [|by constructor]. simpl.
      destruct (strip k (k' ++ r)) as [r'|] eqn:Hs; [|done]. apply strip_Some in Hs.
      apply app_inj_1 in Hs as [-> _]; [done|]. unfold zlen in Hk'. lia.
  - assert (Hcan : canon (TFull ts) /\ terminated key).
    { destruct Hp as [[[?|?] ?]|[[?|(? & ? & _)] _]]; done. }
    destruct Hcan as [Hcan Ht]. destruct key as [|i key]; [by apply terminated_nonnil in Ht|].
    destruct (pos_full _ _ _ Hcan Ht) as (Hi & t & Hts & Hpos).
    destruct (Forall2_idx _ cs ts i t Hrs ltac:(lia) Hts) as (c & Hidx & Hc & Hrc).
    rewrite idx_app. bind_simpl. rewrite Hidx. bind_simpl.
    destruct (IH (below fl) c t (dn ++ [i]) key Hrc Hpos) as (n' & b & Hrun & Hr' & Hb).
    { apply (rounds_child _ i). unfold rounds in Hf. lia. }
    rewrite <- app_assoc, zlen_app in Hrun. change (zlen [i]) with 1 in Hrun. simpl app in Hrun.
    rewrite Hrun. bind_simpl. rewrite tfind_full, Hts by lia.
    destruct (Forall2_upd _ cs ts i n' t c Hrs ltac:(lia) Hc Hr') as [Hu Hrs'].
    destruct b; [rewrite Hu; bind_simpl|]; eexists _, _; (split; [done|]); (split; [|done]).
    + constructor; [|done]. by rewrite (list_insert_id ts) in Hrs' by done.
    + by constructor.
  - pose proof (@slice_app trie_error Z [] dn key) as Hs.
    simpl app in Hs. change (zlen []) with 0 in Hs. rewrite Z.add_0_l in Hs. rewrite Hs. bind_simpl.
    rewrite (resolveHash_ok _ _ _ Hdb). bind_simpl.
    destruct (IH p n t dn key Hr Hp) as (n' & b & -> & Hr' & _).
    { unfold rounds in *. destruct n; done || lia. }
    bind_simpl. exists n', true. by split_and!.
Qed.
(** ** Inserting *)

(** The tree [t] can be child [i] of a full node. *)
Definition fits (i : Z) (t : tree) : Prop :=
  0 <= i < 17 /\ if i =? 16 then exists v, t = TValue v /\ v <> [] else canon t.

Lemma fits_nonempty i t : fits i t -> t <> TEmpty.
Proof. intros [_ Ht]. destruct (i =? 16); [naive_solver|]. by inversion Ht. Qed.

Lemma fits_pos i key t : terminated (i :: key) -> pos_ok t key -> t <> TEmpty -> fits i t.
Proof.
  intros Ht Hp Hne. apply terminated_cons in Ht as [[-> ->]|[Hi Ht]].
  - apply pos_empty in Hp. split; [lia|]. simpl. by destruct Hp as [?|Hv].
  - unfold is_nibble in Hi. split; [lia|]. rewrite (proj2 (Z.eqb_neq i 16)) by lia.
    destruct Hp as [[[Hc|Hc] _]|[_ ->]]; [done|done|by apply terminated_nonnil in Ht].
Qed.

Lemma tfind_full_insert ts i t k :
  0 <= i < zlen ts ->
  tfind (TFull (<[Z.to_nat i := t]> ts)) k =
  match k with
  | j :: r => if j =? i then tfind t r else tfind (TFull ts) k
  | [] => None
  end.
Proof.
  intros Hi. destruct k as [|j r]; [done|].
  destruct (Z.lt_ge_cases j 0).
  { rewrite !tfind_full_neg by done. by rewrite (proj2 (Z.eqb_neq j i)) by lia. }
  rewrite !tfind_full by done. destruct (Z.eqb_spec j i) as [->|Hne].
  - by rewrite list_lookup_insert_eq by (unfold zlen in Hi; lia).
  - by rewrite list_lookup_insert_ne by lia.
Qed.

(** Full nodes whose children are in order, before counting them. *)
Definition children_ok (ts : list tree) : Prop :=
  length ts = 17%nat /\ (forall i t, (i < 16)%nat -> ts !! i = Some t -> t = TEmpty \/ canon t) /\
  (forall t, ts !! 16%nat = Some t -> value_child t).

Lemma children_ok_insert ts i t :
  children_ok ts -> fits i t \/ t = TEmpty -> children_ok (<[Z.to_nat i := t]> ts).
Proof.
  intros (Hl & Hc & Hv) Ht. split_and!.
  - by rewrite length_insert.
  - intros j u Hj Hu. destruct (decide (j = Z.to_nat i)) as [->|].
    + rewrite list_lookup_insert_eq in Hu by lia. injection Hu as <-.
      destruct Ht as [[Hi Ht]|Ht]; [|by left]. rewrite (proj2 (Z.eqb_neq i 16)) in Ht by lia. by right.
    + rewrite list_lookup_insert_ne in Hu by done. by apply (Hc j).
  - intros u Hu. destruct (decide (Z.to_nat i = 16%nat)) as [Hi|Hi].
    + rewrite Hi, list_lookup_insert_eq in Hu by lia. injection Hu as <-.
      destruct Ht as [[Hr Ht]|Ht]; [|by left]. rewrite (proj2 (Z.eqb_eq i 16)) in Ht by lia. by right.
    + rewrite list_lookup_insert_ne in Hu by done. by apply Hv.
Qed.

Lemma filled_insert ts i j t :
  t <> TEmpty -> (j < length ts)%nat -> filled ts i \/ i = j -> filled (<[j := t]> ts) i.
Proof.
  intros Ht Hj [(u & Hu & Hne)| ->].
  - destruct (decide (j = i)) as [->|].
    + exists t. by rewrite list_lookup_insert_eq.
    + exists u. by rewrite list_lookup_insert_ne.
  - exists t. by rewrite list_lookup_insert_eq.
Qed.

Lemma canon_TFull ts :
  canon (TFull ts) <-> children_ok ts /\ exists i j, i <> j /\ filled ts i /\ filled ts j.
Proof.
  split.
  - inversion 1; subst. by split.
  - intros [(? & ? & ?) ?]. by constructor.
Qed.

Lemma canon_full_insert ts i t :
  canon (TFull ts) -> fits i t -> canon (TFull (<[Z.to_nat i := t]> ts)).
Proof.
  rewrite !canon_TFull. intros [Hok (a & b & Hab & Ha & Hb)] Ht. split.
  - apply children_ok_insert; [done|by left].
  - destruct Hok as [Hl _]. pose proof (fits_nonempty _ _ Ht) as Hne. destruct Ht as [Hi _].
    exists a, b. split_and!; [done|..]; apply filled_insert; try done; try lia; by left.
Qed.

(** What [insert] makes of an empty position. *)
Definition leaf_tree (k : list Z) (t : tree) : tree := match k with [] => t | _ => TShort k t end.

Lemma tfind_leaf_tree k t key :
  tfind (leaf_tree k t) key = match strip k key with Some r => tfind t r | None => None end.
Proof. by destruct k. Qed.

Lemma insert_nil fuel f prefix k value t :
  rep (Below false) value t -> (k = [] -> f = false) ->
  exists n, insert (S fuel) nilNode prefix k value = Ok (true, n) /\ rep (top f) n (leaf_tree k t).
Proof.
  intros Hr Hk. simpl. destruct k as [|x k]; [rewrite Hk by done; by eexists|].
  rewrite zlen_cons, (proj2 (Z.eqb_neq _ 0)) by (pose proof (zlen_nonneg k); lia).
  eexists. split; [done|]. by constructor.
Qed.

(** A short node splits at any nibble of its key. *)
Lemma canon_short_split p x a t :
  canon (TShort (p ++ x :: a) t) -> Forall is_nibble p /\ fits x (leaf_tree a t).
Proof.
  intros Hc. inversion Hc as [ns v Hn Hv Hk|ns ts Hn Hne Hf Hk|]; subst.
  - assert (Ht : terminated (p ++ x :: a)) by (rewrite <- Hk; by exists ns).
    apply terminated_app in Ht as [Hp Ht]; [|done]. split; [done|].
    apply (fits_pos x a); [done| |by destruct a]. apply terminated_cons in Ht as [[-> ->]|[Hx Ht]].
    + apply pos_empty. right. eauto.
    + left. split; [|done]. destruct Ht as (ns' & -> & Hns'). destruct ns'; right; by apply (canon_leaf (_ :: _)) || by apply (canon_leaf []).
  - apply Forall_app in Hn as [Hp Hn]. apply Forall_cons in Hn as [Hx Ha]. split; [done|].
    unfold is_nibble in Hx. split; [lia|]. rewrite (proj2 (Z.eqb_neq x 16)) by lia.
    destruct a as [|y a]; simpl; [done|]. by constructor.
Qed.

Definition empty_children : list tree := replicate 17 TEmpty.

Lemma empty_children_ok : children_ok empty_children.
Proof.
  split_and!; [done|..].
  - intros i t _ Ht. apply lookup_replicate in Ht as [-> _]. by left.
  - intros t Ht. apply lookup_replicate in Ht as [-> _]. by left.
Qed.

Lemma tfind_empty_children k : tfind (TFull empty_children) k = None.
Proof.
  destruct k as [|i r]; [done|]. destruct (Z.lt_ge_cases i 0); [by apply tfind_full_neg|].
  rewrite tfind_full by done. destruct (_ !! _) as [t|] eqn:Ht; [|done].
  apply lookup_replicate in Ht as [-> _]. done.
Qed.

(** The branch for two keys that differ at [x] and [y]. *)
Definition branch_tree (x : Z) (tx : tree) (y : Z) (ty : tree) : tree :=
  TFull (<[Z.to_nat y := ty]> (<[Z.to_nat x := tx]> empty_children)).

Lemma canon_branch x tx y ty :
  x <> y -> fits x tx -> fits y ty -> canon (branch_tree x tx y ty).
Proof.
  intros Hne Hx Hy. apply canon_TFull. split.
  - apply children_ok_insert; [|by left]. apply children_ok_insert; [|by left]. apply empty_children_ok.
  - pose proof (fits_nonempty _ _ Hx); pose proof (fits_nonempty _ _ Hy). destruct Hx as [Hx _], Hy as [Hy _].
    exists (Z.to_nat x), (Z.to_nat y). split; [lia|].
    split; apply filled_insert; rewrite ?length_insert; try done; unfold empty_children; rewrite ?length_replicate; try lia.
    left. apply filled_insert; [done|rewrite length_replicate; lia|by right].
Qed.

Lemma tfind_branch x tx y ty k :
  0 <= x < 17 -> 0 <= y < 17 -> 
  tfind (branch_tree x tx y ty) k =
  match k with
  | i :: r => if i =? y then tfind ty r else if i =? x then tfind tx r else None
  | [] => None
  end.
Proof.
  intros Hx Hy. unfold branch_tree.
  rewrite tfind_full_insert by (unfold zlen; rewrite length_insert; unfold empty_children; rewrite length_replicate; lia).
  destruct k as [|i r]; [done|].
  rewrite tfind_full_insert by (unfold zlen, empty_children; rewrite length_replicate; lia).
  by rewrite tfind_empty_children.
Qed.
Definition tset (t : tree) (key v k : list Z) : option (list Z) :=
  if decide (k = key) then Some v else tfind t k.

(** Where a new key leaves the path of a short node. *)
Lemma short_mismatch nKey c key p a b :
  canon (TShort nKey c) -> terminated key -> key = p ++ b -> nKey = p ++ a ->
  match b, a with x :: _, y :: _ => x <> y | _, _ => True end ->
  a = [] \/ exists x a' y b', a = x :: a' /\ b = y :: b' /\ x <> y.
Proof.
  intros Hc Ht Hk Hn Hd. destruct a as [|x a]; [by left|]. right. destruct b as [|y b].
  - exfalso. rewrite app_nil_r in Hk. subst p.
    inversion Hc as [ns v Hns Hv He|ns ts Hns Hne Hf He|]; subst.
    + assert (x :: a = []); [|done]. eapply terminated_prefix; [exact Ht|]. rewrite <- He. by exists ns.
    + by apply (terminated_nibbles _ _ Ht) in Hns.
  - exists x, a, y, b. naive_solver.
Qed.

Lemma tset_branch p x a t y b v k :
  x <> y -> 0 <= x < 17 -> 0 <= y < 17 ->
  tfind (leaf_tree p (branch_tree x (leaf_tree a t) y (leaf_tree b (TValue v)))) k =
  tset (TShort (p ++ x :: a) t) (p ++ y :: b) v k.
Proof.
  intros Hne Hx Hy. unfold tset. rewrite tfind_leaf_tree. cbn [tfind]. rewrite strip_app_l.
  destruct (strip p k) as [r|] eqn:Hs; cbn [mbind option_bind].
  - apply strip_Some in Hs as ->. rewrite tfind_branch by done.
    destruct r as [|i r]; simpl.
    { rewrite decide_False; [done|]. rewrite app_nil_r. intros He.
      apply (f_equal length) in He. rewrite length_app in He. simpl in He. lia. }
    rewrite (Z.eqb_sym x i). destruct (Z.eqb_spec i y) as [->|Hiy].
    + rewrite (proj2 (Z.eqb_neq y x)) by done. rewrite tfind_leaf_tree.
      destruct (strip b r) as [r'|] eqn:Hb; [apply strip_Some in Hb as ->|].
      * destruct r' as [|z r']; simpl; [rewrite app_nil_r; by rewrite decide_True|].
        rewrite decide_False; [done|]. intros He. apply app_inv_head in He. injection He as He.
        apply (f_equal length) in He. rewrite length_app in He. simpl in He. lia.
      * rewrite decide_False; [done|]. intros He. apply app_inv_head in He. injection He as ->.
        rewrite <- (app_nil_r b) in Hb at 2. by rewrite strip_app in Hb.
    + rewrite decide_False by (intros He; apply app_inv_head in He; congruence).
      destruct (i =? x); [|done]. by rewrite tfind_leaf_tree.
  - rewrite decide_False; [done|]. intros ->. by rewrite strip_app in Hs.
Qed.

Lemma canon_leaf_tree p ts : Forall is_nibble p -> canon (TFull ts) -> canon (leaf_tree p (TFull ts)).
Proof. intros Hp Hc. destruct p; [done|]. by constructor. Qed.

(** The branch that [insert] builds. *)
Lemma insert_branch fuel f prefix p x a c fl t y b v :
  canon (TShort (p ++ x :: a) t) -> terminated (p ++ y :: b) -> x <> y -> v <> [] -> rep (Below false) c t ->
  exists n', insert (S (S fuel)) (shortNode (p ++ x :: a) c fl) prefix (p ++ y :: b) (valueNode v) = Ok (true, n') /\
    rep (top f) n' (leaf_tree p (branch_tree x (leaf_tree a t) y (leaf_tree b (TValue v)))).
Proof.
  intros Hc Ht Hne Hv Hr. destruct (canon_short_split _ _ _ _ Hc) as [Hp [Hx _]].
  apply terminated_app in Ht as [_ Ht]; [|done].
  assert (Hy : 0 <= y < 17) by (apply terminated_cons in Ht as [[-> _]|[Hy _]]; [lia|unfold is_nibble in Hy; lia]).
  remember (S fuel) as fuel1 eqn:Hf1. cbn [insert].
  destruct (prefixLen_spec (p ++ y :: b) (p ++ x :: a)) as (q & b' & a' & Hb' & Ha' & Hq & Hd).
  assert (q = p /\ a' = x :: a /\ b' = y :: b) as (-> & -> & ->).
  { clear -Hb' Ha' Hd Hne. revert q Hb' Ha'. induction p as [|z p IH]; intros q Hb' Ha'; destruct q as [|z' q]; simpl in *.
    - naive_solver.
    - injection Hb' as -> _. injection Ha' as -> _. done.
    - subst. done.
    - injection Hb' as <- Hb'. injection Ha' as Ha'. destruct (IH q Hb' Ha') as (-> & -> & ->). done. }
  rewrite Hq. pose proof (zlen_nonneg p). pose proof (zlen_nonneg a). pose proof (zlen_nonneg b).
  rewrite (proj2 (Z.eqb_neq _ 0)) by (rewrite zlen_app, zlen_cons; lia).
  rewrite (proj2 (Z.eqb_neq _ _)) by (rewrite zlen_app, zlen_cons; lia).
  assert (Hsl : forall z (l : list Z), slice (p ++ z :: l) 0 (zlen p + 1) = (Ok (p ++ [z]) : tr _) /\
                slice_from (p ++ z :: l) (zlen p + 1) = (Ok l : tr _)).
  { intros z l. replace (zlen p + 1) with (zlen (p ++ [z])) by (by rewrite zlen_app).
    replace (p ++ z :: l) with ((p ++ [z]) ++ l) by (by rewrite <- app_assoc).
    split; [|apply slice_from_app]. exact (slice_app [] (p ++ [z]) l). }
  destruct (Hsl x a) as [Hx1 Hx2], (Hsl y b) as [Hy1 Hy2]. rewrite !idx_app, Hx1, Hx2, Hy1, Hy2. bind_simpl.
  subst fuel1. destruct (insert_nil fuel false (prefix ++ p ++ [x]) a c t Hr) as (n1 & -> & Hn1); [done|]. bind_simpl.
  destruct (insert_nil fuel false (prefix ++ p ++ [y]) b (valueNode v) (TValue v)) as (n2 & Hn2 & Hr2); [constructor|done|].
  assert (Hemp : Forall2 (rep (Below false)) (replicate 17 nilNode) empty_children).
  { apply Forall2_replicate. constructor. }
  destruct (Forall2_upd (Below false) (replicate 17 nilNode) empty_children x n1 (leaf_tree a t) nilNode) as [-> Hf2];
    [done|lia|apply lookup_replicate_2; lia|done|]. bind_simpl. rewrite Hn2. bind_simpl.
  destruct (lookup_lt_is_Some_2 (<[Z.to_nat x:=n1]> (replicate 17 nilNode)) (Z.to_nat y)) as [c0 Hc0].
  { rewrite length_insert, length_replicate. lia. }
  destruct (Forall2_upd _ _ _ y n2 (leaf_tree b (TValue v)) c0 Hf2 ltac:(lia) Hc0 Hr2) as [-> Hf3]. bind_simpl.
  destruct (Z.eqb_spec (zlen p) 0) as [Hp0|Hp0].
  - apply zlen_0_inv in Hp0 as ->. eexists. split; [done|]. by constructor.
  - pose proof (slice_app (E:=trie_error) [] p (y :: b)) as Hs. simpl app in Hs.
    change (zlen []) with 0 in Hs. rewrite Z.add_0_l in Hs. rewrite Hs. bind_simpl.
    eexists. split; [done|]. destruct p as [|z p]; [done|]. by repeat constructor.
Qed.
(** What an operation at a position has to deliver. *)
Definition inserted (f : bool) (t : tree) (key v : list Z) (d : bool) (n' : node) : Prop :=
  exists t', rep (top f) n' t' /\ pos_ok t' key /\ t' <> TEmpty /\
    (forall k, tfind t' k = tset t key v k) /\
    (d = false -> t' = t) /\ (forall ts, t = TFull ts -> exists ts', t' = TFull ts').

Lemma insert_value fuel f n t prefix v :
  rep (top f) n t -> value_child t -> v <> [] ->
  exists d, insert (S fuel) n prefix [] (valueNode v) = Ok (d, valueNode v) /\ inserted f t [] v d (valueNode v).
Proof.
  intros Hr Hc Hv. simpl. change (zlen []) with 0. simpl.
  assert (Hset : forall k, tfind (TValue v) k = tset t [] v k).
  { intros k. unfold tset. case_decide as Hk; [by subst|]. destruct k; [done|].
    destruct Hc as [->|(w & -> & _)]; done. }
  assert (Hpos : pos_ok (TValue v) []) by (apply pos_empty; right; eauto).
  destruct Hc as [->|(w & -> & Hw)].
  - inversion Hr as [| | | |h n' ? ? Hn Hr' Hh]; subst.
    + exists true. split; [done|]. exists (TValue v). by split_and!; [constructor|..].
    + inversion Hr'; subst; done.
  - inversion Hr as [| | | |h n' ? ? Hn Hr' Hh]; subst.
    + eexists. split; [done|]. exists (TValue v). split_and!; try done; [constructor|].
      rewrite negb_false_iff, bool_decide_eq_true. by intros ->.
    + inversion Hr'; subst; done.
Qed.

Definition inserts (fuel : nat) : Prop :=
  forall f n t prefix key v,
    rep (top f) n t -> pos_ok t key -> v <> [] -> (rounds n key <= fuel)%nat ->
    exists d n', insert fuel n prefix key (valueNode v) = Ok (d, n') /\ inserted f t key v d n'.

Lemma insert_short fuel f c fl t k r prefix v :
  inserts fuel -> rep (below fl) c t -> flag_ok (top f) fl (TShort k t) -> canon (TShort k t) -> terminated (k ++ r) -> v <> [] -> (2 * length (k ++ r) <= fuel)%nat ->
  exists d n', insert (S fuel) (shortNode k c fl) prefix (k ++ r) (valueNode v) = Ok (d, n') /\
    inserted f (TShort k t) (k ++ r) v d n'.
Proof.
  intros IH Hr Hfl Hc Ht Hv Hf. destruct (pos_short _ _ _ Hc Ht) as (Hpos & Hk & Hte).
  destruct (IH false c t (prefix ++ k) r v (rep_lift _ _ _ Hr) Hpos Hv) as (d & n' & Hrun & t' & Hr' & Hp' & Hne & Hset & Hd & Hfull).
  { by apply (rounds_app _ k). }
  assert (Hm : prefixLen (k ++ r) k = zlen k).
  { destruct (prefixLen_spec (k ++ r) k) as (p & a & b & Ha & -> & -> & Hm).
    destruct b as [|y b]; [by rewrite app_nil_r|]. rewrite <- app_assoc in Ha. apply app_inv_head in Ha. subst a. done. }
  cbn [insert]. pose proof (zlen_nonneg r). pose proof (zlen_nonneg k).
  assert (zlen k <> 0) by (intros ?%zlen_0_inv; done).
  rewrite zlen_app, (proj2 (Z.eqb_neq _ 0)), Hm, Z.eqb_refl by lia.
  pose proof (slice_app (E:=trie_error) [] k r) as Hs. simpl app in Hs. change (zlen []) with 0 in Hs.
  rewrite Z.add_0_l in Hs. rewrite Hs, slice_from_app. bind_simpl. rewrite Hrun. bind_simpl.
  assert (Hc' : canon (TShort k t')).
  { inversion Hc as [ns w Hn Hw|ns ts Hn Hn0 Hts|]; subst.
    - assert (r = []) as -> by (eapply terminated_prefix; [by exists ns|done]).
      apply pos_empty in Hp' as [->|(w' & -> & ?)]; [done|]. by constructor.
    - destruct (Hfull ts eq_refl) as (ts' & ->). constructor; [done..|].
      destruct Hp' as [[[?|?] _]|[[?|(? & ? & _)] _]]; done. }
  assert (Hset' : forall k', tfind (TShort k t') k' = tset (TShort k t) (k ++ r) v k').
  { intros k'. unfold tset. cbn [tfind]. destruct (strip k k') as [r'|] eqn:Hs'.
    - apply strip_Some in Hs' as ->. rewrite Hset. unfold tset.
      destruct (decide (r' = r)) as [->|]; [by rewrite decide_True|].
      rewrite decide_False; [done|]. intros He. by apply app_inv_head in He.
    - rewrite decide_False; [done|]. intros ->. by rewrite strip_app in Hs'. }
  destruct d; simpl; eexists _, _; (split; [done|]).
  - exists (TShort k t'). split_and!; try done; [by constructor|]. left. by split; [right|].
  - exists (TShort k t). rewrite (Hd eq_refl) in *. split_and!; try done; [by constructor|].
    left. by split; [right|].
Qed.

Lemma insert_full fuel f cs fl ts prefix x key v :
  inserts fuel -> Forall2 (rep (below fl)) cs ts -> flag_ok (top f) fl (TFull ts) -> canon (TFull ts) -> terminated (x :: key) -> v <> [] ->
  (2 * length (x :: key) <= fuel)%nat ->
  exists d n', insert (S fuel) (fullNode cs fl) prefix (x :: key) (valueNode v) = Ok (d, n') /\
    inserted f (TFull ts) (x :: key) v d n'.
Proof.
  intros IH Hrs Hfl Hc Ht Hv Hf. destruct (pos_full _ _ _ Hc Ht) as (Hi & t & Hts & Hpos).
  destruct (Forall2_idx _ cs ts x t Hrs ltac:(lia) Hts) as (c & Hidx & Hcc & Hrc).
  cbn [insert]. rewrite zlen_cons, (proj2 (Z.eqb_neq _ 0)) by (pose proof (zlen_nonneg key); lia).
  rewrite idx_0, slice_from_1. bind_simpl. rewrite Hidx. bind_simpl.
  destruct (IH false c t (prefix ++ [x]) key v (rep_lift _ _ _ Hrc) Hpos Hv) as (d & n' & -> & t' & Hr' & Hp' & Hne & Hset & Hd & _).
  { by apply (rounds_child _ x). }
  bind_simpl. destruct (Forall2_upd (Below false) cs ts x n' t' c (Forall2_lift _ _ _ Hrs) ltac:(lia) Hcc Hr') as [Hu Hrs'].
  assert (Hzl : 0 <= x < zlen ts) by (apply lookup_lt_Some in Hts; unfold zlen; lia).
  assert (Hset' : forall k, tfind (TFull (<[Z.to_nat x := t']> ts)) k = tset (TFull ts) (x :: key) v k).
  { intros k. rewrite tfind_full_insert by done. unfold tset. destruct k as [|j r]; [done|].
    destruct (Z.eqb_spec j x) as [->|Hjx].
    - rewrite Hset. unfold tset. destruct (decide (r = key)) as [->|]; [by rewrite decide_True|].
      rewrite decide_False by congruence. by rewrite tfind_full, Hts by lia.
    - by rewrite decide_False by congruence. }
  destruct d; simpl.
  - rewrite Hu. bind_simpl. eexists _, _. split; [done|]. eexists. split; [by constructor|].
    split_and!; try done; [|by eauto]. left. split; [right|done].
    apply canon_full_insert; [done|]. by apply (fits_pos x key).
  - eexists _, _. split; [done|]. exists (TFull ts). split; [by constructor|].
    split_and!; try done; [left; by split; [right|]| |by eauto].
    intros k. rewrite <- Hset'. rewrite (Hd eq_refl), list_insert_id; done.
Qed.

(** A key that leaves the path of a short node. *)
Lemma insert_diverge fuel f c fl t prefix p y a z b v :
  rep (Below false) c t -> canon (TShort (p ++ y :: a) t) -> terminated (p ++ z :: b) -> y <> z -> v <> [] ->
  exists n', insert (S (S fuel)) (shortNode (p ++ y :: a) c fl) prefix (p ++ z :: b) (valueNode v) = Ok (true, n') /\
    inserted f (TShort (p ++ y :: a) t) (p ++ z :: b) v true n'.
Proof.
  intros Hr Hc Ht Hne Hv. destruct (canon_short_split _ _ _ _ Hc) as [Hpn Hfx].
  assert (Hcy : canon (TShort (p ++ z :: b) (TValue v))).
  { destruct Ht as (ns & -> & Hns). by constructor. }
  destruct (canon_short_split _ _ _ _ Hcy) as [_ Hfy].
  destruct (insert_branch fuel f prefix p y a c fl t z b v Hc Ht Hne Hv Hr) as (n' & Hrun & Hr').
  exists n'. split; [done|]. eexists. split; [exact Hr'|].
  assert (Hcb : canon (leaf_tree p (branch_tree y (leaf_tree a t) z (leaf_tree b (TValue v))))).
  { apply canon_leaf_tree; [done|]. by apply canon_branch. }
  split_and!; try done; [left; by split; [right|]|by inversion Hcb|].
  intros k'. destruct Hfx, Hfy. by apply tset_branch.
Qed.

Lemma inserted_leaf f key v :
  terminated key -> v <> [] -> inserted f TEmpty key v true (shortNode key (valueNode v) newFlag).
Proof.
  intros Ht Hv. exists (TShort key (TValue v)). split_and!; try done; [by repeat constructor|left|].
  - split; [right|done]. destruct Ht as (ns & -> & Hns). by constructor.
  - intros k. unfold tset. cbn [tfind]. destruct (strip key k) as [r|] eqn:Hs.
    + apply strip_Some in Hs as ->. destruct r as [|y r]; [by rewrite app_nil_r, decide_True|].
      rewrite decide_False; [done|]. intros He. apply (f_equal length) in He. rewrite length_app in He. simpl in He. lia.
    + rewrite decide_False; [done|]. intros ->. rewrite <- (app_nil_r key) in Hs at 2.
      by rewrite strip_app in Hs.
Qed.

Lemma insert_spec fuel : inserts fuel.
Proof.
  induction fuel as [|fuel IH]; intros f n t prefix key v Hr Hp Hv Hf;
    [unfold rounds in Hf; destruct n; lia|].
  destruct key as [|x key].
  { apply pos_empty in Hp. destruct (insert_value fuel f n t prefix v Hr Hp Hv) as (d & ? & ?). eauto. }
  apply pos_cons in Hp as [Hc Ht].
  assert (Hz : (zlen (x :: key) =? 0) = false).
  { apply Z.eqb_neq. rewrite zlen_cons. pose proof (zlen_nonneg key). lia. }
  destruct Hr as [|w|k c fl t Hr Hfl|cs fl ts Hrs Hfl|h n t Hdb Hn Hr Hh].
  - cbn [insert]. rewrite Hz. eexists _, _. split; [done|]. by apply inserted_leaf.
  - destruct Hc as [?|Hc]; [done|inversion Hc].
  - destruct Hc as [?|Hc]; [done|].
    destruct (prefixLen_spec (x :: key) k) as (p & b & a & Hb & Ha & _ & Hd).
    destruct (short_mismatch k t (x :: key) p a b Hc Ht Hb Ha) as [->|(y & a' & z & b' & -> & -> & Hne)];
      [by destruct b, a|..].
    + rewrite app_nil_r in Ha. subst p. rewrite Hb in *. apply insert_short; try done.
      unfold rounds in Hf. lia.
    + rewrite Hb, Ha in *.
      destruct fuel as [|fuel]; [unfold rounds in Hf; rewrite length_app in Hf; simpl in Hf; lia|].
      destruct (insert_diverge fuel f c fl t prefix p y a' z b' v) as (n' & ? & ?); eauto using rep_lift.
  - destruct Hc as [?|Hc]; [done|]. apply insert_full; try done. unfold rounds in Hf. lia.
  - cbn [insert]. rewrite Hz, (resolveHash_ok _ _ _ Hdb). bind_simpl.
    destruct (IH f n t prefix (x :: key) v Hr) as (d & n' & -> & t' & Hr' & Hp' & Hne & Hset & Hd & Hfull);
      [by left|done|unfold rounds in *; destruct n; done || lia|].
    bind_simpl. destruct d; simpl; eexists _, _; (split; [done|]).
    + exists t'. by split_and!.
    + exists t. rewrite (Hd eq_refl) in *. by split_and!.
Qed.
(** ** Deleting *)

Definition tdel (t : tree) (key k : list Z) : option (list Z) :=
  if decide (k = key) then None else tfind t k.

Definition deleted (f : bool) (t : tree) (key : list Z) (d : bool) (n' : node) : Prop :=
  exists t', rep (top f) n' t' /\ pos_ok t' key /\
    (forall k, tfind t' k = tdel t key k) /\
    (d = false -> t' = t) /\
    (d = true -> match n' with hashNode _ => False | _ => True end) /\
    (forall ts, t = TFull ts -> t' <> TEmpty).

Lemma rep_is_nil p n t : rep p n t -> is_nil n = true <-> t = TEmpty.
Proof.
  intros Hr. destruct Hr as [|v|k c fl t Hr Hfl|cs fl ts Hrs Hfl|h n t Hdb Hn Hr Hh]; try done.
  simpl. split; [done|]. intros ->. by inversion Hr; subst.
Qed.

Lemma rep_all_nil cs ts :
  Forall2 (rep (Below false)) cs ts ->
  Forall (fun c => is_nil c = true) cs <-> Forall (fun t => t = TEmpty) ts.
Proof.
  induction 1 as [|n t cs ts Hn _ IH]; [done|]. by rewrite !Forall_cons, IH, (rep_is_nil (Below false) n t).
Qed.

Lemma single_child_nil cs i pos : Forall (fun c => is_nil c = true) cs -> single_child cs i pos = pos.
Proof. intros Hn. revert i. induction Hn as [|c cs Hc _ IH]; intros i; simpl; [done|]. by rewrite Hc. Qed.

Lemma single_child_more cs i pos :
  pos <> -1 -> ~ Forall (fun c => is_nil c = true) cs -> single_child cs i pos = -2.
Proof.
  intros Hp. revert i. induction cs as [|c cs IH]; intros i Hn; simpl.
  - destruct Hn. constructor.
  - destruct (is_nil c) eqn:Hc; [apply IH; intros Hall; apply Hn; by constructor|].
    by rewrite (proj2 (Z.eqb_neq pos (-1))).
Qed.

Lemma single_child_app l c cs i :
  Forall (fun c => is_nil c = true) l -> is_nil c = false ->
  single_child (l ++ c :: cs) i (-1) = single_child cs (i + zlen l + 1) (i + zlen l).
Proof.
  intros Hl Hc. revert i. induction Hl as [|d l Hd _ IH]; intros i; simpl.
  - rewrite Hc, zlen_nil. simpl. by rewrite Z.add_0_r.
  - rewrite Hd, IH, zlen_cons. f_equal; lia.
Qed.

(** The first non-empty child of a full node. *)
Lemma first_filled ts i :
  filled ts i -> exists l t r, ts = l ++ t :: r /\ Forall (fun t => t = TEmpty) l /\ t <> TEmpty.
Proof.
  intros (u & Hu & Hne). revert i Hu. induction ts as [|t ts IH]; intros i Hu; [done|].
  destruct (decide (t = TEmpty)) as [->|Ht].
  - destruct i as [|i]; [by simplify_eq/=|]. destruct (IH i Hu) as (l & t & r & -> & Hl & Ht).
    exists (TEmpty :: l), t, r. split_and!; [done|by constructor|done].
  - exists [], t, ts. by split_and!.
Qed.

Lemma tfind_single l t r k :
  Forall (fun t => t = TEmpty) l -> Forall (fun t => t = TEmpty) r ->
  tfind (TFull (l ++ t :: r)) k =
  match k with i :: k => if i =? zlen l then tfind t k else None | [] => None end.
Proof.
  intros Hl Hr. destruct k as [|i k]; [done|]. pose proof (zlen_nonneg l).
  destruct (Z.lt_ge_cases i 0).
  { rewrite tfind_full_neg by done. by rewrite (proj2 (Z.eqb_neq _ _)) by lia. }
  rewrite tfind_full by done. destruct (Z.eqb_spec i (zlen l)) as [->|Hne].
  - unfold zlen. rewrite Nat2Z.id. by rewrite list_lookup_middle.
  - destruct (_ !! Z.to_nat i) as [u|] eqn:Hu; [|done].
    assert (u = TEmpty) as ->; [|done]. apply lookup_app_Some in Hu as [Hu|[Hge Hu]].
    + by apply (Forall_lookup_1 _ _ _ _ Hl Hu).
    + destruct (Z.to_nat i - length l)%nat as [|m] eqn:Hm; [unfold zlen in *; lia|].
      by apply (Forall_lookup_1 _ _ _ _ Hr Hu).
Qed.

Lemma resolve_rep p n t prefix :
  rep p n t -> exists n', resolve n prefix = Ok n' /\ rep p n' t /\ match n' with hashNode _ => False | _ => True end.
Proof.
  intros Hr. destruct Hr as [|v|k c fl t Hr Hfl|cs fl ts Hrs Hfl|h n t Hdb Hn Hr Hh].
  1-4: eexists; split; [done|]; split; [by constructor|done].
  exists n. simpl. rewrite (resolveHash_ok _ _ _ Hdb). split_and!; try done. by destruct n.
Qed.

(** The short node that replaces a full node with one child. *)
Lemma reduce_single f cs ts l t r prefix :
  Forall2 (rep (Below false)) cs ts -> ts = l ++ t :: r -> children_ok ts -> t <> TEmpty ->
  Forall (fun t => t = TEmpty) l -> Forall (fun t => t = TEmpty) r ->
  exists n' t', reduce cs prefix = Ok (true, n') /\ rep (top f) n' t' /\ canon t' /\
    (forall k, tfind t' k = tfind (TFull ts) k) /\ match n' with hashNode _ => False | _ => True end.
Proof.
  intros Hrs Hts (Hlen & Hch & Hval) Ht Hl Hr. subst ts.
  apply Forall2_app_inv_r in Hrs as (cl & cr' & Hcl & Hcr' & ->).
  apply Forall2_cons_inv_r in Hcr' as (c & cr & Hc & Hcr & ->).
  assert (Hcn : is_nil c = false).
  { destruct (is_nil c) eqn:Hn; [|done]. by apply (rep_is_nil (Below false) c t Hc) in Hn. }
  assert (Hzl : zlen cl = zlen l) by (unfold zlen; by rewrite (Forall2_length _ _ _ Hcl)).
  unfold reduce. rewrite single_child_app by (done || by apply (rep_all_nil cl l)).
  rewrite single_child_nil by (by apply (rep_all_nil cr r)). rewrite Z.add_0_l.
  pose proof (zlen_nonneg cl). rewrite Z.geb_leb, (proj2 (Z.leb_le _ _)) by lia.
  rewrite idx_app. bind_simpl.
  rewrite length_app in Hlen. simpl in Hlen.
  assert (Hpos : 0 <= zlen cl < 17) by (unfold zlen in *; lia).
  rewrite u8_small by (unfold is_byte; lia).
  assert (Htf : forall k, tfind (TFull (l ++ t :: r)) k = tfind (TShort [zlen cl] t) k).
  { intros k. rewrite tfind_single by done. destruct k as [|i k]; [done|]. cbn [tfind strip].
    rewrite Hzl, Z.eqb_sym. by destruct (_ =? _). }
  destruct (Z.eqb_spec (zlen cl) 16) as [H16|H16]; simpl negb; cbv iota.
  - assert (Hv : value_child t).
    { apply Hval. replace 16%nat with (length l) by (unfold zlen in *; lia). by rewrite list_lookup_middle. }
    destruct Hv as [?|(v & -> & Hv)]; [done|]. bind_simpl.
    exists (shortNode [zlen cl] c newFlag), (TShort [zlen cl] (TValue v)). split; [done|].
    rewrite H16 in *. split_and!; try done; [by constructor|]. by apply (canon_leaf []).
  - destruct (Hch (length l) t) as [?|Hct]; [unfold zlen in *; lia|by rewrite list_lookup_middle|done|].
    assert (Hnib : is_nibble (zlen cl)) by (unfold is_nibble; lia).
    destruct (resolve_rep (Below false) c t prefix Hc) as (n' & -> & Hn' & Hnh). bind_simpl.
    destruct Hct as [ns v Hns Hv|ns ts Hns Hne Hts|ts H1 H2 H3 H4].
    + apply rep_TShort_inv in Hn' as [(d & fl & -> & Hd%rep_lift & _)|[h ->]]; [|done].
      eexists _, (TShort (zlen cl :: ns ++ [16]) (TValue v)). split; [done|]. split; [by constructor|].
      split_and!; try done; [by apply (canon_leaf (_ :: _)); [constructor|]|].
      intros k. rewrite Htf. destruct k as [|i k]; [done|]. cbn [tfind strip]. by destruct (_ =? i).
    + apply rep_TShort_inv in Hn' as [(d & fl & -> & Hd%rep_lift & _)|[h ->]]; [|done].
      eexists _, (TShort (zlen cl :: ns) (TFull ts)). split; [done|]. split; [by constructor|].
      split_and!; try done; [by constructor; [constructor|..]|].
      intros k. rewrite Htf. destruct k as [|i k]; [done|]. cbn [tfind strip]. by destruct (_ =? i).
    + assert (Hcf : canon (TFull ts)) by (by constructor).
      apply rep_TFull_inv in Hn' as [(ds & fl & -> & Hd & Hfl)|[h ->]]; [|done].
      eexists _, (TShort [zlen cl] (TFull ts)). split; [done|]. split; [by constructor|].
      split_and!; try done. constructor; [by apply Forall_singleton|done|done].
Qed.

Lemma reduce_spec f cs ts prefix i :
  Forall2 (rep (Below false)) cs ts -> children_ok ts -> filled ts i ->
  exists n' t', reduce cs prefix = Ok (true, n') /\ rep (top f) n' t' /\ canon t' /\
    (forall k, tfind t' k = tfind (TFull ts) k) /\ match n' with hashNode _ => False | _ => True end.
Proof.
  intros Hrs Hok Hi. destruct (first_filled _ _ Hi) as (l & t & r & Hts & Hl & Ht).
  destruct (decide (Forall (fun t => t = TEmpty) r)) as [Hr|Hr]; [by eapply reduce_single|].
  assert (Hcan : canon (TFull ts)).
  { apply canon_TFull. split; [done|].
    apply not_Forall_Exists, Exists_exists in Hr as (u & Hin & Hu); [|apply _].
    apply list_elem_of_lookup in Hin as (j & Hj). exists (length l), (length l + S j)%nat. split; [lia|]. subst ts. split.
    - exists t. by rewrite list_lookup_middle.
    - exists u. split; [|done]. rewrite lookup_app_r by lia.
      replace (length l + S j - length l)%nat with (S j) by lia. done. }
  exists (fullNode cs newFlag), (TFull ts). split_and!; try done; [|by constructor].
  unfold reduce. subst ts.
  apply Forall2_app_inv_r in Hrs as (cl & cr' & Hcl & Hcr' & ->).
  apply Forall2_cons_inv_r in Hcr' as (c & cr & Hc & Hcr & ->).
  rewrite single_child_app, single_child_more; [done| | | |].
  - pose proof (zlen_nonneg cl). lia.
  - by rewrite (rep_all_nil cr r).
  - by apply (rep_all_nil cl l).
  - destruct (is_nil c) eqn:Hn; [|done]. by apply (rep_is_nil (Below false) c t Hc) in Hn.
Qed.
Definition deletes (fuel : nat) : Prop :=
  forall f n t prefix key,
    rep (top f) n t -> pos_ok t key -> (rounds n key <= fuel)%nat ->
    exists d n', delete fuel n prefix key = Ok (d, n') /\ deleted f t key d n'.

(** Nothing to delete. *)
Lemma deleted_absent f n t key :
  rep (top f) n t -> pos_ok t key -> tfind t key = None -> (forall ts, t = TFull ts -> t <> TEmpty) ->
  deleted f t key false n.
Proof.
  intros Hr Hp Hnone Hne. exists t. split_and!; try done. intros k. unfold tdel.
  case_decide as Hk; [by subst|done].
Qed.

Lemma strip_prefix_None p a b x y :
  x <> y -> strip (p ++ x :: a) (p ++ y :: b) = None.
Proof. intros Hne. rewrite strip_app_l, strip_app. simpl. by rewrite (proj2 (Z.eqb_neq x y)). Qed.

Lemma delete_full fuel f cs fl ts prefix x key :
  deletes fuel -> Forall2 (rep (below fl)) cs ts -> flag_ok (top f) fl (TFull ts) -> canon (TFull ts) -> terminated (x :: key) ->
  (2 * length (x :: key) <= fuel)%nat ->
  exists d n', delete (S fuel) (fullNode cs fl) prefix (x :: key) = Ok (d, n') /\
    deleted f (TFull ts) (x :: key) d n'.
Proof.
  intros IH Hrs Hfl Hc Ht Hf. destruct (pos_full _ _ _ Hc Ht) as (Hi & t & Hts & Hpos).
  destruct (Forall2_idx _ cs ts x t Hrs ltac:(lia) Hts) as (c & Hidx & Hcc & Hrc).
  cbn [delete]. rewrite idx_0, slice_from_1. bind_simpl. rewrite Hidx. bind_simpl.
  destruct (IH false c t (prefix ++ [x]) key (rep_lift _ _ _ Hrc) Hpos) as (d & n' & -> & t' & Hr' & Hp' & Hset & Hd & _ & _).
  { by apply (rounds_child _ x). }
  bind_simpl. destruct (Forall2_upd (Below false) cs ts x n' t' c (Forall2_lift _ _ _ Hrs) ltac:(lia) Hcc Hr') as [Hu Hrs'].
  assert (Hzl : 0 <= x < zlen ts) by (apply lookup_lt_Some in Hts; unfold zlen; lia).
  assert (Hset' : forall k, tfind (TFull (<[Z.to_nat x := t']> ts)) k = tdel (TFull ts) (x :: key) k).
  { intros k. rewrite tfind_full_insert by done. unfold tdel. destruct k as [|j r]; [done|].
    destruct (Z.eqb_spec j x) as [->|Hjx].
    - rewrite Hset. unfold tdel. destruct (decide (r = key)) as [->|]; [by rewrite decide_True|].
      rewrite decide_False by congruence. by rewrite tfind_full, Hts by lia.
    - by rewrite decide_False by congruence. }
  destruct d; simpl.
  - rewrite Hu. bind_simpl. apply canon_TFull in Hc as [Hok (a & b & Hab & Ha & Hb)].
    assert (Hrest : exists i, filled (<[Z.to_nat x := t']> ts) i).
    { destruct (decide (a = Z.to_nat x)) as [->|Hax].
      - destruct Hb as (u & Hu' & Hne). exists b, u. by rewrite list_lookup_insert_ne.
      - destruct Ha as (u & Hu' & Hne). exists a, u. by rewrite list_lookup_insert_ne. }
    destruct Hrest as [i Hfi].
    destruct (reduce_spec f _ _ prefix i Hrs') as (m & u & Hrun & Hru & Hcu & Hfu & Hnh); [|done|].
    { apply children_ok_insert; [done|]. destruct (decide (t' = TEmpty)) as [->|Hne]; [by right|].
      left. by apply (fits_pos x key). }
    exists true, m. split; [done|]. exists u. split_and!; try done.
    + left. by split; [right|].
    + intros k. by rewrite Hfu, Hset'.
    + by inversion Hcu.
  - eexists _, _. split; [done|]. exists (TFull ts). split; [by constructor|].
    split_and!; try done; [left; by split; [right|]|].
    intros k. rewrite <- Hset'. rewrite (Hd eq_refl), list_insert_id; done.
Qed.

(** The merge of a short node with the short node below it. *)
Lemma deleted_merge f k c t t' r :
  canon (TShort k t) -> (exists ts, t = TFull ts) -> terminated (k ++ r) -> r <> [] ->
  rep (Below false) c t' -> pos_ok t' r -> t' <> TEmpty -> (forall k', tfind t' k' = tdel t r k') ->
  match c with hashNode _ => False | _ => True end ->
  deleted f (TShort k t) (k ++ r) true
    match c with
    | shortNode ck cv _ => shortNode (concat_keys k ck) cv newFlag
    | _ => shortNode k c newFlag
    end.
Proof.
  intros Hc [ts ->] Hterm Hrn Hr Hp Hne Hset Hnh.
  inversion Hc as [|ns ts0 Hns Hn0 Hts|]; subst.
  assert (Hct : canon t') by (destruct Hp as [[[?|?] _]|[_ ?]]; done).
  assert (Hset' : forall k', tfind (TShort k t') k' = tdel (TShort k (TFull ts)) (k ++ r) k').
  { intros k'. unfold tdel. cbn [tfind]. destruct (strip k k') as [r'|] eqn:Hs'.
    - apply strip_Some in Hs' as ->. rewrite Hset. unfold tdel.
      destruct (decide (r' = r)) as [->|]; [by rewrite decide_True|].
      rewrite decide_False; [done|]. intros He. by apply app_inv_head in He.
    - rewrite decide_False; [done|]. intros ->. by rewrite strip_app in Hs'. }
  assert (Hmerge : forall ck u, t' = TShort ck u -> canon (TShort (k ++ ck) u) ->
            forall c0, rep (Below false) c0 u -> deleted f (TShort k (TFull ts)) (k ++ r) true (shortNode (concat_keys k ck) c0 newFlag)).
  { intros ck u -> Hcu c0 Hc0. exists (TShort (k ++ ck) u). split; [by constructor|]. split_and!; try done.
    - left. by split; [right|].
    - intros k'. rewrite <- Hset'. cbn [tfind]. rewrite strip_app_l. by destruct (strip k k'). }
  destruct Hct as [ns v Hn Hv|ns ts' Hn Hne' Hts'|ts' H1 H2 H3 H4].
  - apply rep_TShort_inv in Hr as [(d & fl & -> & Hd%rep_lift & _)|[h ->]]; [|done].
    eapply Hmerge; [done| |done]. rewrite app_assoc. constructor; [by apply Forall_app|done].
  - apply rep_TShort_inv in Hr as [(d & fl & -> & Hd%rep_lift & _)|[h ->]]; [|done].
    eapply Hmerge; [done| |done]. constructor; [by apply Forall_app|by destruct k|done].
  - apply rep_TFull_inv in Hr as [(ds & fl & -> & Hd & Hfl)|[h ->]]; [|done].
    exists (TShort k (TFull ts')). split; [by repeat constructor|]. split_and!; try done.
    left. split; [right|done]. constructor; [done..|]. by constructor.
Qed.

Lemma delete_short fuel f c fl t k r prefix :
  deletes fuel -> rep (below fl) c t -> flag_ok (top f) fl (TShort k t) -> canon (TShort k t) -> terminated (k ++ r) -> (2 * length (k ++ r) <= fuel)%nat ->
  exists d n', delete (S fuel) (shortNode k c fl) prefix (k ++ r) = Ok (d, n') /\
    deleted f (TShort k t) (k ++ r) d n'.
Proof.
  intros IH Hr Hfl Hc Ht Hf. destruct (pos_short _ _ _ Hc Ht) as (Hpos & Hk & Hte).
  assert (Hm : prefixLen (k ++ r) k = zlen k).
  { destruct (prefixLen_spec (k ++ r) k) as (p & a & b & Ha & -> & -> & Hm).
    destruct b as [|y b]; [by rewrite app_nil_r|]. rewrite <- app_assoc in Ha. apply app_inv_head in Ha. subst a. done. }
  cbn [delete]. rewrite Hm, Z.ltb_irrefl, zlen_app. pose proof (zlen_nonneg r).
  destruct (Z.eqb_spec (zlen k) (zlen k + zlen r)) as [Hz|Hz].
  { assert (r = []) as -> by (apply zlen_0_inv; lia). rewrite app_nil_r in *.
    eexists _, _. split; [done|]. exists TEmpty. split; [constructor|]. split_and!; try done.
    - left. by split; [left|].
    - intros k'. unfold tdel. case_decide as Hk'; [done|]. cbn [tfind].
      destruct (strip k k') as [r'|] eqn:Hs; [|done]. apply strip_Some in Hs as ->.
      apply pos_empty in Hpos as [->|(v & -> & _)]; [done|]. destruct r'; [|done]. by rewrite app_nil_r in Hk'. }
  assert (Hrn : r <> []) by (intros ->; rewrite zlen_nil in *; lia).
  assert (Htf : exists ts, t = TFull ts).
  { inversion Hc as [ns v Hns Hv|ns ts Hns Hn0 Hts|]; subst; [|by eauto].
    destruct Hrn. eapply terminated_prefix; [by exists ns|done]. }
  pose proof (slice_app (E:=trie_error) [] k r) as Hs. simpl app in Hs. change (zlen []) with 0 in Hs.
  rewrite Z.add_0_l in Hs. rewrite Hs, slice_from_app. bind_simpl.
  destruct (IH false c t (prefix ++ k) r (rep_lift _ _ _ Hr) Hpos) as (d & n' & -> & t' & Hr' & Hp' & Hset & Hd & Hnh & Hne).
  { by apply (rounds_app _ k). }
  bind_simpl. destruct Htf as [ts ->]. destruct d; simpl.
  - assert (Hdel : deleted f (TShort k (TFull ts)) (k ++ r) true
       match n' with shortNode ck cv _ => shortNode (concat_keys k ck) cv newFlag | _ => shortNode k n' newFlag end).
    { apply (deleted_merge f k n' (TFull ts) t' r); try done; [by eauto|by apply (Hne ts)|by apply Hnh]. }
    destruct n'; eexists _, _; (split; [done|]); exact Hdel.
  - eexists _, _. split; [done|]. exists (TShort k (TFull ts)). split; [by constructor|].
    split_and!; try done; [left; by split; [right|]|].
    intros k'. rewrite (Hd eq_refl) in Hset. unfold tdel in *. case_decide as Hk'; [|done]. subst k'.
    rewrite tfind_short, Hset. by rewrite decide_True.
Qed.

Lemma delete_spec fuel : deletes fuel.
Proof.
  induction fuel as [|fuel IH]; intros f n t prefix key Hr Hp Hf; [unfold rounds in Hf; destruct n; lia|].
  destruct Hr as [|w|k c fl t Hr Hfl|cs fl ts Hrs Hfl|h n t Hdb Hn Hr Hh].
  - eexists _, _. split; [done|]. apply deleted_absent; [constructor|done..].
  - destruct Hp as [[[?|Hc] _]|[Hv ->]]; [done|inversion Hc|]. eexists _, _. split; [done|].
    exists TEmpty. split; [constructor|]. split_and!; try done; [apply pos_empty; by left|].
    intros k. unfold tdel. case_decide; [done|]. by destruct k.
  - assert (Hct : canon (TShort k t) /\ terminated key).
    { destruct Hp as [[[?|?] ?]|[[?|(? & ? & _)] _]]; done. }
    destruct Hct as [Hc Ht].
    destruct (prefixLen_spec key k) as (p & b & a & Hb & Ha & Hpl & Hd).
    destruct (short_mismatch k t key p a b Hc Ht Hb Ha) as [->|(y & a' & z & b' & -> & -> & Hne)];
      [by destruct b, a|..].
    + rewrite app_nil_r in Ha. subst p. subst key. apply delete_short; try done. unfold rounds in Hf. lia.
    + cbn [delete]. rewrite Hpl. subst k key. pose proof (zlen_nonneg a').
      rewrite (proj2 (Z.ltb_lt _ _)) by (rewrite zlen_app, zlen_cons; lia).
      eexists _, _. split; [done|]. apply deleted_absent; [by constructor|done| |done].
      cbn [tfind]. by rewrite strip_prefix_None.
  - assert (Hct : canon (TFull ts) /\ terminated key).
    { destruct Hp as [[[?|?] ?]|[[?|(? & ? & _)] _]]; done. }
    destruct Hct as [Hc Ht]. destruct key as [|x key]; [by apply terminated_nonnil in Ht|].
    apply delete_full; try done. unfold rounds in Hf. lia.
  - cbn [delete]. rewrite (resolveHash_ok _ _ _ Hdb). bind_simpl.
    destruct (IH f n t prefix key Hr Hp) as (d & n' & -> & t' & Hr' & Hp' & Hset & Hd & Hnh & Hne);
      [unfold rounds in *; destruct n; done || lia|].
    bind_simpl. destruct d; simpl; eexists _, _; (split; [done|]).
    + exists t'. by split_and!.
    + exists t. rewrite (Hd eq_refl) in *. by split_and!.
Qed.
End correctness.
(** ** Canonical trees are determined by their contents *)

Section canon_strong_ind.
Context (P : tree -> Prop).
Context (Hleaf : forall ns v, Forall is_nibble ns -> v <> [] -> P (TShort (ns ++ [16]) (TValue v))).
Context (Hext : forall ns ts, Forall is_nibble ns -> ns <> [] -> canon (TFull ts) -> P (TFull ts) ->
                P (TShort ns (TFull ts))).
Context (Hfull : forall ts, canon (TFull ts) ->
                 (forall i t, (i < 16)%nat -> ts !! i = Some t -> t = TEmpty \/ (canon t /\ P t)) -> P (TFull ts)).

Lemma canon_strong_ind : forall t, canon t -> P t.
Proof.
  fix IH 2. intros t Hc. destruct Hc as [ns v Hns Hv|ns ts Hns Hne Hts|ts Hl Hch Hval Htwo].
  - by apply Hleaf.
  - apply Hext; [done..|]. exact (IH _ Hts).
  - apply Hfull; [by constructor|]. intros i t Hi Ht.
    destruct (Hch i t Hi Ht) as [He|Hct]; [by left|]. right. split; [exact Hct|exact (IH t Hct)].
Qed.
End canon_strong_ind.

Definition bound (t : tree) (k : list Z) : Prop := is_Some (tfind t k).

Lemma bound_short k t key : bound (TShort k t) key -> exists r, key = k ++ r /\ bound t r.
Proof.
  unfold bound. cbn [tfind]. destruct (strip k key) as [r|] eqn:Hs; [|by intros [? ?]].
  apply strip_Some in Hs as ->. eauto.
Qed.

Lemma filled_bound ts i :
  canon (TFull ts) -> filled ts i ->
  (forall j t, (j < 16)%nat -> ts !! j = Some t -> t = TEmpty \/ exists k, bound t k) ->
  exists k, bound (TFull ts) (Z.of_nat i :: k).
Proof.
  intros Hc (t & Ht & Hne) Hch. apply canon_TFull in Hc as [(Hl & _ & Hv) _].
  pose proof (lookup_lt_Some _ _ _ Ht). unfold bound.
  assert (Hb : exists k, is_Some (tfind t k)).
  { destruct (decide (i < 16)%nat) as [Hi|Hi].
    - by destruct (Hch i t Hi Ht) as [?|?].
    - assert (i = 16%nat) as -> by lia. destruct (Hv t Ht) as [?|(v & -> & _)]; [done|]. exists []. by eexists. }
  destruct Hb as [k Hk]. exists k. rewrite tfind_full by lia. by rewrite Nat2Z.id, Ht.
Qed.

Lemma canon_bound t : canon t -> exists k, bound t k.
Proof.
  revert t. apply canon_strong_ind.
  - intros ns v _ _. exists (ns ++ [16]). unfold bound. cbn [tfind].
    rewrite <- (app_nil_r (ns ++ [16])) at 2. rewrite strip_app. by eexists.
  - intros ns ts _ _ _ [k Hk]. exists (ns ++ k). unfold bound. by rewrite tfind_short.
  - intros ts Hc Hch. pose proof Hc as Hc'. apply canon_TFull in Hc' as [_ (i & j & _ & Hi & _)].
    destruct (filled_bound ts i Hc Hi) as [k Hk]; [|by eauto].
    intros m t Hm Ht. destruct (Hch m t Hm Ht) as [?|[_ ?]]; [by left|by right].
Qed.

(** A full node has keys that differ in their first nibble. *)
Lemma full_heads ts :
  canon (TFull ts) ->
  exists i j r s, i <> j /\ bound (TFull ts) (i :: r) /\ bound (TFull ts) (j :: s).
Proof.
  intros Hc. pose proof Hc as Hc'. apply canon_TFull in Hc' as [(_ & Hch & _) (i & j & Hij & Hi & Hj)].
  assert (Hb : forall m t, (m < 16)%nat -> ts !! m = Some t -> t = TEmpty \/ exists k, bound t k).
  { intros m t Hm Ht. destruct (Hch m t Hm Ht) as [?|?]; [by left|]. right. by apply canon_bound. }
  destruct (filled_bound ts i Hc Hi Hb) as [r Hr], (filled_bound ts j Hc Hj Hb) as [s Hs].
  exists (Z.of_nat i), (Z.of_nat j), r, s. split_and!; try done. lia.
Qed.

Lemma prefix_diverge (k k' : list Z) i r j s a b :
  i <> j -> k ++ i :: r = k' ++ a -> k ++ j :: s = k' ++ b -> exists m, k = k' ++ m.
Proof.
  intros Hij. revert k. induction k' as [|x k' IH]; intros k Ha Hb; [by exists k|].
  destruct k as [|y k]; simpl in *.
  - injection Ha as -> _. injection Hb as -> _. done.
  - injection Ha as -> Ha. injection Hb as Hb. destruct (IH k Ha Hb) as [m ->]. by exists m.
Qed.

Lemma short_full_distinct k t ts :
  k <> [] -> canon (TFull ts) -> ~ (forall key, tfind (TShort k t) key = tfind (TFull ts) key).
Proof.
  intros Hk Hc He. destruct (full_heads ts Hc) as (i & j & r & s & Hij & Hi & Hj).
  unfold bound in *. rewrite <- He in Hi, Hj.
  apply bound_short in Hi as (r' & Hr & _). apply bound_short in Hj as (s' & Hs & _).
  destruct k as [|x k]; [done|]. injection Hr as -> _. injection Hs as -> _. done.
Qed.

Lemma leaf_ext_distinct k v k' ts :
  canon (TFull ts) -> ~ (forall key, tfind (TShort k (TValue v)) key = tfind (TShort k' (TFull ts)) key).
Proof.
  intros Hc He. destruct (full_heads ts Hc) as (i & j & r & s & Hij & Hi & Hj).
  unfold bound in *. rewrite <- (tfind_short k') in Hi, Hj. rewrite <- He in Hi, Hj.
  apply bound_short in Hi as (r' & Hr & [w Hw]). apply bound_short in Hj as (s' & Hs & [w' Hw']).
  destruct r', s'; try done. rewrite <- Hs in Hr. apply app_inv_head in Hr. congruence.
Qed.

Lemma ext_keys k ts k' ts' :
  canon (TFull ts) -> (forall key, tfind (TShort k (TFull ts)) key = tfind (TShort k' (TFull ts')) key) ->
  exists m, k = k' ++ m.
Proof.
  intros Hc He. destruct (full_heads ts Hc) as (i & j & r & s & Hij & Hi & Hj).
  unfold bound in *. rewrite <- (tfind_short k) in Hi, Hj. rewrite He in Hi, Hj.
  apply bound_short in Hi as (a & Ha & _). apply bound_short in Hj as (b & Hb & _).
  by eapply prefix_diverge.
Qed.

Lemma canon_nonempty_find t : canon t -> ~ (forall k, tfind t k = None).
Proof. intros Hc Hn. destruct (canon_bound t Hc) as (k & v & Hk). by rewrite Hn in Hk. Qed.

Lemma full_children_eq ts ts' :
  canon (TFull ts) -> canon (TFull ts') ->
  (forall i t, (i < 16)%nat -> ts !! i = Some t -> t = TEmpty \/
     (canon t /\ forall t', canon t' -> (forall k, tfind t k = tfind t' k) -> t = t')) ->
  (forall k, tfind (TFull ts) k = tfind (TFull ts') k) -> ts = ts'.
Proof.
  intros [(Hl & _ & Hv) _]%canon_TFull [(Hl' & Hch' & Hv') _]%canon_TFull IH He.
  apply list_eq. intros i. destruct (decide (i < 17)%nat) as [Hi|Hi].
  2:{ rewrite !lookup_ge_None_2 by lia. done. }
  destruct (lookup_lt_is_Some_2 ts i) as [t Ht]; [lia|].
  destruct (lookup_lt_is_Some_2 ts' i) as [t' Ht']; [lia|]. rewrite Ht, Ht'. f_equal.
  assert (Hf : forall k, tfind t k = tfind t' k).
  { intros k. specialize (He (Z.of_nat i :: k)). rewrite !tfind_full, Nat2Z.id, Ht, Ht' in He by lia. done. }
  destruct (decide (i < 16)%nat) as [Hi16|Hi16].
  - destruct (IH i t Hi16 Ht) as [->|[Hc IHt]], (Hch' i t' Hi16 Ht') as [->|Hc']; [done| | |by apply IHt].
    + exfalso. apply (canon_nonempty_find t' Hc'). intros k. by rewrite <- Hf.
    + exfalso. apply (canon_nonempty_find t Hc). intros k. by rewrite Hf.
  - assert (i = 16%nat) as -> by lia. specialize (Hf []).
    destruct (Hv t Ht) as [->|(v & -> & _)], (Hv' t' Ht') as [->|(v' & -> & _)]; simpl in Hf; congruence.
Qed.

Lemma canon_unique t : canon t -> forall t', canon t' -> (forall k, tfind t k = tfind t' k) -> t = t'.
Proof.
  revert t. apply (canon_strong_ind (fun t =>
    forall t', canon t' -> (forall k, tfind t k = tfind t' k) -> t = t')).
  - intros ns v Hns Hv t' Hc' He.
    destruct Hc' as [ns' v' Hns' Hv'|ns' ts' Hns' Hne' Hts'|ts' Hl Hch Hval Htwo].
    + specialize (He ((ns' ++ [16]) ++ [])). cbn [tfind] in He. rewrite strip_app in He.
      destruct (strip _ _) as [r|] eqn:Hs; [|done]. destruct r; [|done]. injection He as ->.
      apply strip_Some in Hs. rewrite !app_nil_r in Hs. by rewrite Hs.
    + by destruct (leaf_ext_distinct _ _ _ _ Hts' He).
    + destruct (short_full_distinct (ns ++ [16]) (TValue v) ts'); [by destruct ns|by constructor|done].
  - intros ns ts Hns Hne Hts IH t' Hc' He.
    destruct Hc' as [ns' v' Hns' Hv'|ns' ts' Hns' Hne' Hts'|ts' Hl Hch Hval Htwo].
    + by destruct (leaf_ext_distinct (ns' ++ [16]) v' ns ts Hts).
    + destruct (ext_keys ns ts ns' ts' Hts He) as [m Hm].
      destruct (ext_keys ns' ts' ns ts Hts') as [m' Hm']; [done|].
      assert (m = []) as ->.
      { apply (f_equal length) in Hm, Hm'. rewrite length_app in Hm, Hm'. destruct m; [done|]. simpl in Hm. lia. }
      rewrite app_nil_r in Hm. subst ns'. f_equal. apply IH; [done|].
      intros k. by rewrite <- (tfind_short ns), He, tfind_short.
    + destruct (short_full_distinct ns (TFull ts) ts'); [done|by constructor|done].
  - intros ts Hc IH t' Hc' He.
    destruct Hc' as [ns' v' Hns' Hv'|ns' ts' Hns' Hne' Hts'|ts' Hl Hch Hval Htwo].
    + destruct (short_full_distinct (ns' ++ [16]) (TValue v') ts); [by destruct ns'|done|done].
    + by destruct (short_full_distinct ns' (TFull ts') ts).
    + f_equal. apply full_children_eq; [done|by constructor|done|done].
Qed.
(** ** The trie stores a map *)

Definition hexkey (key : list Z) : list Z := flat (unpack key) ++ [16].

Lemma hexkey_terminated key : bytes_ok key -> terminated (hexkey key).
Proof. intros Hk. exists (flat (unpack key)). split; [done|]. by apply flat_nibbles, unpack_ok. Qed.

Lemma flat_inj ps qs : flat ps = flat qs -> ps = qs.
Proof.
  revert qs. induction ps as [|[a b] ps IH]; intros [|[c d] qs]; simpl; try done.
  unfold flat in *. simpl. intros [= -> -> Heq]. f_equal. by apply IH.
Qed.

Lemma hexkey_inj k k' : hexkey k = hexkey k' -> k = k'.
Proof.
  unfold hexkey. intros He. apply app_inj_tail in He as [He _]. apply flat_inj in He.
  by rewrite <- (pack_unpack k), He, pack_unpack.
Qed.

Section map.
Context {db : NodeReader} {G : Guard} {HG : FreshGuard G}.

(** The tree stores the map. *)
Definition tree_map (T : tree) (m : gmap (list Z) (list Z)) : Prop :=
  canon0 T /\ forall k v, tfind T k = Some v <-> exists key, k = hexkey key /\ bytes_ok key /\ m !! key = Some v.

Definition stores (t : Trie) (m : gmap (list Z) (list Z)) : Prop :=
  exists T, rep Root (root t) T /\ tree_map T m.

Lemma empty_tree_map : tree_map TEmpty ∅.
Proof. split; [by left|]. intros k v. split; [done|]. intros (key & _ & _ & Hk). by rewrite lookup_empty in Hk. Qed.

Lemma tree_map_lookup T m key :
  tree_map T m -> bytes_ok key -> tfind T (hexkey key) = m !! key.
Proof.
  intros [_ Hm] Hk. apply option_eq. intros v. rewrite Hm. split; [|by eauto].
  intros (key' & Hh & _ & Hv). apply hexkey_inj in Hh as ->. done.
Qed.

Lemma tree_map_pos T m key : tree_map T m -> bytes_ok key -> pos_ok T (hexkey key).
Proof. intros [Hc _] Hk. left. split; [done|by apply hexkey_terminated]. Qed.

Lemma path_fuel_enough n key : (rounds n key <= path_fuel key)%nat.
Proof. unfold rounds, path_fuel. destruct n; lia. Qed.

Lemma pos_canon0 T key : bytes_ok key -> pos_ok T (hexkey key) -> canon0 T.
Proof.
  intros Hk [[? _]|[_ He]]; [done|]. by destruct (terminated_nonnil _ (hexkey_terminated key Hk)).
Qed.

Lemma TryGet_spec (t : Trie) (m : gmap (list Z) (list Z)) (key : list Z) :
  stores t m -> bytes_ok key ->
  exists t', TryGet t key = (Ok (m !! key), t') /\ stores t' m.
Proof.
  intros (T & Hr & Hm) Hk. unfold TryGet. rewrite keybytesToHex_spec. fold (hexkey key).
  destruct (tryGet_spec (path_fuel (hexkey key)) Root (root t) T [] (hexkey key) Hr) as (n' & b & Hrun & Hr' & _);
    [by apply (tree_map_pos T m)|apply path_fuel_enough|].
  simpl app in Hrun. change (zlen []) with 0 in Hrun. rewrite Hrun, (tree_map_lookup T m) by done.
  destruct b; eexists; (split; [done|]); by exists T.
Qed.

(** C9. [TryGet] returns what the map stores under the key, whether the
    nodes on the path are in memory or have to be loaded, and the trie goes
    on storing the same map, with whatever the client asks of the cached
    hashes. *)
Theorem TryGet_refines (t : Trie) (m : gmap (list Z) (list Z)) (key : list Z) :
  stores t m -> bytes_ok key ->
  exists t', TryGet t key = (Ok (m !! key), t') /\ stores t' m.
Proof. apply TryGet_spec. Qed.

Lemma tree_map_insert T T' m key v :
  tree_map T m -> bytes_ok key -> canon0 T' -> (forall k, tfind T' k = tset T (hexkey key) v k) ->
  tree_map T' (<[key := v]> m).
Proof.
  intros [Hc Hm] Hk Hc' Hset. split; [done|]. intros k w. rewrite Hset. unfold tset. case_decide as Hd.
  - subst k. split.
    + intros [= <-]. exists key. by rewrite lookup_insert_eq.
    + intros (key' & Hh & _ & Hw). apply hexkey_inj in Hh as <-. by rewrite lookup_insert_eq in Hw.
  - rewrite Hm. split; intros (key' & -> & Hb & Hw); exists key'; (split; [done|]); (split; [done|]).
    + rewrite lookup_insert_ne; [done|]. by intros ->.
    + rewrite lookup_insert_ne in Hw; [done|]. by intros ->.
Qed.

Lemma tree_map_delete T T' m key :
  tree_map T m -> bytes_ok key -> canon0 T' -> (forall k, tfind T' k = tdel T (hexkey key) k) ->
  tree_map T' (base.delete key m).
Proof.
  intros [Hc Hm] Hk Hc' Hdel. split; [done|]. intros k w. rewrite Hdel. unfold tdel. case_decide as Hd.
  - subst k. split; [done|]. intros (key' & Hh & _ & Hw). apply hexkey_inj in Hh as <-.
    by rewrite lookup_delete_eq in Hw.
  - rewrite Hm. split; intros (key' & -> & Hb & Hw); exists key'; (split; [done|]); (split; [done|]).
    + rewrite lookup_delete_ne; [done|]. by intros ->.
    + rewrite lookup_delete_ne in Hw; [done|]. by intros ->.
Qed.

Lemma TryUpdate_spec (t : Trie) (m : gmap (list Z) (list Z)) (key value : list Z) :
  stores t m -> bytes_ok key ->
  exists t', TryUpdate t key value = (Ok tt, t') /\
    stores t' (if decide (value = []) then base.delete key m else <[key := value]> m).
Proof.
  intros (T & Hr & Hm) Hk. unfold TryUpdate. rewrite keybytesToHex_spec. fold (hexkey key). simpl root.
  pose proof (tree_map_pos T m key Hm Hk) as Hp. pose proof (path_fuel_enough (root t) (hexkey key)) as Hf.
  case_decide as Hv.
  - subst value. change (negb (zlen [] =? 0)) with false. cbv iota.
    destruct (delete_spec _ true (root t) T [] (hexkey key) Hr Hp Hf) as (d & n' & -> & T' & Hr' & Hp' & Hdel & _).
    eexists. split; [done|]. exists T'. split; [done|].
    eapply tree_map_delete; [done..| |done]. by eapply pos_canon0.
  - assert (Hz : (zlen value =? 0) = false).
    { apply Z.eqb_neq. by intros ?%zlen_0_inv. }
    rewrite Hz. simpl negb. cbv iota.
    destruct (insert_spec _ true (root t) T [] (hexkey key) value Hr Hp Hv Hf) as (d & n' & -> & T' & Hr' & Hp' & _ & Hset & _).
    eexists. split; [done|]. exists T'. split; [done|].
    eapply tree_map_insert; [done..| |done]. by eapply pos_canon0.
Qed.

(** C8. [TryUpdate] succeeds on every stored trie: with a value it sets the
    key of the map, with the empty value it removes it, as [TryDelete] does,
    and no other key changes.  The tree stays canonical, and the flags of the
    nodes go on satisfying what the client asks of them. *)
Theorem TryUpdate_refines (t : Trie) (m : gmap (list Z) (list Z)) (key value : list Z) :
  stores t m -> bytes_ok key ->
  (exists t', TryUpdate t key value = (Ok tt, t') /\
    stores t' (if decide (value = []) then base.delete key m else <[key := value]> m)) /\
  (exists t', TryDelete t key = (Ok tt, t') /\ stores t' (base.delete key m)).
Proof. intros Hs Hk. split; [by apply TryUpdate_spec|]. exact (TryUpdate_spec t m key [] Hs Hk). Qed.

Lemma tree_map_unique T T' m : tree_map T m -> tree_map T' m -> T = T'.
Proof.
  intros (Hc & Hm) (Hc' & Hm').
  assert (Hf : forall k, tfind T k = tfind T' k).
  { intros k. apply option_eq. intros v. by rewrite Hm, Hm'. }
  destruct Hc as [->|Hc], Hc' as [->|Hc']; [done| | |by apply canon_unique].
  - exfalso. apply (canon_nonempty_find T' Hc'). intros k. by rewrite <- Hf.
  - exfalso. apply (canon_nonempty_find T Hc). intros k. by rewrite Hf.
Qed.

(** The stored map determines the tree: two tries that store the same
    map, whatever the order of the operations that built them and whatever
    part of them is loaded, stand for the same tree of nodes. *)
Theorem trie_canonical (t t' : Trie) (m : gmap (list Z) (list Z)) :
  stores t m -> stores t' m -> exists T, rep Root (root t) T /\ rep Root (root t') T.
Proof.
  intros (T & Hr & Hm) (T' & Hr' & Hm'). exists T. split; [done|]. by rewrite (tree_map_unique T T' m).
Qed.

(** ** Missing nodes *)

Definition missing (e : trie_error) : Prop :=
  match e with MissingNodeError h _ => db_node h = None end.

Lemma resolveHash_err h prefix e : resolveHash h prefix = Err e -> missing e.
Proof. unfold resolveHash. destruct (db_node _) eqn:Hd; [done|]. by intros [= <-]. Qed.

Lemma tryGet_err fuel n key pos e : tryGet fuel n key pos = Err e -> missing e.
Proof.
  revert n key pos. induction fuel as [|fuel IH]; intros n key pos; [done|].
  destruct n as [|v|k c fl|cs fl|h]; cbn [tryGet]; intros H; err_inv H; eauto using resolveHash_err.
Qed.

Lemma insert_err fuel n prefix key value e : insert fuel n prefix key value = Err e -> missing e.
Proof.
  revert n prefix key value. induction fuel as [|fuel IH]; intros n prefix key value; [done|].
  cbn [insert]. destruct (zlen key =? 0); [by destruct n, value|].
  destruct n as [|v|k c fl|cs fl|h]; intros H; err_inv H; eauto using resolveHash_err.
Qed.

Lemma resolve_err n prefix e : resolve n prefix = Err e -> missing e.
Proof. destruct n; simpl; try done. apply resolveHash_err. Qed.

Lemma reduce_err cs prefix e : reduce cs prefix = Err e -> missing e.
Proof.
  unfold reduce. intros H. err_inv H; eauto using resolve_err. by destruct r0.
Qed.

Lemma delete_err fuel n prefix key e : delete fuel n prefix key = Err e -> missing e.
Proof.
  revert n prefix key. induction fuel as [|fuel IH]; intros n prefix key; [done|].
  cbn [delete]. destruct n as [|v|k c fl|cs fl|h]; intros H; err_inv H; eauto using resolveHash_err, reduce_err.
  by destruct n.
Qed.

(** The only error of the trie is a node that the database does not
    have, and an operation that fails with it leaves the tree as it was. *)
Theorem trie_missing_node (t : Trie) (key value : list Z) (e : trie_error) (t' : Trie) :
  (TryGet t key).1 = Err e /\ t' = (TryGet t key).2 \/
  TryUpdate t key value = (Err e, t') \/ TryDelete t key = (Err e, t') ->
  missing e /\ root t' = root t.
Proof.
  unfold TryGet, TryUpdate, TryDelete, set_root. rewrite keybytesToHex_spec. fold (hexkey key).
  intros [[H ->]|[H|H]].
  - destruct (tryGet _ _ _ _) as [[[? ?] ?]|e'|] eqn:Hg; try done. simpl in *. injection H as ->.
    split; [by eapply tryGet_err|done].
  - destruct (negb _).
    + destruct (insert _ _ _ _ _) as [[? ?]|e'|] eqn:Hg; try done. injection H as -> <-.
      split; [by eapply insert_err|done].
    + destruct (delete _ _ _ _) as [[? ?]|e'|] eqn:Hg; try done. injection H as -> <-.
      split; [by eapply delete_err|done].
  - destruct (delete _ _ _ _) as [[? ?]|e'|] eqn:Hg; try done. injection H as -> <-.
    split; [by eapply delete_err|done].
Qed.
End map.

(** A database with one node. *)
Definition sample_db : NodeReader := fun h =>
  if decide (h = replicate 32 1) then Some (shortNode (hexkey [18]) (valueNode [7]) (NodeFlag None false))
  else None.
Definition sample_trie : Trie := MkTrie (hashNode (replicate 32 1)) 0.

Definition sample_map : gmap (list Z) (list Z) := {[ [18] := [7] ]}.
Definition sample_tree : tree := TShort (hexkey [18]) (TValue [7]).

Lemma sample_tree_map : tree_map sample_tree sample_map.
Proof.
  split; [right; apply canon_leaf; [solve_decidable|done]|].
  intros k v. unfold sample_tree, sample_map. cbn [tfind]. split.
  - destruct (strip (hexkey [18]) k) as [[|? ?]|] eqn:Hs; try done. intros [= <-].
    apply strip_Some in Hs as ->. rewrite app_nil_r. exists [18]. split_and!; [done|solve_decidable|done].
  - intros (key & -> & _ & Hm). apply lookup_singleton_Some in Hm as [<- <-]. done.
Qed.

Lemma sample_stores : stores (db := sample_db) (G := no_guard) sample_trie sample_map.
Proof.
  exists sample_tree. split; [|apply sample_tree_map].
  eapply rep_hash; [reflexivity|done| |done]. by repeat constructor.
Qed.

Lemma TryGet_refines_witness :
  exists t', TryGet (db := sample_db) sample_trie [18] = (Ok (sample_map !! [18]), t') /\
    stores (db := sample_db) (G := no_guard) t' sample_map.
Proof. apply (TryGet_refines (db := sample_db) (G := no_guard)); [apply sample_stores|solve_decidable]. Defined.

Lemma TryUpdate_refines_witness :
  (exists t', TryUpdate (db := sample_db) sample_trie [19; 20] [9] = (Ok tt, t') /\
    stores (db := sample_db) (G := no_guard) t' (<[ [19; 20] := [9] ]> sample_map)) /\
  (exists t', TryDelete (db := sample_db) sample_trie [19; 20] = (Ok tt, t') /\
    stores (db := sample_db) (G := no_guard) t' (base.delete [19; 20] sample_map)).
Proof.
  apply (TryUpdate_refines (db := sample_db) (G := no_guard) sample_trie sample_map [19; 20] [9]);
    [apply sample_stores|solve_decidable].
Defined.

(** The same map, from the database and built in memory. *)
Definition fresh_trie : Trie := MkTrie (shortNode (hexkey [18]) (valueNode [7]) newFlag) 1.

Lemma fresh_stores : stores (db := sample_db) (G := no_guard) fresh_trie sample_map.
Proof.
  destruct sample_stores as (T & Hr & Hm). exists T. split; [|done].
  inversion Hr as [| | | |h n ? Hdb Hn Hr' Hh]; subst. injection Hdb as <-.
  inversion Hr'; subst. by constructor.
Qed.

Lemma trie_canonical_witness :
  exists T, rep (db := sample_db) (G := no_guard) Root (root sample_trie) T /\ rep (db := sample_db) (G := no_guard) Root (root fresh_trie) T.
Proof.
  apply (trie_canonical (db := sample_db) (G := no_guard) sample_trie fresh_trie sample_map);
    [apply sample_stores|apply fresh_stores].
Defined.

Definition no_db : NodeReader := fun _ => None.

Lemma trie_missing_node_witness :
  missing (db := no_db) (MissingNodeError (replicate 32 1) []) /\ root sample_trie = root sample_trie.
Proof.
  apply (trie_missing_node (db := no_db) sample_trie [18] [9] _ (MkTrie (root sample_trie) 1)).
  right. left. reflexivity.
Defined.
