(* ===== verification/TrieNode.v ===== *)
(** * Stored trie nodes (src/trie/node.go)

    The RLP form of nodes and [decodeNode], which reads them back.  The file
    shows that every well-formed collapsed node decodes to itself, and that
    decoding terminates without panic on every input. *)
From stdpp Require Import prelude list.
From Stdlib Require Import ZArith Lia.
From S2P Require Import Prelude RlpEncode RlpRaw RlpStream TrieEncoding Trie.

Inductive node_error :=
| NErrEOF                          (* io.ErrUnexpectedEOF on an empty buffer *)
| NErrDecode (e : rlp_error)       (* "decode error" *)
| NErrCount (c : Z)                (* invalid number of list elements *)
| NErrRlp (e : rlp_error)
| NErrValue (e : rlp_error)        (* invalid value node *)
| NErrOversized (size : Z)         (* oversized embedded node *)
| NErrString (size : Z).           (* invalid RLP string size *)

Abbreviation nd A := (outcome node_error A).

(** [x, err := ...; if err != nil { return wrap(err) }] *)
Definition with_err {A} (wrap : rlp_error -> node_error) (m : rlp A) : nd A :=
  match m with
  | Ok a => Ok a
  | Err e => Err (wrap e)
  | Panic => Panic
  end.

Definition lift_go {A} (m : go A) : nd A :=
  match m with Ok a => Ok a | _ => Panic end.

Definition hashLen : Z := 32.

(** The sixteen children of [decodeFull]. *)
Fixpoint decode_children (dec : list Z -> nd (node * list Z)) (n : nat) (elems : list Z)
    : nd (list node * list Z) :=
  match n with
  | O => Ok ([], elems)
  | S n =>
      '(cld, rest) ← dec elems;
      '(cs, elems) ← decode_children dec n rest;
      Ok (cld :: cs, elems)
  end.

Definition decodeFull (dec : list Z -> nd (node * list Z)) (hash : option (list Z)) (elems : list Z)
    : nd node :=
  '(cs, elems) ← decode_children dec 16 elems;
  '(val, _) ← with_err NErrRlp (SplitString elems);
  let c16 := if zlen val >? 0 then valueNode val else nilNode in
  Ok (fullNode (cs ++ [c16]) (NodeFlag hash false)).

Definition decodeShort (dec : list Z -> nd (node * list Z)) (hash : option (list Z)) (elems : list Z)
    : nd node :=
  '(kbuf, rest) ← with_err NErrRlp (SplitString elems);
  let flag := NodeFlag hash false in
  key ← lift_go (compactToHex kbuf);
  if hasTerm key then
    '(val, _) ← with_err NErrValue (SplitString rest);
    Ok (shortNode key (valueNode val) flag)
  else
    '(r, _) ← dec rest;
    Ok (shortNode key r flag).

Definition decodeRef (decodeNode : option (list Z) -> list Z -> nd node) (buf : list Z)
    : nd (node * list Z) :=
  '(kind, val, rest) ← with_err NErrRlp (Split buf);
  match kind with
  | List =>
      let size := zlen buf - zlen rest in
      if size >? hashLen then Err (NErrOversized size)
      else n ← decodeNode None buf; Ok (n, rest)
  | _ =>
      if bool_decide (kind = String) && (zlen val =? 0) then Ok (nilNode, rest)
      else if bool_decide (kind = String) && (zlen val =? 32) then Ok (hashNode val, rest)
      else Err (NErrString (zlen val))
  end.

(** [decodeNode] and [decodeRef] call each other; every embedded node is
    shorter than the list it is in, so the length of the buffer is fuel. *)
Fixpoint decodeNode (fuel : nat) (hash : option (list Z)) (buf : list Z) : nd node :=
  match fuel with
  | O => Panic
  | S fuel =>
      if zlen buf =? 0 then Err NErrEOF
      else
        '(elems, _) ← with_err NErrDecode (SplitList buf);
        c ← (match CountValues elems with Ok c => Ok c | Err _ => Ok 0 | Panic => Panic end);
        if c =? 2 then decodeShort (decodeRef (decodeNode fuel)) hash elems
        else if c =? 17 then decodeFull (decodeRef (decodeNode fuel)) hash elems
        else Err (NErrCount c)
  end.

(** ** The stored form *)

(** The compact form of a key. *)
Definition compact (k : list Z) : list Z := match hexToCompact k with Ok c => c | _ => [] end.

(** A node as the encoder gets it: keys of short nodes in compact form, empty
    children as [nilValueNode]. *)
Fixpoint node_item (n : node) : item :=
  match n with
  | nilNode => IBytes []
  | valueNode v => IBytes v
  | hashNode h => IBytes h
  | shortNode k c _ => IList [IBytes (compact k); node_item c]
  | fullNode cs _ => IList (map node_item cs)
  end.

Definition node_rlp (n : node) : list Z := rlp_spec (node_item n).

(** Nodes that refer to their children by hash, or hold them when they are
    small. *)
Inductive stored : node -> Prop :=
| stored_leaf ns v fl :
    Forall is_nibble ns -> bytes_ok v -> stored (shortNode (ns ++ [16]) (valueNode v) fl)
| stored_ext ns c fl :
    Forall is_nibble ns -> stored_ref c -> stored (shortNode ns c fl)
| stored_full cs c16 fl :
    length cs = 16%nat -> Forall stored_ref cs ->
    c16 = nilNode \/ (exists v, c16 = valueNode v /\ v <> [] /\ bytes_ok v) ->
    stored (fullNode (cs ++ [c16]) fl)
with stored_ref : node -> Prop :=
| ref_nil : stored_ref nilNode
| ref_hash h : zlen h = 32 -> bytes_ok h -> stored_ref (hashNode h)
| ref_node n : stored n -> zlen (node_rlp n) <= 32 -> stored_ref n.

(** The node as [decodeNode] builds it: clean, and with the given hash. *)
Fixpoint reflag (hash : option (list Z)) (n : node) : node :=
  match n with
  | shortNode k c _ => shortNode k (reflag None c) (NodeFlag hash false)
  | fullNode cs _ => fullNode (map (reflag None) cs) (NodeFlag hash false)
  | n => n
  end.

Lemma compact_ok k : hex_ok k -> hexToCompact k = Ok (compact k) /\ bytes_ok (compact k) /\ compactToHex (compact k) = Ok k.
Proof.
  intros (single & ps & t & -> & Hs & Hps)%hex_ok_iff. unfold compact.
  rewrite hexToCompact_spec, compactToHex_spec by done. split_and!; try done.
  constructor; [|by apply pack_bytes]. unfold flag_byte, is_byte.
  destruct single as [x|]; [|by destruct t].
  pose proof (Hs x eq_refl) as Hx. unfold is_nibble in Hx. destruct t; lia.
Qed.

Lemma nibbles_hex_ok ns : Forall is_nibble ns -> hex_ok ns.
Proof. intros Hn. exists ns, false. by rewrite app_nil_r. Qed.
Lemma leaf_hex_ok ns : Forall is_nibble ns -> hex_ok (ns ++ [16]).
Proof. intros Hn. by exists ns, true. Qed.
Lemma hasTerm_leaf ns : Forall is_nibble ns -> hasTerm (ns ++ [16]) = true.
Proof. apply (hasTerm_spec ns true). Qed.
Lemma hasTerm_nibbles ns : Forall is_nibble ns -> hasTerm ns = false.
Proof. intros Hn. rewrite <- (app_nil_r ns). by apply (hasTerm_spec ns false). Qed.

(** ** Values in sequence *)

Definition kind_of (it : item) : Kind * list Z :=
  match it with
  | IList l => (List, concat (map rlp_spec l))
  | IBytes b => (string_kind b, b)
  | _ => (String, [])
  end.

Definition plain (it : item) : Prop := match it with IList _ | IBytes _ => True | _ => False end.

Lemma kind_of_spec it : plain it -> rlp_spec it = enc_pair (kind_of it) /\ kind_ok (kind_of it).1 (kind_of it).2.
Proof.
  destruct it as [| | | | | |b| |l| |]; try done; intros _; simpl.
  - split; [|by right]. unfold enc_pair. simpl. unfold string_kind, enc. destruct b as [|x [|? ?]]; [done| |done].
    by destruct (x <? 128).
  - split; [done|by left].
Qed.

Lemma node_item_plain n : plain (node_item n).
Proof. by destruct n. Qed.

Lemma CountValues_items l :
  Forall plain l -> bytes_ok (concat (map rlp_spec l)) -> zlen (concat (map rlp_spec l)) < 2 ^ 64 ->
  CountValues (concat (map rlp_spec l)) = Ok (zlen l).
Proof.
  intros Hp Hb Hz. assert (He : map rlp_spec l = map enc_pair (map kind_of l)).
  { clear -Hp. induction Hp as [|it l Hit _ IH]; [done|]. simpl. rewrite IH. f_equal. by apply kind_of_spec. }
  rewrite He in *. unfold CountValues. rewrite CountValues_loop_complete; [|done|done| |done].
  - f_equal. unfold zlen. by rewrite length_map.
  - unfold values_ok. rewrite Forall_fmap. eapply Forall_impl; [done|]. intros it Hit. by apply kind_of_spec.
Qed.

Lemma SplitList_spec p r :
  bytes_ok (list_spec p ++ r) -> zlen (list_spec p ++ r) < 2 ^ 64 -> SplitList (list_spec p ++ r) = Ok (p, r).
Proof.
  intros Hb Hz. unfold SplitList.
  rewrite (proj2 (Split_iff _ List p r Hb Hz)); [done|]. split; [done|by left].
Qed.
(** ** Decoding what was stored *)

Definition fine (b : list Z) : Prop := bytes_ok b /\ zlen b < 2 ^ 64.

Lemma fine_app a b : fine (a ++ b) -> fine a /\ fine b.
Proof.
  intros [Hb Hz]. rewrite zlen_app in Hz. apply Forall_app in Hb as [? ?].
  pose proof (zlen_nonneg a); pose proof (zlen_nonneg b). split; (split; [done|lia]).
Qed.

Lemma SplitString_fine b r : fine (string_spec b ++ r) -> SplitString (string_spec b ++ r) = Ok (b, r).
Proof. intros [Hb Hz]. by apply SplitString_iff. Qed.

Definition decodes_stored (fuel : nat) : Prop :=
  forall hash n r, stored n -> fine (node_rlp n ++ r) -> (length (node_rlp n) <= fuel)%nat ->
    decodeNode fuel hash (node_rlp n ++ r) = Ok (reflag hash n).

Lemma stored_list n : stored n -> exists l, node_item n = IList l.
Proof. destruct 1; by eexists. Qed.

Lemma decodeRef_stored fuel c r :
  decodes_stored fuel -> stored_ref c -> fine (node_rlp c ++ r) -> (length (node_rlp c) <= fuel)%nat ->
  decodeRef (decodeNode fuel) (node_rlp c ++ r) = Ok (reflag None c, r).
Proof.
  intros IH Hc [Hb Hz] Hf. unfold decodeRef. destruct Hc as [|h Hh Hhb|n Hn Hsz].
  - rewrite (proj2 (Split_iff _ String [] r Hb Hz)); [done|]. split; [done|by right].
  - assert (Hk : string_kind h = String) by (destruct h as [|x [|y h]]; done).
    rewrite (proj2 (Split_iff _ String h r Hb Hz)); [|split; [done|by right]].
    cbn [with_err]. bind_simpl. rewrite Hh. done.
  - destruct (stored_list n Hn) as [l Hl]. specialize (IH None n r Hn (conj Hb Hz) Hf).
    assert (Henc : node_rlp n = list_spec (concat (map rlp_spec l))) by (unfold node_rlp; by rewrite Hl).
    rewrite (proj2 (Split_iff _ List (concat (map rlp_spec l)) r Hb Hz)); [|split; [by rewrite Henc|by left]].
    cbn [with_err]. bind_simpl. rewrite zlen_app.
    replace (zlen (node_rlp n) + zlen r - zlen r) with (zlen (node_rlp n)) by lia.
    unfold hashLen. rewrite Z.gtb_ltb, (proj2 (Z.ltb_ge _ _)), IH by done. done.
Qed.

Lemma decode_children_stored fuel cs r :
  decodes_stored fuel -> Forall stored_ref cs -> fine (concat (map node_rlp cs) ++ r) ->
  (length (concat (map node_rlp cs)) <= fuel)%nat ->
  decode_children (decodeRef (decodeNode fuel)) (length cs) (concat (map node_rlp cs) ++ r) =
  Ok (map (reflag None) cs, r).
Proof.
  intros IH. induction 1 as [|c cs Hc Hcs IHcs]; intros Hfine Hf; [done|]. simpl in *.
  rewrite <- app_assoc in *. rewrite length_app in Hf.
  rewrite decodeRef_stored by (done || lia). bind_simpl.
  apply fine_app in Hfine as [_ Hfine]. rewrite IHcs by (done || lia). done.
Qed.

Lemma list_spec_length p : (length p < length (list_spec p))%nat.
Proof.
  unfold list_spec. rewrite length_app. unfold head_spec. destruct (_ <? 56); simpl; lia.
Qed.

(** The part of [decodeNode] behind the list header. *)
Lemma decodeNode_list fuel hash l r :
  Forall plain l -> fine (rlp_spec (IList l) ++ r) ->
  decodeNode (S fuel) hash (rlp_spec (IList l) ++ r) =
  (if zlen l =? 2 then decodeShort (decodeRef (decodeNode fuel)) hash (concat (map rlp_spec l))
   else if zlen l =? 17 then decodeFull (decodeRef (decodeNode fuel)) hash (concat (map rlp_spec l))
   else Err (NErrCount (zlen l))).
Proof.
  intros Hp Hfine. cbn [rlp_spec] in *. set (p := concat (map rlp_spec l)) in *. cbn [decodeNode].
  pose proof (list_spec_length p).
  rewrite (proj2 (Z.eqb_neq _ 0)) by (rewrite zlen_app; unfold zlen; lia).
  rewrite SplitList_spec by apply Hfine. cbn [with_err]. bind_simpl.
  apply fine_app in Hfine as [Hfine _]. unfold list_spec in Hfine. apply fine_app in Hfine as [_ [Hb Hz]].
  subst p. rewrite CountValues_items by done. done.
Qed.

Lemma map_node_rlp cs : map rlp_spec (map node_item cs) = map node_rlp cs.
Proof. rewrite map_map. done. Qed.

Lemma node_rlp_short k c fl :
  node_rlp (shortNode k c fl) = rlp_spec (IList [IBytes (compact k); node_item c]).
Proof. done. Qed.

Lemma decode_stored_short fuel hash k c fl r :
  decodes_stored fuel -> hex_ok k ->
  (exists v, c = valueNode v /\ hasTerm k = true) \/ (stored_ref c /\ hasTerm k = false) ->
  fine (node_rlp (shortNode k c fl) ++ r) -> (length (node_rlp (shortNode k c fl)) <= S fuel)%nat ->
  decodeNode (S fuel) hash (node_rlp (shortNode k c fl) ++ r) = Ok (reflag hash (shortNode k c fl)).
Proof.
  intros IH Hk Hc Hfine Hf. destruct (compact_ok k Hk) as (_ & _ & Hch). rewrite node_rlp_short in *.
  rewrite decodeNode_list by first [done|by repeat constructor; apply node_item_plain]. simpl zlen.
  change (zlen [IBytes (compact k); node_item c] =? 2) with true. cbv iota.
  apply fine_app in Hfine as [Hfine _]. cbn [rlp_spec] in *.
  pose proof (list_spec_length (concat (map rlp_spec [IBytes (compact k); node_item c]))) as Hl.
  unfold list_spec in Hfine. apply fine_app in Hfine as [_ Hfine].
  cbn [map concat rlp_spec] in *. rewrite app_nil_r in *.
  unfold decodeShort. rewrite SplitString_fine by done. cbn [with_err]. bind_simpl.
  rewrite Hch. cbn [lift_go]. bind_simpl. apply fine_app in Hfine as [_ Hfine].
  rewrite length_app in Hl. destruct Hc as [(v & -> & ->)|[Hc ->]].
  - cbn [node_item rlp_spec] in *. rewrite <- (app_nil_r (string_spec v)) in Hfine |- *.
    rewrite SplitString_fine by done. done.
  - fold (node_rlp c) in *. rewrite <- (app_nil_r (node_rlp c)) in Hfine |- *.
    rewrite decodeRef_stored by (done || lia). done.
Qed.

Lemma decode_stored_full fuel hash cs c16 fl r :
  decodes_stored fuel -> length cs = 16%nat -> Forall stored_ref cs ->
  c16 = nilNode \/ (exists v, c16 = valueNode v /\ v <> [] /\ bytes_ok v) ->
  fine (node_rlp (fullNode (cs ++ [c16]) fl) ++ r) ->
  (length (node_rlp (fullNode (cs ++ [c16]) fl)) <= S fuel)%nat ->
  decodeNode (S fuel) hash (node_rlp (fullNode (cs ++ [c16]) fl) ++ r) =
  Ok (reflag hash (fullNode (cs ++ [c16]) fl)).
Proof.
  intros IH Hlen Hcs H16 Hfine Hf. unfold node_rlp in *. cbn [node_item] in *.
  rewrite decodeNode_list; [|rewrite Forall_fmap; apply Forall_forall; intros; apply node_item_plain|done].
  assert (Hz : zlen (map node_item (cs ++ [c16])) = 17).
  { unfold zlen. rewrite length_map, length_app, Hlen. done. }
  rewrite Hz. change (17 =? 2) with false. change (17 =? 17) with true. cbv iota.
  apply fine_app in Hfine as [Hfine _]. cbn [rlp_spec] in *.
  pose proof (list_spec_length (concat (map rlp_spec (map node_item (cs ++ [c16]))))) as Hl.
  unfold list_spec in Hfine. apply fine_app in Hfine as [_ Hfine].
  rewrite map_node_rlp, map_app, concat_app in *. cbn [map concat] in *. rewrite app_nil_r, length_app in *.
  unfold decodeFull. rewrite <- Hlen, decode_children_stored by (done || lia). bind_simpl.
  apply fine_app in Hfine as [_ Hfine].
  assert (Hv : exists v, node_rlp c16 = string_spec v /\
            (if zlen v >? 0 then valueNode v else nilNode) = reflag None c16).
  { destruct H16 as [->|(v & -> & Hne & Hbv)]; [by exists []|]. exists v. split; [done|].
    destruct v; [done|]. rewrite zlen_cons. pose proof (zlen_nonneg v).
    by rewrite Z.gtb_ltb, (proj2 (Z.ltb_lt _ _)) by lia. }
  destruct Hv as (v & Hv & Hc16). rewrite Hv, <- (app_nil_r (string_spec v)) in *.
  rewrite SplitString_fine by done. cbn [with_err]. bind_simpl. rewrite Hc16. cbn [reflag].
  by rewrite map_app.
Qed.

Lemma decode_stored fuel : decodes_stored fuel.
Proof.
  induction fuel as [|fuel IH]; intros hash n r Hn Hfine Hf.
  { destruct (stored_list n Hn) as [l Hl]. unfold node_rlp in Hf. rewrite Hl in Hf. cbn [rlp_spec] in Hf.
    pose proof (list_spec_length (concat (map rlp_spec l))). lia. }
  destruct Hn as [ns v fl Hns Hv|ns c fl Hns Hc|cs c16 fl Hl Hcs H16].
  - apply decode_stored_short; try done; [by apply leaf_hex_ok|]. left. exists v. by rewrite hasTerm_leaf.
  - apply decode_stored_short; try done; [by apply nibbles_hex_ok|]. right. by rewrite hasTerm_nibbles.
  - by apply decode_stored_full.
Qed.

(** ** Decoding any input *)

Lemma compactToHex_no_panic b : compactToHex b <> Panic.
Proof.
  unfold compactToHex. destruct b as [|x b]; [done|].
  rewrite zlen_cons, (proj2 (Z.eqb_neq _ 0)) by (pose proof (zlen_nonneg b); lia).
  rewrite keybytesToHex_spec. bind_simpl.
  assert (Hl : 3 <= zlen (flat (unpack (x :: b)) ++ [16])).
  { rewrite zlen_app, zlen_flat. unfold zlen, unpack. rewrite length_map. simpl. lia. }
  revert Hl. generalize (flat (unpack (x :: b)) ++ [16]). intros l Hl.
  assert (Hchop : forall l, 2 <= zlen l -> (b0 ← idx l 0; slice_from l (u8 (2 - Z.land b0 1))) <> (Panic : go (list Z))).
  { clear l Hl. intros l Hl. destruct l as [|y l]; [done|]. rewrite idx_0. bind_simpl.
    assert (Hc : 0 <= u8 (2 - Z.land y 1) <= 2).
    { assert (Hm : Z.land y 1 = y mod 2) by exact (Z.land_ones y 1 ltac:(lia)).
      pose proof (Z.mod_pos_bound y 2 ltac:(lia)).
      assert (Z.land y 1 = 0 \/ Z.land y 1 = 1) as [->| ->] by lia; done. }
    unfold slice_from, slice. rewrite !(proj2 (Z.leb_le _ _)) by lia. done. }
  destruct l as [|hi l]; [done|]. rewrite idx_0. bind_simpl.
  destruct (hi <? 2); [|bind_simpl; apply Hchop; lia].
  unfold slice at 1. rewrite !(proj2 (Z.leb_le _ _)) by lia. cbn [andb]. bind_simpl. apply Hchop.
  rewrite drop_0, zlen_take by lia. lia.
Qed.

Lemma string_spec_suffix c : exists hd, string_spec c = hd ++ c.
Proof.
  unfold string_spec. destruct c as [|x [|y c]]; [by eexists| |by eexists].
  destruct (x <? 128); [by exists []|by eexists].
Qed.

Lemma Split_total b :
  fine b -> Split b <> Panic /\ forall k c r, Split b = Ok (k, c, r) ->
    fine c /\ fine r /\ (length c <= length b)%nat /\ (length r < length b)%nat /\
    (k = List -> length c < length b)%nat.
Proof.
  intros [Hb Hz]. split; [by apply Split_no_panic|]. intros k c r HS.
  apply Split_iff in HS as [-> Hk]; [|done..].
  assert (Hfine : fine (enc k c ++ r)) by done. apply fine_app in Hfine as [He Hr].
  pose proof (zlen_enc_pos k c) as Hp. rewrite length_app.
  assert (Hc : fine c /\ (length c <= length (enc k c))%nat /\ (k = List -> length c < length (enc k c))%nat).
  { destruct k; simpl in *.
    1, 2: destruct (string_spec_suffix c) as [hd Hs]; rewrite Hs in *; apply fine_app in He as [_ ?];
      rewrite length_app; split_and!; done || lia.
    pose proof (list_spec_length c). unfold list_spec in He. apply fine_app in He as [_ ?]. split_and!; done || lia. }
  destruct Hc as (? & ? & ?). unfold zlen in Hp. split_and!; try done; try lia. intros. assert (length c < length (enc k c))%nat by auto. lia.
Qed.

Lemma SplitString_total b :
  fine b -> SplitString b <> Panic /\ forall c r, SplitString b = Ok (c, r) ->
    fine c /\ fine r /\ (length r < length b)%nat.
Proof.
  intros Hb. destruct (Split_total b Hb) as [Hn Hs]. unfold SplitString.
  destruct (Split b) as [[[k c] r]|e|]; bind_simpl; [|done|done].
  destruct (Hs k c r eq_refl) as (? & ? & ? & ? & _). destruct k; split; try done; intros ? ? [= <- <-]; done.
Qed.

Lemma SplitList_total b :
  fine b -> SplitList b <> Panic /\ forall c r, SplitList b = Ok (c, r) ->
    fine c /\ (length c < length b)%nat.
Proof.
  intros Hb. destruct (Split_total b Hb) as [Hn Hs]. unfold SplitList.
  destruct (Split b) as [[[k c] r]|e|]; bind_simpl; [|done|done].
  destruct (Hs k c r eq_refl) as (? & ? & ? & ? & ?). destruct k; split; try done; intros ? ? [= <- <-].
  split; [done|auto].
Qed.

(** [dec] reads references from the suffixes of a buffer of length [n]. *)
Definition dec_total (n : nat) (dec : list Z -> nd (node * list Z)) : Prop :=
  forall b, fine b -> (length b <= n)%nat ->
    dec b <> Panic /\ forall c r, dec b = Ok (c, r) -> fine r /\ (length r <= length b)%nat.

Lemma decode_children_total dec n m elems :
  dec_total n dec -> fine elems -> (length elems <= n)%nat ->
  decode_children dec m elems <> Panic /\
  forall cs r, decode_children dec m elems = Ok (cs, r) -> fine r.
Proof.
  intros Hd. revert elems. induction m as [|m IH]; intros elems Hf Hl; simpl.
  { split; [done|]. by intros cs r [= <- <-]. }
  destruct (Hd elems Hf Hl) as [Hn Hs]. destruct (dec elems) as [[c r]|e|]; bind_simpl; [|done|done].
  destruct (Hs c r eq_refl) as [Hfr Hlr]. destruct (IH r Hfr ltac:(lia)) as [Hn' Hs'].
  destruct (decode_children dec m r) as [[cs r']|e|]; bind_simpl; [|done|done].
  split; [done|]. intros cs' r'' [= <- <-]. by apply (Hs' cs r').
Qed.

Lemma with_err_total {A} wrap (m : rlp A) : m <> Panic -> with_err wrap m <> Panic.
Proof. by destruct m. Qed.

Lemma decodeShort_total dec n hash elems :
  dec_total n dec -> fine elems -> (length elems <= n)%nat -> decodeShort dec hash elems <> Panic.
Proof.
  intros Hd Hf Hl. unfold decodeShort. destruct (SplitString_total elems Hf) as [Hn Hs].
  destruct (SplitString elems) as [[k r]|e|]; cbn [with_err]; bind_simpl; [|done|done].
  destruct (Hs k r eq_refl) as (_ & Hr & Hlr). pose proof (compactToHex_no_panic k).
  destruct (compactToHex k) as [key|[]|]; cbn [lift_go]; bind_simpl; [|done].
  destruct (hasTerm key).
  - destruct (SplitString_total r Hr) as [Hn' _].
    by destruct (SplitString r) as [[v r']|e|]; cbn [with_err]; bind_simpl.
  - destruct (Hd r Hr ltac:(lia)) as [Hn' _]. by destruct (dec r) as [[c r']|e|]; bind_simpl.
Qed.

Lemma decodeFull_total dec n hash elems :
  dec_total n dec -> fine elems -> (length elems <= n)%nat -> decodeFull dec hash elems <> Panic.
Proof.
  intros Hd Hf Hl. unfold decodeFull.
  destruct (decode_children_total dec n 16 elems Hd Hf Hl) as [Hn Hs].
  destruct (decode_children dec 16 elems) as [[cs r]|e|]; bind_simpl; [|done|done].
  destruct (SplitString_total r (Hs cs r eq_refl)) as [Hn' _].
  by destruct (SplitString r) as [[v r']|e|]; cbn [with_err]; bind_simpl.
Qed.

Lemma decodeNode_no_panic fuel hash buf :
  fine buf -> (length buf < fuel)%nat -> decodeNode fuel hash buf <> Panic.
Proof.
  revert hash buf. induction fuel as [|fuel IH]; intros hash buf Hf Hl; [lia|]. cbn [decodeNode].
  destruct (zlen buf =? 0); [done|]. destruct (SplitList_total buf Hf) as [Hn Hs].
  destruct (SplitList buf) as [[elems r]|e|]; cbn [with_err]; bind_simpl; [|done|done].
  destruct (Hs elems r eq_refl) as [[Heb Hez] Hel].
  pose proof (CountValues_loop_sound (length elems) elems 0 Heb Hez ltac:(done)) as Hc.
  fold (CountValues elems) in Hc.
  assert (Hd : dec_total (length elems) (decodeRef (decodeNode fuel))).
  { intros b Hb Hlb. unfold decodeRef. destruct (Split_total b Hb) as [Hn' Hs'].
    destruct (Split b) as [[[k v] r']|e|]; cbn [with_err]; bind_simpl; [|done|done].
    destruct (Hs' k v r' eq_refl) as (_ & Hr' & _ & Hlr' & _).
    assert (Hok : forall c, Ok (c, r') <> (Panic : nd (node * list Z)) /\
      forall c0 r, Ok (c, r') = (Ok (c0, r) : nd (node * list Z)) -> fine r /\ (length r <= length b)%nat).
    { intros c. split; [done|]. intros ? ? [= <- <-]. split; [done|lia]. }
    destruct k; simpl.
    - done.
    - destruct (zlen v =? 0); [apply Hok|]. destruct (zlen v =? 32); [apply Hok|done].
    - destruct (_ >? _); [done|]. pose proof (IH None b Hb ltac:(lia)).
      destruct (decodeNode fuel None b); bind_simpl; [apply Hok|done|done]. }
  assert (Hend : forall c : Z, (if c =? 2 then decodeShort (decodeRef (decodeNode fuel)) hash elems
      else if c =? 17 then decodeFull (decodeRef (decodeNode fuel)) hash elems else Err (NErrCount c)) <> Panic).
  { intros c. destruct (c =? 2); [by eapply decodeShort_total|].
    destruct (c =? 17); [by eapply decodeFull_total|done]. }
  destruct (CountValues elems); bind_simpl; [apply Hend..|done].
Qed.

Lemma stored_item_ok n :
  (stored n -> item_ok (node_item n)) /\ (stored_ref n -> item_ok (node_item n)).
Proof.
  induction n as [n Hleaf|k c fl IH|cs fl IH] using node_nested_ind.
  - assert (Hst : ~ stored n) by (by destruct 1).
    split; [done|]. destruct 1 as [|h ? ?|n ? ?]; [by constructor|done|done].
  - assert (Hst : stored (shortNode k c fl) -> item_ok (node_item (shortNode k c fl))).
    { inversion 1 as [ns v fl' Hns Hv|ns c' fl' Hns Hc|]; subst; simpl; constructor.
      - by apply compact_ok, leaf_hex_ok.
      - by constructor.
      - by apply compact_ok, nibbles_hex_ok.
      - constructor; [by apply IH|done]. }
    split; [done|]. by inversion 1; subst; apply Hst.
  - assert (Hst : stored (fullNode cs fl) -> item_ok (node_item (fullNode cs fl))).
    { inversion 1 as [| |cs' c16 fl' Hl Hcs H16]; subst. change (Forall id (map item_ok (map node_item (cs' ++ [c16])))). rewrite !map_app.
      apply Forall_app in IH as [IH _]. apply Forall_app. split.
      - apply Forall_map, Forall_map, Forall_forall. intros c Hc. rewrite Forall_forall in IH, Hcs.
        apply (IH c Hc), Hcs, Hc.
      - constructor; [|done]. destruct H16 as [->|(v & -> & _ & ?)]; [by constructor|done]. }
    split; [done|]. by inversion 1; subst; apply Hst.
Qed.

Lemma node_nonneg n : nonneg_ints (node_item n) = true.
Proof.
  induction n as [n Hleaf|k c fl IH|cs fl IH] using node_nested_ind; [by destruct n|by simpl; rewrite IH|].
  simpl. induction IH as [|c cs Hc _ IHcs]; [done|]. simpl. by rewrite Hc.
Qed.

(** Stored nodes are read back: decoding the RLP of a collapsed node
    gives the node, clean and with the hash under which it was loaded, for
    keys in compact form, embedded children and hash references alike. *)
Theorem decodeNode_roundtrip (fuel : nat) (hash : option (list Z)) (n : node) (pooled : encbuf) (r : list Z) :
  stored n -> fine (node_rlp n ++ r) -> zlen (sizebuf pooled) = 9 -> (length (node_rlp n) <= fuel)%nat ->
  exists b, EncodeToBytes (node_item n) pooled = Ok b /\ decodeNode fuel hash (b ++ r) = Ok (reflag hash n).
Proof.
  intros Hn Hfine Hsb Hf. exists (node_rlp n). split; [|by apply decode_stored].
  apply fine_app in Hfine as [[_ Hz] _].
  rewrite EncodeToBytes_spec; [by rewrite node_nonneg|by apply (proj1 (stored_item_ok n))|done|done|by destruct n].
Qed.

(** A branch with a hash, an embedded leaf and a value. *)
Definition sample_node : node :=
  fullNode ([hashNode (replicate 32 7); shortNode [3; 16] (valueNode [9]) newFlag] ++
            replicate 14 nilNode ++ [valueNode [1; 2]]) newFlag.

Lemma sample_stored : stored sample_node.
Proof.
  apply (stored_full ([hashNode (replicate 32 7); shortNode [3; 16] (valueNode [9]) newFlag] ++ replicate 14 nilNode)
           (valueNode [1; 2])); [done| |right; exists [1; 2]; split_and!; [done|done|solve_decidable]].
  apply Forall_app. split.
  - constructor; [apply ref_hash; [done|solve_decidable]|]. constructor; [|constructor].
    apply ref_node; [apply (stored_leaf [3]); solve_decidable|done].
  - apply Forall_replicate. constructor.
Qed.

Lemma decodeNode_roundtrip_witness :
  exists b, EncodeToBytes (node_item sample_node) new_encbuf = Ok b /\
    decodeNode 100 (Some [5]) (b ++ [200]) = Ok (reflag (Some [5]) sample_node).
Proof.
  apply decodeNode_roundtrip; [apply sample_stored|split; [solve_decidable|reflexivity]|reflexivity|vm_compute; lia].
Defined.

(** [decodeNode] terminates without panic on every input of bytes. *)
Theorem decodeNode_total (fuel : nat) (hash : option (list Z)) (buf : list Z) :
  bytes_ok buf -> zlen buf < 2 ^ 64 -> (length buf < fuel)%nat ->
  decodeNode fuel hash buf <> Panic.
Proof. intros Hb Hz Hf. by apply decodeNode_no_panic. Qed.

Lemma decodeNode_total_witness : decodeNode 5 None [195; 130; 1; 0] <> Panic.
Proof. apply decodeNode_total; [solve_decidable|reflexivity|simpl; lia]. Defined.

(** An embedded node of exactly the size of a hash is accepted, although the
    message of the refusal says that the size must be smaller. *)
Lemma decodeRef_accepts_hash_size :
  let leaf := shortNode [3; 16] (valueNode (replicate 29 1)) newFlag in
  zlen (node_rlp leaf) = hashLen /\
  decodeRef (decodeNode 100) (node_rlp leaf) = Ok (reflag None leaf, []).
Proof. vm_compute. done. Qed.
