(* ===== verification/TrieHash.v ===== *)
(** * Merkle hashes (src/trie/hasher.go, src/trie/trie.go)

    The hasher, which collapses a trie bottom up into the hash of its root
    and caches the hashes on the way.  The specification is the Merkle root
    of a tree as the protocol defines it; the file shows that [Hash] computes
    it whatever is cached or loaded and in whatever order the children are
    processed, and that the hash depends on the stored map only. *)
From stdpp Require Import prelude list gmap.
From Stdlib Require Import ZArith Lia.
From S2P Require Import Prelude RlpEncode RlpRaw RlpStream TrieEncoding Trie TrieNode.

(** ** Keccak-256, from golang.org/x/crypto/sha3 *)

Class Keccak := {
  keccak256 : list Z -> list Z;
  keccak_len b : zlen (keccak256 b) = 32;
  keccak_bytes b : bytes_ok (keccak256 b);
}.

(** ** The hasher *)

(** The value that [rlp.Encode] writes for a collapsed node: a short node is
    the list of its fields, a full node is written by [fullNode.EncodeRLP]. *)
Fixpoint collapsed_item (n : node) : item :=
  match n with
  | nilNode => INilInterface
  | valueNode v | hashNode v => IBytes v
  | shortNode k c _ => IList [IBytes k; collapsed_item c]
  | fullNode cs _ =>
      IList (map (fun c => match c with nilNode => IBytes [] | _ => collapsed_item c end) cs)
  end.

Definition rlp_Encode (n : node) : go (list Z) :=
  match Encode [] (collapsed_item n) new_encbuf with Ok b => Ok b | _ => Panic end.

Definition cache_hash (n : node) : option (list Z) :=
  match n with
  | shortNode _ _ fl | fullNode _ fl => fl_hash fl
  | _ => None
  end.

Section hasher.
Context {K : Keccak}.

Definition hashData (data : list Z) : list Z := keccak256 data.

Definition shortnodeToHash (n : node) (force : bool) : go node :=
  tmp ← rlp_Encode n;
  if (zlen tmp <? 32) && negb force then Ok n else Ok (hashNode (hashData tmp)).

Definition fullnodeToHash (n : node) (force : bool) : go node :=
  tmp ← rlp_Encode n;
  if (zlen tmp <? 32) && negb force then Ok n else Ok (hashNode (hashData tmp)).

(** [cached.flags.hash = hn], or nil when the node was too small. *)
Definition set_hash (fl : nodeFlag) (hashed : node) : nodeFlag :=
  NodeFlag (match hashed with hashNode hn => Some hn | _ => None end) (fl_dirty fl).

(** The loop of [hashFullNodeChildren] over the indices [order], given what
    hashing each child returns.  The goroutines of the parallel version write
    to different indices: they finish in some order. *)
Fixpoint hash_children (results : list (go (node * node))) (order : list nat) (cs : list node)
    (collapsed cached : list node) : go (list node * list node) :=
  match order with
  | [] => Ok (collapsed, cached)
  | i :: order =>
      child ← idx cs (Z.of_nat i);
      match child with
      | nilNode =>
          collapsed ← upd collapsed (Z.of_nat i) (valueNode []);
          hash_children results order cs collapsed cached
      | _ =>
          r ← idx results (Z.of_nat i);
          '(a, b) ← r;
          collapsed ← upd collapsed (Z.of_nat i) a;
          cached ← upd cached (Z.of_nat i) b;
          hash_children results order cs collapsed cached
      end
  end.

(** [parallel] is the order in which the goroutines of the full node finish,
    when there are any; the hashers they use are sequential. *)
Fixpoint hash (parallel : option (list nat)) (n : node) (force : bool) : go (node * node) :=
  match cache_hash n with
  | Some h => Ok (hashNode h, n)
  | None =>
      match n with
      | shortNode k c fl =>
          ck ← hexToCompact k;
          '(collapsedVal, cachedVal) ←
            (match c with
             | fullNode _ _ | shortNode _ _ _ => hash parallel c false
             | _ => Ok (c, c)
             end);
          hashed ← shortnodeToHash (shortNode ck collapsedVal fl) force;
          Ok (hashed, shortNode k cachedVal (set_hash fl hashed))
      | fullNode cs fl =>
          '(collapsed, cached) ←
            hash_children (map (fun c => hash None c false) cs) (default (seq 0 16) parallel) cs cs cs;
          hashed ← fullnodeToHash (fullNode collapsed fl) force;
          Ok (hashed, fullNode cached (set_hash fl hashed))
      | _ => Ok (n, n)
      end
  end.

(** [order] is the order of the goroutines, used from 100 changes on. *)
Definition hashRoot (order : list nat) (t : Trie) : go (node * node * Trie) :=
  match root t with
  | nilNode => Ok (hashNode emptyRoot, nilNode, t)
  | n =>
      '(hashed, cached) ← hash (if unhashed t >=? 100 then Some order else None) n true;
      Ok (hashed, cached, MkTrie (root t) 0)
  end.

Definition Hash (order : list nat) (t : Trie) : go (list Z * Trie) :=
  '(hash, cached, t) ← hashRoot order t;
  match hash with
  | hashNode h => Ok (BytesToHash h, MkTrie cached (unhashed t))
  | _ => Panic
  end.
End hasher.

(** ** Specification: the Merkle root of a tree *)

Section merkle.
Context {K : Keccak}.

(** How a node refers to a child: by its hash, unless the child is small. *)
Definition mref (it : item) : item :=
  if zlen (rlp_spec it) <? 32 then it else IBytes (keccak256 (rlp_spec it)).

Fixpoint mitem (t : tree) : item :=
  let child t := match t with TShort _ _ | TFull _ => mref (mitem t) | _ => mitem t end in
  match t with
  | TEmpty => IBytes []
  | TValue v => IBytes v
  | TShort k t => IList [IBytes (compact k); child t]
  | TFull ts => IList (map child ts)
  end.

Definition mchild (t : tree) : item :=
  match t with TShort _ _ | TFull _ => mref (mitem t) | _ => mitem t end.

Definition mhash (t : tree) : list Z := keccak256 (rlp_spec (mitem t)).

Definition mroot (t : tree) : list Z := match t with TEmpty => emptyRoot | _ => mhash t end.

Lemma mitem_short k t : mitem (TShort k t) = IList [IBytes (compact k); mchild t].
Proof. done. Qed.
Lemma mitem_full ts : mitem (TFull ts) = IList (map mchild ts).
Proof. done. Qed.

(** Trees whose keys are hex keys and whose keys and values fit in memory. *)
Inductive hashable : tree -> Prop :=
| hashable_empty : hashable TEmpty
| hashable_value v : bytes_ok v -> zlen v < 2 ^ 58 -> hashable (TValue v)
| hashable_short k t : hex_ok k -> zlen k < 2 ^ 58 -> t <> TEmpty -> hashable t -> hashable (TShort k t)
| hashable_full ts :
    length ts = 17%nat -> Forall hashable ts ->
    (forall t, ts !! 16%nat = Some t -> value_child t) -> hashable (TFull ts).

Lemma compact_length k : hex_ok k -> zlen (compact k) <= zlen k + 1.
Proof.
  intros (single & ps & t & -> & Hs & Hps)%hex_ok_iff. unfold compact.
  rewrite hexToCompact_spec by done. unfold hex_of. rewrite zlen_cons, !zlen_app.
  assert (Hf : zlen (pack ps) <= zlen (flat ps)).
  { clear. induction ps as [|p ps IH]; [done|]. change (flat (p :: ps)) with (p.1 :: p.2 :: flat ps).
    change (pack (p :: ps)) with (16 * p.1 + p.2 :: pack ps). rewrite !zlen_cons. lia. }
  pose proof (zlen_nonneg (term t)). destruct single as [x|]; [rewrite zlen_cons|]; lia.
Qed.

Lemma zlen_list_spec_le p : zlen p < 2 ^ 64 -> zlen (list_spec p) <= zlen p + 9.
Proof.
  intros Hp. unfold list_spec. pose proof (zlen_nonneg p). rewrite zlen_app, zlen_head_spec by (unfold is_u64; lia).
  pose proof (headsize_bound (zlen p)) as Hh. unfold is_u64 in Hh. lia.
Qed.

Lemma zlen_rlp_list l B :
  Forall (fun it => zlen (rlp_spec it) <= B) l -> zlen l * B < 2 ^ 64 -> zlen (rlp_spec (IList l)) <= zlen l * B + 9.
Proof.
  intros Hl HB. cbn [rlp_spec]. assert (Hs : zlen (concat (map rlp_spec l)) <= zlen l * B).
  { clear HB. induction Hl as [|it l Hi _ IH]; [done|]. simpl map. simpl concat. rewrite zlen_app, zlen_cons. lia. }
  pose proof (zlen_list_spec_le (concat (map rlp_spec l))). lia.
Qed.

(** What is known of the encoding of a reference. *)
Definition ref_fine (it : item) : Prop :=
  item_ok it /\ nonneg_ints it = true /\ zlen (rlp_spec it) <= 2 ^ 58 + 9.

Lemma keccak_fine b : ref_fine (IBytes (keccak256 b)).
Proof.
  split; [apply keccak_bytes|split; [done|]]. cbn [rlp_spec]. pose proof (keccak_len b) as Hl.
  pose proof (zlen_string_spec_le (keccak256 b)). lia.
Qed.

Lemma mref_fine it : item_ok it -> nonneg_ints it = true -> ref_fine (mref it).
Proof.
  intros Hok Hn. unfold mref. destruct (Z.ltb_spec (zlen (rlp_spec it)) 32); [|apply keccak_fine].
  split_and!; try done. lia.
Qed.

Lemma item_ok_list l : item_ok (IList l) <-> Forall item_ok l.
Proof. cbn [item_ok]. rewrite Forall_map. done. Qed.

Lemma list_fine l :
  Forall ref_fine l -> zlen l <= 17 ->
  item_ok (IList l) /\ nonneg_ints (IList l) = true /\ zlen (rlp_spec (IList l)) < 2 ^ 63.
Proof.
  intros Hl Hz. pose proof (zlen_nonneg l). split_and!.
  - apply item_ok_list. eapply Forall_impl; [done|]. by intros it [? _].
  - cbn [nonneg_ints]. clear Hz. induction Hl as [|it l (_ & Hn & _) _ IH]; simpl; [done|]. rewrite Hn. apply IH.
    apply zlen_nonneg.
  - pose proof (zlen_rlp_list l (2 ^ 58 + 9)) as Hb. assert (zlen l * (2 ^ 58 + 9) <= 17 * (2 ^ 58 + 9)) by nia.
    enough (zlen (rlp_spec (IList l)) <= zlen l * (2 ^ 58 + 9) + 9) by lia.
    apply Hb; [|lia]. eapply Forall_impl; [done|]. by intros it (_ & _ & ?).
Qed.

Lemma bytes_fine b : bytes_ok b -> zlen b < 2 ^ 58 + 1 -> ref_fine (IBytes b).
Proof.
  intros Hb Hz. split_and!; try done. cbn [rlp_spec]. pose proof (zlen_string_spec_le b). lia.
Qed.

Definition tree_fine (t : tree) : Prop :=
  ref_fine (mchild t) /\
  item_ok (mitem t) /\ nonneg_ints (mitem t) = true /\ zlen (rlp_spec (mitem t)) < 2 ^ 63.

Lemma mitem_fine_child t :
  item_ok (mitem t) -> nonneg_ints (mitem t) = true ->
  match t with TShort _ _ | TFull _ => True | _ => False end -> ref_fine (mchild t).
Proof. intros ? ? Ht. destruct t; try done; by apply mref_fine. Qed.

Section tree_nested_ind.
Context (P : tree -> Prop).
Context (Hempty : P TEmpty) (Hvalue : forall v, P (TValue v)).
Context (Hshort : forall k t, P t -> P (TShort k t)).
Context (Hfull : forall ts, Forall P ts -> P (TFull ts)).

Fixpoint tree_nested_ind (t : tree) : P t.
Proof.
  destruct t as [|v|k t|ts]; [done|done| |].
  - apply Hshort, tree_nested_ind.
  - apply Hfull. induction ts as [|t ts IH]; constructor; [apply tree_nested_ind|apply IH].
Qed.
End tree_nested_ind.

Lemma hashable_fine t : hashable t -> tree_fine t.
Proof.
  induction t as [|v|k t IH|ts IH] using tree_nested_ind; intros Hh.
  - split_and!; [by apply bytes_fine|by constructor|done|by vm_compute].
  - inversion Hh as [|? Hb Hz| |]; subst. pose proof (bytes_fine v Hb ltac:(lia)) as Hf.
    destruct Hf as (? & ? & ?). split_and!; try done. cbn [mitem]. lia.
  - inversion Hh as [| |? ? Hk Hz Hne Ht|]; subst. destruct (compact_ok k Hk) as (_ & Hc & _).
    pose proof (compact_length k Hk). destruct (IH Ht) as [Hr _].
    destruct (list_fine [IBytes (compact k); mchild t]) as (? & ? & ?);
      [constructor; [apply bytes_fine; [done|lia]|by apply Forall_singleton]|done|].
    split_and!; try done. by apply mitem_fine_child.
  - inversion Hh as [| | |? Hlen Hts Hv]; subst.
    destruct (list_fine (map mchild ts)) as (? & ? & ?).
    { apply Forall_map. clear -IH Hts. induction IH as [|t ts Ht _ IHts]; inversion Hts; subst; constructor; [by apply Ht|auto]. }
    { unfold zlen. rewrite length_map, Hlen. done. }
    split_and!; try done. by apply mitem_fine_child.
Qed.

(** ** What the database holds for a tree *)

Definition small (t : tree) : bool := zlen (rlp_spec (mitem t)) <? 32.

(** The node that the database returns: big children by their hash, small
    ones in place. *)
Fixpoint mnode (t : tree) : node :=
  let child t :=
    match t with
    | TShort _ _ | TFull _ => if small t then mnode t else hashNode (mhash t)
    | _ => mnode t
    end in
  match t with
  | TEmpty => nilNode
  | TValue v => valueNode v
  | TShort k t => shortNode k (child t) (NodeFlag None false)
  | TFull ts => fullNode (map child ts) (NodeFlag None false)
  end.

Definition mnode_child (t : tree) : node :=
  match t with
  | TShort _ _ | TFull _ => if small t then mnode t else hashNode (mhash t)
  | _ => mnode t
  end.

Definition loaded (t : tree) : node := reflag (Some (mhash t)) (mnode t).

Context {db : NodeReader}.

(** The database holds the big nodes below the root of the tree. *)
Fixpoint held_below (t : tree) : Prop :=
  let child t :=
    match t with
    | TShort _ _ | TFull _ =>
        (small t = false -> db_node (mhash t) = Some (loaded t)) /\ held_below t
    | _ => True
    end in
  match t with
  | TShort _ t => child t
  | TFull ts => Forall id (map child ts)
  | _ => True
  end.

Definition held_child (t : tree) : Prop :=
  match t with
  | TShort _ _ | TFull _ => (small t = false -> db_node (mhash t) = Some (loaded t)) /\ held_below t
  | _ => True
  end.

Lemma held_full ts : held_below (TFull ts) <-> Forall held_child ts.
Proof. cbn [held_below]. rewrite Forall_map. done. Qed.

Definition held (t : tree) : Prop := db_node (mhash t) = Some (loaded t) /\ held_below t.

(** Cached hashes are the hashes of the protocol.  Only big nodes and the
    root have one; what is clean is in the database, and so is everything
    behind a hash node.  Below a node with a cached hash every big node has
    its hash cached. *)
#[export] Instance merkle : Guard := {|
  flag_ok p fl t :=
    match fl_hash fl with
    | Some h => h = mhash t /\ (p = Root \/ small t = false) /\ (fl_dirty fl = false -> held t)
    | None => (p = Below true -> small t = true) /\ (fl_dirty fl = false -> small t = true /\ p <> Root)
    end;
  hash_ok p h t := h = mhash t /\ (p = Root \/ small t = false) /\ held t |}.

#[export] Instance merkle_fresh : FreshGuard merkle.
Proof.
  split.
  - by intros [] t.
  - intros b fl t. simpl. destruct (fl_hash fl); [|by intros [_ Hd]; split; [|intros H; destruct (Hd H)]]. intros (-> & [?|?] & ?); [done|]. by split_and!; [|right|].
  - intros b h t (-> & [?|?] & ?); [done|]. by split_and!; [|right|].
Qed.

(** ** The hasher computes the Merkle root *)

Definition branch (t : tree) : Prop := match t with TShort _ _ | TFull _ => True | _ => False end.

Lemma rlp_Encode_spec n t :
  collapsed_item n = mitem t -> tree_fine t -> rlp_Encode n = Ok (rlp_spec (mitem t)).
Proof.
  intros Hn (_ & Hok & Hnn & Hz). unfold rlp_Encode. rewrite Hn, Encode_new by (done || lia || by destruct t).
  by rewrite Hnn.
Qed.

(** What [shortnodeToHash] and [fullnodeToHash] return. *)
Definition hash_result (n : node) (t : tree) (force : bool) : node :=
  if small t && negb force then n else hashNode (mhash t).

Lemma toHash_spec n t force :
  collapsed_item n = mitem t -> tree_fine t ->
  shortnodeToHash n force = Ok (hash_result n t force) /\ fullnodeToHash n force = Ok (hash_result n t force).
Proof.
  intros Hn Ht. unfold shortnodeToHash, fullnodeToHash. rewrite (rlp_Encode_spec n t) by done. bind_simpl.
  unfold hash_result, small, hashData, mhash. by destruct (_ && _).
Qed.

(** What the result of hashing a node has to be. *)
Definition hash_done (t : tree) (force : bool) (hashed : node) : Prop :=
  if force then hashed = hashNode (mhash t) else collapsed_item hashed = mchild t /\ hashed <> nilNode.

Lemma mchild_branch t : branch t -> mchild t = if small t then mitem t else IBytes (mhash t).
Proof. by destruct t. Qed.

Lemma hash_result_done n t force :
  branch t -> collapsed_item n = mitem t -> n <> nilNode -> hash_done t force (hash_result n t force).
Proof.
  intros Hb Hn Hnil. unfold hash_done, hash_result. rewrite mchild_branch by done.
  destruct force; [by rewrite andb_false_r|]. rewrite andb_true_r. by destruct (small t).
Qed.

Definition is_root (p : place) : bool := match p with Root => true | Below _ => false end.

(** After hashing, a child is as it has to be below a cached hash. *)
Definition after (p : place) : place := match p with Root => Root | Below _ => Below true end.

Lemma cached_done t p h :
  branch t -> h = mhash t -> (p = Root \/ small t = false) -> hash_done t (is_root p) (hashNode h).
Proof.
  intros Hb -> Hp. unfold hash_done. destruct p as [|b]; [done|]. simpl.
  destruct Hp as [?|Hs]; [done|]. by rewrite mchild_branch, Hs.
Qed.

Lemma cached_after p fl h t : fl_hash fl = Some h -> flag_ok p fl t -> flag_ok (after p) fl t.
Proof.
  simpl. intros ->. intros (-> & Hp & Hd). split_and!; try done.
  destruct p; [by left|]. destruct Hp; [done|by right].
Qed.

Lemma set_hash_after p fl n t :
  fl_hash fl = None -> flag_ok p fl t -> match n with hashNode _ => False | _ => True end ->
  flag_ok (after p) (set_hash fl (hash_result n t (is_root p))) t.
Proof.
  simpl. intros ->. intros [Ht Hd] Hn. unfold hash_result.
  destruct (small t) eqn:Hs, p as [|b]; simpl.
  - split_and!; [done|by left|]. intros H. by destruct (Hd H) as [_ ?].
  - destruct n; try done; simpl; split; done.
  - split_and!; [done|by left|]. intros H. by destruct (Hd H) as [? _].
  - split_and!; [done|by right|]. intros H. by destruct (Hd H) as [? _].
Qed.

(** Whether the hash of a node is set or not, its children can stay. *)
Lemma rep_below n t fl : rep (Below true) n t -> rep (below fl) n t.
Proof. intros Hr. unfold below. destruct (fl_hash fl); [done|]. by eapply rep_lift. Qed.

(** The entries that hashing the children writes, in any order. *)
Definition collapsed_entry (cs : list node) (g : nat -> node * node) (i : nat) (old : option node) : option node :=
  match cs !! i with Some nilNode => Some (valueNode []) | Some _ => Some (g i).1 | None => old end.
Definition cached_entry (cs : list node) (g : nat -> node * node) (i : nat) (old : option node) : option node :=
  match cs !! i with Some nilNode | None => old | Some _ => Some (g i).2 end.

Lemma upd_Ok {A} (l : list A) (i : nat) (x : A) :
  (i < length l)%nat -> upd l (Z.of_nat i) x = (Ok (<[i := x]> l) : go (list A)).
Proof.
  intros Hi. unfold upd, zlen. rewrite (proj2 (Z.leb_le _ _)), (proj2 (Z.ltb_lt _ _)) by lia. by rewrite Nat2Z.id.
Qed.

Lemma hash_children_spec results cs g order col cac :
  length results = length cs -> length col = length cs -> length cac = length cs ->
  (forall i c, i ∈ order -> cs !! i = Some c -> c <> nilNode -> results !! i = Some (Ok (g i))) ->
  Forall (fun i => i < length cs)%nat order ->
  exists col' cac', hash_children results order cs col cac = Ok (col', cac') /\
    length col' = length cs /\ length cac' = length cs /\
    forall i, col' !! i = (if decide (i ∈ order) then collapsed_entry cs g i (col !! i) else col !! i) /\
              cac' !! i = (if decide (i ∈ order) then cached_entry cs g i (cac !! i) else cac !! i).
Proof.
  intros Hlr. revert col cac. induction order as [|j order IH]; intros col cac Hl1 Hl2 Hres Hord.
  { by exists col, cac. }
  apply Forall_cons in Hord as [Hj Hord]. destruct (lookup_lt_is_Some_2 cs j Hj) as [c Hc].
  assert (Hidx : idx cs (Z.of_nat j) = (Ok c : go node)) by (apply idx_Ok; rewrite Nat2Z.id; split; [lia|done]).
  assert (Hres' : forall i c, i ∈ order -> cs !! i = Some c -> c <> nilNode -> results !! i = Some (Ok (g i))).
  { intros i c' Hi. apply Hres. by right. }
  assert (Hin : j ∈ j :: order) by left.
  assert (Hmem : forall i, i <> j -> i ∈ order <-> i ∈ j :: order) by (intros i ?; rewrite elem_of_cons; naive_solver).
  destruct (decide (c = nilNode)) as [->|Hcn].
  - destruct (IH (<[j := valueNode []]> col) cac) as (col' & cac' & Hrun & H1 & H2 & Hi); try done; [by rewrite length_insert|].
    exists col', cac'. cbn [hash_children]. rewrite Hidx. bind_simpl. rewrite upd_Ok by lia. bind_simpl.
    split_and!; try done. intros i. destruct (Hi i) as [-> ->]. unfold collapsed_entry, cached_entry.
    destruct (decide (i = j)) as [->|Hij].
    + rewrite Hc, list_lookup_insert_eq, !(decide_True (P := j ∈ j :: order)) by (done || lia).
      by destruct (decide (j ∈ order)).
    + rewrite list_lookup_insert_ne by done. split; by apply decide_ext, Hmem.
  - assert (Hr : idx results (Z.of_nat j) = (Ok (Ok (g j)) : go _)).
    { apply idx_Ok. rewrite Nat2Z.id. split; [lia|]. apply (Hres j c); [done..]. }
    destruct (IH (<[j := (g j).1]> col) (<[j := (g j).2]> cac)) as (col' & cac' & Hrun & H1 & H2 & Hi);
      try done; [by rewrite length_insert..|].
    exists col', cac'. split_and!; try done.
    + cbn [hash_children]. rewrite Hidx. bind_simpl.
      destruct c; try done; rewrite Hr; bind_simpl; destruct (g j) as [a b] eqn:Hg; bind_simpl;
        rewrite upd_Ok by lia; bind_simpl; rewrite upd_Ok by lia; bind_simpl; done.
    + intros i. destruct (Hi i) as [-> ->]. unfold collapsed_entry, cached_entry.
      destruct (decide (i = j)) as [->|Hij].
      * rewrite Hc, !list_lookup_insert_eq, !(decide_True (P := j ∈ j :: order)) by (done || lia).
        destruct c; try done; by destruct (decide (j ∈ order)).
      * rewrite !list_lookup_insert_ne by done. split; by apply decide_ext, Hmem.
Qed.

Lemma BytesToHash_id h : zlen h = 32 -> BytesToHash h = h.
Proof. intros Hl. unfold BytesToHash. rewrite Hl. change (32 >? 32) with false. cbv iota. by rewrite Hl. Qed.

Lemma mhash_id t : BytesToHash (mhash t) = mhash t.
Proof. apply BytesToHash_id, keccak_len. Qed.

Lemma rep_branch p n t :
  rep p n t -> match n with shortNode _ _ _ | fullNode _ _ | hashNode _ => True | _ => False end -> branch t.
Proof. destruct 1 as [| | | |h n t Hdb Hn Hr Hh]; try done. intros _. by destruct Hr as [| | | |]. Qed.

(** A node behind a hash is the one that the tree determines. *)
Lemma hash_loaded p h n t : hash_ok p h t -> db_node (BytesToHash h) = Some n -> n = loaded t.
Proof. intros (-> & _ & Hheld & _). rewrite mhash_id, Hheld. by intros [= <-]. Qed.

(** The hash of the node is known. *)
Definition settled (n : node) : Prop :=
  match n with shortNode _ _ _ | fullNode _ _ => is_Some (cache_hash n) | _ => True end.

Lemma loaded_settled t : settled (loaded t).
Proof. destruct t; simpl; eauto. Qed.

Lemma rep_after p n t :
  rep p n t -> settled n -> rep (after p) n t.
Proof.
  induction 1 as [| |p k c fl t Hr _ Hfl|p cs fl ts Hrs Hfl|p h n t Hdb Hn Hr IH Hh]; intros Hc.
  - constructor.
  - constructor.
  - destruct Hc as [h Hc]. constructor; [done|]. by eapply cached_after.
  - destruct Hc as [h Hc]. constructor; [done|]. by eapply cached_after.
  - apply (rep_hash _ h n); try done.
    + apply IH. rewrite (hash_loaded _ _ _ _ Hh Hdb). apply loaded_settled.
    + destruct Hh as (-> & Hp & Hheld). split_and!; try done. destruct p; [by left|]. destruct Hp; [done|by right].
Qed.

Definition order_ok (parallel : option (list nat)) : Prop :=
  match parallel with Some order => order ≡ₚ seq 0 16 | None => True end.

(** What hashing a node at a place has to deliver. *)
Definition hashes (parallel : option (list nat)) (p : place) (n : node) (t : tree) : Prop :=
  exists hashed cached, hash parallel n (is_root p) = Ok (hashed, cached) /\
    hash_done t (is_root p) hashed /\ rep (after p) cached t /\ (p = Root -> settled cached).

Lemma hash_cached par p n t h :
  rep p n t -> cache_hash n = Some h -> hashes par p n t.
Proof.
  intros Hr Hc. exists (hashNode h), n. split_and!.
  - destruct n; simpl in *; try done; by rewrite Hc.
  - assert (Hb : branch t) by (apply (rep_branch _ _ _ Hr); by destruct n).
    destruct Hr as [| |k c fl t Hr Hfl|cs fl ts Hrs Hfl|]; simpl in *; try done; rewrite Hc in Hfl;
      destruct Hfl as (-> & Hp & _); by apply cached_done.
  - apply rep_after; [done|]. destruct n; simpl in *; eauto.
  - intros _. destruct n; simpl in *; eauto.
Qed.

Lemma hash_short par p k c fl t :
  hashes par (below fl) c t -> hashable (TShort k t) -> tree_fine (TShort k t) -> fl_hash fl = None ->
  flag_ok p fl (TShort k t) -> hashes par p (shortNode k c fl) (TShort k t).
Proof.
  intros (cv & dv & Hrun & [Hcv Hnil] & Hr & _) Hh Hf Hnone Hfl.
  inversion Hh as [| |? ? Hk Hz Hne Ht|]; subst. destruct (compact_ok k Hk) as (Hck & _).
  unfold hashes. cbn [hash cache_hash]. rewrite Hnone, Hck. bind_simpl.
  assert (Hm : match c with fullNode _ _ | shortNode _ _ _ => hash par c false | _ => Ok (c, c) end = Ok (cv, dv)).
  { rewrite <- Hrun. by destruct c. }
  rewrite Hm. bind_simpl.
  assert (Hci : collapsed_item (shortNode (compact k) cv fl) = mitem (TShort k t)).
  { rewrite mitem_short. cbn [collapsed_item]. by rewrite Hcv. }
  rewrite (proj1 (toHash_spec _ _ (is_root p) Hci Hf)). bind_simpl.
  eexists _, _. split_and!; [done|by apply hash_result_done| |].
  - constructor; [|by apply set_hash_after]. by apply rep_below.
  - intros ->. unfold hash_result. simpl. rewrite andb_false_r. eauto.
Qed.

(** The children of a full node after hashing. *)
Definition hash_pair (cs : list node) (i : nat) : node * node :=
  match hash None (nth i cs nilNode) false with Ok r => r | _ => (nilNode, nilNode) end.

Definition child_item (c : node) : item := match c with nilNode => IBytes [] | _ => collapsed_item c end.

Lemma in_order par i : order_ok par -> i ∈ default (seq 0 16) par <-> (i < 16)%nat.
Proof.
  intros Ho. assert (Hs : i ∈ seq 0 16 <-> (i < 16)%nat) by (rewrite elem_of_seq; lia).
  destruct par as [order|]; [|done]. simpl in *. by rewrite Ho.
Qed.

Lemma rep_leaf p n t : rep p n t -> ~ branch t -> n = mnode t.
Proof.
  destruct 1 as [| | | |h n t Hdb Hn Hr Hh]; try done; intros Hb; destruct Hb; try done. apply (rep_branch _ _ _ Hr). by destruct n.
Qed.

(** One child: what is written to the two copies of the full node. *)
Lemma hash_child cs fl ts par i c t :
  order_ok par -> Forall2 (rep (below fl)) cs ts -> length ts = 17%nat ->
  (forall t, ts !! 16%nat = Some t -> value_child t) ->
  (forall i c t, cs !! i = Some c -> ts !! i = Some t -> c <> nilNode -> hashes None (below fl) c t) ->
  cs !! i = Some c -> ts !! i = Some t ->
  exists a b,
    (if decide (i ∈ default (seq 0 16) par) then collapsed_entry cs (hash_pair cs) i (cs !! i) else cs !! i) = Some a /\
    (if decide (i ∈ default (seq 0 16) par) then cached_entry cs (hash_pair cs) i (cs !! i) else cs !! i) = Some b /\
    child_item a = mchild t /\ rep (Below true) b t.
Proof.
  intros Ho Hrs Hlen Hval Hch Hc Ht. pose proof (Forall2_lookup_lr _ _ _ _ _ _ Hrs Hc Ht) as Hr.
  destruct (decide (i ∈ _)) as [Hi|Hi].
  - unfold collapsed_entry, cached_entry. rewrite Hc. destruct (decide (c = nilNode)) as [->|Hn].
    + assert (t = TEmpty) as -> by (by apply (rep_is_nil _ _ _ Hr)).
      exists (valueNode []), nilNode. split_and!; try done. constructor.
    + destruct (Hch i c t Hc Ht Hn) as (a & b & Hrun & [Hit Hnil] & Hrb & _).
      assert (Hp : hash_pair cs i = (a, b)).
      { unfold hash_pair. rewrite nth_lookup, Hc. simpl in *. by rewrite Hrun. }
      exists a, b. rewrite Hp. split_and!; [by destruct c|by destruct c| |done]. by destruct a.
  - rewrite (in_order par) in Hi by done.
    assert (i = 16%nat) as -> by (apply lookup_lt_Some in Ht; lia).
    assert (Hnb : ~ branch t) by (destruct (Hval t Ht) as [->|(v & -> & _)]; intros []).
    exists c, c. rewrite (rep_leaf _ _ _ Hr Hnb) in *. by destruct t; split_and!; try done; constructor.
Qed.

(** The children of a full node are collapsed to what the tree determines,
    and the copies with cached hashes stand for the same trees. *)
Lemma collapse_full par cs fl ts :
  order_ok par -> Forall2 (rep (below fl)) cs ts ->
  (forall i c t, cs !! i = Some c -> ts !! i = Some t -> c <> nilNode -> hashes None (below fl) c t) ->
  hashable (TFull ts) ->
  exists col cac, hash_children (map (fun c => hash None c false) cs) (default (seq 0 16) par) cs cs cs = Ok (col, cac) /\
    collapsed_item (fullNode col fl) = mitem (TFull ts) /\ Forall2 (rep (Below true)) cac ts.
Proof.
  intros Ho Hrs Hch Hh. inversion Hh as [| | |? Hlen Hts Hval]; subst.
  pose proof (Forall2_length _ _ _ Hrs) as Hl.
  destruct (hash_children_spec (map (fun c => hash None c false) cs) cs (hash_pair cs) (default (seq 0 16) par) cs cs)
    as (col & cac & Hrun & Hl1 & Hl2 & Hi); [by rewrite length_map|done|done| | |].
  { intros i c _ Hc Hn. rewrite list_lookup_fmap, Hc. simpl. do 2 f_equal.
    destruct (lookup_lt_is_Some_2 ts i) as [t Ht]; [apply lookup_lt_Some in Hc; lia|].
    destruct (Hch i c t Hc Ht Hn) as (a & b & Hrc & _). unfold hash_pair. rewrite nth_lookup, Hc. simpl in *.
    by rewrite Hrc. }
  { apply Forall_forall. intros i Hin. rewrite (in_order par) in Hin by done. lia. }
  exists col, cac. split; [done|].
  assert (Hone : forall i t, ts !! i = Some t -> exists a b, col !! i = Some a /\ cac !! i = Some b /\ child_item a = mchild t /\ rep (Below true) b t).
  { intros i t Ht. destruct (lookup_lt_is_Some_2 cs i) as [c Hc]; [apply lookup_lt_Some in Ht; lia|].
    destruct (hash_child cs fl ts par i c t) as (a & b & Ea & Eb & Hit & Hrb); try done.
    exists a, b. destruct (Hi i) as [-> ->]. done. }
  split.
  - rewrite mitem_full. cbn [collapsed_item]. fold child_item. f_equal. apply list_eq_Forall2, Forall2_fmap.
    apply Forall2_same_length_lookup. split; [lia|]. intros i a t Ha Ht.
    destruct (Hone i t Ht) as (a' & _ & Ea & _ & Hit & _). by simplify_eq.
  - apply Forall2_same_length_lookup. split; [lia|]. intros i b t Hb Ht.
    destruct (Hone i t Ht) as (_ & b' & _ & Eb & _ & Hrb). by simplify_eq.
Qed.

Lemma hash_full par p cs fl ts :
  order_ok par -> Forall2 (rep (below fl)) cs ts ->
  (forall i c t, cs !! i = Some c -> ts !! i = Some t -> c <> nilNode -> hashes None (below fl) c t) ->
  hashable (TFull ts) -> tree_fine (TFull ts) -> fl_hash fl = None ->
  flag_ok p fl (TFull ts) -> hashes par p (fullNode cs fl) (TFull ts).
Proof.
  intros Ho Hrs Hch Hh Hf Hnone Hfl.
  destruct (collapse_full par cs fl ts Ho Hrs Hch Hh) as (col & cac & Hrun & Hci & Hcac).
  unfold hashes. cbn [hash cache_hash]. rewrite Hnone, Hrun. bind_simpl.
  rewrite (proj2 (toHash_spec _ _ (is_root p) Hci Hf)). bind_simpl.
  eexists _, _. split_and!; [done|by apply hash_result_done| |].
  2: { intros ->. unfold hash_result. simpl. rewrite andb_false_r. eauto. }
  constructor; [|by apply set_hash_after]. eapply Forall2_impl; [done|]. intros b t. apply rep_below.
Qed.

Lemma hash_spec n p par t :
  rep p n t -> hashable t -> t <> TEmpty -> (p = Root -> branch t) -> order_ok par -> hashes par p n t.
Proof.
  revert p par t. induction n as [n Hleaf|k c fl IH|cs fl IH] using node_nested_ind;
    intros p par t Hr Hh Hne Hb Ho.
  - pose proof (rep_branch _ _ _ Hr) as Hbr. pose proof (rep_after _ _ _ Hr) as Hra.
    exists n, n. split_and!; [by destruct n| |by apply Hra; destruct n|by destruct n].
    destruct Hr as [|v| | |h n t Hdb Hn Hr Hh']; try done.
    + destruct p; [by destruct (Hb eq_refl)|done].
    + destruct Hh' as (-> & Hp & _). apply cached_done; [by apply Hbr|done..].
  - destruct (fl_hash fl) as [h|] eqn:Hfl; [by apply (hash_cached _ _ _ _ h)|].
    inversion Hr as [| |? ? ? t' Hr' Hflag| |]; subst. pose proof (hashable_fine _ Hh) as Hfine.
    apply hash_short; try done. inversion Hh; subst. by apply IH.
  - destruct (fl_hash fl) as [h|] eqn:Hfl; [by apply (hash_cached _ _ _ _ h)|].
    inversion Hr as [| | |? ? ts Hrs Hflag|]; subst. pose proof (hashable_fine _ Hh) as Hfine.
    apply hash_full; try done. intros i c t' Hc Ht Hn. inversion Hh as [| | |? Hlen Hts Hval]; subst.
    pose proof (Forall2_lookup_lr _ _ _ _ _ _ Hrs Hc Ht) as Hrc.
    apply (Forall_lookup_1 _ _ _ _ IH Hc); [done|by apply (Forall_lookup_1 _ _ _ _ Hts Ht)| |done|done].
    intros ->. apply Hn. pose proof (rep_is_nil _ _ _ Hrc) as Hnil. destruct c; naive_solver.
Qed.

(** ** Tries of maps *)

(** The keys and values fit in memory. *)
Definition map_fits (m : gmap (list Z) (list Z)) : Prop :=
  map_Forall (fun key v => bytes_ok key /\ zlen key < 2 ^ 56 /\ zlen v < 2 ^ 58 /\ bytes_ok v) m.

Lemma canon_hashable t :
  canon t -> (forall k v, tfind t k = Some v -> zlen k < 2 ^ 58 /\ zlen v < 2 ^ 58 /\ bytes_ok v) -> hashable t.
Proof.
  intros Hc. induction Hc as [ns v Hns Hv|ns ts Hns Hne Hts IH|ts Hts IH] using canon_strong_ind; intros Hb.
  - destruct (Hb (ns ++ [16]) v) as (Hk & Hz & Hok).
    { pose proof (tfind_short (ns ++ [16]) (TValue v) []) as Hf. by rewrite app_nil_r in Hf. }
    constructor; [by apply leaf_hex_ok|done|done|by constructor].
  - constructor; [by apply nibbles_hex_ok| |done|].
    + destruct (decide (zlen ns < 2 ^ 58)) as [|Hge]; [done|]. exfalso. apply (canon_nonempty_find _ Hts).
      intros k. destruct (tfind (TFull ts) k) as [v|] eqn:Hf; [|done].
      destruct (Hb (ns ++ k) v) as [Hz _]; [by rewrite tfind_short|]. rewrite zlen_app in Hz.
      pose proof (zlen_nonneg k). lia.
    + apply IH. intros k v Hf. destruct (Hb (ns ++ k) v) as (Hz & ? & ?); [by rewrite tfind_short|].
      rewrite zlen_app in Hz. pose proof (zlen_nonneg ns). split_and!; try done. lia.
  - apply canon_TFull in Hts as [(Hlen & _ & Hval) _].
    assert (Hbi : forall i t, ts !! i = Some t -> forall k v, tfind t k = Some v ->
                   zlen k < 2 ^ 58 /\ zlen v < 2 ^ 58 /\ bytes_ok v).
    { intros i t Ht k v Hf. destruct (Hb (Z.of_nat i :: k) v) as (Hz & ? & ?).
      { rewrite tfind_full by lia. by rewrite Nat2Z.id, Ht. }
      rewrite zlen_cons in Hz. split_and!; try done. lia. }
    constructor; [done| |done]. apply Forall_lookup_2. intros i t Ht.
    destruct (decide (i < 16)%nat) as [Hi|Hi].
    + destruct (IH i t Hi Ht) as [->|[_ IHt]]; [constructor|]. apply IHt. by eapply Hbi.
    + assert (i = 16%nat) as -> by (apply lookup_lt_Some in Ht; lia).
      destruct (Hval t Ht) as [->|(v & -> & _)]; [constructor|].
      destruct (Hbi _ _ Ht [] v eq_refl) as (_ & ? & ?). by constructor.
Qed.

Lemma zlen_hexkey key : zlen (hexkey key) = 2 * zlen key + 1.
Proof.
  unfold hexkey. rewrite zlen_app. change (zlen [16]) with 1. induction key as [|b key IH]; [done|].
  change (flat (unpack (b :: key))) with (b / 16 :: b mod 16 :: flat (unpack key)). rewrite !zlen_cons. lia.
Qed.

Lemma tree_map_hashable T m : tree_map T m -> map_fits m -> hashable T.
Proof.
  intros [[->|Hc] Hm] Hf; [constructor|]. apply canon_hashable; [done|]. intros k v Hk.
  apply Hm in Hk as (key & -> & _ & Hv). destruct (Hf key v Hv) as (_ & ? & ? & ?). rewrite zlen_hexkey.
  split_and!; try done. lia.
Qed.

Lemma canon_branch_tree T : canon T -> branch T.
Proof. by destruct 1. Qed.

Lemma Hash_spec order t m T :
  stores t m -> tree_map T m -> map_fits m -> order ≡ₚ seq 0 16 ->
  exists t', Hash order t = Ok (mroot T, t') /\ rep Root (root t') T /\ settled (root t').
Proof.
  intros (T' & Hr & Hm) HT Hfit Ho. rewrite <- (tree_map_unique T T' m HT Hm) in Hr. clear T' Hm.
  pose proof (tree_map_hashable _ _ HT Hfit) as Hh. destruct HT as [Hc _].
  assert (Hnil : is_nil (root t) = true <-> T = TEmpty) by (by eapply rep_is_nil).
  unfold Hash, hashRoot. destruct Hc as [->|Hc].
  - destruct (root t); try discriminate (proj2 Hnil eq_refl). bind_simpl.
    rewrite BytesToHash_id by done. eexists. split_and!; [done|constructor|done].
  - pose proof (canon_branch_tree _ Hc) as Hb. set (par := if unhashed t >=? 100 then Some order else None).
    destruct (hash_spec (root t) Root par T Hr Hh) as (hashed & cached & Hrun & Hd & Hr' & Hs);
      [by destruct T|done|unfold par; by destruct (unhashed t >=? 100)|].
    simpl in Hd, Hr', Hrun. subst hashed. exists (MkTrie cached 0). split_and!; [|done|by apply Hs].
    replace (mroot T) with (mhash T) by (by destruct T).
    destruct (root t); [by rewrite (proj1 Hnil eq_refl) in Hb|..]; rewrite Hrun; bind_simpl; by rewrite mhash_id.
Qed.

(** C10. [Hash] returns the Merkle root of the tree that the stored map
    determines, whatever is cached, loaded or dirty and in whatever order the
    goroutines finish; the trie goes on storing the map, with correct cached
    hashes. *)
Theorem Hash_correct (order : list nat) (t : Trie) (m : gmap (list Z) (list Z)) (T : tree) :
  stores t m -> tree_map T m -> map_fits m -> order ≡ₚ seq 0 16 ->
  exists t', Hash order t = Ok (mroot T, t') /\ stores t' m.
Proof.
  intros Hs HT Hf Ho. destruct (Hash_spec order t m T) as (t' & Hrun & Hr & _); try done.
  exists t'. split; [done|]. by exists T.
Qed.

(** ** The hash determines the map *)

Lemma node_item_mnode t : node_item (mnode t) = mitem t.
Proof.
  assert (Hc : forall t, node_item (mnode t) = mitem t -> node_item (mnode_child t) = mchild t).
  { intros s Hs. destruct s; try done; unfold mnode_child, mchild, mref, small, mhash; by destruct (_ <? 32). }
  induction t as [|v|k t IH|ts IH] using tree_nested_ind; try done.
  - rewrite mitem_short, <- (Hc t IH). done.
  - rewrite mitem_full. change (node_item (mnode (TFull ts))) with (IList (map node_item (map mnode_child ts))).
    rewrite map_map. f_equal. apply map_ext_in. intros t Ht. apply Hc.
    rewrite Forall_forall in IH. by apply IH, list_elem_of_In.
Qed.

Lemma stored_mnode t : canon t -> hashable t -> stored (mnode t).
Proof.
  assert (Href : forall t, (branch t -> stored (mnode t)) -> branch t \/ t = TEmpty -> stored_ref (mnode_child t)).
  { intros s Hst [Hb| ->]; [|constructor]. specialize (Hst Hb).
    replace (mnode_child s) with (if small s then mnode s else hashNode (mhash s)) by (by destruct s).
    destruct (small s) eqn:Hs; [|constructor; [apply keccak_len|apply keccak_bytes]].
    apply ref_node; [done|]. unfold node_rlp. rewrite node_item_mnode. unfold small in Hs. lia. }
  intros Hc. induction Hc as [ns v Hns Hv|ns ts Hns Hne Hts IH|ts Hts IH] using canon_strong_ind; intros Hh.
  - inversion Hh as [| |? ? ? ? ? Hv'|]; subst. inversion Hv'; subst. by apply stored_leaf.
  - inversion Hh as [| |? ? ? ? ? Hv'|]; subst. apply stored_ext; [done|].
    apply (Href (TFull ts)); [by intros _; apply IH|by left].
  - inversion Hh as [| | |? Hlen Hall Hval]; subst.
    destruct (lookup_lt_is_Some_2 ts 16) as [u Hu]; [lia|].
    assert (Hsplit : ts = take 16 ts ++ [u]).
    { rewrite <- (take_drop 16 ts) at 1. f_equal. rewrite (drop_S _ u) by done. f_equal. apply drop_ge. lia. }
    change (mnode (TFull ts)) with (fullNode (map mnode_child ts) (NodeFlag None false)).
    rewrite Hsplit, map_app. simpl map. apply stored_full.
    + rewrite length_map, length_take. lia.
    + apply Forall_map, Forall_lookup_2. intros i t Ht. apply lookup_take_Some in Ht as [Ht Hi].
      apply Href; [intros Hb|].
      * destruct (IH i t Hi Ht) as [->|[_ IHt]]; [done|]. apply IHt. by apply (Forall_lookup_1 _ _ _ _ Hall Ht).
      * destruct (IH i t Hi Ht) as [->|[Hct _]]; [by right|left]. by apply canon_branch_tree.
    + destruct (Hval u Hu) as [->|(v & -> & Hv)]; [by left|right]. exists v. split_and!; try done.
      pose proof (Forall_lookup_1 _ _ _ _ Hall Hu) as Hhv. by inversion Hhv.
Qed.

Lemma reflag_mnode t : reflag None (mnode t) = mnode t.
Proof.
  assert (Hc : forall t, reflag None (mnode t) = mnode t -> reflag None (mnode_child t) = mnode_child t).
  { intros s Hs. destruct s; try done; unfold mnode_child; by destruct (small _). }
  induction t as [|v|k t IH|ts IH] using tree_nested_ind; try done.
  - change (mnode (TShort k t)) with (shortNode k (mnode_child t) (NodeFlag None false)). simpl. by rewrite Hc.
  - change (mnode (TFull ts)) with (fullNode (map mnode_child ts) (NodeFlag None false)). simpl. f_equal.
    rewrite map_map. apply map_ext_in. intros t Ht. apply Hc. rewrite Forall_forall in IH. by apply IH, list_elem_of_In.
Qed.

(** The encoding of a node determines it: decoding it gives it back. *)
Lemma rlp_mnode_inj t t' :
  canon t -> canon t' -> hashable t -> hashable t' ->
  rlp_spec (mitem t) = rlp_spec (mitem t') -> mnode t = mnode t'.
Proof.
  intros Hc Hc' Hh Hh' He.
  assert (Hd : forall s, canon s -> hashable s ->
    decodeNode (length (rlp_spec (mitem s))) None (rlp_spec (mitem s)) = Ok (mnode s)).
  { intros s Hcs Hhs. destruct (hashable_fine s Hhs) as (_ & Hok & _ & Hz).
    pose proof (decode_stored (length (rlp_spec (mitem s))) None (mnode s) []) as Hdec.
    unfold node_rlp in Hdec. rewrite node_item_mnode, app_nil_r, reflag_mnode in Hdec.
    apply Hdec; [by apply stored_mnode| |done]. split; [|lia]. apply rlp_spec_ok; [done|lia]. }
  pose proof (Hd t Hc Hh) as Ht. pose proof (Hd t' Hc' Hh') as Ht'. rewrite He in Ht. congruence.
Qed.

(** The encodings of all the nodes of a tree, those that are embedded in
    their parent and the values included. *)
Fixpoint encodings (t : tree) : list (list Z) :=
  rlp_spec (mitem t) ::
  match t with
  | TShort _ t => encodings t
  | TFull ts => concat (map encodings ts)
  | _ => []
  end.

Lemma encodings_child ts i t x : ts !! i = Some t -> x ∈ encodings t -> x ∈ encodings (TFull ts).
Proof.
  intros Ht Hx. right. apply list_elem_of_In, in_concat. exists (encodings t). split; [|by apply list_elem_of_In].
  apply in_map, list_elem_of_In. by eapply list_elem_of_lookup_2.
Qed.

(** What is hashed for a node that is the child of another: its encoding,
    unless it is shorter than a hash. *)
Definition child_preimage (t : tree) : list (list Z) :=
  match t with
  | TShort _ _ | TFull _ => if small t then [] else [rlp_spec (mitem t)]
  | _ => []
  end.

(** What is hashed below a node. *)
Fixpoint preimages_below (t : tree) : list (list Z) :=
  match t with
  | TShort _ t => child_preimage t ++ preimages_below t
  | TFull ts => concat (map (fun t => child_preimage t ++ preimages_below t) ts)
  | _ => []
  end.

(** What is hashed to make the Merkle root: the encoding of the root, however
    short it is, and what is hashed below it. *)
Definition preimages (t : tree) : list (list Z) := rlp_spec (mitem t) :: preimages_below t.

Lemma preimages_child ts i t x :
  ts !! i = Some t -> x ∈ child_preimage t ++ preimages_below t -> x ∈ preimages_below (TFull ts).
Proof.
  intros Ht Hx. apply list_elem_of_In, in_concat. exists (child_preimage t ++ preimages_below t). split; [|by apply list_elem_of_In].
  change (In ((fun t => child_preimage t ++ preimages_below t) t) (map (fun t => child_preimage t ++ preimages_below t) ts)).
  apply in_map, list_elem_of_In. by eapply list_elem_of_lookup_2.
Qed.

(** The hash function does not collide between two sets of byte strings. *)
Definition apart (l l' : list (list Z)) : Prop :=
  forall x y, x ∈ l -> y ∈ l' -> keccak256 x = keccak256 y -> x = y.

Lemma apart_check l l' :
  bool_decide (Forall (fun x => Forall (fun y => keccak256 x = keccak256 y -> x = y) l') l) = true -> apart l l'.
Proof. intros Hb%bool_decide_eq_true x y Hx Hy. rewrite Forall_forall in Hb. specialize (Hb x Hx). rewrite Forall_forall in Hb. by apply Hb. Qed.

(** The hash function has no collision among what is hashed for the two
    trees. *)
Definition no_collision (t t' : tree) : Prop := apart (preimages t) (preimages t').

Lemma no_collision_root t t' : no_collision t t' -> mhash t = mhash t' -> rlp_spec (mitem t) = rlp_spec (mitem t').
Proof. intros Hn. apply Hn; left. Qed.

Lemma no_collision_below t t' : no_collision t t' -> apart (preimages_below t) (preimages_below t').
Proof. intros Hn x y Hx Hy. apply Hn; by right. Qed.

Definition binds (t t' : tree) : Prop :=
  canon t' -> hashable t' -> apart (preimages_below t) (preimages_below t') -> mnode t = mnode t' -> t = t'.

Lemma mnode_child_inj t t' :
  canon t -> hashable t -> binds t t' -> canon t' -> hashable t' ->
  apart (child_preimage t ++ preimages_below t) (child_preimage t' ++ preimages_below t') ->
  mnode_child t = mnode_child t' -> t = t'.
Proof.
  intros Hct Hht IH Hc Hh Hn He. apply IH; try done.
  { intros x y Hx Hy. apply Hn; apply elem_of_app; by right. }
  pose proof (canon_branch_tree _ Hct) as Hb. pose proof (canon_branch_tree _ Hc) as Hb'.
  replace (mnode_child t) with (if small t then mnode t else hashNode (mhash t)) in He by (by destruct t).
  replace (mnode_child t') with (if small t' then mnode t' else hashNode (mhash t')) in He by (by destruct t').
  assert (Hp : forall s, branch s -> small s = false -> rlp_spec (mitem s) ∈ child_preimage s ++ preimages_below s).
  { intros s Hbs Hs. apply elem_of_app. left. unfold child_preimage. rewrite Hs. destruct s; done || left. }
  destruct (small t) eqn:Hs, (small t') eqn:Hs'.
  - done.
  - by destruct t.
  - by destruct t'.
  - apply rlp_mnode_inj; try done. apply Hn; [by apply Hp..|]. unfold mhash in He. congruence.
Qed.

Lemma canon_child_cases ts i t :
  canon (TFull ts) -> ts !! i = Some t ->
  t = TEmpty \/ (canon t /\ (i < 16)%nat) \/ (exists v, t = TValue v) /\ i = 16%nat.
Proof.
  intros Hc Ht. apply canon_TFull in Hc as [(Hlen & Hch & Hval) _].
  destruct (decide (i < 16)%nat) as [Hi|Hi].
  - destruct (Hch i t Hi Ht) as [->|?]; [by left|right; by left].
  - assert (i = 16%nat) as -> by (apply lookup_lt_Some in Ht; lia).
    destruct (Hval t Ht) as [->|(v & -> & _)]; [by left|right; right; eauto].
Qed.

Lemma mnode_child_shape t t' :
  mnode_child t = mnode_child t' ->
  branch t /\ branch t' \/ t = t'.
Proof.
  intros He. destruct t, t'; try (by left); try done; right; unfold mnode_child in He; simpl in He;
    repeat destruct (small _); simplify_eq; done.
Qed.

Lemma binding t t' : canon t -> hashable t -> binds t t'.
Proof.
  intros Hc. revert t'.
  induction Hc as [ns v Hns Hv|ns ts Hns Hne Hts IH|ts Hts IH] using canon_strong_ind;
    intros t' Hh Hc' Hh' Hn Hm.
  - destruct Hc' as [ns' v' Hns' Hv'|ns' ts' Hns' Hne' Hts'|ts' H1 H2 H3 H4]; [|simpl in Hm; by destruct (small _)|done].
    injection Hm as Hk Hve. by rewrite Hk, Hve.
  - destruct Hc' as [ns' v' Hns' Hv'|ns' ts' Hns' Hne' Hts'|ts' H1 H2 H3 H4]; [simpl in Hm; by destruct (small _)| |done].
    change (mnode (TShort ?k ?t)) with (shortNode k (mnode_child t) (NodeFlag None false)) in Hm.
    injection Hm as -> Hm. f_equal.
    inversion Hh; inversion Hh'; subst. apply mnode_child_inj; try done. by apply IH.
  - destruct Hc' as [ns' v' Hns' Hv'|ns' ts' Hns' Hne' Hts'|ts' H1 H2 H3 H4]; [done|done|].
    assert (Hts' : canon (TFull ts')) by (by constructor).
    injection Hm as Hm. fold mnode_child in Hm. f_equal.
    inversion Hh as [| | |? Hlen Hall _]; inversion Hh' as [| | |? Hlen' Hall' _]; subst.
    apply list_eq_same_length with 17%nat; [done..|]. intros i t t' _ Ht Ht'.
    assert (Hmi : mnode_child t = mnode_child t').
    { apply (f_equal (.!! i)) in Hm. change (map ?f ?l) with (f <$> l) in Hm.
      rewrite !list_lookup_fmap, Ht, Ht' in Hm. by injection Hm. }
    destruct (mnode_child_shape t t' Hmi) as [[Hb Hb']|?]; [|done].
    destruct (canon_child_cases _ _ _ Hts Ht) as [->|[[Hct Hi]|[[v ->] _]]]; [done| |done].
    destruct (canon_child_cases _ _ _ Hts' Ht') as [->|[[Hct' _]|[[v ->] _]]]; [done| |done].
    pose proof (Forall_lookup_1 _ _ _ _ Hall Ht) as Hht.
    apply mnode_child_inj; try done.
    + destruct (IH i t Hi Ht) as [->|[_ IHt]]; [done|]. by apply IHt.
    + by apply (Forall_lookup_1 _ _ _ _ Hall' Ht').
    + intros x y Hx Hy. apply Hn; by eapply preimages_child.
Qed.

(** With the empty root as the hash of the empty string, every root is the
    hash of an encoding. *)
Lemma mroot_mhash t : keccak256 [0x80] = emptyRoot -> mroot t = mhash t.
Proof. by destruct t. Qed.

Lemma rlp_branch_not_empty t : branch t -> rlp_spec (mitem t) <> [0x80].
Proof.
  assert (Hl : forall p, list_spec p <> [0x80]).
  { intros p. unfold list_spec, head_spec. destruct (Z.ltb_spec (zlen p) 56).
    - pose proof (zlen_nonneg p). intros [= ?]. lia.
    - intros [= _ He]. apply (f_equal length) in He. rewrite length_app in He.
      destruct p; [change (zlen []) with 0 in *; lia|simpl in He; lia]. }
  destruct t; try done; intros _; apply Hl.
Qed.

Lemma mroot_inj t t' :
  canon0 t -> canon0 t' -> hashable t -> hashable t' -> keccak256 [0x80] = emptyRoot -> no_collision t t' ->
  mroot t = mroot t' -> t = t'.
Proof.
  intros Hc Hc' Hh Hh' He Hn Hr. rewrite !mroot_mhash in Hr by done. apply no_collision_root in Hr; [|done].
  destruct Hc as [->|Hc], Hc' as [->|Hc'].
  - done.
  - destruct (rlp_branch_not_empty t'); [by apply canon_branch_tree|done].
  - destruct (rlp_branch_not_empty t); [by apply canon_branch_tree|done].
  - apply binding; try done; [by apply no_collision_below|by apply rlp_mnode_inj].
Qed.

Lemma tree_map_inj T m m' : tree_map T m -> tree_map T m' -> map_fits m -> map_fits m' -> m = m'.
Proof.
  intros HT HT' Hf Hf'. apply map_eq. intros key. apply option_eq. intros v. split; intros Hv.
  - destruct (Hf _ _ Hv) as [Hk _]. by rewrite <- (tree_map_lookup T m'), (tree_map_lookup T m).
  - destruct (Hf' _ _ Hv) as [Hk _]. by rewrite <- (tree_map_lookup T m), (tree_map_lookup T m').
Qed.
End merkle.

(** C15. The root hash commits to the map: if two tries, each with its own
    database, have the same hash, they store the same map, provided that the
    hash function has no collision among what is hashed for the two: the
    encodings of the roots and of the nodes below them that are not embedded
    in their parent. *)
Theorem Hash_binding {K : Keccak} (db db' : NodeReader) (order order' : list nat) (t t' t1 t1' : Trie)
    (m m' : gmap (list Z) (list Z)) (T T' : tree) (h : list Z) :
  stores (db := db) (G := merkle (db := db)) t m -> stores (db := db') (G := merkle (db := db')) t' m' -> tree_map T m -> tree_map T' m' ->
  map_fits m -> map_fits m' -> order ≡ₚ seq 0 16 -> order' ≡ₚ seq 0 16 ->
  keccak256 [0x80] = emptyRoot -> no_collision T T' ->
  Hash order t = Ok (h, t1) -> Hash order' t' = Ok (h, t1') -> m = m'.
Proof.
  intros Hs Hs' HT HT' Hf Hf' Ho Ho' He Hn Hh Hh'.
  destruct (Hash_spec (db := db) order t m T Hs HT Hf Ho) as (u & Hu & _).
  destruct (Hash_spec (db := db') order' t' m' T' Hs' HT' Hf' Ho') as (u' & Hu' & _).
  rewrite Hu in Hh. rewrite Hu' in Hh'. injection Hh as <- _. injection Hh' as Hr _.
  assert (T = T') as ->; [|by eapply tree_map_inj].
  apply mroot_inj; try done; [apply HT|apply HT'|by apply (tree_map_hashable T m)|by apply (tree_map_hashable T' m')].
Qed.

(** A toy hash function, for the examples. *)
Definition toy_hash (b : list Z) : list Z :=
  if decide (b = [0x80]) then emptyRoot else replicate 31 7 ++ [foldr (fun x s => (3 * s + x) mod 256) 0 b].

Lemma toy_hash_ok b : zlen (toy_hash b) = 32 /\ bytes_ok (toy_hash b).
Proof.
  unfold toy_hash. case_decide; [split; [done|solve_decidable]|]. split; [done|].
  apply Forall_app. split; [solve_decidable|]. apply Forall_singleton.
  destruct b as [|x b]; [done|]. simpl. apply Z.mod_pos_bound. lia.
Qed.

Definition toy_keccak : Keccak :=
  {| keccak256 := toy_hash; keccak_len b := proj1 (toy_hash_ok b); keccak_bytes b := proj2 (toy_hash_ok b) |}.

Lemma toy_stores : stores (db := no_db) (G := merkle (K := toy_keccak) (db := no_db)) fresh_trie sample_map.
Proof.
  exists sample_tree. split; [|apply sample_tree_map]. constructor; [constructor|]. by apply (new_ok true).
Qed.

Lemma toy_fits : map_fits sample_map.
Proof. apply map_Forall_singleton. split_and!; [solve_decidable|done|done|solve_decidable]. Qed.

Definition toy_hashed : list Z * Trie :=
  match Hash (K := toy_keccak) (seq 0 16) fresh_trie with Ok r => r | _ => ([], fresh_trie) end.

Lemma Hash_correct_witness :
  exists t', Hash (K := toy_keccak) (seq 0 16) fresh_trie = Ok (mroot (K := toy_keccak) sample_tree, t') /\
    stores (db := no_db) (G := merkle (K := toy_keccak) (db := no_db)) t' sample_map.
Proof.
  apply (Hash_correct (K := toy_keccak) (db := no_db));
    [apply toy_stores|apply sample_tree_map|apply toy_fits|done].
Defined.

(** Two keys with values of forty bytes, so that the leaves are hashed. *)
Definition pair_map : gmap (list Z) (list Z) := <[ [18] := replicate 40 1 ]> {[ [34] := replicate 40 2 ]}.
Definition pair_tree : tree :=
  TFull ([TEmpty; TShort [2; 16] (TValue (replicate 40 1)); TShort [2; 16] (TValue (replicate 40 2))] ++ replicate 14 TEmpty).

Lemma pair_tree_map : tree_map pair_tree pair_map.
Proof.
  assert (Hl : forall v, v <> [] -> canon (TShort [2; 16] (TValue v))) by (intros v Hv; apply (canon_leaf [2]); [solve_decidable|done]).
  split; [right; apply canon_full; [done|..]|].
  - intros i t Hi Ht. destruct i as [|[|[|i]]]; [injection Ht as <-; auto..|].
    left. by destruct (lookup_replicate_1 14 TEmpty t i Ht).
  - intros t Ht. injection Ht as <-. by left.
  - exists 1%nat, 2%nat. split; [done|]. split; by eexists.
  - intros k v. split.
    + destruct k as [|x k]; [done|]. cbn [tfind pair_tree]. destruct (Z.ltb_spec x 0) as [Hx|Hx]; [done|]. intros Hv.
      assert (Hk : forall w, tfind (TShort [2; 16] (TValue w)) k = Some v -> k = [2; 16] /\ v = w).
      { intros w. cbn [tfind]. destruct (strip [2; 16] k) as [[|? ?]|] eqn:Hs; try done. intros [= <-]. by apply strip_Some in Hs as ->. }
      rewrite <- (Z2Nat.id x Hx). destruct (Z.to_nat x) as [|[|[|i]]]; [done|..].
      * apply Hk in Hv as [-> ->]. exists [18]. split_and!; [done|solve_decidable|done].
      * apply Hk in Hv as [-> ->]. exists [34]. split_and!; [done|solve_decidable|done].
      * change (default None (replicate 14 None !! i) = Some v) in Hv. destruct (replicate 14 None !! i) as [o|] eqn:Ho; [|done].
        apply lookup_replicate_1 in Ho as [-> _]. done.
    + intros (key & -> & _ & Hm). unfold pair_map in Hm. apply lookup_insert_Some in Hm as [[<- <-]|[_ Hm]]; [done|].
      apply lookup_singleton_Some in Hm as [<- <-]. done.
Qed.

Lemma pair_fits : map_fits pair_map.
Proof. apply map_Forall_insert_2; [|apply map_Forall_singleton]; split_and!; done || solve_decidable. Qed.

#[local] Existing Instance toy_keccak.
(** The trie as it is built in memory, and as it is opened from a database. *)
Definition built : Trie :=
  let leaf x := shortNode [2; 16] (valueNode (replicate 40 x)) newFlag in
  MkTrie (fullNode ([nilNode; leaf 1; leaf 2] ++ replicate 14 nilNode) newFlag) 2.
Definition pair_leaf (x : Z) : tree := TShort [2; 16] (TValue (replicate 40 x)).
Definition pair_db : NodeReader := fun h =>
  head (filter (fun n => cache_hash n = Some h) [loaded pair_tree; loaded (pair_leaf 1); loaded (pair_leaf 2)]).
Definition opened : Trie := MkTrie (hashNode (mhash pair_tree)) 0.

Lemma built_stores : stores (db := no_db) (G := merkle (db := no_db)) built pair_map.
Proof.
  exists pair_tree. split; [|apply pair_tree_map]. constructor; [|by apply (new_ok true)].
  assert (Hf : forall x, rep (db := no_db) (G := merkle (db := no_db)) (Below false) (shortNode [2; 16] (valueNode (replicate 40 x)) newFlag) (pair_leaf x)).
  { intros x. constructor; [constructor|]. by apply (new_ok false). }
  apply Forall2_app; [|by apply Forall2_replicate; constructor].
  apply Forall2_cons; split; [apply rep_nil|]. by do 2 (apply Forall2_cons; split; [apply Hf|]).
Qed.

Lemma opened_stores : stores (db := pair_db) (G := merkle (db := pair_db)) opened pair_map.
Proof.
  assert (Hf : forall x, x = 1 \/ x = 2 -> held (db := pair_db) (pair_leaf x)) by (intros x [-> | ->]; (split; [vm_compute; reflexivity|exact I])).
  assert (Hh : held (db := pair_db) pair_tree).
  { split; [vm_compute; reflexivity|]. apply held_full. apply Forall_app. split; [|by apply Forall_replicate].
    repeat constructor; intros _; apply Hf; auto. }
  assert (Hl : forall x, x = 1 \/ x = 2 -> rep (db := pair_db) (G := merkle (db := pair_db)) (Below true) (hashNode (mhash (pair_leaf x))) (pair_leaf x)).
  { intros x Hx. assert (small (pair_leaf x) = false) by (by destruct Hx as [-> | ->]).
    apply (rep_hash _ _ (loaded (pair_leaf x))); [rewrite mhash_id; by apply Hf|done| |].
    - constructor; [constructor|]. split; [done|]. split; [by right|]. intros _. by apply Hf.
    - split; [done|]. split; [by right|]. by apply Hf. }
  exists pair_tree. split; [|apply pair_tree_map].
  apply (rep_hash _ _ (loaded pair_tree)); [rewrite mhash_id; apply Hh|done| |by split; [|split; [left|]]].
  constructor; [|by split; [|split; [left|]]].
  change (map _ _) with ([nilNode; hashNode (mhash (pair_leaf 1)); hashNode (mhash (pair_leaf 2))] ++ replicate 14 nilNode).
  apply Forall2_app; [|by apply Forall2_replicate; constructor]. apply Forall2_cons; split; [apply rep_nil|]. by do 2 (apply Forall2_cons; split; [apply Hl; auto|]).
Qed.

Definition hashed (r : go (list Z * Trie)) : list Z * Trie := match r with Ok r => r | _ => ([], built) end.

(** One trie built in memory, the other opened from a database. *)
Lemma Hash_binding_witness : root built <> root opened /\ pair_map = pair_map.
Proof.
  split; [done|].
  apply (Hash_binding no_db pair_db (seq 0 16) (reverse (seq 0 16)) built opened
    (hashed (Hash (seq 0 16) built)).2 (hashed (Hash (reverse (seq 0 16)) opened)).2 pair_map pair_map pair_tree pair_tree (mroot pair_tree));
    [apply built_stores|apply opened_stores|apply pair_tree_map..|apply pair_fits|apply pair_fits|done|apply reverse_Permutation|reflexivity| |vm_compute; reflexivity|vm_compute; reflexivity].
  apply apart_check. vm_compute. reflexivity.
Defined.
