(* ===== verification/TrieDatabase.v ===== *)
(** * The trie database (src/trie/database.go)

    The write layer between the tries and the disk: dirty nodes with reference
    counts and a flush list, the garbage collector, the capping of the memory
    and the commit of a trie to disk.  The disk is a map from keys to blobs
    whose batch writes can fail; the clean cache is a parameter. *)
From stdpp Require Import prelude list gmap.
From Stdlib Require Import ZArith Lia.
From S2P Require Import Prelude RlpEncode RlpRaw RlpStream TrieEncoding Trie TrieNode TrieHash.

Abbreviation hash_t := (list Z).
Definition zeroHash : hash_t := replicate 32 0.

(** ** Cached nodes *)

(** Nodes without flags: [rawNode], [rawShortNode] and [rawFullNode]. *)
Inductive cnode :=
| RNil
| RValue (v : list Z)
| RHash (h : list Z)
| RShort (k : list Z) (c : cnode)
| RFull (cs : list cnode)
| RBlob (b : list Z).

Definition is_rnil (n : cnode) : bool := match n with RNil => true | _ => false end.

Record cachedNode := CachedNode {
  cn_node : cnode;
  cn_size : Z;
  cn_parents : Z;
  cn_children : option (gmap hash_t Z);
  cn_prev : hash_t;
  cn_next : hash_t;
}.

Definition cachedNodeSize : Z := 96.
Definition cachedNodeChildrenSize : Z := 48.

(** What the encoder writes for a cached node. *)
Fixpoint cnode_item (n : cnode) : item :=
  match n with
  | RNil => INilInterface
  | RValue v | RHash v => IBytes v
  | RShort k c => IList [IBytes k; cnode_item c]
  | RFull cs => IList (map (fun c => match c with RNil => IBytes [] | _ => cnode_item c end) cs)
  | RBlob b => IRaw b
  end.

Definition cached_rlp (n : cachedNode) : go (list Z) :=
  match cn_node n with
  | RBlob b => Ok b
  | c => match EncodeToBytes (cnode_item c) new_encbuf with Ok b => Ok b | _ => Panic end
  end.

Definition mustDecodeNode (hash : option (list Z)) (buf : list Z) : go node :=
  match decodeNode (S (length buf)) hash buf with Ok n => Ok n | _ => Panic end.

Fixpoint expandNode (hash : option (list Z)) (n : cnode) : go node :=
  match n with
  | RShort k c =>
      key ← compactToHex k;
      val ← expandNode None c;
      Ok (shortNode key val (NodeFlag hash false))
  | RFull cs =>
      let fix kids cs :=
        match cs with
        | [] => Ok []
        | c :: cs =>
            n ← (if is_rnil c then Ok nilNode else expandNode None c);
            ns ← kids cs;
            Ok (n :: ns)
        end in
      ns ← kids cs;
      Ok (fullNode ns (NodeFlag hash false))
  | RValue v => Ok (valueNode v)
  | RHash h => Ok (hashNode h)
  | RNil | RBlob _ => Panic
  end.

Definition cached_obj (n : cachedNode) (hash : hash_t) : go node :=
  match cn_node n with
  | RBlob b => mustDecodeNode (Some hash) b
  | c => expandNode (Some hash) c
  end.

Fixpoint simplifyNode (n : node) : go cnode :=
  match n with
  | shortNode k c _ => v ← simplifyNode c; Ok (RShort k v)
  | fullNode cs _ =>
      let fix kids cs :=
        match cs with
        | [] => Ok []
        | c :: cs =>
            n ← (if is_nil c then Ok RNil else simplifyNode c);
            ns ← kids cs;
            Ok (n :: ns)
        end in
      ns ← kids cs;
      Ok (RFull ns)
  | valueNode v => Ok (RValue v)
  | hashNode h => Ok (RHash h)
  | nilNode => Panic
  end.

(** The hashes that [forGatherChildren] visits, in order. *)
Fixpoint forGatherChildren (n : cnode) : list hash_t :=
  match n with
  | RShort _ c => forGatherChildren c
  | RFull cs =>
      let fix kids (i : nat) cs :=
        match i, cs with
        | S i, c :: cs => forGatherChildren c ++ kids i cs
        | _, _ => []
        end in
      kids 16%nat cs
  | RHash h => [BytesToHash h]
  | RNil | RValue _ | RBlob _ => []
  end.

(** ** The disk *)

(** Each batch write takes a result from [d_faults]; a write that fails
    changes nothing. *)
Record Disk := MkDisk { d_data : gmap (list Z) (list Z); d_faults : list bool }.
Record Batch := MkBatch { b_writes : list (list Z * list Z); b_size : Z }.

Definition IdealBatchSize : Z := 100 * 1024.
Definition NewBatch : Batch := MkBatch [] 0.
Definition batch_Put (b : Batch) (key value : list Z) : Batch :=
  MkBatch (b_writes b ++ [(key, value)]) (b_size b + zlen value).
Definition apply_writes (m : gmap (list Z) (list Z)) (ws : list (list Z * list Z)) : gmap (list Z) (list Z) :=
  foldl (fun m kv => <[kv.1 := kv.2]> m) m ws.
Definition batch_Write (d : Disk) (b : Batch) : bool * Disk :=
  match d_faults d with
  | true :: fs => (false, MkDisk (d_data d) fs)
  | _ => (true, MkDisk (apply_writes (d_data d) (b_writes b)) (tail (d_faults d)))
  end.

(** The key of a preimage: [secure-key-] and the hash. *)
Definition preimageKey (hash : hash_t) : list Z :=
  [115; 101; 99; 117; 114; 101; 45; 107; 101; 121; 45] ++ hash.
Definition WritePreimages (b : Batch) (preimages : list (hash_t * list Z)) : Batch :=
  foldl (fun b hp => batch_Put b (preimageKey hp.1) hp.2) b preimages.

(** ** The clean cache, from github.com/VictoriaMetrics/fastcache *)

(** A cache can forget what it holds, but it never makes up entries. *)
Class CleanCache (C : Type) := {
  cache_get : C -> hash_t -> option (list Z);
  cache_set : C -> hash_t -> list Z -> C;
  cache_get_set c k v k' w :
    cache_get (cache_set c k v) k' = Some w -> (k' = k /\ w = v) \/ cache_get c k' = Some w;
}.

(** ** The database *)

Section database.
Context {C : Type} {CC : CleanCache C} {MO : MapOrder}.

(** Sizes are integers: the [float64] of the source holds them exactly.
    Statistics are left out. *)
Record Database := MkDatabase {
  diskdb : Disk;
  cleans : option C;
  dirties : gmap hash_t cachedNode;
  oldest : hash_t;
  newest : hash_t;
  preimages : gmap hash_t (list Z);
  dirtiesSize : Z;
  childrenSize : Z;
  preimagesSize : Z;
}.

Definition set_dirties (db : Database) (m : gmap hash_t cachedNode) : Database :=
  MkDatabase (diskdb db) (cleans db) m (oldest db) (newest db) (preimages db)
    (dirtiesSize db) (childrenSize db) (preimagesSize db).
Definition set_disk (db : Database) (d : Disk) : Database :=
  MkDatabase d (cleans db) (dirties db) (oldest db) (newest db) (preimages db)
    (dirtiesSize db) (childrenSize db) (preimagesSize db).
Definition set_list (db : Database) (o n : hash_t) : Database :=
  MkDatabase (diskdb db) (cleans db) (dirties db) o n (preimages db)
    (dirtiesSize db) (childrenSize db) (preimagesSize db).
Definition set_cleans (db : Database) (c : option C) : Database :=
  MkDatabase (diskdb db) c (dirties db) (oldest db) (newest db) (preimages db)
    (dirtiesSize db) (childrenSize db) (preimagesSize db).
Definition add_sizes (db : Database) (dirty children : Z) : Database :=
  MkDatabase (diskdb db) (cleans db) (dirties db) (oldest db) (newest db) (preimages db)
    (dirtiesSize db + dirty) (childrenSize db + children) (preimagesSize db).
Definition set_preimages (db : Database) (m : gmap hash_t (list Z)) (size : Z) : Database :=
  MkDatabase (diskdb db) (cleans db) (dirties db) (oldest db) (newest db) m
    (dirtiesSize db) (childrenSize db) size.

Definition set_parents (n : cachedNode) (p : Z) : cachedNode :=
  CachedNode (cn_node n) (cn_size n) p (cn_children n) (cn_prev n) (cn_next n).
Definition set_children (n : cachedNode) (c : option (gmap hash_t Z)) : cachedNode :=
  CachedNode (cn_node n) (cn_size n) (cn_parents n) c (cn_prev n) (cn_next n).
Definition set_prev (n : cachedNode) (h : hash_t) : cachedNode :=
  CachedNode (cn_node n) (cn_size n) (cn_parents n) (cn_children n) h (cn_next n).
Definition set_next (n : cachedNode) (h : hash_t) : cachedNode :=
  CachedNode (cn_node n) (cn_size n) (cn_parents n) (cn_children n) (cn_prev n) h.

(** [db.dirties[h].f = v]: a nil dereference when there is no such node. *)
Definition with_dirty (db : Database) (h : hash_t) (f : cachedNode -> cachedNode) : go Database :=
  match dirties db !! h with
  | Some n => Ok (set_dirties db (<[h := f n]> (dirties db)))
  | None => Panic
  end.

Definition NewDatabaseWithCache (disk : Disk) (cache : option C) : Database :=
  MkDatabase disk cache {[ zeroHash := CachedNode RNil 0 0 (Some ∅) zeroHash zeroHash ]}
    zeroHash zeroHash ∅ 0 0 0.

Definition forChilds (n : cachedNode) : list hash_t :=
  match cn_children n with Some m => map_order m | None => [] end ++
  match cn_node n with RBlob _ => [] | c => forGatherChildren c end.

(** [if c := db.dirties[child]; c != nil { c.parents++ }] *)
Definition add_parent (m : gmap hash_t cachedNode) (child : hash_t) : gmap hash_t cachedNode :=
  match m !! child with
  | Some c => <[child := set_parents c (u32 (cn_parents c + 1))]> m
  | None => m
  end.

Definition db_insert (db : Database) (hash : hash_t) (size : Z) (n : node) : go Database :=
  match dirties db !! hash with
  | Some _ => Ok db
  | None =>
      c ← simplifyNode n;
      let entry := CachedNode c (u16 size) 0 None (newest db) zeroHash in
      let db := set_dirties db (<[hash := entry]> (foldl add_parent (dirties db) (forChilds entry))) in
      db ← (if decide (oldest db = zeroHash) then Ok (set_list db hash hash)
            else
              db ← with_dirty db (newest db) (fun n => set_next n hash);
              Ok (set_list db (oldest db) hash));
      Ok (add_sizes db (u16 (32 + cn_size entry)) 0)
  end.

Definition insertPreimage (db : Database) (hash : hash_t) (preimage : list Z) : Database :=
  match preimages db !! hash with
  | Some _ => db
  | None => set_preimages db (<[hash := preimage]> (preimages db)) (preimagesSize db + (32 + zlen preimage))
  end.

Definition get_clean (db : Database) (hash : hash_t) : option (list Z) :=
  match cleans db with Some c => cache_get c hash | None => None end.

Definition set_clean (db : Database) (hash : hash_t) (enc : list Z) : Database :=
  set_cleans db (match cleans db with Some c => Some (cache_set c hash enc) | None => None end).

(** [Database.node]: nil when the node is nowhere. *)
Definition db_lookup (db : Database) (hash : hash_t) : go (option node * Database) :=
  match get_clean db hash with
  | Some enc => n ← mustDecodeNode (Some hash) enc; Ok (Some n, db)
  | None =>
      match dirties db !! hash with
      | Some dirty => n ← cached_obj dirty hash; Ok (Some n, db)
      | None =>
          match d_data (diskdb db) !! hash with
          | None => Ok (None, db)
          | Some enc =>
              n ← mustDecodeNode (Some hash) enc;
              Ok (Some n, set_clean db hash enc)
          end
      end
  end.

(** [Database.Node]: the encoded node. *)
Definition db_Node (db : Database) (hash : hash_t) : go (option (list Z) * Database) :=
  if decide (hash = zeroHash) then Ok (None, db)
  else
    match get_clean db hash with
    | Some enc => Ok (Some enc, db)
    | None =>
        match dirties db !! hash with
        | Some dirty => b ← cached_rlp dirty; Ok (Some b, db)
        | None =>
            match d_data (diskdb db) !! hash with
            | Some enc => if zlen enc =? 0 then Ok (None, db) else Ok (Some enc, set_clean db hash enc)
            | None => Ok (None, db)
            end
        end
    end.

Definition db_preimage (db : Database) (hash : hash_t) : option (list Z) :=
  match preimages db !! hash with
  | Some p => Some p
  | None => d_data (diskdb db) !! preimageKey hash
  end.

Definition Nodes (db : Database) : list hash_t :=
  filter (fun h => h <> zeroHash) (map_order (dirties db)).

(** ** References and garbage collection *)

Definition reference (db : Database) (child parent : hash_t) : go Database :=
  match dirties db !! child with
  | None => Ok db
  | Some node =>
      match dirties db !! parent with
      | None => Panic
      | Some p =>
          let '(m, db) :=
            match cn_children p with
            | None => (∅, add_sizes db 0 cachedNodeChildrenSize)
            | Some m => (m, db)
            end in
          if bool_decide (is_Some (cn_children p)) && bool_decide (is_Some (m !! child)) &&
             bool_decide (parent <> zeroHash)
          then Ok db
          else
            db ← with_dirty db child (fun n => set_parents n (u32 (cn_parents n + 1)));
            let count := u16 (default 0 (m !! child) + 1) in
            db ← with_dirty db parent (fun p => set_children p (Some (<[child := count]> m)));
            Ok (if count =? 1 then add_sizes db 0 (32 + 2) else db)
      end
  end.

(** The removal of a node from the flush list, by [dereference] and by the
    cleaner. *)
Definition unlink (db : Database) (child : hash_t) (node : cachedNode) : go Database :=
  if decide (child = oldest db) then
    with_dirty (set_list db (cn_next node) (newest db)) (cn_next node) (fun n => set_prev n zeroHash)
  else if decide (child = newest db) then
    with_dirty (set_list db (oldest db) (cn_prev node)) (cn_prev node) (fun n => set_next n zeroHash)
  else
    db ← with_dirty db (cn_prev node) (fun n => set_next n (cn_next node));
    with_dirty db (cn_next node) (fun n => set_prev n (cn_prev node)).

(** The loop of [forChilds] with a callback that changes the state. *)
Fixpoint visit {S} (f : S -> hash_t -> go S) (l : list hash_t) (s : S) : go S :=
  match l with
  | [] => Ok s
  | h :: l => s ← f s h; visit f l s
  end.

(** The first part of [dereference]: [parent] drops its reference. *)
Definition drop_reference (db : Database) (child parent : hash_t) (pnode : cachedNode) : go Database :=
  match cn_children pnode with
  | Some m =>
      let count := default 0 (m !! child) in
      if count >? 0 then
        if count - 1 =? 0 then
          db ← with_dirty db parent (fun p => set_children p (Some (base.delete child m)));
          Ok (add_sizes db 0 (- (32 + 2)))
        else with_dirty db parent (fun p => set_children p (Some (<[child := count - 1]> m)))
      else Ok db
  | None => Ok db
  end.

(** [dereference] follows the references between the nodes, which are not
    cyclic; [fuel] bounds the length of a path. *)
Fixpoint dereference (fuel : nat) (db : Database) (child parent : hash_t) : go Database :=
  match fuel with
  | O => Panic
  | S fuel =>
      match dirties db !! parent with
      | None => Panic
      | Some pnode =>
          db ← drop_reference db child parent pnode;
          match dirties db !! child with
          | None => Ok db
          | Some node =>
              let parents := if cn_parents node >? 0 then cn_parents node - 1 else cn_parents node in
              db ← with_dirty db child (fun n => set_parents n parents);
              if parents =? 0 then
                db ← unlink db child node;
                db ← visit (fun db h => dereference fuel db h child) (forChilds node) db;
                let db := set_dirties db (base.delete child (dirties db)) in
                let db := add_sizes db (- (32 + cn_size node)) 0 in
                Ok (if cn_children node then add_sizes db 0 (- cachedNodeChildrenSize) else db)
              else Ok db
          end
      end
  end.

Definition Dereference (fuel : nat) (db : Database) (root : hash_t) : go Database :=
  if decide (root = zeroHash) then Ok db else dereference fuel db root zeroHash.

(** ** Flushing to disk *)

(** The loop of [Cap] that collects the oldest nodes.  It returns the first
    node that stays, or nothing when a write failed. *)
Fixpoint cap_collect (fuel : nat) (db : Database) (size limit : Z) (old : hash_t) (batch : Batch)
    : go (option (hash_t * Batch) * Database) :=
  match fuel with
  | O => Panic
  | S fuel =>
      if (size >? limit) && bool_decide (old <> zeroHash) then
        match dirties db !! old with
        | None => Panic
        | Some node =>
            blob ← cached_rlp node;
            let batch := batch_Put batch old blob in
            let '(ok, db, batch) :=
              if b_size batch >=? IdealBatchSize then
                let '(ok, d) := batch_Write (diskdb db) batch in (ok, set_disk db d, NewBatch)
              else (true, db, batch) in
            if (ok : bool) then
              let size := size - (32 + cn_size node + cachedNodeSize) in
              let size :=
                match cn_children node with
                | Some m => size - (cachedNodeChildrenSize + Z.of_nat (base.size m) * (32 + 2))
                | None => size
                end in
              cap_collect fuel db size limit (cn_next node) batch
            else Ok (None, db)
        end
      else Ok (Some (old, batch), db)
  end.

(** The loop that drops what was written. *)
Fixpoint cap_drop (fuel : nat) (db : Database) (old : hash_t) : go Database :=
  match fuel with
  | O => Panic
  | S fuel =>
      if decide (oldest db = old) then Ok db
      else
        match dirties db !! oldest db with
        | None => Panic
        | Some node =>
            let db := set_dirties db (base.delete (oldest db) (dirties db)) in
            let db := set_list db (cn_next node) (newest db) in
            let db := add_sizes db (- (32 + cn_size node))
              (match cn_children node with
               | Some m => - (cachedNodeChildrenSize + Z.of_nat (base.size m) * (32 + 2))
               | None => 0
               end) in
            cap_drop fuel db old
        end
  end.

Definition preimage_list (db : Database) : list (hash_t * list Z) :=
  map (fun h => (h, default [] (preimages db !! h))) (map_order (preimages db)).

(** [false] is the error of a failed write. *)
Definition Cap (db : Database) (limit : Z) : go (bool * Database) :=
  match dirties db !! zeroHash with
  | None => Panic
  | Some meta =>
      let metarefs := Z.of_nat (base.size (default ∅ (cn_children meta))) in
      let n := base.size (dirties db) in
      let size := dirtiesSize db + (Z.of_nat n - 1) * cachedNodeSize in
      let size := size + (childrenSize db - metarefs * (32 + 2)) in
      let flushPreimages := preimagesSize db >? 4 * 1024 * 1024 in
      let '(ok, db, batch) :=
        if flushPreimages then
          let batch := WritePreimages NewBatch (preimage_list db) in
          if b_size batch >? IdealBatchSize then
            let '(ok, d) := batch_Write (diskdb db) batch in (ok, set_disk db d, NewBatch)
          else (true, db, batch)
        else (true, db, NewBatch) in
      if negb ok then Ok (false, db)
      else
        '(r, db) ← cap_collect (S n) db size limit (oldest db) batch;
        match r with
        | None => Ok (false, db)
        | Some (old, batch) =>
            let '(ok, d) := batch_Write (diskdb db) batch in
            let db := set_disk db d in
            if negb ok then Ok (false, db)
            else
              let db := if flushPreimages then set_preimages db ∅ 0 else db in
              db ← cap_drop (S n) db old;
              db ← (if decide (oldest db = zeroHash) then Ok db
                    else with_dirty db (oldest db) (fun n => set_prev n zeroHash));
              Ok (true, db)
        end
  end.

(** [cleaner.Put]: what was written leaves the dirty nodes. *)
Definition cleaner_Put (db : Database) (key rlp : list Z) : go Database :=
  let hash := BytesToHash key in
  match dirties db !! hash with
  | None => Ok db
  | Some node =>
      db ← unlink db hash node;
      let db := set_dirties db (base.delete hash (dirties db)) in
      let db := add_sizes db (- (32 + cn_size node)) 0 in
      let db :=
        match cn_children node with
        | Some m => add_sizes db (- (cachedNodeChildrenSize + Z.of_nat (base.size m) * (32 + 2))) 0
        | None => db
        end in
      Ok (set_clean db hash rlp)
  end.

Fixpoint Replay (db : Database) (ws : list (list Z * list Z)) : go Database :=
  match ws with
  | [] => Ok db
  | (k, v) :: ws => db ← cleaner_Put db k v; Replay db ws
  end.

(** [Database.commit]; [false] is the error of a failed write. *)
Fixpoint db_commit (fuel : nat) (db : Database) (batch : Batch) (hash : hash_t)
    : go (bool * Database * Batch) :=
  match fuel with
  | O => Panic
  | S fuel =>
      match dirties db !! hash with
      | None => Ok (true, db, batch)
      | Some node =>
          '(ok, db, batch) ←
            visit (fun '(ok, db, batch) h =>
                     if (ok : bool) then db_commit fuel db batch h else Ok (ok, db, batch))
              (forChilds node) (true, db, batch);
          if negb ok then Ok (false, db, batch)
          else
            blob ← cached_rlp node;
            let batch := batch_Put batch hash blob in
            if b_size batch >=? IdealBatchSize then
              let '(ok, d) := batch_Write (diskdb db) batch in
              let db := set_disk db d in
              if negb ok then Ok (false, db, batch)
              else db ← Replay db (b_writes batch); Ok (true, db, NewBatch)
            else Ok (true, db, batch)
      end
  end.

Definition db_Commit (fuel : nat) (db : Database) (node : hash_t) : go (bool * Database) :=
  let batch := WritePreimages NewBatch (preimage_list db) in
  let '(ok, db, batch) :=
    if b_size batch >? IdealBatchSize then
      let '(ok, d) := batch_Write (diskdb db) batch in (ok, set_disk db d, NewBatch)
    else (true, db, batch) in
  if negb ok then Ok (false, db)
  else
    let '(ok, d) := batch_Write (diskdb db) batch in
    let db := set_disk db d in
    if negb ok then Ok (false, db)
    else
      '(ok, db, batch) ← db_commit fuel db NewBatch node;
      if negb ok then Ok (false, db)
      else
        let '(ok, d) := batch_Write (diskdb db) batch in
        let db := set_disk db d in
        if negb ok then Ok (false, db)
        else
          db ← Replay db (b_writes batch);
          Ok (true, set_preimages db ∅ 0).

(** [Database.Size] *)
Definition Size (db : Database) : go (Z * Z) :=
  match dirties db !! zeroHash with
  | None => Panic
  | Some meta =>
      let metadataSize := (Z.of_nat (base.size (dirties db)) - 1) * cachedNodeSize in
      let metarootRefs := Z.of_nat (base.size (default ∅ (cn_children meta))) * (32 + 2) in
      Ok (dirtiesSize db + childrenSize db + metadataSize - metarootRefs, preimagesSize db)
  end.
End database.
Arguments Database : clear implicits.
