(* ===== verification/TrieGC.v ===== *)
(** * Garbage collection in the trie database (src/trie/database.go)

    The invariant of the dirty nodes: they form a well-linked flush list, and
    every node that is not on disk counts at least the references that the
    dirty nodes hold on it.  It follows that no operation of the database
    drops a node that is still referenced and not on disk. *)
From stdpp Require Import prelude list gmap.
From Stdlib Require Import ZArith Lia.
From S2P Require Import Prelude RlpEncode RlpRaw TrieEncoding Trie TrieNode TrieHash TrieDatabase.

(** ** Sums over the dirty nodes *)

Definition msum {V} (f : V -> Z) (m : gmap hash_t V) : Z := map_fold (fun _ n acc => f n + acc) 0 m.

Section msum.
Context {V : Type}.
Implicit Types (f : V -> Z) (m : gmap hash_t V).

Lemma msum_insert f m k n : m !! k = None -> msum f (<[k := n]> m) = f n + msum f m.
Proof. intros Hk. unfold msum. rewrite map_fold_insert_L; [done| |done]. intros. lia. Qed.

Lemma msum_delete f m k n : m !! k = Some n -> msum f (base.delete k m) = msum f m - f n.
Proof.
  intros Hk. rewrite <- (insert_delete_id m k n Hk) at 2. rewrite msum_insert by apply lookup_delete_eq. lia.
Qed.

Lemma msum_update f m k n n' : m !! k = Some n -> msum f (<[k := n']> m) = msum f m - f n + f n'.
Proof.
  intros Hk. rewrite <- insert_delete_eq, msum_insert, (msum_delete f m k n) by (done || apply lookup_delete_eq). lia.
Qed.

Lemma msum_nonneg f m : map_Forall (fun _ n => 0 <= f n) m -> 0 <= msum f m.
Proof.
  intros Hf. unfold msum. apply (map_fold_weak_ind (fun acc m => map_Forall (fun _ n => 0 <= f n) m -> 0 <= acc)); [done| |done].
  intros k n m' acc Hk IH Hall. apply map_Forall_insert in Hall as [? ?]; [|done]. specialize (IH H0). lia.
Qed.

Lemma msum_elem f m k n : map_Forall (fun _ n => 0 <= f n) m -> m !! k = Some n -> f n <= msum f m.
Proof.
  intros Hf Hk. pose proof (msum_delete f m k n Hk) as Hd.
  assert (0 <= msum f (base.delete k m)); [|lia]. apply msum_nonneg, map_Forall_delete, Hf.
Qed.
End msum.

(** ** References *)

Definition occ (h : hash_t) (l : list hash_t) : Z := Z.of_nat (length (filter (.= h) l)).

Lemma occ_nil h : occ h [] = 0.
Proof. done. Qed.
Lemma occ_cons h x l : occ h (x :: l) = (if decide (x = h) then 1 else 0) + occ h l.
Proof. unfold occ. rewrite filter_cons. destruct (decide (x = h)); simpl; lia. Qed.
Lemma occ_app h l l' : occ h (l ++ l') = occ h l + occ h l'.
Proof. unfold occ. rewrite filter_app, length_app. lia. Qed.
Lemma occ_nonneg h l : 0 <= occ h l.
Proof. unfold occ. lia. Qed.
Lemma occ_elem h l : h ∈ l -> 1 <= occ h l.
Proof.
  intros Hin. unfold occ. assert (Hf : h ∈ filter (.= h) l) by (by apply list_elem_of_filter).
  destruct (filter _ l); [by apply elem_of_nil in Hf|simpl; lia].
Qed.
Lemma occ_not_elem h l : h ∉ l -> occ h l = 0.
Proof.
  intros Hin. unfold occ. destruct (filter (.= h) l) as [|x l'] eqn:Hf; [done|].
  destruct Hin. assert (Hx : x ∈ filter (.= h) l) by (rewrite Hf; left).
  apply list_elem_of_filter in Hx as [-> ?]. done.
Qed.
Lemma occ_NoDup h l : NoDup l -> occ h l <= 1.
Proof.
  induction 1 as [|x l Hx _ IH]; [done|]. rewrite occ_cons. destruct (decide (x = h)) as [->|]; [|lia].
  rewrite occ_not_elem by done. lia.
Qed.

(** The references inside a node and those added from outside. *)
Definition implicit (n : cachedNode) : list hash_t :=
  match cn_node n with RBlob _ => [] | c => forGatherChildren c end.
Definition ext (n : cachedNode) (h : hash_t) : Z := default 0 (default ∅ (cn_children n) !! h).
Definition refs_of (n : cachedNode) (h : hash_t) : Z := occ h (implicit n) + ext n h.
Definition refs (m : gmap hash_t cachedNode) (h : hash_t) : Z := msum (fun n => refs_of n h) m.
Definition parents0 (m : gmap hash_t cachedNode) (h : hash_t) : Z :=
  match m !! h with Some n => cn_parents n | None => 0 end.

(** Counters are positive and parents are not negative. *)
Definition node_ok (n : cachedNode) : Prop :=
  0 <= cn_parents n /\ forall h c, default ∅ (cn_children n) !! h = Some c -> 1 <= c.

Lemma ext_nonneg n h : node_ok n -> 0 <= ext n h.
Proof.
  intros [_ Hc]. unfold ext. destruct (_ !! h) as [c|] eqn:Hh; [|done]. specialize (Hc h c Hh). simpl. lia.
Qed.

Lemma refs_of_nonneg n h : node_ok n -> 0 <= refs_of n h.
Proof. intros Hn. unfold refs_of. pose proof (ext_nonneg n h Hn). pose proof (occ_nonneg h (implicit n)). lia. Qed.

(** Every node not on disk counts the references to it, up to the ones in
    [pend] that are about to go. *)
Definition covered (disk : gmap (list Z) (list Z)) (pend : hash_t -> Z) (m : gmap hash_t cachedNode) : Prop :=
  forall h, disk !! h = None -> refs m h <= parents0 m h + pend h.

(** Two nodes with the same references. *)
Definition same_refs (n n' : cachedNode) : Prop := cn_node n = cn_node n' /\ cn_children n = cn_children n'.

Lemma refs_update m k n n' h :
  m !! k = Some n -> refs (<[k := n']> m) h = refs m h - refs_of n h + refs_of n' h.
Proof. intros Hk. unfold refs. by rewrite (msum_update _ _ _ n). Qed.

Lemma refs_same m k n n' h : m !! k = Some n -> same_refs n n' -> refs (<[k := n']> m) h = refs m h.
Proof.
  intros Hk [Hn Hc]. rewrite (refs_update _ _ n) by done. unfold refs_of, implicit, ext. rewrite Hn, Hc. lia.
Qed.

Lemma parents0_same m k n n' h :
  m !! k = Some n -> cn_parents n = cn_parents n' -> parents0 (<[k := n']> m) h = parents0 m h.
Proof.
  intros Hk Hp. unfold parents0. destruct (decide (h = k)) as [->|Hne].
  - by rewrite lookup_insert_eq, Hk.
  - by rewrite lookup_insert_ne.
Qed.

(** Pointers of the flush list do not matter for the references. *)
Lemma covered_same disk pend m k n n' :
  m !! k = Some n -> same_refs n n' -> cn_parents n = cn_parents n' ->
  covered disk pend m -> covered disk pend (<[k := n']> m).
Proof.
  intros Hk Hs Hp Hc h Hh. rewrite (refs_same _ _ n), (parents0_same _ _ n) by done. by apply Hc.
Qed.

(** ** The flush list *)

(** Nodes that differ in their places in the flush list only. *)
Definition near (n n' : cachedNode) : Prop :=
  cn_node n = cn_node n' /\ cn_size n = cn_size n' /\ cn_parents n = cn_parents n' /\ cn_children n = cn_children n'.
Definition moved (m m' : gmap hash_t cachedNode) : Prop := forall h, option_Forall2 near (m !! h) (m' !! h).

#[export] Instance near_equiv : Equivalence near.
Proof.
  split.
  - done.
  - intros n n' (? & ? & ? & ?). by split_and!.
  - intros n n' n'' (? & ? & ? & ?) (? & ? & ? & ?). split_and!; congruence.
Qed.
#[export] Instance moved_equiv : Equivalence moved.
Proof.
  split.
  - intros m h. reflexivity.
  - intros m m' Hm h. by symmetry.
  - intros m m' m'' Hm Hm' h. by transitivity (m' !! h).
Qed.

Lemma moved_insert m k n n' : m !! k = Some n -> near n n' -> moved m (<[k := n']> m).
Proof.
  intros Hk Hn h. destruct (decide (h = k)) as [->|Hne].
  - rewrite lookup_insert_eq, Hk. by constructor.
  - by rewrite lookup_insert_ne.
Qed.

Lemma moved_Some m m' h n : moved m m' -> m !! h = Some n -> exists n', m' !! h = Some n' /\ near n n'.
Proof. intros Hm Hh. specialize (Hm h). rewrite Hh in Hm. inversion Hm; subst; eauto. Qed.

Lemma msum_ext {V} (f : V -> Z) (m m' : gmap hash_t V) :
  (forall h, option_Forall2 (fun n n' => f n = f n') (m !! h) (m' !! h)) -> msum f m = msum f m'.
Proof.
  revert m'. induction m as [|k n m Hk IH] using map_ind; intros m' Hm.
  - replace m' with (∅ : gmap hash_t V); [done|]. apply map_eq. intros h. specialize (Hm h).
    rewrite lookup_empty in *. by inversion Hm.
  - pose proof (Hm k) as Hn. rewrite lookup_insert_eq in Hn. inversion Hn as [? n' Hf Hx Hk'|]; subst.
    symmetry in Hk'. rewrite msum_insert by done.
    rewrite (IH (base.delete k m')); [rewrite (msum_delete f m' k n'), Hf by done; lia|].
    intros h. destruct (decide (h = k)) as [->|Hne]; [rewrite lookup_delete_eq, Hk; constructor|].
    specialize (Hm h). rewrite lookup_insert_ne in Hm by done. by rewrite lookup_delete_ne.
Qed.

Lemma moved_refs m m' h : moved m m' -> refs m h = refs m' h.
Proof.
  intros Hm. apply msum_ext. intros k. destruct (Hm k) as [n n' (Hn & _ & _ & Hc)|]; constructor.
  unfold refs_of, implicit, ext. by rewrite Hn, Hc.
Qed.

Lemma moved_parents m m' h : moved m m' -> parents0 m h = parents0 m' h.
Proof. intros Hm. unfold parents0. destruct (Hm h) as [n n' (_ & _ & Hp & _)|]; done. Qed.

Lemma moved_covered disk pend m m' : moved m m' -> covered disk pend m -> covered disk pend m'.
Proof. intros Hm Hc h Hh. rewrite <- (moved_refs m m'), <- (moved_parents m m') by done. by apply Hc. Qed.

(** [l] is linked by the pointers, after [p]. *)
Fixpoint linked (m : gmap hash_t cachedNode) (p : option hash_t) (l : list hash_t) : Prop :=
  match l with
  | [] => True
  | h :: l =>
      (exists n, m !! h = Some n /\ cn_next n = default zeroHash (head l) /\
         match p with Some q => cn_prev n = q | None => True end) /\
      linked m (Some h) l
  end.

Definition same_links (n n' : cachedNode) : Prop := cn_next n = cn_next n' /\ cn_prev n = cn_prev n'.

Lemma linked_ext m m' p l :
  (forall h n, h ∈ l -> m !! h = Some n -> exists n', m' !! h = Some n' /\ same_links n n') ->
  linked m p l -> linked m' p l.
Proof.
  revert p. induction l as [|h l IH]; intros p He; [done|]. intros [(n & Hn & Hx & Hp) Hl]. split.
  - destruct (He h n) as (n' & Hn' & Hnx & Hpv); [left|done|]. exists n'. rewrite <- Hnx, <- Hpv. done.
  - apply IH; [|done]. intros h' n' Hin. apply He. by right.
Qed.

Lemma linked_insert m p l k n' : k ∉ l -> linked m p l -> linked (<[k := n']> m) p l.
Proof.
  intros Hk. apply linked_ext. intros h n Hin Hn. exists n. split; [|done].
  rewrite lookup_insert_ne; [done|]. by intros ->.
Qed.

Lemma linked_app m p l1 h l2 :
  linked m p (l1 ++ h :: l2) -> exists n, m !! h = Some n /\ cn_next n = default zeroHash (head l2) /\
    (forall q, (last l1 = Some q \/ l1 = [] /\ p = Some q) -> cn_prev n = q) /\ linked m (Some h) l2.
Proof.
  revert p. induction l1 as [|x l1 IH]; intros p.
  - intros [(n & Hn & Hx & Hp) Hl]. exists n. split_and!; try done. intros q [?|[_ ->]]; done.
  - simpl. intros [_ Hl]. destruct (IH _ Hl) as (n & Hn & Hx & Hp & Hl2). exists n. split_and!; try done.
    intros q [Hq|[? _]]; [|done]. apply Hp. destruct l1 as [|y l1]; [right|left; done].
    simpl in Hq. naive_solver.
Qed.

(** The pointers after [h] has left the list between [l1] and [l2]. *)
Definition relinked (m m' : gmap hash_t cachedNode) (p : option hash_t) (l1 l2 : list hash_t) : Prop :=
  forall k n, k ∈ l1 ++ l2 -> m !! k = Some n -> exists n', m' !! k = Some n' /\
    cn_next n' = (if decide (last l1 = Some k) then default zeroHash (head l2) else cn_next n) /\
    (if decide (head l2 = Some k) then
       forall q, (last l1 = Some q \/ l1 = [] /\ p = Some q) -> cn_prev n' = q
     else cn_prev n' = cn_prev n).

Lemma linked_remove m m' p l1 h l2 :
  linked m p (l1 ++ h :: l2) -> NoDup (l1 ++ h :: l2) -> relinked m m' p l1 l2 -> linked m' p (l1 ++ l2).
Proof.
  revert p. induction l1 as [|x l1 IH]; intros p Hl Hnd Hre.
  - destruct Hl as [_ Hl]. simpl in *. apply NoDup_cons in Hnd as [_ Hnd]. destruct l2 as [|y l2]; [done|].
    destruct Hl as [(n & Hn & Hx & _) Hl]. apply NoDup_cons in Hnd as [Hy Hnd].
    destruct (Hre y n) as (n' & Hn' & Hx' & Hp'); [left|done|]. rewrite decide_True in Hp' by done. split.
    + exists n'. split_and!; [done|by rewrite Hx', decide_False|]. destruct p as [q|]; [|done]. apply Hp'. by right.
    + eapply linked_ext; [|exact Hl]. intros k nk Hk Hnk. destruct (Hre k nk) as (nk' & Hnk' & Hx2 & Hp2); [by right|done|].
      exists nk'. split; [done|]. rewrite decide_False in Hx2 by done.
      rewrite decide_False in Hp2 by (simpl; by intros [= ->]). done.
  - destruct Hl as [(n & Hn & Hx & Hp) Hl]. simpl in Hnd. apply NoDup_cons in Hnd as [Hxn Hnd].
    rewrite elem_of_app, elem_of_cons in Hxn.
    destruct (Hre x n) as (n' & Hn' & Hx' & Hp'); [left|done|].
    rewrite decide_False in Hp' by (intros Hh; apply Hxn; right; right; by apply head_Some_elem_of).
    split; [exists n'; split_and!; [done| |by destruct p; [rewrite Hp'|]]|apply IH; try done].
    + rewrite Hx'. destruct l1 as [|y l1]; [by rewrite decide_True|]. rewrite decide_False; [done|].
      intros Hl1. apply Hxn. left. change (last (y :: l1) = Some x) in Hl1.
      apply last_Some_elem_of in Hl1. done.
    + intros k nk Hk Hnk. destruct (Hre k nk) as (nk' & Hnk' & Hx2 & Hp2); [by right|done|].
      exists nk'. split; [done|]. split.
      * rewrite Hx2. destruct l1 as [|y l1]; [|done]. simpl.
        destruct (decide (Some x = Some k)) as [[= ->]|]; [|done].
        destruct Hxn. simpl in Hk. by right; right.
      * destruct (decide (head l2 = Some k)); [|done]. intros q [Hq|[-> [= ->]]]; apply Hp2; left; [|done].
        by destruct l1.
Qed.

Section gc.
Context {C : Type} {CC : CleanCache C} {MO : MapOrder}.
Implicit Types (db : Database C) (X : list hash_t).

(** The flush list has the dirty nodes, but for the ones in [X] that are
    being removed. *)
Definition list_is X db (l : list hash_t) : Prop :=
  NoDup l /\ (forall h, h ∈ l <-> is_Some (dirties db !! h) /\ h <> zeroHash /\ h ∉ X) /\
  oldest db = default zeroHash (head l) /\ (l = [] \/ last l = Some (newest db)) /\
  linked (dirties db) None l.
Definition flush_list X db : Prop := exists l, list_is X db l.

Definition same_env db db' : Prop :=
  diskdb db' = diskdb db /\ cleans db' = cleans db /\ preimages db' = preimages db /\
  preimagesSize db' = preimagesSize db.

Definition has_meta db : Prop := exists meta, dirties db !! zeroHash = Some meta /\ implicit meta = [].

Lemma with_dirty_Ok db h f n :
  dirties db !! h = Some n -> with_dirty db h f = Ok (set_dirties db (<[h := f n]> (dirties db))).
Proof. intros Hh. unfold with_dirty. by rewrite Hh. Qed.

Lemma list_split X db l child cur :
  list_is X db l -> dirties db !! child = Some cur -> child <> zeroHash -> child ∉ X ->
  exists l1 l2, l = l1 ++ child :: l2 /\ child ∉ l1 /\ child ∉ l2 /\ NoDup (l1 ++ l2) /\
    cn_next cur = default zeroHash (head l2) /\ (forall q, last l1 = Some q -> cn_prev cur = q).
Proof.
  intros (Hnd & Hin & _ & _ & Hl) Hc Hz HX.
  assert (Hcl : child ∈ l) by (apply Hin; eauto). apply list_elem_of_split in Hcl as (l1 & l2 & ->).
  exists l1, l2. destruct (linked_app _ _ _ _ _ Hl) as (n & Hn & Hnx & Hpv & _). simplify_eq.
  apply NoDup_app in Hnd as (H1 & H2 & H3). apply NoDup_cons in H3 as [H4 H5]. split_and!; try done.
  - intros Hx. apply (H2 _ Hx). left.
  - apply NoDup_app. split_and!; try done. intros x Hx Hx2. apply (H2 x Hx). by right.
  - intros q Hq. apply Hpv. by left.
Qed.

(** The membership of the list without the node. *)
Lemma list_without X db db' l1 child l2 :
  list_is X db (l1 ++ child :: l2) -> NoDup (l1 ++ l2) -> child ∉ l1 -> child ∉ l2 ->
  moved (dirties db) (dirties db') -> 
  forall h, h ∈ l1 ++ l2 <-> is_Some (dirties db' !! h) /\ h <> zeroHash /\ h ∉ child :: X.
Proof.
  intros (_ & Hin & _) Hnd H1 H2 Hm h. specialize (Hin h).
  assert (Hs : is_Some (dirties db !! h) <-> is_Some (dirties db' !! h)).
  { destruct (Hm h); [|done]. split; eauto. }
  rewrite <- Hs. rewrite elem_of_app, elem_of_cons in *.
  split; [intros Hh; assert (h <> child) by (intros ->; tauto); tauto|intros (? & ? & ?); tauto].
Qed.

(** A list in which only pointers to a node have changed. *)
Lemma list_removed X db m o w l1 child l2 :
  list_is X db (l1 ++ child :: l2) -> NoDup (l1 ++ l2) -> child ∉ l1 -> child ∉ l2 ->
  moved (dirties db) m -> relinked (dirties db) m None l1 l2 ->
  o = default zeroHash (head (l1 ++ l2)) -> (l1 ++ l2 = [] \/ last (l1 ++ l2) = Some w) ->
  flush_list (child :: X) (set_list (set_dirties db m) o w).
Proof.
  intros Hl Hnd H1 H2 Hm Hre Ho Hw. exists (l1 ++ l2). split_and!; try done.
  - by apply (list_without X db _ l1 child l2).
  - destruct Hl as (Hnd0 & _ & _ & _ & Hlk). by apply (linked_remove (dirties db) _ None l1 child l2).
Qed.

Lemma list_is_dom X db l h : list_is X db l -> h ∈ l -> h <> zeroHash /\ exists n, dirties db !! h = Some n.
Proof. intros (_ & Hin & _) Hh. by apply Hin in Hh as ([n Hn] & ? & _); eauto. Qed.

Definition unlinks X db child node : Prop :=
  exists m o w, unlink db child node = Ok (set_list (set_dirties db m) o w) /\
    flush_list (child :: X) (set_list (set_dirties db m) o w) /\ moved (dirties db) m.

Lemma unlink_first X db child node l2 :
  list_is X db (child :: l2) -> has_meta db -> child ∉ l2 -> NoDup l2 ->
  cn_next node = default zeroHash (head l2) -> unlinks X db child node.
Proof.
  intros Hl (meta & Hmeta & _) H2 Hnd Hnext. pose proof Hl as (_ & _ & Hold & Hnew & _).
  assert (Hy : exists n, dirties db !! default zeroHash (head l2) = Some n).
  { destruct l2 as [|y l2]; [by exists meta|]. apply (list_is_dom _ _ _ y Hl). by right; left. }
  destruct Hy as (ny & Hy). unfold unlinks, unlink. rewrite decide_True, Hnext by done.
  rewrite (with_dirty_Ok _ _ _ ny) by done.
  assert (Hm : moved (dirties db) (<[default zeroHash (head l2) := set_prev ny zeroHash]> (dirties db))).
  { by eapply moved_insert. }
  exists (<[default zeroHash (head l2) := set_prev ny zeroHash]> (dirties db)), (default zeroHash (head l2)), (newest db).
  split; [reflexivity|]. split; [|done].
  apply (list_removed X db _ _ _ [] child l2); try done; [apply not_elem_of_nil| |].
  - intros k n Hk Hn. simpl. destruct (decide (head l2 = Some k)) as [Hh|Hh].
    + assert (Hk' : default zeroHash (head l2) = k) by (by rewrite Hh).
      rewrite Hk' in *. simplify_eq. exists (set_prev ny zeroHash). rewrite lookup_insert_eq.
      split_and!; try done. by intros q [?|[_ ?]].
    + exists n. rewrite lookup_insert_ne; [done|]. intros <-. destruct l2; [by apply elem_of_nil in Hk|done].
  - destruct l2; [by left|right]. by destruct Hnew.
Qed.

Lemma unlink_last X db child node l1 x :
  list_is X db (l1 ++ [child]) -> last l1 = Some x -> child ∉ l1 -> NoDup l1 -> child <> oldest db ->
  cn_prev node = x -> unlinks X db child node.
Proof.
  intros Hl Hx H1 Hnd Ho Hprev. pose proof Hl as (_ & _ & Hold & Hnew & _).
  assert (Hxl : x ∈ l1) by (by apply last_Some_elem_of).
  destruct (list_is_dom _ _ _ x Hl) as (_ & nx & Hnx); [rewrite elem_of_app; by left|].
  assert (child = newest db) as Hw.
  { destruct Hnew as [?|Hnew]; [by destruct l1|]. rewrite last_snoc in Hnew. congruence. }
  unfold unlinks, unlink. rewrite decide_False, decide_True, Hprev by done.
  rewrite (with_dirty_Ok _ _ _ nx) by done.
  assert (Hm : moved (dirties db) (<[x := set_next nx zeroHash]> (dirties db))) by (by eapply moved_insert).
  exists (<[x := set_next nx zeroHash]> (dirties db)), (oldest db), x. split; [reflexivity|]. split; [|done].
  apply (list_removed X db _ _ _ l1 child []); rewrite ?app_nil_r; try done; [apply not_elem_of_nil| | |by right].
  - intros k n Hk Hn. rewrite app_nil_r in Hk. simpl. destruct (decide (last l1 = Some k)) as [Hh|Hh].
    + simplify_eq. exists (set_next nx zeroHash). by rewrite lookup_insert_eq.
    + exists n. rewrite lookup_insert_ne; [done|]. by intros <-.
  - rewrite Hold. destruct l1; [done|done].
Qed.

Lemma unlink_middle X db child node l1 x y l2 :
  list_is X db (l1 ++ child :: y :: l2) -> last l1 = Some x -> child ∉ l1 -> child ∉ y :: l2 ->
  NoDup (l1 ++ y :: l2) -> child <> oldest db -> child <> newest db ->
  cn_prev node = x -> cn_next node = y -> unlinks X db child node.
Proof.
  intros Hl Hx H1 H2 Hnd Ho Hw Hprev Hnext. pose proof Hl as (_ & _ & Hold & Hnew & _).
  assert (Hxl : x ∈ l1) by (by apply last_Some_elem_of).
  assert (Hxy : x <> y /\ x ∉ y :: l2).
  { apply NoDup_app in Hnd as (_ & Hd & _). split; [intros ->; apply (Hd y); [done|left]|by apply Hd]. }
  destruct Hxy as [Hxy Hxl2].
  destruct (list_is_dom _ _ _ x Hl) as (_ & nx & Hnx); [rewrite elem_of_app; by left|].
  destruct (list_is_dom _ _ _ y Hl) as (_ & ny & Hny); [rewrite elem_of_app; right; by right; left|].
  unfold unlinks, unlink. rewrite !decide_False, Hprev, Hnext by done.
  rewrite (with_dirty_Ok _ _ _ nx) by done. bind_simpl.
  rewrite (with_dirty_Ok _ _ _ ny) by (simpl; by rewrite lookup_insert_ne). simpl.
  assert (Hm : moved (dirties db) (<[y := set_prev ny x]> (<[x := set_next nx y]> (dirties db)))).
  { transitivity (<[x := set_next nx y]> (dirties db)); [by eapply moved_insert|].
    eapply moved_insert; [by rewrite lookup_insert_ne|done]. }
  exists (<[y := set_prev ny x]> (<[x := set_next nx y]> (dirties db))), (oldest db), (newest db).
  split; [reflexivity|]. split; [|done].
  apply (list_removed X db _ _ _ l1 child (y :: l2)); try done.
  - intros k n Hk Hn. change (head (y :: l2)) with (Some y). destruct (decide (last l1 = Some k)) as [Hh|Hh].
    + rewrite Hx in Hh. injection Hh as <-. rewrite Hnx in Hn. injection Hn as <-. exists (set_next nx y). rewrite decide_False by (by intros [= ->]).
      by rewrite lookup_insert_ne, lookup_insert_eq.
    + destruct (decide (Some y = Some k)) as [[= ->]|Hyk].
      * rewrite Hny in Hn. injection Hn as <-. exists (set_prev ny x). rewrite lookup_insert_eq. split_and!; try done.
        intros q [Hq|[_ ?]]; [|done]. simpl. congruence.
      * exists n. rewrite !lookup_insert_ne; [done| |]; congruence.
  - rewrite Hold. by destruct l1.
  - right. destruct Hnew as [?|Hnew]; [by destruct l1|]. rewrite last_app_cons in *. done.
Qed.

Lemma unlink_spec X db child node cur :
  flush_list X db -> has_meta db -> dirties db !! child = Some cur -> same_links node cur ->
  child <> zeroHash -> child ∉ X -> unlinks X db child node.
Proof.
  intros (l & Hl) Hmeta Hc [Hnx Hpv] Hz HX.
  destruct (list_split _ _ _ _ _ Hl Hc Hz HX) as (l1 & l2 & -> & H1 & H2 & Hnd & Hnext & Hprev).
  pose proof Hl as (Hnd0 & _ & Hold & Hnew & _). destruct l1 as [|z l1].
  - eapply unlink_first; [done..|congruence].
  - assert (Ho : child <> oldest db) by (rewrite Hold; simpl; intros ->; apply H1; left).
    destruct (last (z :: l1)) as [x|] eqn:Hx; [|by apply last_None in Hx].
    specialize (Hprev x eq_refl). destruct l2 as [|y l2].
    + rewrite app_nil_r in Hnd. eapply (unlink_last X db child node (z :: l1) x); try done. congruence.
    + simpl in Hnext. eapply (unlink_middle X db child node (z :: l1) x y l2); try done; [|congruence|congruence].
      destruct Hnew as [?|Hnew]; [done|]. rewrite last_app_cons, last_cons_cons in Hnew. intros ->.
      apply last_Some_elem_of in Hnew. done.
Qed.

(** ** The invariant of the dirty nodes *)

(** The references between nodes are not cyclic: [rank] decreases along
    them, and the meta root is above everything. *)
Context (rank : hash_t -> nat).

Record wf X db : Prop := {
  wf_meta : has_meta db;
  wf_nodes : map_Forall (fun _ n => node_ok n) (dirties db);
  wf_rank p n c : dirties db !! p = Some n -> 0 < refs_of n c -> (rank c < rank p)%nat;
  wf_top p n : dirties db !! p = Some n -> (rank p <= rank zeroHash)%nat;
  wf_list : flush_list X db;
}.

(** The same database with other dirty nodes, up to the sizes. *)
Definition shape db db' (m : gmap hash_t cachedNode) : Prop :=
  dirties db' = m /\ oldest db' = oldest db /\ newest db' = newest db /\ same_env db db'.

Lemma same_env_trans db db' db'' : same_env db db' -> same_env db' db'' -> same_env db db''.
Proof. intros (? & ? & ? & ?) (? & ? & ? & ?). split_and!; congruence. Qed.

Lemma list_is_update X db db' l k n n' :
  shape db db' (<[k := n']> (dirties db)) -> dirties db !! k = Some n -> same_links n n' ->
  list_is X db l -> list_is X db' l.
Proof.
  intros (Hd & Ho & Hw & _) Hk Hs (Hnd & Hin & Hold & Hnew & Hl). unfold list_is. rewrite Hd, Ho, Hw.
  split_and!; try done.
  - intros h. rewrite Hin. destruct (decide (h = k)) as [->|Hne].
    + rewrite lookup_insert_eq, Hk. split; intros (_ & ? & ?); split_and!; eauto.
    + by rewrite lookup_insert_ne.
  - eapply linked_ext; [|done]. intros h m _ Hm. destruct (decide (h = k)) as [->|Hne].
    + rewrite lookup_insert_eq. simplify_eq. eauto.
    + rewrite lookup_insert_ne by done. by exists m.
Qed.

Lemma wf_replace X db db' k n n' :
  shape db db' (<[k := n']> (dirties db)) -> dirties db !! k = Some n -> same_links n n' ->
  node_ok n' -> implicit n' = implicit n -> (forall c, 0 < refs_of n' c -> (rank c < rank k)%nat) ->
  wf X db -> wf X db'.
Proof.
  intros Hsh Hk Hs Hok Hi He [(meta & Hm & Him) Hn Hr Ht (l & Hl)]. pose proof Hsh as (Hd & _).
  split.
  - unfold has_meta. rewrite Hd. destruct (decide (k = zeroHash)) as [->|Hne].
    + exists n'. rewrite lookup_insert_eq. split; [done|]. congruence.
    + exists meta. by rewrite lookup_insert_ne.
  - rewrite Hd. by apply map_Forall_insert_2.
  - rewrite Hd. intros p x c. destruct (decide (p = k)) as [->|Hne].
    + rewrite lookup_insert_eq. intros [= <-]. apply He.
    + rewrite lookup_insert_ne by done. apply Hr.
  - rewrite Hd. intros p x. destruct (decide (p = k)) as [->|Hne]; [intros _; by eapply Ht|].
    rewrite lookup_insert_ne by done. apply Ht.
  - exists l. by eapply list_is_update.
Qed.

Lemma wf_update X db db' k n n' :
  shape db db' (<[k := n']> (dirties db)) -> dirties db !! k = Some n -> same_links n n' ->
  node_ok n' -> implicit n' = implicit n -> (forall c, ext n' c <= ext n c) ->
  wf X db -> wf X db'.
Proof.
  intros Hsh Hk Hs Hok Hi He Hwf. eapply wf_replace; try done. intros c Hc.
  apply (wf_rank _ _ Hwf k n c Hk). unfold refs_of in *. rewrite Hi in Hc. specialize (He c). lia.
Qed.

Lemma wf_moved X Y db m o w :
  wf X db -> moved (dirties db) m -> flush_list Y (set_list (set_dirties db m) o w) ->
  wf Y (set_list (set_dirties db m) o w).
Proof.
  intros [(meta & Hm & Him) Hn Hr Ht _] Hmv Hl.
  assert (Hb : forall h n', m !! h = Some n' -> exists n, dirties db !! h = Some n /\ near n n').
  { intros h n' Hh. destruct (moved_Some m (dirties db) h n') as (n & ? & ?); [by symmetry|done|].
    exists n. split; [done|by symmetry]. }
  split; simpl; [|intros h n' Hh|intros p n' c Hp|intros p n' Hp|done].
  - destruct (moved_Some _ _ _ _ Hmv Hm) as (meta' & ? & Hne). exists meta'. split; [done|].
    destruct Hne as (He & _). unfold implicit in *. by rewrite <- He.
  - destruct (Hb h n' Hh) as (n & Hn' & (_ & _ & Hp & Hc)). specialize (Hn h n Hn'). unfold node_ok in *.
    by rewrite <- Hp, <- Hc.
  - destruct (Hb p n' Hp) as (n & Hn' & (He & _ & _ & Hc)). intros Hrc. apply (Hr p n c Hn').
    unfold refs_of, implicit, ext in *. by rewrite He, Hc.
  - destruct (Hb p n' Hp) as (n & Hn' & _). by eapply Ht.
Qed.

(** ** One reference less *)

Definition drop_ref (oc : option (gmap hash_t Z)) (child : hash_t) : option (gmap hash_t Z) :=
  match oc with
  | Some m =>
      let count := default 0 (m !! child) in
      Some (if count >? 0 then if count - 1 =? 0 then base.delete child m else <[child := count - 1]> m else m)
  | None => None
  end.

(** Whether the node has a reference to the child from outside. *)
Definition has_ext (n : cachedNode) (child : hash_t) : Z := if 0 <? ext n child then 1 else 0.

Lemma ext_drop n child h :
  ext (set_children n (drop_ref (cn_children n) child)) h =
  ext n h - (if decide (h = child) then has_ext n child else 0).
Proof.
  unfold has_ext, ext. destruct (cn_children n) as [m|]; simpl.
  2: { rewrite !lookup_empty. simpl. destruct (decide _); lia. }
  set (c := default 0 (m !! child)). destruct (decide (h = child)) as [->|Hne].
  - destruct (Z.gtb_spec c 0), (Z.ltb_spec 0 c); try lia.
    destruct (Z.eqb_spec (c - 1) 0); [rewrite lookup_delete_eq|rewrite lookup_insert_eq]; simpl; lia.
  - destruct (c >? 0); [destruct (c - 1 =? 0); rewrite ?lookup_delete_ne, ?lookup_insert_ne by done|]; lia.
Qed.

Lemma node_ok_drop n child : node_ok n -> node_ok (set_children n (drop_ref (cn_children n) child)).
Proof.
  intros [Hp Hc]. split; [done|]. intros h c. unfold set_children. simpl.
  destruct (cn_children n) as [m|]; simpl in *; [|apply Hc].
  destruct (Z.gtb_spec (default 0 (m !! child)) 0) as [Hg|Hg]; [|apply Hc].
  destruct (Z.eqb_spec (default 0 (m !! child) - 1) 0) as [He|He].
  - intros Hh. apply lookup_delete_Some in Hh as [_ Hh]. by eapply Hc.
  - intros Hh. apply lookup_insert_Some in Hh as [[-> <-]|[_ Hh]]; [lia|by eapply Hc].
Qed.

Lemma drop_reference_spec db child parent pn :
  dirties db !! parent = Some pn ->
  exists db', drop_reference db child parent pn = Ok db' /\
    shape db db' (<[parent := set_children pn (drop_ref (cn_children pn) child)]> (dirties db)).
Proof.
  intros Hp. assert (Hid : forall c, cn_children pn = c -> <[parent := set_children pn c]> (dirties db) = dirties db).
  { intros c <-. apply insert_id. rewrite Hp. by destruct pn. }
  unfold drop_reference. destruct (cn_children pn) as [m|] eqn:Hc; simpl.
  - destruct (_ >? 0).
    + destruct (_ =? 0); rewrite (with_dirty_Ok _ _ _ pn) by done; bind_simpl; by eexists.
    + exists db. split; [done|]. rewrite Hid by done. done.
  - exists db. split; [done|]. rewrite Hid by done. done.
Qed.

(** ** Dereferencing *)

Definition pend_add (pend : hash_t -> Z) (child : hash_t) (d : Z) : hash_t -> Z :=
  fun h => pend h + (if decide (h = child) then d else 0).

(** Every node was there before, with the same content and, if it is not one
    of [X], with the same references from outside. *)
Definition backed (X : list hash_t) (m m' : gmap hash_t cachedNode) : Prop :=
  forall h n', m' !! h = Some n' -> exists n, m !! h = Some n /\ cn_node n' = cn_node n /\ (h ∉ X -> cn_children n' = cn_children n).

(** What dereferencing [child] from [parent] leaves as it is: everything above
    [child], but for the reference itself. *)
Definition kept (child parent : hash_t) (m m' : gmap hash_t cachedNode) : Prop :=
  (forall h n, (rank child < rank h)%nat -> m !! h = Some n -> exists n', m' !! h = Some n' /\
     cn_node n' = cn_node n /\ cn_size n' = cn_size n /\ cn_parents n' = cn_parents n /\
     cn_children n' = if decide (h = parent) then drop_ref (cn_children n) child else cn_children n) /\
  backed [parent] m m'.

(** Everything above [child] stays. *)
Definition stays (child : hash_t) (X : list hash_t) (m m' : gmap hash_t cachedNode) : Prop :=
  (forall h n, (rank child < rank h)%nat -> m !! h = Some n -> exists n', m' !! h = Some n' /\ near n n') /\
  backed X m m'.

Lemma backed_trans (X Y : list hash_t) (m m1 m2 : gmap hash_t cachedNode) : X ⊆ Y -> backed X m m1 -> backed Y m1 m2 -> backed Y m m2.
Proof.
  intros HX H1 H2 h n2 Hn2. destruct (H2 h n2 Hn2) as (n1 & Hn1 & -> & Hc2). destruct (H1 h n1 Hn1) as (n & Hn & -> & Hc1).
  exists n. split_and!; [done..|]. intros Hh. rewrite Hc2, Hc1 by set_solver. done.
Qed.

Lemma backed_le (X Y : list hash_t) m m' : X ⊆ Y -> backed X m m' -> backed Y m m'.
Proof. intros HX Hb h n' Hn'. destruct (Hb h n' Hn') as (n & ? & ? & Hc). exists n. split_and!; [done..|]. intros Hh. apply Hc. set_solver. Qed.

Lemma kept_stays child parent m m1 m2 : kept child parent m m1 -> stays child [] m1 m2 -> kept child parent m m2.
Proof.
  intros [H1 H1'] [H2 H2']. split; [|eapply backed_trans; [done..|by eapply backed_le, H2'; set_solver]]. intros h n Hh Hn.
  destruct (H1 h n Hh Hn) as (n1 & Hn1 & ? & ? & ? & Hc). destruct (H2 h n1 Hh Hn1) as (n2 & Hn2 & (? & ? & ? & ?)).
  exists n2. split_and!; [done|congruence..].
Qed.

Lemma stays_trans child X m m1 m2 : stays child X m m1 -> stays child X m1 m2 -> stays child X m m2.
Proof.
  intros [H1 H1'] [H2 H2']. split; [|by eapply backed_trans]. intros h n Hh Hn.
  destruct (H1 h n Hh Hn) as (n1 & Hn1 & ?). destruct (H2 h n1 Hh Hn1) as (n2 & Hn2 & ?).
  exists n2. split; [done|by transitivity n1].
Qed.

Lemma stays_moved child X m m' : moved m m' -> stays child X m m'.
Proof.
  intros Hm. split.
  - intros h n _ Hn. by eapply moved_Some.
  - intros h n' Hn'. destruct (moved_Some m' m h n') as (n & Hn & He & _ & _ & Hc); [by symmetry|done|]. eauto.
Qed.

Lemma stays_insert child m n0 n' :
  m !! child = Some n0 -> same_refs n' n0 -> stays child [] m (<[child := n']> m).
Proof.
  intros Hc [He Hch]. split.
  - intros h n Hh Hn. exists n. split; [|done]. rewrite lookup_insert_ne; [done|]. intros ->. lia.
  - intros h n Hh. apply lookup_insert_Some in Hh as [[<- <-]|[_ Hh]]; eauto.
Qed.

Lemma stays_delete child m m' : stays child [child] m m' -> stays child [] m (base.delete child m').
Proof.
  intros [H1 H2]. split.
  - intros h n Hh Hn. destruct (H1 h n Hh Hn) as (n' & Hn' & ?). exists n'. split; [|done]. rewrite lookup_delete_ne; [done|]. intros ->. lia.
  - intros h n Hn. apply lookup_delete_Some in Hn as [Hne Hn]. destruct (H2 h n Hn) as (n0 & ? & ? & Hc). exists n0. split_and!; [done..|].
    intros _. apply Hc. set_solver.
Qed.

Lemma kept_drop child parent m pn :
  m !! parent = Some pn ->
  kept child parent m (<[parent := set_children pn (drop_ref (cn_children pn) child)]> m).
Proof.
  intros Hp. split.
  - intros h n Hh Hn. destruct (decide (h = parent)) as [->|Hne].
    + rewrite lookup_insert_eq. simplify_eq. by eexists.
    + rewrite lookup_insert_ne by done. exists n. done.
  - intros h n Hh. apply lookup_insert_Some in Hh as [[<- <-]|[_ Hh]]; [|eauto]. exists pn. split_and!; [done..|]. intros []. left.
Qed.

Lemma covered_drop disk pend m parent pn child :
  m !! parent = Some pn -> covered disk pend m ->
  covered disk (pend_add pend child (- has_ext pn child))
    (<[parent := set_children pn (drop_ref (cn_children pn) child)]> m).
Proof.
  intros Hp Hc h Hh. rewrite (refs_update _ _ pn), (parents0_same _ _ pn) by done. specialize (Hc h Hh).
  unfold refs_of, pend_add. rewrite ext_drop. unfold implicit. simpl. destruct (decide (h = child)); lia.
Qed.

Lemma covered_parents disk pend m child n p :
  m !! child = Some n -> cn_parents n - 1 <= p -> covered disk pend m ->
  covered disk (pend_add pend child 1) (<[child := set_parents n p]> m).
Proof.
  intros Hn Hp Hc h Hh. rewrite (refs_same _ _ n) by done. specialize (Hc h Hh). unfold pend_add, parents0 in *.
  destruct (decide (h = child)) as [->|Hne].
  - rewrite lookup_insert_eq. rewrite Hn in Hc. simpl. lia.
  - rewrite lookup_insert_ne by done. lia.
Qed.

Lemma covered_le disk pend pend' m : (forall h, pend h <= pend' h) -> covered disk pend m -> covered disk pend' m.
Proof. intros Hp Hc h Hh. specialize (Hc h Hh). specialize (Hp h). lia. Qed.

Definition deref_ok (fuel : nat) : Prop :=
  forall X db child parent pn pend disk,
    wf X db -> dirties db !! parent = Some pn -> (rank child < rank parent)%nat -> (rank child < fuel)%nat ->
    Forall (fun x => rank child < rank x)%nat X -> covered disk pend (dirties db) ->
    exists db', dereference fuel db child parent = Ok db' /\ wf X db' /\ same_env db db' /\
      covered disk (pend_add pend child (1 - has_ext pn child)) (dirties db') /\
      kept child parent (dirties db) (dirties db') /\
      forall node, dirties db !! child = Some node -> cn_parents node <= 1 -> dirties db' !! child = None.

(** The loop over the references of a node that is being removed. *)
Lemma visit_spec fuel child X disk l :
  deref_ok fuel -> (rank child <= fuel)%nat -> Forall (fun x => rank child < rank x)%nat X ->
  Forall (fun h => rank h < rank child)%nat l ->
  forall db n pend,
    wf (child :: X) db -> dirties db !! child = Some n -> covered disk pend (dirties db) ->
    exists db' n', visit (fun db h => dereference fuel db h child) l db = Ok db' /\
      wf (child :: X) db' /\ same_env db db' /\ dirties db' !! child = Some n' /\
      cn_node n' = cn_node n /\ cn_size n' = cn_size n /\ cn_parents n' = cn_parents n /\
      covered disk (fun h => pend h + occ h l - (ext n h - ext n' h)) (dirties db') /\
      stays child [child] (dirties db) (dirties db').
Proof.
  intros IH Hf HX. induction l as [|h l IHl]; intros Hl db n pend Hwf Hn Hc.
  { exists db, n. split_and!; try done; [|by apply stays_moved].
    eapply covered_le; [|done]. intros h. rewrite occ_nil. simpl. lia. }
  apply Forall_cons in Hl as [Hh Hl].
  destruct (IH (child :: X) db h child n pend disk) as (db1 & Hrun & Hwf1 & He1 & Hc1 & Hk1 & _); try done.
  { lia. } { constructor; [done|]. eapply Forall_impl; [done|]. simpl. lia. }
  pose proof Hk1 as [Hk1a Hk1b]. destruct (Hk1a child n Hh Hn) as (n1 & Hn1 & Hnd & Hsz & Hpa & Hch).
  rewrite decide_True in Hch by done.
  destruct (IHl Hl db1 n1 _ Hwf1 Hn1 Hc1) as (db2 & n2 & Hrun2 & Hwf2 & He2 & Hn2 & ? & ? & ? & Hc2 & Hs2).
  exists db2, n2. split_and!; try done; [|by eapply same_env_trans|congruence..| |].
  - simpl. rewrite Hrun. bind_simpl. done.
  - eapply covered_le; [|done]. intros x. simpl. unfold pend_add. rewrite occ_cons.
    pose proof (ext_drop n h x) as Hex.
    replace (ext (set_children n (drop_ref (cn_children n) h)) x) with (ext n1 x) in Hex
      by (unfold ext; by rewrite Hch). 
    destruct (decide (x = h)), (decide (h = x)); try congruence; lia.
  - eapply stays_trans; [|done]. split; [|done]. intros x nx Hx Hnx.
    destruct (Hk1a x nx) as (nx' & Hnx' & ? & ? & ? & Hcx); [lia|done|].
    exists nx'. rewrite decide_False in Hcx by (intros ->; lia). done.
Qed.

Lemma forChilds_occ n h : node_ok n -> occ h (forChilds n) <= refs_of n h.
Proof.
  intros [_ Hc]. unfold forChilds, refs_of. fold (implicit n). rewrite occ_app.
  enough (occ h match cn_children n with Some m => map_order m | None => [] end <= ext n h) by lia.
  unfold ext. destruct (cn_children n) as [m|]; simpl in *; [|rewrite occ_nil, lookup_empty; done].
  destruct (decide (h ∈ map_order m)) as [Hin|Hin].
  - pose proof (occ_NoDup h _ (map_order_NoDup m)). apply map_order_elem in Hin as [c Hh].
    specialize (Hc h c Hh). rewrite Hh. simpl. lia.
  - rewrite occ_not_elem by done. destruct (m !! h) as [c|] eqn:Hh; [|done]. specialize (Hc h c Hh). simpl. lia.
Qed.

Lemma forChilds_refs n h : node_ok n -> h ∈ forChilds n -> 0 < refs_of n h.
Proof. intros Hn Hh. pose proof (forChilds_occ n h Hn). apply occ_elem in Hh. lia. Qed.

Lemma covered_delete disk pend m child node n :
  m !! child = Some n -> cn_parents n = 0 -> cn_node n = cn_node node -> node_ok node ->
  covered disk (fun h => pend h + occ h (forChilds node) - (ext node h - ext n h)) m ->
  covered disk pend (base.delete child m).
Proof.
  intros Hn Hp Hi Hok Hc h Hh. specialize (Hc h Hh). pose proof (forChilds_occ node h Hok) as Ho. simpl in Hc.
  unfold refs in *. rewrite (msum_delete _ _ _ n) by done. unfold refs_of in *.
  replace (implicit n) with (implicit node) by (unfold implicit; by rewrite Hi).
  assert (Hpar : parents0 (base.delete child m) h = parents0 m h).
  { unfold parents0. destruct (decide (h = child)) as [->|Hne].
    - by rewrite lookup_delete_eq, Hn.
    - by rewrite lookup_delete_ne. }
  rewrite Hpar. lia.
Qed.

Lemma wf_delete X db db' child :
  shape db db' (base.delete child (dirties db)) -> child <> zeroHash -> child ∉ X -> wf (child :: X) db -> wf X db'.
Proof.
  intros (Hd & Ho & Hw & _) Hz HX [(meta & Hm & Him) Hn Hr Ht (l & Hnd & Hin & Hold & Hnew & Hl)].
  assert (Hcl : child ∉ l) by (intros Hc; apply Hin in Hc as (_ & _ & Hc); apply Hc; left).
  split; rewrite ?Hd.
  - exists meta. rewrite Hd, lookup_delete_ne by done. done.
  - by apply map_Forall_delete.
  - intros p n c Hp. apply lookup_delete_Some in Hp as [_ Hp]. by eapply Hr.
  - intros p n Hp. apply lookup_delete_Some in Hp as [_ Hp]. by eapply Ht.
  - exists l. unfold list_is. rewrite Hd, Ho, Hw. split_and!; try done.
    + intros h. rewrite Hin, elem_of_cons. destruct (decide (h = child)) as [->|Hne].
      * rewrite lookup_delete_eq. split; [intros (_ & _ & Hx); by destruct Hx; left|by intros ([? ?] & _)].
      * rewrite lookup_delete_ne by done. tauto.
    + eapply linked_ext; [|done]. intros h n Hh Hn'. exists n. split; [|done].
      rewrite lookup_delete_ne; [done|]. by intros ->.
Qed.

(** The removal of a node whose last reference has gone. *)
Lemma deref_remove fuel X db child node disk pend :
  deref_ok fuel -> (rank child <= fuel)%nat -> Forall (fun x => rank child < rank x)%nat X ->
  wf X db -> child <> zeroHash -> child ∉ X ->
  dirties db !! child = Some (set_parents node 0) -> node_ok node -> covered disk pend (dirties db) ->
  exists db', (db ← unlink db child node;
               db ← visit (fun db h => dereference fuel db h child) (forChilds node) db;
               let db := set_dirties db (base.delete child (dirties db)) in
               let db := add_sizes db (- (32 + cn_size node)) 0 in
               Ok (if cn_children node then add_sizes db 0 (- cachedNodeChildrenSize) else db)) = Ok db' /\
    wf X db' /\ same_env db db' /\ covered disk pend (dirties db') /\ stays child [] (dirties db) (dirties db') /\ dirties db' !! child = None.
Proof.
  intros IH Hf HX Hwf Hz HcX Hc Hok Hcov.
  destruct (unlink_spec X db child node (set_parents node 0)) as (m & o & w & -> & Hfl & Hmv); try done.
  { apply Hwf. } { apply Hwf. }
  bind_simpl. set (db1 := set_list (set_dirties db m) o w) in *.
  assert (Hwf1 : wf (child :: X) db1) by (by apply (wf_moved X)).
  destruct (moved_Some _ _ _ _ Hmv Hc) as (n1 & Hn1 & (Hnd1 & _ & Hp1 & Hch1)).
  assert (Hrk : Forall (fun h => rank h < rank child)%nat (forChilds node)).
  { apply Forall_forall. intros h Hh. apply (wf_rank _ _ Hwf child (set_parents node 0)); [done|].
    by apply forChilds_refs in Hh. }
  destruct (visit_spec fuel child X disk (forChilds node) IH Hf HX Hrk db1 n1 pend)
    as (db2 & n2 & -> & Hwf2 & He2 & Hn2 & Hnd2 & Hsz2 & Hp2 & Hc2 & Hs2); [done..|by eapply moved_covered|].
  bind_simpl. simpl in *.
  assert (Hcov2 : covered disk pend (base.delete child (dirties db2))).
  { apply (covered_delete _ _ _ _ node n2); try done; [congruence|congruence|].
    eapply covered_le; [|exact Hc2]. intros h. simpl. unfold ext. rewrite <- Hch1. simpl. lia. }
  assert (Hs : stays child [] (dirties db) (base.delete child (dirties db2))).
  { apply stays_delete. eapply stays_trans; [by apply stays_moved|done]. }
  pose proof (lookup_delete_eq (dirties db2) child) as Hgone.
  destruct (cn_children node); eexists; (split; [done|]); split_and!; try done;
    by eapply (wf_delete X db2); [split_and!| | |].
Qed.

Lemma deref_spec fuel : deref_ok fuel.
Proof.
  induction fuel as [|fuel IH]; intros X db child parent pn pend disk Hwf Hp Hrk Hf HX Hc; [lia|].
  assert (Hz : child <> zeroHash) by (intros ->; pose proof (wf_top _ _ Hwf _ _ Hp); lia).
  assert (HcX : child ∉ X) by (intros Hin; rewrite Forall_forall in HX; specialize (HX _ Hin); lia).
  assert (Hcp : child <> parent) by (intros ->; lia).
  cbn [dereference]. rewrite Hp.
  destruct (drop_reference_spec db child parent pn Hp) as (db1 & -> & Hsh1). bind_simpl.
  pose proof (wf_nodes _ _ Hwf parent pn Hp) as Hokp. simpl in Hokp.
  assert (Hwf1 : wf X db1).
  { eapply wf_update; [done|done|done|by apply node_ok_drop|done| |done]. intros c. rewrite ext_drop.
    unfold has_ext. destruct (decide _); [destruct (0 <? _)|]; lia. }
  pose proof Hsh1 as (Hd1 & _ & _ & He1).
  pose proof (covered_drop disk pend (dirties db) parent pn child Hp Hc) as Hc1. rewrite <- Hd1 in Hc1.
  pose proof (kept_drop child parent (dirties db) pn Hp) as Hk1. rewrite <- Hd1 in Hk1.
  destruct (dirties db1 !! child) as [node|] eqn:Hn.
  2: { exists db1. split_and!; try done. eapply covered_le; [|done]. intros h. unfold pend_add. destruct (decide _); lia. }
  assert (Hn0 : dirties db !! child = Some node) by (by rewrite Hd1, lookup_insert_ne in Hn by done).
  pose proof (wf_nodes _ _ Hwf1 child node Hn) as Hok. simpl in Hok.
  set (p := if cn_parents node >? 0 then cn_parents node - 1 else cn_parents node).
  assert (Hpp : cn_parents node - 1 <= p /\ 0 <= p).
  { unfold p. destruct Hok. destruct (Z.gtb_spec (cn_parents node) 0); lia. }
  rewrite (with_dirty_Ok _ _ _ node) by done. bind_simpl.
  set (db2 := set_dirties db1 (<[child := set_parents node p]> (dirties db1))).
  assert (Hwf2 : wf X db2).
  { eapply (wf_update X db1); [by split_and!|done|done|split; [apply Hpp|apply Hok]|done|done|done]. }
  assert (Hc2 : covered disk (pend_add pend child (1 - has_ext pn child)) (dirties db2)).
  { eapply covered_le; [|eapply covered_parents; [done|apply Hpp|exact Hc1]]. intros h. unfold pend_add.
    destruct (decide _); lia. }
  assert (Hk2 : kept child parent (dirties db) (dirties db2)).
  { eapply kept_stays; [done|]. by eapply stays_insert. }
  destruct (Z.eqb_spec p 0) as [Hp0|Hp0].
  2: { exists db2. split_and!; try done. intros node' Hn' Hle. simplify_eq. unfold p in *. destruct (Z.gtb_spec (cn_parents node) 0), Hok; lia. }
  destruct (deref_remove fuel X db2 child node disk (pend_add pend child (1 - has_ext pn child)))
    as (db3 & Hrun & Hwf3 & He3 & Hc3 & Hs3 & Hgone); try done; [lia| |].
  { simpl. by rewrite lookup_insert_eq, Hp0. }
  exists db3. split; [exact Hrun|]. split_and!; try done; [by eapply same_env_trans|by eapply kept_stays].
Qed.

(** ** Sound databases *)

Abbreviation disk db := (d_data (diskdb db)).

(** The blob that stands for a hash: of the dirty node, or on disk. *)
Definition content db (h : hash_t) : option (list Z) :=
  match dirties db !! h with
  | Some n => match cached_rlp n with Ok b => Some b | _ => None end
  | None => disk db !! h
  end.

Record sound db : Prop := {
  s_wf : wf [] db;
  s_covered : covered (disk db) (fun _ => 0) (dirties db);
  s_blob h n : dirties db !! h = Some n -> h <> zeroHash ->
    exists b, cached_rlp n = Ok b /\ forall b', disk db !! h = Some b' -> b' = b;
  s_clean h b : zlen h = 32 -> get_clean db h = Some b -> disk db !! h = Some b;
  s_len h n : dirties db !! h = Some n -> zlen h = 32;
}.

(** A referenced node is there: among the dirty nodes or on disk. *)
Lemma sound_available db p n h :
  sound db -> dirties db !! p = Some n -> 0 < refs_of n h -> is_Some (content db h).
Proof.
  intros Hs Hp Hr. unfold content. destruct (dirties db !! h) as [x|] eqn:Hh.
  - destruct (s_blob _ Hs h x Hh) as (b & -> & _); [|eauto].
    intros ->. pose proof (wf_rank _ _ (s_wf _ Hs) _ _ _ Hp Hr). pose proof (wf_top _ _ (s_wf _ Hs) _ _ Hp). lia.
  - destruct (disk db !! h) eqn:Hd; [eauto|]. pose proof (s_covered _ Hs h Hd) as Hc.
    unfold parents0 in Hc. rewrite Hh in Hc.
    pose proof (msum_elem (fun n => refs_of n h) (dirties db) p n) as Hm. unfold refs in Hc.
    assert (refs_of n h <= msum (fun n => refs_of n h) (dirties db)); [|lia].
    apply Hm; [|done]. intros k x Hx. apply refs_of_nonneg. exact (wf_nodes _ _ (s_wf _ Hs) k x Hx).
Qed.

(** ** Inserting a node *)

Definition add_refs (l : list hash_t) (h : hash_t) (n : cachedNode) : cachedNode :=
  set_parents n (cn_parents n + occ h l).

Lemma foldl_add_parent m l h :
  (forall h n, m !! h = Some n -> 0 <= cn_parents n /\ cn_parents n + occ h l < 2 ^ 32) ->
  foldl add_parent m l !! h = add_refs l h <$> m !! h.
Proof.
  revert m. induction l as [|x l IH]; intros m Hb; simpl.
  - destruct (m !! h) as [n|]; [|done]. simpl. unfold add_refs. rewrite occ_nil, Z.add_0_r. by destruct n.
  - assert (Hx : forall k, add_parent m x !! k = add_refs [x] k <$> m !! k).
    { intros k. unfold add_parent, add_refs. destruct (m !! x) as [n|] eqn:Hn.
      - destruct (Hb x n Hn) as [H1 H2]. rewrite occ_cons, decide_True in H2 by done.
        pose proof (occ_nonneg x l). destruct (decide (k = x)) as [->|Hne].
        + rewrite lookup_insert_eq, Hn, u32_small, occ_cons, decide_True by (done || lia). done.
        + rewrite lookup_insert_ne by done. destruct (m !! k) as [c|]; [|done]. simpl.
          rewrite occ_cons, decide_False by done. rewrite occ_nil, Z.add_0_r. by destruct c.
      - destruct (m !! k) as [c|] eqn:Hk; [|done]. simpl. rewrite occ_cons, decide_False by congruence.
        rewrite occ_nil, Z.add_0_r. by destruct c. }
    rewrite IH, Hx.
    + destruct (m !! h) as [n|]; [|done]. simpl. unfold add_refs. simpl. rewrite !occ_cons, occ_nil. do 2 f_equal. lia.
    + intros k n Hk. rewrite Hx in Hk. destruct (m !! k) as [c|] eqn:Hc; [|done]. injection Hk as <-.
      destruct (Hb k c Hc) as [H1 H2]. unfold add_refs. simpl. rewrite occ_cons in H2. rewrite occ_cons, occ_nil.
      pose proof (occ_nonneg k l). destruct (decide (x = k)); lia.
Qed.

Lemma linked_snoc m p l x n h :
  linked m p l -> NoDup l -> last l = Some x -> m !! x = Some n -> forall e, h ∉ l ->
  cn_next e = zeroHash -> cn_prev e = x ->
  linked (<[x := set_next n h]> (<[h := e]> m)) p (l ++ [h]).
Proof.
  revert p. induction l as [|y l IH]; intros p Hl Hnd Hx Hn e Hh He1 He2; [done|].
  destruct Hl as [(ny & Hy & Hnx & Hpv) Hl]. apply NoDup_cons in Hnd as [Hyl Hnd].
  apply not_elem_of_cons in Hh as [Hhy Hh]. destruct l as [|z l].
  - simpl in Hx. injection Hx as ->. rewrite Hn in Hy. injection Hy as <-. split; [|split; [|done]].
    + exists (set_next n h). rewrite lookup_insert_eq. by split_and!.
    + exists e. rewrite lookup_insert_ne, lookup_insert_eq by done. done.
  - assert (Hxl : x ∈ z :: l) by (by apply last_Some_elem_of).
    split; [|by apply IH]. exists ny. rewrite !lookup_insert_ne; [done|congruence|]. by intros ->.
Qed.

(** The node and its references can be added. *)
Record insertable db (hash : hash_t) (n : node) (c : cnode) (blob : list Z) : Prop := {
  i_node : simplifyNode n = Ok c;
  i_blob : cached_rlp (CachedNode c 0 0 None zeroHash zeroHash) = Ok blob;
  i_same b : disk db !! hash = Some b -> b = blob;
  i_len : zlen hash = 32;
  i_top : (rank hash < rank zeroHash)%nat;
  i_refs h : h ∈ forGatherChildren c -> (rank h < rank hash)%nat /\ is_Some (content db h);
  i_room h n : dirties db !! h = Some n -> cn_parents n + occ h (forGatherChildren c) < 2 ^ 32;
}.

Lemma implicit_new c size p q : cached_rlp (CachedNode c 0 0 None zeroHash zeroHash) <> Panic ->
  implicit (CachedNode c size 0 None p q) = forGatherChildren c.
Proof. by destruct c. Qed.

(** The dirty nodes after an insertion. *)
Definition inserted_nodes db (hash : hash_t) (c : cnode) (size : Z) : gmap hash_t cachedNode :=
  <[hash := CachedNode c (u16 size) 0 None (newest db) zeroHash]> (foldl add_parent (dirties db) (forGatherChildren c)).

Lemma insert_lookup db hash n c blob size h :
  sound db -> insertable db hash n c blob -> dirties db !! hash = None ->
  inserted_nodes db hash c size !! h =
  if decide (h = hash) then Some (CachedNode c (u16 size) 0 None (newest db) zeroHash)
  else add_refs (forGatherChildren c) h <$> dirties db !! h.
Proof.
  intros Hs Hi Hn. unfold inserted_nodes. destruct (decide (h = hash)) as [->|Hne]; [by rewrite lookup_insert_eq|].
  rewrite lookup_insert_ne by done. apply foldl_add_parent. intros k x Hx. split; [|by apply Hi].
  apply (wf_nodes _ _ (s_wf _ Hs) k x Hx).
Qed.

Lemma insert_covered db hash n c blob size :
  sound db -> insertable db hash n c blob -> dirties db !! hash = None ->
  covered (disk db) (fun _ => 0) (inserted_nodes db hash c size).
Proof.
  intros Hs Hi Hn h Hh. pose proof (s_covered _ Hs h Hh) as Hc. unfold parents0 in *.
  assert (Hr : refs (inserted_nodes db hash c size) h = refs (dirties db) h + occ h (forGatherChildren c)).
  { unfold inserted_nodes, refs. rewrite msum_insert.
    - rewrite (msum_ext _ (foldl _ _ _) (dirties db)).
      + unfold refs_of at 1. rewrite implicit_new by (by rewrite (i_blob _ _ _ _ _ Hi)). unfold ext. simpl.
        rewrite lookup_empty. simpl. lia.
      + intros k. rewrite foldl_add_parent; [by destruct (dirties db !! k); constructor|].
        intros x nx Hx. split; [apply (wf_nodes _ _ (s_wf _ Hs) x nx Hx)|by apply Hi].
    - rewrite foldl_add_parent; [by rewrite Hn|].
      intros x nx Hx. split; [apply (wf_nodes _ _ (s_wf _ Hs) x nx Hx)|by apply Hi]. }
  rewrite Hr, (insert_lookup _ _ n _ blob) by done. destruct (decide (h = hash)) as [->|Hne].
  - rewrite Hn in Hc. simpl. assert (occ hash (forGatherChildren c) = 0); [|lia]. apply occ_not_elem. intros Hin.
    apply (i_refs _ _ _ _ _ Hi) in Hin as [? _]. lia.
  - destruct (dirties db !! h) as [x|] eqn:Hx; simpl; [lia|].
    assert (occ h (forGatherChildren c) = 0); [|lia]. apply occ_not_elem. intros Hin.
    apply (i_refs _ _ _ _ _ Hi) in Hin as [_ [b Hb]]. unfold content in Hb. rewrite Hx in Hb. congruence.
Qed.

Lemma insert_wf db hash n c blob size :
  sound db -> insertable db hash n c blob -> dirties db !! hash = None ->
  wf [hash] (set_dirties db (inserted_nodes db hash c size)).
Proof.
  intros Hs Hi Hn. pose proof (s_wf _ Hs) as [(meta & Hm & Him) Hok Hr Ht (l & Hl)].
  pose proof (fun h => insert_lookup db hash n c blob size h Hs Hi Hn) as Hlk.
  assert (Hz : zeroHash <> hash) by (intros <-; congruence).
  assert (Hb : forall h x, inserted_nodes db hash c size !! h = Some x -> h <> hash ->
     exists x0, dirties db !! h = Some x0 /\ x = add_refs (forGatherChildren c) h x0).
  { intros h x Hx Hne. rewrite Hlk, decide_False in Hx by done. destruct (dirties db !! h) as [x0|]; [|done].
    injection Hx as <-. eauto. }
  split; simpl.
  - exists (add_refs (forGatherChildren c) zeroHash meta). by rewrite Hlk, decide_False, Hm.
  - intros h x Hx. destruct (decide (h = hash)) as [->|Hne].
    + rewrite Hlk, decide_True in Hx by done. injection Hx as <-. by split.
    + destruct (Hb h x Hx Hne) as (x0 & Hx0 & ->). destruct (Hok h x0 Hx0) as [Hp Hc]. split; [|done].
      simpl. pose proof (occ_nonneg h (forGatherChildren c)). lia.
  - intros p x k Hx Hk. destruct (decide (p = hash)) as [->|Hne].
    + rewrite Hlk, decide_True in Hx by done. injection Hx as <-. apply (i_refs _ _ _ _ _ Hi).
      unfold refs_of in Hk. rewrite implicit_new in Hk by (by rewrite (i_blob _ _ _ _ _ Hi)).
      unfold ext in Hk. simpl in Hk. rewrite lookup_empty in Hk. simpl in Hk.
      destruct (decide (k ∈ forGatherChildren c)); [done|]. rewrite occ_not_elem in Hk by done. lia.
    + destruct (Hb p x Hx Hne) as (x0 & Hx0 & ->). by apply (Hr p x0 k).
  - intros p x Hx. destruct (decide (p = hash)) as [->|Hne]; [pose proof (i_top _ _ _ _ _ Hi); lia|].
    destruct (Hb p x Hx Hne) as (x0 & Hx0 & ->). by eapply Ht.
  - destruct Hl as (Hnd & Hin & Hold & Hnew & Hl). exists l. split_and!; try done.
    + intros h. simpl. rewrite Hlk, Hin, list_elem_of_singleton. destruct (decide (h = hash)) as [->|Hne].
      * rewrite Hn. split; [by intros ([? ?] & _)|by intros (_ & _ & ?)].
      * rewrite fmap_is_Some. split; intros (? & ? & ?); split_and!; try done. apply not_elem_of_nil.
    + simpl. eapply linked_ext; [|done]. intros h x Hx Hxl. rewrite Hlk, decide_False, Hxl.
      * by eexists.
      * intros ->. congruence.
Qed.

Lemma insert_list db hash n c blob size :
  sound db -> insertable db hash n c blob -> dirties db !! hash = None ->
  exists m o w,
    (if decide (oldest db = zeroHash) then Ok (set_list (set_dirties db (inserted_nodes db hash c size)) hash hash)
     else db ← with_dirty (set_dirties db (inserted_nodes db hash c size)) (newest db) (fun n => set_next n hash);
          Ok (set_list db (oldest db) hash)) =
    (Ok (set_list (set_dirties (set_dirties db (inserted_nodes db hash c size)) m) o w) : go (Database C)) /\
    moved (inserted_nodes db hash c size) m /\
    flush_list [] (set_list (set_dirties (set_dirties db (inserted_nodes db hash c size)) m) o w).
Proof.
  intros Hs Hi Hn. pose proof (insert_wf db hash n c blob size Hs Hi Hn) as [_ _ _ _ (l & Hl)].
  pose proof (fun h => insert_lookup db hash n c blob size h Hs Hi Hn) as Hlk.
  set (m1 := inserted_nodes db hash c size) in *. destruct Hl as (Hnd & Hin & Hold & Hnew & Hl). simpl in *.
  assert (Hz : hash <> zeroHash).
  { intros ->. destruct (s_wf _ Hs) as [(meta & Hm & _) _ _ _ _]. congruence. }
  assert (Hhl : hash ∉ l) by (intros Hh; apply Hin in Hh as (_ & _ & Hx); apply Hx; left).
  assert (Hmem : forall m, moved m1 m -> forall h, h ∈ l ++ [hash] <-> is_Some (m !! h) /\ h <> zeroHash /\ h ∉ []).
  { intros m Hm h. rewrite elem_of_app, list_elem_of_singleton, Hin, list_elem_of_singleton.
    assert (Hsm : is_Some (m1 !! h) <-> is_Some (m !! h)) by (destruct (Hm h); [split; eauto|done]).
    assert (Hsh : is_Some (m1 !! hash)) by (rewrite Hlk, decide_True by done; eauto).
    pose proof (not_elem_of_nil h). rewrite <- Hsm. destruct (decide (h = hash)) as [->|]; [split; [done|by right]|].
    split; [intros [(? & ? & _)|?]; done|]. intros (? & ? & _). left. done. }
  assert (Hnd' : NoDup (l ++ [hash])).
  { apply NoDup_app. split_and!; [done| |apply NoDup_singleton]. intros x Hx ->%list_elem_of_singleton. done. }
  destruct (decide (oldest db = zeroHash)) as [Ho|Ho].
  - exists m1, hash, hash. split; [done|]. split; [done|]. assert (l = []) as ->.
    { destruct l as [|x l]; [done|]. simpl in Hold. assert (Hx : x ∈ x :: l) by left.
      apply Hin in Hx as (_ & ? & _). congruence. }
    exists [hash]. split_and!; try done; [by apply (Hmem m1)|by right|]. simpl.
    split; [|done]. eexists. rewrite Hlk, decide_True by done. done.
  - destruct Hnew as [->|Hnew]; [done|].
    assert (Hw : newest db ∈ l) by (by apply last_Some_elem_of).
    pose proof Hw as ([x Hx] & _ & _)%Hin. rewrite (with_dirty_Ok _ _ _ x) by done. bind_simpl.
    assert (Hmv : moved m1 (<[newest db := set_next x hash]> m1)) by (by eapply moved_insert).
    exists (<[newest db := set_next x hash]> m1), (oldest db), hash. split; [done|]. split; [done|].
    exists (l ++ [hash]). split_and!; try done; simpl.
    + by apply Hmem.
    + rewrite Hold. by destruct l.
    + right. by rewrite last_snoc.
    + pose proof (Hlk hash) as Hh. rewrite decide_True in Hh by done.
      rewrite <- (insert_id m1 hash _ Hh). by eapply linked_snoc.
Qed.

Lemma content_moved db db' :
  moved (dirties db) (dirties db') -> disk db' = disk db -> forall h, content db' h = content db h.
Proof.
  intros Hm Hd h. unfold content. rewrite Hd. destruct (Hm h) as [n n' (Hn & _)|]; [|done].
  unfold cached_rlp. by rewrite Hn.
Qed.

Lemma cached_rlp_node n n' : cn_node n = cn_node n' -> cached_rlp n = cached_rlp n'.
Proof. unfold cached_rlp. by intros ->. Qed.

Lemma forChilds_new c size p a b : forChilds (CachedNode c size p None a b) = forGatherChildren c.
Proof. by destruct c. Qed.

Lemma db_insert_fresh db hash size n c blob :
  sound db -> insertable db hash n c blob -> dirties db !! hash = None ->
  exists db', db_insert db hash size n = Ok db' /\ sound db' /\
    (same_env db db' /\ moved (inserted_nodes db hash c size) (dirties db')) /\
    content db' hash = Some blob /\ forall h, h <> hash -> content db' h = content db h.
Proof.
  intros Hs Hi Hn. pose proof (fun h => insert_lookup db hash n c blob size h Hs Hi Hn) as Hlk.
  destruct (insert_list db hash n c blob size Hs Hi Hn) as (m & o & w & Hrun & Hmv & Hfl).
  set (m1 := inserted_nodes db hash c size) in *. pose proof (insert_wf db hash n c blob size Hs Hi Hn) as Hwf.
  unfold db_insert. rewrite Hn, (i_node _ _ _ _ _ Hi). bind_simpl.
  rewrite forChilds_new.
  fold (inserted_nodes db hash c size). fold m1. simpl oldest. simpl newest. rewrite Hrun. bind_simpl.
  eexists. split; [reflexivity|].
  assert (Hcont : forall h, content (set_dirties db m) h = if decide (h = hash) then Some blob else content db h).
  { intros h. rewrite (content_moved (set_dirties db m1)) by done. unfold content. simpl. fold m1 in Hlk.
    rewrite Hlk. destruct (decide (h = hash)) as [->|Hne].
    - rewrite (cached_rlp_node _ (CachedNode c 0 0 None zeroHash zeroHash)), (i_blob _ _ _ _ _ Hi) by done. done.
    - destruct (dirties db !! h); done. }
  split_and!; try done.
  - split; simpl.
    + destruct (wf_moved [hash] [] _ m o w Hwf Hmv Hfl) as [? ? ? ? ?]. split; done.
    + eapply moved_covered; [done|]. by apply (insert_covered db hash n c blob).
    + intros h x Hx Hz. destruct (moved_Some m m1 h x) as (x1 & Hx1 & Hnear); [by symmetry|done|].
      rewrite Hlk in Hx1. rewrite (cached_rlp_node _ x1) by apply Hnear. destruct (decide (h = hash)) as [->|Hne].
      * injection Hx1 as <-. exists blob. rewrite <- (i_blob _ _ _ _ _ Hi). split; [done|apply Hi].
      * destruct (dirties db !! h) as [x0|] eqn:Hx0; [|done]. injection Hx1 as <-.
        rewrite (cached_rlp_node _ x0) by done. by apply (s_blob _ Hs h).
    + apply (s_clean _ Hs).
    + intros h x Hx. destruct (moved_Some m m1 h x) as (x1 & Hx1 & _); [by symmetry|done|].
      rewrite Hlk in Hx1. destruct (decide (h = hash)) as [->|Hne]; [apply Hi|].
      destruct (dirties db !! h) as [x0|] eqn:Hx0; [|done]. by apply (s_len _ Hs h x0).
  - etransitivity; [apply (Hcont hash)|]. by rewrite decide_True.
  - intros h Hne. etransitivity; [apply (Hcont h)|]. by rewrite decide_False.
Qed.

(** ** References from outside *)

Definition referable db (child parent : hash_t) : Prop :=
  (rank child < rank parent)%nat /\ is_Some (dirties db !! parent) /\
  (forall n, dirties db !! child = Some n -> cn_parents n + 1 < 2 ^ 32) /\
  (forall p, dirties db !! parent = Some p -> ext p child + 1 < 2 ^ 16).

Lemma sound_refs db db' :
  sound db -> same_env db db' -> wf [] db' -> covered (disk db') (fun _ => 0) (dirties db') ->
  (forall h n', dirties db' !! h = Some n' -> exists n, dirties db !! h = Some n /\ cn_node n' = cn_node n) ->
  sound db'.
Proof.
  intros Hs (Hd & Hcl & _) Hwf Hc Hb. split; try done.
  - intros h n' Hn' Hz. destruct (Hb h n' Hn') as (n & Hn & He). rewrite (cached_rlp_node _ n), Hd by done.
    by apply (s_blob _ Hs h).
  - unfold get_clean. rewrite Hd, Hcl. apply (s_clean _ Hs).
  - intros h n' Hn'. destruct (Hb h n' Hn') as (n & Hn & _). by apply (s_len _ Hs h n).
Qed.

Lemma content_kept db db' :
  same_env db db' ->
  (forall h n', dirties db' !! h = Some n' -> exists n, dirties db !! h = Some n /\ cn_node n' = cn_node n) ->
  (forall h, is_Some (dirties db !! h) -> is_Some (dirties db' !! h)) ->
  forall h, content db' h = content db h.
Proof.
  intros (Hd & _) Hb Hf h. unfold content. rewrite Hd. destruct (dirties db' !! h) as [n'|] eqn:Hn'.
  - destruct (Hb h n' Hn') as (n & -> & He). by rewrite (cached_rlp_node _ n).
  - destruct (dirties db !! h) as [n|] eqn:Hn; [|done]. destruct (Hf h) as [? ?]; [eauto|congruence].
Qed.

(** The new count of a reference. *)
Lemma ext_add n m child c h :
  ext (set_children n (Some (<[child := c]> m))) h = if decide (h = child) then c else default 0 (m !! h).
Proof.
  unfold ext. simpl. destruct (decide (h = child)) as [->|Hne]; [by rewrite lookup_insert_eq|by rewrite lookup_insert_ne].
Qed.

Lemma reference_shape db child parent node pn :
  dirties db !! child = Some node -> dirties db !! parent = Some pn -> child <> parent ->
  0 <= cn_parents node -> cn_parents node + 1 < 2 ^ 32 -> 0 <= ext pn child -> ext pn child + 1 < 2 ^ 16 ->
  exists db', reference db child parent = Ok db' /\
    (db' = db \/
     shape db db' (<[parent := set_children pn (Some (<[child := ext pn child + 1]> (default ∅ (cn_children pn))))]>
                    (<[child := set_parents node (cn_parents node + 1)]> (dirties db)))).
Proof.
  intros Hc Hp Hne H1 H2 H3 H4. unfold reference. rewrite Hc, Hp.
  assert (Hm : forall db0, dirties db0 = dirties db -> oldest db0 = oldest db -> newest db0 = newest db ->
    same_env db db0 -> forall m, m = default ∅ (cn_children pn) ->
    exists db', (db ← with_dirty db0 child (fun n => set_parents n (u32 (cn_parents n + 1)));
       let count := u16 (default 0 (m !! child) + 1) in
       db ← with_dirty db parent (fun p => set_children p (Some (<[child := count]> m)));
       Ok (if count =? 1 then add_sizes db 0 (32 + 2) else db)) = Ok db' /\
    shape db db' (<[parent := set_children pn (Some (<[child := ext pn child + 1]> (default ∅ (cn_children pn))))]>
                    (<[child := set_parents node (cn_parents node + 1)]> (dirties db)))).
  { intros db0 Hd Ho Hw He m ->. rewrite (with_dirty_Ok db0 _ _ node) by (by rewrite Hd). bind_simpl.
    rewrite (with_dirty_Ok _ parent _ pn) by (simpl; by rewrite Hd, lookup_insert_ne). bind_simpl.
    fold (ext pn child). unfold u16. rewrite u32_small, Z.mod_small, Hd by lia. simpl.
    destruct (_ =? 1); eexists; (split; [done|]); by split_and!. }
  destruct (cn_children pn) as [m|] eqn:Hcp.
  - destruct (_ && _ && _); [exists db; split; [done|by left]|].
    destruct (Hm db) with (m := m) as (db' & Hrun & Hsh); try done. exists db'. split; [exact Hrun|by right].
  - destruct (Hm (add_sizes db 0 cachedNodeChildrenSize)) with (m := (∅ : gmap hash_t Z)) as (db' & Hrun & Hsh); try done.
    exists db'. split; [exact Hrun|by right].
Qed.

Lemma reference_spec db child parent :
  sound db -> referable db child parent ->
  exists db', reference db child parent = Ok db' /\ sound db' /\ same_env db db' /\
    forall h, content db' h = content db h.
Proof.
  intros Hs (Hrk & [pn Hp] & Hb1 & Hb2). destruct (dirties db !! child) as [node|] eqn:Hc.
  2: { exists db. unfold reference. rewrite Hc. done. }
  assert (Hne : child <> parent) by (intros ->; lia).
  pose proof (wf_nodes _ _ (s_wf _ Hs)) as Hok.
  pose proof (Hok _ _ Hc) as Hokc. pose proof (Hok _ _ Hp) as Hokp. simpl in *.
  pose proof (ext_nonneg pn child Hokp) as Hext. specialize (Hb1 _ eq_refl). specialize (Hb2 _ Hp).
  destruct (reference_shape db child parent node pn) as (db' & Hrun & [->|Hsh]); try done; [apply Hokc|by exists db|].
  exists db'. split; [done|].
  set (n1 := set_parents node (cn_parents node + 1)) in *.
  set (p1 := set_children pn _) in *. pose proof Hsh as (Hd & Ho & Hw & He).
  set (db1 := set_dirties db (<[child := n1]> (dirties db))).
  assert (Hp1 : dirties db1 !! parent = Some pn) by (simpl; by rewrite lookup_insert_ne).
  assert (Hext1 : forall h, ext p1 h = ext pn h + if decide (h = child) then 1 else 0).
  { intros h. unfold p1. rewrite ext_add. fold (ext pn h). destruct (decide (h = child)) as [->|]; lia. }
  assert (Hwf1 : wf [] db1).
  { eapply (wf_update [] db); [by split_and!|done|done| |done|done|apply Hs]. destruct Hokc. split; [simpl; lia|done]. }
  assert (Hwf' : wf [] db').
  { eapply (wf_replace [] db1 db'); [by split_and!|done|done| |done| |done].
    - destruct Hokp as [? Hcs]. split; [done|]. intros h c Hh. simpl in Hh.
      apply lookup_insert_Some in Hh as [[_ <-]|[_ Hh]]; [lia|by eapply Hcs].
    - intros h Hh. unfold refs_of in Hh. rewrite Hext1 in Hh. destruct (decide (h = child)) as [->|]; [done|].
      apply (wf_rank _ _ (s_wf _ Hs) parent pn h Hp). unfold refs_of. change (implicit p1) with (implicit pn) in Hh. lia. }
  assert (Hcov : covered (disk db') (fun _ => 0) (dirties db')).
  { destruct He as (He & _). rewrite He, Hd. intros h Hh. pose proof (s_covered _ Hs h Hh) as Hcv.
    rewrite (refs_update _ _ pn), (refs_same _ _ node), (parents0_same _ _ pn) by done.
    unfold refs_of. rewrite Hext1. change (implicit p1) with (implicit pn). unfold parents0 in *.
    destruct (decide (h = child)) as [->|Hh'].
    - rewrite lookup_insert_eq. rewrite Hc in Hcv. simpl. lia.
    - rewrite lookup_insert_ne by done. lia. }
  assert (Hback : forall h n', dirties db' !! h = Some n' -> exists n, dirties db !! h = Some n /\ cn_node n' = cn_node n).
  { rewrite Hd. intros h n' Hn'. apply lookup_insert_Some in Hn' as [[<- <-]|[_ Hn']]; [eauto|].
    apply lookup_insert_Some in Hn' as [[<- <-]|[_ Hn']]; eauto. }
  split_and!; try done; [by eapply sound_refs|]. apply content_kept; [done..|].
  intros h Hh. rewrite Hd, lookup_insert_is_Some'. right. rewrite lookup_insert_is_Some'. by right.
Qed.

(** ** The garbage collector is safe *)

(** What is needed once a reference to [root] from outside is dropped: the
    nodes that other roots lead to, through the references inside the nodes
    and those added from outside, over nodes that are in memory only. *)
Inductive needed db (root : hash_t) : hash_t -> Prop :=
| needed_root meta h :
    dirties db !! zeroHash = Some meta -> 0 < ext meta h - (if decide (h = root) then 1 else 0) -> needed db root h
| needed_ref p n h :
    needed db root p -> dirties db !! p = Some n -> disk db !! p = None -> 0 < refs_of n h -> needed db root h.

Lemma Dereference_spec fuel db root :
  sound db -> root <> zeroHash -> (forall meta, dirties db !! zeroHash = Some meta -> 0 < ext meta root) ->
  (rank root < fuel)%nat ->
  exists db', Dereference fuel db root = Ok db' /\ sound db' /\ same_env db db' /\
    (forall h b, content db' h = Some b -> content db h = Some b) /\ kept root zeroHash (dirties db) (dirties db') /\
    (forall node, dirties db !! root = Some node -> cn_parents node <= 1 -> dirties db' !! root = None).
Proof.
  intros Hs Hz Href Hf. destruct (wf_meta _ _ (s_wf _ Hs)) as (meta & Hm & Him). specialize (Href _ Hm).
  assert (Hrk : (rank root < rank zeroHash)%nat).
  { apply (wf_rank _ _ (s_wf _ Hs) _ _ _ Hm). unfold refs_of. pose proof (occ_nonneg root (implicit meta)). lia. }
  unfold Dereference. rewrite decide_False by done.
  destruct (deref_spec fuel [] db root zeroHash meta (fun _ => 0) (disk db))
    as (db' & Hrun & Hwf & He & Hc & Hk & Hgone); try done; [apply Hs|apply Hs|]. pose proof Hk as [_ Hb].
  assert (Hcov : covered (disk db') (fun _ => 0) (dirties db')).
  { destruct He as (-> & _). eapply covered_le; [|exact Hc]. intros h. unfold pend_add, has_ext.
    rewrite (proj2 (Z.ltb_lt _ _)) by done. destruct (decide _); lia. }
  assert (Hs' : sound db').
  { eapply sound_refs; try done. intros h n' Hn'. destruct (Hb h n' Hn') as (n & ? & ? & _). eauto. }
  exists db'. split_and!; try done. intros h b. unfold content. destruct He as (-> & _).
  destruct (dirties db' !! h) as [n'|] eqn:Hn'.
  - destruct (Hb h n' Hn') as (n & -> & Hnn & _). by rewrite (cached_rlp_node _ n).
  - destruct (dirties db !! h) as [n|] eqn:Hn; [|done]. intros Hd.
    destruct (s_blob _ Hs h n Hn) as (b' & -> & Hb'); [|by rewrite (Hb' b Hd)].
    intros ->. destruct (wf_meta _ _ Hwf) as (? & ? & _). congruence.
Qed.

(** The references from outside that are left to a dropped root. *)
Lemma kept_meta root db db' meta :
  sound db -> kept root zeroHash (dirties db) (dirties db') -> dirties db !! zeroHash = Some meta -> 0 < ext meta root ->
  exists meta', dirties db' !! zeroHash = Some meta' /\ forall h, ext meta' h = ext meta h - if decide (h = root) then 1 else 0.
Proof.
  intros Hs [Hk _] Hm Hx. destruct (Hk zeroHash meta) as (meta' & Hm' & _ & _ & _ & Hc); [|done|].
  { apply (wf_rank _ _ (s_wf _ Hs) _ _ _ Hm). unfold refs_of. pose proof (occ_nonneg root (implicit meta)). lia. }
  exists meta'. split; [done|]. intros h. rewrite decide_True in Hc by done. pose proof (ext_drop meta root h) as He.
  unfold ext in He at 1. cbn [set_children cn_children] in He. rewrite <- Hc in He. fold (ext meta' h) in He. rewrite He.
  unfold has_ext. by rewrite (proj2 (Z.ltb_lt _ _)).
Qed.

Lemma needed_rank db root h : sound db -> needed db root h -> (rank h < rank zeroHash)%nat.
Proof.
  intros Hs. induction 1 as [meta h Hm Hx|p n h _ IH Hn _ Hr].
  - apply (wf_rank _ _ (s_wf _ Hs) _ _ _ Hm). unfold refs_of. pose proof (occ_nonneg h (implicit meta)). destruct (decide _); lia.
  - pose proof (wf_rank _ _ (s_wf _ Hs) _ _ _ Hn Hr). lia.
Qed.

(** What is needed keeps its content. *)
Lemma needed_kept root db db' h :
  sound db -> sound db' -> same_env db db' -> (forall meta, dirties db !! zeroHash = Some meta -> 0 < ext meta root) ->
  (forall h b, content db' h = Some b -> content db h = Some b) -> kept root zeroHash (dirties db) (dirties db') ->
  needed db root h -> exists b, content db' h = Some b /\ content db h = Some b.
Proof.
  intros Hs Hs' He Href Hc Hk. enough (Hn : needed db root h -> is_Some (content db' h)) by (intros [b Hb]%Hn; eauto).
  induction 1 as [meta h Hm Hx|p n h Hp [b Hb] Hn Hd Hr].
  - destruct (kept_meta root db db' meta Hs Hk Hm (Href _ Hm)) as (meta' & Hm' & Hext).
    apply (sound_available db' zeroHash meta'); [done..|]. unfold refs_of. rewrite Hext. pose proof (occ_nonneg h (implicit meta')). lia.
  - unfold content in Hb. destruct (dirties db' !! p) as [n'|] eqn:Hn'; [|destruct He as (He & _); rewrite He in Hb; congruence].
    destruct (proj2 Hk p n' Hn') as (n0 & Hn0 & Hnode & Hch). simplify_eq.
    apply (sound_available db' p n'); [done..|]. unfold refs_of, implicit, ext in *. rewrite Hnode, Hch; [done|].
    intros ->%list_elem_of_singleton. pose proof (needed_rank db root zeroHash Hs Hp). lia.
Qed.

(** C18. The garbage collector drops a root and never what is still needed.
    Dropping a reference from outside to a root of a sound database ends
    without panic in a sound database.  One reference from outside is gone, and
    a root that nothing else counted on is removed.  Everything that the other
    roots, or further references to the same one, lead to has the content it
    had before, and so has everything that a node still in memory refers to. *)
Theorem Dereference_safe (fuel : nat) db (root : hash_t) :
  sound db -> root <> zeroHash -> (forall meta, dirties db !! zeroHash = Some meta -> 0 < ext meta root) ->
  (rank root < fuel)%nat ->
  exists db', Dereference fuel db root = Ok db' /\ sound db' /\
    (exists meta meta', dirties db !! zeroHash = Some meta /\ dirties db' !! zeroHash = Some meta' /\
       forall h, ext meta' h = ext meta h - if decide (h = root) then 1 else 0) /\
    (forall n, dirties db !! root = Some n -> cn_parents n <= 1 -> dirties db' !! root = None) /\
    (forall h, needed db root h -> exists b, content db' h = Some b /\ content db h = Some b) /\
    (forall p n h, dirties db' !! p = Some n -> 0 < refs_of n h ->
      exists b, content db' h = Some b /\ content db h = Some b).
Proof.
  intros Hs Hz Href Hf. destruct (Dereference_spec fuel db root) as (db' & Hrun & Hs' & He & Hc & Hk & Hgone); try done.
  exists db'. split_and!; try done.
  - destruct (wf_meta _ _ (s_wf _ Hs)) as (meta & Hm & _). destruct (kept_meta root db db' meta Hs Hk Hm (Href _ Hm)) as (meta' & ? & ?). by exists meta, meta'.
  - intros h. by apply needed_kept.
  - intros p n h Hp Hr. destruct (sound_available db' p n h Hs' Hp Hr) as [b Hb]. eauto.
Qed.

(** C19. Inserting a node whose children are there, and adding a reference
    from outside, keep the database sound; the content of every other hash
    stays as it is. *)
Theorem insert_sound db (hash : hash_t) (size : Z) (n : node) (c : cnode) (blob : list Z) (child parent : hash_t) :
  sound db ->
  (insertable db hash n c blob ->
   exists db', db_insert db hash size n = Ok db' /\ sound db' /\
     (dirties db !! hash = None -> content db' hash = Some blob) /\
     forall h, h <> hash -> content db' h = content db h) /\
  (referable db child parent ->
   exists db', reference db child parent = Ok db' /\ sound db' /\ forall h, content db' h = content db h).
Proof.
  intros Hs. split; intros Hi.
  - destruct (dirties db !! hash) as [x|] eqn:Hx.
    + exists db. unfold db_insert. by rewrite Hx.
    + destruct (db_insert_fresh db hash size n c blob Hs Hi Hx) as (db' & ? & ? & _ & ? & ?). by exists db'.
  - destruct (reference_spec db child parent Hs Hi) as (db' & ? & ? & _ & ?). by exists db'.
Qed.

(** A new database is sound, when the cache agrees with the disk. *)
Lemma new_sound (d : Disk) (c : option C) :
  (forall h b, zlen h = 32 -> get_clean (NewDatabaseWithCache d c) h = Some b -> d_data d !! h = Some b) ->
  sound (NewDatabaseWithCache d c).
Proof.
  intros Hcl. set (meta := CachedNode RNil 0 0 (Some ∅) zeroHash zeroHash).
  assert (Hd : forall h n, dirties (NewDatabaseWithCache d c) !! h = Some n -> h = zeroHash /\ n = meta).
  { intros h n Hn. simpl in Hn. apply lookup_singleton_Some in Hn as [<- <-]. done. }
  assert (Hrm : forall h, refs_of meta h = 0).
  { intros h. unfold refs_of, ext. simpl. rewrite lookup_empty. done. }
  split.
  - split.
    + exists meta. by simpl; rewrite lookup_singleton_eq.
    + intros h n Hn. apply Hd in Hn as [_ ->]. split; [done|]. intros x y. simpl. by rewrite lookup_empty.
    + intros p n x Hn Hr. apply Hd in Hn as [_ ->]. rewrite Hrm in Hr. lia.
    + intros p n Hn. by apply Hd in Hn as [-> _].
    + exists []. split_and!; try done; [constructor|intros h|by left]. split; [by intros ?%elem_of_nil|].
      intros ([n Hn] & Hz & _). by apply Hd in Hn as [-> _].
  - intros h _. simpl. unfold refs. rewrite <- insert_empty, msum_insert by apply lookup_empty.
    rewrite Hrm. unfold parents0, msum. rewrite map_fold_empty.
    destruct (decide (h = zeroHash)) as [->|Hne]; [by rewrite lookup_insert_eq|by rewrite lookup_insert_ne].
  - intros h n Hn Hz. by apply Hd in Hn as [-> _].
  - done.
  - intros h n Hn. by apply Hd in Hn as [-> _].
Qed.
End gc.

(** ** Example: a root that is inserted, referenced and dropped *)

#[local] Program Instance no_cache : CleanCache unit := {|
  cache_get _ _ := None; cache_set c _ _ := c |}.
Next Obligation. done. Qed.

#[local] Instance list_order : MapOrder.
Proof. refine {| map_order V m := (map_to_list m).*1 |}. done. Defined.

Definition sample_root : hash_t := replicate 32 5.
Definition sample_rank (h : hash_t) : nat :=
  if decide (h = zeroHash) then 2 else if decide (h = sample_root) then 1 else 0.
(** A collapsed leaf: its key is in compact form. *)
Definition sample_leaf : node := shortNode [32; 18] (valueNode [7]) newFlag.
Definition sample_db0 : Database unit := NewDatabaseWithCache (MkDisk ∅ []) None.
Definition sample_db1 : Database unit :=
  match db_insert sample_db0 sample_root 36 sample_leaf with Ok db => db | _ => sample_db0 end.
Definition sample_db2 : Database unit :=
  match reference sample_db1 sample_root zeroHash with Ok db => db | _ => sample_db0 end.

Lemma sample_insertable :
  insertable sample_rank sample_db0 sample_root sample_leaf (RShort [32; 18] (RValue [7])) [196; 130; 32; 18; 7].
Proof.
  split.
  - reflexivity.
  - vm_compute. reflexivity.
  - intros b Hb. simpl in Hb. by rewrite lookup_empty in Hb.
  - reflexivity.
  - vm_compute. lia.
  - by intros h ?%elem_of_nil.
  - intros h n Hn. unfold sample_db0 in Hn. simpl in Hn. apply lookup_singleton_Some in Hn as [_ <-].
    rewrite occ_not_elem by apply not_elem_of_nil. vm_compute. done.
Qed.

Lemma sample_sound0 : sound sample_rank sample_db0.
Proof. by apply new_sound. Qed.

Lemma sample_sound1 : sound sample_rank sample_db1.
Proof.
  destruct (db_insert_fresh sample_rank sample_db0 sample_root 36 sample_leaf _ _ sample_sound0 sample_insertable)
    as (db & Hrun & Hs & _); [done|]. unfold sample_db1. by rewrite Hrun.
Qed.

Lemma sample_referable : referable sample_rank sample_db1 sample_root zeroHash.
Proof.
  split; [vm_compute; lia|]. split; [by vm_compute; eexists|].
  split; intros n Hn; vm_compute in Hn; injection Hn as <-; reflexivity.
Qed.

Lemma sample_sound2 : sound sample_rank sample_db2.
Proof.
  destruct (reference_spec sample_rank sample_db1 sample_root zeroHash sample_sound1 sample_referable)
    as (db & Hrun & Hs & _). unfold sample_db2. by rewrite Hrun.
Qed.

(** Two roots that share the leaf. *)
Definition root_a : hash_t := replicate 32 6.
Definition root_b : hash_t := replicate 32 8.
Definition shared_rank (h : hash_t) : nat :=
  if decide (h = zeroHash) then 3 else if decide (h = root_a \/ h = root_b) then 2 else if decide (h = sample_root) then 1 else 0.
Definition ext_node (k : Z) : node := shortNode [k] (hashNode sample_root) newFlag.
Definition ext_blob (k : Z) : list Z := [226; k; 160] ++ sample_root.
Definition inserted (db : Database unit) (h : hash_t) (n : node) : Database unit :=
  match db_insert db h 36 n with Ok db => db | _ => db end.
Definition referenced (db : Database unit) (h : hash_t) : Database unit :=
  match reference db h zeroHash with Ok db => db | _ => db end.
Definition shared_db : Database unit :=
  referenced (referenced (inserted (inserted sample_db1 root_a (ext_node 17)) root_b (ext_node 18)) root_a) root_b.

Lemma inserted_sound db h n c blob :
  sound shared_rank db -> simplifyNode n = Ok c -> cached_rlp (CachedNode c 0 0 None zeroHash zeroHash) = Ok blob ->
  d_data (diskdb db) !! h = None -> zlen h = 32 -> (shared_rank h < shared_rank zeroHash)%nat ->
  Forall (fun x => shared_rank x < shared_rank h /\ is_Some (content db x))%nat (forGatherChildren c) ->
  map_Forall (fun x n => cn_parents n + occ x (forGatherChildren c) < 2 ^ 32) (dirties db) -> dirties db !! h = None ->
  sound shared_rank (inserted db h n).
Proof.
  intros Hs Hn Hb Hd Hl Ht Hr Hm Hh. unfold inserted.
  destruct (db_insert_fresh shared_rank db h 36 n c blob Hs) as (db' & -> & Hs' & _); [|done|done].
  split; try done; [congruence|]. intros x Hx. rewrite Forall_forall in Hr. by apply Hr.
Qed.

Lemma referenced_sound db h :
  sound shared_rank db -> (shared_rank h < shared_rank zeroHash)%nat -> is_Some (dirties db !! zeroHash) ->
  map_Forall (fun _ n => cn_parents n + 1 < 2 ^ 32 /\ ext n h + 1 < 2 ^ 16) (dirties db) -> sound shared_rank (referenced db h).
Proof.
  intros Hs Hr Hz Hm. unfold referenced. destruct (reference_spec shared_rank db h zeroHash Hs) as (db' & -> & Hs' & _); [|done].
  split; [done|]. split; [done|]. split; intros n Hn; by apply (Hm _ _ Hn).
Qed.

Ltac by_computation :=
  lazymatch goal with
  | |- _ = _ => vm_compute; reflexivity
  | _ => apply (bool_decide_unpack _); vm_compute; exact I
  end.

Lemma shared_sound : sound shared_rank shared_db.
Proof.
  assert (H1 : sound shared_rank sample_db1).
  { apply (inserted_sound sample_db0 sample_root sample_leaf (RShort [32; 18] (RValue [7])) [196; 130; 32; 18; 7]); [by apply new_sound|by_computation..]. }
  assert (H2 : sound shared_rank (inserted sample_db1 root_a (ext_node 17))).
  { apply (inserted_sound _ _ _ (RShort [17] (RHash sample_root)) (ext_blob 17)); [done|by_computation..]. }
  assert (H3 : sound shared_rank (inserted (inserted sample_db1 root_a (ext_node 17)) root_b (ext_node 18))).
  { apply (inserted_sound _ _ _ (RShort [18] (RHash sample_root)) (ext_blob 18)); [done|by_computation..]. }
  do 2 (apply referenced_sound; [|by_computation..]).
  done.
Qed.

(** One of two roots that share a leaf is dropped. *)
Lemma Dereference_safe_witness :
  exists db', Dereference 3 shared_db root_a = Ok db' /\ sound shared_rank db' /\ dirties db' !! root_a = None /\
    content db' root_b = Some (ext_blob 18) /\ content db' sample_root = Some [196; 130; 32; 18; 7].
Proof.
  destruct (Dereference_safe shared_rank 3 shared_db root_a) as (db' & Hrun & Hs & _ & Hgone & Hneed & _); [apply shared_sound|done| |vm_compute; lia|].
  { intros meta Hm. vm_compute in Hm. injection Hm as <-. reflexivity. }
  assert (Hb : needed shared_db root_a root_b).
  { eapply needed_root; [vm_compute; reflexivity|]. vm_compute. reflexivity. }
  assert (Hl : needed shared_db root_a sample_root).
  { eapply (needed_ref _ _ root_b); [done|vm_compute; reflexivity|vm_compute; reflexivity|]. vm_compute. reflexivity. }
  exists db'. split; [done|]. split; [done|]. split; [eapply Hgone; [vm_compute; reflexivity|vm_compute; discriminate]|].
  destruct (Hneed _ Hb) as (b & -> & Hc). destruct (Hneed _ Hl) as (l & -> & Hd).
  rewrite <- Hc, <- Hd. split; vm_compute; reflexivity.
Defined.

Lemma insert_sound_witness :
  (insertable sample_rank sample_db0 sample_root sample_leaf (RShort [32; 18] (RValue [7])) [196; 130; 32; 18; 7] /\
   exists db', db_insert sample_db0 sample_root 36 sample_leaf = Ok db' /\ sound sample_rank db') /\
  (referable sample_rank sample_db1 sample_root zeroHash /\
   exists db', reference sample_db1 sample_root zeroHash = Ok db' /\ sound sample_rank db').
Proof.
  split; (split; [apply sample_insertable || apply sample_referable|]).
  - destruct (insert_sound sample_rank sample_db0 sample_root 36 sample_leaf (RShort [32; 18] (RValue [7]))
      [196; 130; 32; 18; 7] sample_root zeroHash sample_sound0) as [H _].
    destruct (H sample_insertable) as (db & ? & ? & _). by exists db.
  - destruct (insert_sound sample_rank sample_db1 sample_root 36 sample_leaf RNil [] sample_root zeroHash sample_sound1) as [_ H].
    destruct (H sample_referable) as (db & ? & ? & _). by exists db.
Defined.
