(* ===== verification/TrieFlush.v ===== *)
(** * Flushing the trie database (src/trie/database.go)

    [Cap] and [Commit] move dirty nodes to disk in batches, any of which can
    fail.  The file shows that they keep the database sound and never change
    what it holds, whatever writes fail, and that a commit that succeeds
    leaves everything reachable from the root on disk. *)
From stdpp Require Import prelude list gmap.
From Stdlib Require Import ZArith Lia.
From S2P Require Import Prelude RlpEncode RlpRaw TrieEncoding Trie TrieNode TrieHash TrieDatabase TrieGC.

Section flush.
Context {C : Type} {CC : CleanCache C} {MO : MapOrder}.
Context (rank : hash_t -> nat).
Implicit Types (db : Database C).
Abbreviation disk db := (d_data (diskdb db)).

(** ** Batches *)

(** A write is a preimage or the blob of a node that the database holds. *)
Definition write_ok db (kv : list Z * list Z) : Prop :=
  (exists h, zlen h = 32 /\ kv.1 = preimageKey h /\ preimages db !! h = Some kv.2) \/
  (zlen kv.1 = 32 /\ kv.1 <> zeroHash /\ content db kv.1 = Some kv.2).

Lemma preimageKey_len h : zlen (preimageKey h) = 11 + zlen h.
Proof. unfold preimageKey. by rewrite zlen_app. Qed.

Lemma preimageKey_inj h h' : preimageKey h = preimageKey h' -> h = h'.
Proof. apply app_inv_head. Qed.

Lemma write_ok_node db k v :
  zlen k = 32 -> write_ok db (k, v) -> k <> zeroHash /\ content db k = Some v.
Proof. intros Hk [(h & Hh & He & _)|[_ ?]]; [|done]. simpl in *. subst k. rewrite preimageKey_len in Hk. lia. Qed.

Lemma write_ok_preimage db h v :
  zlen h = 32 -> write_ok db (preimageKey h, v) -> preimages db !! h = Some v.
Proof.
  intros Hh [(h' & _ & He & Hp)|(Hl & _)]; simpl in *; [by apply preimageKey_inj in He as ->|].
  rewrite preimageKey_len in Hl. lia.
Qed.

Abbreviation writes_ok db ws := (Forall (write_ok db) ws).

Lemma apply_writes_app m ws ws' : apply_writes m (ws ++ ws') = apply_writes (apply_writes m ws) ws'.
Proof. apply foldl_app. Qed.

(** The effect of the writes on a key. *)
Lemma apply_writes_cases m ws k :
  (exists v, (k, v) ∈ ws /\ apply_writes m ws !! k = Some v) \/
  ((forall v, (k, v) ∉ ws) /\ apply_writes m ws !! k = m !! k).
Proof.
  induction ws as [|[k' v'] ws IH] using rev_ind; [right; split; [intros v; apply not_elem_of_nil|done]|].
  rewrite apply_writes_app. simpl. destruct (decide (k = k')) as [<-|Hne].
  - left. exists v'. rewrite lookup_insert_eq. split; [|done]. rewrite elem_of_app. right. left.
  - rewrite lookup_insert_ne by done. destruct IH as [(v & Hin & Hv)|[Hn Hv]].
    + left. exists v. rewrite elem_of_app. by split; [left|].
    + right. split; [|done]. intros v. rewrite elem_of_app, list_elem_of_singleton. intros [?|[= ??]]; [by eapply Hn|done].
Qed.

Lemma apply_writes_mono m ws k : is_Some (m !! k) -> is_Some (apply_writes m ws !! k).
Proof. intros Hk. destruct (apply_writes_cases m ws k) as [(v & _ & ->)|[_ ->]]; eauto. Qed.

(** Writing keeps what the keys of nodes stand for. *)
Lemma apply_writes_node db ws h n :
  writes_ok db ws -> sound rank db -> dirties db !! h = Some n -> h <> zeroHash -> forall b,
  cached_rlp n = Ok b -> forall b', apply_writes (disk db) ws !! h = Some b' -> b' = b.
Proof.
  intros Hws Hs Hn Hz b Hb b' Hb'. destruct (apply_writes_cases (disk db) ws h) as [(v & Hin & Hv)|[_ Hv]].
  - rewrite Forall_forall in Hws. destruct (write_ok_node db h v) as [_ Hr]; [by eapply s_len|by apply Hws|].
    unfold content in Hr. rewrite Hn, Hb in Hr. congruence.
  - rewrite Hv in Hb'. destruct (s_blob _ _ Hs h n Hn Hz) as (b0 & Hb0 & Hsame). rewrite (Hsame b' Hb'). congruence.
Qed.

Lemma apply_writes_other db ws h :
  writes_ok db ws -> zlen h = 32 -> dirties db !! h = None -> apply_writes (disk db) ws !! h = disk db !! h.
Proof.
  intros Hws Hl Hn. destruct (apply_writes_cases (disk db) ws h) as [(v & Hin & Hv)|[_ Hv]]; [|done].
  rewrite Forall_forall in Hws. destruct (write_ok_node db h v) as [_ Hr]; [done|by apply Hws|].
  unfold content in Hr. rewrite Hn in Hr. congruence.
Qed.

(** What it means that a step keeps the database: it stays sound and holds
    the same. *)
Definition keeps db db' : Prop :=
  sound rank db' /\ forall h, zlen h = 32 ->
    (h <> zeroHash -> content db' h = content db h) /\ db_preimage db' h = db_preimage db h.

Lemma keeps_refl db : sound rank db -> keeps db db.
Proof. by split. Qed.
Lemma keeps_trans db db' db'' : keeps db db' -> keeps db' db'' -> keeps db db''.
Proof. intros [_ H1] [H2 H3]. split; [done|]. intros h Hl. destruct (H1 h Hl) as [H4 H4'], (H3 h Hl) as [H5 H5'].
  split; [|congruence]. intros Hz. by rewrite H5, H4. Qed.

Lemma write_keeps db ws f :
  sound rank db -> writes_ok db ws -> keeps db (set_disk db (MkDisk (apply_writes (disk db) ws) f)).
Proof.
  intros Hs Hws. split; [split; simpl|].
  - destruct (s_wf _ _ Hs). by split.
  - intros h Hh. apply (s_covered _ _ Hs). destruct (disk db !! h) eqn:Hd; [|done].
    destruct (apply_writes_mono (disk db) ws h); [eauto|congruence].
  - intros h n Hn Hz. destruct (s_blob _ _ Hs h n Hn Hz) as (b & Hb & _). exists b. split; [done|].
    by apply (apply_writes_node db ws h n).
  - intros h b Hl Hc. assert (Hd : disk db !! h = Some b) by (by apply (s_clean _ _ Hs)).
    destruct (dirties db !! h) as [n|] eqn:Hn; [|by rewrite apply_writes_other].
    destruct (apply_writes_mono (disk db) ws h) as [b' Hb']; [eauto|]. rewrite Hb'. f_equal.
    destruct (decide (h = zeroHash)) as [->|Hz].
    + destruct (apply_writes_cases (disk db) ws zeroHash) as [(v & Hin & _)|[_ Hv]]; [|congruence].
      rewrite Forall_forall in Hws. by destruct (write_ok_node db zeroHash v) as [? _]; [|apply Hws|].
    + destruct (s_blob _ _ Hs h n Hn Hz) as (b0 & Hb0 & Hsame). rewrite (Hsame b Hd).
      by apply (apply_writes_node db ws h n).
  - apply (s_len _ _ Hs).
  - intros h Hl. split.
    + intros Hz. unfold content. simpl. destruct (dirties db !! h) eqn:Hn; [done|]. by apply apply_writes_other.
    + unfold db_preimage. simpl. destruct (preimages db !! h) eqn:Hp; [done|].
      destruct (apply_writes_cases (disk db) ws (preimageKey h)) as [(v & Hin & _)|[_ ?]]; [|done].
      rewrite Forall_forall in Hws. rewrite (write_ok_preimage db h v) in Hp; [done..|by apply Hws].
Qed.

Lemma faults_keep db f : sound rank db -> keeps db (set_disk db (MkDisk (disk db) f)).
Proof. intros Hs. exact (write_keeps db [] f Hs (Forall_nil_2 _)). Qed.

(** A batch write that succeeds or fails. *)
Lemma batch_Write_keeps db batch ok d :
  sound rank db -> writes_ok db (b_writes batch) -> batch_Write (diskdb db) batch = (ok, d) ->
  keeps db (set_disk db d) /\
  (ok = true -> disk (set_disk db d) = apply_writes (disk db) (b_writes batch)).
Proof.
  intros Hs Hws. unfold batch_Write. destruct (d_faults (diskdb db)) as [|[] fs]; intros [= <- <-].
  - split; [by apply write_keeps|done].
  - split; [by apply faults_keep|done].
  - split; [by apply write_keeps|done].
Qed.

(** ** Cap *)

(** The disk once the batch is written. *)
Definition vdisk db (batch : Batch) : gmap (list Z) (list Z) := apply_writes (disk db) (b_writes batch).
Definition present db (batch : Batch) (h : hash_t) : Prop := is_Some (vdisk db batch !! h).

Lemma vdisk_put db batch k v : vdisk db (batch_Put batch k v) = <[k := v]> (vdisk db batch).
Proof. unfold vdisk. simpl. by rewrite apply_writes_app. Qed.

Lemma present_put db batch k v h :
  present db batch h \/ h = k -> present db (batch_Put batch k v) h.
Proof.
  unfold present. rewrite vdisk_put. intros [Hh| ->]; [|rewrite lookup_insert_eq; eauto].
  destruct (decide (h = k)) as [->|Hne]; [rewrite lookup_insert_eq|rewrite lookup_insert_ne]; eauto.
Qed.

(** A node joins the batch. *)
Lemma put_ok db batch h b :
  writes_ok db (b_writes batch) -> zlen h = 32 -> h <> zeroHash -> content db h = Some b ->
  writes_ok db (b_writes (batch_Put batch h b)).
Proof. intros Hws Hl Hz Hb. apply Forall_app. split; [done|]. apply Forall_singleton. by right. Qed.

(** A batch that is large enough is written; what is present stays so. *)
Definition flush_if (large : bool) db (batch : Batch) : bool * Database C * Batch :=
  if large then let '(ok, d) := batch_Write (diskdb db) batch in (ok, set_disk db d, NewBatch)
  else (true, db, batch).

Lemma flush_if_spec large db batch :
  sound rank db -> writes_ok db (b_writes batch) ->
  exists ok d batch', flush_if large db batch = (ok, set_disk db d, batch') /\ keeps db (set_disk db d) /\
    writes_ok (set_disk db d) (b_writes batch') /\
    (ok = true -> vdisk (set_disk db d) batch' = vdisk db batch).
Proof.
  intros Hs Hws. unfold flush_if. destruct large.
  - destruct (batch_Write (diskdb db) batch) as [ok d] eqn:Hw. exists ok, d, NewBatch.
    destruct (batch_Write_keeps db batch ok d Hs Hws Hw) as [Hk Hd]. split_and!; try done.
  - exists true, (diskdb db), batch. split; [by destruct db|].
    replace (set_disk db (diskdb db)) with db by (by destruct db). split_and!; [by apply keeps_refl|done|done].
Qed.

(** What a node counts for. *)
Definition cost (n : cachedNode) : Z :=
  32 + cn_size n + cachedNodeSize +
  match cn_children n with Some m => cachedNodeChildrenSize + Z.of_nat (base.size m) * (32 + 2) | None => 0 end.
Definition costs (m : gmap hash_t cachedNode) (l : list hash_t) : Z :=
  foldr (fun h a => match m !! h with Some n => cost n | None => 0 end + a) 0 l.

Definition collected db (batch0 : Batch) (size limit : Z) (l1 l2 : list hash_t) (r : option (hash_t * Batch)) (d : Disk)
    : Prop :=
  match r with
  | None => True
  | Some (old, batch) =>
      exists l3 l4, l2 = l3 ++ l4 /\ old = default zeroHash (head l4) /\
        (size - costs (dirties db) l3 <= limit \/ l4 = []) /\
        writes_ok (set_disk db d) (b_writes batch) /\ Forall (present (set_disk db d) batch) (l1 ++ l3) /\
        (forall k, zlen k <> 32 -> vdisk (set_disk db d) batch !! k = vdisk db batch0 !! k)
  end.

Lemma collected_cons db d0 batch0 batch1 size limit l1 h n l2 r d :
  dirties db !! h = Some n -> (forall k, zlen k <> 32 -> vdisk (set_disk db d0) batch1 !! k = vdisk db batch0 !! k) ->
  collected (set_disk db d0) batch1 (size - cost n) limit (l1 ++ [h]) l2 r d ->
  collected db batch0 size limit l1 (h :: l2) r d.
Proof.
  intros Hn Hv. destruct r as [[old batch]|]; [|done].
  intros (l3 & l4 & -> & -> & Hsz & Hws & Hp & Hv'). exists (h :: l3), l4. rewrite <- app_assoc in Hp. split_and!; try done.
  - simpl. rewrite Hn. simpl in Hsz. destruct Hsz; [left; lia|by right].
  - intros k Hk. by rewrite <- Hv, <- Hv'.
Qed.

Lemma cap_collect_spec fuel : forall db size limit l1 l2 batch,
  sound rank db -> list_is [] db (l1 ++ l2) -> writes_ok db (b_writes batch) -> (length l2 < fuel)%nat ->
  Forall (present db batch) l1 ->
  exists r d, cap_collect fuel db size limit (default zeroHash (head l2)) batch = Ok (r, set_disk db d) /\
    keeps db (set_disk db d) /\ collected db batch size limit l1 l2 r d.
Proof.
  induction fuel as [|fuel IH]; intros db size limit l1 l2 batch Hs Hl Hws Hf Hp; [lia|]. cbn [cap_collect].
  assert (Hstop : size <= limit \/ l2 = [] ->
            exists r d, Ok (Some (default zeroHash (head l2), batch), db) = (Ok (r, set_disk db d) : go _) /\
            keeps db (set_disk db d) /\ collected db batch size limit l1 l2 r d).
  { intros Hend. eexists _, (diskdb db). assert (Hid : set_disk db (diskdb db) = db) by (by destruct db).
    rewrite Hid. split; [reflexivity|]. split; [by apply keeps_refl|]. exists [], l2.
    rewrite Hid, app_nil_r. simpl. split_and!; try done. destruct Hend; [left; lia|by right]. }
  destruct (Z.gtb_spec size limit); [|by apply Hstop; left].
  destruct l2 as [|h l2]; [by apply Hstop; right|]. simpl head. simpl default.
  destruct (list_is_dom _ _ _ h Hl) as (Hz & n & Hn); [rewrite elem_of_app; right; left|].
  rewrite bool_decide_eq_true_2 by done. simpl andb. cbv iota. rewrite Hn.
  destruct (s_blob _ _ Hs h n Hn Hz) as (b & Hb & _). rewrite Hb. bind_simpl.
  change (if b_size (batch_Put batch h b) >=? IdealBatchSize then _ else _)
    with (flush_if (b_size (batch_Put batch h b) >=? IdealBatchSize) db (batch_Put batch h b)).
  destruct (flush_if_spec (b_size (batch_Put batch h b) >=? IdealBatchSize) db (batch_Put batch h b) Hs)
    as (ok & d & batch' & -> & Hk & Hws' & Hpres); [apply put_ok; [done|by eapply s_len|done|unfold content; by rewrite Hn, Hb]|].
  destruct ok; [|by exists None, d].
  specialize (Hpres eq_refl). destruct (linked_app (dirties db) None l1 h l2) as (n' & Hn' & Hnext & _); [apply Hl|].
  rewrite Hn in Hn'. injection Hn' as <-. rewrite Hnext.
  assert (Hsz : match cn_children n with
                | Some m => size - (32 + cn_size n + cachedNodeSize) - (cachedNodeChildrenSize + Z.of_nat (base.size m) * (32 + 2))
                | None => size - (32 + cn_size n + cachedNodeSize) end = size - cost n)
    by (unfold cost; destruct (cn_children n); lia). cbv zeta. rewrite Hsz.
  destruct (IH (set_disk db d) (size - cost n) limit (l1 ++ [h]) l2 batch')
    as (r & d' & Hrun & Hk' & Hc); [apply Hk|by rewrite <- app_assoc|done|simpl in Hf; lia| |].
  { unfold present. rewrite Hpres. apply Forall_app. split; [|apply Forall_singleton; by apply present_put; right].
    eapply Forall_impl; [done|]. intros x Hx. by apply present_put; left. }
  exists r, d'. split; [exact Hrun|]. split; [by eapply keeps_trans|]. eapply collected_cons; [done| |done].
  intros k Hk32. rewrite Hpres, vdisk_put. apply lookup_insert_ne. intros <-. apply Hk32. by eapply (s_len _ _ Hs).
Qed.

(** ** Dropping what is on disk *)

(** A dirty node that is on disk can go. *)
Lemma forget_keeps db db' h n :
  sound rank db -> dirties db !! h = Some n -> h <> zeroHash -> is_Some (disk db !! h) ->
  wf rank [] db' -> moved (base.delete h (dirties db)) (dirties db') ->
  disk db' = disk db -> preimages db' = preimages db ->
  (forall k b, zlen k = 32 -> get_clean db' k = Some b -> disk db !! k = Some b) -> keeps db db'.
Proof.
  intros Hs Hn Hz [b Hb] Hwf Hm Hd Hpr Hcl.
  assert (Hback : forall k x', dirties db' !! k = Some x' -> exists x, dirties db !! k = Some x /\ k <> h /\ near x x').
  { intros k x' Hx'. specialize (Hm k). rewrite Hx' in Hm. inversion Hm as [x ? Hnr Hx|]; subst.
    symmetry in Hx. apply lookup_delete_Some in Hx as [? ?]. eauto. }
  split; [split; try done|].
  - rewrite Hd. eapply moved_covered; [done|]. intros k Hk. pose proof (s_covered _ _ Hs k Hk) as Hc. simpl in *.
    assert (Hkh : k <> h) by (intros ->; congruence).
    unfold refs, parents0 in *. rewrite (msum_delete _ _ _ n) by done. rewrite lookup_delete_ne by done.
    pose proof (refs_of_nonneg n k (wf_nodes _ _ _ (s_wf _ _ Hs) h n Hn)). lia.
  - intros k x' Hx' Hkz. destruct (Hback k x' Hx') as (x & Hx & _ & Hnr).
    destruct (s_blob _ _ Hs k x Hx Hkz) as (bk & Hbk & Hsame). exists bk. rewrite Hd. split; [|done].
    rewrite <- Hbk. symmetry. apply cached_rlp_node, Hnr.
  - rewrite Hd. done.
  - intros k x' Hx'. destruct (Hback k x' Hx') as (x & Hx & _ & _). by eapply (s_len _ _ Hs).
  - intros k Hl. split; [|unfold db_preimage; by rewrite Hd, Hpr]. intros Hkz. unfold content. destruct (dirties db' !! k) as [x'|] eqn:Hx'.
    + destruct (Hback k x' Hx') as (x & Hx & _ & Hnr). rewrite Hx.
      by rewrite (cached_rlp_node x x') by apply Hnr.
    + rewrite Hd. destruct (decide (k = h)) as [->|Hkh].
      * rewrite Hn, Hb. destruct (s_blob _ _ Hs h n Hn Hz) as (b' & -> & Hsame). by rewrite (Hsame b Hb).
      * specialize (Hm k). rewrite Hx', lookup_delete_ne in Hm by done. inversion Hm. done.
Qed.

Lemma linked_None m p l : linked m p l -> linked m None l.
Proof. destruct l; [done|]. intros [(n & ? & ? & _) ?]. split; eauto. Qed.

(** The head of the flush list goes. *)
Definition tail_db db h n a b : Database C :=
  add_sizes (set_list (set_dirties db (base.delete h (dirties db))) (cn_next n) (newest db)) a b.

Lemma head_dropped db h n l a b :
  sound rank db -> list_is [] db (h :: l) -> dirties db !! h = Some n -> is_Some (disk db !! h) ->
  keeps db (tail_db db h n a b) /\ list_is [] (tail_db db h n a b) l.
Proof.
  intros Hs Hl Hn Hb.
  destruct (list_is_dom _ _ _ h Hl) as (Hz & _); [left|]. pose proof Hl as (Hnd & Hin & Ho & Hw & Hlk).
  apply NoDup_cons in Hnd as [Hhl Hnd].
  assert (Hl' : list_is [] (tail_db db h n a b) l).
  { destruct Hlk as [(n' & Hn' & Hnext & _) Hlk]. rewrite Hn in Hn'. injection Hn' as <-. split_and!; simpl; try done.
    - intros k. specialize (Hin k). rewrite elem_of_cons in Hin. destruct (decide (k = h)) as [->|Hne].
      + rewrite lookup_delete_eq. split; [done|]. intros [[? ?] _]. done.
      + rewrite lookup_delete_ne by done. rewrite <- Hin. tauto.
    - destruct l as [|y l]; [by left|right]. destruct Hw as [?|Hw]; [done|]. by rewrite last_cons_cons in Hw.
    - apply linked_None with (Some h). eapply linked_ext; [|done]. intros k x Hk Hx. exists x. split; [|done].
      rewrite lookup_delete_ne; [done|]. by intros ->. }
  split; [|done]. apply (forget_keeps db _ h n); try done.
  - destruct (s_wf _ _ Hs) as [(meta & Hm & Him) Hok Hr Ht _]. split; simpl.
    + exists meta. simpl. by rewrite lookup_delete_ne.
    + by apply map_Forall_delete.
    + intros p x c Hp. apply lookup_delete_Some in Hp as [_ Hp]. by eapply Hr.
    + intros p x Hp. apply lookup_delete_Some in Hp as [_ Hp]. by eapply Ht.
    + by exists l.
  - intros k bk Hk Hc. by apply (s_clean _ _ Hs).
Qed.

(** The memory that the dirty nodes take, as [Size] reports it. *)
Definition metarefs db : Z := Z.of_nat (base.size (default ∅ (dirties db !! zeroHash ≫= cn_children))).
Definition total db : Z :=
  dirtiesSize db + childrenSize db + (Z.of_nat (base.size (dirties db)) - 1) * cachedNodeSize - metarefs db * (32 + 2).

Lemma total_tail db h n :
  dirties db !! h = Some n -> h <> zeroHash ->
  total (tail_db db h n (- (32 + cn_size n))
    (match cn_children n with
     | Some m => - (cachedNodeChildrenSize + Z.of_nat (base.size m) * (32 + 2)) | None => 0 end)) = total db - cost n.
Proof.
  intros Hn Hz. unfold total, metarefs, cost, cachedNodeSize. simpl. rewrite lookup_delete_ne by done.
  rewrite (map_size_delete_Some h (dirties db)) by eauto.
  assert (0 < base.size (dirties db))%nat.
  { destruct (base.size (dirties db)) eqn:E; [|lia]. apply map_size_empty_iff in E. rewrite E in Hn. done. }
  destruct (cn_children n); lia.
Qed.

Lemma costs_delete m h l : h ∉ l -> costs (base.delete h m) l = costs m l.
Proof.
  induction l as [|x l IH]; [done|]. rewrite elem_of_cons. intros Hh. simpl.
  rewrite lookup_delete_ne, IH; [done|tauto|]. intros ->. tauto.
Qed.

Lemma cap_drop_spec fuel : forall db l1 l2,
  sound rank db -> list_is [] db (l1 ++ l2) -> Forall (fun h => is_Some (disk db !! h)) l1 -> (length l1 < fuel)%nat ->
  exists db', cap_drop fuel db (default zeroHash (head l2)) = Ok db' /\ keeps db db' /\ list_is [] db' l2 /\
    total db' = total db - costs (dirties db) l1.
Proof.
  induction fuel as [|fuel IH]; intros db l1 l2 Hs Hl Hp Hf; [lia|]. cbn [cap_drop].
  pose proof Hl as (Hnd & Hin & Ho & _). destruct l1 as [|h l1].
  { rewrite decide_True by done. exists db. split_and!; [done|by apply keeps_refl|done|simpl; lia]. }
  simpl in Ho. rewrite Ho. inversion_clear Hp as [|? ? Hh Hp1].
  destruct (list_is_dom _ _ _ h Hl) as (Hz & n & Hn); [left|]. simpl in Hnd. apply NoDup_cons in Hnd as [Hnd _].
  rewrite elem_of_app in Hnd. rewrite decide_False.
  2: { destruct l2 as [|y l2]; [done|]. simpl. intros ->. apply Hnd. right. left. }
  rewrite Hn. cbv zeta. pose proof (total_tail db h n Hn Hz) as Ht.
  destruct (head_dropped db h n (l1 ++ l2) (- (32 + cn_size n))
    (match cn_children n with
     | Some m => - (cachedNodeChildrenSize + Z.of_nat (base.size m) * (32 + 2)) | None => 0 end) Hs Hl Hn Hh) as [Hk Hl'].
  destruct (IH _ l1 l2 (proj1 Hk) Hl') as (db' & Hrun & Hk' & Hl2 & Htot); [done|simpl in Hf; lia|].
  exists db'. split_and!; [exact Hrun|by eapply keeps_trans|done|]. rewrite Htot, Ht. simpl. rewrite Hn.
  rewrite costs_delete by tauto. lia.
Qed.

(** ** Preimages *)

(** The keys of the preimages are hashes. *)
Definition typed db : Prop := forall h p, preimages db !! h = Some p -> zlen h = 32.

Abbreviation preimage_batch db := (WritePreimages NewBatch (preimage_list db)).

Lemma elem_of_map {A B} (f : A -> B) l y : y ∈ map f l <-> exists x, y = f x /\ x ∈ l.
Proof. apply (list_elem_of_fmap f l y). Qed.

Lemma WritePreimages_writes b l :
  b_writes (WritePreimages b l) = b_writes b ++ map (fun hp => (preimageKey hp.1, hp.2)) l.
Proof.
  revert b. induction l as [|[h p] l IH]; intros b; simpl; [by rewrite app_nil_r|].
  unfold WritePreimages in *. simpl. rewrite IH. simpl. by rewrite <- app_assoc.
Qed.

Lemma preimage_list_elem db h p : (h, p) ∈ preimage_list db <-> preimages db !! h = Some p.
Proof.
  unfold preimage_list. rewrite elem_of_map. split.
  - intros (k & [= -> ->] & Hk). apply map_order_elem in Hk as [q Hq]. by rewrite Hq.
  - intros Hp. exists h. rewrite Hp. split; [done|]. apply map_order_elem. eauto.
Qed.

Lemma preimage_writes_elem db k v :
  (k, v) ∈ b_writes (preimage_batch db) <-> exists h, k = preimageKey h /\ preimages db !! h = Some v.
Proof.
  rewrite WritePreimages_writes. simpl app. rewrite elem_of_map. split.
  - intros ([h p] & [= -> ->] & Hin). exists h. split; [done|]. by apply preimage_list_elem.
  - intros (h & -> & Hp). exists (h, v). split; [done|]. by apply preimage_list_elem.
Qed.

Lemma preimage_writes_ok db : typed db -> writes_ok db (b_writes (preimage_batch db)).
Proof.
  intros Ht. apply Forall_forall. intros [k v] Hin. apply preimage_writes_elem in Hin as (h & -> & Hp).
  left. exists h. split; [by eapply Ht|done].
Qed.

(** The preimages are on disk, once the batch is written. *)
Definition archived db (batch : Batch) : Prop :=
  forall h p, preimages db !! h = Some p -> vdisk db batch !! preimageKey h = Some p.

Lemma preimage_archived db : archived db (preimage_batch db).
Proof.
  intros h p Hp. destruct (apply_writes_cases (disk db) (b_writes (preimage_batch db)) (preimageKey h)) as [(v & Hin & Hv)|[Hn _]].
  - apply preimage_writes_elem in Hin as (h' & He & Hp'). apply preimageKey_inj in He as <-. unfold vdisk. congruence.
  - destruct (Hn p). apply preimage_writes_elem. eauto.
Qed.

Lemma clear_preimages db : sound rank db -> archived db NewBatch -> keeps db (set_preimages db ∅ 0).
Proof.
  intros [] Ha. split; [split; simpl; try done; by destruct s_wf|]. intros h Hl. split; [done|].
  unfold db_preimage. simpl. rewrite lookup_empty. destruct (preimages db !! h) as [p|] eqn:Hp; [|done].
  by apply (Ha h p).
Qed.

(** The preimages go first, at the start of a flush. *)
Lemma flush_preimages (first : bool) db :
  sound rank db -> typed db ->
  exists ok d batch,
    (if first then flush_if (b_size (preimage_batch db) >? IdealBatchSize) db (preimage_batch db)
     else (true, db, NewBatch)) = (ok, set_disk db d, batch) /\
    keeps db (set_disk db d) /\ writes_ok (set_disk db d) (b_writes batch) /\
    (ok = true -> first = true -> archived (set_disk db d) batch).
Proof.
  intros Hs Ht. destruct first.
  - destruct (flush_if_spec (b_size (preimage_batch db) >? IdealBatchSize) db (preimage_batch db) Hs)
      as (ok & d & batch & -> & Hk & Hws & Hv); [by apply preimage_writes_ok|].
    exists ok, d, batch. split_and!; try done. intros Hok _ h p Hp. rewrite Hv by done. by apply preimage_archived.
  - exists true, (diskdb db), NewBatch. assert (Hid : set_disk db (diskdb db) = db) by (by destruct db).
    rewrite Hid. split_and!; [done|by apply keeps_refl|by apply Forall_nil|done].
Qed.

Lemma list_is_size db l : list_is [] db l -> has_meta db -> (length l < base.size (dirties db))%nat.
Proof.
  intros (Hnd & Hin & _) (meta & Hm & _).
  assert (Hsub : (list_to_set l : gset hash_t) ⊂ dom (dirties db)).
  { split.
    - intros x. rewrite elem_of_list_to_set, elem_of_dom. intros Hx. by apply Hin.
    - intros Hsup. specialize (Hsup zeroHash). rewrite elem_of_list_to_set, elem_of_dom, Hin in Hsup.
      destruct Hsup as (_ & ? & _); eauto. }
  apply subset_size in Hsub. rewrite size_list_to_set, size_dom in Hsub by done. done.
Qed.

(** Moving nodes in the flush list keeps the database. *)
Lemma moved_keeps db m o w :
  sound rank db -> moved (dirties db) m -> flush_list [] (set_list (set_dirties db m) o w) ->
  keeps db (set_list (set_dirties db m) o w).
Proof.
  intros Hs Hm Hl.
  assert (Hb : forall h n', m !! h = Some n' -> exists n, dirties db !! h = Some n /\ cn_node n' = cn_node n).
  { intros h n' Hn'. destruct (moved_Some m (dirties db) h n') as (n & ? & ?); [by symmetry|done|].
    exists n. split; [done|]. apply H0. }
  split.
  - apply (sound_refs rank db); try done; [by apply wf_moved with [], Hl; [apply Hs|]|].
    simpl. eapply moved_covered; [done|apply Hs].
  - intros h Hh. split; [|done]. intros _. by apply content_moved.
Qed.

(** The last step of [Cap]: the first node that stays has no predecessor. *)
Lemma reset_prev db l :
  sound rank db -> list_is [] db l ->
  exists db', (if decide (oldest db = zeroHash) then Ok db
               else with_dirty db (oldest db) (fun n => set_prev n zeroHash)) = (Ok db' : go _) /\
    keeps db db' /\ total db' = total db /\ list_is [] db' l.
Proof.
  intros Hs Hl. pose proof Hl as (Hnd & Hin & Ho & Hw & Hlk). destruct (decide (oldest db = zeroHash)) as [Hz|Hz].
  { exists db. split_and!; [done|by apply keeps_refl|done..]. }
  destruct l as [|h l]; [done|]. simpl in Ho. destruct (list_is_dom _ _ _ h Hl) as (_ & n & Hn); [left|].
  rewrite Ho in *. rewrite (with_dirty_Ok _ _ _ n) by done. eexists. split; [done|].
  assert (Hl' : list_is [] (set_dirties db (<[h := set_prev n zeroHash]> (dirties db))) (h :: l)).
  { split; [done|]. split; [|split; [done|split; [done|]]]; simpl.
    - intros k. rewrite lookup_insert_is_Some', Hin. split; [naive_solver|].
      intros ([<-|?] & ? & ?); split_and!; eauto.
    - destruct Hlk as [(n' & Hn' & Hnx & _) Hlk]. rewrite Hn in Hn'. injection Hn' as <-. split.
      + exists (set_prev n zeroHash). by rewrite lookup_insert_eq.
      + apply linked_insert; [apply NoDup_cons in Hnd; apply Hnd|done]. }
  split_and!; [|unfold total, metarefs; simpl; rewrite lookup_insert_ne by done; by rewrite map_size_insert_Some by eauto|done].
  apply (moved_keeps db _ (oldest db) (newest db)); [done| |by exists (h :: l)]. by eapply moved_insert.
Qed.

Lemma Cap_spec db limit :
  sound rank db -> typed db -> exists ok db', Cap db limit = Ok (ok, db') /\ keeps db db' /\
    (ok = true -> total db' <= limit \/ forall h, h <> zeroHash -> dirties db' !! h = None).
Proof.
  intros Hs Ht. destruct (wf_meta _ _ _ (s_wf _ _ Hs)) as (meta & Hm & Him). unfold Cap. rewrite Hm. cbv zeta.
  set (first := preimagesSize db >? 4 * 1024 * 1024).
  set (sz := dirtiesSize db + _ + _).
  assert (Hsz : sz = total db) by (unfold sz, total, metarefs; rewrite Hm; simpl; lia). clearbody sz. subst sz.
  destruct (flush_preimages first db Hs Ht) as (ok & d & batch & Hfl & Hk & Hws & Har). unfold flush_if in Hfl.
  rewrite Hfl. clear Hfl. destruct ok; simpl negb; cbv iota; [|by eexists _, _].
  destruct (wf_list _ _ _ (s_wf _ _ (proj1 Hk))) as (l & Hl). pose proof Hl as (_ & _ & Ho & _). rewrite Ho.
  assert (Hlen : (length l < base.size (dirties db))%nat) by (by apply (list_is_size (set_disk db d)); [|exists meta]).
  destruct (cap_collect_spec (S (base.size (dirties db))) (set_disk db d) (total db) limit [] l batch)
    as (r & d1 & -> & Hk1 & Hc); [apply Hk|done|done|lia|by apply Forall_nil|]. bind_simpl.
  pose proof (keeps_trans _ _ _ Hk Hk1) as Hk01. destruct r as [[old batch1]|]; [|by eexists _, _].
  destruct Hc as (l3 & l4 & -> & -> & Hend & Hws1 & Hp1 & Hv1).
  set (db1 := set_disk (set_disk db d) d1) in *.
  destruct (batch_Write (diskdb db1) batch1) as [ok d2] eqn:Hw.
  destruct (batch_Write_keeps db1 batch1 ok d2 (proj1 Hk1) Hws1 Hw) as [Hk2 Hd2].
  pose proof (keeps_trans _ _ _ Hk01 Hk2) as Hk02. destruct ok; simpl negb; cbv iota; [|by eexists _, _].
  specialize (Hd2 eq_refl). set (db2 := set_disk db1 d2) in *.
  set (db3 := if first then set_preimages db2 ∅ 0 else db2).
  assert (Hk3 : keeps db2 db3).
  { unfold db3. destruct first; [|apply keeps_refl, Hk2]. apply clear_preimages; [apply Hk2|].
    intros h p Hp. unfold vdisk. simpl. change (disk db2 !! preimageKey h = Some p). rewrite Hd2.
    etransitivity; [apply Hv1; rewrite preimageKey_len, (Ht h p) by done; done|]. by apply Har. }
  assert (H3 : list_is [] db3 (l3 ++ l4) /\ disk db3 = vdisk db1 batch1 /\ total db3 = total db /\ dirties db3 = dirties db)
    by (unfold db3; destruct first; done).
  destruct H3 as (Hl3 & Hd3 & Ht3 & Hdir3).
  destruct (cap_drop_spec (S (base.size (dirties db))) db3 l3 l4) as (db4 & -> & Hk4 & Hl4 & Ht4); [apply Hk3|done| | |].
  { rewrite Hd3. exact Hp1. }
  { rewrite length_app in Hlen. lia. }
  bind_simpl. destruct (reset_prev db4 l4 (proj1 Hk4) Hl4) as (db5 & -> & Hk5 & Ht5 & Hl5). bind_simpl.
  exists true, db5. split; [done|]. split; [exact (keeps_trans _ _ _ Hk02 (keeps_trans _ _ _ Hk3 (keeps_trans _ _ _ Hk4 Hk5)))|]. intros _.
  rewrite Ht5, Ht4, Ht3, Hdir3. destruct Hend as [?| ->]; [by left|right]. intros h Hz.
  destruct (dirties db5 !! h) eqn:Hh; [|done]. destruct Hl5 as (_ & Hin & _). 
  assert (Hbad : h ∈ []) by (apply Hin; split_and!; [eauto|done|apply not_elem_of_nil]). by apply elem_of_nil in Hbad.
Qed.

(** ** Commit *)

Lemma wf_same X db db' :
  dirties db' = dirties db -> oldest db' = oldest db -> newest db' = newest db -> wf rank X db -> wf rank X db'.
Proof.
  intros Hd Ho Hw [Hm Hok Hr Ht (l & Hl)]. split; [| | | |exists l; revert Hl]; unfold has_meta, list_is;
    by rewrite ?Hd, ?Ho, ?Hw.
Qed.

(** A node on disk, unlinked, deleted and put in the clean cache. *)
Lemma cleaned_keeps db db' k n v m o w :
  sound rank db -> zlen k = 32 -> k <> zeroHash -> disk db !! k = Some v -> dirties db !! k = Some n ->
  moved (dirties db) m -> flush_list [k] (set_list (set_dirties db m) o w) ->
  diskdb db' = diskdb db -> preimages db' = preimages db -> dirties db' = base.delete k m ->
  oldest db' = o -> newest db' = w -> cleans db' = cleans (set_clean db k v) ->
  keeps db db' /\ moved (base.delete k (dirties db)) (dirties db').
Proof.
  intros Hs Hl Hz Hd Hn Hm Hfl H1 H2 H3 H4 H5 H6.
  assert (Hmv : moved (base.delete k (dirties db)) (dirties db')).
  { rewrite H3. intros h. destruct (decide (h = k)) as [->|Hne]; [rewrite !lookup_delete_eq; constructor|].
    rewrite !lookup_delete_ne by done. apply Hm. }
  split; [|done]. apply (forget_keeps db db' k n); try done; rewrite ?H1; eauto.
  - apply (wf_same [] (set_dirties (set_list (set_dirties db m) o w) (base.delete k m))); try done.
    assert (Hwf : wf rank [k] (set_list (set_dirties db m) o w)) by (apply wf_moved with []; [apply Hs|done..]).
    eapply wf_delete; [|done|apply not_elem_of_nil|exact Hwf]. done.
  - unfold get_clean. rewrite H6. simpl. intros h b' Hh Hg. pose proof (s_clean _ _ Hs h b' Hh) as Hc.
    unfold get_clean in Hc. destruct (cleans db) as [cc|]; [|done].
    apply cache_get_set in Hg as [[-> ->]|Hg]; [done|by apply Hc].
Qed.

(** The cleaner takes a node that is on disk out of the dirty nodes. *)
Lemma cleaner_Put_spec db k v :
  sound rank db -> zlen k = 32 -> k <> zeroHash -> disk db !! k = Some v ->
  exists db', cleaner_Put db k v = Ok db' /\ keeps db db' /\ diskdb db' = diskdb db /\ preimages db' = preimages db /\
    moved (base.delete k (dirties db)) (dirties db').
Proof.
  intros Hs Hl Hz Hd. unfold cleaner_Put. rewrite BytesToHash_id by done.
  destruct (dirties db !! k) as [n|] eqn:Hn.
  2: { exists db. split_and!; [done|by apply keeps_refl|done..|]. by rewrite delete_id. }
  destruct (unlink_spec [] db k n n) as (m & o & w & -> & Hfl & Hm); [apply Hs..|done|done|done|apply not_elem_of_nil|].
  bind_simpl. cbv zeta. eexists. split; [done|].
  match goal with |- keeps db ?x /\ _ => set (db' := x) end.
  destruct (cleaned_keeps db db' k n v m o w) as [? ?]; try done; unfold db'; by destruct (cn_children n).
Qed.

(** The dirty nodes are some of those of [m]. *)
Definition shrunk (m m' : gmap hash_t cachedNode) : Prop :=
  forall k n', m' !! k = Some n' -> exists n, m !! k = Some n /\ near n n'.

Lemma shrunk_refl m : shrunk m m.
Proof. intros k n Hn. by exists n. Qed.
Lemma shrunk_trans m m1 m2 : shrunk m m1 -> shrunk m1 m2 -> shrunk m m2.
Proof.
  intros H1 H2 k n' Hn'. destruct (H2 k n' Hn') as (n1 & Hn1 & ?). destruct (H1 k n1 Hn1) as (n & Hn & ?).
  exists n. split; [done|]. by transitivity n1.
Qed.
Lemma shrunk_delete m m' k :
  moved (base.delete k m) m' -> shrunk m m' /\ forall h, m' !! h = None <-> m !! h = None \/ h = k.
Proof.
  intros Hm. split.
  - intros h n' Hn'. destruct (moved_Some m' (base.delete k m) h n') as (n & Hn & ?); [by symmetry|done|].
    apply lookup_delete_Some in Hn as [_ Hn]. exists n. split; [done|by symmetry].
  - intros h. specialize (Hm h). destruct (decide (h = k)) as [->|Hne].
    + rewrite lookup_delete_eq in Hm. inversion Hm. split; [by right|done].
    + rewrite lookup_delete_ne in Hm by done. inversion Hm; split; try done; [by intros [?|?]|by left].
Qed.

(** Writes of nodes that the disk has. *)
Definition landed db (kv : list Z * list Z) : Prop :=
  zlen kv.1 = 32 /\ kv.1 <> zeroHash /\ disk db !! kv.1 = Some kv.2.

Lemma Replay_spec ws : forall db,
  sound rank db -> Forall (landed db) ws ->
  exists db', Replay db ws = Ok db' /\ keeps db db' /\ diskdb db' = diskdb db /\ preimages db' = preimages db /\
    shrunk (dirties db) (dirties db') /\ forall h, dirties db' !! h = None <-> dirties db !! h = None \/ h ∈ ws.*1.
Proof.
  induction ws as [|[k v] ws IH]; intros db Hs Hws.
  { exists db. split_and!; [done|by apply keeps_refl|done|done|apply shrunk_refl|]. intros h. split; [by left|].
    intros [?|?%elem_of_nil]; done. }
  inversion_clear Hws as [|? ? (Hl & Hz & Hd) Hws']. simpl in *.
  destruct (cleaner_Put_spec db k v Hs Hl Hz Hd) as (db1 & -> & Hk1 & Hd1 & Hp1 & Hm1). bind_simpl.
  apply shrunk_delete in Hm1 as [Hsh1 Hn1].
  destruct (IH db1 (proj1 Hk1)) as (db2 & -> & Hk2 & Hd2 & Hp2 & Hsh2 & Hn2); [unfold landed; by rewrite Hd1|].
  exists db2. split_and!; [done|by eapply keeps_trans|congruence|congruence|by eapply shrunk_trans|].
  intros h. simpl. rewrite Hn2, Hn1, elem_of_cons. tauto.
Qed.

(** The preimages, in memory and on disk, are the same. *)
Definition same_archive db db' : Prop :=
  preimages db' = preimages db /\ forall k, zlen k <> 32 -> disk db' !! k = disk db !! k.

Lemma same_archive_refl db : same_archive db db.
Proof. done. Qed.
Lemma same_archive_trans db db' db'' : same_archive db db' -> same_archive db' db'' -> same_archive db db''.
Proof. intros [? H1] [? H2]. split; [congruence|]. intros k Hk. by rewrite H2, H1. Qed.

(** What is reachable from a node among the nodes [m]. *)
Inductive reaches (m : gmap hash_t cachedNode) : hash_t -> hash_t -> Prop :=
| reaches_refl h : reaches m h h
| reaches_step h n x k : m !! h = Some n -> x ∈ forChilds n -> reaches m x k -> reaches m h k.

Section commit.
Context (m0 : gmap hash_t cachedNode).

(** A node is settled when it has been written, or is about to be. *)
Definition settled db (batch : Batch) (h : hash_t) : Prop :=
  dirties db !! h = None \/ h ∈ (b_writes batch).*1.
Definition closed db (batch : Batch) (k : hash_t) : Prop :=
  forall h, reaches m0 k h -> is_Some (m0 !! h) -> settled db batch h.

Definition node_write db (kv : list Z * list Z) : Prop :=
  zlen kv.1 = 32 /\ kv.1 <> zeroHash /\ content db kv.1 = Some kv.2.

(** The invariant of a commit that began with the dirty nodes [m0]: what is
    settled is so with all that is below it. *)
Record committing db (batch : Batch) : Prop := {
  c_sound : sound rank db;
  c_writes : Forall (node_write db) (b_writes batch);
  c_shrunk : shrunk m0 (dirties db);
  c_closed k : is_Some (m0 !! k) -> settled db batch k -> closed db batch k;
}.

Lemma node_writes_ok db ws : Forall (node_write db) ws -> writes_ok db ws.
Proof. intros Hws. eapply Forall_impl; [exact Hws|]. intros kv Hkv. by right. Qed.

Lemma node_writes_keep db db' ws : keeps db db' -> Forall (node_write db) ws -> Forall (node_write db') ws.
Proof.
  intros [_ Hk] Hws. eapply Forall_impl; [exact Hws|]. intros kv (Hl & Hz & Hc). split_and!; try done.
  by rewrite (proj1 (Hk _ Hl) Hz).
Qed.

(** A batch of nodes on its way to the disk. *)
Lemma flush_nodes db batch ok d :
  sound rank db -> Forall (node_write db) (b_writes batch) -> batch_Write (diskdb db) batch = (ok, d) ->
  keeps db (set_disk db d) /\ same_archive db (set_disk db d) /\
  (ok = true -> exists db', Replay (set_disk db d) (b_writes batch) = Ok db' /\ keeps db db' /\
     same_archive db db' /\ shrunk (dirties db) (dirties db') /\
     forall h, dirties db' !! h = None <-> settled db batch h).
Proof.
  intros Hs Hws Hw. destruct (batch_Write_keeps db batch ok d Hs (node_writes_ok _ _ Hws) Hw) as [Hk Hd].
  assert (Ha : same_archive db (set_disk db d)).
  { split; [done|]. intros k Hk32. simpl. unfold batch_Write in Hw.
    assert (Hsame : apply_writes (disk db) (b_writes batch) !! k = disk db !! k).
    { destruct (apply_writes_cases (disk db) (b_writes batch) k) as [(v & Hin & _)|[_ ?]]; [|done].
      rewrite Forall_forall in Hws. by destruct (Hws _ Hin). }
    destruct (d_faults (diskdb db)) as [|[] fs]; injection Hw as <- <-; done. }
  split; [done|]. split; [done|]. intros ->. specialize (Hd eq_refl).
  destruct (Replay_spec (b_writes batch) (set_disk db d) (proj1 Hk)) as (db' & -> & Hk' & Hd' & Hp' & Hsh & Hn).
  { apply Forall_forall. intros [k v] Hin. rewrite Forall_forall in Hws. destruct (Hws _ Hin) as (Hl & Hz & Hc).
    split_and!; try done. change (disk (set_disk db d) !! k = Some v). rewrite Hd.
    destruct (apply_writes_cases (disk db) (b_writes batch) k) as [(v' & Hin' & ->)|[Hno _]]; [|by destruct (Hno v)].
    destruct (Hws _ Hin') as (_ & _ & Hc'). simpl in *. congruence. }
  exists db'. split_and!; try done; [by eapply keeps_trans|]. apply (same_archive_trans _ _ _ Ha). by split; [|rewrite Hd'].
Qed.

Definition grows db batch db' batch' : Prop := forall h, settled db batch h -> settled db' batch' h.

Lemma closed_grows db batch db' batch' k : grows db batch db' batch' -> closed db batch k -> closed db' batch' k.
Proof. intros Hg Hc h Hr Hh. by apply Hg, Hc. Qed.

(** The batch has been written and its nodes are gone. *)
Lemma committing_flushed db batch db' :
  committing db batch -> keeps db db' -> shrunk (dirties db) (dirties db') ->
  (forall h, dirties db' !! h = None <-> settled db batch h) ->
  committing db' NewBatch /\ grows db batch db' NewBatch.
Proof.
  intros [Hs Hws Hsh Hcl] Hk Hsh' Hn.
  assert (Hg : grows db batch db' NewBatch) by (intros h Hh; left; by apply Hn).
  split; [|done]. split; [apply Hk|by apply Forall_nil|by eapply shrunk_trans|].
  intros k Hk0 [Hset|Hbad]; [|by apply elem_of_nil in Hbad]. apply Hn in Hset.
  eapply closed_grows; [exact Hg|]. by apply Hcl.
Qed.

(** A node joins the batch after all that it refers to. *)
Lemma committing_put db batch h n b :
  committing db batch -> m0 !! h = Some n -> zlen h = 32 -> h <> zeroHash -> content db h = Some b ->
  (forall x, x ∈ forChilds n -> closed db batch x) ->
  committing db (batch_Put batch h b) /\ grows db batch db (batch_Put batch h b) /\ closed db (batch_Put batch h b) h.
Proof.
  intros [Hs Hws Hsh Hcl] Hn Hl Hz Hb Hch.
  assert (Hg : grows db batch db (batch_Put batch h b)).
  { intros k [?|?]; [by left|right]. simpl. rewrite fmap_app, elem_of_app. by left. }
  assert (Hself : settled db (batch_Put batch h b) h).
  { right. simpl. rewrite fmap_app, elem_of_app. right. left. }
  assert (Hclosed : closed db (batch_Put batch h b) h).
  { intros k Hr Hk. inversion Hr as [|? n' x ? Hn' Hx Hr']; subst; [done|]. rewrite Hn in Hn'. injection Hn' as <-.
    eapply closed_grows; [exact Hg|by apply Hch|done..]. }
  split_and!; try done. split; try done.
  - apply Forall_app. split; [done|]. by apply Forall_singleton.
  - intros k Hk Hset. destruct (decide (k = h)) as [->|Hne]; [done|]. eapply closed_grows; [exact Hg|].
    apply Hcl; [done|]. destruct Hset as [?|Hin]; [by left|right]. simpl in Hin.
    rewrite fmap_app, elem_of_app in Hin. destruct Hin as [?|Hin]; [done|]. by apply list_elem_of_singleton in Hin.
Qed.

(** What a call of [commit] promises. *)
Definition commits db batch (r : go (bool * Database C * Batch)) (h : hash_t) : Prop :=
  exists ok db' batch', r = Ok (ok, db', batch') /\ keeps db db' /\ same_archive db db' /\
    (ok = true -> committing db' batch' /\ grows db batch db' batch' /\ closed db' batch' h).

Lemma visit_commits (f : Database C -> Batch -> hash_t -> go (bool * Database C * Batch)) (l : list hash_t) :
  (forall h db batch, h ∈ l -> committing db batch -> commits db batch (f db batch h) h) -> forall db batch,
  committing db batch ->
  exists ok db' batch',
    visit (fun '(ok, db, batch) h => if (ok : bool) then f db batch h else Ok (ok, db, batch)) l (true, db, batch)
      = Ok (ok, db', batch') /\ keeps db db' /\ same_archive db db' /\
    (ok = true -> committing db' batch' /\ grows db batch db' batch' /\ forall h, h ∈ l -> closed db' batch' h).
Proof.
  induction l as [|x l IH]; intros Hf db batch Hc.
  { exists true, db, batch. split_and!; [done|apply keeps_refl, Hc|done|]. intros _. split_and!; [done|by intros ?|].
    intros h ?%elem_of_nil. done. }
  cbn [visit]. destruct (Hf x db batch) as (ok & db1 & batch1 & -> & Hk1 & Hp1 & Hok1); [left|done|]. bind_simpl.
  destruct ok.
  - destruct (Hok1 eq_refl) as (Hc1 & Hg1 & Hx1).
    destruct (IH (fun h db batch Hh => Hf h db batch (proj2 (elem_of_cons _ _ _) (or_intror Hh))) db1 batch1 Hc1)
      as (ok & db2 & batch2 & -> & Hk2 & Hp2 & Hok2).
    exists ok, db2, batch2. split_and!; [done|by eapply keeps_trans|by eapply same_archive_trans|]. intros Hok.
    destruct (Hok2 Hok) as (Hc2 & Hg2 & Hx2). split_and!; [done|intros h Hh; by apply Hg2, Hg1|].
    intros h [->|Hh]%elem_of_cons; [by eapply closed_grows|by apply Hx2].
  - exists false, db1, batch1. split_and!; try done. clear. induction l; [done|]. cbn [visit]. by bind_simpl.
Qed.
End commit.

Lemma near_forChilds n n' : near n n' -> forChilds n = forChilds n'.
Proof. intros (He & _ & _ & Hc). unfold forChilds. by rewrite He, Hc. Qed.

Lemma child_below db p n x :
  sound rank db -> dirties db !! p = Some n -> x ∈ forChilds n -> (rank x < rank p)%nat /\ x <> zeroHash.
Proof.
  intros Hs Hp Hx. pose proof (s_wf _ _ Hs) as Hwf.
  assert (Hr : (rank x < rank p)%nat).
  { apply (wf_rank _ _ _ Hwf p n); [done|]. apply forChilds_refs; [|done]. exact (wf_nodes _ _ _ Hwf p n Hp). }
  split; [done|]. intros ->. pose proof (wf_top _ _ _ Hwf p n Hp). lia.
Qed.

(** The end of [commit]: the node joins the batch, which may be written. *)
Lemma commit_node m0 db batch h n b :
  committing m0 db batch -> m0 !! h = Some n -> zlen h = 32 -> h <> zeroHash -> content db h = Some b ->
  (forall x, x ∈ forChilds n -> closed m0 db batch x) ->
  commits m0 db batch
    (let batch := batch_Put batch h b in
     if b_size batch >=? IdealBatchSize then
       let '(ok, d) := batch_Write (diskdb db) batch in
       let db := set_disk db d in
       if negb ok then Ok (false, db, batch) else db ← Replay db (b_writes batch); Ok (true, db, NewBatch)
     else Ok (true, db, batch)) h.
Proof.
  intros Hc Hn Hl Hz Hb Hch. destruct (committing_put m0 db batch h n b) as (Hc' & Hg & Hcl); try done. cbv zeta.
  destruct (b_size _ >=? _).
  - destruct (batch_Write (diskdb db) (batch_Put batch h b)) as [ok d] eqn:Hw.
    destruct (flush_nodes db (batch_Put batch h b) ok d) as (Hk & Ha & Hok); [apply Hc|apply Hc'|done|]. destruct ok; simpl negb; cbv iota.
    + destruct (Hok eq_refl) as (db' & -> & Hk' & Hp' & Hsh & Hnone). bind_simpl.
      destruct (committing_flushed m0 db (batch_Put batch h b) db') as [Hc2 Hg2]; try done.
      exists true, db', NewBatch. split_and!; try done. intros _. split_and!; try done.
      * intros k Hset. by apply Hg2, Hg.
      * by eapply closed_grows.
    + exists false, (set_disk db d), (batch_Put batch h b). done.
  - exists true, db, (batch_Put batch h b). split_and!; try done. apply keeps_refl, Hc.
Qed.

Lemma commits_trans m0 db batch db1 batch1 r h :
  keeps db db1 -> same_archive db db1 -> grows db batch db1 batch1 ->
  commits m0 db1 batch1 r h -> commits m0 db batch r h.
Proof.
  intros Hk Hp Hg (ok & db2 & batch2 & -> & Hk2 & Hp2 & Hok). exists ok, db2, batch2.
  split_and!; [done|by eapply keeps_trans|by eapply same_archive_trans|]. intros Ho. destruct (Hok Ho) as (? & Hg2 & ?).
  split_and!; try done. intros k Hset. by apply Hg2, Hg.
Qed.

Lemma db_commit_spec m0 fuel : forall h db batch,
  (rank h < fuel)%nat -> h <> zeroHash -> committing m0 db batch -> commits m0 db batch (db_commit fuel db batch h) h.
Proof.
  induction fuel as [|fuel IH]; intros h db batch Hf Hz Hc; [lia|]. cbn [db_commit].
  destruct (dirties db !! h) as [n'|] eqn:Hn'.
  2: { exists true, db, batch. split_and!; [done|apply keeps_refl, Hc|done|]. intros _. split_and!; [done|by intros ?|].
       destruct (m0 !! h) as [n|] eqn:Hn; [apply (c_closed _ _ _ Hc); [eauto|by left]|].
       intros k Hr [x Hx]. inversion Hr; subst; congruence. }
  destruct (c_shrunk _ _ _ Hc h n' Hn') as (n & Hn & Hnear). pose proof (c_sound _ _ _ Hc) as Hs.
  destruct (s_blob _ _ Hs h n' Hn' Hz) as (b & Hb & _). pose proof (s_len _ _ Hs h n' Hn') as Hl.
  destruct (visit_commits m0 (db_commit fuel) (forChilds n')) with db batch
    as (ok & db1 & batch1 & Hrun & Hk1 & Hp1 & Hok1); [|done|].
  { intros x db1 batch1 Hx Hc1. destruct (child_below db h n' x Hs Hn' Hx). apply IH; [lia|done..]. }
  rewrite Hrun. bind_simpl. destruct ok; simpl negb; cbv iota; [|by exists false, db1, batch1].
  destruct (Hok1 eq_refl) as (Hc1 & Hg1 & Hx1). rewrite Hb. bind_simpl.
  apply (commits_trans m0 db batch db1 batch1); [done..|].
  apply (commit_node m0 db1 batch1 h n b); try done; [|by rewrite (near_forChilds n n')].
  rewrite (proj1 (proj2 Hk1 h Hl) Hz). unfold content. by rewrite Hn', Hb.
Qed.

Lemma reaches_nonzero db h k :
  sound rank db -> h <> zeroHash -> reaches (dirties db) h k -> k <> zeroHash.
Proof.
  intros Hs Hz Hr. induction Hr as [|h n x k Hn Hx Hr IH]; [done|]. apply IH.
  by destruct (child_below db h n x Hs Hn Hx).
Qed.

(** Everything below the root, durable. *)
Definition durable db db' (root : hash_t) : Prop :=
  forall h, reaches (dirties db) root h -> is_Some (dirties db !! h) ->
  dirties db' !! h = None /\ is_Some (content db h) /\ disk db' !! h = content db h.

Lemma keeps_durable db db' h :
  sound rank db -> keeps db db' -> is_Some (dirties db !! h) -> h <> zeroHash -> dirties db' !! h = None ->
  is_Some (content db h) /\ disk db' !! h = content db h.
Proof.
  intros Hs [_ Hk] [n Hn] Hz Hn'. destruct (Hk h) as [Hc _]; [by eapply s_len|]. rewrite <- Hc by done.
  split; [rewrite Hc by done|]; unfold content; [rewrite Hn|by rewrite Hn'].
  destruct (s_blob _ _ Hs h n Hn Hz) as (b & -> & _). eauto.
Qed.

Lemma db_Commit_spec fuel db root :
  sound rank db -> typed db -> root <> zeroHash -> (rank root < fuel)%nat ->
  exists ok db', db_Commit fuel db root = Ok (ok, db') /\ keeps db db' /\ (ok = true -> durable db db' root).
Proof.
  intros Hs Ht Hz Hf. unfold db_Commit. cbv zeta.
  destruct (flush_preimages true db Hs Ht) as (ok & d & batch & Hfl & Hk & Hws & Har). unfold flush_if in Hfl.
  rewrite Hfl. clear Hfl. destruct ok; simpl negb; cbv iota; [|by eexists _, _]. specialize (Har eq_refl eq_refl).
  set (db0 := set_disk db d) in *. destruct (batch_Write (diskdb db0) batch) as [ok d1] eqn:Hw.
  destruct (batch_Write_keeps db0 batch ok d1 (proj1 Hk) Hws Hw) as [Hk1 Hd1].
  pose proof (keeps_trans _ _ _ Hk Hk1) as Hk01. destruct ok; simpl negb; cbv iota; [|by eexists _, _].
  specialize (Hd1 eq_refl). set (db1 := set_disk db0 d1) in *.
  destruct (db_commit_spec (dirties db) fuel root db1 NewBatch) as (ok & db2 & batch2 & -> & Hk2 & Hp2 & Hok2); [done..| |].
  { split; [apply Hk1|by apply Forall_nil|apply shrunk_refl|].
    intros k [n Hn] [Hset|Hset]; [simpl in Hset; congruence|by apply elem_of_nil in Hset]. }
  bind_simpl. pose proof (keeps_trans _ _ _ Hk01 Hk2) as Hk02. destruct ok; simpl negb; cbv iota; [|by eexists _, _].
  destruct (Hok2 eq_refl) as (Hc2 & _ & Hcl2). destruct (batch_Write (diskdb db2) batch2) as [ok d3] eqn:Hw3.
  destruct (flush_nodes db2 batch2 ok d3) as (Hk3 & _ & Hok3); [apply Hk2|apply Hc2|done|].
  destruct ok; simpl negb; cbv iota; [|eexists _, _; split_and!; [done|by eapply keeps_trans|done]].
  destruct (Hok3 eq_refl) as (db4 & -> & Hk4 & Hp4 & Hsh4 & Hn4). bind_simpl. eexists _, _. split; [done|].
  assert (Hk5 : keeps db4 (set_preimages db4 ∅ 0)).
  { apply clear_preimages; [apply Hk4|]. destruct (same_archive_trans _ _ _ Hp2 Hp4) as [Hpr Hdk].
    intros h p Hp. unfold vdisk. simpl. rewrite Hpr in Hp. rewrite Hdk by (rewrite preimageKey_len, (Ht h p Hp); done).
    simpl in Hd1 |- *. rewrite Hd1. by apply Har. }
  pose proof (keeps_trans _ _ _ Hk02 (keeps_trans _ _ _ Hk4 Hk5)) as Hk05. split; [done|]. intros _ h Hr Hh.
  assert (Hn5 : dirties (set_preimages db4 ∅ 0) !! h = None) by (apply Hn4; by apply Hcl2).
  split; [done|]. apply keeps_durable; try done. by eapply reaches_nonzero.
Qed.

(** ** Reads *)

Lemma set_clean_keeps db h b :
  sound rank db -> disk db !! h = Some b -> keeps db (set_clean db h b).
Proof.
  intros Hs Hb. split; [|done]. pose proof (s_clean _ _ Hs) as Hcl.
  split; try apply Hs; [by eapply (wf_same [] db); try apply Hs|].
  intros k bk Hk. unfold get_clean in *. simpl. destruct (cleans db) as [cc|]; [|done].
  intros [[-> ->]|Hg]%cache_get_set; [done|by apply Hcl].
Qed.

Lemma clean_content db h b : sound rank db -> zlen h = 32 -> h <> zeroHash -> get_clean db h = Some b -> content db h = Some b.
Proof.
  intros Hs Hl Hz Hc. apply (s_clean _ _ Hs) in Hc; [|done]. unfold content. destruct (dirties db !! h) as [n|] eqn:Hn; [|done].
  destruct (s_blob _ _ Hs h n Hn Hz) as (b' & -> & Hsame). by rewrite (Hsame b Hc).
Qed.

(** C20. [Cap] ends without panic, whatever writes fail, and is invisible to
    readers: the database stays sound, every hash keeps its content and its
    preimage.  When it reports success, the memory that [Size] reports is
    within the limit or no dirty node is left. *)
Theorem Cap_safe db (limit : Z) :
  sound rank db -> typed db ->
  exists ok db', Cap db limit = Ok (ok, db') /\ sound rank db' /\
    (forall h, zlen h = 32 -> (h <> zeroHash -> content db' h = content db h) /\ db_preimage db' h = db_preimage db h) /\
    (ok = true -> (exists sz psz, Size db' = Ok (sz, psz) /\ sz <= limit) \/ forall h, h <> zeroHash -> dirties db' !! h = None).
Proof.
  intros Hs Ht. destruct (Cap_spec db limit Hs Ht) as (ok & db' & Hrun & [Hs' Hk] & Hsz). exists ok, db'.
  split_and!; try done. intros Hok. destruct (Hsz Hok) as [Hle|?]; [left|by right].
  destruct (wf_meta _ _ _ (s_wf _ _ Hs')) as (meta & Hm & _). unfold Size. rewrite Hm.
  eexists _, _. split; [done|]. unfold total, metarefs in Hle. rewrite Hm in Hle. simpl in Hle. lia.
Qed.

(** C21. [Commit] ends without panic, whatever writes fail, and is invisible
    to readers.  When it reports success, every node reachable from the root
    is on disk with the content it had, and is no longer dirty. *)
Theorem Commit_durable (fuel : nat) db (root : hash_t) :
  sound rank db -> typed db -> root <> zeroHash -> (rank root < fuel)%nat ->
  exists ok db', db_Commit fuel db root = Ok (ok, db') /\ sound rank db' /\
    (forall h, zlen h = 32 -> (h <> zeroHash -> content db' h = content db h) /\ db_preimage db' h = db_preimage db h) /\
    (ok = true -> forall h, reaches (dirties db) root h -> is_Some (dirties db !! h) ->
       dirties db' !! h = None /\ is_Some (content db h) /\ disk db' !! h = content db h).
Proof.
  intros Hs Ht Hz Hf. destruct (db_Commit_spec fuel db root Hs Ht Hz Hf) as (ok & db' & Hrun & [Hs' Hk] & Hd).
  by exists ok, db'.
Qed.

(** C22. [Node] returns the content of the hash, from whichever of the clean
    cache, the dirty nodes and the disk has it; the read keeps the database
    sound and its content. *)
Theorem Node_reads db (h : hash_t) :
  sound rank db -> zlen h = 32 -> h <> zeroHash -> content db h <> Some [] ->
  exists db', db_Node db h = Ok (content db h, db') /\ sound rank db' /\
    forall k, zlen k = 32 -> k <> zeroHash -> content db' k = content db k.
Proof.
  intros Hs Hl Hz Hne. unfold db_Node. rewrite decide_False by done.
  assert (Hstay : forall r, r = content db h -> exists db', Ok (r, db) = (Ok (content db h, db') : go _) /\ sound rank db' /\
    forall k, zlen k = 32 -> k <> zeroHash -> content db' k = content db k) by (intros r ->; by exists db).
  destruct (get_clean db h) as [b|] eqn:Hc; [by apply Hstay; symmetry; apply clean_content|].
  unfold content in Hne |- * at 1. destruct (dirties db !! h) as [n|] eqn:Hn.
  { destruct (s_blob _ _ Hs h n Hn Hz) as (b & -> & _). bind_simpl. by exists db. }
  destruct (disk db !! h) as [b|] eqn:Hb; [|by exists db].
  assert (zlen b =? 0 = false) as -> by (destruct b; [done|]; rewrite zlen_cons; pose proof (zlen_nonneg b); lia).
  destruct (set_clean_keeps db h b Hs Hb) as [Hs' Hk]. exists (set_clean db h b). split_and!; try done.
Qed.
End flush.

(** ** Example: a flush and a commit of one node *)

#[local] Existing Instance no_cache.
#[local] Existing Instance list_order.

Lemma sample_typed : typed sample_db2.
Proof. intros h p Hp. vm_compute in Hp. done. Qed.

Lemma Cap_safe_witness :
  exists ok db', Cap sample_db2 0 = Ok (ok, db') /\ sound sample_rank db' /\
    content db' sample_root = Some [196; 130; 32; 18; 7].
Proof.
  destruct (Cap_safe sample_rank sample_db2 0 sample_sound2 sample_typed) as (ok & db' & Hrun & Hs & Hk & _).
  exists ok, db'. split; [exact Hrun|]. split; [exact Hs|].
  destruct (Hk sample_root eq_refl) as [Hc _]. rewrite Hc by done. vm_compute. reflexivity.
Defined.

Lemma Commit_durable_witness :
  exists ok db', db_Commit 3 sample_db2 sample_root = Ok (ok, db') /\
    (ok = true -> d_data (diskdb db') !! sample_root = Some [196; 130; 32; 18; 7]).
Proof.
  destruct (Commit_durable sample_rank 3 sample_db2 sample_root sample_sound2 sample_typed)
    as (ok & db' & Hrun & _ & _ & Hd); [done|vm_compute; lia|].
  exists ok, db'. split; [exact Hrun|]. intros Hok.
  destruct (Hd Hok sample_root (reaches_refl _ _)) as (_ & _ & Hdisk); [by vm_compute; eexists|].
  rewrite Hdisk. vm_compute. reflexivity.
Defined.

Lemma Node_reads_witness :
  exists db', db_Node sample_db2 sample_root = Ok (Some [196; 130; 32; 18; 7], db').
Proof.
  destruct (Node_reads sample_rank sample_db2 sample_root sample_sound2) as (db' & Hrun & _);
    [done|done|vm_compute; discriminate|]. exists db'. rewrite Hrun. vm_compute. reflexivity.
Defined.
