(* ===== verification/TrieCommit.v ===== *)
(** * Committing a trie (src/trie/committer.go, Trie.Commit of src/trie/trie.go)

    The committer collapses the dirty nodes of a trie and puts them in the
    trie database, children first, either directly or through the channel that
    feeds the leaf callback.  The file shows that the database then holds the
    whole trie: opening it again at the root hash gives a trie with the same
    map. *)
From stdpp Require Import prelude list gmap.
From Stdlib Require Import ZArith Lia.
From S2P Require Import Prelude RlpEncode RlpRaw TrieEncoding Trie TrieNode TrieHash TrieDatabase TrieGC.

(** ** The code *)

(** An item of the leaf channel. *)
Record leaf := Leaf { lf_size : Z; lf_hash : hash_t; lf_node : node }.

Definition cache_dirty (n : node) : bool :=
  match n with shortNode _ _ fl | fullNode _ fl => fl_dirty fl | _ => true end.

Fixpoint estimateSize (n : node) : go Z :=
  match n with
  | shortNode k v _ => s ← estimateSize v; Ok (3 + zlen k + s)
  | fullNode cs _ =>
      let fix kids (i : nat) cs :=
        match i, cs with
        | S i, c :: cs =>
            s ← (if is_nil c then Ok 1 else estimateSize c);
            r ← kids i cs;
            Ok (s + r)
        | _, _ => Ok 0
        end in
      s ← kids 16%nat cs;
      Ok (3 + s)
  | valueNode v => Ok (1 + zlen v)
  | hashNode h => Ok (1 + zlen h)
  | nilNode => Panic
  end.

Section committer.
Context {K : Keccak} {C : Type} {CC : CleanCache C} {MO : MapOrder}.

(** The database and, with a leaf callback, what was sent to the channel. *)
Definition cstate : Type := Database C * option (list leaf).

Definition store (n : node) (st : cstate) : go (node * cstate) :=
  match cache_hash n with
  | None => Ok (n, st)
  | Some hash =>
      size ← estimateSize n;
      match st with
      | (db, Some leafCh) => Ok (hashNode hash, (db, Some (leafCh ++ [Leaf size (BytesToHash hash) n])))
      | (db, None) => db ← db_insert db (BytesToHash hash) size n; Ok (hashNode hash, (db, None))
      end
  end.

(** [committer.commit]; the first 16 children are committed, the last one is
    taken as it is. *)
Fixpoint commit (n : node) (st : cstate) : go (node * cstate) :=
  match cache_hash n, cache_dirty n with
  | Some hash, false => Ok (hashNode hash, st)
  | _, _ =>
      match n with
      | shortNode k v fl =>
          '(val, st) ← match v with fullNode _ _ => commit v st | _ => Ok (v, st) end;
          key ← hexToCompact k;
          store (shortNode key val fl) st
      | fullNode cs fl =>
          let fix commitChildren (i : nat) cs st :=
            match i, cs with
            | S i, c :: cs =>
                '(c, st) ← match c with nilNode | hashNode _ => Ok (c, st) | _ => commit c st end;
                '(cs, st) ← commitChildren i cs st;
                Ok (c :: cs, st)
            | _, _ => Ok (cs, st)
            end in
          '(children, st) ← commitChildren 16%nat cs st;
          store (fullNode children fl) st
      | hashNode _ => Ok (n, st)
      | _ => Panic
      end
  end.

(** The leaf callback gets a value and the hash of its node; its error is
    ignored. *)
Definition LeafCallback : Type := list Z -> hash_t -> Database C -> go (Database C).

Definition on_leaf (onleaf : option LeafCallback) (n : node) (hash : hash_t) (db : Database C) : go (Database C) :=
  match onleaf with
  | None => Ok db
  | Some f =>
      match n with
      | shortNode _ (valueNode v) _ => f v hash db
      | fullNode cs _ =>
          match cs !! 16%nat with
          | Some nilNode => Ok db
          | Some (valueNode v) => f v hash db
          | _ => Panic
          end
      | _ => Ok db
      end
  end.

Fixpoint commitLoop (onleaf : option LeafCallback) (leafCh : list leaf) (db : Database C) : go (Database C) :=
  match leafCh with
  | [] => Ok db
  | item :: leafCh =>
      db ← db_insert db (lf_hash item) (lf_size item) (lf_node item);
      db ← on_leaf onleaf (lf_node item) (lf_hash item) db;
      commitLoop onleaf leafCh db
  end.

(** [Trie.Commit].  The committer does not look at the database while the
    loop fills it, so the loop can run at the end. *)
Definition Commit (onleaf : option LeafCallback) (order : list nat) (t : Trie) (db : Database C)
    : go (hash_t * Trie * Database C) :=
  match root t with
  | nilNode => Ok (emptyRoot, t, db)
  | _ =>
      '(rootHash, t) ← Hash order t;
      if negb (cache_dirty (root t)) then Ok (rootHash, t, db)
      else
        '(newRoot, st) ← commit (root t) (db, match onleaf with Some _ => Some [] | None => None end);
        db ← match st with (db, Some leafCh) => commitLoop onleaf leafCh db | (db, None) => Ok db end;
        match newRoot with
        | hashNode h => Ok (rootHash, MkTrie (hashNode h) (unhashed t), db)
        | _ => Panic
        end
  end.
End committer.

(** ** What the committer stores for a tree *)

Lemma BytesToHash_len b : zlen (BytesToHash b) = 32.
Proof.
  unfold BytesToHash, zlen. rewrite length_app, length_replicate. destruct (Z.gtb_spec (Z.of_nat (length b)) 32);
    rewrite ?length_drop; lia.
Qed.

Section cnode_nested_ind.
Context (P : cnode -> Prop).
Context (Hleaf : forall c, match c with RShort _ _ | RFull _ => False | _ => True end -> P c).
Context (Hshort : forall k c, P c -> P (RShort k c)) (Hfull : forall cs, Forall P cs -> P (RFull cs)).

Fixpoint cnode_nested_ind (c : cnode) : P c.
Proof.
  destruct c as [|v|h|k c|cs|b]; try (by apply Hleaf).
  - apply Hshort, cnode_nested_ind.
  - apply Hfull. induction cs as [|c cs IH]; constructor; [apply cnode_nested_ind|apply IH].
Qed.
End cnode_nested_ind.

Fixpoint gather_kids (i : nat) (cs : list cnode) : list hash_t :=
  match i, cs with S i, c :: cs => forGatherChildren c ++ gather_kids i cs | _, _ => [] end.

Lemma gather_kids_elem i cs h :
  h ∈ gather_kids i cs -> exists j c, (j < i)%nat /\ cs !! j = Some c /\ h ∈ forGatherChildren c.
Proof.
  revert i. induction cs as [|c cs IH]; intros [|i]; try (by intros ?%elem_of_nil). simpl.
  rewrite elem_of_app. intros [Hh|Hh]; [exists 0%nat, c; split_and!; [lia|done|done]|].
  destruct (IH i Hh) as (j & c' & ? & ? & ?). exists (S j), c'. split_and!; [lia|done|done].
Qed.

Lemma forGather_full cs h :
  h ∈ forGatherChildren (RFull cs) -> exists i c, (i < 16)%nat /\ cs !! i = Some c /\ h ∈ forGatherChildren c.
Proof. apply (gather_kids_elem 16). Qed.

Lemma gather_len c h : h ∈ forGatherChildren c -> zlen h = 32.
Proof.
  induction c as [c Hc|k c IH|cs IH] using cnode_nested_ind.
  - destruct c; try done; simpl; try (by intros ?%elem_of_nil). intros ->%list_elem_of_singleton. apply BytesToHash_len.
  - done.
  - intros (i & c & _ & Hi & Hin)%forGather_full. by apply (Forall_lookup_1 _ _ _ _ IH Hi).
Qed.

Section collapsed.
Context {K : Keccak}.

Fixpoint mcnode (t : tree) : cnode :=
  let child t :=
    match t with
    | TShort _ _ | TFull _ => if small t then mcnode t else RHash (mhash t)
    | _ => mcnode t
    end in
  match t with
  | TEmpty => RNil
  | TValue v => RValue v
  | TShort k t => RShort (compact k) (child t)
  | TFull ts => RFull (map child ts)
  end.

Definition mc_child (t : tree) : cnode :=
  match t with TShort _ _ | TFull _ => if small t then mcnode t else RHash (mhash t) | _ => mcnode t end.

Lemma mcnode_short k t : mcnode (TShort k t) = RShort (compact k) (mc_child t).
Proof. done. Qed.
Lemma mcnode_full ts : mcnode (TFull ts) = RFull (map mc_child ts).
Proof. done. Qed.

Definition cell_item (c : cnode) : item := match c with RNil => IBytes [] | _ => cnode_item c end.

Lemma cell_item_full cs : cnode_item (RFull cs) = IList (map cell_item cs).
Proof. done. Qed.

Lemma mc_child_nil t : mc_child t = RNil <-> t = TEmpty.
Proof. destruct t; try done; unfold mc_child; destruct (small _); done. Qed.

(** It has the encoding that the hash of the tree is made of. *)
Lemma cnode_item_mcnode t : hashable t -> t <> TEmpty -> cnode_item (mcnode t) = mitem t.
Proof.
  assert (Hc : forall t, (t <> TEmpty -> cnode_item (mcnode t) = mitem t) -> cell_item (mc_child t) = mchild t).
  { intros s Hs. destruct s as [|v|k s|ss]; try done; unfold mc_child, mchild, mref, small, mhash;
      destruct (_ <? 32); try done; by rewrite <- Hs. }
  induction t as [|v|k t IH|ts IH] using tree_nested_ind; intros Hh Hne; try done.
  - inversion Hh; subst. rewrite mitem_short, <- (Hc t) by auto. rewrite mcnode_short. cbn [cnode_item]. do 2 f_equal.
    f_equal. destruct (mc_child t) eqn:E; try done. by apply mc_child_nil in E.
  - inversion Hh as [| | |? Hlen Hts _]; subst. rewrite mitem_full, mcnode_full, cell_item_full, map_map. f_equal.
    apply map_ext_in. intros t Ht. apply list_elem_of_In in Ht. apply Hc. rewrite Forall_forall in IH, Hts. intros Hne'.
    by apply IH; [|apply Hts|].
Qed.

Lemma cached_mcnode t n : hashable t -> branch t -> cn_node n = mcnode t -> cached_rlp n = Ok (rlp_spec (mitem t)).
Proof.
  intros Hh Hb Hn. destruct (hashable_fine t Hh) as (_ & Hok & Hnn & Hz). unfold cached_rlp. rewrite Hn.
  assert (Hi : cnode_item (mcnode t) = mitem t) by (apply cnode_item_mcnode; [done|by destruct t]).
  destruct (mcnode t) eqn:E; try (by destruct t); rewrite Hi, EncodeToBytes_spec by (done || lia || by destruct t); by rewrite Hnn.
Qed.

Fixpoint expand_kids (cs : list cnode) : go (list node) :=
  match cs with
  | [] => Ok []
  | c :: cs => n ← (if is_rnil c then Ok nilNode else expandNode None c); ns ← expand_kids cs; Ok (n :: ns)
  end.

Lemma expandNode_full hash cs :
  expandNode hash (RFull cs) = (ns ← expand_kids cs; Ok (fullNode ns (NodeFlag hash false))).
Proof. reflexivity. Qed.

Lemma expand_mcnode t : hashable t -> t <> TEmpty -> forall hash, expandNode hash (mcnode t) = Ok (reflag hash (mnode t)).
Proof.
  assert (Hc : forall t, (forall hash, expandNode hash (mcnode t) = Ok (reflag hash (mnode t))) ->
                 expandNode None (mc_child t) = Ok (mnode_child t)).
  { intros s Hs. destruct s as [|v|k s|ss]; try done; unfold mc_child, mnode_child; destruct (small _); try done;
      by rewrite Hs, reflag_mnode. }
  induction t as [|v|k t IH|ts IH] using tree_nested_ind; intros Hh Hne hash; try done.
  - inversion Hh as [| |? ? Hk Hz Ht0 Ht|]; subst. rewrite mcnode_short. cbn [expandNode].
    destruct (compact_ok k Hk) as (_ & _ & ->). bind_simpl. rewrite Hc by auto. bind_simpl.
    change (mnode (TShort k t)) with (shortNode k (mnode_child t) (NodeFlag None false)). simpl. do 2 f_equal.
    destruct t; try done; unfold mnode_child; destruct (small _); try done; by rewrite reflag_mnode.
  - inversion Hh as [| | |? Hlen Hts _]; subst. rewrite mcnode_full, expandNode_full.
    assert (Hk : expand_kids (map mc_child ts) = Ok (map mnode_child ts)).
    { clear Hne Hh Hlen. induction IH as [|t ts IHt _ IHts]; [done|]. inversion Hts; subst. simpl.
      destruct (is_rnil (mc_child t)) eqn:E.
      - destruct t as [| | |]; try (by simpl in E); [|unfold mc_child in E; by destruct (small _)..].
        bind_simpl. by rewrite IHts.
      - rewrite Hc; [bind_simpl; by rewrite IHts|]. apply IHt; [done|]. by intros ->. }
    rewrite Hk. bind_simpl. change (mnode (TFull ts)) with (fullNode (map mnode_child ts) (NodeFlag None false)).
    simpl. do 2 f_equal. rewrite map_map. apply map_ext. intros t. destruct t; try done; unfold mnode_child;
      destruct (small _); try done; by rewrite reflag_mnode.
Qed.

Lemma decode_mnode t hash :
  canon t -> hashable t -> mustDecodeNode hash (rlp_spec (mitem t)) = Ok (reflag hash (mnode t)).
Proof.
  intros Hc Hh. destruct (hashable_fine t Hh) as (_ & Hok & _ & Hz). unfold mustDecodeNode.
  pose proof (decode_stored (S (length (rlp_spec (mitem t)))) hash (mnode t) []) as Hd.
  unfold node_rlp in Hd. rewrite node_item_mnode, app_nil_r in Hd. rewrite Hd; [done|by apply stored_mnode| |lia].
  split; [|lia]. apply rlp_spec_ok; [done|lia].
Qed.
End collapsed.

(** ** Readers that hold a tree *)

Section readers.
Context {K : Keccak}.

Inductive sub (s : tree) : tree -> Prop :=
| sub_refl : sub s s
| sub_short k t : sub s t -> sub s (TShort k t)
| sub_full t ts : t ∈ ts -> sub s t -> sub s (TFull ts).

Lemma sub_trans a b c : sub a b -> sub b c -> sub a c.
Proof. intros Hab. induction 1; eauto using sub. Qed.

(** No node of the tree has the hash that the database keeps for itself. *)
Definition nonzero (t : tree) : Prop := forall s, branch s -> sub s t -> mhash s <> zeroHash.

Lemma nonzero_short k t : nonzero (TShort k t) -> nonzero t.
Proof. intros Hn s Hb Hs. apply Hn; [done|by constructor]. Qed.
Lemma nonzero_full t ts : nonzero (TFull ts) -> t ∈ ts -> nonzero t.
Proof. intros Hn Hin s Hb Hs. apply Hn; [done|by eapply sub_full]. Qed.

(** A reader that has at least what another one has. *)
Definition extends (db db' : NodeReader) : Prop :=
  forall h n, zlen h = 32 -> h <> zeroHash -> db h = Some n -> db' h = Some n.

Lemma extends_mhash db db' t n :
  extends db db' -> branch t -> nonzero t -> db_node (NodeReader := db) (mhash t) = Some n ->
  db_node (NodeReader := db') (mhash t) = Some n.
Proof. intros He Hb Hn. apply He; [apply keccak_len|]. apply Hn; [done|constructor]. Qed.

Lemma held_child_mono db db' t :
  (nonzero t -> held_below (db := db) t -> held_below (db := db') t) ->
  extends db db' -> nonzero t -> held_child (db := db) t -> held_child (db := db') t.
Proof.
  intros Hb He Hn. assert (Hm : branch t -> db_node (NodeReader := db) (mhash t) = Some (loaded t) -> db_node (NodeReader := db') (mhash t) = Some (loaded t))
    by (intros Hbr; by apply (extends_mhash db db')).
  destruct t; try done; intros [Hs Hh]; (split; [intros H; apply Hm; [done|by apply Hs]|by apply Hb]).
Qed.

Lemma held_below_mono db db' t :
  extends db db' -> nonzero t -> held_below (db := db) t -> held_below (db := db') t.
Proof.
  intros He. induction t as [|v|k t IH|ts IH] using tree_nested_ind; try done; intros Hn.
  - apply (held_child_mono db db' t); [done|done|by eapply nonzero_short].
  - rewrite !held_full. intros Hts. apply Forall_lookup_2. intros i t Ht.
    pose proof (Forall_lookup_1 _ _ _ _ Hts Ht) as Hc. pose proof (Forall_lookup_1 _ _ _ _ IH Ht) as IHt.
    apply (held_child_mono db db' t); try done. eapply nonzero_full; [done|by eapply list_elem_of_lookup_2].
Qed.

Lemma held_mono db db' t :
  extends db db' -> branch t -> nonzero t -> held (db := db) t -> held (db := db') t.
Proof. intros He Hb Hn [Hh Hbl]. split; [by apply (extends_mhash db db')|by apply (held_below_mono db db')]. Qed.

(** A trie reads the same from a reader that has more. *)
Lemma flag_extends db db' p fl t :
  extends db db' -> branch t -> nonzero t -> flag_ok (Guard := merkle (db := db)) p fl t -> flag_ok (Guard := merkle (db := db')) p fl t.
Proof.
  intros He Hb Hn. simpl. destruct (fl_hash fl); [|done]. intros (? & ? & Hd). split_and!; [done..|]. intros Hf. by apply (held_mono db db'), Hd.
Qed.

Lemma rep_extends_branch db db' p t :
  extends db db' -> branch t -> nonzero t ->
  (forall n, match n with hashNode _ => False | _ => True end -> rep (db := db) (G := merkle (db := db)) p n t -> rep (db := db') (G := merkle (db := db')) p n t) ->
  forall n, rep (db := db) (G := merkle (db := db)) p n t -> rep (db := db') (G := merkle (db := db')) p n t.
Proof.
  intros He Hb Hn Hd n Hr. destruct n as [| | | |h]; try (by apply Hd). inversion Hr as [| | | |? x ? Hdb Hx Hrx (-> & ? & ?)]; subst.
  apply (rep_hash _ (mhash t) x); [|done|apply Hd; [by destruct x|done]|split_and!; [done..|by apply (held_mono db db')]].
  rewrite mhash_id in *. by apply (extends_mhash db db').
Qed.

Lemma rep_extends db db' p n t :
  extends db db' -> nonzero t -> rep (db := db) (G := merkle (db := db)) p n t -> rep (db := db') (G := merkle (db := db')) p n t.
Proof.
  intros He. revert p n. induction t as [|v|k t IH|ts IH] using tree_nested_ind; intros p n Hn Hr.
  1, 2: inversion Hr as [| | | |h x ? ? Hx Hrx]; subst; [constructor|]; by inversion Hrx; subst.
  - revert n Hr. apply rep_extends_branch; [done..|]. intros x Hx Hrx. inversion Hrx as [| |? c fl ? Hc Hfl| |]; subst; [|done].
    constructor; [apply IH; [by eapply nonzero_short|done]|by apply (flag_extends db db')].
  - revert n Hr. apply rep_extends_branch; [done..|]. intros x Hx Hrx. inversion Hrx as [| | |cs fl ? Hcs Hfl|]; subst; [|done].
    constructor; [|by apply (flag_extends db db')]. apply Forall2_lookup. intros i. pose proof (proj1 (Forall2_lookup _ _ _) Hcs i) as Hi.
    destruct (ts !! i) as [t|] eqn:Ht; inversion Hi as [c ? Hc|]; subst; constructor. apply (Forall_lookup_1 _ _ _ _ IH Ht); [|done].
    eapply nonzero_full; [done|by eapply list_elem_of_lookup_2].
Qed.

(** The children of a small node are small. *)
Lemma small_ref t it : branch t -> zlen (rlp_spec (mchild t)) <= zlen (rlp_spec it) -> zlen (rlp_spec it) < 32 -> small t = true.
Proof.
  intros Hb Hle Hlt. unfold small. apply Z.ltb_lt. rewrite mchild_branch in Hle by done.
  destruct (small t) eqn:Hs; [lia|]. exfalso. cbn [rlp_spec] in Hle. unfold string_spec in Hle.
  pose proof (keccak_len (rlp_spec (mitem t))) as Hl. fold (mhash t) in Hl.
  destruct (mhash t) as [|x [|y r]] eqn:E; [done..|]. rewrite zlen_app in Hle. pose proof (zlen_nonneg (head_spec 128 183 (zlen (x :: y :: r)))). lia.
Qed.

Lemma rlp_list_ge l it : it ∈ l -> zlen (rlp_spec it) <= zlen (rlp_spec (IList l)).
Proof.
  intros Hin. cbn [rlp_spec]. unfold list_spec. rewrite zlen_app.
  pose proof (zlen_nonneg (head_spec 192 247 (zlen (concat (map rlp_spec l))))).
  enough (zlen (rlp_spec it) <= zlen (concat (map rlp_spec l))) by lia. clear H.
  induction l as [|x l IH]; [by apply elem_of_nil in Hin|]. simpl map. simpl concat. rewrite zlen_app.
  pose proof (zlen_nonneg (rlp_spec x)). pose proof (zlen_nonneg (concat (map rlp_spec l))).
  apply elem_of_cons in Hin as [->|Hin]; [lia|]. specialize (IH Hin). lia.
Qed.

Lemma small_short k t : small (TShort k t) = true -> branch t -> small t = true.
Proof.
  intros Hs Hb. unfold small in Hs. rewrite mitem_short in Hs. apply Z.ltb_lt in Hs.
  apply (small_ref t (IList [IBytes (compact k); mchild t])); try done.
  apply rlp_list_ge. right. left.
Qed.

Lemma small_full ts t : small (TFull ts) = true -> t ∈ ts -> branch t -> small t = true.
Proof.
  intros Hs Hin Hb. unfold small in Hs. rewrite mitem_full in Hs. apply Z.ltb_lt in Hs.
  apply (small_ref t (IList (map mchild ts))); try done.
  apply rlp_list_ge. apply list_elem_of_In, in_map, list_elem_of_In, Hin.
Qed.

Lemma branch_cases t : t = TEmpty \/ (exists v, t = TValue v) \/ branch t.
Proof. destruct t; eauto; right; by right. Qed.

(** A node that is held, as a trie node. *)
Definition flag_for {db : NodeReader} (p : place) (hash : option (list Z)) (t : tree) : Prop :=
  match hash with Some h => h = mhash t /\ (p = Root \/ small t = false) /\ held t | None => p <> Root /\ small t = true end.

Lemma flag_for_ok {db : NodeReader} p hash t : flag_for p hash t -> flag_ok p (NodeFlag hash false) t.
Proof. destruct hash; simpl; [by intros (? & ? & ?)|]. by intros [? ?]. Qed.

Definition represented {db : NodeReader} (t : tree) : Prop :=
  forall p hash, flag_for p hash t -> rep p (reflag hash (mnode t)) t.

Lemma rep_mnode_child {db : NodeReader} t b :
  branch t -> held_child t -> represented t -> rep (Below b) (mnode_child t) t.
Proof.
  intros Hb Hheld IH. assert (Hh : (small t = false -> db_node (mhash t) = Some (loaded t)) /\ held_below t) by (by destruct t).
  destruct Hh as [Hn Hbelow]. replace (mnode_child t) with (if small t then mnode t else hashNode (mhash t)) by (by destruct t).
  destruct (small t) eqn:Hs; [rewrite <- reflag_mnode; by apply IH|]. specialize (Hn eq_refl).
  assert (Hf : held t) by (split; done).
  apply (rep_hash _ (mhash t) (loaded t)); [by rewrite mhash_id|by destruct t| |].
  - apply IH. split_and!; [done|by right|done].
  - split_and!; [done|by right|done].
Qed.

Lemma rep_mnode {db : NodeReader} t : canon t -> held_below t -> represented t.
Proof.
  intros Hc.
  induction Hc as [ns v Hns Hv|ns ts Hns Hne Hts IH|ts Hts IH] using canon_strong_ind; intros Hb p hash Hp.
  - constructor; [constructor|by apply flag_for_ok].
  - change (mnode (TShort ns (TFull ts))) with (shortNode ns (mnode_child (TFull ts)) (NodeFlag None false)).
    cbn [reflag]. constructor; [|by apply flag_for_ok].
    replace (reflag None (mnode_child (TFull ts))) with (mnode_child (TFull ts))
      by (unfold mnode_child; destruct (small _); [by rewrite reflag_mnode|done]).
    apply rep_mnode_child; [done|exact Hb|]. apply IH. apply Hb.
  - change (mnode (TFull ts)) with (fullNode (map mnode_child ts) (NodeFlag None false)).
    cbn [reflag]. constructor; [|by apply flag_for_ok]. rewrite map_map. apply Forall2_fmap_l, Forall_Forall2_diag.
    apply Forall_lookup_2. intros i t Ht. apply held_full in Hb. pose proof (Forall_lookup_1 _ _ _ _ Hb Ht) as Hht.
    change (rep (below (NodeFlag hash false)) (reflag None (mnode_child t)) t). replace (reflag None (mnode_child t)) with (mnode_child t)
      by (destruct t; try done; unfold mnode_child; destruct (small _); [by rewrite reflag_mnode|done|by rewrite reflag_mnode|done]).
    destruct (canon_child_cases _ _ _ Hts Ht) as [->|[[Hct Hi]|[[v ->] _]]]; [constructor| |constructor].
    pose proof (canon_branch_tree _ Hct). apply rep_mnode_child; [done|done|].
    destruct (IH i t Hi Ht) as [->|[_ IHt]]; [done|]. apply IHt. by destruct t as [| | |]; try done; destruct Hht.
Qed.

(** The trie whose root is the hash of a tree that is held. *)
Lemma rep_root {db : NodeReader} t : canon t -> held t -> rep Root (loaded t) t /\ rep Root (hashNode (mhash t)) t.
Proof.
  intros Hc Hh. assert (Hr : rep Root (loaded t) t).
  { apply rep_mnode; [done|apply Hh|]. split_and!; [done|by left|done]. }
  split; [done|]. apply (rep_hash _ (mhash t) (loaded t)); [rewrite mhash_id; apply Hh| |done|].
  - pose proof (canon_branch_tree _ Hc). by destruct t.
  - split_and!; [done|by left|done].
Qed.
End readers.

(** ** What the committer sends to the database *)

Section commit_spec.
Context {K : Keccak} {C : Type} {CC : CleanCache C} {MO : MapOrder}.

(** The leaf of a subtree.  The callback can be called on it. *)
Definition callable (n : node) : Prop :=
  match n with
  | fullNode cs _ => exists c, cs !! 16%nat = Some c /\ (c = nilNode \/ exists v, c = valueNode v)
  | _ => True
  end.
Definition leaf_for (s : tree) (l : leaf) : Prop :=
  lf_hash l = mhash s /\ simplifyNode (lf_node l) = Ok (mcnode s) /\ callable (lf_node l).

(** The references that are counted for a tree and all below it, and the
    calls of the callback. *)
Definition own (t : tree) : Z := zlen (forGatherChildren (mcnode t)) + 1.
Definition zsum (l : list Z) : Z := foldr Z.add 0 l.
Fixpoint weight (t : tree) : Z :=
  match t with
  | TShort _ t' => own t + weight t'
  | TFull ts => own t + zsum (map weight ts)
  | _ => 0
  end.
Definition weight_below (t : tree) : Z :=
  match t with TShort _ t => weight t | TFull ts => zsum (map weight ts) | _ => 0 end.
Definition budget (ss : list tree) : Z := zsum (map own ss).

Lemma zsum_app a b : zsum (a ++ b) = zsum a + zsum b.
Proof. unfold zsum. induction a as [|x a IH]; simpl; lia. Qed.
Lemma own_pos t : 0 < own t.
Proof. unfold own. pose proof (zlen_nonneg (forGatherChildren (mcnode t))). lia. Qed.
Lemma weight_nonneg t : 0 <= weight t.
Proof.
  induction t as [|v|k t IH|ts IH] using tree_nested_ind; cbn [weight]; try lia.
  - pose proof (own_pos (TShort k t)). lia.
  - pose proof (own_pos (TFull ts)). enough (Hs : 0 <= zsum (map weight ts)) by lia. clear H.
    unfold zsum. induction IH as [|t ts Ht _ IHts]; simpl; lia.
Qed.
Lemma weights_nonneg ts : 0 <= zsum (map weight ts).
Proof. unfold zsum. induction ts as [|t ts IH]; simpl; [lia|]. pose proof (weight_nonneg t). lia. Qed.
Lemma weight_split t : branch t -> weight t = own t + weight_below t.
Proof. by destruct t. Qed.
Lemma weight_below_le t : weight_below t <= weight t.
Proof. destruct t; simpl; try lia; [pose proof (own_pos (TShort k t))|pose proof (own_pos (TFull ts))]; lia. Qed.

(** Every subtree comes after the ones that it refers to. *)
Fixpoint ready (H : hash_t -> Prop) (ss : list tree) : Prop :=
  match ss with
  | [] => True
  | s :: ss => (forall h, h ∈ forGatherChildren (mcnode s) -> H h) /\ ready (fun h => H h \/ h = mhash s) ss
  end.

Lemma ready_mono H H' ss : (forall h, H h -> H' h) -> ready H ss -> ready H' ss.
Proof.
  revert H H'. induction ss as [|s ss IH]; intros H H' HH; [done|]. intros [Hs Hr]. split; [auto|].
  eapply IH; [|done]. intros h [?|?]; [left; auto|by right].
Qed.

Lemma ready_app H a b :
  ready H a -> ready (fun h => H h \/ h ∈ map mhash a) b -> ready H (a ++ b).
Proof.
  revert H. induction a as [|s a IH]; intros H Ha Hb.
  - eapply ready_mono; [|exact Hb]. intros h [?|?%elem_of_nil]; done.
  - destruct Ha as [Hs Ha]. split; [done|]. apply IH; [done|]. eapply ready_mono; [|exact Hb].
    intros h [?|Hh]; [by left; left|]. apply elem_of_cons in Hh as [->|?]; [left; by right|by right].
Qed.

Lemma commitLoop_app (f : option LeafCallback) a b (db : Database C) :
  commitLoop f (a ++ b) db = (db ← commitLoop f a db; commitLoop f b db).
Proof.
  revert db. induction a as [|l a IH]; intros db; simpl; [done|].
  destruct (db_insert db (lf_hash l) (lf_size l) (lf_node l)) as [db1| |]; bind_simpl; try done.
  destruct (on_leaf f (lf_node l) (lf_hash l) db1) as [db2| |]; bind_simpl; done.
Qed.

(** A computation that sends the leaves [ls] and returns [r]. *)
Definition sends {A} (f : cstate -> go (A * cstate (C := C))) (r : A) (ls : list leaf) : Prop :=
  (forall db q, f (db, Some q) = Ok (r, (db, Some (q ++ ls)))) /\
  (forall db, f (db, None) = (db ← commitLoop None ls db; Ok (r, (db, None)))).

Lemma sends_ret {A} (r : A) : sends (fun st => Ok (r, st)) r [].
Proof. split; intros; [by rewrite app_nil_r|done]. Qed.

Lemma sends_bind {A B} (f : cstate -> go (A * cstate)) (g : A -> cstate -> go (B * cstate)) r r' ls ls' :
  sends f r ls -> sends (g r) r' ls' -> sends (fun st => '(x, st) ← f st; g x st) r' (ls ++ ls').
Proof.
  intros [Hf Hf'] [Hg Hg']. split; intros.
  - rewrite Hf. bind_simpl. by rewrite Hg, app_assoc.
  - rewrite Hf', commitLoop_app. destruct (commitLoop None ls db); bind_simpl; done.
Qed.

Lemma sends_ext {A} (f g : cstate -> go (A * cstate)) r ls : (forall st, f st = g st) -> sends f r ls -> sends g r ls.
Proof. intros He [H1 H2]. split; intros; by rewrite <- He. Qed.

Fixpoint simplify_kids (cs : list node) : go (list cnode) :=
  match cs with
  | [] => Ok []
  | c :: cs => n ← (if is_nil c then Ok RNil else simplifyNode c); ns ← simplify_kids cs; Ok (n :: ns)
  end.
Lemma simplifyNode_full cs fl : simplifyNode (fullNode cs fl) = (ns ← simplify_kids cs; Ok (RFull ns)).
Proof. reflexivity. Qed.

Lemma simplifyNode_hash n h : simplifyNode n = Ok (RHash h) -> n = hashNode h.
Proof.
  destruct n as [| |k v fl|cs fl|]; try done; [|rewrite simplifyNode_full; by destruct (simplify_kids cs)|by intros [= ->]].
  simpl. by destruct (simplifyNode v).
Qed.

Fixpoint estimate_kids (i : nat) (cs : list node) : go Z :=
  match i, cs with
  | S i, c :: cs => s ← (if is_nil c then Ok 1 else estimateSize c); r ← estimate_kids i cs; Ok (s + r)
  | _, _ => Ok 0
  end.
Lemma estimateSize_full cs fl : estimateSize (fullNode cs fl) = (s ← estimate_kids 16 cs; Ok (3 + s)).
Proof. reflexivity. Qed.

Lemma estimateSize_ok n c : simplifyNode n = Ok c -> exists sz, estimateSize n = Ok sz.
Proof.
  revert c. induction n as [n Hleaf|k v fl IH|cs fl IH] using node_nested_ind; intros c.
  - destruct n; try done; simpl; eauto.
  - simpl. destruct (simplifyNode v) as [cv| |]; try done. destruct (IH _ eq_refl) as [sz ->]. bind_simpl. eauto.
  - rewrite simplifyNode_full, estimateSize_full. destruct (simplify_kids cs) as [ns| |] eqn:E; try done. intros _.
    enough (Hs : forall i, exists sz, estimate_kids i cs = Ok sz).
    { destruct (Hs 16%nat) as [sz ->]. bind_simpl. eauto. }
    revert ns E. induction IH as [|x cs Hx _ IHcs]; intros ns E i; [destruct i; simpl; eauto|].
    simpl in E. destruct i as [|i]; [simpl; eauto|]. simpl.
    destruct (if is_nil x then Ok RNil else simplifyNode x) as [cx| |] eqn:Ex; try done.
    destruct (simplify_kids cs) as [ns'| |] eqn:E'; try done.
    assert (Hsx : exists s, (if is_nil x then Ok 1 else estimateSize x) = (Ok s : go Z)) by (destruct (is_nil x); eauto).
    destruct Hsx as [s ->]. bind_simpl. destruct (IHcs ns' eq_refl i) as [sz ->]. bind_simpl. eauto.
Qed.

Lemma store_sends n s :
  cache_hash n = Some (mhash s) -> simplifyNode n = Ok (mcnode s) -> callable n ->
  exists l, sends (store n) (hashNode (mhash s)) [l] /\ leaf_for s l.
Proof.
  intros Hh Hs Hc. destruct (estimateSize_ok n _ Hs) as [sz Hsz]. exists (Leaf sz (mhash s) n). split; [|done].
  split; intros; unfold store; rewrite Hh, Hsz; bind_simpl; rewrite mhash_id; [done|]. simpl.
  destruct (db_insert db (mhash s) sz n); by bind_simpl.
Qed.

Lemma store_small n : cache_hash n = None -> sends (store n) n [].
Proof. intros Hh. apply (sends_ext (fun st => Ok (n, st))); [|apply sends_ret]. intros st. unfold store. by rewrite Hh. Qed.

Context {db : NodeReader}.

(** What is sent for a tree, and the collapsed node [c] that refers to it. *)
Record delivers (t : tree) (ss : list tree) (ls : list leaf) (c : cnode) : Prop := {
  d_leaves : Forall2 leaf_for ss ls;
  d_subs : Forall (fun s => branch s /\ sub s t) ss;
  d_ready : ready (fun h => is_Some (db_node h)) ss;
  d_refs h : h ∈ forGatherChildren c -> is_Some (db_node h) \/ h ∈ map mhash ss;
  d_budget : budget ss <= match c with RHash _ => weight t | _ => weight_below t end;
  d_held db' : extends db db' -> Forall (fun s => db_node (NodeReader := db') (mhash s) = Some (loaded s)) ss ->
    held_below (db := db') t /\ (c = RHash (mhash t) -> db_node (NodeReader := db') (mhash t) = Some (loaded t));
}.

Lemma delivers_held t : branch t -> nonzero t -> held t -> delivers t [] [] (RHash (mhash t)).
Proof.
  intros Hb Hn Hh. split; try done; try (by constructor).
  - intros h Hin. simpl in Hin. apply list_elem_of_singleton in Hin as ->. rewrite mhash_id. left.
    destruct Hh as [-> _]. eauto.
  - apply weight_nonneg.
  - intros db' He _. destruct (held_mono db db' t He Hb Hn Hh). done.
Qed.

Lemma delivers_value v : delivers (TValue v) [] [] (RValue v).
Proof. split; try done; try (by constructor); by intros h ?%elem_of_nil. Qed.
Lemma delivers_empty : delivers TEmpty [] [] RNil.
Proof. split; try done; try (by constructor); by intros h ?%elem_of_nil. Qed.

Lemma mcnode_not_hash t h : mcnode t <> RHash h.
Proof. by destruct t. Qed.

Lemma delivers_child t ss ls : delivers t ss ls (mc_child t) -> forall db', extends db db' ->
  Forall (fun s => db_node (NodeReader := db') (mhash s) = Some (loaded s)) ss -> held_child (db := db') t.
Proof.
  intros Hd db' He Hs. destruct (d_held _ _ _ _ Hd db' He Hs) as [Hb Hn].
  destruct t; try done; (split; [|done]); intros Hsm; apply Hn; unfold mc_child; by rewrite Hsm.
Qed.

Lemma delivers_short k t ss ls : delivers t ss ls (mc_child t) -> delivers (TShort k t) ss ls (mcnode (TShort k t)).
Proof.
  intros Hd. pose proof (delivers_child t ss ls Hd) as Hc. destruct Hd as [Hl Hs Hr Href Hbud Hh]. split; try done.
  - eapply Forall_impl; [exact Hs|]. intros s [? ?]. split; [done|by constructor].
  - simpl. pose proof (weight_below_le t). destruct (mc_child t); lia.
  - intros db' He Hss. split; [exact (Hc db' He Hss)|]. by intros ?%mcnode_not_hash.
Qed.

(** The node itself is sent when it has a hash. *)
Lemma delivers_store (kids : cstate -> go (node * cstate (C := C))) n t ss ls :
  branch t -> sends kids n ls -> delivers t ss ls (mcnode t) -> simplifyNode n = Ok (mcnode t) -> callable n ->
  match cache_hash n with Some h => h = mhash t | None => True end ->
  exists r ls' ss', sends (fun st => '(n, st) ← kids st; store n st) r ls' /\
    simplifyNode r = Ok (match cache_hash n with Some _ => RHash (mhash t) | None => mcnode t end) /\
    delivers t ss' ls' (match cache_hash n with Some _ => RHash (mhash t) | None => mcnode t end).
Proof.
  intros Hb Hk Hd Hs Hcall Hh. destruct (cache_hash n) as [h|] eqn:Hc.
  - subst h. destruct (store_sends n t Hc Hs Hcall) as (l & Hst & Hl).
    exists (hashNode (mhash t)), (ls ++ [l]), (ss ++ [t]). split; [by eapply sends_bind|]. split; [done|].
    destruct Hd as [Hleaves Hsubs Hready Href Hbud Hheld]. split.
    + apply Forall2_app; [done|]. by constructor.
    + apply Forall_app. split; [done|]. apply Forall_singleton. split; [done|constructor].
    + apply ready_app; [done|]. split; [exact Href|done].
    + intros h Hin. simpl in Hin. apply list_elem_of_singleton in Hin as ->. rewrite mhash_id. right.
      rewrite map_app. apply elem_of_app. right. left.
    + unfold budget in *. rewrite map_app, zsum_app, (weight_split t) by done. simpl.
      destruct (mcnode t) eqn:E; try lia. by apply mcnode_not_hash in E.
    + intros db' He Hss. apply Forall_app in Hss as [Hss Ht]. rewrite Forall_singleton in Ht.
      destruct (Hheld db' He Hss) as [? _]. by split.
  - exists n, (ls ++ []), ss. split; [by eapply sends_bind; [|apply store_small]|]. rewrite app_nil_r. done.
Qed.

(** ** Full nodes *)

Definition commit_kid (c : node) (st : cstate (C := C)) : go (node * cstate) :=
  match c with nilNode | hashNode _ => Ok (c, st) | _ => commit c st end.

Fixpoint commit_kids (i : nat) (cs : list node) (st : cstate (C := C)) : go (list node * cstate) :=
  match i, cs with
  | S i, c :: cs =>
      '(c, st) ← commit_kid c st;
      '(cs, st) ← commit_kids i cs st;
      Ok (c :: cs, st)
  | _, _ => Ok (cs, st)
  end.

Lemma commit_full cs fl st :
  (fl_hash fl = None \/ fl_dirty fl = true) ->
  commit (fullNode cs fl) st =
  ('(n, st) ← ('(children, st) ← commit_kids 16 cs st; Ok (fullNode children fl, st)); store n st).
Proof.
  intros Hd. assert (Hrun : commit (fullNode cs fl) st = ('(children, st) ← commit_kids 16 cs st; store (fullNode children fl) st)).
  { cbn [commit cache_hash cache_dirty]. destruct (fl_hash fl), (fl_dirty fl); try reflexivity. by destruct Hd. }
  rewrite Hrun. destruct (commit_kids 16 cs st) as [[x y]| |]; by bind_simpl.
Qed.

Definition commit_val (v : node) (st : cstate (C := C)) : go (node * cstate) :=
  match v with fullNode _ _ => commit v st | _ => Ok (v, st) end.

Lemma commit_short k v fl st :
  (fl_hash fl = None \/ fl_dirty fl = true) -> hex_ok k ->
  commit (shortNode k v fl) st =
  ('(n, st) ← ('(val, st) ← commit_val v st; Ok (shortNode (compact k) val fl, st)); store n st).
Proof.
  intros Hd Hk. destruct (compact_ok k Hk) as [Hc _].
  assert (Hrun : commit (shortNode k v fl) st =
    ('(val, st) ← commit_val v st; key ← hexToCompact k; store (shortNode key val fl) st)).
  { cbn [commit cache_hash cache_dirty]. destruct (fl_hash fl), (fl_dirty fl); try reflexivity. by destruct Hd. }
  rewrite Hrun, Hc. destruct (commit_val v st) as [[x y]| |]; by bind_simpl.
Qed.

Definition kid_delivers (c : node) (t : tree) : Prop :=
  exists r ls ss, sends (commit_kid c) r ls /\
    (if is_nil r then Ok RNil else simplifyNode r) = Ok (mc_child t) /\ delivers t ss ls (mc_child t).

(** What is sent for a list of trees. *)
Record all_delivered (ts : list tree) (ss : list tree) (ls : list leaf) : Prop := {
  a_leaves : Forall2 leaf_for ss ls;
  a_subs : Forall (fun s => branch s /\ exists t, t ∈ ts /\ sub s t) ss;
  a_ready : ready (fun h => is_Some (db_node h)) ss;
  a_refs t h : t ∈ ts -> h ∈ forGatherChildren (mc_child t) -> is_Some (db_node h) \/ h ∈ map mhash ss;
  a_budget : budget ss <= zsum (map weight ts);
  a_held db' : extends db db' -> Forall (fun s => db_node (NodeReader := db') (mhash s) = Some (loaded s)) ss ->
    Forall (held_child (db := db')) ts;
}.

Lemma all_delivered_nil : all_delivered [] [] [].
Proof. split; try done; try (by constructor). by intros t h ?%elem_of_nil. Qed.

Lemma all_delivered_cons t ts ss ls ss' ls' :
  delivers t ss ls (mc_child t) -> all_delivered ts ss' ls' -> all_delivered (t :: ts) (ss ++ ss') (ls ++ ls').
Proof.
  intros Hd [Hl Hs Hr Href Hbud Hh]. pose proof (delivers_child _ _ _ Hd) as Hc. destruct Hd as [Hl0 Hs0 Hr0 Href0 Hbud0 _]. split.
  - by apply Forall2_app.
  - apply Forall_app. split; (eapply Forall_impl; [eassumption|]); intros s [Hb Hsub]; (split; [done|]).
    + exists t. split; [left|done].
    + destruct Hsub as (t' & ? & ?). exists t'. split; [by right|done].
  - apply ready_app; [done|]. eapply ready_mono; [|exact Hr]. by left.
  - intros t' h Hin Hh'. rewrite map_app, elem_of_app. apply elem_of_cons in Hin as [->|Hin].
    + destruct (Href0 h Hh'); [by left|right; by left].
    + destruct (Href t' h Hin Hh'); [by left|right; by right].
  - unfold budget in *. rewrite map_app, zsum_app. simpl. pose proof (weight_below_le t). destruct (mc_child t); lia.
  - intros db' He Hss. apply Forall_app in Hss as [H1 H2]. constructor; [by apply Hc|by apply Hh].
Qed.

Lemma commit_kids_spec i : forall cs ts,
  Forall2 kid_delivers (take i cs) (take i ts) ->
  exists rs ls ss, sends (commit_kids i cs) (rs ++ drop i cs) ls /\
    simplify_kids rs = Ok (map mc_child (take i ts)) /\ length rs = length (take i cs) /\ all_delivered (take i ts) ss ls.
Proof.
  induction i as [|i IH]; intros cs ts Hk.
  { exists [], [], []. split_and!; try done; [|apply all_delivered_nil]. apply sends_ret. }
  destruct cs as [|c cs], ts as [|t ts]; try (by inversion Hk).
  { exists [], [], []. split_and!; try done; [|apply all_delivered_nil]. apply sends_ret. }
  simpl in Hk. inversion Hk as [|? ? ? ? (r & ls & ss & Hsend & Hr & Hd) Hk']; subst.
  destruct (IH cs ts Hk') as (rs & ls' & ss' & Hsend' & Hrs & Hlen & Had).
  exists (r :: rs), (ls ++ ls'), (ss ++ ss'). split_and!; [|simpl; rewrite Hr; bind_simpl; by rewrite Hrs|simpl; lia|by apply all_delivered_cons].
  simpl. eapply (sends_bind (commit_kid c)); [done|]. rewrite <- (app_nil_r ls').
  by eapply (sends_bind (commit_kids i cs)); [|apply sends_ret].
Qed.

(** ** The committer on the nodes of a tree *)

(** Nodes without a hash are small. *)
Definition known (n : node) (t : tree) : Prop :=
  match n with shortNode _ _ fl | fullNode _ fl => fl_hash fl = None -> small t = true | _ => True end.

Definition collapses_to (n : node) (t : tree) : cnode :=
  match n with
  | hashNode _ => RHash (mhash t)
  | _ => match cache_hash n with Some _ => RHash (mhash t) | None => mcnode t end
  end.

Lemma collapses_child b n t : branch t -> rep (Below b) n t -> known n t -> collapses_to n t = mc_child t.
Proof.
  intros Hb Hr Hk. replace (mc_child t) with (if small t then mcnode t else RHash (mhash t)) by (by destruct t).
  destruct Hr as [| |k c fl t Hr Hf|cs fl ts Hr Hf|h n t Hdb Hn Hr Hh]; try done; simpl in *.
  - destruct (fl_hash fl); [|by rewrite Hk]. destruct Hf as (_ & [?| ->] & _); done.
  - destruct (fl_hash fl); [|by rewrite Hk]. destruct Hf as (_ & [?| ->] & _); done.
  - destruct Hh as (_ & [?| ->] & _); done.
Qed.

(** A child of a node whose hash is cached, or of a small node, is known. *)
Lemma known_child fl c t : rep (below fl) c t -> (fl_hash fl = None -> small t = true) -> known c t.
Proof.
  intros Hr Hs. unfold below in Hr.
  destruct Hr as [| |k c fl' t Hr Hf|cs fl' ts Hr Hf|]; try done; simpl in *; intros Hn; rewrite Hn in Hf;
    destruct Hf as [Hf _]; (destruct (fl_hash fl) as [x|]; [by apply Hf|by apply Hs]).
Qed.

Definition commits_node (n : node) (t : tree) : Prop :=
  exists r ls ss, sends (commit n) r ls /\ simplifyNode r = Ok (collapses_to n t) /\ delivers t ss ls (collapses_to n t).

Lemma commit_clean n h t :
  branch t -> nonzero t -> cache_hash n = Some h -> cache_dirty n = false -> h = mhash t -> held t -> commits_node n t.
Proof.
  intros Hb Hn Hc Hd -> Hh. exists (hashNode (mhash t)), [], []. split.
  - apply (sends_ext (fun st => Ok (hashNode (mhash t), st))); [|apply sends_ret].
    intros st. destruct n; try done; simpl in *; by rewrite Hc, Hd.
  - replace (collapses_to n t) with (RHash (mhash t)) by (destruct n; try done; simpl in *; by rewrite Hc).
    split; [done|by apply delivers_held].
Qed.

Lemma commit_hash p h t : nonzero t -> rep p (hashNode h) t -> commits_node (hashNode h) t.
Proof.
  intros Hnz Hr. pose proof (rep_branch _ _ _ Hr I) as Hb. inversion Hr as [| | | |? n' ? Hdb Hn Hr' (-> & _ & Hh)]; subst.
  exists (hashNode (mhash t)), [], []. split; [apply sends_ret|]. split; [done|]. by apply delivers_held.
Qed.

Lemma commit_val_full c t fl :
  branch t -> nonzero t -> rep (below fl) c t -> known c t -> match t with TFull _ => True | _ => False end ->
  (match c with fullNode _ _ => commits_node c t | _ => True end) ->
  exists r ls ss, sends (commit_val c) r ls /\ simplifyNode r = Ok (mc_child t) /\ delivers t ss ls (mc_child t).
Proof.
  intros Hb Hnz Hr Hk Ht IH. rewrite <- (collapses_child _ c t) by done.
  inversion Hr as [| |k v fl' t' Hr' Hf|cs fl' ts Hrs Hf|h n' ? Hdb Hn Hr' Hh]; subst; try done.
  exact (commit_hash _ _ _ Hnz Hr).
Qed.

Lemma commit_short_node p k v fl t :
  rep p (shortNode k v fl) (TShort k t) -> canon (TShort k t) -> hashable (TShort k t) -> nonzero (TShort k t) ->
  known (shortNode k v fl) (TShort k t) ->
  (forall t', rep (below fl) v t' -> canon t' -> hashable t' -> nonzero t' -> known v t' -> commits_node v t') ->
  commits_node (shortNode k v fl) (TShort k t).
Proof.
  intros Hr Hc Hh Hnz Hk IH. pose proof (nonzero_short _ _ Hnz) as Hnzt. inversion Hr as [| |? ? ? ? Hv Hf| |]; subst. inversion Hh as [| |? ? Hhex Hz Hne Hht|]; subst.
  destruct (decide (fl_hash fl = None \/ fl_dirty fl = true)) as [Hd|Hd].
  2: { destruct (fl_hash fl) as [h|] eqn:Efl; [|by destruct Hd; left]. destruct (fl_dirty fl) eqn:Edt; [by destruct Hd; right|].
       simpl in Hf. rewrite Efl in Hf. destruct Hf as (-> & _ & Hheld). by eapply commit_clean; [..|apply Hheld]. }
  assert (Hval : exists r ls ss, sends (commit_val v) r ls /\ simplifyNode r = Ok (mc_child t) /\ delivers t ss ls (mc_child t)).
  { inversion Hc as [ns v' Hns Hv'|ns ts Hns Hnn Hts|]; subst.
    - inversion Hv; subst; [|by destruct (rep_branch _ _ _ Hv)]. eexists _, [], []. split; [apply sends_ret|]. split; [done|]. apply delivers_value.
    - assert (Hkv : known v (TFull ts)) by (apply (known_child fl); [done|]; intros Hn; by eapply small_short; [apply Hk|]).
      apply (commit_val_full v (TFull ts) fl); try done. destruct v; try done. by apply IH. }
  destruct Hval as (r & ls & ss & Hsend & Hsimp & Hdel).
  destruct (delivers_store (fun st => '(val, st) ← commit_val v st; Ok (shortNode (compact k) val fl, st))
              (shortNode (compact k) r fl) (TShort k t) ss (ls ++ [])) as (r' & ls' & ss' & Hsend' & Hsimp' & Hdel'); try done.
  - by eapply sends_bind; [|apply sends_ret].
  - rewrite app_nil_r. by apply delivers_short.
  - rewrite mcnode_short. cbn [simplifyNode]. by rewrite Hsimp.
  - simpl in *. destruct (fl_hash fl); [apply Hf|done].
  - exists r', ls', ss'. split; [|by split]. eapply sends_ext; [|exact Hsend']. intros st. symmetry. by apply commit_short.
Qed.

Lemma simplify_kids_app a b ca cb :
  simplify_kids a = Ok ca -> simplify_kids b = Ok cb -> simplify_kids (a ++ b) = Ok (ca ++ cb).
Proof.
  revert ca. induction a as [|x a IH]; intros ca; simpl; [by intros [= <-] ?|].
  destruct (if is_nil x then Ok RNil else simplifyNode x); try done. bind_simpl.
  destruct (simplify_kids a) as [ca'| |]; try done. bind_simpl. intros [= <-] Hb. by rewrite (IH ca' eq_refl Hb).
Qed.

Lemma delivers_full ts ss ls :
  length ts = 17%nat -> (forall t, ts !! 16%nat = Some t -> value_child t) ->
  all_delivered (take 16 ts) ss ls -> delivers (TFull ts) ss ls (mcnode (TFull ts)).
Proof.
  intros Hlen Hval [Hl Hs Hr Href Hbud Hh]. split; try done.
  - eapply Forall_impl; [exact Hs|]. intros s [Hb (t & Hin & Hsub)]. split; [done|]. eapply sub_full; [|done].
    rewrite <- (take_drop 16 ts), elem_of_app. by left.
  - rewrite mcnode_full. intros h Hin. apply forGather_full in Hin as (i & c & Hi & Hc & Hin).
    change (map mc_child ts) with (mc_child <$> ts) in Hc. rewrite list_lookup_fmap in Hc.
    destruct (ts !! i) as [t|] eqn:Ht; [|done]. injection Hc as <-. apply (Href t h); [|done].
    apply list_elem_of_lookup_2 with i. by rewrite lookup_take_lt.
  - simpl. rewrite <- (take_drop 16 ts), map_app, zsum_app. pose proof (weights_nonneg (drop 16 ts)). lia.
  - intros db' He Hss. split; [|by intros ?%mcnode_not_hash]. apply held_full.
    rewrite <- (take_drop 16 ts). apply Forall_app. split; [by apply Hh|].
    apply Forall_lookup_2. intros i t Ht. rewrite lookup_drop in Ht.
    assert (i = 0%nat) as -> by (apply lookup_lt_Some in Ht; lia). destruct (Hval t Ht) as [->|(v & -> & _)]; done.
Qed.

Lemma commit_kid_spec fl c t :
  rep (below fl) c t -> t = TEmpty \/ canon t /\ known c t /\ commits_node c t -> kid_delivers c t.
Proof.
  intros Hr [->|(Hc & Hk & r & ls & ss & Hsend & Hsimp & Hd)].
  - inversion Hr; subst; [|by destruct (rep_branch _ _ _ Hr)]. eexists _, [], [].
    split; [apply sends_ret|]. split; [done|apply delivers_empty].
  - pose proof (canon_branch_tree _ Hc) as Hb. rewrite (collapses_child _ c t) in Hsimp, Hd by done.
    exists r, ls, ss. split; [|split; [|done]].
    + by inversion Hr; subst.
    + destruct r; try done.
Qed.

Lemma commit_full_node p cs fl ts :
  rep p (fullNode cs fl) (TFull ts) -> canon (TFull ts) -> hashable (TFull ts) -> nonzero (TFull ts) ->
  known (fullNode cs fl) (TFull ts) ->
  Forall (fun c => forall p t, rep p c t -> canon t -> hashable t -> nonzero t -> known c t -> commits_node c t) cs ->
  commits_node (fullNode cs fl) (TFull ts).
Proof.
  intros Hr Hc Hh Hnz Hk IH. inversion Hr as [| | |? ? ? Hrs Hf|]; subst. inversion Hh as [| | |? Hlen Hhs Hval]; subst.
  destruct (decide (fl_hash fl = None \/ fl_dirty fl = true)) as [Hd|Hd].
  2: { destruct (fl_hash fl) as [h|] eqn:Efl; [|by destruct Hd; left]. destruct (fl_dirty fl) eqn:Edt; [by destruct Hd; right|].
       simpl in Hf. rewrite Efl in Hf. destruct Hf as (-> & _ & Hheld). by eapply commit_clean; [..|apply Hheld]. }
  destruct (commit_kids_spec 16 cs ts) as (rs & ls & ss & Hsend & Hsimp & Hrlen & Had).
  { apply Forall2_same_length_lookup_2; [apply Forall2_length in Hrs; rewrite !length_take; lia|].
    intros i c t Hci Hti. apply lookup_take_Some in Hci as [Hci Hi], Hti as [Hti _].
    pose proof (Forall2_lookup_lr _ _ _ _ _ _ Hrs Hci Hti) as Hrc. apply (commit_kid_spec fl); [done|].
    destruct (canon_child_cases _ _ _ Hc Hti) as [->|[[Hct _]|[_ ->]]]; [by left| |lia]. right.
    assert (Hkc : known c t).
    { apply (known_child fl); [done|]. intros Hn. apply (small_full ts); [by apply Hk|by eapply list_elem_of_lookup_2|].
      by apply canon_branch_tree. }
    split_and!; try done. eapply (Forall_lookup_1 _ _ _ _ IH Hci); try done; [by apply (Forall_lookup_1 _ _ _ _ Hhs Hti)|].
    eapply nonzero_full; [done|by eapply list_elem_of_lookup_2]. }
  assert (Hl17 : length cs = 17%nat) by (apply Forall2_length in Hrs; lia).
  destruct (lookup_lt_is_Some_2 cs 16) as [c16 Hc16]; [lia|]. destruct (lookup_lt_is_Some_2 ts 16) as [t16 Ht16]; [lia|].
  assert (Hdc : drop 16 cs = [c16]) by (rewrite (drop_S _ c16) by done; f_equal; apply drop_ge; lia).
  assert (Hdt : ts = take 16 ts ++ [t16])
    by (rewrite <- (take_drop 16 ts) at 1; f_equal; rewrite (drop_S _ t16) by done; f_equal; apply drop_ge; lia).
  assert (Hlast : (c16 = nilNode \/ exists v, c16 = valueNode v) /\ simplify_kids [c16] = Ok [mc_child t16]).
  { pose proof (Forall2_lookup_lr _ _ _ _ _ _ Hrs Hc16 Ht16) as Hr16.
    destruct (Hval t16 Ht16) as [->|(v & -> & _)]; inversion Hr16; subst; eauto; by destruct (rep_branch _ _ _ Hr16). }
  rewrite Hdc in Hsend. destruct Hlast as [Hlast Hsimp16]. rewrite length_take in Hrlen.
  destruct (delivers_store (fun st => '(children, st) ← commit_kids 16 cs st; Ok (fullNode children fl, st))
              (fullNode (rs ++ [c16]) fl) (TFull ts) ss (ls ++ [])) as (r' & ls' & ss' & Hsend' & Hsimp' & Hdel'); try done.
  - by eapply sends_bind; [|apply sends_ret].
  - rewrite app_nil_r. by apply delivers_full.
  - rewrite simplifyNode_full, (simplify_kids_app rs [c16] _ _ Hsimp Hsimp16). bind_simpl.
    rewrite mcnode_full. rewrite Hdt at 2. by rewrite map_app.
  - exists c16. split; [|done]. rewrite lookup_app_r by lia. replace (16 - length rs)%nat with 0%nat by lia. done.
  - simpl in *. destruct (fl_hash fl); [apply Hf|done].
  - exists r', ls', ss'. split; [|by split]. eapply sends_ext; [|exact Hsend']. intros st. symmetry. by apply commit_full.
Qed.

Lemma commit_spec n : forall p t, rep p n t -> canon t -> hashable t -> nonzero t -> known n t -> commits_node n t.
Proof.
  induction n as [n Hleaf|k v fl IH|cs fl IH] using node_nested_ind; intros p t Hr Hc Hh Hnz Hk.
  - pose proof (canon_branch_tree _ Hc). destruct Hr; try done. eapply commit_hash; [done|]. by econstructor.
  - inversion Hr; subst. eapply commit_short_node; try done. intros t'. apply IH.
  - inversion Hr; subst. by eapply commit_full_node.
Qed.

Lemma sub_ok s t : sub s t -> canon0 t \/ (exists v, t = TValue v) -> hashable t -> branch s -> canon s /\ hashable s /\ rlp_spec (mitem s) ∈ encodings t.
Proof.
  induction 1 as [|k t Hs IH|t ts Hin Hs IH]; intros Hc Hh Hb.
  - destruct Hc as [[->|?]|[v ->]]; try done. split_and!; try done. destruct s; left.
  - destruct Hc as [[?|Hc]|[? ?]]; try done. inversion Hh; subst.
    destruct IH as (? & ? & ?); [|done|done|].
    + inversion Hc; subst; [right; eauto|left; by right].
    + split_and!; try done. by right.
  - destruct Hc as [[?|Hc]|[? ?]]; try done. inversion Hh as [| | |? _ Hhs _]; subst.
    apply list_elem_of_lookup in Hin as [i Hi].
    destruct IH as (? & ? & ?); [|by apply (Forall_lookup_1 _ _ _ _ Hhs Hi)|done|].
    + destruct (canon_child_cases _ _ _ Hc Hi) as [->|[[? _]|[? _]]]; [left; by left|left; by right|by right].
    + split_and!; try done. by eapply encodings_child.
Qed.
End commit_spec.

(** ** The leaves reach the database *)

Section database.
Context {K : Keccak} {C : Type} {CC : CleanCache C} {MO : MapOrder}.
Context (rank : hash_t -> nat).
Implicit Types (db : Database C).

(** The trie database as the reader of tries. *)
Definition db_reader db : NodeReader := fun h => match db_lookup db h with Ok (Some n, _) => Some n | _ => None end.

(** The node of a cached entry is the one that its encoding stands for. *)
Definition obj_ok db : Prop :=
  forall h n b, dirties db !! h = Some n -> h <> zeroHash -> cached_rlp n = Ok b ->
  cached_obj n h = mustDecodeNode (Some h) b.

Definition decoded (h : hash_t) (b : list Z) : option node :=
  match mustDecodeNode (Some h) b with Ok n => Some n | _ => None end.

Lemma reader_content db h :
  sound rank db -> obj_ok db -> zlen h = 32 -> h <> zeroHash -> db_reader db h = content db h ≫= decoded h.
Proof.
  intros Hs Ho Hl Hz. unfold db_reader, db_lookup, content, decoded. pose proof (s_clean _ _ Hs h) as Hcl.
  destruct (get_clean db h) as [b|].
  - specialize (Hcl b Hl eq_refl). destruct (dirties db !! h) as [n|] eqn:Hn; [|rewrite Hcl; simpl; by destruct (mustDecodeNode _ _)].
    destruct (s_blob _ _ Hs h n Hn Hz) as (b' & -> & Hsame). rewrite (Hsame b Hcl). simpl. by destruct (mustDecodeNode _ _).
  - destruct (dirties db !! h) as [n|] eqn:Hn.
    + destruct (s_blob _ _ Hs h n Hn Hz) as (b & Hb & _). rewrite (Ho h n b Hn Hz Hb), Hb. simpl. by destruct (mustDecodeNode _ _).
    + destruct (d_data (diskdb db) !! h) as [b|]; [|done]. simpl. by destruct (mustDecodeNode _ _).
Qed.

(** There is room for [k] more references to every node. *)
Definition room (k : Z) db : Prop := forall h n, dirties db !! h = Some n -> cn_parents n + k < 2 ^ 32.
Definition good (k : Z) db : Prop := sound rank db /\ obj_ok db /\ room k db.

Lemma good_le k k' db : k' <= k -> good k db -> good k' db.
Proof. intros Hk (? & ? & Hr). split_and!; try done. intros h n Hn. specialize (Hr h n Hn). lia. Qed.

(** The references between the nodes of the tree go down in rank. *)
Definition ranked (s : tree) : Prop :=
  (rank (mhash s) < rank zeroHash)%nat /\ forall h, h ∈ forGatherChildren (mcnode s) -> (rank h < rank (mhash s))%nat.

Definition blob_of (s : tree) : list Z := rlp_spec (mitem s).

Lemma occ_le h l : occ h l <= zlen l.
Proof. unfold occ, zlen. pose proof (length_filter (.= h) l). lia. Qed.

Lemma insert_leaf k db s l :
  0 <= k -> good (own s + k) db -> leaf_for s l -> canon s -> hashable s -> ranked s ->
  (forall b, content db (mhash s) = Some b -> b = blob_of s) ->
  (forall h, h ∈ forGatherChildren (mcnode s) -> is_Some (content db h)) ->
  exists db', db_insert db (lf_hash l) (lf_size l) (lf_node l) = Ok db' /\ good (k + 1) db' /\ same_env db db' /\ is_Some (dirties db' !! mhash s) /\
    content db' (mhash s) = Some (blob_of s) /\ forall h, h <> mhash s -> content db' h = content db h.
Proof.
  intros Hk Hg (Hh & Hsimp & _) Hc Hhash [Htop Hrank] Hsame Hrefs. pose proof Hg as (Hs & Ho & Hroom). rewrite Hh.
  assert (Hz : mhash s <> zeroHash) by (intros He; rewrite He in Htop; lia). pose proof (canon_branch_tree _ Hc) as Hb.
  assert (Hown : 1 + k <= own s + k /\ zlen (forGatherChildren (mcnode s)) = own s - 1) by (pose proof (own_pos s); unfold own in *; lia).
  destruct (dirties db !! mhash s) as [n|] eqn:Hn.
  { exists db. unfold db_insert. rewrite Hn. split; [done|]. split; [eapply good_le; [|done]; lia|]. split; [done|]. split; [by eexists|]. split; [|done].
    destruct (s_blob _ _ Hs _ n Hn Hz) as (b & Hbl & _).
    assert (Hcb : content db (mhash s) = Some b) by (unfold content; by rewrite Hn, Hbl).
    rewrite Hcb. f_equal. by apply Hsame. }
  assert (Hi : insertable rank db (mhash s) (lf_node l) (mcnode s) (blob_of s)).
  { split; try done.
    - by apply cached_mcnode.
    - intros b Hbd. apply Hsame. unfold content. by rewrite Hn.
    - apply keccak_len.
    - intros h Hin. split; [by apply Hrank|by apply Hrefs].
    - intros h n' Hn'. specialize (Hroom h n' Hn'). pose proof (occ_le h (forGatherChildren (mcnode s))). lia. }
  destruct (db_insert_fresh rank db (mhash s) (lf_size l) (lf_node l) _ _ Hs Hi Hn)
    as (db' & Hrun & Hs' & [Henv Hmv] & Hcs & Hco).
  assert (Hself : is_Some (dirties db' !! mhash s)).
  { specialize (Hmv (mhash s)). rewrite (insert_lookup rank db _ _ _ (blob_of s)), decide_True in Hmv by done. inversion Hmv; by eexists. }
  exists db'. split; [done|]. split; [|done]. split; [done|].
  assert (Hback : forall h n', dirties db' !! h = Some n' -> exists n0, near n' n0 /\
            if decide (h = mhash s) then cn_node n0 = mcnode s /\ cn_parents n0 = 0
            else exists n1, dirties db !! h = Some n1 /\ n0 = add_refs (forGatherChildren (mcnode s)) h n1).
  { intros h n' Hn'. destruct (moved_Some (dirties db') _ h n' ltac:(by symmetry) Hn') as (n0 & Hn0 & Hnear).
    rewrite (insert_lookup rank db _ _ _ (blob_of s)) in Hn0 by done. exists n0. split; [done|].
    destruct (decide (h = mhash s)); [injection Hn0 as <-; done|].
    destruct (dirties db !! h) as [n1|]; [|done]. injection Hn0 as <-. eauto. }
  split.
  - intros h n' b Hn' Hhz Hb'. destruct (Hback h n' Hn') as (n0 & (Hnode & _) & Hd).
    unfold cached_obj. unfold cached_rlp in Hb'. rewrite Hnode in *. destruct (decide (h = mhash s)) as [->|_].
    + destruct Hd as [Hd _]. fold (cached_rlp n0) in Hb'. rewrite (cached_mcnode s n0) in Hb' by done. injection Hb' as <-.
      rewrite decode_mnode, Hd by done. destruct (mcnode s) eqn:E; try (by destruct s);
        rewrite <- E; apply expand_mcnode; try done; by destruct s.
    + destruct Hd as (n1 & Hn1 & ->). exact (Ho h n1 b Hn1 Hhz Hb').
  - intros h n' Hn'. destruct (Hback h n' Hn') as (n0 & (_ & _ & Hp & _) & Hd). rewrite Hp.
    destruct (wf_meta _ _ _ (s_wf _ _ Hs)) as (meta & Hm & _). pose proof (Hroom _ _ Hm) as Hmr.
    pose proof (wf_nodes _ _ _ (s_wf _ _ Hs) _ _ Hm) as [Hpos _]. destruct (decide (h = mhash s)) as [->|_].
    + destruct Hd as [_ ->]. lia.
    + destruct Hd as (n1 & Hn1 & ->). specialize (Hroom h n1 Hn1). simpl. pose proof (occ_le h (forGatherChildren (mcnode s))). lia.
Qed.

(** A reference from a node that is there uses up the room of one reference. *)
Lemma reference_good k db child parent :
  0 <= k -> good (k + 1) db -> (rank child < rank parent)%nat -> parent <> zeroHash -> is_Some (dirties db !! parent) ->
  exists db', reference db child parent = Ok db' /\ good k db' /\ same_env db db' /\ forall h, content db' h = content db h.
Proof.
  intros Hk Hg Hrk Hz [pn Hp]. pose proof Hg as (Hs & Ho & Hroom).
  assert (Hstay : reference db child parent = Ok db -> exists db', reference db child parent = Ok db' /\ good k db' /\ same_env db db' /\ forall h, content db' h = content db h).
  { intros Hr. exists db. split_and!; try done. eapply good_le; [|done]. lia. }
  destruct (dirties db !! child) as [node|] eqn:Hc; [|apply Hstay; unfold reference; by rewrite Hc].
  destruct (default ∅ (cn_children pn) !! child) as [c|] eqn:Hx.
  { apply Hstay. unfold reference. rewrite Hc, Hp. destruct (cn_children pn) as [m|]; [|simpl in Hx; by rewrite lookup_empty in Hx]. simpl in Hx.
    rewrite Hx, !bool_decide_true by (done || by eexists). done. }
  pose proof (Hroom _ _ Hc) as Hrc. assert (He : ext pn child = 0) by (unfold ext; by rewrite Hx).
  destruct (reference_spec rank db child parent Hs) as (db' & Hrun & Hs' & Henv & Hcont).
  { split_and!; [done|by eexists|intros n Hn; simplify_eq; lia|intros p Hp'; simplify_eq; lia]. }
  exists db'. split_and!; try done. pose proof (wf_nodes _ _ _ (s_wf _ _ Hs) _ _ Hc) as [Hpos _].
  destruct (reference_shape db child parent node pn) as (db1 & Hrun1 & Hsh); try done; [by intros ->; lia|lia..|].
  rewrite Hrun in Hrun1. injection Hrun1 as <-. destruct Hsh as [->|(Hd & _)]; [eapply good_le; [|done]; lia|].
  assert (Hback : forall h n', dirties db' !! h = Some n' -> exists n, dirties db !! h = Some n /\ cn_node n' = cn_node n /\ cn_parents n' <= cn_parents n + 1).
  { rewrite Hd. intros h n' Hn'. apply lookup_insert_Some in Hn' as [[<- <-]|[_ Hn']]; [exists pn; split_and!; [done..|simpl; lia]|].
    apply lookup_insert_Some in Hn' as [[<- <-]|[_ Hn']]; [exists node|exists n']; split_and!; simpl; try done; lia. }
  split_and!; [done| |].
  - intros h n' b Hn' Hhz. destruct (Hback h n' Hn') as (n & Hn & Hnode & _). unfold cached_rlp, cached_obj. rewrite Hnode. by apply Ho.
  - intros h n' Hn'. destruct (Hback h n' Hn') as (n & Hn & _ & Hle). specialize (Hroom h n Hn). lia.
Qed.

(** The value at a node of the tree. *)
Definition leaf_value (s : tree) (v : list Z) : Prop :=
  match s with TShort _ (TValue w) => v = w | TFull ts => ts !! 16%nat = Some (TValue v) | _ => False end.

(** A leaf callback that adds at most one reference for the values [P], below
    nodes that are there, and reads what it wants. *)
Definition callback_ok (P : list Z -> hash_t -> Prop) (f : LeafCallback (C := C)) : Prop :=
  forall v h k db, P v h -> is_Some (dirties db !! h) -> 0 <= k -> good (k + 1) db ->
  exists db', f v h db = Ok db' /\ good k db' /\ same_env db db' /\ forall x, content db' x = content db x.

Lemma mc_child_value t v : mc_child t = RValue v -> t = TValue v.
Proof. destruct t; simpl; try done; [by intros [= ->]|by destruct (small _)..]. Qed.

Lemma simplify_kids_lookup cs ns i c :
  simplify_kids cs = Ok ns -> cs !! i = Some c -> exists x, ns !! i = Some x /\ (if is_nil c then Ok RNil else simplifyNode c) = (Ok x : go cnode).
Proof.
  revert ns i. induction cs as [|c0 cs IH]; intros ns i H Hi; [done|]. cbn [simplify_kids] in H. outcome_inv H.
  destruct i as [|i]; [injection Hi as ->; by exists r|]. by apply (IH _ i Hr0).
Qed.

Lemma leaf_for_value s l v : leaf_for s l ->
  (exists k fl, lf_node l = shortNode k (valueNode v) fl) \/ (exists cs fl, lf_node l = fullNode cs fl /\ cs !! 16%nat = Some (valueNode v)) -> leaf_value s v.
Proof.
  intros (_ & Hsimp & _) [(k & fl & E)|(cs & fl & E & Hv)]; rewrite E in Hsimp.
  - simpl in Hsimp. injection Hsimp as Hs. destruct s as [| |k' t|ts]; try done. rewrite mcnode_short in Hs. injection Hs as _ Hs.
    symmetry in Hs. by apply mc_child_value in Hs as ->.
  - rewrite simplifyNode_full in Hsimp. destruct (simplify_kids cs) as [ns| |] eqn:Hk; try done. simpl in Hsimp. injection Hsimp as Hs.
    destruct s as [| |k' t|ts]; try done. rewrite mcnode_full in Hs. injection Hs as Hs.
    destruct (simplify_kids_lookup cs ns 16 (valueNode v) Hk Hv) as (x & Hx & [= <-]). rewrite Hs in Hx. apply list_lookup_fmap_Some in Hx as (t & Hx & Ht).
    simpl. rewrite Ht. symmetry in Hx. by apply mc_child_value in Hx as ->.
Qed.

Lemma on_leaf_ok onleaf P k db s l :
  (forall f, onleaf = Some f -> callback_ok P f) -> leaf_for s l -> (forall v, leaf_value s v -> P v (mhash s)) ->
  is_Some (dirties db !! mhash s) -> 0 <= k -> good (k + 1) db ->
  exists db', on_leaf onleaf (lf_node l) (lf_hash l) db = Ok db' /\ good k db' /\ same_env db db' /\ forall x, content db' x = content db x.
Proof.
  intros Hf Hl HP Hd Hk Hg. assert (Hstay : exists db', Ok db = (Ok db' : go _) /\ good k db' /\ same_env db db' /\ forall x, content db' x = content db x).
  { exists db. split_and!; try done. eapply good_le; [|done]. lia. }
  destruct onleaf as [f|]; [|done]. specialize (Hf f eq_refl). pose proof (leaf_for_value s l) as Hv. pose proof Hl as (-> & _ & Hc). unfold on_leaf.
  destruct (lf_node l) as [| |k' v fl|cs fl|] eqn:E; try done.
  - destruct v; try done. apply Hf; [|done..]. apply HP, Hv; [done|]. left. by eexists _, _.
  - destruct Hc as (c & Hc & [->|[v ->]]); rewrite Hc; [done|]. apply Hf; [|done..]. apply HP, Hv; [done|]. right. by eexists _, _.
Qed.

(** The content of the database after the leaves of [ss]. *)
Definition added (ss : list tree) db db' : Prop :=
  (forall s, s ∈ ss -> content db' (mhash s) = Some (blob_of s)) /\
  (forall h, content db' h = content db h \/ exists s, s ∈ ss /\ h = mhash s).

Definition distinct (ss : list tree) db : Prop :=
  (forall s b, s ∈ ss -> content db (mhash s) = Some b -> b = blob_of s) /\
  (forall s s', s ∈ ss -> s' ∈ ss -> mhash s = mhash s' -> blob_of s = blob_of s').

Lemma commitLoop_spec onleaf P ss : forall ls db k,
  (forall f, onleaf = Some f -> callback_ok P f) -> (forall s v, s ∈ ss -> leaf_value s v -> P v (mhash s)) -> 0 <= k -> good (budget ss + k) db -> Forall2 leaf_for ss ls ->
  Forall (fun s => canon s /\ hashable s /\ ranked s) ss -> ready (fun h => is_Some (content db h)) ss -> distinct ss db ->
  exists db', commitLoop onleaf ls db = Ok db' /\ good k db' /\ same_env db db' /\ added ss db db'.
Proof.
  induction ss as [|s ss IH]; intros ls db k Hf HP Hk Hg Hls Hok Hr [Hd1 Hd2].
  { inversion Hls; subst. exists db. split; [done|]. split; [done|]. split; [done|]. split; [by intros s ?%elem_of_nil|by left]. }
  inversion Hls as [|? l ? ls' Hl Hls']; subst. inversion Hok as [|? ? (Hc & Hh & Hrk) Hok']; subst.
  destruct Hr as [Hrs Hr']. change (budget (s :: ss)) with (own s + budget ss) in Hg.
  assert (Hbn : 0 <= budget ss).
  { unfold budget, zsum. clear. induction ss as [|s ss IH]; simpl; [lia|]. pose proof (own_pos s). lia. }
  destruct (insert_leaf (budget ss + k) db s l) as (db1 & Hrun1 & Hg1 & He1 & Hin1 & Hcs & Hco); try done;
    [lia|by rewrite Z.add_assoc|by intros b; apply Hd1; left|].
  destruct (on_leaf_ok onleaf P (budget ss + k) db1 s l) as (db2 & Hrun2 & Hg2 & He2 & Hsame); [done|done|intros v; apply HP; left|done|lia|done|].
  cbn [commitLoop]. rewrite Hrun1. bind_simpl. rewrite Hrun2. bind_simpl.
  assert (Hstep : forall h, content db2 h = content db h \/ h = mhash s).
  { intros h. rewrite Hsame. destruct (decide (h = mhash s)); [by right|left; by apply Hco]. }
  assert (Hself : content db2 (mhash s) = Some (blob_of s)) by (by rewrite Hsame).
  destruct (IH ls' db2 k) as (db3 & Hrun3 & Hg3 & He3 & Ha1 & Ha2); try done; [intros s' v Hin; apply HP; by right|..].
  { eapply ready_mono; [|exact Hr']. intros h Hh'.
    destruct (Hstep h) as [He| ->]; [|rewrite Hself; eauto]. destruct Hh' as [?| ->]; [by rewrite He|rewrite Hself; eauto]. }
  { split; [|intros s1 s2 H1 H2; apply Hd2; by right]. intros s' b Hin Hcb. destruct (Hstep (mhash s')) as [He|He].
    - apply Hd1; [by right|congruence].
    - rewrite He, Hself in Hcb. injection Hcb as <-. symmetry. by apply Hd2; [right|left|]. }
  exists db3. split; [done|]. split; [done|]. split; [by do 2 (eapply same_env_trans; [done|])|]. split.
  - intros s' [->|Hin]%elem_of_cons; [|by apply Ha1]. destruct (Ha2 (mhash s)) as [->|(s' & Hin & He)]; [done|].
    rewrite He, Ha1 by done. f_equal. apply Hd2; [by right|left|done].
  - intros h. destruct (Ha2 h) as [->|(s' & Hin & He)]; [destruct (Hstep h) as [?| ->]; [by left|right; exists s; by split; [left|]]|].
    right. exists s'. split; [by right|done].
Qed.

(** ** Committing keeps the map *)

(** Tries that read the database. *)
Abbreviation mrep db := (rep (db := db_reader db) (G := merkle (db := db_reader db))).
Abbreviation mstores db := (stores (db := db_reader db) (G := merkle (db := db_reader db))).

(** What is assumed of the database and the tree: contents are stored under
    their hash, the hash function has no collision among them, and no chain of
    references leads back. *)
Definition sealed db : Prop :=
  forall h b, zlen h = 32 -> h <> zeroHash -> content db h = Some b -> keccak256 b = h.
Definition collision_free db (T : tree) : Prop :=
  forall b b', b = [0x80] \/ b ∈ encodings T \/ (exists h, zlen h = 32 /\ h <> zeroHash /\ content db h = Some b) ->
  b' ∈ encodings T -> keccak256 b = keccak256 b' -> b = b'.
Definition acyclic (T : tree) : Prop := forall s, branch s -> sub s T -> ranked s.

Lemma acyclic_nonzero T : acyclic T -> nonzero T.
Proof. intros Ha s Hb Hs He. destruct (Ha s Hb Hs) as [Ht _]. rewrite He in Ht. lia. Qed.

Lemma ready_impl (H H' : hash_t -> Prop) ss :
  Forall ranked ss -> (forall h, zlen h = 32 -> h <> zeroHash -> H h -> H' h) -> ready H ss -> ready H' ss.
Proof.
  intros Hrk. revert H H'. induction Hrk as [|s ss [Htop Hr] _ IH]; intros H H' HH; [done|]. intros [Hs Hss]. split.
  - intros h Hin. apply HH; [|intros ->; specialize (Hr _ Hin); lia|by apply Hs]. by eapply gather_len.
  - eapply IH; [|exact Hss]. intros h Hl Hz [?|?]; [left; by apply HH|by right].
Qed.

Lemma content_reader db h : sound rank db -> obj_ok db -> zlen h = 32 -> h <> zeroHash ->
  is_Some (db_reader db h) -> is_Some (content db h).
Proof. intros Hs Ho Hl Hz. rewrite reader_content by done. destruct (content db h); [eauto|]. by intros [? ?]. Qed.

Lemma reader_blob db s :
  sound rank db -> obj_ok db -> canon s -> hashable s -> mhash s <> zeroHash -> content db (mhash s) = Some (blob_of s) ->
  db_reader db (mhash s) = Some (loaded s).
Proof.
  intros Hs Ho Hc Hh Hz Hb. rewrite reader_content, Hb by (done || apply keccak_len). simpl. unfold decoded, blob_of.
  by rewrite decode_mnode.
Qed.

Lemma added_extends db db' ss :
  good 0 db -> good 0 db' -> added ss db db' -> distinct ss db -> extends (db_reader db) (db_reader db').
Proof.
  intros (Hs & Ho & _) (Hs' & Ho' & _) [Ha1 Ha2] [Hd _] h n Hl Hz. rewrite !reader_content by done.
  destruct (Ha2 h) as [->|(s & Hin & ->)]; [done|]. rewrite Ha1 by done.
  destruct (content db (mhash s)) as [b|] eqn:Hb; [|done]. by rewrite (Hd s b Hin Hb).
Qed.

(** The values of a tree, with the hashes of their nodes. *)
Definition leaves (T : tree) (v : list Z) (h : hash_t) : Prop := exists s, branch s /\ sub s T /\ leaf_value s v /\ h = mhash s.

(** The database after a commit of [T]: what was there is there, and what is
    new are nodes of [T]. *)
Record grown (k : Z) (T : tree) db db' : Prop := {
  gr_good : good k db';
  gr_env : same_env db db';
  gr_keeps h b : content db h = Some b -> content db' h = Some b;
  gr_new h : content db' h = content db h \/ exists s, branch s /\ sub s T /\ h = mhash s /\ content db' h = Some (blob_of s);
  gr_extends : extends (db_reader db) (db_reader db');
}.

Lemma grown_refl k k' T db : k <= k' -> good k' db -> grown k T db db.
Proof. intros Hk Hg. split; [by eapply good_le|done|done|by left|]. by intros h n. Qed.

(** The leaves of a tree are put in the database. *)
Lemma commit_tree onleaf k db n T :
  (forall f, onleaf = Some f -> callback_ok (leaves T) f) -> 0 <= k ->
  mrep db Root n T -> known n T -> canon T -> hashable T ->
  good (weight T + k) db -> sealed db -> collision_free db T -> acyclic T ->
  exists r ls db', sends (C := C) (commit n) r ls /\ simplifyNode r = Ok (collapses_to n T) /\ commitLoop onleaf ls db = Ok db' /\
    grown k T db db' /\ held_below (db := db_reader db') T /\
    (collapses_to n T = RHash (mhash T) -> held (db := db_reader db') T).
Proof.
  intros Hf Hk0 Hr Hk Hc Hh Hg Hse Hcf Ha. pose proof (acyclic_nonzero T Ha) as Hnz. pose proof Hg as (Hs & Ho & _).
  destruct (commit_spec (C := C) (db := db_reader db) n Root T Hr Hc Hh Hnz Hk) as (r & ls & ss & Hsend & Hsimp & [Hl Hsub Hrd Href Hbud Hheld]).
  assert (Hss : Forall (fun s => canon s /\ hashable s /\ ranked s) ss).
  { eapply Forall_impl; [exact Hsub|]. intros s [Hb Hst]. destruct (sub_ok s T Hst) as (? & ? & _); [left; by right|done|done|].
    split_and!; try done. by apply Ha. }
  assert (Hpre : forall s, s ∈ ss -> blob_of s ∈ encodings T /\ mhash s <> zeroHash).
  { intros s Hin. rewrite Forall_forall in Hsub. destruct (Hsub s Hin) as [Hb Hst].
    destruct (sub_ok s T Hst) as (_ & _ & ?); [left; by right|done|done|]. split; [done|by apply Hnz]. }
  assert (Hdist : distinct ss db).
  { split.
    - intros s b Hin Hcb. destruct (Hpre s Hin) as [Hp Hz]. apply Hcf; [right; right; exists (mhash s); split; [apply keccak_len|done]|done|].
      by apply Hse; [apply keccak_len| |].
    - intros s s' Hin Hin' He. apply Hcf; [right; left; by apply Hpre|by apply Hpre|done]. }
  assert (Hwt : budget ss + k <= weight T + k) by (pose proof (weight_below_le T); destruct (collapses_to n T); lia).
  destruct (commitLoop_spec onleaf (leaves T) ss ls db k) as (db' & Hrun & Hg' & Henv & Hadd); try done.
  { intros s v Hin Hv. rewrite Forall_forall in Hsub. destruct (Hsub s Hin). by exists s. }
  { by eapply good_le. }
  { eapply ready_impl; [|..|exact Hrd]; [eapply Forall_impl; [exact Hss|]; by intros s (_ & _ & ?)|].
    intros h Hlh Hz. by apply content_reader. }
  pose proof Hg' as (Hs' & Ho' & _). assert (Hext : extends (db_reader db) (db_reader db')).
  { eapply added_extends; try done; [eapply good_le; [|exact Hg]; pose proof (weight_nonneg T); lia|by eapply good_le]. }
  destruct (Hheld (db_reader db') Hext) as [Hb Hn].
  { apply Forall_forall. intros s Hin. rewrite Forall_forall in Hss. destruct (Hss s Hin) as (? & ? & _).
    apply reader_blob; try done; [by apply Hpre|]. by apply Hadd. }
  exists r, ls, db'. split_and!; try done; [|by intros He; split; [apply Hn|]]. destruct Hadd as [Ha1 Ha2]. split; try done.
  - intros h b Hcb. destruct (Ha2 h) as [->|(s & Hin & ->)]; [done|]. rewrite Ha1 by done. f_equal. symmetry. by apply Hdist.
  - intros h. destruct (Ha2 h) as [->|(s & Hin & ->)]; [by left|right]. rewrite Forall_forall in Hsub. destruct (Hsub s Hin). exists s. by rewrite Ha1.
Qed.

(** Opening the trie at its root hash. *)
Lemma New_held db m T :
  tree_map T m -> (T <> TEmpty -> held (db := db_reader db) T /\ mhash T <> zeroHash /\ mhash T <> emptyRoot) ->
  exists t, New (db := db_reader db) (mroot T) = Ok t /\ mstores db t m.
Proof.
  intros HT Hheld. pose proof HT as [[->|Hc] _].
  - exists (MkTrie nilNode 0). split; [done|]. exists TEmpty. split; [constructor|done].
  - pose proof (canon_branch_tree _ Hc) as Hb. destruct Hheld as (Hh & Hz & He); [by intros ->|].
    replace (mroot T) with (mhash T) by (by destruct T). exists (MkTrie (loaded T) 0). unfold New.
    rewrite !bool_decide_eq_true_2 by done. simpl andb. cbv iota. unfold resolveHash.
    rewrite mhash_id. destruct Hh as [Hn Hbl]. rewrite Hn. bind_simpl. split; [done|].
    exists T. split; [|done]. by apply (rep_root (db := db_reader db) T).
Qed.

Lemma Commit_spec (onleaf : option LeafCallback) (order : list nat) (k : Z) db (t : Trie) (m : gmap (list Z) (list Z)) (T : tree) :
  mstores db t m -> tree_map T m -> map_fits m -> order ≡ₚ seq 0 16 -> 0 <= k ->
  good (weight T + k) db -> sealed db -> collision_free db T -> acyclic T -> keccak256 [0x80] = emptyRoot ->
  (forall f, onleaf = Some f -> callback_ok (leaves T) f) ->
  exists t' db', Commit onleaf order t db = Ok (mroot T, t', db') /\ grown k T db db' /\ mstores db' t' m /\
    (T <> TEmpty -> held (db := db_reader db') T /\ mhash T <> zeroHash /\ mhash T <> emptyRoot).
Proof.
  intros Hst HT Hfit Hord Hk Hg Hse Hcf Ha Hempty Hf. pose proof (weight_nonneg T) as Hw.
  destruct (Hash_spec (db := db_reader db) order t m T Hst HT Hfit Hord) as (t1 & Hhash & Hr & Hset).
  pose proof (tree_map_hashable _ _ HT Hfit) as Hh. unfold Commit. pose proof HT as [[->|Hc] _].
  { pose proof Hst as (T' & Hr' & HT'). rewrite <- (tree_map_unique TEmpty T' m HT HT') in Hr'.
    pose proof (rep_leaf _ _ _ Hr' (fun x => x)) as Hnil. cbn in Hnil.
    rewrite Hnil. exists t, db. split_and!; try done. by eapply grown_refl; [|exact Hg]; lia. }
  pose proof (canon_branch_tree _ Hc) as Hb.
  assert (Hroot : mhash T <> zeroHash /\ mhash T <> emptyRoot).
  { split; [by apply (acyclic_nonzero T Ha); [|constructor]|].
    rewrite <- Hempty. intros He. apply (rlp_branch_not_empty T Hb). symmetry. apply Hcf; [by left|destruct T; left|done]. }
  assert (Hnn : root t <> nilNode).
  { intros Hn. destruct Hst as (T' & Hr' & HT'). rewrite Hn in Hr'. inversion Hr'; subst.
    by rewrite (tree_map_unique T TEmpty m HT HT') in Hb. }
  assert (Hrun : forall A (x y : A), match root t with nilNode => x | _ => y end = y) by (intros A x y; by destruct (root t)).
  rewrite Hrun, Hhash. bind_simpl. destruct (cache_dirty (root t1)) eqn:Hd; simpl negb; cbv iota.
  2: { exists t1, db. split_and!; try done; [by eapply grown_refl; [|exact Hg]; lia|by exists T|]. intros _. split; [|done].
       destruct Hr as [| |k' c fl T' Hr Hfl|cs fl ts Hrs Hfl|]; try done; destruct Hset as [h Hset]; simpl in *; rewrite Hset in Hfl; by apply Hfl. }
  destruct (commit_tree onleaf k db (root t1) T) as (r & ls & db' & [Hsend1 Hsend2] & Hsimp & Hloop & Hgrown & Hbl & Hheld); try done.
  { destruct (root t1); try done; intros Hn; destruct Hset as [h Hset]; simpl in Hset; congruence. }
  assert (Hcol : collapses_to (root t1) T = RHash (mhash T)).
  { destruct Hr; try done; destruct Hset as [h Hset]; simpl in *; by rewrite Hset. }
  specialize (Hheld Hcol). rewrite Hcol in Hsimp. apply simplifyNode_hash in Hsimp as ->.
  exists (MkTrie (hashNode (mhash T)) (unhashed t1)), db'. split_and!; try done; [|exists T; split; [by apply rep_root|done]].
  destruct onleaf as [f|]; [rewrite Hsend1|rewrite Hsend2, Hloop]; bind_simpl; [|done]. simpl app. by rewrite Hloop.
Qed.

(** C7. [Commit] puts the whole trie in the database: it returns the Merkle
    root of the map, the database stays sound and keeps every content it had,
    and both the trie and a trie opened at that root from the new database
    store the same map.  The leaf callback, when there is one, only adds
    references. *)
Theorem Commit_stores (onleaf : option LeafCallback) (order : list nat) db (t : Trie) (m : gmap (list Z) (list Z)) (T : tree) :
  mstores db t m -> tree_map T m -> map_fits m -> order ≡ₚ seq 0 16 ->
  good (weight T) db -> sealed db -> collision_free db T -> acyclic T -> keccak256 [0x80] = emptyRoot ->
  (forall f, onleaf = Some f -> callback_ok (leaves T) f) ->
  exists t' db', Commit onleaf order t db = Ok (mroot T, t', db') /\ sound rank db' /\
    (forall h b, content db h = Some b -> content db' h = Some b) /\ mstores db' t' m /\
    exists t'', New (db := db_reader db') (mroot T) = Ok t'' /\ mstores db' t'' m.
Proof.
  intros Hst HT Hfit Hord Hg Hse Hcf Ha Hempty Hf.
  destruct (Commit_spec onleaf order 0 db t m T) as (t' & db' & Hrun & [(Hs & _) _ Hkeep _ _] & Hst' & Hheld); try done; [by rewrite Z.add_0_r|].
  exists t', db'. split_and!; try done. by apply New_held.
Qed.
End database.

(** ** Example: a trie with one leaf, committed to a new database *)

#[local] Existing Instance no_cache.
#[local] Existing Instance list_order.
#[local] Existing Instance toy_keccak.

Lemma sample_content h b : h <> zeroHash -> content sample_db0 h = Some b -> False.
Proof.
  intros Hz. unfold content, sample_db0. simpl. rewrite lookup_singleton_ne by done. by rewrite lookup_empty.
Qed.

Lemma sample_good k : k < 2 ^ 32 -> good sample_rank k sample_db0.
Proof.
  intros Hk. split; [apply sample_sound0|]. split; intros h n; unfold sample_db0; simpl.
  - intros b [<- <-]%lookup_singleton_Some. done.
  - intros [<- <-]%lookup_singleton_Some. done.
Qed.

Lemma sample_sub s : branch s -> sub s sample_tree -> s = sample_tree.
Proof. intros Hb Hs. inversion Hs as [|? ? Hs'|]; subst; [done|]. inversion Hs'; subst. done. Qed.

Lemma sample_acyclic : acyclic sample_rank sample_tree.
Proof.
  intros s Hb Hs. rewrite (sample_sub s Hb Hs). split; [vm_compute; lia|]. intros h Hin. vm_compute in Hin. by inversion Hin.
Qed.

Lemma sample_collision_free : collision_free sample_db0 sample_tree.
Proof.
  intros x y Hx Hy. assert (Hx' : x ∈ [0x80] :: encodings sample_tree).
  { destruct Hx as [->|[Hx|(h & _ & Hz & Hx)]]; [left|by right|by destruct (sample_content h x)]. }
  clear Hx. repeat (apply elem_of_cons in Hx' as [->|Hx']); repeat (apply elem_of_cons in Hy as [->|Hy]);
    try (by apply elem_of_nil in Hx'); try (by apply elem_of_nil in Hy); vm_compute; done.
Qed.

Lemma Commit_stores_witness :
  exists t' db', Commit None (seq 0 16) fresh_trie sample_db0 = Ok (mroot sample_tree, t', db') /\
    exists t'', New (db := db_reader db') (mroot sample_tree) = Ok t'' /\
      stores (db := db_reader db') (G := merkle (db := db_reader db')) t'' sample_map.
Proof.
  destruct (Commit_stores sample_rank None (seq 0 16) sample_db0 fresh_trie sample_map sample_tree)
    as (t' & db' & Hrun & _ & _ & _ & t'' & Hnew & Hst).
  - exists sample_tree. split; [|apply sample_tree_map]. constructor; [constructor|]. by apply (new_ok true).
  - apply sample_tree_map.
  - apply toy_fits.
  - done.
  - apply sample_good. vm_compute. reflexivity.
  - intros h b _ Hz Hb. by destruct (sample_content h b).
  - apply sample_collision_free.
  - apply sample_acyclic.
  - reflexivity.
  - done.
  - exists t', db'. exact (conj Hrun (ex_intro _ t'' (conj Hnew Hst))).
Defined.
