(* ===== verification/TrieProof.v ===== *)
(** * Merkle proofs (src/trie/proof.go)

    [Prove] collects the encoded nodes on the path to a key; [VerifyProof]
    follows the hashes from a root through such nodes.  The file shows that a
    proof convinces, and that no set of nodes convinces of anything but what
    the map under the root holds. *)
From stdpp Require Import prelude list gmap.
From Stdlib Require Import ZArith Lia.
From S2P Require Import Prelude RlpEncode RlpRaw RlpStream TrieEncoding Trie TrieNode TrieHash TrieCommit.

(** ** Following a path in one stored node *)

(** The rest of the key and the child, nil if there is none; with
    [skipResolved] only hashes and values are returned. *)
Fixpoint get (tn : node) (key : list Z) (skipResolved : bool) : go (list Z * node) :=
  match tn with
  | shortNode k val _ =>
      if zlen key <? zlen k then Ok ([], nilNode)
      else
        seg ← slice key 0 (zlen k);
        if decide (k = seg) then
          rest ← slice_from key (zlen k);
          if skipResolved then get val rest skipResolved else Ok (rest, val)
        else Ok ([], nilNode)
  | fullNode cs _ =>
      i ← idx key 0;
      c ← idx cs i;
      rest ← slice_from key 1;
      if skipResolved then r ← idx (map (fun c => get c rest skipResolved) cs) i; r else Ok (rest, c)
  | hashNode h => Ok (key, hashNode h)
  | nilNode => Ok (key, nilNode)
  | valueNode v => Ok ([], valueNode v)
  end.

(** ** Verification *)

(** [ethdb.KeyValueReader]; a missing key is a nil slice. *)
Definition proof_reader : Type := list Z -> option (list Z).

Inductive proof_error :=
| ProofMissing (i : Z) (hash : list Z)
| ProofBad (i : Z) (e : node_error).

(** [copy(wantHash[:], cld)] *)
Definition copy_hash (wantHash cld : list Z) : list Z := take 32 cld ++ drop (length (take 32 cld)) wantHash.

Fixpoint verify_loop (fuel : nat) (i : Z) (wantHash key : list Z) (proofDb : proof_reader)
    : outcome proof_error (option (list Z)) :=
  match fuel with
  | O => Panic
  | S fuel =>
      match proofDb wantHash with
      | None => Err (ProofMissing i wantHash)
      | Some buf =>
          match decodeNode (S (length buf)) (Some wantHash) buf with
          | Err e => Err (ProofBad i e)
          | Panic => Panic
          | Ok n =>
              match get n key true with
              | Ok (keyrest, cld) =>
                  match cld with
                  | nilNode => Ok None
                  | hashNode h => verify_loop fuel (i + 1) (copy_hash wantHash h) keyrest proofDb
                  | valueNode v => Ok (Some v)
                  | _ => verify_loop fuel (i + 1) wantHash key proofDb
                  end
              | _ => Panic
              end
          end
      end
  end.

Definition VerifyProof (fuel : nat) (rootHash key : list Z) (proofDb : proof_reader) : outcome proof_error (option (list Z)) :=
  match keybytesToHex key with
  | Ok k => verify_loop fuel 0 rootHash k proofDb
  | _ => Panic
  end.

(** ** Construction *)

Section prove.
Context {K : Keccak} {db : NodeReader}.

(** The nodes on the path; a hash node and its node use up a round each. *)
Fixpoint prove_path (fuel : nat) (tn : node) (key : list Z) : tr (list node) :=
  match fuel with
  | O => Panic
  | S fuel =>
      if zlen key >? 0 then
        match tn with
        | nilNode => Ok []
        | shortNode k val _ =>
            if zlen key <? zlen k then Ok [tn]
            else
              seg ← slice key 0 (zlen k);
              if decide (k = seg) then
                rest ← slice_from key (zlen k);
                nodes ← prove_path fuel val rest;
                Ok (tn :: nodes)
              else Ok [tn]
        | fullNode cs _ =>
            i ← idx key 0;
            c ← idx cs i;
            rest ← slice_from key 1;
            nodes ← prove_path fuel c rest;
            Ok (tn :: nodes)
        | hashNode h => tn ← resolveHash h []; prove_path fuel tn key
        | valueNode _ => Panic
        end
      else Ok []
  end.

Definition proofHash (original : node) : go (node * node) :=
  match original with
  | shortNode k c fl =>
      ck ← hexToCompact k;
      '(collapsedVal, _) ←
        (match c with
         | fullNode _ _ | shortNode _ _ _ => hash None c false
         | _ => Ok (c, c)
         end);
      let sn := shortNode ck collapsedVal fl in
      hashed ← shortnodeToHash sn false;
      Ok (sn, hashed)
  | fullNode cs fl =>
      '(collapsed, _) ← hash_children (map (fun c => hash None c false) cs) (seq 0 16) cs cs cs;
      let fn := fullNode collapsed fl in
      hashed ← fullnodeToHash fn false;
      Ok (fn, hashed)
  | n => Ok (n, n)
  end.

(** What the loop puts in the proof; [i] counts the nodes. *)
Fixpoint put_nodes (nodes : list node) (i fromLevel : Z) : go (list (list Z * list Z)) :=
  match nodes with
  | [] => Ok []
  | n :: nodes =>
      if fromLevel >? 0 then put_nodes nodes (i + 1) (fromLevel - 1)
      else
        '(n, hn) ← proofHash n;
        let is_hash := match hn with hashNode _ => true | _ => false end in
        if is_hash || (i =? 0) then
          enc ← (match EncodeToBytes (collapsed_item n) new_encbuf with Ok b => Ok b | Err _ => Ok [] | Panic => Panic end);
          let hash := match hn with hashNode h => h | _ => hashData enc end in
          puts ← put_nodes nodes (i + 1) fromLevel;
          Ok ((hash, enc) :: puts)
        else put_nodes nodes (i + 1) fromLevel
  end.

Definition Prove (t : Trie) (key : list Z) (fromLevel : Z) : tr (list (list Z * list Z)) :=
  match keybytesToHex key with
  | Ok k =>
      nodes ← prove_path (path_fuel k) (root t) k;
      match put_nodes nodes 0 fromLevel with Ok puts => Ok puts | _ => Panic end
  | _ => Panic
  end.
End prove.

(** A memory database after the given writes. *)
Definition proof_set (puts : list (list Z * list Z)) : proof_reader :=
  fun h => foldl (fun r p => if decide (p.1 = h) then Some p.2 else r) None puts.

(** ** The path of a key in a tree *)

Fixpoint tpath (t : tree) (key : list Z) : list tree :=
  match t with
  | TShort k c => t :: match strip k key with Some rest => tpath c rest | None => [] end
  | TFull ts =>
      t :: match key with
           | i :: rest => if i <? 0 then [] else default [] (map (fun c => tpath c rest) ts !! Z.to_nat i)
           | [] => []
           end
  | _ => []
  end.

Lemma tpath_full ts i rest c : 0 <= i -> ts !! Z.to_nat i = Some c -> tpath (TFull ts) (i :: rest) = TFull ts :: tpath c rest.
Proof. intros Hi Hc. cbn [tpath]. rewrite (proj2 (Z.ltb_ge _ _)) by done. by rewrite list_lookup_fmap, Hc. Qed.

Lemma tpath_short k c rest : tpath (TShort k c) (k ++ rest) = TShort k c :: tpath c rest.
Proof. cbn [tpath]. by rewrite strip_app. Qed.

Lemma tpath_head t key : branch t -> exists l, tpath t key = t :: l.
Proof. destruct t; try done; intros _; by eexists. Qed.

Lemma tpath_sub t key s : s ∈ tpath t key -> sub s t /\ branch s.
Proof.
  revert key. induction t as [|v|k t IH|ts IH] using tree_nested_ind; intros key Hin; try by apply elem_of_nil in Hin.
  - apply elem_of_cons in Hin as [->|Hin]; [by split; [constructor|]|]. destruct (strip k key) as [rest|]; [|by apply elem_of_nil in Hin].
    destruct (IH rest Hin). split; [by constructor|done].
  - apply elem_of_cons in Hin as [->|Hin]; [by split; [constructor|]|]. destruct key as [|i rest]; [by apply elem_of_nil in Hin|].
    destruct (i <? 0); [by apply elem_of_nil in Hin|]. rewrite list_lookup_fmap in Hin.
    destruct (ts !! Z.to_nat i) as [c|] eqn:Hc; [|by apply elem_of_nil in Hin]. rewrite Forall_lookup in IH.
    destruct (IH _ _ Hc rest Hin). split; [apply sub_full with c; [by eapply list_elem_of_lookup_2|done]|done].
Qed.

(** A short node whose key is compared with the front of a key. *)
Lemma seg_match {E} (k key : list Z) :
  match strip k key with
  | Some rest => zlen key <? zlen k = false /\ @slice E Z key 0 (zlen k) = Ok k /\ @slice_from E Z key (zlen k) = Ok rest
  | None => zlen key <? zlen k = true \/ zlen key <? zlen k = false /\ exists seg, @slice E Z key 0 (zlen k) = Ok seg /\ k <> seg
  end.
Proof.
  destruct (strip k key) as [rest|] eqn:Hs.
  - apply strip_Some in Hs as ->. rewrite zlen_app. pose proof (zlen_nonneg rest). split_and!.
    + apply Z.ltb_ge. lia.
    + exact (slice_app [] k rest).
    + apply slice_from_app.
  - destruct (Z.ltb_spec (zlen key) (zlen k)) as [|Hle]; [by left|right]. split; [done|].
    pose proof (zlen_nonneg k). exists (take (length k) key). rewrite <- (take_drop (length k) key) at 1. unfold zlen in Hle. split.
    + replace (zlen k) with (0 + zlen (take (length k) key)) by (unfold zlen; rewrite length_take; lia). apply (slice_app []).
    + intros Hk. rewrite <- (take_drop (length k) key), <- Hk, strip_app in Hs. done.
Qed.

(** ** Soundness *)

Section sound.
Context {K : Keccak}.

(** Where [get] ends: at no child, at the value, or at the hash of a tree on
    the path. *)
Definition reached (t : tree) (key rest : list Z) (cld : node) : Prop :=
  (cld = nilNode /\ tfind t key = None) \/
  (exists v, cld = valueNode v /\ tfind t key = Some v) \/
  (exists s, cld = hashNode (mhash s) /\ canon s /\ small s = false /\ terminated rest /\ tfind t key = tfind s rest /\
     s ∈ tpath t key /\ (forall x, x ∈ tpath s rest -> x ∈ tpath t key)).

Definition walks (t : tree) : Prop :=
  forall key fl, terminated key ->
    exists rest cld, get (match mnode t with shortNode k c _ => shortNode k c fl | fullNode cs _ => fullNode cs fl | n => n end) key true = Ok (rest, cld) /\
      reached t key rest cld /\ (length rest < length key)%nat.

Lemma reached_up t t' key key' rest cld :
  reached t key rest cld -> tfind t' key' = tfind t key -> (forall x, x ∈ tpath t key -> x ∈ tpath t' key') -> reached t' key' rest cld.
Proof.
  intros [[-> Hf]|[(v & -> & Hf)|(s & -> & Hc & Hs & Ht & Hf & Hin & Hsub)]] He Hp; rewrite <- He in Hf.
  - by left.
  - right; left; eauto.
  - right; right. exists s. split_and!; eauto.
Qed.

Lemma get_child t key :
  pos_ok t key -> (canon t -> walks t) ->
  exists rest cld, get (mnode_child t) key true = Ok (rest, cld) /\ reached t key rest cld /\ (length rest <= length key)%nat.
Proof.
  intros [[[->|Hc] Ht]|[[->|(v & -> & _)] ->]] Hw.
  - exists key, nilNode. split; [done|]. split; [by left|done].
  - pose proof (canon_branch_tree _ Hc) as Hb. replace (mnode_child t) with (if small t then mnode t else hashNode (mhash t)) by (by destruct t).
    destruct (small t) eqn:Hs.
    + destruct (Hw Hc key (NodeFlag None false) Ht) as (rest & cld & Hrun & Hr & Hl). exists rest, cld. split; [|split; [done|lia]]. rewrite <- Hrun. by destruct t.
    + exists key, (hashNode (mhash t)). split; [done|]. split; [|done]. right; right. exists t. split_and!; try done.
      destruct (tpath_head t key Hb) as [l ->]. left.
  - exists [], nilNode. split; [done|]. split; [by left|done].
  - exists [], (valueNode v). split; [done|]. split; [right; left; eauto|done].
Qed.

Lemma get_short k t key fl :
  canon (TShort k t) -> terminated key -> (canon t -> walks t) ->
  exists rest cld, get (shortNode k (mnode_child t) fl) key true = Ok (rest, cld) /\ reached (TShort k t) key rest cld /\ (length rest < length key)%nat.
Proof.
  intros Hc Ht Hw. pose proof (terminated_nonnil _ Ht) as Hnn. cbn [get]. pose proof (@seg_match Empty_set k key) as Hm. destruct (strip k key) as [rest|] eqn:Hs.
  - destruct Hm as (-> & -> & Hrest). bind_simpl. rewrite decide_True by done. rewrite Hrest. bind_simpl. apply strip_Some in Hs as ->.
    destruct (pos_short k t rest Hc Ht) as (Hp & Hk & _). destruct (get_child t rest Hp Hw) as (r & cld & -> & Hr & Hl).
    exists r, cld. split; [done|]. split; [|rewrite length_app; destruct k; [done|simpl; lia]].
    apply (reached_up t _ rest); [done|by rewrite tfind_short|]. intros x Hx. rewrite tpath_short. by right.
  - assert (Hf : tfind (TShort k t) key = None) by (cbn [tfind]; by rewrite Hs).
    exists [], nilNode. split; [|split; [by left|destruct key; [done|simpl; lia]]].
    destruct Hm as [->|(-> & seg & -> & Hne)]; [done|]. bind_simpl. by rewrite decide_False.
Qed.

Lemma get_full ts key fl :
  canon (TFull ts) -> terminated key -> (forall i t, ts !! i = Some t -> canon t -> walks t) ->
  exists rest cld, get (fullNode (map mnode_child ts) fl) key true = Ok (rest, cld) /\ reached (TFull ts) key rest cld /\ (length rest < length key)%nat.
Proof.
  intros Hc Ht Hw. destruct key as [|i rest]; [by destruct (terminated_nonnil _ Ht)|].
  destruct (pos_full ts i rest Hc Ht) as (Hi & t & Hti & Hp). destruct (get_child t rest Hp (Hw _ _ Hti)) as (r & cld & Hrun & Hr & Hl).
  exists r, cld. cbn [get]. rewrite idx_0. bind_simpl.
  assert (Hci : idx (map mnode_child ts) i = (Ok (mnode_child t) : go node)) by (apply idx_Ok; split; [lia|]; by rewrite list_lookup_fmap, Hti).
  rewrite Hci. bind_simpl. change (slice_from (i :: rest) 1) with (slice_from ([i] ++ rest) (zlen [i]) : go (list Z)). rewrite slice_from_app. bind_simpl.
  assert (Hgi : idx (map (fun c => get c rest true) (map mnode_child ts)) i = (Ok (Ok (r, cld)) : go _)).
  { apply idx_Ok; split; [lia|]. by rewrite !list_lookup_fmap, Hti; simpl; rewrite Hrun. }
  rewrite Hgi. bind_simpl. split; [done|]. split; [|simpl; lia].
  apply (reached_up t _ rest); [done|rewrite tfind_full by lia; by rewrite Hti|]. intros x Hx. rewrite (tpath_full ts i rest t) by (done || lia). by right.
Qed.

Lemma canon_walks t : canon t -> walks t.
Proof.
  intros Hc. induction Hc as [ns v Hns Hv|ns ts Hns Hne Hts IH|ts Hts IH] using canon_strong_ind; intros key fl Ht.
  - apply get_short; [by constructor|done|]. intros Hc. inversion Hc.
  - apply get_short; [by constructor|done|done].
  - apply get_full; [done|done|]. intros i t Hi Hct. destruct (canon_child_cases ts i t Hts Hi) as [->|[[_ Hlt]|[[v ->] _]]]; [by inversion Hct| |by inversion Hct].
    by destruct (IH i t Hlt Hi) as [->|[_ Hw]]; [inversion Hct|].
Qed.
(** The nodes of a proof are stored under their hashes, which is how the
    senders' nodes are put in a set. *)
Definition addressed (proofDb : proof_reader) : Prop := forall h b, proofDb h = Some b -> keccak256 b = h.

(** The hash function has no collision between the nodes of the proof and
    what is hashed for the tree. *)
Definition unforged (proofDb : proof_reader) (T : tree) : Prop :=
  forall h b y, proofDb h = Some b -> y ∈ preimages T -> keccak256 b = keccak256 y -> b = y.

Lemma child_preimage_elem x t : x ∈ child_preimage t -> x = rlp_spec (mitem t).
Proof. unfold child_preimage. destruct t; try (by intros ?%elem_of_nil); (case_match; [by intros ?%elem_of_nil|by intros ?%list_elem_of_singleton]). Qed.

(** A node that is referred to by its hash is among what is hashed. *)
Lemma sub_preimage s T : sub s T -> branch s -> s = T \/ small s = false -> rlp_spec (mitem s) ∈ preimages T.
Proof.
  intros Hsub Hb [->|Hs]; [left|].
  assert (Hin : rlp_spec (mitem s) ∈ child_preimage T ++ preimages_below T).
  { induction Hsub as [|k t _ IH|t ts Ht _ IH]; apply elem_of_app; [left|by right|right].
    - unfold child_preimage. rewrite Hs. destruct s; done || left.
    - apply list_elem_of_lookup in Ht as [i Hi]. by eapply preimages_child. }
  apply elem_of_app in Hin as [->%child_preimage_elem|Hin]; [left|by right].
Qed.

Lemma decode_mnode_fuel s h :
  canon s -> hashable s -> decodeNode (S (length (rlp_spec (mitem s)))) (Some h) (rlp_spec (mitem s)) = Ok (reflag (Some h) (mnode s)).
Proof.
  intros Hc Hh. destruct (hashable_fine s Hh) as (_ & Hok & _ & Hz).
  pose proof (decode_stored (S (length (rlp_spec (mitem s)))) (Some h) (mnode s) []) as Hdec.
  unfold node_rlp in Hdec. rewrite node_item_mnode, app_nil_r in Hdec.
  apply Hdec; [by apply stored_mnode| |lia]. split; [|lia]. apply rlp_spec_ok; [done|lia].
Qed.

(** Only the flags of the node itself differ when it is decoded with a hash. *)
Lemma reflag_top h s :
  reflag (Some h) (mnode s) = match mnode s with shortNode k c _ => shortNode k c (NodeFlag (Some h) false) | fullNode cs _ => fullNode cs (NodeFlag (Some h) false) | n => n end.
Proof.
  pose proof (reflag_mnode s) as Hr. destruct (mnode s); try done; simpl in *; by injection Hr as ->.
Qed.

Lemma copy_hash_mhash h s : zlen h = 32 -> copy_hash h (mhash s) = mhash s.
Proof.
  intros Hh. pose proof (keccak_len (rlp_spec (mitem s))) as Hk. fold (mhash s) in Hk. unfold copy_hash, zlen in *.
  rewrite take_ge by lia. rewrite drop_ge by lia. apply app_nil_r.
Qed.

Lemma verify_loop_spec proofDb T fuel i s key :
  canon0 T -> hashable T -> addressed proofDb -> unforged proofDb T -> sub s T -> branch s -> s = T \/ small s = false -> terminated key -> (length key <= fuel)%nat ->
  (exists j x, verify_loop fuel i (mhash s) key proofDb = Err (ProofMissing j (mhash x)) /\ proofDb (mhash x) = None /\
     x ∈ tpath s key /\ (x = s \/ small x = false)) \/
  verify_loop fuel i (mhash s) key proofDb = Ok (tfind s key).
Proof.
  intros HcT HhT Had Hun. revert i s key. induction fuel as [|fuel IH]; intros i s key Hsub Hb Hsm Ht Hf.
  { destruct key; [by destruct (terminated_nonnil _ Ht)|simpl in Hf; lia]. }
  destruct (sub_ok s T Hsub (or_introl HcT) HhT Hb) as (Hc & Hh & _). pose proof (sub_preimage s T Hsub Hb Hsm) as Hpre. destruct (tpath_head s key Hb) as [l Hl]. cbn [verify_loop].
  destruct (proofDb (mhash s)) as [b|] eqn:Hd; [|left; exists i, s; split_and!; [done|done|rewrite Hl; left|by left]].
  rewrite (Hun _ _ _ Hd Hpre (Had _ _ Hd)), decode_mnode_fuel by done. rewrite reflag_top.
  destruct (canon_walks s Hc key (NodeFlag (Some (mhash s)) false) Ht) as (rest & cld & -> & Hr & Hlen).
  destruct Hr as [[-> Hv]|[(v & -> & Hv)|(x & -> & Hcx & Hsx & Htx & Hv & Hin & Hp)]]; [right; by rewrite Hv..|].
  destruct (tpath_sub s key x Hin) as [Hsx' Hbx]. rewrite copy_hash_mhash, Hv by apply keccak_len.
  destruct (IH (i + 1) x rest (sub_trans _ _ _ Hsx' Hsub) Hbx (or_intror Hsx) Htx ltac:(lia)) as [(j & y & Hrun & Hy & Hyin & Hys)|Hrun]; [left|by right].
  exists j, y. split; [done|]. split; [done|]. split; [by apply Hp|]. right. by destruct Hys as [->|?].
Qed.

Lemma empty_map_tree T m : tree_map T m -> map_fits m -> m = ∅ <-> T = TEmpty.
Proof.
  intros HT Hf. split; intros ->; [by apply (tree_map_unique T TEmpty ∅ HT), empty_tree_map|].
  apply map_empty. intros k. destruct (m !! k) as [v|] eqn:Hk; [|done]. destruct (Hf k v Hk) as [Hb _].
  by rewrite <- (tree_map_lookup TEmpty m) in Hk.
Qed.

(** C16. No proof convinces of a falsehood.  Whatever nodes a peer sends under
    their hashes, [VerifyProof] against the root of a map ends without
    panicking: it reports a missing node, or returns what the map has for the
    key, the absence of a value included.  For the empty map no node is valid,
    and a node sent for its root is reported as bad.  The hash function must
    have no collision between the nodes sent and what is hashed for the
    trie. *)
Theorem VerifyProof_sound (T : tree) (m : gmap (list Z) (list Z)) (key : list Z) (proofDb : proof_reader) (fuel : nat) :
  tree_map T m -> map_fits m -> bytes_ok key -> addressed proofDb -> unforged proofDb T -> keccak256 [0x80] = emptyRoot ->
  (length (hexkey key) <= fuel)%nat ->
  (exists i h, VerifyProof fuel (mroot T) key proofDb = Err (ProofMissing i h) /\ proofDb h = None) \/
  (m = ∅ /\ exists i e, VerifyProof fuel (mroot T) key proofDb = Err (ProofBad i e)) \/
  (m <> ∅ /\ VerifyProof fuel (mroot T) key proofDb = Ok (m !! key)).
Proof.
  intros HT Hfit Hk Had Hun He Hf. pose proof (empty_map_tree T m HT Hfit) as Hem. pose proof (tree_map_hashable T m HT Hfit) as Hh.
  unfold VerifyProof. rewrite keybytesToHex_spec. fold (hexkey key). pose proof HT as [[->|Hc] _].
  - destruct fuel as [|fuel]; [unfold hexkey in Hf; rewrite length_app in Hf; simpl in Hf; lia|]. cbn [verify_loop mroot]. destruct (proofDb emptyRoot) as [b|] eqn:Hd; [right; left|by left; eauto].
    split; [by apply Hem|]. rewrite (Hun _ _ [0x80] Hd); [|left|by rewrite He; apply Had]. cbn. eauto.
  - pose proof (canon_branch_tree _ Hc) as Hb. replace (mroot T) with (mhash T) by (by destruct T).
    destruct (verify_loop_spec proofDb T fuel 0 T (hexkey key)) as [(j & x & Hrun & Hx & _)|Hrun]; try done; [by right|constructor|by left|by apply hexkey_terminated|left; eauto|].
    right; right. rewrite Hrun, (tree_map_lookup T m) by done. split; [|done]. intros ?%Hem. by subst T.
Qed.
End sound.

(** ** Completeness *)

Section complete.
Context {K : Keccak} {db : NodeReader}.

(** What the proof of a key holds: the root, and the nodes on the path that
    are not embedded in another one. *)
Definition proof_entry (s : tree) : list Z * list Z := (mhash s, rlp_spec (mitem s)).
Definition proof_rest (l : list tree) : list (list Z * list Z) := proof_entry <$> filter (fun s => small s = false) l.
Definition proof_spec (T : tree) (key : list Z) : list (list Z * list Z) :=
  match tpath T key with [] => [] | s :: l => proof_entry s :: proof_rest l end.

(** A node in memory and the tree it stands for. *)
Definition in_memory (n : node) (t : tree) : Prop :=
  (exists p, rep p n t) /\ match n with shortNode _ _ _ | fullNode _ _ => True | _ => False end.

Lemma prove_path_spec fuel p n T key :
  rep p n T -> pos_ok T key -> (rounds n key <= fuel)%nat ->
  exists nodes, prove_path fuel n key = Ok nodes /\ Forall2 in_memory nodes (tpath T key).
Proof.
  revert p n T key. induction fuel as [|fuel IH]; intros p n T key Hr Hp Hf; [unfold rounds in Hf; destruct n; lia|].
  cbn [prove_path]. destruct key as [|x key].
  { apply pos_empty in Hp. exists []. split; [done|]. destruct Hp as [->|(v & -> & _)]; constructor. }
  rewrite zlen_cons. pose proof (zlen_nonneg key). rewrite Z.gtb_ltb, (proj2 (Z.ltb_lt _ _)) by lia.
  apply pos_cons in Hp as [Hc Ht]. destruct Hr as [|v|k c fl t Hr Hfl|cs fl ts Hrs Hfl|h n t Hdb Hn Hr Hh].
  - exists []. split; [done|constructor].
  - by destruct Hc as [?|Hc]; [|inversion Hc].
  - destruct Hc as [?|Hc]; [done|].
    assert (Hm1 : in_memory (shortNode k c fl) (TShort k t)) by (split; [exists p; by constructor|done]).
    pose proof (@seg_match trie_error k (x :: key)) as Hm. rewrite zlen_cons in Hm. cbn [tpath].
    destruct (strip k (x :: key)) as [rest|] eqn:Hs.
    + destruct Hm as (-> & -> & Hrest). bind_simpl. rewrite decide_True by done. rewrite Hrest. bind_simpl.
      apply strip_Some in Hs as Hs. rewrite Hs in Ht. destruct (pos_short k t rest Hc Ht) as (Hp & Hk & _).
      assert (Hlen : (length rest <= length key)%nat).
      { apply (f_equal length) in Hs. rewrite length_app in Hs. destruct k; [done|]. simpl in Hs. lia. }
      destruct (IH (below fl) c t rest Hr Hp) as (nodes & -> & Hall).
      { unfold rounds in *. simpl in Hf. destruct c; lia. }
      bind_simpl. exists (shortNode k c fl :: nodes). split; [done|by constructor].
    + exists [shortNode k c fl]. split; [|constructor; [done|constructor]].
      destruct Hm as [->|(-> & seg & -> & Hne)]; [done|]. bind_simpl. by rewrite decide_False.
  - destruct Hc as [?|Hc]; [done|]. destruct (pos_full ts x key Hc Ht) as (Hi & t & Hti & Hp).
    destruct (Forall2_lookup_r _ _ _ _ _ Hrs Hti) as (c & Hci & Hr).
    rewrite idx_0. bind_simpl. rewrite (proj2 (idx_Ok cs x c)) by (split; [lia|done]). bind_simpl.
    change (slice_from (x :: key) 1) with (slice_from ([x] ++ key) (zlen [x]) : tr (list Z)). rewrite slice_from_app. bind_simpl.
    destruct (IH (below fl) c t key Hr Hp) as (nodes & -> & Hall); [unfold rounds in *; simpl in Hf; destruct c; lia|].
    bind_simpl. exists (fullNode cs fl :: nodes). split; [done|]. rewrite (tpath_full ts x key t) by (done || lia).
    constructor; [split; [exists p; by constructor|done]|done].
  - unfold resolveHash. rewrite Hdb. bind_simpl. apply (IH p); [done|by apply pos_cons|]. unfold rounds in *. simpl in *. destruct n; try done; lia.
Qed.

Lemma proofHash_spec n t :
  in_memory n t -> hashable t ->
  exists c, proofHash n = Ok (c, hash_result c t false) /\ collapsed_item c = mitem t /\ match c with hashNode _ => False | _ => True end.
Proof.
  intros [[p Hr] Hn] Hh. pose proof (hashable_fine t Hh) as Hfine. destruct Hr as [|v|k c fl t Hr Hfl|cs fl ts Hrs Hfl|]; try done.
  - inversion Hh as [| |? ? Hk Hz Hne Ht|]; subst. destruct (compact_ok k Hk) as (Hck & _). cbn [proofHash]. rewrite Hck. bind_simpl.
    destruct (hash_spec c (below fl) None t Hr Ht Hne) as (cv & dv & Hrun & [Hcv _] & _); [done|done|].
    assert (Hm : match c with fullNode _ _ | shortNode _ _ _ => hash None c false | _ => Ok (c, c) end = Ok (cv, dv)) by (rewrite <- Hrun; by destruct c).
    rewrite Hm. bind_simpl.
    assert (Hci : collapsed_item (shortNode (compact k) cv fl) = mitem (TShort k t)) by (rewrite mitem_short; cbn [collapsed_item]; by rewrite Hcv).
    rewrite (proj1 (toHash_spec _ _ false Hci Hfine)). bind_simpl. eexists. split; [done|]. split; [done|done].
  - cbn [proofHash]. destruct (collapse_full None cs fl ts) as (col & cac & Hrun & Hci & _); try done.
    { intros i c t Hc Ht Hnil. inversion Hh as [| | |? Hlen Hts Hval]; subst. pose proof (Forall2_lookup_lr _ _ _ _ _ _ Hrs Hc Ht) as Hrc.
      apply hash_spec; [done|by apply (Forall_lookup_1 _ _ _ _ Hts Ht)| |done|done]. intros ->. apply Hnil.
      pose proof (rep_is_nil _ _ _ Hrc) as Hi. destruct c; naive_solver. }
    change (default (seq 0 16) None) with (seq 0 16) in Hrun. rewrite Hrun. bind_simpl. rewrite (proj2 (toHash_spec _ _ false Hci Hfine)). bind_simpl. eexists. split; [done|]. split; [done|done].
Qed.

Lemma put_one n t i :
  in_memory n t -> hashable t -> branch t ->
  forall nodes, put_nodes (n :: nodes) i 0 =
    (puts ← put_nodes nodes (i + 1) 0; Ok (if negb (small t) || (i =? 0) then proof_entry t :: puts else puts)).
Proof.
  intros Hm Hh Hb nodes. destruct (proofHash_spec n t Hm Hh) as (c & Hrun & Hci & Hnh). cbn [put_nodes]. rewrite Hrun. bind_simpl.
  destruct (hashable_fine t Hh) as (_ & Hok & Hnn & Hz). rewrite Hci, EncodeToBytes_spec, Hnn by (done || lia || by destruct t). bind_simpl.
  unfold hash_result. rewrite andb_true_r. destruct (small t).
  - destruct c; try done; simpl orb; (destruct (i =? 0); [done|]); by destruct (put_nodes nodes (i + 1) 0).
  - done.
Qed.

Lemma put_rest nodes l i :
  Forall2 in_memory nodes l -> Forall hashable l -> Forall branch l -> 0 < i -> put_nodes nodes i 0 = Ok (proof_rest l).
Proof.
  intros Hm. revert i. induction Hm as [|n t nodes l Hn _ IH]; intros i Hh Hb Hi; [done|].
  apply Forall_cons in Hh as [Ht Hh]. apply Forall_cons in Hb as [Hbt Hb]. rewrite (put_one n t) by done.
  rewrite IH by (done || lia). bind_simpl. rewrite (proj2 (Z.eqb_neq i 0)) by lia. rewrite orb_false_r.
  unfold proof_rest. rewrite filter_cons. destruct (small t) eqn:Hs; simpl negb; cbv iota; [by rewrite decide_False|by rewrite decide_True].
Qed.

Lemma put_skip nodes l i f :
  Forall2 in_memory nodes l -> Forall hashable l -> Forall branch l -> 0 <= i -> 0 < f -> put_nodes nodes i f = Ok (proof_rest (drop (Z.to_nat f) l)).
Proof.
  intros Hm. revert i f. induction Hm as [|n t nodes l Hn Hall IH]; intros i f Hh Hb Hi Hf; [by rewrite drop_nil|].
  apply Forall_cons in Hh as [_ Hh]. apply Forall_cons in Hb as [_ Hb]. cbn [put_nodes]. rewrite Z.gtb_ltb, (proj2 (Z.ltb_lt _ _)) by done.
  replace (Z.to_nat f) with (S (Z.to_nat (f - 1))) by lia. cbn [drop]. destruct (decide (f = 1)) as [->|]; [|apply IH; (done || lia)].
  apply put_rest; (done || lia).
Qed.

Lemma tpath_ok T key : canon0 T -> hashable T -> Forall hashable (tpath T key) /\ Forall branch (tpath T key).
Proof.
  intros Hc Hh. split; apply Forall_forall; intros s Hs; destruct (tpath_sub T key s Hs) as [Hsub Hb]; [|done].
  by destruct (sub_ok s T Hsub (or_introl Hc) Hh Hb) as (_ & ? & _).
Qed.

Lemma Prove_spec (t : Trie) (m : gmap (list Z) (list Z)) (T : tree) (key : list Z) (f : Z) :
  stores t m -> tree_map T m -> map_fits m -> bytes_ok key -> 0 <= f ->
  Prove t key f = Ok (if f =? 0 then proof_spec T (hexkey key) else proof_rest (drop (Z.to_nat f) (tpath T (hexkey key)))).
Proof.
  intros (T' & Hr & Hm) HT Hfit Hk Hf. rewrite <- (tree_map_unique T T' m HT Hm) in Hr. clear T' Hm. pose proof (tree_map_hashable T m HT Hfit) as Hh.
  unfold Prove. rewrite keybytesToHex_spec. fold (hexkey key).
  destruct (prove_path_spec (path_fuel (hexkey key)) Root (root t) T (hexkey key) Hr) as (nodes & -> & Hall); [by apply (tree_map_pos T m)|apply path_fuel_enough|].
  bind_simpl. destruct HT as [Hc _]. destruct (tpath_ok T (hexkey key) Hc Hh) as [Hhs Hbs]. destruct (Z.eqb_spec f 0) as [->|Hne]; [|by rewrite (put_skip nodes (tpath T (hexkey key))) by (done || lia)].
  unfold proof_spec. destruct Hall as [|n s nodes l Hn Hall]; [done|]. apply Forall_cons in Hhs as [? Hhs]. apply Forall_cons in Hbs as [? Hbs].
  rewrite (put_one n s) by done. rewrite (put_rest nodes l) by (done || lia). bind_simpl. by rewrite orb_true_r.
Qed.

(** *** The set of nodes that a proof makes *)

Lemma proof_set_Some puts h b : proof_set puts h = Some b -> (h, b) ∈ puts.
Proof.
  unfold proof_set. induction puts as [|p puts IH] using rev_ind; [done|]. rewrite foldl_app. simpl. rewrite elem_of_app. case_decide as Hd; [|auto].
  intros [= <-]. right. apply list_elem_of_singleton. destruct p. simpl in *. by subst.
Qed.

Lemma proof_set_None puts h b : proof_set puts h = None -> (h, b) ∉ puts.
Proof.
  unfold proof_set. induction puts as [|p puts IH] using rev_ind; [by intros _ ?%elem_of_nil|]. rewrite foldl_app. simpl. rewrite elem_of_app. case_decide as Hd; [done|].
  intros Hn [Hin|Hin]; [by apply IH|]. apply list_elem_of_singleton in Hin as <-. by apply Hd.
Qed.

Lemma proof_spec_in T key h b :
  branch T -> (h, b) ∈ proof_spec T key -> exists s, s ∈ tpath T key /\ (s = T \/ small s = false) /\ h = mhash s /\ b = rlp_spec (mitem s).
Proof.
  intros Hb. unfold proof_spec. destruct (tpath_head T key Hb) as [l ->]. intros [[= -> ->]|Hin]%elem_of_cons.
  - exists T. split; [left|]. split; [by left|done].
  - apply list_elem_of_fmap in Hin as (x & [= -> ->] & [Hs Hx]%list_elem_of_filter). exists x. split; [by right|]. split; [by right|done].
Qed.

Lemma proof_spec_has T key x :
  branch T -> x ∈ tpath T key -> x = T \/ small x = false -> proof_entry x ∈ proof_spec T key.
Proof.
  intros Hb Hin Hx. unfold proof_spec. destruct (tpath_head T key Hb) as [l Hl]. rewrite Hl in Hin |- *. apply elem_of_cons in Hin as [->|Hin]; [left|].
  destruct Hx as [->|Hs]; [left|]. right. apply list_elem_of_fmap. exists x. split; [done|]. by apply list_elem_of_filter.
Qed.

(** C17. A proof convinces: for every map that is not empty and every key of
    bytes the nodes that [Prove] collects, put in an empty database, make
    [VerifyProof] return what the map has for the key, its absence included,
    if the hash function has no collision among what is hashed for the trie.  [fromLevel] leaves out that many
    nodes of the path and nothing else. *)
Theorem Prove_verifies (t : Trie) (m : gmap (list Z) (list Z)) (T : tree) (key : list Z) (fuel : nat) :
  stores t m -> tree_map T m -> map_fits m -> m <> ∅ -> bytes_ok key -> no_collision T T -> (length (hexkey key) <= fuel)%nat ->
  (exists puts, Prove t key 0 = Ok puts /\ VerifyProof fuel (mroot T) key (proof_set puts) = Ok (m !! key)) /\
  (forall f, 0 < f -> Prove t key f = Ok (proof_rest (drop (Z.to_nat f) (tpath T (hexkey key))))).
Proof.
  intros Hs HT Hfit Hne Hk Hnc Hf. split.
  2: { intros f Hf0. rewrite (Prove_spec t m T) by (done || lia). by rewrite (proj2 (Z.eqb_neq f 0)) by lia. }
  exists (proof_spec T (hexkey key)). split; [by rewrite (Prove_spec t m T) by done|].
  pose proof (tree_map_hashable T m HT Hfit) as Hh. pose proof HT as [[->|Hc] _]; [by destruct Hne; apply (empty_map_tree TEmpty m HT Hfit)|].
  pose proof (canon_branch_tree _ Hc) as Hb. unfold VerifyProof. rewrite keybytesToHex_spec. fold (hexkey key). replace (mroot T) with (mhash T) by (by destruct T).
  assert (Hin : forall h b, proof_set (proof_spec T (hexkey key)) h = Some b -> h = keccak256 b /\ b ∈ preimages T).
  { intros h b (s & Hs' & Hsm & -> & ->)%proof_set_Some%proof_spec_in; [|done]. split; [done|]. destruct (tpath_sub _ _ _ Hs') as [Hsub Hbs].
    by apply sub_preimage. }
  destruct (verify_loop_spec (proof_set (proof_spec T (hexkey key))) T fuel 0 T (hexkey key)) as [(j & x & _ & Hx & Hxin & Hxs)|Hrun]; try done.
  - by right.
  - intros h b Hd. by destruct (Hin h b Hd) as [-> _].
  - intros h b y Hd Hy. apply Hnc; [by eapply Hin|done].
  - constructor.
  - by left.
  - by apply hexkey_terminated.
  - by destruct (proof_set_None _ _ (rlp_spec (mitem x)) Hx (proof_spec_has T _ x Hb Hxin Hxs)).
  - by rewrite Hrun, (tree_map_lookup T m).
Qed.
End complete.

(** ** Examples *)

Definition sample_proof : list (list Z * list Z) := proof_spec (K := toy_keccak) sample_tree (hexkey [18]).

Lemma sample_no_collision : no_collision (K := toy_keccak) sample_tree sample_tree.
Proof. apply apart_check. vm_compute. reflexivity. Qed.

Lemma sample_proof_in h b : proof_set sample_proof h = Some b -> keccak256 (Keccak := toy_keccak) b = h /\ b ∈ preimages (K := toy_keccak) sample_tree.
Proof. intros [[= -> ->]|Hn]%proof_set_Some%elem_of_cons; [|by apply elem_of_nil in Hn]. split; [done|left]. Qed.

Lemma VerifyProof_sound_witness :
  (exists i h, VerifyProof 3 (mroot (K := toy_keccak) sample_tree) [18] (proof_set sample_proof) = Err (ProofMissing i h) /\
     proof_set sample_proof h = None) \/
  (sample_map = ∅ /\ exists i e, VerifyProof 3 (mroot (K := toy_keccak) sample_tree) [18] (proof_set sample_proof) = Err (ProofBad i e)) \/
  (sample_map <> ∅ /\ VerifyProof 3 (mroot (K := toy_keccak) sample_tree) [18] (proof_set sample_proof) = Ok (sample_map !! [18])).
Proof.
  apply (VerifyProof_sound (K := toy_keccak) sample_tree sample_map [18] (proof_set sample_proof) 3);
    [apply sample_tree_map|apply toy_fits|solve_decidable| | |reflexivity|done].
  - intros h b Hd. by apply sample_proof_in.
  - intros h b y Hd Hy. apply sample_no_collision; [by eapply sample_proof_in|done].
Defined.

Lemma Prove_verifies_witness :
  (exists puts, Prove (K := toy_keccak) (db := no_db) fresh_trie [18] 0 = Ok puts /\
     VerifyProof 3 (mroot (K := toy_keccak) sample_tree) [18] (proof_set puts) = Ok (sample_map !! [18])) /\
  (forall f, 0 < f -> Prove (K := toy_keccak) (db := no_db) fresh_trie [18] f =
     Ok (proof_rest (K := toy_keccak) (drop (Z.to_nat f) (tpath sample_tree (hexkey [18]))))).
Proof.
  apply (Prove_verifies (K := toy_keccak) (db := no_db) fresh_trie sample_map sample_tree [18] 3);
    [apply toy_stores|apply sample_tree_map|apply toy_fits|done|solve_decidable|apply sample_no_collision|done].
Defined.
