(* ===== verification/StackTrie.v ===== *)
(** * The stack trie (src/trie/stacktrie.go)

    [StackTrie] computes the root of a trie whose keys arrive in order: what
    can no longer change is hashed at once.  The file shows for which tries its
    root is the root of the trie that [Trie] builds, and what it stores. *)
From stdpp Require Import prelude list gmap sorting.
From Stdlib Require Import ZArith Lia.
From S2P Require Import Prelude RlpEncode RlpRaw RlpStream TrieEncoding Trie TrieNode TrieHash TrieDatabase TrieCommit.

(** ** The data *)

Inductive st_type := emptyNode | branchNode | extNode | leafNode | hashedNode.

Inductive StackTrie := MkStack (nodeType : st_type) (val key : list Z) (keyOffset : Z) (children : list (option StackTrie)).

Definition nodeType (st : StackTrie) : st_type := let '(MkStack ty _ _ _ _) := st in ty.
Definition st_val (st : StackTrie) : list Z := let '(MkStack _ v _ _ _) := st in v.
Definition st_key (st : StackTrie) : list Z := let '(MkStack _ _ k _ _) := st in k.
Definition keyOffset (st : StackTrie) : Z := let '(MkStack _ _ _ off _) := st in off.
Definition children (st : StackTrie) : list (option StackTrie) := let '(MkStack _ _ _ _ cs) := st in cs.

Definition no_children : list (option StackTrie) := replicate 16 None.

(** The database that the nodes are put in, if there is one: the writes in
    their order. *)
Definition st_db : Type := option (list (list Z * list Z)).

(** [NewStackTrie], and a node of the pool. *)
Definition NewStackTrie : StackTrie := MkStack emptyNode [] [] 0 no_children.

Definition newLeaf (ko : Z) (key val : list Z) : go StackTrie :=
  k ← slice_from key ko;
  Ok (MkStack leafNode val k ko no_children).

Definition newExt (ko : Z) (key : list Z) (child : option StackTrie) : go StackTrie :=
  k ← slice_from key ko;
  Ok (MkStack extNode [] k ko (child :: replicate 15 None)).

(** The loop of [getDiffIndex], on what is left of the key of the node. *)
Fixpoint diff_loop (stkey key : list Z) (pos diffindex : Z) : go Z :=
  match stkey with
  | [] => Ok diffindex
  | x :: stkey =>
      y ← idx key pos;
      if x =? y then diff_loop stkey key (pos + 1) (diffindex + 1) else Ok diffindex
  end.
Definition getDiffIndex (st : StackTrie) (key : list Z) : go Z := diff_loop (st_key st) key (keyOffset st) 0.

Section stack.
Context {K : Keccak}.

(** ** Hashing *)

Definition st_encode (it : item) : go (list Z) := match Encode [] it new_encbuf with Ok b => Ok b | _ => Panic end.

(** The reference to a hashed child, as an embedded node or a hash. *)
Definition child_item (v : list Z) : item := if zlen v <? 32 then IRaw v else IBytes v.

(** The end of [hash]: a short encoding is kept, a longer one is hashed and
    put in the database. *)
Definition hashed_as (tmp : list Z) (off : Z) (cs : list (option StackTrie)) (d : st_db) : StackTrie * st_db :=
  if zlen tmp <? 32 then (MkStack hashedNode tmp [] off cs, d)
  else (MkStack hashedNode (keccak256 tmp) [] off cs, (fun w => w ++ [(keccak256 tmp, tmp)]) <$> d).

Fixpoint st_hash (st : StackTrie) (d : st_db) : go (StackTrie * st_db) :=
  let '(MkStack ty val key off cs) := st in
  match ty with
  | hashedNode => Ok (st, d)
  | emptyNode => Ok (MkStack hashedNode emptyRoot [] off cs, d)
  | branchNode =>
      let fix hash_nodes (cs : list (option StackTrie)) (d : st_db) : go (list item * st_db) :=
        match cs with
        | [] => Ok ([], d)
        | None :: cs => '(nodes, d) ← hash_nodes cs d; Ok (IBytes [] :: nodes, d)
        | Some c :: cs =>
            '(c, d) ← st_hash c d;
            '(nodes, d) ← hash_nodes cs d;
            Ok (child_item (st_val c) :: nodes, d)
        end in
      '(nodes, d) ← hash_nodes cs d;
      tmp ← st_encode (IList (nodes ++ [IBytes []]));
      Ok (hashed_as tmp off no_children d)
  | extNode =>
      match cs with
      | Some c :: cs =>
          '(c, d) ← st_hash c d;
          k ← hexToCompact key;
          tmp ← st_encode (IList [IBytes k; IBytes (st_val c)]);
          Ok (hashed_as tmp off (None :: cs) d)
      | _ => Panic
      end
  | leafNode =>
      '(buf, sz) ← hexToCompactInPlace (key ++ [16]);
      k ← slice buf 0 sz;
      tmp ← st_encode (IList [IBytes k; IBytes val]);
      Ok (hashed_as tmp off cs d)
  end.

(** [Hash] *)
Definition stack_Hash (st : StackTrie) (d : st_db) : go (list Z * StackTrie * st_db) :=
  '(st, d) ← st_hash st d;
  let ret := if negb (zlen (st_val st) =? 32) then keccak256 (st_val st) else st_val st in
  Ok (BytesToHash ret, st, d).

(** [Commit]; [None] is the error without a database. *)
Definition stack_Commit (st : StackTrie) (d : st_db) : go (option (list Z) * StackTrie * st_db) :=
  match d with
  | None => Ok (None, st, d)
  | Some _ =>
      '(st, d) ← st_hash st d;
      Ok (Some (BytesToHash (st_val st)), st, d)
  end.

(** ** Inserting *)

(** The nearest older sibling is hashed. *)
Fixpoint hash_elder (i : nat) (cs : list (option StackTrie)) (d : st_db) : go (list (option StackTrie) * st_db) :=
  match i with
  | O => Ok (cs, d)
  | S i =>
      match cs !! i with
      | Some (Some c) => '(c, d) ← st_hash c d; Ok (<[i := Some c]> cs, d)
      | Some None => hash_elder i cs d
      | None => Panic
      end
  end.

(** The branch with the two subtrees of a split, in the node itself or below
    what remains of its key. *)
Definition split_node (st : StackTrie) (val : list Z) (diffidx origIdx newIdx : Z) (n o : StackTrie) : go StackTrie :=
  k ← slice (st_key st) 0 diffidx;
  if diffidx =? 0 then
    cs ← upd (children st) 0 None;
    cs ← upd cs origIdx (Some n);
    cs ← upd cs newIdx (Some o);
    Ok (MkStack branchNode val k (keyOffset st) cs)
  else
    ps ← upd no_children origIdx (Some n);
    ps ← upd ps newIdx (Some o);
    cs ← upd (children st) 0 (Some (MkStack branchNode [] [] (keyOffset st + diffidx) ps));
    Ok (MkStack extNode val k (keyOffset st) cs).

Fixpoint st_insert (fuel : nat) (st : StackTrie) (key value : list Z) (d : st_db) : go (StackTrie * st_db) :=
  match fuel with
  | O => Panic
  | S fuel =>
      match nodeType st with
      | branchNode =>
          i ← idx key (keyOffset st);
          '(cs, d) ← hash_elder (Z.to_nat i) (children st) d;
          c ← idx cs i;
          let c := match c with Some c => c | None => MkStack emptyNode [] [] (keyOffset st + 1) no_children end in
          '(c, d) ← st_insert fuel c key value d;
          cs ← upd cs i (Some c);
          Ok (MkStack branchNode (st_val st) (st_key st) (keyOffset st) cs, d)
      | extNode =>
          diffidx ← getDiffIndex st key;
          c0 ← idx (children st) 0;
          if diffidx =? zlen (st_key st) then
            match c0 with
            | Some c =>
                '(c, d) ← st_insert fuel c key value d;
                cs ← upd (children st) 0 (Some c);
                Ok (MkStack extNode (st_val st) (st_key st) (keyOffset st) cs, d)
            | None => Panic
            end
          else
            n ← (if diffidx <? zlen (st_key st) - 1 then newExt (diffidx + 1) (st_key st) c0
                 else match c0 with Some c => Ok c | None => Panic end);
            '(n, d) ← st_hash n d;
            o ← newLeaf (keyOffset st + diffidx + 1) key value;
            origIdx ← idx (st_key st) diffidx;
            newIdx ← idx key (diffidx + keyOffset st);
            st ← split_node st (st_val st) diffidx origIdx newIdx n o;
            Ok (st, d)
      | leafNode =>
          diffidx ← getDiffIndex st key;
          if diffidx >=? zlen (st_key st) then Panic
          else
            origIdx ← idx (st_key st) diffidx;
            n ← newLeaf (diffidx + 1) (st_key st) (st_val st);
            '(n, d) ← st_hash n d;
            newIdx ← idx key (diffidx + keyOffset st);
            o ← newLeaf (keyOffset st + diffidx + 1) key value;
            st ← split_node st [] diffidx origIdx newIdx n o;
            Ok (st, d)
      | emptyNode =>
          k ← slice_from key (keyOffset st);
          Ok (MkStack leafNode value k (keyOffset st) (children st), d)
      | hashedNode => Panic
      end
  end.

(** [TryUpdate]; every level of the recursion uses up a nibble of the key. *)
Definition stack_TryUpdate (st : StackTrie) (key value : list Z) (d : st_db) : go (StackTrie * st_db) :=
  k ← keybytesToHex key;
  if zlen value =? 0 then Panic
  else
    k ← slice k 0 (zlen k - 1);
    st_insert (S (length k)) st k value d.

Fixpoint stack_updates (kvs : list (list Z * list Z)) (st : StackTrie) (d : st_db) : go (StackTrie * st_db) :=
  match kvs with
  | [] => Ok (st, d)
  | (key, value) :: kvs => '(st, d) ← stack_TryUpdate st key value d; stack_updates kvs st d
  end.
End stack.

(** ** Specification *)

Section spec.
Context {K : Keccak}.

(** What a hashed node keeps: its encoding, or the hash of it. *)
Definition sref (e : list Z) : list Z := if zlen e <? 32 then e else keccak256 e.

(** The encoding that the stack trie hashes.  Below an extension it puts even
    a short encoding as a string. *)
Fixpoint sitem (t : tree) : item :=
  match t with
  | TEmpty => IBytes []
  | TValue v => IBytes v
  | TShort k t =>
      IList [IBytes (compact k); match t with TShort _ _ | TFull _ => IBytes (sref (rlp_spec (sitem t))) | _ => sitem t end]
  | TFull ts =>
      IList (map (fun t => match t with TShort _ _ | TFull _ => child_item (sref (rlp_spec (sitem t))) | _ => sitem t end) ts)
  end.

Definition senc (t : tree) : list Z := rlp_spec (sitem t).
Definition sval (t : tree) : list Z := sref (senc t).
Definition schild (t : tree) : item := match t with TShort _ _ | TFull _ => child_item (sval t) | _ => sitem t end.

(** The root that the stack trie computes. *)
Definition sroot (t : tree) : list Z := match t with TEmpty => emptyRoot | _ => keccak256 (senc t) end.

Lemma sitem_leaf k v : sitem (TShort k (TValue v)) = IList [IBytes (compact k); IBytes v].
Proof. done. Qed.
Lemma sitem_ext k ts : sitem (TShort k (TFull ts)) = IList [IBytes (compact k); IBytes (sval (TFull ts))].
Proof. done. Qed.
Lemma sitem_full ts : sitem (TFull ts) = IList (map schild ts).
Proof. done. Qed.

(** *** Encodings are fine *)

Definition item_fine (it : item) : Prop := item_ok it /\ nonneg_ints it = true /\ zlen (rlp_spec it) < 2 ^ 63.

Lemma st_encode_fine it : item_fine it -> it <> INilInterface -> st_encode it = Ok (rlp_spec it).
Proof. intros (Hok & Hn & Hz) Hnil. unfold st_encode. rewrite Encode_new, Hn by (done || lia). done. Qed.

Lemma senc_bytes t : item_fine (sitem t) -> bytes_ok (senc t).
Proof. intros (Hok & _ & Hz). apply rlp_spec_ok; [done|]. unfold senc in *. lia. Qed.

Lemma sval_fine t : item_fine (sitem t) -> ref_fine (child_item (sval t)) /\ ref_fine (IBytes (sval t)) /\ zlen (sval t) <= 32.
Proof.
  intros Hf. pose proof (senc_bytes t Hf) as Hb. unfold sval, sref, child_item.
  destruct (Z.ltb_spec (zlen (senc t)) 32) as [Hlt|Hge].
  - rewrite (proj2 (Z.ltb_lt _ _)) by done. pose proof (zlen_nonneg (senc t)). split; [|split; [apply bytes_fine; [done|lia]|lia]].
    split; [done|]. split; [done|]. cbn [rlp_spec]. lia.
  - rewrite keccak_len. split; [apply keccak_fine|]. split; [apply keccak_fine|lia].
Qed.

Lemma compact_fine k : hex_ok k -> zlen k < 2 ^ 58 -> ref_fine (IBytes (compact k)).
Proof.
  intros Hk Hz. apply bytes_fine; [|pose proof (compact_length k Hk); lia]. by apply compact_ok.
Qed.

Lemma sitem_fine t : hashable t -> t <> TEmpty -> match t with TValue _ => True | _ => item_fine (sitem t) end /\ ref_fine (schild t).
Proof.
  induction t as [|v|k t IH|ts IH] using tree_nested_ind; intros Hh Hne; inversion Hh as [|? Hb Hz|? ? Hk Hz Ht Hh'|? Hl Hall Hv]; subst.
  - done.
  - split; [done|]. apply bytes_fine; [done|lia].
  - destruct (IH Hh' Ht) as [Hf Hc]. assert (Hi : item_fine (sitem (TShort k t))).
    { apply list_fine; [|done]. apply Forall_cons. split; [by apply compact_fine|]. apply Forall_singleton.
      destruct t; [done|apply Hc|by apply sval_fine in Hf as (_ & ? & _)..]. }
    split; [done|]. by apply sval_fine in Hi as (? & _).
  - assert (Hi : item_fine (sitem (TFull ts))).
    { rewrite sitem_full. apply list_fine; [|unfold zlen; rewrite length_map; lia]. apply Forall_map, Forall_forall. intros t Ht.
      rewrite Forall_forall in IH, Hall. destruct (decide (t = TEmpty)) as [->|Hte]; [by apply bytes_fine|]. by apply (IH t Ht (Hall t Ht)). }
    split; [done|]. by apply sval_fine in Hi as (? & _).
Qed.

(** ** What a node of the stack stands for *)

(** The database only grows, by nodes under their hashes. *)
Definition grows (d d' : st_db) : Prop :=
  match d, d' with
  | None, None => True
  | Some w, Some w' => exists x, w' = w ++ x /\ Forall (fun p => p.1 = keccak256 p.2) x
  | _, _ => False
  end.

Lemma grows_refl d : grows d d.
Proof. destruct d as [w|]; [|done]. exists []. by rewrite app_nil_r. Qed.
Lemma grows_trans d1 d2 d3 : grows d1 d2 -> grows d2 d3 -> grows d1 d3.
Proof.
  destruct d1, d2, d3; simpl; try done. intros (x & -> & Hx) (y & -> & Hy). exists (x ++ y). rewrite app_assoc. split; [done|by apply Forall_app].
Qed.

(** The database has the nodes of the tree that are not embedded. *)
Definition covered (d : st_db) (t : tree) : Prop :=
  forall w, d = Some w -> forall s, sub s t -> branch s -> 32 <= zlen (senc s) -> (keccak256 (senc s), senc s) ∈ w.

Lemma covered_grows d d' t : grows d d' -> covered d t -> covered d' t.
Proof.
  intros Hg Hc w' -> s Hs Hb Hz. destruct d as [w|]; [|done]. destruct Hg as (x & -> & _). apply elem_of_app. left. by apply (Hc w).
Qed.

(** The child is the last one. *)
Definition is_last (cs : list (option StackTrie)) (i : nat) : bool := bool_decide (Forall (fun c => c = None) (drop (S i) cs)).

(** The tree of a node at an offset; in an open node the path to the last key
    is not hashed yet. *)
Inductive srep (d : st_db) : bool -> Z -> StackTrie -> tree -> Prop :=
| sr_leaf o off k v :
    Forall is_nibble k -> srep d o off (MkStack leafNode v k off no_children) (TShort (k ++ [16]) (TValue v))
| sr_ext o off off' k c ts :
    Forall is_nibble k -> (o = true -> off' = off + zlen k) -> srep d o off' c (TFull ts) ->
    srep d o off (MkStack extNode [] k off (Some c :: replicate 15 None)) (TShort k (TFull ts))
| sr_branch o off cs ts :
    length cs = 16%nat -> length ts = 17%nat -> ts !! 16%nat = Some TEmpty ->
    (forall i, cs !! i = Some None -> ts !! i = Some TEmpty) ->
    (forall i c, cs !! i = Some (Some c) -> exists t, ts !! i = Some t /\ branch t) ->
    (forall i c t, cs !! i = Some (Some c) -> ts !! i = Some t -> srep d (o && is_last cs i) (off + 1) c t) ->
    srep d o off (MkStack branchNode [] [] off cs) (TFull ts)
| sr_hashed off ko t :
    branch t -> covered d t -> srep d false off (MkStack hashedNode (sval t) [] ko no_children) t.

Lemma srep_branch d o off st t : srep d o off st t -> branch t.
Proof. by destruct 1. Qed.

Lemma srep_grows d d' o off st t : grows d d' -> srep d o off st t -> srep d' o off st t.
Proof.
  intros Hg. induction 1 as [|o off off' k c ts|? ? ? ? ? ? ? ? Hb _ IH|]; [by constructor|by apply sr_ext with off'| |].
  - by constructor.
  - apply sr_hashed; eauto using covered_grows.
Qed.

Lemma srep_close d o off st t : srep d o off st t -> srep d false off st t.
Proof.
  induction 1 as [|o off off' k c ts ? ? ? IH|o off cs ts ? ? ? Hn Hb Hc IH|]; [by constructor|by apply sr_ext with off'|by constructor..].
Qed.

(** *** Hashing *)

Lemma leaf_key k : Forall is_nibble k -> hex_ok (k ++ [16]).
Proof. intros Hk. by exists k, true. Qed.

Lemma leaf_compact k :
  Forall is_nibble k -> exists buf sz, hexToCompactInPlace (k ++ [16]) = Ok (buf, sz) /\ slice buf 0 sz = (Ok (compact (k ++ [16])) : go _).
Proof.
  intros Hk. pose proof (leaf_key k Hk) as Hh. destruct (proj1 (hex_ok_iff _) Hh) as (single & ps & t & He & Hs & Hps).
  unfold compact. rewrite He in *. rewrite hexToCompact_spec by done.
  destruct (hexToCompactInPlace_spec single ps t Hs Hps) as (rest & Hr); [rewrite <- He; by destruct k|].
  eexists _, _. split; [exact Hr|]. exact (slice_app [] (flag_byte single t :: pack ps) rest).
Qed.

(** A hashed node and the database that covers it. *)
Definition hashes (d : st_db) (r : go (StackTrie * st_db)) (t : tree) : Prop :=
  exists ko d', r = Ok (MkStack hashedNode (sval t) [] ko no_children, d') /\ grows d d' /\ covered d' t.

Lemma hashed_as_ok t off d d0 :
  branch t -> grows d0 d -> (forall s, sub s t -> s <> t -> covered d s) -> hashes d0 (Ok (hashed_as (senc t) off no_children d)) t.
Proof.
  intros Hb Hg Hsub. unfold hashed_as, hashes, sval, sref. destruct (Z.ltb_spec (zlen (senc t)) 32) as [Hlt|Hge].
  - exists off, d. split_and!; [done|done|]. intros w -> s Hs Hbs Hz. destruct (decide (zlen (senc s) = zlen (senc t))) as [|Hne]; [lia|].
    apply (Hsub s Hs) with (w := w) (s := s); [by intros ->|done|constructor|done|done].
  - exists off, ((fun w => w ++ [(keccak256 (senc t), senc t)]) <$> d). split; [done|]. split.
    + eapply grows_trans; [done|]. destruct d as [w|]; [|done]. exists [(keccak256 (senc t), senc t)]. split; [done|]. by apply Forall_singleton.
    + intros w' Hw s Hs Hbs Hz. destruct d as [w|]; [|done]. injection Hw as <-. apply elem_of_app.
      destruct (decide (senc s = senc t)) as [->|Hne]; [right; by left|]. left. apply (Hsub s Hs) with (w := w) (s := s); [by intros ->|done|constructor|done|done].
Qed.

(** The loop over the children of a branch. *)
Fixpoint hash_nodes (cs : list (option StackTrie)) (d : st_db) : go (list item * st_db) :=
  match cs with
  | [] => Ok ([], d)
  | None :: cs => '(nodes, d) ← hash_nodes cs d; Ok (IBytes [] :: nodes, d)
  | Some c :: cs =>
      '(c, d) ← st_hash c d;
      '(nodes, d) ← hash_nodes cs d;
      Ok (child_item (st_val c) :: nodes, d)
  end.

Lemma st_hash_branch v k off cs d :
  st_hash (MkStack branchNode v k off cs) d =
  ('(nodes, d) ← hash_nodes cs d; tmp ← st_encode (IList (nodes ++ [IBytes []])); Ok (hashed_as tmp off no_children d)).
Proof. done. Qed.

Definition hash_total (d : st_db) (st : StackTrie) (t : tree) : Prop := forall d1, grows d d1 -> hashes d1 (st_hash st d1) t.

Lemma hash_nodes_ok d cs ts d1 :
  length cs = length ts -> grows d d1 ->
  (forall i, cs !! i = Some None -> ts !! i = Some TEmpty) ->
  (forall i c, cs !! i = Some (Some c) -> exists t, ts !! i = Some t /\ branch t) ->
  (forall i c t, cs !! i = Some (Some c) -> ts !! i = Some t -> hash_total d c t) ->
  exists d2, hash_nodes cs d1 = Ok (map schild ts, d2) /\ grows d1 d2 /\ Forall (covered d2) ts.
Proof.
  revert ts d1. induction cs as [|c cs IH]; intros [|t ts] d1 Hl Hg Hn Hb Hc; try done.
  { exists d1. split_and!; [done|apply grows_refl|constructor]. }
  assert (Htail : forall d1, grows d d1 -> exists d2, hash_nodes cs d1 = Ok (map schild ts, d2) /\ grows d1 d2 /\ Forall (covered d2) ts).
  { intros d2 Hg2. apply IH; [by injection Hl|done|..].
    - intros i. apply (Hn (S i)).
    - intros i. apply (Hb (S i)).
    - intros i. apply (Hc (S i)). }
  clear IH. destruct c as [c|]; cbn [hash_nodes].
  - destruct (Hb 0%nat c eq_refl) as (t' & Ht' & Hbr). injection Ht' as ->.
    destruct (Hc 0%nat c t' eq_refl eq_refl d1 Hg) as (ko & d2 & -> & Hg2 & Hcov). bind_simpl.
    destruct (Htail d2) as (d3 & -> & Hg3 & Hall); [by eapply grows_trans|]. bind_simpl. exists d3. split; [|split].
    + by destruct t'.
    + by eapply grows_trans.
    + constructor; [by eapply covered_grows|done].
  - pose proof (Hn 0%nat eq_refl) as Ht. injection Ht as ->. destruct (Htail d1 Hg) as (d2 & -> & Hg2 & Hall). bind_simpl.
    exists d2. split_and!; [done|done|]. constructor; [|done]. intros w _ s Hs Hbs. by inversion Hs; subst.
Qed.

Lemma sub_strict_short s k t : sub s (TShort k t) -> s <> TShort k t -> sub s t.
Proof. by inversion 1. Qed.

Lemma srep_hash d o off st t : srep d o off st t -> hashable t -> hash_total d st t.
Proof.
  induction 1 as [o off k v Hk|o off off' k c ts Hk _ Hc IH|o off cs ts Hl Hl' H16 Hn Hb Hc IH|off ko t Hb Hcov]; intros Hh d1 Hg.
  - destruct (sitem_fine _ Hh) as [Hf _]; [done|]. destruct (leaf_compact k Hk) as (buf & sz & Hrun & Hsl).
    cbn [st_hash]. rewrite Hrun. bind_simpl. rewrite Hsl. bind_simpl. rewrite <- sitem_leaf, st_encode_fine by done. bind_simpl.
    apply hashed_as_ok; [done|apply grows_refl|]. intros s Hs Hne. apply sub_strict_short in Hs; [|done].
    intros w _ s' Hs' Hbs. inversion Hs; subst. by inversion Hs'; subst.
  - destruct (sitem_fine _ Hh) as [Hf _]; [done|]. inversion Hh as [| |? ? Hk' _ _ Hh'|]; subst.
    destruct (IH Hh' d1 Hg) as (ko & d2 & Hrun & Hg2 & Hcov). cbn [st_hash]. rewrite Hrun. bind_simpl.
    destruct (compact_ok k Hk') as [-> _]. bind_simpl. cbn [st_val]. rewrite <- sitem_ext, st_encode_fine by done. bind_simpl.
    apply hashed_as_ok; [done|done|]. intros s Hs Hne. apply sub_strict_short in Hs; [|done].
    intros w -> s' Hs'. apply (Hcov w eq_refl). by eapply sub_trans.
  - destruct (sitem_fine _ Hh) as [Hf _]; [done|]. inversion Hh as [| | |? _ Hall _]; subst. rewrite st_hash_branch.
    assert (Hts : ts = take 16 ts ++ [TEmpty]).
    { rewrite <- (take_drop 16 ts) at 1. f_equal. apply (drop_S _ TEmpty) in H16. rewrite H16. f_equal. apply drop_ge. lia. }
    assert (Hlow : forall i, (i < 16)%nat -> take 16 ts !! i = ts !! i) by (intros i Hi; by apply lookup_take_lt).
    assert (Hi16 : forall i c, cs !! i = Some c -> (i < 16)%nat) by (intros i c Hi; apply lookup_lt_Some in Hi; lia).
    destruct (hash_nodes_ok d cs (take 16 ts) d1) as (d2 & -> & Hg2 & Hcov); [rewrite length_take; lia|done|..].
    { intros i Hi. rewrite Hlow by eauto. by apply Hn. }
    { intros i c Hi. rewrite Hlow by eauto. by eapply Hb. }
    { intros i c t Hi. rewrite Hlow by eauto. intros Ht. apply (IH i c t Hi Ht). rewrite Forall_forall in Hall. apply Hall. by eapply list_elem_of_lookup_2. }
    bind_simpl. replace (map schild (take 16 ts) ++ [IBytes []]) with (map schild ts) by (rewrite Hts at 1; by rewrite map_app).
    rewrite <- sitem_full, st_encode_fine by done. bind_simpl.
    apply hashed_as_ok; [done|done|]. intros s Hs Hne. inversion Hs as [|? ? ?|t ? Ht Hst]; subst; [done|].
    intros w -> s' Hs' Hbs Hz. rewrite Hts in Ht. apply elem_of_app in Ht as [Ht|Ht].
    + rewrite Forall_forall in Hcov. apply (Hcov t Ht w eq_refl); [by eapply sub_trans|done|done].
    + apply list_elem_of_singleton in Ht as ->. inversion Hst; subst. inversion Hs'; subst. done.
  - exists ko, d1. split_and!; [done|apply grows_refl|by eapply covered_grows].
Qed.

(** ** Inserting in order *)

(** The keys differ, and where they do the second has the larger nibble: so no
    key is a prefix of the other. *)
Definition key_lt (a b : list Z) : Prop := exists p x y a' b', a = p ++ x :: a' /\ b = p ++ y :: b' /\ x < y < 16.

Lemma key_lt_app p a b : key_lt (p ++ a) (p ++ b) -> key_lt a b.
Proof.
  induction p as [|z p IH]; [done|]. intros (q & x & y & a' & b' & Ha & Hb & Hxy). apply IH. destruct q as [|z' q]; simpl in *.
  - injection Ha as <- Ha. injection Hb as <- Hb. lia.
  - injection Ha as <- Ha. injection Hb as Hb. by exists q, x, y, a', b'.
Qed.

Lemma key_lt_cons x a y b : key_lt (x :: a) (y :: b) -> x < y < 16 \/ x = y /\ key_lt a b.
Proof.
  intros (q & x' & y' & a' & b' & Ha & Hb & Hxy). destruct q as [|z q]; simpl in *.
  - injection Ha as -> _. injection Hb as -> _. by left.
  - injection Ha as -> ->. injection Hb as -> ->. right. split; [done|]. by exists q, x', y', a', b'.
Qed.

Lemma key_lt_end a : ~ key_lt a [16].
Proof. intros (p & x & y & a' & b' & _ & Hb & Hxy). destruct p as [|z [|z' p]]; injection Hb as ? ?; subst; try done; lia. Qed.

(** The keys and values fit in memory. *)
Definition bounded (t : tree) : Prop := forall k v, tfind t k = Some v -> zlen k < 2 ^ 58 /\ zlen v < 2 ^ 58 /\ bytes_ok v.

Definition all_before (t : tree) (rest : list Z) : Prop := forall k v, tfind t k = Some v -> key_lt k (rest ++ [16]).

Definition st_inserted (d : st_db) (off : Z) (r : go (StackTrie * st_db)) (t : tree) (rest v : list Z) : Prop :=
  exists st' t' d', r = Ok (st', d') /\ grows d d' /\ srep d' true off st' t' /\ canon t' /\
    (forall k, tfind t' k = tset t (rest ++ [16]) v k) /\ (forall ts, t = TFull ts -> exists ts', t' = TFull ts').

Definition leaf_of (rest v : list Z) : tree := TShort (rest ++ [16]) (TValue v).

Lemma canon_leaf_of rest v : Forall is_nibble rest -> v <> [] -> canon (leaf_of rest v).
Proof. by constructor. Qed.

Lemma tset_empty rest v k : tfind (leaf_of rest v) k = tset TEmpty (rest ++ [16]) v k.
Proof.
  unfold tset, leaf_of. cbn [tfind]. destruct (strip (rest ++ [16]) k) as [r|] eqn:Hs.
  - apply strip_Some in Hs as ->. destruct r as [|y r]; [by rewrite app_nil_r, decide_True|].
    rewrite decide_False; [done|]. intros He. apply (f_equal length) in He. rewrite !length_app in He. simpl in He. lia.
  - rewrite decide_False; [done|]. intros ->. rewrite <- (app_nil_r (rest ++ [16])) in Hs at 2. by rewrite strip_app in Hs.
Qed.

Lemma lookup_insert_two {A} (l : list A) (i j k : nat) (a b : A) :
  (i < length l)%nat -> (j < length l)%nat ->
  <[j := b]> (<[i := a]> l) !! k = if decide (k = j) then Some b else if decide (k = i) then Some a else l !! k.
Proof.
  intros Hi Hj. destruct (decide (k = j)) as [->|]; [by rewrite list_lookup_insert_eq by (by rewrite length_insert)|].
  rewrite list_lookup_insert_ne by done. destruct (decide (k = i)) as [->|]; [by rewrite list_lookup_insert_eq|by rewrite list_lookup_insert_ne].
Qed.

(** A new branch with a hashed child and a leaf. *)
Lemma two_children d off x n tx y o ty :
  0 <= x < y -> y < 16 -> branch tx -> branch ty -> srep d false (off + 1) n tx -> srep d true (off + 1) o ty ->
  srep d true off (MkStack branchNode [] [] off (<[Z.to_nat y := Some o]> (<[Z.to_nat x := Some n]> no_children))) (branch_tree x tx y ty).
Proof.
  intros Hx Hy Hbx Hby Hn Ho. set (cs := <[Z.to_nat y := _]> _). set (ts := <[Z.to_nat y := ty]> (<[Z.to_nat x := tx]> empty_children)).
  assert (Hcs : forall i, cs !! i = if decide (i = Z.to_nat y) then Some (Some o) else if decide (i = Z.to_nat x) then Some (Some n) else no_children !! i)
    by (intros i; apply lookup_insert_two; unfold no_children; rewrite length_replicate; lia).
  assert (Hts : forall i, ts !! i = if decide (i = Z.to_nat y) then Some ty else if decide (i = Z.to_nat x) then Some tx else empty_children !! i)
    by (intros i; apply lookup_insert_two; unfold empty_children; rewrite length_replicate; lia).
  constructor.
  - unfold cs. by rewrite !length_insert.
  - by rewrite !length_insert.
  - fold ts. rewrite Hts, !decide_False by lia. done.
  - intros i Hi. fold ts. rewrite Hcs in Hi. rewrite Hts. repeat case_decide; try done. apply lookup_replicate in Hi as [_ Hi].
    apply lookup_replicate_2. lia.
  - intros i c Hi. fold ts. rewrite Hcs in Hi. rewrite Hts. repeat case_decide; [by eexists|by eexists|]. by apply lookup_replicate in Hi as [? _].
  - intros i c t Hi. fold ts. rewrite Hcs in Hi. rewrite Hts. repeat case_decide; intros [= <-] || intros Ht; [..|by apply lookup_replicate in Hi as [? _]]; injection Hi as <-.
    + subst i. replace (is_last cs (Z.to_nat y)) with true; [done|]. symmetry. apply bool_decide_eq_true, Forall_lookup. intros j c Hj.
      rewrite lookup_drop, Hcs, !decide_False in Hj by lia. by apply lookup_replicate in Hj as [-> _].
    + subst i. replace (is_last cs (Z.to_nat x)) with false; [done|]. symmetry. apply bool_decide_eq_false. rewrite Forall_lookup. intros Hall.
      specialize (Hall (Z.to_nat y - S (Z.to_nat x))%nat (Some o)). rewrite lookup_drop, Hcs in Hall. rewrite decide_True in Hall by lia. by specialize (Hall eq_refl).
Qed.

Lemma diff_loop_app p tail pre b e :
  diff_loop (p ++ tail) (pre ++ p ++ b) (zlen pre) e = diff_loop tail (pre ++ p ++ b) (zlen (pre ++ p)) (e + zlen p).
Proof.
  revert pre e. induction p as [|z p IH]; intros pre e.
  - by rewrite app_nil_r, zlen_nil, Z.add_0_r.
  - change ((z :: p) ++ tail) with (z :: p ++ tail). change ((z :: p) ++ b) with (z :: p ++ b). cbn [diff_loop]. rewrite idx_app. bind_simpl. rewrite Z.eqb_refl.
    specialize (IH (pre ++ [z]) (e + 1)). rewrite <- !app_assoc in IH. simpl app in IH.
    replace (zlen (pre ++ [z])) with (zlen pre + 1) in IH by by rewrite zlen_app. etrans; [exact IH|].
    rewrite zlen_cons. f_equal. lia.
Qed.

Lemma diff_all k pre r e : diff_loop k (pre ++ k ++ r) (zlen pre) e = Ok (e + zlen k).
Proof. pose proof (diff_loop_app k [] pre r e) as Hd. by rewrite app_nil_r in Hd. Qed.

Lemma diff_split p x a pre y b e : x <> y -> diff_loop (p ++ x :: a) (pre ++ p ++ y :: b) (zlen pre) e = Ok (e + zlen p).
Proof.
  intros Hne. rewrite diff_loop_app. cbn [diff_loop]. rewrite app_assoc, idx_app. bind_simpl. by rewrite (proj2 (Z.eqb_neq x y)).
Qed.

Lemma upd_lookup {E A} (l : list A) (i : Z) (x : A) : 0 <= i < zlen l -> @upd E A l i x = Ok (<[Z.to_nat i := x]> l).
Proof. intros Hi. unfold upd. by rewrite (proj2 (Z.leb_le _ _)), (proj2 (Z.ltb_lt _ _)) by lia. Qed.

Lemma split_ok d off ty v0 p x a c0 n tx y o t' :
  Forall is_nibble p -> 0 <= x < y -> y < 16 -> branch tx -> branch t' ->
  srep d false (off + zlen p + 1) n tx -> srep d true (off + zlen p + 1) o t' ->
  exists st', split_node (MkStack ty v0 (p ++ x :: a) off (c0 :: replicate 15 None)) [] (zlen p) x y n o = Ok st' /\
    srep d true off st' (leaf_tree p (branch_tree x tx y t')).
Proof.
  intros Hp Hx Hy Hbx Hby Hn Ho. unfold split_node. cbn [st_key children keyOffset].
  pose proof (slice_app (E := Empty_set) [] p (x :: a)) as Hs. simpl app in Hs. change (zlen []) with 0 in Hs. rewrite Z.add_0_l in Hs.
  rewrite Hs. bind_simpl.
  assert (H1 : upd no_children x (Some n) = (Ok (<[Z.to_nat x := Some n]> no_children) : go _)).
  { apply upd_lookup. change (zlen no_children) with 16. lia. }
  assert (H2 : upd (<[Z.to_nat x := Some n]> no_children) y (Some o) = (Ok (<[Z.to_nat y := Some o]> (<[Z.to_nat x := Some n]> no_children)) : go _)).
  { apply upd_lookup. unfold zlen. rewrite length_insert. change (length no_children) with 16%nat. lia. }
  destruct (Z.eqb_spec (zlen p) 0) as [Hz|Hz].
  - apply zlen_0_inv in Hz as ->. rewrite upd_0. bind_simpl. change (None :: replicate 15 None) with no_children.
    rewrite H1. bind_simpl. rewrite H2. bind_simpl. eexists. split; [done|].
    simpl leaf_tree. change (zlen []) with 0 in *. rewrite Z.add_0_r in *. by apply two_children.
  - rewrite H1. bind_simpl. rewrite H2. bind_simpl. rewrite upd_0. bind_simpl.
    eexists. split; [done|]. destruct p as [|z p]; [done|]. apply sr_ext with (off + zlen (z :: p)); [done|done|]. by apply two_children.
Qed.

(** A hashed node stands for its tree at any offset. *)
Lemma hash_closed d o off st t off' :
  srep d o off st t -> hashable t -> exists n d', st_hash st d = Ok (n, d') /\ grows d d' /\ srep d' false off' n t.
Proof.
  intros Hs Hh. destruct (srep_hash d o off st t Hs Hh d (grows_refl d)) as (ko & d' & Hrun & Hg & Hc).
  eexists _, d'. split; [exact Hrun|]. split; [done|]. apply sr_hashed; [by eapply srep_branch|done].
Qed.

Lemma bounded_hashable t : canon t -> bounded t -> hashable t.
Proof. apply canon_hashable. Qed.

(** *** Leaves *)

Lemma term_split ns p x l : ns ++ [16] = p ++ x :: l -> x < 16 -> exists l', ns = p ++ x :: l' /\ l = l' ++ [16].
Proof.
  intros He Hx. destruct (exists_last (l := x :: l)) as (l' & z & Hl); [done|]. rewrite Hl, app_assoc in He.
  apply app_inj_tail in He as [-> <-]. destruct l' as [|x' l']; simpl in Hl; injection Hl as -> ->; [lia|]. by exists l'.
Qed.

Lemma slice_from_cons {E} p x (a : list Z) : @slice_from E Z (p ++ x :: a) (zlen p + 1) = Ok a.
Proof.
  replace (p ++ x :: a) with ((p ++ [x]) ++ a) by (by rewrite <- app_assoc).
  replace (zlen p + 1) with (zlen (p ++ [x])) by (by rewrite zlen_app). apply slice_from_app.
Qed.

Lemma newLeaf_ok pre p y b v off :
  off = zlen pre -> newLeaf (off + zlen p + 1) (pre ++ p ++ y :: b) v = Ok (MkStack leafNode v b (off + zlen p + 1) no_children).
Proof.
  intros ->. unfold newLeaf. rewrite app_assoc. replace (zlen pre + zlen p + 1) with (zlen (pre ++ p) + 1) by (rewrite zlen_app; lia).
  rewrite slice_from_cons. done.
Qed.

Lemma newLeaf_short p x a w : newLeaf (zlen p + 1) (p ++ x :: a) w = Ok (MkStack leafNode w a (zlen p + 1) no_children).
Proof. unfold newLeaf. by rewrite slice_from_cons. Qed.

Lemma idx_diff {E} pre p y (b : list Z) off : off = zlen pre -> @idx E Z (pre ++ p ++ y :: b) (zlen p + off) = Ok y.
Proof. intros ->. rewrite app_assoc. replace (zlen p + zlen pre) with (zlen (pre ++ p)) by (rewrite zlen_app; lia). apply idx_app. Qed.

(** The tree after a split. *)
Lemma split_tree p x a t y b v :
  canon (TShort (p ++ x :: a) t) -> Forall is_nibble (y :: b) -> v <> [] -> x <> y ->
  let t' := leaf_tree p (branch_tree x (leaf_tree a t) y (leaf_of b v)) in
  canon t' /\ Forall is_nibble p /\ (forall k, tfind t' k = tset (TShort (p ++ x :: a) t) ((p ++ y :: b) ++ [16]) v k).
Proof.
  intros Hc Hb Hv Hne t'. destruct (canon_short_split _ _ _ _ Hc) as [Hp Hx]. apply Forall_cons in Hb as [Hy Hb]. unfold is_nibble in Hy.
  assert (Hfy : fits y (leaf_of b v)).
  { split; [lia|]. rewrite (proj2 (Z.eqb_neq y 16)) by lia. by apply canon_leaf_of. }
  split_and!; [apply canon_leaf_tree; [done|by apply canon_branch]|done|]. intros k. rewrite <- app_assoc. simpl app.
  rewrite <- tset_branch by (done || lia || apply Hx). unfold t'. by destruct b.
Qed.

Lemma insert_at_leaf fuel d off w k pre rest v :
  let t := TShort (k ++ [16]) (TValue w) in
  Forall is_nibble k -> canon t -> bounded t -> off = zlen pre -> Forall is_nibble rest -> v <> [] -> all_before t rest ->
  st_inserted d off (st_insert (S fuel) (MkStack leafNode w k off no_children) (pre ++ rest) v d) t rest v.
Proof.
  intros t Hk Hc Hb -> Hr Hv Hall.
  assert (Hkey : tfind t (k ++ [16]) = Some w) by (pose proof (tfind_short (k ++ [16]) (TValue w) []) as Hf; by rewrite app_nil_r in Hf).
  destruct (Hall _ _ Hkey) as (p & x & y & a' & b' & Ha & Hb' & Hxy).
  apply term_split in Ha as (a & -> & ->); [|lia]. apply term_split in Hb' as (b & -> & ->); [|lia].
  assert (Hna : Forall is_nibble a) by (by apply Forall_app in Hk as [_ [_ ?]%Forall_cons]).
  assert (Hx : 0 <= x) by (apply Forall_app in Hk as [_ [Hx _]%Forall_cons]; unfold is_nibble in Hx; lia).
  unfold t in *. rewrite <- app_assoc in *. simpl app in *.
  destruct (split_tree p x (a ++ [16]) (TValue w) y b v Hc) as (Hc' & Hp & Hset); [by apply Forall_app in Hr as [_ ?]|done|lia|].
  cbn [st_insert nodeType]. unfold getDiffIndex. cbn [st_key keyOffset]. rewrite diff_split, Z.add_0_l by lia. bind_simpl.
  rewrite Z.geb_leb, (proj2 (Z.leb_gt _ _)) by (rewrite zlen_app, zlen_cons; pose proof (zlen_nonneg a); lia).
  rewrite idx_app. bind_simpl. cbn [st_val]. rewrite newLeaf_short. bind_simpl.
  assert (Hleaf : hashable (TShort (a ++ [16]) (TValue w))).
  { destruct (Hb _ _ Hkey) as (Hz & Hw & Hok). rewrite !zlen_app, zlen_cons in Hz. pose proof (zlen_nonneg p).
    apply hashable_short; [by apply leaf_key|lia|done|by constructor]. }
  destruct (hash_closed d false (zlen p + 1) (MkStack leafNode w a (zlen p + 1) no_children) _ (zlen pre + zlen p + 1) (sr_leaf d false _ a w Hna) Hleaf)
    as (n & d' & Hrun & Hg & Hn).
  rewrite Hrun. bind_simpl. rewrite idx_diff by done. bind_simpl. rewrite newLeaf_ok by done. bind_simpl.
  destruct (split_ok d' (zlen pre) leafNode w p x a None n (TShort (a ++ [16]) (TValue w)) y (MkStack leafNode v b (zlen pre + zlen p + 1) no_children) (leaf_of b v))
    as (st' & Hst & Hsr); try done; [lia|lia|by apply Forall_app in Hr as [_ [_ ?]%Forall_cons]; constructor|].
  change (None :: replicate 15 None) with no_children in Hst. rewrite Hst. bind_simpl. exists st'. eexists. exists d'. split; [done|]. split; [done|].
  replace (leaf_tree (a ++ [16]) (TValue w)) with (TShort (a ++ [16]) (TValue w)) in * by (by destruct a).
  split; [exact Hsr|]. split; [done|]. split; [|done]. intros q. rewrite Hset. by rewrite <- app_assoc.
Qed.

(** *** Extensions *)

Definition st_inserts (fuel : nat) : Prop :=
  forall d off st t pre rest v,
    srep d true off st t -> canon t -> bounded t -> off = zlen pre -> Forall is_nibble rest -> v <> [] ->
    all_before t rest -> zlen rest < Z.of_nat fuel -> st_inserted d off (st_insert fuel st (pre ++ rest) v d) t rest v.

Lemma tset_short k t t' r v :
  (forall q, tfind t' q = tset t (r ++ [16]) v q) -> forall q, tfind (TShort k t') q = tset (TShort k t) ((k ++ r) ++ [16]) v q.
Proof.
  intros Hset q. rewrite <- app_assoc. unfold tset. cbn [tfind]. destruct (strip k q) as [r'|] eqn:Hs.
  - apply strip_Some in Hs as ->. rewrite Hset. unfold tset. destruct (decide (r' = r ++ [16])) as [->|]; [by rewrite decide_True|].
    rewrite decide_False; [done|]. intros He. by apply app_inv_head in He.
  - rewrite decide_False; [done|]. intros ->. by rewrite strip_app in Hs.
Qed.

Lemma insert_in_ext fuel d off k c ts pre r v :
  st_inserts fuel -> Forall is_nibble k -> srep d true (off + zlen k) c (TFull ts) -> canon (TShort k (TFull ts)) -> bounded (TShort k (TFull ts)) ->
  off = zlen pre -> Forall is_nibble r -> v <> [] -> all_before (TShort k (TFull ts)) (k ++ r) -> zlen (k ++ r) < Z.of_nat (S fuel) ->
  st_inserted d off (st_insert (S fuel) (MkStack extNode [] k off (Some c :: replicate 15 None)) (pre ++ k ++ r) v d) (TShort k (TFull ts)) (k ++ r) v.
Proof.
  intros IH Hk Hs Hc Hb -> Hr Hv Hall Hf. inversion Hc as [|? ? _ Hkne Hcf|]; subst.
  cbn [st_insert nodeType]. unfold getDiffIndex. cbn [st_key keyOffset children]. rewrite diff_all, Z.add_0_l. bind_simpl.
  rewrite idx_0. bind_simpl. rewrite Z.eqb_refl. rewrite app_assoc.
  destruct (IH d (zlen pre + zlen k) c (TFull ts) (pre ++ k) r v) as (c' & t' & d' & -> & Hg & Hs' & Hc' & Hset & Hfull); try done.
  { intros q w Hq. rewrite <- (tfind_short k) in Hq. destruct (Hb _ _ Hq) as (Hz & ? & ?). rewrite zlen_app in Hz. pose proof (zlen_nonneg k).
    split_and!; [lia|done|done]. }
  { by rewrite zlen_app. }
  { intros q w Hq. apply (key_lt_app k). rewrite app_assoc. apply (Hall (k ++ q) w). by rewrite tfind_short. }
  { rewrite zlen_app in Hf. assert (zlen k <> 0) by (intros ?%zlen_0_inv; done). pose proof (zlen_nonneg k). lia. }
  destruct (Hfull ts eq_refl) as (ts' & ->). bind_simpl. rewrite upd_0. bind_simpl.
  eexists _, _, d'. split; [done|]. split; [done|]. split; [by apply sr_ext with (zlen pre + zlen k)|].
  split; [by constructor|]. split; [by apply tset_short|done].
Qed.

Lemma insert_splits_ext fuel d off p x a c ts pre y b v :
  Forall is_nibble (p ++ x :: a) -> srep d true (off + zlen (p ++ x :: a)) c (TFull ts) -> canon (TShort (p ++ x :: a) (TFull ts)) ->
  bounded (TShort (p ++ x :: a) (TFull ts)) -> off = zlen pre -> Forall is_nibble (p ++ y :: b) -> v <> [] -> x < y < 16 ->
  st_inserted d off (st_insert (S fuel) (MkStack extNode [] (p ++ x :: a) off (Some c :: replicate 15 None)) (pre ++ p ++ y :: b) v d)
    (TShort (p ++ x :: a) (TFull ts)) (p ++ y :: b) v.
Proof.
  intros Hk Hs Hc Hb -> Hr Hv Hxy. assert (Hx : 0 <= x) by (apply Forall_app in Hk as [_ [Hx _]%Forall_cons]; unfold is_nibble in Hx; lia).
  assert (Hna : Forall is_nibble a) by (by apply Forall_app in Hk as [_ [_ ?]%Forall_cons]).
  destruct (split_tree p x a (TFull ts) y b v Hc) as (Hc' & Hp & Hset); [by apply Forall_app in Hr as [_ ?]|done|lia|].
  cbn [st_insert nodeType]. unfold getDiffIndex. cbn [st_key keyOffset children]. rewrite diff_split, Z.add_0_l by lia. bind_simpl.
  rewrite idx_0. bind_simpl. rewrite (proj2 (Z.eqb_neq _ _)) by (rewrite zlen_app, zlen_cons; pose proof (zlen_nonneg a); lia).
  set (r := if zlen p <? _ then _ else _).
  assert (exists off' n, r = Ok n /\ srep d false off' n (leaf_tree a (TFull ts))) as (off' & n & -> & Hn).
  { unfold r. rewrite zlen_app, zlen_cons. destruct a as [|z a].
    - rewrite zlen_nil. rewrite (proj2 (Z.ltb_ge _ _)) by lia. eexists _, c. split; [done|]. by apply srep_close in Hs.
    - rewrite zlen_cons. pose proof (zlen_nonneg a). rewrite (proj2 (Z.ltb_lt _ _)) by lia. unfold newExt. rewrite slice_from_cons. bind_simpl.
      eexists _, _. split; [done|]. apply srep_close in Hs. eapply (sr_ext d false); [done| |exact Hs]; discriminate. }
  bind_simpl. assert (Hh : hashable (leaf_tree a (TFull ts))).
  { pose proof (bounded_hashable _ Hc Hb) as Hh. inversion Hh as [| |? ? Hk' Hz _ Hh'|]; subst. destruct a as [|z a]; [done|].
    rewrite zlen_app, zlen_cons in Hz. pose proof (zlen_nonneg p). apply hashable_short; [by exists (z :: a), false; rewrite app_nil_r|lia|done|done]. }
  destruct (hash_closed d false off' n _ (zlen pre + zlen p + 1) Hn Hh) as (n' & d' & -> & Hg & Hn'). bind_simpl.
  rewrite newLeaf_ok by done. bind_simpl. rewrite idx_app. bind_simpl. rewrite idx_diff by done. bind_simpl. cbn [st_val].
  destruct (split_ok d' (zlen pre) extNode [] p x a (Some c) n' (leaf_tree a (TFull ts)) y (MkStack leafNode v b (zlen pre + zlen p + 1) no_children) (leaf_of b v))
    as (st' & Hst & Hsr); try done; [lia|lia|by destruct a|by apply Forall_app in Hr as [_ [_ ?]%Forall_cons]; constructor|].
  rewrite Hst. bind_simpl. eexists st', _, d'. split; [done|]. split; [done|]. split; [exact Hsr|]. split; [done|]. by split.
Qed.

(** *** Branches *)

Lemma hash_elder_ok d off (cs : list (option StackTrie)) (ts : list tree) (i : nat) :
  length cs = 16%nat -> (i <= 16)%nat ->
  (forall j c, cs !! j = Some (Some c) -> exists t, ts !! j = Some t /\ hashable t /\ srep d false off c t) ->
  exists cs' d', hash_elder i cs d = Ok (cs', d') /\ grows d d' /\ length cs' = 16%nat /\
    (forall j, cs' !! j = Some None <-> cs !! j = Some None) /\ (forall j, (i <= j)%nat -> cs' !! j = cs !! j) /\
    (forall j c, cs' !! j = Some (Some c) -> exists t, ts !! j = Some t /\ srep d' false off c t).
Proof.
  intros Hl Hi Hc. induction i as [|i IH]; cbn [hash_elder].
  - exists cs, d. split_and!; try done; [apply grows_refl|]. intros j c Hj. destruct (Hc j c Hj) as (t & ? & _ & ?). by exists t.
  - destruct (lookup_lt_is_Some_2 cs i) as [[c|] Hci]; [lia| |]; rewrite Hci.
    + destruct (Hc i c Hci) as (t & Ht & Hh & Hs). destruct (hash_closed d false off c t off Hs Hh) as (n & d' & -> & Hg & Hn). bind_simpl.
      exists (<[i := Some n]> cs), d'. split_and!; [done|done|by rewrite length_insert|..].
      * intros j. destruct (decide (i = j)) as [<-|]; [by rewrite list_lookup_insert_eq, Hci by lia|by rewrite list_lookup_insert_ne].
      * intros j Hj. rewrite list_lookup_insert_ne by lia. done.
      * intros j c'. destruct (decide (i = j)) as [<-|]; [rewrite list_lookup_insert_eq by lia; intros [= <-]; by exists t|].
        rewrite list_lookup_insert_ne by done. intros Hj. destruct (Hc j c' Hj) as (t' & ? & _ & ?). exists t'. split; [done|by eapply srep_grows].
    + destruct IH as (cs' & d' & -> & Hg & Hl' & Hnone & Hsame & Hs); [lia|]. exists cs', d'. split_and!; try done.
      intros j Hj. apply Hsame. lia.
Qed.

Lemma is_last_true cs i : (forall j c, cs !! j = Some (Some c) -> (j <= i)%nat) -> is_last cs i = true.
Proof.
  intros Hl. apply bool_decide_eq_true, Forall_lookup. intros j [c|] Hj; [|done]. rewrite lookup_drop in Hj. apply Hl in Hj. lia.
Qed.

Lemma is_last_false cs i j c : cs !! j = Some (Some c) -> (i < j)%nat -> is_last cs i = false.
Proof.
  intros Hj Hij. apply bool_decide_eq_false. rewrite Forall_lookup. intros Hall. specialize (Hall (j - S i)%nat (Some c)).
  rewrite lookup_drop in Hall. replace (S i + (j - S i))%nat with j in Hall by lia. by specialize (Hall Hj).
Qed.

(** The child of a branch. *)
Lemma full_child ts i t :
  canon (TFull ts) -> bounded (TFull ts) -> ts !! i = Some t -> branch t ->
  canon t /\ bounded t /\ hashable t /\ (i < 16)%nat /\ forall r, all_before (TFull ts) r -> forall q w, tfind t q = Some w -> key_lt (Z.of_nat i :: q) (r ++ [16]).
Proof.
  intros Hc Hb Ht Hbr. inversion Hc as [| |? Hl Hch Hval _]; subst. assert (Hi : (i < 16)%nat).
  { destruct (decide (i = 16%nat)) as [->|]; [destruct (Hval t Ht) as [->|(? & -> & _)]; done|]. apply lookup_lt_Some in Ht. lia. }
  destruct (Hch i t Hi Ht) as [->|Hct]; [done|].
  assert (Hf : forall q, tfind (TFull ts) (Z.of_nat i :: q) = tfind t q) by (intros q; by rewrite tfind_full, Nat2Z.id, Ht by lia).
  assert (Hbt : bounded t).
  { intros q w Hq. rewrite <- Hf in Hq. destruct (Hb _ _ Hq) as (Hz & ? & ?). rewrite zlen_cons in Hz. split_and!; [lia|done|done]. }
  split_and!; [done|done|by apply bounded_hashable|done|]. intros r Hall q w Hq. apply (Hall _ w). by rewrite Hf.
Qed.

(** Children after the nibble of the new key are empty. *)
Lemma child_order d o off cs ts i r :
  srep d o off (MkStack branchNode [] [] off cs) (TFull ts) -> canon (TFull ts) -> bounded (TFull ts) -> all_before (TFull ts) (i :: r) -> 0 <= i ->
  forall j c, cs !! j = Some (Some c) -> (j <= Z.to_nat i)%nat.
Proof.
  intros Hs Hc Hb Hall Hi j c Hj. inversion Hs as [| |? ? ? ? _ _ _ _ Hbr _|]; subst. destruct (Hbr j c Hj) as (t & Ht & Hbt).
  destruct (full_child ts j t Hc Hb Ht Hbt) as (Hct & _ & _ & _ & Hord). destruct (canon_bound t Hct) as (q & w & Hq).
  destruct (key_lt_cons _ _ _ _ (Hord _ Hall q w Hq)) as [?|[? _]]; lia.
Qed.

(** What the recursive call at the nibble of the key delivers. *)
Lemma insert_child fuel d off cs ts i r pre v c :
  st_inserts fuel -> srep d true off (MkStack branchNode [] [] off cs) (TFull ts) -> canon (TFull ts) -> bounded (TFull ts) ->
  all_before (TFull ts) (i :: r) -> Forall is_nibble (i :: r) -> v <> [] -> off = zlen pre -> zlen (i :: r) < Z.of_nat (S fuel) ->
  cs !! Z.to_nat i = Some c -> forall d1, grows d d1 ->
  exists c' t t' d', ts !! Z.to_nat i = Some t /\
    st_insert fuel (match c with Some c => c | None => MkStack emptyNode [] [] (off + 1) no_children end) (pre ++ i :: r) v d1 = Ok (c', d') /\
    grows d1 d' /\ srep d' true (off + 1) c' t' /\ canon t' /\ (forall k, tfind t' k = tset t (r ++ [16]) v k).
Proof.
  intros IH Hs Hc Hb Hall Hn Hv -> Hf Hci d1 Hg. pose proof (child_order _ _ _ _ _ _ _ Hs Hc Hb Hall) as Hord. apply Forall_cons in Hn as [Hi Hn].
  unfold is_nibble in Hi. specialize (Hord ltac:(lia)). inversion Hs as [| |? ? ? ? Hl Hl' H16 Hnone Hbr Hrep|]; subst. rewrite zlen_cons in Hf.
  destruct c as [c|].
  - destruct (Hbr _ c Hci) as (t & Ht & Hbt). destruct (full_child ts _ t Hc Hb Ht Hbt) as (Hct & Hbdt & _ & _ & Hlt).
    pose proof (Hrep _ c t Hci Ht) as Hsc. rewrite is_last_true in Hsc by done.
    destruct (IH d1 (zlen pre + 1) c t (pre ++ [i]) r v) as (c' & t' & d' & Hrun & Hg' & Hs' & Hc' & Hset & _); try done.
    + by eapply srep_grows.
    + by rewrite zlen_app.
    + intros q w Hq. specialize (Hlt _ Hall q w Hq). rewrite Z2Nat.id in Hlt by lia. destruct (key_lt_cons _ _ _ _ Hlt) as [?|[_ ?]]; [lia|done].
    + lia.
    + exists c', t, t', d'. rewrite <- app_assoc in Hrun. by split_and!.
  - exists (MkStack leafNode v r (zlen pre + 1) no_children), TEmpty, (leaf_of r v), d1. split; [by apply Hnone|].
    destruct fuel as [|fuel]; [pose proof (zlen_nonneg r); lia|]. split.
    + cbn [st_insert nodeType keyOffset children]. by rewrite slice_from_cons.
    + split_and!; [apply grows_refl|by constructor|by apply canon_leaf_of|]. intros k. apply tset_empty.
Qed.

Lemma tset_full ts i t t' r v :
  0 <= i -> ts !! Z.to_nat i = Some t -> (forall k, tfind t' k = tset t r v k) ->
  forall k, tfind (TFull (<[Z.to_nat i := t']> ts)) k = tset (TFull ts) (i :: r) v k.
Proof.
  intros Hi Ht Hset k. rewrite tfind_full_insert by (apply lookup_lt_Some in Ht; unfold zlen; lia). unfold tset. destruct k as [|j q]; [done|].
  destruct (Z.eqb_spec j i) as [->|Hji]; [|by rewrite decide_False by congruence].
  rewrite Hset. unfold tset. destruct (decide (q = r)) as [->|]; [by rewrite decide_True|].
  rewrite decide_False by congruence. by rewrite tfind_full, Ht by lia.
Qed.

(** The branch with the new child in place. *)
Lemma srep_new_child d off cs ts i c t' :
  length cs = 16%nat -> length ts = 17%nat -> ts !! 16%nat = Some TEmpty -> (i < 16)%nat ->
  (forall j, cs !! j = Some None -> ts !! j = Some TEmpty) -> (forall j c, (i < j)%nat -> cs !! j <> Some (Some c)) ->
  (forall j c, cs !! j = Some (Some c) -> exists t, ts !! j = Some t /\ srep d false (off + 1) c t) -> srep d true (off + 1) c t' ->
  srep d true off (MkStack branchNode [] [] off (<[i := Some c]> cs)) (TFull (<[i := t']> ts)).
Proof.
  intros Hl Hl' H16 Hi Hnone Hlast Hrep Hc. constructor.
  - by rewrite length_insert.
  - by rewrite length_insert.
  - by rewrite list_lookup_insert_ne by lia.
  - intros j. destruct (decide (i = j)) as [<-|]; [by rewrite list_lookup_insert_eq by lia|]. rewrite !list_lookup_insert_ne by done. apply Hnone.
  - intros j c'. destruct (decide (i = j)) as [<-|].
    + rewrite !list_lookup_insert_eq by lia. intros _. exists t'. split; [done|by eapply srep_branch].
    + rewrite !list_lookup_insert_ne by done. intros Hj. destruct (Hrep j c' Hj) as (t & Ht & Hs). exists t. split; [done|by eapply srep_branch].
  - intros j c' t. destruct (decide (i = j)) as [<-|Hne].
    + rewrite !list_lookup_insert_eq by lia. intros [= <-] [= <-]. rewrite is_last_true; [done|]. intros j c'.
      destruct (decide (i = j)) as [<-|]; [lia|]. rewrite list_lookup_insert_ne by done. intros Hj.
      destruct (decide (j <= i)%nat) as [|Hgt]; [done|]. by destruct (Hlast j c' ltac:(lia)).
    + rewrite !list_lookup_insert_ne by done. intros Hj Ht. destruct (Hrep j c' Hj) as (u & Hu & Hs). rewrite Ht in Hu. injection Hu as <-.
      rewrite (is_last_false _ j i c); [done|by rewrite list_lookup_insert_eq by lia|].
      destruct (decide (j < i)%nat); [done|]. by destruct (Hlast j c' ltac:(lia)).
Qed.

Lemma insert_at_branch fuel d off cs ts i r pre v :
  st_inserts fuel -> srep d true off (MkStack branchNode [] [] off cs) (TFull ts) -> canon (TFull ts) -> bounded (TFull ts) ->
  all_before (TFull ts) (i :: r) -> Forall is_nibble (i :: r) -> v <> [] -> off = zlen pre -> zlen (i :: r) < Z.of_nat (S fuel) ->
  st_inserted d off (st_insert (S fuel) (MkStack branchNode [] [] off cs) (pre ++ i :: r) v d) (TFull ts) (i :: r) v.
Proof.
  intros IH Hs Hc Hb Hall Hn Hv Hoff Hf. pose proof (Forall_inv Hn) as Hi. unfold is_nibble in Hi.
  pose proof (child_order _ _ _ _ _ _ _ Hs Hc Hb Hall ltac:(lia)) as Hord. pose proof Hs as Hs0.
  inversion Hs as [| |? ? ? ? Hl Hl' H16 Hnone Hbr Hrep|]; subst.
  destruct (hash_elder_ok d (zlen pre + 1) cs ts (Z.to_nat i)) as (cs' & d1 & Hel & Hg1 & Hlc & Hnone' & Hsame & Hrep'); [done|lia|..].
  { intros j c Hj. destruct (Hbr j c Hj) as (t & Ht & Hbt). exists t. split; [done|]. split; [by apply (full_child ts j t)|].
    by eapply srep_close, Hrep. }
  destruct (lookup_lt_is_Some_2 cs (Z.to_nat i)) as [c Hci]; [lia|].
  destruct (insert_child fuel d (zlen pre) cs ts i r pre v c IH Hs0 Hc Hb Hall Hn Hv eq_refl Hf Hci d1 Hg1) as (c' & t & t' & d' & Ht & Hrun & Hg & Hs' & Hc' & Hset).
  cbn [st_insert nodeType keyOffset children st_val st_key]. rewrite idx_app. bind_simpl. rewrite Hel. bind_simpl.
  rewrite (proj2 (idx_Ok cs' i c)) by (split; [lia|by rewrite Hsame]). bind_simpl. rewrite Hrun. bind_simpl.
  rewrite upd_lookup by (unfold zlen; lia). bind_simpl. eexists _, _, d'. split; [done|]. split; [by eapply grows_trans|].
  split; [apply (srep_new_child d' (zlen pre) cs' ts (Z.to_nat i) c' t'); try done; try lia|split; [|split]].
  - intros j Hj. by apply Hnone, Hnone'.
  - intros j c2 Hj Hj2. rewrite Hsame in Hj2 by lia. apply Hord in Hj2. lia.
  - intros j c2 Hj. destruct (Hrep' j c2 Hj) as (u & Hu & Hsu). exists u. split; [done|by eapply srep_grows].
  - apply canon_full_insert; [done|]. split; [lia|]. by rewrite (proj2 (Z.eqb_neq i 16)) by lia.
  - apply (tset_full ts i t t' (r ++ [16])); [lia|done|done].
  - eauto.
Qed.

Lemma st_insert_ok fuel : st_inserts fuel.
Proof.
  induction fuel as [|fuel IH]; intros d off st t pre rest v Hs Hc Hb Hoff Hr Hv Hall Hf; [pose proof (zlen_nonneg rest); lia|].
  inversion Hs as [o ? k w Hk|o ? off' k c ts Hk Ho Hcc|o ? cs ts Hl Hl' H16 Hn Hbr Hrep|]; subst.
  - by apply insert_at_leaf.
  - rewrite (Ho eq_refl) in Hcc. inversion Hc as [|? ? _ Hkne Hcf|]; subst. destruct (canon_bound _ Hcf) as (q & w & Hq).
    assert (Hlt : key_lt (k ++ q) (rest ++ [16])) by (apply (Hall _ w); by rewrite tfind_short).
    destruct (prefixLen_spec k rest) as (p & a & b & -> & -> & _ & Hd). rewrite <- !app_assoc in Hlt. apply key_lt_app in Hlt. destruct a as [|x a].
    + rewrite app_nil_r in *. apply insert_in_ext; try done. by apply Forall_app in Hr as [_ ?].
    + destruct b as [|y b]; [by apply key_lt_end in Hlt|]. apply key_lt_cons in Hlt as [?|[? _]]; [|done]. by apply insert_splits_ext.
  - destruct rest as [|i r]; [|by apply insert_at_branch]. destruct (canon_bound _ Hc) as (q & w & Hq). by apply Hall, key_lt_end in Hq.
Qed.

(** ** Runs of updates *)

(** The keys as bytes, in the order of [bytes.Compare], none a prefix of the
    other. *)
Definition byte_lt (a b : list Z) : Prop := exists p x y a' b', a = p ++ x :: a' /\ b = p ++ y :: b' /\ x < y.

Lemma flat_app ps qs : flat (ps ++ qs) = flat ps ++ flat qs.
Proof. unfold flat. by rewrite map_app, concat_app. Qed.

Lemma hexkey_app p x a : hexkey (p ++ x :: a) = flat (unpack p) ++ x / 16 :: x mod 16 :: hexkey a.
Proof. unfold hexkey, unpack. rewrite map_app, flat_app, <- app_assoc. done. Qed.

Lemma byte_lt_hex a b : bytes_ok a -> bytes_ok b -> byte_lt a b -> key_lt (hexkey a) (hexkey b).
Proof.
  intros Ha Hb (p & x & y & a' & b' & -> & -> & Hxy). apply Forall_app in Ha as [_ [Hx _]%Forall_cons]. apply Forall_app in Hb as [_ [Hy _]%Forall_cons].
  unfold is_byte in *. rewrite !hexkey_app. destruct (decide (x / 16 = y / 16)) as [He|Hne].
  - exists (flat (unpack p) ++ [x / 16]), (x mod 16), (y mod 16), (hexkey a'), (hexkey b'). rewrite <- !app_assoc. simpl. rewrite He.
    split_and!; [done|done| |]; Z.div_mod_to_equations; lia.
  - exists (flat (unpack p)), (x / 16), (y / 16), (x mod 16 :: hexkey a'), (y mod 16 :: hexkey b'). split_and!; [done|done| |]; Z.div_mod_to_equations; lia.
Qed.

(** Keys and values that a trie takes. *)
Definition pair_ok (kv : list Z * list Z) : Prop :=
  bytes_ok kv.1 /\ zlen kv.1 < 2 ^ 56 /\ kv.2 <> [] /\ bytes_ok kv.2 /\ zlen kv.2 < 2 ^ 58.

Definition map_of (kvs : list (list Z * list Z)) : gmap (list Z) (list Z) := foldl (fun m kv => <[kv.1 := kv.2]> m) ∅ kvs.

(** The stack trie stands for a tree that stores the map. *)
Definition stack_rep (d : st_db) (st : StackTrie) (T : tree) (m : gmap (list Z) (list Z)) : Prop :=
  tree_map T m /\ map_fits m /\ (st = NewStackTrie /\ T = TEmpty \/ srep d true 0 st T).

Lemma map_fits_bounded T m : tree_map T m -> map_fits m -> bounded T.
Proof.
  intros [_ Hm] Hf k v Hk. apply Hm in Hk as (key & -> & _ & Hv). destruct (Hf key v Hv) as (_ & ? & ? & ?). rewrite zlen_hexkey.
  split_and!; [lia|done|done].
Qed.

Lemma stack_TryUpdate_ok d st T m key v :
  stack_rep d st T m -> pair_ok (key, v) -> (forall k w, m !! k = Some w -> byte_lt k key) ->
  exists st' T' d', stack_TryUpdate st key v d = Ok (st', d') /\ grows d d' /\ stack_rep d' st' T' (<[key := v]> m).
Proof.
  intros (HT & Hfit & Hst) (Hk & Hkz & Hv & Hvb & Hvz) Hord. simpl in *. unfold stack_TryUpdate. rewrite keybytesToHex_spec. bind_simpl.
  rewrite (proj2 (Z.eqb_neq (zlen v) 0)) by (by intros ?%zlen_0_inv). set (ns := flat (unpack key)).
  replace (slice (ns ++ [16]) 0 (zlen (ns ++ [16]) - 1)) with (Ok ns : go (list Z)).
  2:{ symmetry. rewrite zlen_app. change (zlen [16]) with 1. replace (zlen ns + 1 - 1) with (0 + zlen ns) by lia. exact (slice_app [] ns [16]). }
  bind_simpl. assert (Hns : Forall is_nibble ns) by (by apply flat_nibbles, unpack_ok).
  assert (Hfit' : map_fits (<[key := v]> m)) by (by apply map_Forall_insert_2).
  destruct Hst as [[-> ->]|Hs].
  - exists (MkStack leafNode v ns 0 no_children), (leaf_of ns v), d. split; [|split; [apply grows_refl|split; [|split; [done|by right; constructor]]]].
    + cbn [st_insert NewStackTrie nodeType keyOffset children]. by rewrite (slice_from_app [] ns).
    + eapply tree_map_insert; [done|done|by right; apply canon_leaf_of|]. intros k. apply tset_empty.
  - destruct HT as [[->|Hc] Hm]; [by apply srep_branch in Hs|].
    destruct (st_insert_ok (S (length ns)) d 0 st T [] ns v Hs Hc) as (st' & T' & d' & Hrun & Hg & Hs' & Hc' & Hset & _); try done.
    + apply (map_fits_bounded T m); [split; [by right|done]|done].
    + intros k w Hw. apply Hm in Hw as (key' & -> & Hk' & Hw). by apply byte_lt_hex; [..|by eapply Hord].
    + unfold zlen. lia.
    + exists st', T', d'. split; [exact Hrun|]. split; [done|]. split; [|split; [done|by right]].
      eapply (tree_map_insert T); [split; [by right|done]|done|by right|done].
Qed.

Lemma stack_updates_ok kvs d st T m :
  stack_rep d st T m -> Forall pair_ok kvs -> StronglySorted byte_lt kvs.*1 -> (forall k w, m !! k = Some w -> Forall (byte_lt k) kvs.*1) ->
  exists st' T' d', stack_updates kvs st d = Ok (st', d') /\ grows d d' /\ stack_rep d' st' T' (foldl (fun m kv => <[kv.1 := kv.2]> m) m kvs).
Proof.
  revert d st T m. induction kvs as [|[key v] kvs IH]; intros d st T m Hr Hok Hsort Hord; cbn [stack_updates].
  { exists st, T, d. split; [done|]. split; [apply grows_refl|done]. }
  apply Forall_cons in Hok as [Hkv Hok]. apply StronglySorted_inv in Hsort as [Hsort Hlt].
  destruct (stack_TryUpdate_ok d st T m key v Hr Hkv) as (st1 & T1 & d1 & -> & Hg & Hr1).
  { intros k w Hw. by apply Hord, Forall_inv in Hw. }
  bind_simpl. destruct (IH d1 st1 T1 (<[key := v]> m) Hr1 Hok Hsort) as (st' & T' & d' & -> & Hg' & Hr').
  { intros k w [[<- <-]|[_ Hw]]%lookup_insert_Some; [done|]. by apply Hord, Forall_inv_tail in Hw. }
  exists st', T', d'. split; [done|]. split; [by eapply grows_trans|done].
Qed.

Lemma stack_rep_hash d st T m :
  stack_rep d st T m ->
  exists st' d', stack_Hash st d = Ok (sroot T, st', d') /\ grows d d' /\ covered d' T /\
    (is_Some d -> stack_Commit st d = Ok (Some (BytesToHash (match T with TEmpty => emptyRoot | _ => sval T end)), st', d')).
Proof.
  intros (HT & Hfit & [[-> ->]|Hs]).
  - exists (MkStack hashedNode emptyRoot [] 0 no_children), d. split; [done|]. split; [apply grows_refl|]. split.
    + intros w _ s Hs Hb. by inversion Hs; subst.
    + intros [w ->]. done.
  - destruct (srep_hash d true 0 st T Hs (tree_map_hashable T m HT Hfit) d (grows_refl d)) as (ko & d' & Hrun & Hg & Hc).
    eexists _, d'. unfold stack_Hash, stack_Commit. rewrite Hrun. bind_simpl. split; [|split; [done|split; [done|]]].
    + apply srep_branch in Hs. f_equal. f_equal. f_equal. cbn [st_val]. replace (sroot T) with (keccak256 (senc T)) by (by destruct T).
      unfold sval, sref. destruct (Z.ltb_spec (zlen (senc T)) 32).
      * rewrite (proj2 (Z.eqb_neq _ 32)) by lia. apply BytesToHash_id, keccak_len.
      * rewrite keccak_len. apply BytesToHash_id, keccak_len.
    + intros [w ->]. apply srep_branch in Hs. by destruct T.
Qed.

(** ** The root of the stack trie is the root of the trie *)

(** Below every extension there is a branch that is not embedded. *)
Definition ext_large (T : tree) : Prop := forall k ts, sub (TShort k (TFull ts)) T -> 32 <= zlen (rlp_spec (mitem (TFull ts))).

Lemma rlp_ref e it : e = rlp_spec it -> rlp_spec (child_item (sref e)) = rlp_spec (mref it).
Proof.
  intros ->. unfold child_item, sref, mref. destruct (Z.ltb_spec (zlen (rlp_spec it)) 32); [by rewrite (proj2 (Z.ltb_lt _ _))|by rewrite keccak_len].
Qed.

Lemma rlp_child t : senc t = rlp_spec (mitem t) -> rlp_spec (schild t) = rlp_spec (mchild t).
Proof. intros He. destruct t; try done; by apply rlp_ref. Qed.

Lemma senc_mitem T : ext_large T -> canon0 T -> senc T = rlp_spec (mitem T).
Proof.
  intros Hl [->|Hc]; [done|]. induction Hc as [ns v Hns Hv|ns ts Hns Hne Hts IH|ts Hts IH] using canon_strong_ind.
  - done.
  - assert (He : senc (TFull ts) = rlp_spec (mitem (TFull ts))).
    { apply IH. intros k ts' Hs. apply (Hl k). by constructor. }
    unfold senc. rewrite sitem_ext, mitem_short. cbn [rlp_spec]. do 3 f_equal. cbn [map]. f_equal. f_equal. cbn [mchild]. unfold mref, sval, sref.
    rewrite He. pose proof (Hl ns ts (sub_refl _)) as Hlarge. by rewrite (proj2 (Z.ltb_ge _ _)).
  - apply canon_TFull in Hts as [(Hlen & _ & Hval) _]. unfold senc. rewrite sitem_full, mitem_full. cbn [rlp_spec]. f_equal. f_equal.
    rewrite !map_map. apply map_ext_in. intros t Ht%list_elem_of_In. apply rlp_child. apply list_elem_of_lookup in Ht as [i Ht].
    destruct (decide (i < 16)%nat) as [Hi|Hi].
    + destruct (IH i t Hi Ht) as [->|[_ He]]; [done|]. apply He. intros k ts' Hs. apply (Hl k). apply sub_full with t; [by eapply list_elem_of_lookup_2|done].
    + assert (i = 16%nat) as -> by (apply lookup_lt_Some in Ht; lia). by destruct (Hval t Ht) as [->|(v & -> & _)].
Qed.

Lemma sroot_mroot T : ext_large T -> canon0 T -> sroot T = mroot T.
Proof. intros Hl Hc. pose proof (senc_mitem T Hl Hc) as He. destruct T; try done; unfold sroot, mroot, mhash; by rewrite He. Qed.

(** *** The trie with the same updates *)

Definition trie_updates {db : NodeReader} (kvs : list (list Z * list Z)) (t : Trie) : Trie := foldl (fun t kv => (TryUpdate t kv.1 kv.2).2) t kvs.
Definition new_trie : Trie := MkTrie nilNode 0.

Lemma new_trie_stores {db : NodeReader} : stores new_trie ∅.
Proof. exists TEmpty. split; [constructor|apply empty_tree_map]. Qed.

Lemma trie_updates_stores {db : NodeReader} kvs t m :
  stores t m -> Forall pair_ok kvs -> stores (trie_updates kvs t) (foldl (fun m kv => <[kv.1 := kv.2]> m) m kvs).
Proof.
  intros Hs Hok. revert t m Hs. induction Hok as [|[key v] kvs (Hk & _ & Hv & _) _ IH]; intros t m Hs; [done|]. simpl in *.
  destruct (TryUpdate_spec t m key v Hs Hk) as (t' & -> & Hs'). rewrite decide_False in Hs' by done. by apply IH.
Qed.

(** C31. Keys that arrive in increasing order, none a prefix of another, are
    never refused, and the hash of the stack trie is the hash of the trie that
    gets the same updates, for every trie without an embedded branch below an
    extension.  With a database, all
    nodes that are not embedded are in it afterwards, under their hashes, and
    [Commit] returns the root if its encoding has at least 32 bytes. *)
Theorem StackTrie_correct {db : NodeReader} (kvs : list (list Z * list Z)) (d : st_db) (order : list nat) :
  Forall pair_ok kvs -> StronglySorted byte_lt kvs.*1 -> order ≡ₚ seq 0 16 ->
  exists st d1 T st' d',
    stack_updates kvs NewStackTrie d = Ok (st, d1) /\ tree_map T (map_of kvs) /\
    stack_Hash st d1 = Ok (sroot T, st', d') /\ grows d d' /\ covered d' T /\
    (ext_large T -> exists t', Hash order (trie_updates kvs new_trie) = Ok (sroot T, t')) /\
    (is_Some d -> 32 <= zlen (senc T) -> stack_Commit st d1 = Ok (Some (sroot T), st', d')).
Proof.
  intros Hok Hsort Hord. destruct (stack_updates_ok kvs d NewStackTrie TEmpty ∅) as (st & T & d1 & Hrun & Hg & Hr); try done.
  { split; [apply empty_tree_map|split; [apply map_Forall_empty|by left]]. }
  destruct (stack_rep_hash d1 st T _ Hr) as (st' & d' & Hhash & Hg' & Hcov & Hcom). destruct Hr as (HT & Hfit & _).
  exists st, d1, T, st', d'. split; [done|]. split; [done|]. split; [done|]. split; [by eapply grows_trans|]. split; [done|]. split.
  - intros Hl. pose proof HT as [Hc _]. rewrite (sroot_mroot T Hl Hc).
    destruct (Hash_spec order (trie_updates kvs new_trie) _ T (trie_updates_stores kvs new_trie ∅ new_trie_stores Hok) HT Hfit Hord) as (t' & Ht' & _).
    exists t'. exact Ht'.
  - intros [w ->] Hz. rewrite Hcom by (destruct d1; [by eexists|done]). f_equal. f_equal. f_equal. f_equal. destruct T; [done|..]; unfold sval, sref, sroot;
      (rewrite (proj2 (Z.ltb_ge _ _)) by done; apply BytesToHash_id, keccak_len).
Qed.
End spec.

(** ** A small trie *)

Definition small_pairs : list (list Z * list Z) := [([17; 17], [1]); ([17; 18], [2])].

(** The encodings of the root, with the branch as a string and embedded. *)
Definition small_branch : list Z := [0xD5; 0x80; 0xC2; 0x20; 1; 0xC2; 0x20; 2] ++ replicate 14 0x80.
Definition small_stack : list Z := [0xDA; 0x82; 0x11; 0x11; 0x96] ++ small_branch.
Definition small_trie : list Z := [0xD9; 0x82; 0x11; 0x11] ++ small_branch.

(** A branch of less than 32 bytes below an extension goes wrong: the
    stack trie writes its encoding as a string where the trie embeds it, so
    that the two hash different bytes for the same two pairs.  [Commit] of a
    trie this small stores no node and returns the encoding of the root, cut
    or padded to the length of a hash, in place of a hash. *)
Theorem StackTrie_small {K : Keccak} {db : NodeReader} :
  exists st st' t',
    stack_updates small_pairs NewStackTrie (Some []) = Ok (st, Some []) /\
    stack_Hash st (Some []) = Ok (keccak256 small_stack, st', Some []) /\
    stack_Commit st (Some []) = Ok (Some (replicate 5 0 ++ small_stack), st', Some []) /\
    Hash (seq 0 16) (trie_updates small_pairs new_trie) = Ok (keccak256 small_trie, t') /\ small_stack <> small_trie.
Proof.
  eexists _, _, _. split; [vm_compute; reflexivity|]. split; [|split; [vm_compute; reflexivity|split; [|done]]].
  - rewrite <- (BytesToHash_id (keccak256 small_stack)) by apply keccak_len. vm_compute. reflexivity.
  - rewrite <- (BytesToHash_id (keccak256 small_trie)) by apply keccak_len. vm_compute. reflexivity.
Qed.

(** ** Examples *)

Definition sample_pairs : list (list Z * list Z) := [([17; 17], replicate 20 1); ([17; 18], replicate 40 2); ([200], [3])].

Lemma sample_pairs_sorted : StronglySorted byte_lt sample_pairs.*1.
Proof.
  apply SSorted_cons; [apply SSorted_cons; [by apply SSorted_cons; [apply SSorted_nil|]|]|];
    repeat (apply Forall_cons; split); try apply Forall_nil; try done.
  - by exists [], 17, 200, [18], [].
  - by exists [17], 17, 18, [], [].
  - by exists [], 17, 200, [17], [].
Qed.

Lemma StackTrie_correct_witness :
  exists st d1 T st' d',
    stack_updates (K := toy_keccak) sample_pairs NewStackTrie (Some []) = Ok (st, d1) /\ tree_map T (map_of sample_pairs) /\
    stack_Hash (K := toy_keccak) st d1 = Ok (sroot (K := toy_keccak) T, st', d') /\ grows (K := toy_keccak) (Some []) d' /\
    covered (K := toy_keccak) d' T /\
    (ext_large (K := toy_keccak) T ->
     exists t', Hash (K := toy_keccak) (seq 0 16) (trie_updates (db := no_db) sample_pairs new_trie) = Ok (sroot (K := toy_keccak) T, t')) /\
    (is_Some (Some (@nil (list Z * list Z))) -> 32 <= zlen (senc (K := toy_keccak) T) ->
     stack_Commit (K := toy_keccak) st d1 = Ok (Some (sroot (K := toy_keccak) T), st', d')).
Proof.
  apply (StackTrie_correct (K := toy_keccak) (db := no_db) sample_pairs (Some []) (seq 0 16)); [|apply sample_pairs_sorted|done].
  repeat (apply Forall_cons; split); [..|by apply Forall_nil]; (split_and!; [solve_decidable|done|done|solve_decidable|done]).
Defined.
