(* ===== verification/DeriveSha.v ===== *)
(** * The roots of lists (src/core/types/derive_sha.go)

    [DeriveSha] hashes the transactions or the receipts of a block into the
    header.  It takes the trie or the stack trie as a hasher; the file shows
    that both give the root of the map from the encoded index to the item, so
    that a block that was built with one is accepted with the other. *)
From stdpp Require Import prelude list gmap sorting.
From Stdlib Require Import ZArith Lia.
From S2P Require Import Prelude RlpEncode RlpRaw RlpStream TrieEncoding Trie TrieNode TrieHash TrieDatabase TrieCommit StackTrie.

(** [types.Hasher] *)
Class Hasher (H : Type) := {
  h_Reset : H -> H;
  h_Update : H -> list Z -> list Z -> go H;
  h_Hash : H -> go (list Z * H);
}.

(** The encoded index; the error of the encoder is dropped. *)
Definition index_key (i : nat) : go (list Z) :=
  match Encode [] (IUint (Z.of_nat i)) new_encbuf with
  | Ok b => Ok b
  | Err _ => Ok []
  | Panic => Panic
  end.

Section derive.
Context {H : Type} {HH : Hasher H}.

(** A loop of updates over indices of the list. *)
Fixpoint derive_loop (items : list (list Z)) (indices : list nat) (hasher : H) : go H :=
  match indices with
  | [] => Ok hasher
  | i :: indices =>
      key ← index_key i;
      value ← idx items (Z.of_nat i);
      hasher ← h_Update hasher key value;
      derive_loop items indices hasher
  end.

Definition DeriveSha (items : list (list Z)) (hasher : H) : go (list Z) :=
  let hasher := h_Reset hasher in
  hasher ← derive_loop items (seq 1 (Nat.min (length items - 1) 0x7f)) hasher;
  hasher ← (if 0 <? zlen items then derive_loop items [0%nat] hasher else Ok hasher);
  hasher ← derive_loop items (seq 0x80 (length items - 0x80)) hasher;
  '(hash, _) ← h_Hash hasher;
  Ok hash.
End derive.

(** [Trie] and [StackTrie] as hashers; [Update] logs an error and goes on. *)
Definition stack_hasher {K : Keccak} : Hasher StackTrie := {|
  h_Reset _ := NewStackTrie;
  h_Update st key value := '(st, _) ← stack_TryUpdate st key value None; Ok st;
  h_Hash st := '(h, st, _) ← stack_Hash st None; Ok (h, st);
|}.

Definition trie_hasher {K : Keccak} {db : NodeReader} (order : list nat) : Hasher Trie := {|
  h_Reset := trie_Reset;
  h_Update t key value := match TryUpdate t key value with (Panic, _) => Panic | (_, t) => Ok t end;
  h_Hash := Hash order;
|}.

(** ** The order of the keys *)

Definition ikey (i : nat) : list Z := rlp_spec (IUint (Z.of_nat i)).

Lemma byte_lt_ext a b u w : byte_lt a b -> byte_lt (a ++ u) (b ++ w).
Proof.
  intros (p & x & y & a' & b' & -> & -> & Hxy). exists p, x, y, (a' ++ u), (b' ++ w). by rewrite <- !app_assoc.
Qed.

Lemma byte_lt_cons x a y b : x < y -> byte_lt (x :: a) (y :: b).
Proof. intros Hxy. by exists [], x, y, a, b. Qed.

Lemma be_bytes_lt n i j : 0 <= i < j -> j < 256 ^ Z.of_nat n -> byte_lt (be_bytes n i) (be_bytes n j).
Proof.
  revert i j. induction n as [|n IH]; intros i j Hij Hj; [simpl in Hj; lia|].
  cbn [be_bytes]. rewrite Nat2Z.inj_succ, Z.pow_succ_r in Hj by lia.
  destruct (decide (i / 256 = j / 256)) as [He|Hne].
  - exists (be_bytes n (i / 256)), (i mod 256), (j mod 256), [], []. rewrite <- He. split_and!; [done|done|]. Z.div_mod_to_equations. lia.
  - apply byte_lt_ext, IH; [|apply Z.div_lt_upper_bound; lia]. Z.div_mod_to_equations. lia.
Qed.

Lemma ikey_zero : ikey 0 = [0x80].
Proof. done. Qed.

Lemma ikey_small i : (1 <= i <= 127)%nat -> ikey i = [Z.of_nat i].
Proof.
  intros Hi. unfold ikey. cbn [rlp_spec]. unfold int_spec. rewrite bit_len_intsize, intsize_small by (unfold is_u64; lia).
  change (Z.to_nat 1) with 1%nat. cbn [be_bytes app]. rewrite Z.mod_small by lia. unfold string_spec. by rewrite (proj2 (Z.ltb_lt _ _)) by lia.
Qed.

Lemma ikey_large i :
  (128 <= i)%nat -> Z.of_nat i < 2 ^ 64 ->
  ikey i = 0x80 + intsize (Z.of_nat i) :: be_bytes (Z.to_nat (intsize (Z.of_nat i))) (Z.of_nat i).
Proof.
  intros Hi Hz. unfold ikey. cbn [rlp_spec]. rewrite string_spec_int by lia. unfold int_spec. rewrite bit_len_intsize by (unfold is_u64; lia).
  destruct (intsize_spec (Z.of_nat i)) as [? _]; [unfold is_u64; lia|]. by rewrite zlen_head_small by lia.
Qed.

Lemma intsize_mono i j : 0 <= i <= j -> is_u64 j -> intsize i <= intsize j.
Proof.
  intros Hij Hj. destruct (intsize_spec i) as (_ & _ & Hi); [unfold is_u64 in *; lia|]. destruct (intsize_spec j Hj) as (Hb & Hu & _).
  destruct (Z.le_gt_cases (intsize i) (intsize j)) as [|Hgt]; [done|].
  assert (256 ^ intsize j <= 256 ^ (intsize i - 1)) by (apply Z.pow_le_mono_r; lia). specialize (Hi ltac:(lia)). lia.
Qed.

Lemma ikey_lt_large i j : (128 <= i < j)%nat -> Z.of_nat j < 2 ^ 64 -> byte_lt (ikey i) (ikey j).
Proof.
  intros Hij Hj. rewrite !ikey_large by lia. pose proof (intsize_mono (Z.of_nat i) (Z.of_nat j) ltac:(lia) ltac:(unfold is_u64; lia)).
  destruct (decide (intsize (Z.of_nat i) = intsize (Z.of_nat j))) as [->|Hne]; [|apply byte_lt_cons; lia].
  destruct (intsize_spec (Z.of_nat j)) as (? & ? & _); [unfold is_u64; lia|].
  destruct (be_bytes_lt (Z.to_nat (intsize (Z.of_nat j))) (Z.of_nat i) (Z.of_nat j)) as (p & x & y & a & b & -> & -> & Hxy); [lia|by rewrite Z2Nat.id by lia|].
  by exists (0x80 + intsize (Z.of_nat j) :: p), x, y, a, b.
Qed.

Lemma ikey_large_head j : (128 <= j)%nat -> Z.of_nat j < 2 ^ 64 -> exists x r, ikey j = x :: r /\ 0x80 < x.
Proof.
  intros Hj Hz. rewrite ikey_large by done. eexists _, _. split; [done|]. destruct (intsize_spec (Z.of_nat j)); [unfold is_u64; lia|]. lia.
Qed.

(** The order in which the loops visit the list. *)
Definition derive_order (n : nat) : list nat :=
  seq 1 (Nat.min (n - 1) 0x7f) ++ (if 0 <? Z.of_nat n then [0%nat] else []) ++ seq 0x80 (n - 0x80).

Lemma derive_order_perm n : derive_order n ≡ₚ seq 0 n.
Proof.
  unfold derive_order. destruct n as [|n]; [done|]. rewrite (proj2 (Z.ltb_lt _ _)) by lia. rewrite Permutation_app_comm. simpl app.
  cbn [seq]. constructor. rewrite Permutation_app_comm. rewrite Nat.sub_0_r. destruct (Nat.le_gt_cases n 127) as [Hn|Hn].
  - replace (n - 127)%nat with 0%nat by lia. rewrite Nat.min_l by lia. by rewrite app_nil_r.
  - rewrite Nat.min_r by lia. replace n with (127 + (n - 127))%nat at 2 by lia. by rewrite seq_app.
Qed.

Lemma sorted_seq {A} (R : A -> A -> Prop) (f : nat -> A) a n :
  (forall i j, (a <= i < j)%nat -> (j < a + n)%nat -> R (f i) (f j)) -> StronglySorted R (f <$> seq a n).
Proof.
  revert a. induction n as [|n IH]; intros a HR; simpl; constructor.
  - apply IH. intros i j Hi Hj. apply HR; lia.
  - apply Forall_fmap, Forall_forall. intros j Hj%elem_of_seq. apply HR; lia.
Qed.

Lemma derive_order_sorted n : Z.of_nat n < 2 ^ 64 -> StronglySorted byte_lt (ikey <$> derive_order n).
Proof.
  intros Hn. unfold derive_order. rewrite !fmap_app. apply StronglySorted_app_2; [| |apply StronglySorted_app_2].
  - intros a b [i [-> Hi%elem_of_seq]]%list_elem_of_fmap Hb. rewrite ikey_small by lia.
    apply elem_of_app in Hb as [Hb|[j [-> Hj%elem_of_seq]]%list_elem_of_fmap].
    + destruct (0 <? Z.of_nat n); [|by apply elem_of_nil in Hb]. apply list_elem_of_singleton in Hb as ->. rewrite ikey_zero. apply byte_lt_cons. lia.
    + destruct (ikey_large_head j) as (x & r & -> & ?); [lia..|]. apply byte_lt_cons. lia.
  - apply sorted_seq. intros i j Hi Hj. rewrite !ikey_small by lia. apply byte_lt_cons. lia.
  - intros a b Ha [j [-> Hj%elem_of_seq]]%list_elem_of_fmap. destruct (0 <? Z.of_nat n); [|by apply elem_of_nil in Ha].
    apply list_elem_of_singleton in Ha as ->. rewrite ikey_zero. destruct (ikey_large_head j) as (x & r & -> & ?); [lia..|]. by apply byte_lt_cons.
  - destruct (0 <? Z.of_nat n); repeat constructor.
  - apply sorted_seq. intros i j Hi Hj. apply ikey_lt_large; lia.
Qed.

Lemma byte_lt_irrefl a : ~ byte_lt a a.
Proof. intros (p & x & y & a' & b' & -> & He & Hxy). apply app_inv_head in He. injection He. lia. Qed.

Lemma sorted_NoDup ks : StronglySorted byte_lt ks -> NoDup ks.
Proof.
  induction 1 as [|k ks _ IH Hk]; constructor; [|done]. intros Hin. rewrite Forall_forall in Hk. by destruct (byte_lt_irrefl k (Hk k Hin)).
Qed.

Lemma ikeys_NoDup n : Z.of_nat n < 2 ^ 64 -> NoDup (ikey <$> seq 0 n).
Proof. intros Hn. rewrite <- derive_order_perm. by apply sorted_NoDup, derive_order_sorted. Qed.

(** ** The map from the encoded indices to the items *)

Definition index_pairs (items : list (list Z)) (indices : list nat) : list (list Z * list Z) :=
  (fun i => (ikey i, items !!! i)) <$> indices.

Definition index_map (items : list (list Z)) : gmap (list Z) (list Z) := list_to_map (index_pairs items (seq 0 (length items))).

Lemma index_pairs_keys items indices : (index_pairs items indices).*1 = ikey <$> indices.
Proof. unfold index_pairs. rewrite <- list_fmap_compose. by apply list_fmap_ext. Qed.

Lemma map_of_list kvs : NoDup kvs.*1 -> map_of kvs = list_to_map kvs.
Proof.
  intros Hnd. transitivity (list_to_map (reverse kvs) : gmap (list Z) (list Z)).
  - clear Hnd. induction kvs as [|kv kvs IH] using rev_ind; [done|]. unfold map_of in *. rewrite foldl_app, reverse_app. simpl. by rewrite IH.
  - symmetry. apply list_to_map_proper; [done|]. by rewrite reverse_Permutation.
Qed.

Lemma map_of_derive items :
  zlen items < 2 ^ 64 -> map_of (index_pairs items (derive_order (length items))) = index_map items.
Proof.
  unfold zlen. intros Hn. assert (Hnd : NoDup (index_pairs items (derive_order (length items))).*1).
  { rewrite index_pairs_keys. by apply sorted_NoDup, derive_order_sorted. }
  rewrite map_of_list by done. apply list_to_map_proper; [done|]. unfold index_pairs. by rewrite derive_order_perm.
Qed.

Lemma index_map_lookup items i :
  zlen items < 2 ^ 64 -> (i < length items)%nat -> index_map items !! ikey i = items !! i.
Proof.
  unfold zlen. intros Hn Hi. destruct (lookup_lt_is_Some_2 items i Hi) as [v Hv]. rewrite Hv. apply elem_of_list_to_map.
  - rewrite index_pairs_keys. by apply ikeys_NoDup.
  - apply list_elem_of_fmap. exists i. split; [by rewrite (list_lookup_total_correct _ _ _ Hv)|apply elem_of_seq; lia].
Qed.

Lemma index_map_key items k v :
  zlen items < 2 ^ 64 -> index_map items !! k = Some v -> exists i, k = ikey i /\ items !! i = Some v.
Proof.
  unfold zlen. intros Hn Hk. apply elem_of_list_to_map_2, list_elem_of_fmap in Hk as (i & [= -> ->] & Hi%elem_of_seq).
  exists i. split; [done|]. apply list_lookup_lookup_total_lt. lia.
Qed.

(** ** The loops *)

Definition list_ok (items : list (list Z)) : Prop :=
  zlen items < 2 ^ 63 /\ Forall (fun v => v <> [] /\ bytes_ok v /\ zlen v < 2 ^ 58) items.

Lemma ikey_fine i : Z.of_nat i < 2 ^ 63 -> bytes_ok (ikey i) /\ zlen (ikey i) <= 9.
Proof.
  intros Hi. destruct (decide (i = 0)%nat) as [->|]; [rewrite ikey_zero; split; [solve_decidable|done]|].
  destruct (decide (i <= 127)%nat).
  - rewrite ikey_small by lia. split; [|done]. apply Forall_singleton. unfold is_byte. lia.
  - rewrite ikey_large by lia. destruct (intsize_spec (Z.of_nat i)) as [Hs _]; [unfold is_u64; lia|]. rewrite zlen_cons, zlen_be_bytes.
    split; [|lia]. apply Forall_cons. split; [unfold is_byte; lia|apply be_bytes_ok].
Qed.

Lemma index_key_ok i : Z.of_nat i < 2 ^ 63 -> index_key i = Ok (ikey i).
Proof.
  intros Hi. enough (He : st_encode (IUint (Z.of_nat i)) = Ok (ikey i)).
  { unfold st_encode in He. unfold index_key. by destruct (Encode _ _ _). }
  apply st_encode_fine; [|done]. destruct (ikey_fine i Hi) as [_ Hz]. unfold ikey in Hz. split; [simpl; unfold is_u64; lia|]. split; [done|lia].
Qed.

Lemma index_pair_ok items i : list_ok items -> (i < length items)%nat -> pair_ok (ikey i, items !!! i).
Proof.
  intros [Hn Hok] Hi. unfold zlen in Hn. destruct (ikey_fine i) as [Hb Hz]; [lia|]. destruct (lookup_lt_is_Some_2 items i Hi) as [v Hv].
  rewrite (list_lookup_total_correct _ _ _ Hv). rewrite Forall_lookup in Hok. destruct (Hok i v Hv) as (? & ? & ?). unfold pair_ok. simpl. split_and!; try done. lia.
Qed.

Section loops.
Context {H : Type} {HH : Hasher H}.

Lemma derive_loop_app items l1 l2 h : derive_loop items (l1 ++ l2) h = (h ← derive_loop items l1 h; derive_loop items l2 h).
Proof.
  revert h. induction l1 as [|i l1 IH]; intros h; [done|]. cbn [app derive_loop].
  destruct (index_key i) as [k| |]; bind_simpl; try done. destruct (idx items (Z.of_nat i)) as [v| |]; bind_simpl; try done.
  destruct (h_Update h k v); bind_simpl; try done.
Qed.

Lemma DeriveSha_order items h :
  DeriveSha items h = (h ← derive_loop items (derive_order (length items)) (h_Reset h); '(r, _) ← h_Hash h; Ok r).
Proof.
  unfold DeriveSha, derive_order, zlen. rewrite derive_loop_app. destruct (derive_loop items (seq 1 _) _) as [h1|e|]; [|done..].
  destruct (0 <? Z.of_nat (length items)); [|done]. bind_simpl. rewrite derive_loop_app. by destruct (derive_loop items [0%nat] h1).
Qed.

(** A hasher that takes the pairs one by one takes the list. *)
Lemma derive_loop_step items i indices h :
  list_ok items -> (i < length items)%nat ->
  derive_loop items (i :: indices) h = (h ← h_Update h (ikey i) (items !!! i); derive_loop items indices h).
Proof.
  intros [Hn _] Hi. unfold zlen in Hn. cbn [derive_loop]. rewrite index_key_ok by lia. bind_simpl.
  rewrite (proj2 (idx_Ok items (Z.of_nat i) (items !!! i))); [done|]. rewrite Nat2Z.id. split; [lia|by apply list_lookup_lookup_total_lt].
Qed.
End loops.

Section agreement.
Context {K : Keccak}.

Lemma stack_loop items indices st T m :
  list_ok items -> stack_rep None st T m -> Forall (fun i => (i < length items)%nat) indices ->
  StronglySorted byte_lt (ikey <$> indices) -> (forall k w, m !! k = Some w -> Forall (byte_lt k) (ikey <$> indices)) ->
  exists st' T', derive_loop (HH := stack_hasher) items indices st = Ok st' /\
    stack_rep None st' T' (foldl (fun m kv => <[kv.1 := kv.2]> m) m (index_pairs items indices)).
Proof.
  intros Hok. revert st T m. induction indices as [|i indices IH]; intros st T m Hr Hin Hsort Hord; [by exists st, T|].
  apply Forall_cons in Hin as [Hi Hin]. apply StronglySorted_inv in Hsort as [Hsort Hlt]. rewrite derive_loop_step by done. cbn [h_Update stack_hasher].
  destruct (stack_TryUpdate_ok None st T m (ikey i) (items !!! i) Hr (index_pair_ok items i Hok Hi)) as (st1 & T1 & d1 & -> & Hg & Hr1).
  { intros k w Hw. by apply Hord, Forall_inv in Hw. }
  destruct d1; [done|]. bind_simpl. apply (IH st1 T1 _ Hr1 Hin Hsort).
  intros k w [[<- <-]|[_ Hw]]%lookup_insert_Some; [done|]. by apply Hord, Forall_inv_tail in Hw.
Qed.

Lemma trie_loop {db : NodeReader} order items indices t m :
  list_ok items -> stores t m -> Forall (fun i => (i < length items)%nat) indices ->
  exists t', derive_loop (HH := trie_hasher order) items indices t = Ok t' /\
    stores t' (foldl (fun m kv => <[kv.1 := kv.2]> m) m (index_pairs items indices)).
Proof.
  intros Hok. revert t m. induction indices as [|i indices IH]; intros t m Hs Hin; [by exists t|].
  apply Forall_cons in Hin as [Hi Hin]. rewrite derive_loop_step by done. cbn [h_Update trie_hasher].
  destruct (index_pair_ok items i Hok Hi) as (Hk & _ & Hv & _). simpl in Hk, Hv.
  destruct (TryUpdate_spec t m (ikey i) (items !!! i) Hs Hk) as (t1 & -> & Hs1). rewrite decide_False in Hs1 by done. bind_simpl. by apply IH.
Qed.

Lemma derive_order_range n : Forall (fun i => (i < n)%nat) (derive_order n).
Proof. rewrite derive_order_perm. apply Forall_forall. intros i Hi%elem_of_seq. lia. Qed.

Lemma DeriveSha_stack items st :
  list_ok items -> exists T, tree_map T (index_map items) /\ map_fits (index_map items) /\ DeriveSha (HH := stack_hasher) items st = Ok (sroot T).
Proof.
  intros Hok. pose proof Hok as [Hn _].
  destruct (stack_loop items (derive_order (length items)) NewStackTrie TEmpty ∅ Hok) as (st' & T & Hrun & Hr).
  - split; [apply empty_tree_map|split; [apply map_Forall_empty|by left]].
  - apply derive_order_range.
  - apply derive_order_sorted. unfold zlen in Hn. lia.
  - done.
  - fold (map_of (index_pairs items (derive_order (length items)))) in Hr. rewrite map_of_derive in Hr by lia.
    destruct (stack_rep_hash None st' T _ Hr) as (st2 & d' & Hh & _). destruct Hr as (HT & Hf & _). exists T. split; [done|]. split; [done|].
    rewrite DeriveSha_order. cbn [h_Reset stack_hasher]. rewrite Hrun. bind_simpl. cbn [h_Hash stack_hasher]. by rewrite Hh.
Qed.

Lemma DeriveSha_trie {db : NodeReader} order items t T :
  list_ok items -> tree_map T (index_map items) -> map_fits (index_map items) -> order ≡ₚ seq 0 16 ->
  DeriveSha (HH := trie_hasher order) items t = Ok (mroot T).
Proof.
  intros Hok HT Hf Hord. pose proof Hok as [Hn _].
  destruct (trie_loop order items (derive_order (length items)) new_trie ∅ Hok new_trie_stores (derive_order_range _)) as (t' & Hrun & Hs).
  fold (map_of (index_pairs items (derive_order (length items)))) in Hs. rewrite map_of_derive in Hs by lia.
  destruct (Hash_spec order t' _ T Hs HT Hf Hord) as (t2 & Hh & _).
  rewrite DeriveSha_order. cbn [h_Reset trie_hasher]. change (trie_Reset t) with new_trie. rewrite Hrun. bind_simpl. cbn [h_Hash trie_hasher]. by rewrite Hh.
Qed.
(** ** Items of twelve bytes make branches that are not embedded *)

Definition values_large (t : tree) : Prop := forall k v, tfind t k = Some v -> 12 <= zlen v.

Lemma zlen_head_pos small large sz : 1 <= zlen (head_spec small large sz).
Proof. unfold head_spec. destruct (sz <? 56); rewrite ?zlen_cons; [done|]. pose proof (zlen_nonneg (be_bytes (Z.to_nat (intsize sz)) sz)). lia. Qed.

Lemma zlen_string_large b : 2 <= zlen b -> zlen b + 1 <= zlen (string_spec b).
Proof.
  intros Hb. pose proof (zlen_head_pos 0x80 0xB7 (zlen b)). unfold string_spec. destruct b as [|x [|y b]]; [done..|]. rewrite zlen_app. lia.
Qed.

Lemma zlen_string_pos b : 1 <= zlen (string_spec b).
Proof.
  pose proof (zlen_head_pos 0x80 0xB7 (zlen b)). pose proof (zlen_nonneg b). unfold string_spec. destruct b as [|x [|y b]]; [|destruct (x <? 128); [done|]|]; rewrite zlen_app; lia.
Qed.

Lemma mchild_pos t : 1 <= zlen (rlp_spec (mchild t)).
Proof.
  assert (Hl : forall l, 1 <= zlen (rlp_spec (IList l))).
  { intros l. cbn [rlp_spec]. unfold list_spec. rewrite zlen_app. pose proof (zlen_nonneg (concat (map rlp_spec l))).
    pose proof (zlen_head_pos 0xC0 0xF7 (zlen (concat (map rlp_spec l)))). lia. }
  destruct t; cbn [mchild]; unfold mref; try (case_match; [by rewrite ?mitem_short, ?mitem_full|]); apply zlen_string_pos.
Qed.

Lemma mchild_large t : branch t -> 15 <= zlen (rlp_spec (mitem t)) -> 15 <= zlen (rlp_spec (mchild t)).
Proof.
  intros Hb Hz. assert (Hr : 15 <= zlen (rlp_spec (mref (mitem t)))); [|by destruct t].
  unfold mref. destruct (zlen (rlp_spec (mitem t)) <? 32); [done|]. cbn [rlp_spec].
  pose proof (zlen_string_spec (keccak256 (rlp_spec (mitem t)))) as Hs. rewrite keccak_len in Hs. lia.
Qed.

Lemma rlp_list_children ts t :
  t ∈ ts -> zlen ts + zlen (rlp_spec (mchild t)) <= zlen (rlp_spec (IList (map mchild ts))).
Proof.
  intros Hin. cbn [rlp_spec]. unfold list_spec. rewrite zlen_app. pose proof (zlen_head_pos 0xC0 0xF7 (zlen (concat (map rlp_spec (map mchild ts))))) as Hh.
  enough (Hs : zlen ts - 1 + zlen (rlp_spec (mchild t)) <= zlen (concat (map rlp_spec (map mchild ts)))) by lia. clear Hh.
  assert (Hall : forall us, zlen us <= zlen (concat (map rlp_spec (map mchild us)))).
  { induction us as [|u us IH]; [done|]. simpl map. simpl concat. rewrite zlen_app, zlen_cons. pose proof (mchild_pos u). lia. }
  induction ts as [|u ts IH]; [by apply elem_of_nil in Hin|]. simpl map. simpl concat. rewrite zlen_app, zlen_cons.
  apply elem_of_cons in Hin as [->|Hin]; [specialize (Hall ts); lia|]. specialize (IH Hin). pose proof (mchild_pos u). lia.
Qed.

Lemma values_large_child ts (i : nat) t : values_large (TFull ts) -> ts !! i = Some t -> values_large t.
Proof. intros Hl Ht k v Hk. apply (Hl (Z.of_nat i :: k)). rewrite tfind_full by lia. by rewrite Nat2Z.id, Ht. Qed.

Lemma values_large_short k t : values_large (TShort k t) -> values_large t.
Proof. intros Hl r v Hr. apply (Hl (k ++ r)). by rewrite tfind_short. Qed.

Lemma node_large t :
  canon t -> values_large t -> 15 <= zlen (rlp_spec (mitem t)) /\ match t with TFull _ => 32 <= zlen (rlp_spec (mitem t)) | _ => True end.
Proof.
  intros Hc. induction Hc as [ns v Hns Hv|ns ts Hns Hne Hts IH|ts Hts IH] using canon_strong_ind; intros Hl.
  - split; [|done]. rewrite mitem_short. change (mchild (TValue v)) with (IBytes v).
    assert (12 <= zlen v) by (by apply values_large_short in Hl; apply (Hl [])). cbn [rlp_spec map concat]. unfold list_spec. rewrite app_nil_r, !zlen_app.
    pose proof (zlen_string_large v ltac:(lia)). pose proof (zlen_string_pos (compact (ns ++ [16]))).
    match goal with |- context [head_spec ?a ?b ?c] => pose proof (zlen_head_pos a b c) end. lia.
  - split; [|done]. destruct (IH (values_large_short _ _ Hl)) as [H15 _]. rewrite mitem_short.
    pose proof (rlp_list_ge [IBytes (compact ns); mchild (TFull ts)] (mchild (TFull ts)) ltac:(right; left)).
    pose proof (mchild_large (TFull ts) I H15). lia.
  - assert (H32 : 32 <= zlen (rlp_spec (mitem (TFull ts)))); [|split; [lia|done]].
    apply canon_TFull in Hts as [(Hlen & _ & _) (i & j & Hij & (ti & Hti & Hni) & (tj & Htj & Hnj))].
    assert (exists i t, (i < 16)%nat /\ ts !! i = Some t /\ t <> TEmpty) as (m & t & Hm & Ht & Hn).
    { pose proof (lookup_lt_Some _ _ _ Hti). pose proof (lookup_lt_Some _ _ _ Htj). destruct (decide (i < 16)%nat); [by exists i, ti|]. exists j, tj. split_and!; [lia|done|done]. }
    destruct (IH m t Hm Ht) as [->|[Hct Hz]]; [done|]. destruct (Hz (values_large_child ts m t Hl Ht)) as [H15 _].
    rewrite mitem_full. pose proof (rlp_list_children ts t (list_elem_of_lookup_2 _ _ _ Ht)) as Hs. unfold zlen in Hs at 1. rewrite Hlen in Hs.
    pose proof (mchild_large t (canon_branch_tree t Hct) H15). lia.
Qed.

Lemma sub_large s T : sub s T -> branch s -> canon0 T -> values_large T -> canon s /\ values_large s.
Proof.
  induction 1 as [|k t Hs IH|t ts Hin Hs IH]; intros Hb Hc Hl.
  - destruct Hc as [->|Hc]; [done|]. done.
  - apply values_large_short in Hl. destruct Hc as [?|Hc]; [done|]. inversion Hc; subst; [by inversion Hs; subst|]. apply IH; [done|by right|done].
  - destruct Hc as [?|Hc]; [done|]. apply canon_TFull in Hc as [(Hlen & Hch & Hv) _]. apply list_elem_of_lookup in Hin as [i Hi].
    apply (values_large_child ts i t) in Hl; [|done]. destruct (decide (i < 16)%nat) as [Hlt|Hge].
    + apply IH; [done|by apply (Hch i)|done].
    + assert (i = 16%nat) as -> by (apply lookup_lt_Some in Hi; lia). destruct (Hv t Hi) as [->|(v & -> & _)]; by inversion Hs; subst.
Qed.

Lemma large_ext_large T : canon0 T -> values_large T -> ext_large T.
Proof.
  intros Hc Hl k ts Hs. destruct (sub_large _ _ Hs I Hc Hl) as [Hcs Hls]. apply values_large_short in Hls. inversion Hcs as [? ? ? ? He|? ? ? ? Hf|]; subst.
  by apply (node_large (TFull ts)).
Qed.
End agreement.

Lemma ikey_inj n i j : Z.of_nat n < 2 ^ 64 -> (i < n)%nat -> (j < n)%nat -> ikey i = ikey j -> i = j.
Proof.
  intros Hn Hi Hj He. apply (NoDup_lookup _ i j (ikey i) (ikeys_NoDup n Hn)); rewrite list_lookup_fmap, lookup_seq_lt by done; simpl; by rewrite ?He.
Qed.

Lemma index_map_sub items items' i v :
  zlen items < 2 ^ 63 -> zlen items' < 2 ^ 63 -> index_map items = index_map items' -> items !! i = Some v -> items' !! i = Some v.
Proof.
  intros Hn Hn' He Hv. pose proof (lookup_lt_Some _ _ _ Hv) as Hi. rewrite <- index_map_lookup, He in Hv by (done || lia).
  apply index_map_key in Hv as (j & Hij & Hj); [|lia]. pose proof (lookup_lt_Some _ _ _ Hj). unfold zlen in *.
  by rewrite (ikey_inj (Nat.max (length items) (length items')) i j) by (done || lia).
Qed.

Lemma index_map_inj items items' :
  zlen items < 2 ^ 63 -> zlen items' < 2 ^ 63 -> index_map items = index_map items' -> items = items'.
Proof. intros Hn Hn' He. apply list_eq. intros i. apply option_eq. intros v. by split; apply index_map_sub. Qed.

(** Items of at least twelve bytes, as transactions and receipts have them. *)
Definition items_large (items : list (list Z)) : Prop := Forall (fun v => 12 <= zlen v) items.

Lemma items_values items T : list_ok items -> items_large items -> tree_map T (index_map items) -> values_large T.
Proof.
  intros [Hn _] Hl [_ Hm] k v Hk. apply Hm in Hk as (key & _ & _ & Hv). apply index_map_key in Hv as (i & _ & Hi); [|lia].
  unfold items_large in Hl. rewrite Forall_lookup in Hl. by apply (Hl i).
Qed.

Lemma DeriveSha_roots {K : Keccak} items st :
  list_ok items -> items_large items ->
  exists T, tree_map T (index_map items) /\ map_fits (index_map items) /\ DeriveSha (HH := stack_hasher) items st = Ok (mroot T).
Proof.
  intros Hok Hl. destruct (DeriveSha_stack items st Hok) as (T & HT & Hf & Hs). exists T. split; [done|]. split; [done|].
  pose proof HT as [Hc _]. rewrite Hs, sroot_mroot; [done| |done]. apply large_ext_large; [done|]. by apply (items_values items).
Qed.

(** Lists with the same root are the same. *)
Lemma DeriveSha_inj {K : Keccak} items items' st st' T T' h :
  list_ok items -> items_large items -> list_ok items' -> items_large items' -> tree_map T (index_map items) -> tree_map T' (index_map items') ->
  keccak256 [0x80] = emptyRoot -> no_collision T T' ->
  DeriveSha (HH := stack_hasher) items st = Ok h -> DeriveSha (HH := stack_hasher) items' st' = Ok h -> items = items'.
Proof.
  intros Hok Hl Hok' Hl' HT HT' He Hn Hh Hh'. destruct (DeriveSha_roots items st Hok Hl) as (T1 & HT1 & Hf & Hs).
  destruct (DeriveSha_roots items' st' Hok' Hl') as (T2 & HT2 & Hf' & Hs').
  rewrite (tree_map_unique T1 T _ HT1 HT), Hh in Hs. rewrite (tree_map_unique T2 T' _ HT2 HT'), Hh' in Hs'. injection Hs as ->. injection Hs' as Hr.
  assert (T = T') as ->.
  { apply mroot_inj; try done; [apply HT|apply HT'|by eapply tree_map_hashable|by eapply tree_map_hashable]. }
  apply index_map_inj; [apply Hok|apply Hok'|]. by apply (tree_map_inj T').
Qed.

(** C30. The root of a list does not depend on the hasher: for items of at
    least twelve bytes the trie and the stack trie, whatever was in them
    before, both give the root of the tree that maps the encoded index of each
    item to it.  Neither refuses a key or panics, for lists of any length. *)
Theorem DeriveSha_agrees {K : Keccak} {db : NodeReader} (order : list nat) (items : list (list Z)) (st : StackTrie) (t : Trie) :
  list_ok items -> items_large items -> order ≡ₚ seq 0 16 ->
  exists T, tree_map T (index_map items) /\
    DeriveSha (HH := stack_hasher) items st = Ok (mroot T) /\ DeriveSha (HH := trie_hasher order) items t = Ok (mroot T).
Proof.
  intros Hok Hl Ho. destruct (DeriveSha_roots items st Hok Hl) as (T & HT & Hf & Hs).
  exists T. split; [done|]. split; [done|]. by apply DeriveSha_trie.
Qed.

(** The root commits to the list: if a list hashed with the stack trie
    and a list hashed with the trie have the same root, they are the same
    list, in length and order, provided that the hash function has no
    collision among the nodes of the two trees. *)
Theorem DeriveSha_binding {K : Keccak} {db : NodeReader} (order : list nat) (items items' : list (list Z))
    (st : StackTrie) (t : Trie) (T T' : tree) (h : list Z) :
  list_ok items -> items_large items -> list_ok items' -> items_large items' -> order ≡ₚ seq 0 16 ->
  tree_map T (index_map items) -> tree_map T' (index_map items') -> keccak256 [0x80] = emptyRoot -> no_collision T T' ->
  DeriveSha (HH := stack_hasher) items st = Ok h -> DeriveSha (HH := trie_hasher order) items' t = Ok h -> items = items'.
Proof.
  intros Hok Hl Hok' Hl' Ho HT HT' He Hn Hh Hh'. apply (DeriveSha_inj items items' st st T T' h); try done.
  destruct (DeriveSha_roots items' st Hok' Hl') as (T2 & HT2 & Hf' & ->). by rewrite <- Hh', (DeriveSha_trie order items' t T2).
Qed.

(** ** Examples *)

Definition sample_items : list (list Z) := [replicate 12 5; replicate 40 9; replicate 13 200].

Lemma items_ok_by (items : list (list Z)) :
  zlen items < 2 ^ 63 -> Forall (fun v => 12 <= zlen v < 2 ^ 58 /\ bytes_ok v) items -> list_ok items /\ items_large items.
Proof.
  intros Hn Hf. split; [split; [done|]|]; (eapply Forall_impl; [exact Hf|]); intros v [[? ?] ?]; [|done]. split_and!; [by intros ->|done|done].
Qed.

Lemma sample_items_ok : list_ok sample_items /\ items_large sample_items.
Proof. apply items_ok_by; [done|]. repeat constructor; try done; solve_decidable. Qed.

Lemma DeriveSha_agrees_witness :
  exists T, tree_map T (index_map sample_items) /\
    DeriveSha (HH := stack_hasher (K := toy_keccak)) sample_items NewStackTrie = Ok (mroot (K := toy_keccak) T) /\
    DeriveSha (HH := trie_hasher (K := toy_keccak) (db := no_db) (seq 0 16)) sample_items fresh_trie = Ok (mroot (K := toy_keccak) T).
Proof.
  apply (DeriveSha_agrees (K := toy_keccak) (db := no_db) (seq 0 16) sample_items NewStackTrie fresh_trie);
    [apply sample_items_ok|apply sample_items_ok|done].
Defined.

Definition one_item : list (list Z) := [replicate 12 5].
Definition one_tree : tree := leaf_of [8; 0] (replicate 12 5).

Lemma one_item_ok : list_ok one_item /\ items_large one_item.
Proof. apply items_ok_by; [done|]. repeat constructor; try done; solve_decidable. Qed.

Lemma one_tree_map : tree_map one_tree (index_map one_item).
Proof.
  change (index_map one_item) with (<[ [0x80] := replicate 12 5 ]> (∅ : gmap (list Z) (list Z))).
  eapply tree_map_insert; [apply empty_tree_map|solve_decidable|right; apply canon_leaf_of; [solve_decidable|done]|].
  intros k. apply tset_empty.
Qed.

Definition one_root : list Z := match DeriveSha (HH := stack_hasher (K := toy_keccak)) one_item NewStackTrie with Ok h => h | _ => [] end.

Lemma DeriveSha_binding_witness : one_item = one_item.
Proof.
  apply (DeriveSha_binding (K := toy_keccak) (db := no_db) (seq 0 16) one_item one_item NewStackTrie fresh_trie one_tree one_tree one_root);
    [apply one_item_ok|apply one_item_ok|apply one_item_ok|apply one_item_ok|done|apply one_tree_map|apply one_tree_map|reflexivity
    | |vm_compute; reflexivity|vm_compute; reflexivity].
  intros x y Hx Hy. repeat (apply elem_of_cons in Hx as [->|Hx]); repeat (apply elem_of_cons in Hy as [->|Hy]);
    try (by apply elem_of_nil in Hx); try (by apply elem_of_nil in Hy); vm_compute; done.
Defined.
