(* ===== verification/Header.v ===== *)
(** * Block headers (src/core/types/block.go)

    The header of a block, its encoding and hash, and the hash of the uncles.
    The file shows that the hash of a header determines the header. *)
From stdpp Require Import prelude list.
From Stdlib Require Import ZArith Lia.
From S2P Require Import Prelude RlpEncode RlpRaw RlpStream TrieEncoding Trie TrieNode TrieHash.

Record Header := MkHeader {
  hd_ParentHash : list Z;
  hd_UncleHash : list Z;
  hd_Coinbase : list Z;
  hd_Root : list Z;
  hd_TxHash : list Z;
  hd_ReceiptHash : list Z;
  hd_Bloom : list Z;
  hd_Difficulty : Z;
  hd_Number : Z;
  hd_GasLimit : Z;
  hd_GasUsed : Z;
  hd_Time : Z;
  hd_Extra : list Z;
  hd_MixDigest : list Z;
  hd_Nonce : list Z;
}.

Definition with_root (h : Header) (root : list Z) : Header :=
  MkHeader (hd_ParentHash h) (hd_UncleHash h) (hd_Coinbase h) root (hd_TxHash h) (hd_ReceiptHash h) (hd_Bloom h) (hd_Difficulty h)
    (hd_Number h) (hd_GasLimit h) (hd_GasUsed h) (hd_Time h) (hd_Extra h) (hd_MixDigest h) (hd_Nonce h).

Definition with_difficulty (h : Header) (d : Z) : Header :=
  MkHeader (hd_ParentHash h) (hd_UncleHash h) (hd_Coinbase h) (hd_Root h) (hd_TxHash h) (hd_ReceiptHash h) (hd_Bloom h) d
    (hd_Number h) (hd_GasLimit h) (hd_GasUsed h) (hd_Time h) (hd_Extra h) (hd_MixDigest h) (hd_Nonce h).

(** A block, with its transactions in their encoding. *)
Record Block := MkBlock { bk_header : Header; bk_uncles : list Header; bk_transactions : list (list Z) }.

(** What the encoder gets: the fields without the seal, and the seal. *)
Definition seal_items (h : Header) : list item :=
  [IByteArray (hd_ParentHash h); IByteArray (hd_UncleHash h); IByteArray (hd_Coinbase h); IByteArray (hd_Root h);
   IByteArray (hd_TxHash h); IByteArray (hd_ReceiptHash h); IByteArray (hd_Bloom h); IBigInt (hd_Difficulty h);
   IBigInt (hd_Number h); IUint (hd_GasLimit h); IUint (hd_GasUsed h); IUint (hd_Time h); IBytes (hd_Extra h)].

Definition header_item (h : Header) : item := IList (seal_items h ++ [IByteArray (hd_MixDigest h); IByteArray (hd_Nonce h)]).

(** [SanityCheck] *)
Inductive sanity_error := ErrLargeNumber (bitlen : Z) | ErrLargeDifficulty (bitlen : Z) | ErrLargeExtra (size : Z).

Definition SanityCheck (h : Header) : outcome sanity_error unit :=
  if negb ((0 <=? hd_Number h) && (hd_Number h <? 2 ^ 64)) then Err (ErrLargeNumber (bit_len (hd_Number h)))
  else if bit_len (hd_Difficulty h) >? 80 then Err (ErrLargeDifficulty (bit_len (hd_Difficulty h)))
  else if zlen (hd_Extra h) >? 100 * 1024 then Err (ErrLargeExtra (zlen (hd_Extra h)))
  else Ok tt.

Section hash.
Context {K : Keccak}.

(** The encoder writes nothing when it fails, and the error is dropped. *)
Definition rlpHash (it : item) : list Z := keccak256 (match Encode [] it new_encbuf with Ok b => b | _ => [] end).

(** [Header.Hash] *)
Definition header_Hash (h : Header) : list Z := rlpHash (header_item h).

(** [Ethash.SealHash] *)
Definition SealHash (h : Header) : list Z := rlpHash (IList (seal_items h)).

Definition EmptyUncleHash : list Z := rlpHash (IList []).

Definition CalcUncleHash (uncles : list Header) : list Z :=
  if zlen uncles =? 0 then EmptyUncleHash else rlpHash (IList (map header_item uncles)).

Definition EmptyBody (h : Header) : bool := bool_decide (hd_TxHash h = emptyRoot) && bool_decide (hd_UncleHash h = EmptyUncleHash).
End hash.

(** ** The hash determines the header *)

(** The fields have their sizes; this is what a decoded header has. *)
Definition header_ok (h : Header) : Prop :=
  (length (hd_ParentHash h) = 32 /\ length (hd_UncleHash h) = 32 /\ length (hd_Coinbase h) = 20 /\ length (hd_Root h) = 32 /\
   length (hd_TxHash h) = 32 /\ length (hd_ReceiptHash h) = 32 /\ length (hd_Bloom h) = 256 /\ length (hd_MixDigest h) = 32 /\
   length (hd_Nonce h) = 8)%nat /\
  Forall bytes_ok [hd_ParentHash h; hd_UncleHash h; hd_Coinbase h; hd_Root h; hd_TxHash h; hd_ReceiptHash h; hd_Bloom h; hd_Extra h; hd_MixDigest h; hd_Nonce h] /\
  0 <= hd_Difficulty h /\ 0 <= hd_Number h /\ is_u64 (hd_GasLimit h) /\ is_u64 (hd_GasUsed h) /\ is_u64 (hd_Time h) /\
  zlen (rlp_spec (header_item h)) < 2 ^ 47.

Definition header_ty : ty :=
  TStruct [TByteArray 32; TByteArray 32; TByteArray 20; TByteArray 32; TByteArray 32; TByteArray 32; TByteArray 256; TBigInt;
           TBigInt; TUint 64; TUint 64; TUint 64; TBytes; TByteArray 32; TByteArray 8] None.

Lemma header_has_type h : header_ok h -> has_type header_ty (header_item h).
Proof.
  intros ((? & ? & ? & ? & ? & ? & ? & ? & ?) & Hb & ? & ? & ? & ? & ? & _). repeat (apply Forall_cons in Hb as [? Hb]).
  eexists. split; [reflexivity|]. eexists _, []. rewrite app_nil_r. split; [reflexivity|]. split; [|done]. unfold is_u64 in *.
  repeat (constructor; [eexists; split; [reflexivity|]; done|]). constructor.
Qed.

Lemma header_ty_ok : ty_ok header_ty = true.
Proof. done. Qed.

Lemma header_item_inj h h' : header_item h = header_item h' -> h = h'.
Proof. destruct h, h'. unfold header_item, seal_items. simpl. by intros [= -> -> -> -> -> -> -> -> -> -> -> -> -> -> ->]. Qed.

(** Values of the same type with the same encoding are equal. *)
Lemma rlp_typed_inj t v v' :
  ty_ok t = true -> has_type t v -> has_type t v' -> zlen (rlp_spec v) < 2 ^ 47 -> rlp_spec v = rlp_spec v' -> v = v'.
Proof.
  intros Ht Hv Hv' Hz He. destruct (has_type_ok t v Ht Hv) as [Hok _]. pose proof (rlp_spec_ok v Hok ltac:(lia)) as Hb.
  destruct (DecodeBytes_spec (S (length (rlp_spec v))) idle_stream (rlp_spec v) t Ht Hb Hz ltac:(lia)) as (o & _ & _ & Hiff).
  pose proof (proj2 (Hiff v) (conj Hv eq_refl)) as H1. pose proof (proj2 (Hiff v') (conj Hv' (eq_sym He))) as H2. congruence.
Qed.

Section binding.
Context {K : Keccak}.

Lemma header_Hash_spec h : header_ok h -> header_Hash h = keccak256 (rlp_spec (header_item h)).
Proof.
  intros Hh. destruct (has_type_ok _ _ header_ty_ok (header_has_type h Hh)) as [Hok Hnn]. destruct Hh as (_ & _ & _ & _ & _ & _ & _ & Hz).
  unfold header_Hash, rlpHash. rewrite Encode_new by (done || lia). by rewrite Hnn.
Qed.

Lemma header_Hash_inj h h' :
  header_ok h -> header_ok h' ->
  (keccak256 (rlp_spec (header_item h)) = keccak256 (rlp_spec (header_item h')) -> rlp_spec (header_item h) = rlp_spec (header_item h')) ->
  header_Hash h = header_Hash h' -> h = h'.
Proof.
  intros Hh Hh' Hnc He. rewrite !header_Hash_spec in He by done. apply header_item_inj, (rlp_typed_inj header_ty); [done|by apply header_has_type..| |by apply Hnc].
  apply Hh.
Qed.
End binding.
