(* ===== verification/StateDB.v ===== *)
(** * The state of accounts (src/core/state)

    Accounts with their caches, the journal of changes, snapshots, and the end
    of a transaction.  The tries and the code store behind the state are
    interfaces, as in the source: [Trie] and [Database] of database.go and
    [Snapshot] of the snapshot package. *)
From stdpp Require Import prelude list gmap.
From Stdlib Require Import ZArith Lia.
From S2P Require Import Prelude RlpEncode RlpRaw RlpStream TrieEncoding Trie TrieNode TrieHash.

Abbreviation addr_t := (list Z).
Abbreviation hash_t := (list Z).

(** ** Interfaces *)

(** [state.Trie]: a read can load nodes, so it returns the trie. *)
Class TrieOps (T : Type) := {
  t_TryGet : T -> list Z -> tr (list Z) * T;
  t_TryUpdate : T -> list Z -> list Z -> tr unit * T;
  t_TryDelete : T -> list Z -> tr unit * T;
  t_Hash : T -> go (hash_t * T);
}.

(** [state.Database] *)
Class StateDatabase (T : Type) := {
  OpenTrie : hash_t -> tr T;
  OpenStorageTrie : hash_t -> hash_t -> tr T;
  ContractCode : hash_t -> hash_t -> option (list Z);
  ContractCodeSize : hash_t -> hash_t -> option Z;
}.

(** [snapshot.Account] and [snapshot.Snapshot]; [None] is an error. *)
Record SnapAccount := MkSnapAccount {
  sa_Nonce : Z;
  sa_Balance : Z;
  sa_Root : list Z;
  sa_CodeHash : list Z;
}.
Record Snapshot := MkSnapshot {
  snap_Account : hash_t -> option (option SnapAccount);
  snap_Storage : hash_t -> hash_t -> option (list Z);
}.

(** ** Data *)

Inductive state_error := ErrTrie | ErrStorageTrie | ErrSplit | ErrCode.

Definition zero_hash : hash_t := replicate 32 0.
Definition ripemd : addr_t := replicate 19 0 ++ [3].

Record Account := MkAccount { Nonce : Z; Balance : Z; Root : hash_t; CodeHash : list Z }.

Abbreviation Storage := (gmap hash_t hash_t).

Record Log := MkLog { log_body : LogBody; TxHash : hash_t; BlockHash : hash_t; TxIndex : Z; LogIndex : Z }.

Record revision := MkRevision { rev_id : Z; journalIndex : Z }.

Section state.
Context {K : Keccak} {T : Type}.

Record stateObject := MkObject {
  address : addr_t;
  data : Account;
  obj_dbErr : option state_error;
  obj_trie : option T;
  code : option (list Z);
  originStorage : Storage;
  pendingStorage : Storage;
  dirtyStorage : Storage;
  fakeStorage : option Storage;
  dirtyCode : bool;
  suicided : bool;
  deleted : bool;
}.

Definition emptyCodeHash : list Z := keccak256 [].
Definition addrHash (o : stateObject) : hash_t := keccak256 (address o).

Definition set_data (o : stateObject) (d : Account) : stateObject :=
  MkObject (address o) d (obj_dbErr o) (obj_trie o) (code o) (originStorage o) (pendingStorage o) (dirtyStorage o)
    (fakeStorage o) (dirtyCode o) (suicided o) (deleted o).
Definition set_trie (o : stateObject) (t : option T) : stateObject :=
  MkObject (address o) (data o) (obj_dbErr o) t (code o) (originStorage o) (pendingStorage o) (dirtyStorage o)
    (fakeStorage o) (dirtyCode o) (suicided o) (deleted o).
Definition set_code (o : stateObject) (c : option (list Z)) (dirty : bool) : stateObject :=
  MkObject (address o) (data o) (obj_dbErr o) (obj_trie o) c (originStorage o) (pendingStorage o) (dirtyStorage o)
    (fakeStorage o) dirty (suicided o) (deleted o).
Definition set_storage (o : stateObject) (origin pending dirty : Storage) : stateObject :=
  MkObject (address o) (data o) (obj_dbErr o) (obj_trie o) (code o) origin pending dirty
    (fakeStorage o) (dirtyCode o) (suicided o) (deleted o).
Definition set_fake (o : stateObject) (f : option Storage) : stateObject :=
  MkObject (address o) (data o) (obj_dbErr o) (obj_trie o) (code o) (originStorage o) (pendingStorage o) (dirtyStorage o)
    f (dirtyCode o) (suicided o) (deleted o).
Definition set_marks (o : stateObject) (sui del : bool) : stateObject :=
  MkObject (address o) (data o) (obj_dbErr o) (obj_trie o) (code o) (originStorage o) (pendingStorage o) (dirtyStorage o)
    (fakeStorage o) (dirtyCode o) sui del.

(** [setError]: the first error is remembered. *)
Definition setError (o : stateObject) (e : state_error) : stateObject :=
  MkObject (address o) (data o) (match obj_dbErr o with Some e => Some e | None => Some e end) (obj_trie o) (code o)
    (originStorage o) (pendingStorage o) (dirtyStorage o) (fakeStorage o) (dirtyCode o) (suicided o) (deleted o).

Inductive journalEntry :=
| createObjectChange (account : addr_t)
| resetObjectChange (prev : stateObject) (prevdestruct : bool)
| suicideChange (account : addr_t) (prev : bool) (prevbalance : Z)
| balanceChange (account : addr_t) (prev : Z)
| nonceChange (account : addr_t) (prev : Z)
| storageChange (account : addr_t) (key prevalue : hash_t)
| codeChange (account : addr_t) (prevcode : option (list Z)) (prevhash : list Z)
| refundChange (prev : Z)
| addLogChange (txhash : hash_t)
| addPreimageChange (hash : hash_t)
| touchChange (account : addr_t).

Record journal := MkJournal { entries : list journalEntry; dirties : gmap addr_t Z }.

Record StateDB := MkStateDB {
  trie : T;
  snap : option Snapshot;
  snapDestructs : gset hash_t;
  snapAccounts : gmap hash_t (list Z);
  snapStorage : gmap hash_t (gmap hash_t (list Z));
  stateObjects : gmap addr_t stateObject;
  stateObjectsPending : gset addr_t;
  stateObjectsDirty : gset addr_t;
  dbErr : option state_error;
  refund : Z;
  thash : hash_t;
  bhash : hash_t;
  txIndex : Z;
  logs : gmap hash_t (list Log);
  logSize : Z;
  sha3_preimages : gmap hash_t (list Z);
  jrnl : journal;
  validRevisions : list revision;
  nextRevisionId : Z;
}.

Definition with_objects (s : StateDB) (m : gmap addr_t stateObject) : StateDB :=
  MkStateDB (trie s) (snap s) (snapDestructs s) (snapAccounts s) (snapStorage s) m (stateObjectsPending s) (stateObjectsDirty s)
    (dbErr s) (refund s) (thash s) (bhash s) (txIndex s) (logs s) (logSize s) (sha3_preimages s) (jrnl s) (validRevisions s) (nextRevisionId s).
Definition with_marks (s : StateDB) (pending dirty : gset addr_t) : StateDB :=
  MkStateDB (trie s) (snap s) (snapDestructs s) (snapAccounts s) (snapStorage s) (stateObjects s) pending dirty
    (dbErr s) (refund s) (thash s) (bhash s) (txIndex s) (logs s) (logSize s) (sha3_preimages s) (jrnl s) (validRevisions s) (nextRevisionId s).
Definition with_trie (s : StateDB) (t : T) (e : option state_error) : StateDB :=
  MkStateDB t (snap s) (snapDestructs s) (snapAccounts s) (snapStorage s) (stateObjects s) (stateObjectsPending s) (stateObjectsDirty s)
    e (refund s) (thash s) (bhash s) (txIndex s) (logs s) (logSize s) (sha3_preimages s) (jrnl s) (validRevisions s) (nextRevisionId s).
Definition with_destructs (s : StateDB) (d : gset hash_t) : StateDB :=
  MkStateDB (trie s) (snap s) d (snapAccounts s) (snapStorage s) (stateObjects s) (stateObjectsPending s) (stateObjectsDirty s)
    (dbErr s) (refund s) (thash s) (bhash s) (txIndex s) (logs s) (logSize s) (sha3_preimages s) (jrnl s) (validRevisions s) (nextRevisionId s).
Definition with_snap_data (s : StateDB) (a : gmap hash_t (list Z)) (st : gmap hash_t (gmap hash_t (list Z))) : StateDB :=
  MkStateDB (trie s) (snap s) (snapDestructs s) a st (stateObjects s) (stateObjectsPending s) (stateObjectsDirty s)
    (dbErr s) (refund s) (thash s) (bhash s) (txIndex s) (logs s) (logSize s) (sha3_preimages s) (jrnl s) (validRevisions s) (nextRevisionId s).
Definition with_refund (s : StateDB) (r : Z) : StateDB :=
  MkStateDB (trie s) (snap s) (snapDestructs s) (snapAccounts s) (snapStorage s) (stateObjects s) (stateObjectsPending s) (stateObjectsDirty s)
    (dbErr s) r (thash s) (bhash s) (txIndex s) (logs s) (logSize s) (sha3_preimages s) (jrnl s) (validRevisions s) (nextRevisionId s).
Definition with_logs (s : StateDB) (l : gmap hash_t (list Log)) (n : Z) : StateDB :=
  MkStateDB (trie s) (snap s) (snapDestructs s) (snapAccounts s) (snapStorage s) (stateObjects s) (stateObjectsPending s) (stateObjectsDirty s)
    (dbErr s) (refund s) (thash s) (bhash s) (txIndex s) l n (sha3_preimages s) (jrnl s) (validRevisions s) (nextRevisionId s).
Definition with_preimages (s : StateDB) (p : gmap hash_t (list Z)) : StateDB :=
  MkStateDB (trie s) (snap s) (snapDestructs s) (snapAccounts s) (snapStorage s) (stateObjects s) (stateObjectsPending s) (stateObjectsDirty s)
    (dbErr s) (refund s) (thash s) (bhash s) (txIndex s) (logs s) (logSize s) p (jrnl s) (validRevisions s) (nextRevisionId s).
Definition with_journal (s : StateDB) (j : journal) : StateDB :=
  MkStateDB (trie s) (snap s) (snapDestructs s) (snapAccounts s) (snapStorage s) (stateObjects s) (stateObjectsPending s) (stateObjectsDirty s)
    (dbErr s) (refund s) (thash s) (bhash s) (txIndex s) (logs s) (logSize s) (sha3_preimages s) j (validRevisions s) (nextRevisionId s).
Definition with_revisions (s : StateDB) (r : list revision) (n : Z) : StateDB :=
  MkStateDB (trie s) (snap s) (snapDestructs s) (snapAccounts s) (snapStorage s) (stateObjects s) (stateObjectsPending s) (stateObjectsDirty s)
    (dbErr s) (refund s) (thash s) (bhash s) (txIndex s) (logs s) (logSize s) (sha3_preimages s) (jrnl s) r n.
Definition with_tx (s : StateDB) (th bh : hash_t) (ti : Z) : StateDB :=
  MkStateDB (trie s) (snap s) (snapDestructs s) (snapAccounts s) (snapStorage s) (stateObjects s) (stateObjectsPending s) (stateObjectsDirty s)
    (dbErr s) (refund s) th bh ti (logs s) (logSize s) (sha3_preimages s) (jrnl s) (validRevisions s) (nextRevisionId s).

(** ** The journal *)

Definition newJournal : journal := MkJournal [] ∅.

Definition dirtied (e : journalEntry) : option addr_t :=
  match e with
  | createObjectChange a | suicideChange a _ _ | balanceChange a _ | nonceChange a _ | storageChange a _ _
  | codeChange a _ _ | touchChange a => Some a
  | resetObjectChange _ _ | refundChange _ | addLogChange _ | addPreimageChange _ => None
  end.

Definition mark (d : gmap addr_t Z) (a : addr_t) : gmap addr_t Z := <[a := default 0 (d !! a) + 1]> d.

Definition journal_append (j : journal) (e : journalEntry) : journal :=
  MkJournal (entries j ++ [e]) (match dirtied e with Some a => mark (dirties j) a | None => dirties j end).

Definition journal_dirty (j : journal) (a : addr_t) : journal := MkJournal (entries j) (mark (dirties j) a).

Definition append_entry (s : StateDB) (e : journalEntry) : StateDB := with_journal s (journal_append (jrnl s) e).
End state.
Arguments stateObject : clear implicits.
Arguments journalEntry : clear implicits.
Arguments journal : clear implicits.
Arguments StateDB : clear implicits.

(** ** State objects *)

Section objects.
Context {K : Keccak} {T : Type} {TO : TrieOps T} {SD : StateDatabase T}.
Implicit Types (o : stateObject T) (s : StateDB T).

(** [stateObject.empty] *)
Definition obj_empty o : bool :=
  (Nonce (data o) =? 0) && (Balance (data o) =? 0) && bool_decide (CodeHash (data o) = emptyCodeHash).

(** [newObject]; [nilCode] tells whether the code hash is nil. *)
Definition newObject (addr : addr_t) (d : Account) (nilCode : bool) : stateObject T :=
  let d := MkAccount (Nonce d) (Balance d)
             (if decide (Root d = zero_hash) then emptyRoot else Root d)
             (if nilCode then emptyCodeHash else CodeHash d) in
  MkObject addr d None None None ∅ ∅ ∅ None false false false.

(** [stateObject.getTrie]: opened on first use; an empty trie stands in for
    one that cannot be opened. *)
Definition getTrie o : go (T * stateObject T) :=
  match obj_trie o with
  | Some t => Ok (t, o)
  | None =>
      match OpenStorageTrie (addrHash o) (Root (data o)) with
      | Ok t => Ok (t, set_trie o (Some t))
      | _ =>
          match OpenStorageTrie (addrHash o) zero_hash with
          | Ok t => Ok (t, setError (set_trie o (Some t)) ErrStorageTrie)
          | _ => Panic
          end
      end
  end.

(** The value of an encoded storage slot. *)
Definition decode_slot (enc : list Z) : hash_t * bool :=
  if 0 <? zlen enc then
    match Split enc with
    | Ok (_, content, _) => (BytesToHash content, true)
    | _ => (zero_hash, false)
    end
  else (zero_hash, true).

(** A slot is read from the caches, from the snapshot unless the account was
    destructed in this block, or from the storage trie. *)
Definition GetCommittedState s o (key : hash_t) : go (hash_t * stateObject T) :=
  match fakeStorage o with
  | Some f => Ok (default zero_hash (f !! key), o)
  | None =>
      match pendingStorage o !! key with
      | Some v => Ok (v, o)
      | None =>
          match originStorage o !! key with
          | Some v => Ok (v, o)
          | None =>
              let finish enc o :=
                let '(v, ok) := decode_slot enc in
                let o := if (ok : bool) then o else setError o ErrSplit in
                Ok (v, set_storage o (<[key := v]> (originStorage o)) (pendingStorage o) (dirtyStorage o)) in
              let from_trie :=
                '(t, o) ← getTrie o;
                match t_TryGet t key with
                | (Ok enc, t) => finish enc (set_trie o (Some t))
                | (Err _, t) => Ok (zero_hash, setError (set_trie o (Some t)) ErrTrie)
                | (Panic, _) => Panic
                end in
              match snap s with
              | None => from_trie
              | Some sn =>
                  if decide (addrHash o ∈ snapDestructs s) then Ok (zero_hash, o)
                  else
                    match snap_Storage sn (addrHash o) (keccak256 key) with
                    | Some enc => finish enc o
                    | None => from_trie
                    end
              end
          end
      end
  end.

Definition obj_GetState s o (key : hash_t) : go (hash_t * stateObject T) :=
  match fakeStorage o with
  | Some f => Ok (default zero_hash (f !! key), o)
  | None =>
      match dirtyStorage o !! key with
      | Some v => Ok (v, o)
      | None => GetCommittedState s o key
      end
  end.

(** The setters without journal. *)
Definition setState o (key value : hash_t) : stateObject T :=
  set_storage o (originStorage o) (pendingStorage o) (<[key := value]> (dirtyStorage o)).
Definition setBalance o (amount : Z) : stateObject T :=
  set_data o (MkAccount (Nonce (data o)) amount (Root (data o)) (CodeHash (data o))).
Definition setNonce o (nonce : Z) : stateObject T :=
  set_data o (MkAccount nonce (Balance (data o)) (Root (data o)) (CodeHash (data o))).
Definition setCode o (codeHash : hash_t) (c : option (list Z)) : stateObject T :=
  set_data (set_code o c true) (MkAccount (Nonce (data o)) (Balance (data o)) (Root (data o)) codeHash).

(** The object methods work on an object of the state; they return the object
    for the caller to write back. *)
Definition obj_SetState s o (key value : hash_t) : go (StateDB T * stateObject T) :=
  match fakeStorage o with
  | Some f => Ok (s, set_fake o (Some (<[key := value]> f)))
  | None =>
      '(prev, o) ← obj_GetState s o key;
      if decide (prev = value) then Ok (s, o)
      else Ok (append_entry s (storageChange (address o) key prev), setState o key value)
  end.

Definition obj_SetStorage o (storage : Storage) : stateObject T :=
  set_fake o (Some (storage ∪ default ∅ (fakeStorage o))).

Definition obj_SetBalance s o (amount : Z) : StateDB T * stateObject T :=
  (append_entry s (balanceChange (address o) (Balance (data o))), setBalance o amount).

Definition touch s o : StateDB T :=
  let s := append_entry s (touchChange (address o)) in
  if decide (address o = ripemd) then with_journal s (journal_dirty (jrnl s) (address o)) else s.

Definition obj_AddBalance s o (amount : Z) : StateDB T * stateObject T :=
  if amount =? 0 then (if obj_empty o then touch s o else s, o)
  else obj_SetBalance s o (Balance (data o) + amount).

Definition obj_SubBalance s o (amount : Z) : StateDB T * stateObject T :=
  if amount =? 0 then (s, o) else obj_SetBalance s o (Balance (data o) - amount).

Definition obj_SetNonce s o (nonce : Z) : StateDB T * stateObject T :=
  (append_entry s (nonceChange (address o) (Nonce (data o))), setNonce o nonce).

(** [stateObject.Code] *)
Definition obj_Code o : option (list Z) * stateObject T :=
  match code o with
  | Some c => (Some c, o)
  | None =>
      if decide (CodeHash (data o) = emptyCodeHash) then (None, o)
      else
        match ContractCode (addrHash o) (BytesToHash (CodeHash (data o))) with
        | Some c => (Some c, set_code o (Some c) (dirtyCode o))
        | None => (None, set_code (setError o ErrCode) None (dirtyCode o))
        end
  end.

(** [stateObject.CodeSize] *)
Definition obj_CodeSize o : Z * stateObject T :=
  match code o with
  | Some c => (zlen c, o)
  | None =>
      if decide (CodeHash (data o) = emptyCodeHash) then (0, o)
      else
        match ContractCodeSize (addrHash o) (BytesToHash (CodeHash (data o))) with
        | Some size => (size, o)
        | None => (0, setError o ErrCode)
        end
  end.

Definition obj_SetCode s o (codeHash : hash_t) (c : option (list Z)) : StateDB T * stateObject T :=
  let '(prevcode, o) := obj_Code o in
  (append_entry s (codeChange (address o) prevcode (CodeHash (data o))), setCode o codeHash c).

(** [stateObject.finalise]: dirty slots become pending. *)
Definition obj_finalise o : stateObject T :=
  set_storage o (originStorage o) (dirtyStorage o ∪ pendingStorage o) ∅.
End objects.

(** ** The state *)

Section statedb.
Context {K : Keccak} {T : Type} {TO : TrieOps T} {SD : StateDatabase T} {MO : MapOrder}.
Implicit Types (o : stateObject T) (s : StateDB T).

Definition sdb_setError s (e : state_error) : StateDB T :=
  with_trie s (trie s) (match dbErr s with Some e => Some e | None => Some e end).

Definition setStateObject s o : StateDB T := with_objects s (<[address o := o]> (stateObjects s)).

(** The type that [rlp.DecodeBytes] decodes an account into. *)
Definition account_ty : ty := TStruct [TUint 64; TBigInt; TByteArray 32; TBytes] None.
Definition decode_account (enc : list Z) : option Account :=
  match DecodeBytes (S (length enc)) idle_stream enc account_ty with
  | Some (Ok (IList [IUint n; IBigInt b; IByteArray r; IBytes c])) => Some (MkAccount n b r c)
  | _ => None
  end.

(** An account from the account trie; [None] when it is not there or cannot be
    read, with the error that is remembered. *)
Definition trie_account s (addr : addr_t) : go (option Account * StateDB T) :=
  match t_TryGet (trie s) addr with
  | (Ok enc, t) =>
      let s := with_trie s t (dbErr s) in
      Ok (if zlen enc =? 0 then None else decode_account enc, s)
  | (Err _, t) => Ok (None, sdb_setError (with_trie s t (dbErr s)) ErrTrie)
  | (Panic, _) => Panic
  end.

(** The account from the snapshot; the outer [None] sends the reader to the
    trie. *)
Definition snap_account s (addr : addr_t) : option (option Account) :=
  match snap s with
  | None => None
  | Some sn =>
      match snap_Account sn (keccak256 addr) with
      | None => None
      | Some None => Some None
      | Some (Some acc) =>
          let root := BytesToHash (sa_Root acc) in
          Some (Some (MkAccount (sa_Nonce acc) (sa_Balance acc)
            (if decide (root = zero_hash) then emptyRoot else root)
            (match sa_CodeHash acc with [] => emptyCodeHash | h => h end)))
      end
  end.

Definition getDeletedStateObject s (addr : addr_t) : go (option (stateObject T) * StateDB T) :=
  match stateObjects s !! addr with
  | Some o => Ok (Some o, s)
  | None =>
      '(acc, s) ← match snap_account s addr with Some acc => Ok (acc, s) | None => trie_account s addr end;
      match acc with
      | None => Ok (None, s)
      | Some d => let o := newObject addr d false in Ok (Some o, setStateObject s o)
      end
  end.

Definition getStateObject s (addr : addr_t) : go (option (stateObject T) * StateDB T) :=
  '(o, s) ← getDeletedStateObject s addr;
  match o with
  | Some o => Ok (if deleted o then None else Some o, s)
  | None => Ok (None, s)
  end.

Definition createObject s (addr : addr_t) : go (stateObject T * option (stateObject T) * StateDB T) :=
  '(prev, s) ← getDeletedStateObject s addr;
  let '(prevdestruct, s) :=
    match snap s, prev with
    | Some _, Some p =>
        if decide (addrHash p ∈ snapDestructs s) then (true, s)
        else (false, with_destructs s ({[ addrHash p ]} ∪ snapDestructs s))
    | _, _ => (false, s)
    end in
  let newobj := setNonce (newObject addr (MkAccount 0 0 zero_hash []) true) 0 in
  let s := append_entry s (match prev with
                           | None => createObjectChange addr
                           | Some p => resetObjectChange p prevdestruct
                           end) in
  let s := setStateObject s newobj in
  Ok (newobj, match prev with Some p => if deleted p then None else Some p | None => None end, s).

Definition GetOrNewStateObject s (addr : addr_t) : go (stateObject T * StateDB T) :=
  '(o, s) ← getStateObject s addr;
  match o with
  | Some o => Ok (o, s)
  | None => '(o, _, s) ← createObject s addr; Ok (o, s)
  end.

Definition CreateAccount s (addr : addr_t) : go (StateDB T) :=
  '(newObj, prev, s) ← createObject s addr;
  Ok (match prev with Some p => setStateObject s (setBalance newObj (Balance (data p))) | None => s end).

(** *** Reads *)

Definition read {A} s (addr : addr_t) (none : A) (f : StateDB T -> stateObject T -> go (A * stateObject T)) : go (A * StateDB T) :=
  '(o, s) ← getStateObject s addr;
  match o with
  | None => Ok (none, s)
  | Some o => '(r, o) ← f s o; Ok (r, setStateObject s o)
  end.

Definition Exist s addr := read s addr false (fun s o => Ok (true, o)).
Definition Empty s addr := read s addr true (fun s o => Ok (obj_empty o, o)).
Definition GetBalance s addr := read s addr 0 (fun s o => Ok (Balance (data o), o)).
Definition GetNonce s addr := read s addr 0 (fun s o => Ok (Nonce (data o), o)).
Definition GetCode s addr := read s addr None (fun s o => Ok (obj_Code o)).
Definition GetCodeSize s addr := read s addr 0 (fun s o => Ok (obj_CodeSize o)).
Definition GetCodeHash s addr := read s addr zero_hash (fun s o => Ok (BytesToHash (CodeHash (data o)), o)).
Definition GetState s addr key := read s addr zero_hash (fun s o => obj_GetState s o key).
Definition sdb_GetCommittedState s addr key := read s addr zero_hash (fun s o => GetCommittedState s o key).
Definition HasSuicided s addr := read s addr false (fun s o => Ok (suicided o, o)).
Definition GetRefund s : Z := refund s.

(** *** Changes *)

Definition change s (addr : addr_t) (f : StateDB T -> stateObject T -> go (StateDB T * stateObject T)) : go (StateDB T) :=
  '(o, s) ← GetOrNewStateObject s addr;
  '(s, o) ← f s o;
  Ok (setStateObject s o).

Definition AddBalance s addr amount := change s addr (fun s o => Ok (obj_AddBalance s o amount)).
Definition SubBalance s addr amount := change s addr (fun s o => Ok (obj_SubBalance s o amount)).
Definition SetBalance s addr amount := change s addr (fun s o => Ok (obj_SetBalance s o amount)).
Definition SetNonce s addr nonce := change s addr (fun s o => Ok (obj_SetNonce s o nonce)).
(** The code is a slice, nil or not. *)
Definition SetCode s addr (c : option (list Z)) := change s addr (fun s o => Ok (obj_SetCode s o (keccak256 (default [] c)) c)).
Definition SetState s addr key value := change s addr (fun s o => obj_SetState s o key value).
Definition SetStorage s addr storage := change s addr (fun s o => Ok (s, obj_SetStorage o storage)).

Definition Suicide s (addr : addr_t) : go (bool * StateDB T) :=
  '(o, s) ← getStateObject s addr;
  match o with
  | None => Ok (false, s)
  | Some o =>
      let s := append_entry s (suicideChange addr (suicided o) (Balance (data o))) in
      Ok (true, setStateObject s (setBalance (set_marks o true (deleted o)) 0))
  end.

Definition AddLog s (body : LogBody) : StateDB T :=
  let s := append_entry s (addLogChange (thash s)) in
  let l := MkLog body (thash s) (bhash s) (txIndex s) (logSize s) in
  with_logs s (<[thash s := default [] (logs s !! thash s) ++ [l]]> (logs s)) (u64 (logSize s + 1)).

Definition AddPreimage s (hash : hash_t) (preimage : list Z) : StateDB T :=
  match sha3_preimages s !! hash with
  | Some _ => s
  | None => let s := append_entry s (addPreimageChange hash) in with_preimages s (<[hash := preimage]> (sha3_preimages s))
  end.

Definition AddRefund s (gas : Z) : StateDB T :=
  let s := append_entry s (refundChange (refund s)) in with_refund s (u64 (refund s + gas)).

Definition SubRefund s (gas : Z) : go (StateDB T) :=
  let s := append_entry s (refundChange (refund s)) in
  if gas >? refund s then Panic else Ok (with_refund s (refund s - gas)).

Definition Prepare s (th bh : hash_t) (ti : Z) : StateDB T := with_tx s th bh ti.

(** *** Snapshots *)

(** [journalEntry.revert]: undoing a change dereferences the account. *)
Definition on_object s (addr : addr_t) (f : stateObject T -> stateObject T) : go (StateDB T) :=
  '(o, s) ← getStateObject s addr;
  match o with Some o => Ok (setStateObject s (f o)) | None => Panic end.

Definition entry_revert (e : journalEntry T) s : go (StateDB T) :=
  match e with
  | createObjectChange a =>
      Ok (with_marks (with_objects s (base.delete a (stateObjects s))) (stateObjectsPending s) (stateObjectsDirty s ∖ {[ a ]}))
  | resetObjectChange prev prevdestruct =>
      let s := setStateObject s prev in
      Ok (if negb prevdestruct && bool_decide (is_Some (snap s)) then with_destructs s (snapDestructs s ∖ {[ addrHash prev ]}) else s)
  | suicideChange a prev prevbalance =>
      '(o, s) ← getStateObject s a;
      match o with
      | Some o => Ok (setStateObject s (setBalance (set_marks o prev (deleted o)) prevbalance))
      | None => Ok s
      end
  | balanceChange a prev => on_object s a (fun o => setBalance o prev)
  | nonceChange a prev => on_object s a (fun o => setNonce o prev)
  | storageChange a key prevalue => on_object s a (fun o => setState o key prevalue)
  | codeChange a prevcode prevhash => on_object s a (fun o => setCode o (BytesToHash prevhash) prevcode)
  | refundChange prev => Ok (with_refund s prev)
  | addLogChange th =>
      let l := default [] (logs s !! th) in
      if zlen l =? 1 then Ok (with_logs s (base.delete th (logs s)) (u64 (logSize s - 1)))
      else if zlen l =? 0 then Panic
      else Ok (with_logs s (<[th := take (length l - 1) l]> (logs s)) (u64 (logSize s - 1)))
  | addPreimageChange h => Ok (with_preimages s (base.delete h (sha3_preimages s)))
  | touchChange _ => Ok s
  end.

Definition unmark (d : gmap addr_t Z) (a : addr_t) : gmap addr_t Z :=
  let n := default 0 (d !! a) - 1 in if n =? 0 then base.delete a d else <[a := n]> d.

(** The loop of [journal.revert], on the entries from the last one on. *)
Fixpoint revert_entries (es : list (journalEntry T)) s : go (StateDB T) :=
  match es with
  | [] => Ok s
  | e :: es =>
      s ← entry_revert e s;
      let s := match dirtied e with
               | Some a => with_journal s (MkJournal (entries (jrnl s)) (unmark (dirties (jrnl s)) a))
               | None => s
               end in
      revert_entries es s
  end.

Definition journal_revert s (snapshot : Z) : go (StateDB T) :=
  let es := entries (jrnl s) in
  if (0 <=? snapshot) && (snapshot <=? zlen es) then
    s ← revert_entries (reverse (drop (Z.to_nat snapshot) es)) s;
    Ok (with_journal s (MkJournal (take (Z.to_nat snapshot) es) (dirties (jrnl s))))
  else Panic.

Definition take_snapshot s : Z * StateDB T :=
  let id := nextRevisionId s in
  (id, with_revisions s (validRevisions s ++ [MkRevision id (zlen (entries (jrnl s)))]) (id + 1)).

(** [sort.Search]: the binary search of the standard library. *)
Fixpoint sort_Search (fuel : nat) (f : Z -> bool) (i j : Z) : Z :=
  match fuel with
  | O => i
  | S fuel =>
      if i <? j then
        let h := (i + j) / 2 in
        if negb (f h) then sort_Search fuel f (h + 1) j else sort_Search fuel f i h
      else i
  end.

Definition RevertToSnapshot s (revid : Z) : go (StateDB T) :=
  let revs := validRevisions s in
  let id_at i := match revs !! Z.to_nat i with Some r => rev_id r | None => 0 end in
  let idx := sort_Search (S (length revs)) (fun i => id_at i >=? revid) 0 (zlen revs) in
  match revs !! Z.to_nat idx with
  | Some r =>
      if rev_id r =? revid then
        s ← journal_revert s (journalIndex r);
        Ok (with_revisions s (take (Z.to_nat idx) revs) (nextRevisionId s))
      else Panic
  | None => Panic
  end.

(** *** The end of a transaction *)

Definition clearJournalAndRefund s : StateDB T :=
  let s := match entries (jrnl s) with [] => s | _ => with_refund (with_journal s newJournal) 0 end in
  with_revisions s [] (nextRevisionId s).

Definition finalise_account (deleteEmptyObjects : bool) s (addr : addr_t) : StateDB T :=
  match stateObjects s !! addr with
  | None => s
  | Some o =>
      let s :=
        if suicided o || (deleteEmptyObjects && obj_empty o) then
          let s := setStateObject s (set_marks o (suicided o) true) in
          match snap s with
          | Some _ =>
              with_snap_data (with_destructs s ({[ addrHash o ]} ∪ snapDestructs s))
                (base.delete (addrHash o) (snapAccounts s)) (base.delete (addrHash o) (snapStorage s))
          | None => s
          end
        else setStateObject s (obj_finalise o) in
      with_marks s ({[ addr ]} ∪ stateObjectsPending s) ({[ addr ]} ∪ stateObjectsDirty s)
  end.

Definition Finalise s (deleteEmptyObjects : bool) : StateDB T :=
  clearJournalAndRefund (foldl (finalise_account deleteEmptyObjects) s (map_order (dirties (jrnl s)))).
End statedb.
