(* ===== verification/StateRevert.v ===== *)
(** * Snapshots of the state (src/core/state)

    Whatever is done to the state after a snapshot, [RevertToSnapshot] brings
    back what it held: accounts, code, storage, logs, refund and preimages,
    through any nesting of snapshots and reverts.  Two states are compared by
    what they return, since reads fill caches and a reverted slot stays in the
    cache of dirty slots. *)
From stdpp Require Import prelude list gmap.
From Stdlib Require Import ZArith Lia.
From S2P Require Import Prelude RlpEncode RlpRaw RlpStream TrieEncoding Trie TrieNode TrieHash StateDB.

(** What the state relies on in its tries: a read does not change what the
    trie returns, the empty trie can be opened, and code is a slice. *)
Class TrieReads (T : Type) {TO : TrieOps T} {SD : StateDatabase T} : Prop := {
  get_stable (t : T) k k' : (t_TryGet (t_TryGet t k).2 k').1 = (t_TryGet t k').1;
  get_total (t : T) k : (t_TryGet t k).1 <> Panic;
  open_empty h : exists t, OpenStorageTrie h zero_hash = Ok t;
  code_slice h h' c : ContractCode h h' = Some c -> is_slice c;
}.

(** The addresses in use: those of the accounts that exist and that a run
    touches.  Nothing is assumed of the hashes of other addresses. *)
Class Addresses := in_use : addr_t -> Prop.

Section views.
Context {K : Keccak} {T : Type} {TO : TrieOps T} {SD : StateDatabase T} {TR : TrieReads T} {IU : Addresses}.
Implicit Types (o : stateObject T) (s : StateDB T).

(** ** What a state returns *)

(** The trie that an object reads, opened or not. *)
Definition storage_trie o : option T :=
  match obj_trie o with
  | Some t => Some t
  | None =>
      match OpenStorageTrie (addrHash o) (Root (data o)) with
      | Ok t => Some t
      | _ => match OpenStorageTrie (addrHash o) zero_hash with Ok t => Some t | _ => None end
      end
  end.

Definition slot_of (enc : tr (list Z)) : hash_t := match enc with Ok e => (decode_slot e).1 | _ => zero_hash end.

Definition trie_slot o (key : hash_t) : hash_t :=
  match storage_trie o with Some t => slot_of (t_TryGet t key).1 | None => zero_hash end.

Definition stored_slot s o (key : hash_t) : hash_t :=
  match snap s with
  | None => trie_slot o key
  | Some sn =>
      if decide (addrHash o ∈ snapDestructs s) then zero_hash
      else match snap_Storage sn (addrHash o) (keccak256 key) with
           | Some enc => (decode_slot enc).1
           | None => trie_slot o key
           end
  end.

Definition committed s o (key : hash_t) : hash_t :=
  match pendingStorage o !! key with
  | Some v => v
  | None => match originStorage o !! key with Some v => v | None => stored_slot s o key end
  end.

Definition current s o (key : hash_t) : hash_t :=
  match dirtyStorage o !! key with Some v => v | None => committed s o key end.

Definition account_of s (addr : addr_t) : option Account :=
  match snap_account s addr with
  | Some acc => acc
  | None =>
      match (t_TryGet (trie s) addr).1 with
      | Ok enc => if zlen enc =? 0 then None else decode_account enc
      | _ => None
      end
  end.

(** The object at an address, live or not yet loaded. *)
Definition peek s (addr : addr_t) : option (stateObject T) :=
  match stateObjects s !! addr with
  | Some o => Some o
  | None => (fun d => newObject addr d false) <$> account_of s addr
  end.

(** Objects with the same account, code and storage. *)
Record obj_eqv s s' o o' : Prop := {
  e_addr : address o = address o';
  e_data : data o = data o';
  e_code : (obj_Code o).1 = (obj_Code o').1;
  e_committed k : committed s o k = committed s' o' k;
  e_current k : current s o k = current s' o' k;
  e_suicided : suicided o = suicided o';
  e_deleted : deleted o = deleted o';
}.

(** States that differ at most in the live objects, in what reads change and
    in the journal. *)
Record same_rest s s' : Prop := {
  r_trie k : (t_TryGet (trie s) k).1 = (t_TryGet (trie s') k).1;
  r_snap : snap s = snap s';
  r_destructs : snapDestructs s = snapDestructs s';
  r_snapAccounts : snapAccounts s = snapAccounts s';
  r_snapStorage : snapStorage s = snapStorage s';
  r_pending : stateObjectsPending s = stateObjectsPending s';
  r_dirty : stateObjectsDirty s = stateObjectsDirty s';
  r_refund : refund s = refund s';
  r_thash : thash s = thash s';
  r_bhash : bhash s = bhash s';
  r_txIndex : txIndex s = txIndex s';
  r_logs : logs s = logs s';
  r_logSize : logSize s = logSize s';
  r_preimages : sha3_preimages s = sha3_preimages s';
}.

(** States that return the same. *)
Definition same_objects s s' : Prop := forall a, in_use a -> option_Forall2 (obj_eqv s s') (peek s a) (peek s' a).
Definition eqv s s' : Prop := same_rest s s' /\ same_objects s s'.

(** Objects that exist as Go values: code hashes have 32 bytes, code is a
    slice, and no fake storage is installed.  With a snapshot, which is keyed by
    the hashes of addresses, those of the addresses in use are distinct. *)
Definition code_ok o : Prop := forall c, code o = Some c -> is_slice c.
Definition obj_ok (a : addr_t) o : Prop :=
  in_use a /\ address o = a /\ zlen (CodeHash (data o)) = 32 /\ fakeStorage o = None /\ code_ok o.

Record wf s : Prop := {
  w_objects a o : stateObjects s !! a = Some o -> obj_ok a o;
  w_accounts a d : account_of s a = Some d -> zlen (CodeHash d) = 32;
  w_dirty a : a ∈ stateObjectsDirty s -> is_Some (stateObjects s !! a);
  w_logs h : logs s !! h <> Some [];
  w_logSize : 0 <= logSize s < 2 ^ 64;
  w_apart : snap s <> None -> forall a b, in_use a -> in_use b -> keccak256 a = keccak256 b -> a = b;
}.

Definition R s s' : Prop := wf s /\ wf s' /\ eqv s s'.

Lemma obj_eqv_refl s o : obj_eqv s s o o.
Proof. by split. Qed.
Lemma obj_eqv_trans s s' s'' o o' o'' : obj_eqv s s' o o' -> obj_eqv s' s'' o' o'' -> obj_eqv s s'' o o''.
Proof. intros [] []. split; intros; congruence. Qed.
Lemma obj_eqv_sym s s' o o' : obj_eqv s s' o o' -> obj_eqv s' s o' o.
Proof. intros []. by split. Qed.

Lemma same_rest_refl s : same_rest s s.
Proof. by split. Qed.
Lemma same_rest_trans s s' s'' : same_rest s s' -> same_rest s' s'' -> same_rest s s''.
Proof. intros [] []. split; intros; etransitivity; eauto. Qed.
Lemma same_rest_sym s s' : same_rest s s' -> same_rest s' s.
Proof. intros []. by split. Qed.

Lemma eqv_refl s : eqv s s.
Proof. split; [apply same_rest_refl|]. intros a _. destruct (peek s a); constructor. apply obj_eqv_refl. Qed.

Lemma eqv_trans s s' s'' : eqv s s' -> eqv s' s'' -> eqv s s''.
Proof.
  intros [Hr Ho] [Hr' Ho']. split; [by eapply same_rest_trans|]. intros a Ha. specialize (Ho a Ha). specialize (Ho' a Ha).
  inversion Ho as [o o' Hoo E1 E2|E1 E2]; rewrite <- E2 in Ho'; inversion Ho' as [? o'' Hoo'|]; subst; constructor.
  by eapply obj_eqv_trans.
Qed.

Lemma eqv_sym s s' : eqv s s' -> eqv s' s.
Proof.
  intros [Hr Ho]. split; [by apply same_rest_sym|]. intros a Ha. destruct (Ho a Ha); constructor. by apply obj_eqv_sym.
Qed.

Lemma R_refl s : wf s -> R s s.
Proof. intros Hw. split_and!; [done..|apply eqv_refl]. Qed.
Lemma R_trans s s' s'' : R s s' -> R s' s'' -> R s s''.
Proof. intros (? & ? & ?) (? & ? & ?). split_and!; [done..|by eapply eqv_trans]. Qed.
Lemma R_sym s s' : R s s' -> R s' s.
Proof. intros (? & ? & ?). split_and!; [done..|by apply eqv_sym]. Qed.

(** ** Loading an account *)

Lemma account_of_eqv s s' a :
  (forall k, (t_TryGet (trie s) k).1 = (t_TryGet (trie s') k).1) -> snap s = snap s' -> account_of s a = account_of s' a.
Proof. intros Ht Hs. unfold account_of, snap_account. by rewrite Hs, Ht. Qed.

Lemma stored_slot_eqv s s' o k :
  snap s = snap s' -> snapDestructs s = snapDestructs s' -> stored_slot s o k = stored_slot s' o k.
Proof. intros Hs Hd. unfold stored_slot. by rewrite Hs, Hd. Qed.

Lemma obj_eqv_states s s' o :
  snap s = snap s' -> snapDestructs s = snapDestructs s' -> obj_eqv s s' o o.
Proof.
  intros Hs Hd. split; try done; intros k; unfold current, committed; by rewrite (stored_slot_eqv s s').
Qed.

Lemma same_rest_obj s s' o : same_rest s s' -> obj_eqv s s' o o.
Proof. intros []. by apply obj_eqv_states. Qed.
Lemma same_rest_account s s' a : same_rest s s' -> account_of s a = account_of s' a.
Proof. intros []. by apply account_of_eqv. Qed.

(** Replacing the live objects: what has to be known of every address. *)
Lemma R_objects s s' :
  wf s -> same_rest s s' ->
  (forall a, in_use a -> option_Forall2 (fun o o' => obj_eqv s s' o o' /\ obj_ok a o') (peek s a) (peek s' a)) ->
  (forall a, is_Some (stateObjects s' !! a) -> in_use a) ->
  (forall a, is_Some (stateObjects s !! a) -> is_Some (stateObjects s' !! a)) -> R s s'.
Proof.
  intros Hw Hr Ho Hl Hd. split; [done|]. split; [|split; [done|]].
  - destruct Hw as [W1 W2 W3 W4 W5 W6]. split.
    + intros a o' Ho'. specialize (Ho a (Hl a ltac:(eauto))). unfold peek at 2 in Ho. rewrite Ho' in Ho. inversion Ho as [? ? [_ ?]|]; subst. done.
    + intros a d. rewrite <- (same_rest_account s s') by done. apply W2.
    + intros a. rewrite <- (r_dirty _ _ Hr). intros Ha. apply Hd. by apply W3.
    + intros h. rewrite <- (r_logs _ _ Hr). apply W4.
    + rewrite <- (r_logSize _ _ Hr). done.
    + rewrite <- (r_snap _ _ Hr). done.
  - intros a Ha. specialize (Ho a Ha). inversion Ho as [? ? [? _]|]; by constructor.
Qed.

Lemma peek_ok s a o : wf s -> in_use a -> peek s a = Some o -> obj_ok a o.
Proof.
  intros Hw Ha. unfold peek. destruct (stateObjects s !! a) as [o'|] eqn:E; [intros [= <-]; by apply Hw|].
  destruct (account_of s a) as [d|] eqn:Ed; [|done]. intros [= <-]. split_and!; try done. simpl. by eapply w_accounts.
Qed.

(** One object is replaced, or becomes live. *)
Lemma R_set s s' a o o' :
  wf s -> same_rest s s' -> peek s a = Some o -> stateObjects s' = <[a := o']> (stateObjects s) ->
  obj_eqv s s' o o' -> obj_ok a o' -> R s s'.
Proof.
  intros Hw Hr Hp Hs' He Hok. apply R_objects; try done.
  - intros b Hb20. destruct (decide (b = a)) as [->|Hne].
    + unfold peek at 2. rewrite Hp, Hs', lookup_insert_eq. by constructor.
    + assert (Hpb : peek s' b = peek s b)
        by (unfold peek; by rewrite Hs', lookup_insert_ne, (same_rest_account s s')).
      rewrite Hpb. destruct (peek s b) as [x|] eqn:Hx; constructor. split; [by apply same_rest_obj|by eapply peek_ok].
  - intros b. rewrite Hs', lookup_insert_is_Some'. intros [<-|[x Hx]]; [apply Hok|by apply (w_objects _ Hw b x)].
  - intros b Hb. rewrite Hs', lookup_insert_is_Some'. by right.
Qed.

(** Nothing but caches and the journal has changed. *)
Lemma R_rest s s' : wf s -> same_rest s s' -> stateObjects s' = stateObjects s -> R s s'.
Proof.
  intros Hw Hr Hs'. apply R_objects; [done..| |rewrite Hs'; intros b [x Hx]; by apply (w_objects _ Hw b x)|by rewrite Hs'].
  intros b Hb20. assert (Hpb : peek s' b = peek s b) by (unfold peek; by rewrite Hs', (same_rest_account s s')).
  rewrite Hpb. destruct (peek s b) as [x|] eqn:Hx; constructor. split; [by apply same_rest_obj|by eapply peek_ok].
Qed.

(** The journal and the revisions of a state. *)
Definition same_log s s' : Prop :=
  jrnl s' = jrnl s /\ validRevisions s' = validRevisions s /\ nextRevisionId s' = nextRevisionId s.

Lemma trie_account_spec s a :
  wf s -> snap_account s a = None ->
  exists s', trie_account s a = Ok (account_of s a, s') /\ same_rest s s' /\ stateObjects s' = stateObjects s /\ same_log s s'.
Proof.
  intros Hw Hs. unfold trie_account, account_of. rewrite Hs. pose proof (get_stable (trie s) a) as Hst.
  pose proof (get_total (trie s) a) as Htot. destruct (t_TryGet (trie s) a) as [[enc|e|] t]; simpl in *; [| |done];
    (eexists; split; [reflexivity|]); (split; [by split|done]).
Qed.

Lemma load_spec s a :
  wf s -> in_use a -> exists s', getDeletedStateObject s a = Ok (peek s a, s') /\ R s s' /\ same_log s s' /\ same_rest s s' /\
    stateObjects s' !! a = peek s a.
Proof.
  intros Hw Ha. unfold getDeletedStateObject. destruct (stateObjects s !! a) as [o|] eqn:Ho.
  { exists s. unfold peek. rewrite Ho. split_and!; try done; by apply R_refl. }
  assert (Hacc : exists s1, (match snap_account s a with Some acc => Ok (acc, s) | None => trie_account s a end : go _)
            = Ok (account_of s a, s1) /\ same_rest s s1 /\ stateObjects s1 = stateObjects s /\ same_log s s1).
  { unfold account_of. destruct (snap_account s a) as [acc|] eqn:Hsn.
    - exists s. by split_and!.
    - destruct (trie_account_spec s a Hw Hsn) as (s1 & Hrun & ?). exists s1. unfold account_of in Hrun. by rewrite Hsn in Hrun. }
  destruct Hacc as (s1 & -> & Hr & Hobj & Hlog). bind_simpl.
  assert (Hp : peek s a = (fun d => newObject a d false) <$> account_of s a) by (unfold peek; by rewrite Ho).
  rewrite Hp. destruct (account_of s a) as [d|] eqn:Hd; simpl.
  - eexists. split; [reflexivity|]. assert (Hrs : same_rest s (setStateObject s1 (newObject a d false))) by (destruct Hr; by split).
    split_and!; try done; [|by simpl; rewrite lookup_insert_eq].
    apply (R_set s _ a (newObject a d false) (newObject a d false)); try done; [by simpl; rewrite Hobj|by apply same_rest_obj|].
    eapply peek_ok; [done..|]. by rewrite Hp.
  - exists s1. split_and!; try done; [by apply R_rest|]. by rewrite Hobj, Ho.
Qed.

Definition live (r : option (stateObject T)) : option (stateObject T) :=
  match r with Some o => if deleted o then None else Some o | None => None end.

Lemma get_spec s a :
  wf s -> in_use a -> exists s', getStateObject s a = Ok (live (peek s a), s') /\ R s s' /\ same_log s s' /\ same_rest s s' /\
    stateObjects s' !! a = peek s a.
Proof.
  intros Hw Ha. unfold getStateObject. destruct (load_spec s a Hw Ha) as (s' & -> & ?). bind_simpl. exists s'. split; [|done].
  by destruct (peek s a).
Qed.

(** ** Reading storage and code *)

(** An object of which only caches have changed. *)
Lemma cache_eqv s o o' :
  address o' = address o -> data o' = data o -> code o' = code o -> pendingStorage o' = pendingStorage o ->
  dirtyStorage o' = dirtyStorage o -> suicided o' = suicided o -> deleted o' = deleted o ->
  (forall k, trie_slot o' k = trie_slot o k) ->
  (forall k, originStorage o' !! k = originStorage o !! k \/
             originStorage o !! k = None /\ originStorage o' !! k = Some (stored_slot s o k)) ->
  obj_eqv s s o o'.
Proof.
  intros Ha Hd Hc Hp Hdi Hs Hde Ht Ho.
  assert (Hst : forall k, stored_slot s o' k = stored_slot s o k) by (intros k; unfold stored_slot, addrHash; by rewrite Ha, Ht).
  assert (Hcm : forall k, committed s o k = committed s o' k).
  { intros k. unfold committed. rewrite Hp, Hst. destruct (pendingStorage o !! k); [done|].
    destruct (Ho k) as [->|[-> ->]]; done. }
  split; try done.
  - unfold obj_Code, addrHash. rewrite Hc, Hd, Ha. destruct (code o); [done|]. case_decide; [done|]. by destruct (ContractCode _ _).
  - intros k. unfold current. by rewrite Hdi, Hcm.
Qed.

(** What a read may change of an object. *)
Definition reread s o o' : Prop :=
  obj_eqv s s o o' /\ fakeStorage o' = fakeStorage o /\ dirtyStorage o' = dirtyStorage o /\ (code_ok o -> code_ok o').

Lemma getTrie_spec o :
  exists t o', getTrie o = Ok (t, o') /\ storage_trie o = Some t /\ obj_trie o' = Some t /\
    (o' = o \/ o' = set_trie o (Some t) \/ o' = setError (set_trie o (Some t)) ErrStorageTrie).
Proof.
  unfold getTrie, storage_trie. destruct (obj_trie o) as [t|] eqn:Ho; [by exists t, o; eauto|].
  destruct (open_empty (addrHash o)) as [t0 Ht0]. destruct (OpenStorageTrie (addrHash o) (Root (data o))) as [t|e|].
  - eexists t, _. split; [done|]. eauto.
  - rewrite Ht0. eexists t0, _. split; [done|]. eauto 6.
  - rewrite Ht0. eexists t0, _. split; [done|]. eauto 6.
Qed.

Lemma slot_after t key o' k : obj_trie o' = Some (t_TryGet t key).2 -> trie_slot o' k = slot_of (t_TryGet t k).1.
Proof. intros Ht. unfold trie_slot, storage_trie. by rewrite Ht, get_stable. Qed.

Definition cached (enc : list Z) (key : hash_t) o : go (hash_t * stateObject T) :=
  let '(v, ok) := decode_slot enc in
  let o := if (ok : bool) then o else setError o ErrSplit in
  Ok (v, set_storage o (<[key := v]> (originStorage o)) (pendingStorage o) (dirtyStorage o)).

Lemma cached_spec s o o1 enc key :
  pendingStorage o !! key = None -> originStorage o !! key = None -> (decode_slot enc).1 = stored_slot s o key ->
  address o1 = address o -> data o1 = data o -> code o1 = code o -> pendingStorage o1 = pendingStorage o ->
  dirtyStorage o1 = dirtyStorage o -> suicided o1 = suicided o -> deleted o1 = deleted o ->
  originStorage o1 = originStorage o -> fakeStorage o1 = fakeStorage o ->
  (forall k, trie_slot o1 k = trie_slot o k) ->
  exists o', cached enc key o1 = Ok (stored_slot s o key, o') /\ reread s o o'.
Proof.
  intros Hp Ho Hv H1 H2 H3 H4 H5 H6 H7 H8 H9 Ht. unfold cached. destruct (decode_slot enc) as [v ok]. simpl in Hv. subst v.
  eexists. split; [reflexivity|]. split.
  - apply cache_eqv; try (by destruct ok).
    intros k. destruct (decide (k = key)) as [->|Hne].
    + right. split; [done|]. destruct ok; simpl; by rewrite lookup_insert_eq.
    + left. destruct ok; simpl; by rewrite lookup_insert_ne, H8.
  - unfold code_ok. destruct ok; simpl; by rewrite H3.
Qed.

Lemma GetCommittedState_spec s o key :
  fakeStorage o = None ->
  exists o', GetCommittedState s o key = Ok (committed s o key, o') /\ reread s o o'.
Proof.
  intros Hf. unfold GetCommittedState, committed. rewrite Hf.
  assert (Hid : reread s o o) by (split; [apply obj_eqv_refl|done]).
  destruct (pendingStorage o !! key) as [v|] eqn:Hp; [by exists o|].
  destruct (originStorage o !! key) as [v|] eqn:Ho; [by exists o|].
  set (from_trie := ('(t, o) ← getTrie o; _) : go (hash_t * stateObject T)).
  assert (Htrie : stored_slot s o key = trie_slot o key -> exists o', from_trie = Ok (stored_slot s o key, o') /\ reread s o o').
  { intros Hslot. unfold from_trie. destruct (getTrie_spec o) as (t & o1 & -> & Hst & Ht1 & Ho1). bind_simpl.
    pose proof (get_total t key) as Htot.
    assert (Hts : forall k, trie_slot o k = slot_of (t_TryGet t k).1) by (intros k; unfold trie_slot; by rewrite Hst).
    rewrite Hts in Hslot. pose proof (fun k => slot_after t key (set_trie o1 (Some (t_TryGet t key).2)) k eq_refl) as Haft.
    destruct (t_TryGet t key) as [[enc|e|] t'] eqn:Hget; simpl in *; [| |done].
    - apply (cached_spec s o (set_trie o1 (Some t')) enc key); try done; try (by destruct Ho1 as [->|[->| ->]]).
      intros k. by rewrite Haft.
    - rewrite Hslot. eexists. split; [done|]. split.
      + apply cache_eqv; try (by destruct Ho1 as [->|[->| ->]]).
        * intros k. rewrite Hts, <- Haft. by destruct Ho1 as [->|[->| ->]].
        * intros k. left. by destruct Ho1 as [->|[->| ->]].
      + unfold code_ok. by destruct Ho1 as [->|[->| ->]]. }
  assert (Hslot : stored_slot s o key =
    match snap s with
    | None => trie_slot o key
    | Some sn => if decide (addrHash o ∈ snapDestructs s) then zero_hash
                 else match snap_Storage sn (addrHash o) (keccak256 key) with
                      | Some enc => (decode_slot enc).1 | None => trie_slot o key end
    end) by done.
  destruct (snap s) as [sn|]; [|by apply Htrie]. destruct (decide (addrHash o ∈ snapDestructs s)); [rewrite Hslot; by exists o|].
  destruct (snap_Storage sn (addrHash o) (keccak256 key)) as [enc|]; [|by apply Htrie].
  by apply (cached_spec s o o enc key).
Qed.

Lemma obj_GetState_spec s o key :
  fakeStorage o = None -> exists o', obj_GetState s o key = Ok (current s o key, o') /\ reread s o o'.
Proof.
  intros Hf. unfold obj_GetState, current. rewrite Hf. destruct (dirtyStorage o !! key) as [v|]; [|by apply GetCommittedState_spec].
  exists o. split; [done|]. split; [apply obj_eqv_refl|done].
Qed.

Lemma obj_Code_spec s o : exists o', obj_Code o = ((obj_Code o).1, o') /\ reread s o o'.
Proof.
  exists (obj_Code o).2. split; [by destruct (obj_Code o)|]. unfold obj_Code. destruct (code o) as [c|] eqn:Hc.
  { split; [apply obj_eqv_refl|done]. }
  destruct (decide (CodeHash (data o) = emptyCodeHash)); [by split; [apply obj_eqv_refl|]|].
  destruct (ContractCode (addrHash o) (BytesToHash (CodeHash (data o)))) as [c|] eqn:Hcc; simpl.
  - split; [|split_and!; [done..|intros _ ? [= <-]; by eapply code_slice]]. split; try done. unfold obj_Code. simpl. rewrite Hc, decide_False by done. by rewrite Hcc.
  - split; [|done]. split; try done. unfold obj_Code. simpl. rewrite Hc, !decide_False by done.
    change (addrHash (set_code _ _ _)) with (addrHash o). by rewrite !Hcc.
Qed.

Lemma obj_Code_slice o c : code_ok o -> (obj_Code o).1 = Some c -> is_slice c.
Proof.
  unfold obj_Code. intros Hok. destruct (code o) eqn:Hc; [intros [= <-]; by apply Hok|]. case_decide; [done|].
  destruct (ContractCode _ _) eqn:Hcc; [|done]. intros [= <-]. by eapply code_slice.
Qed.

Lemma obj_CodeSize_spec s o : exists n o', obj_CodeSize o = (n, o') /\ reread s o o'.
Proof.
  assert (Hid : reread s o o) by (split; [apply obj_eqv_refl|done]). unfold obj_CodeSize. destruct (code o) eqn:Hc; [by eexists _, _|].
  case_decide; [by eexists _, _|]. destruct (ContractCodeSize _ _); [by eexists _, _|]. eexists _, _. split; [done|]. split; [|done].
  apply cache_eqv; try done. by left.
Qed.

(** ** Undoing changes *)

Lemma reread_set s a o o' :
  wf s -> stateObjects s !! a = Some o -> reread s o o' -> R s (setStateObject s o') /\ same_log s (setStateObject s o').
Proof.
  intros Hw Ho (He & Hf & Hd & Hcode). destruct (w_objects _ Hw a o Ho) as (H20 & Ha & Hl & Hn & Hco). split; [|done].
  assert (Hr : same_rest s (setStateObject s o')) by (by split).
  apply (R_set s _ a o o'); try done.
  - unfold peek. by rewrite Ho.
  - simpl. rewrite <- (e_addr _ _ _ _ He), Ha. done.
  - eapply obj_eqv_trans; [exact He|by apply same_rest_obj].
  - unfold obj_ok. rewrite <- (e_addr _ _ _ _ He), <- (e_data _ _ _ _ He), Hf. by split_and!; auto.
Qed.

Lemma R_same_objects s s' a :
  R s s' -> in_use a -> option_Forall2 (fun o o' => obj_eqv s s' o o' /\ obj_ok a o /\ obj_ok a o') (peek s a) (peek s' a).
Proof.
  intros (Hw & Hw' & Hr & Ho) Ha. specialize (Ho a Ha). inversion Ho as [o o' He E1 E2|]; constructor.
  split; [done|]. split; [by apply (peek_ok s)|by apply (peek_ok s')].
Qed.

(** *** Equivalent states stay so *)

(** How the view of an object depends on the state. *)
Lemma obj_eqv_move s s' t t' o o' :
  obj_eqv s s' o o' -> snap t = snap s -> snap t' = snap s' ->
  (addrHash o ∈ snapDestructs t <-> addrHash o ∈ snapDestructs s) ->
  (addrHash o' ∈ snapDestructs t' <-> addrHash o' ∈ snapDestructs s') -> obj_eqv t t' o o'.
Proof.
  intros [] Hs Hs' Hd Hd'.
  assert (Hst : forall u v (x : stateObject T) k, snap v = snap u -> (addrHash x ∈ snapDestructs v <-> addrHash x ∈ snapDestructs u) ->
            stored_slot v x k = stored_slot u x k).
  { intros u v x k Hsn Hdd. unfold stored_slot. rewrite Hsn. destruct (snap u); [|done].
    destruct (decide (addrHash x ∈ snapDestructs v)), (decide (addrHash x ∈ snapDestructs u)); try done; tauto. }
  split; try done; intros k; specialize (e_committed0 k); specialize (e_current0 k); unfold current, committed in *;
    by rewrite (Hst s t), (Hst s' t').
Qed.

(** Two equivalent states change in the same way: every address is unchanged
    in both, or holds equivalent objects. *)
Lemma R_move s s' t t' :
  R s s' -> wf t -> wf t' -> same_rest t t' -> snap t = snap s ->
  (forall b, in_use b ->
    option_Forall2 (obj_eqv t t') (peek t b) (peek t' b) \/
    peek t b = peek s b /\ peek t' b = peek s' b /\ (keccak256 b ∈ snapDestructs t <-> keccak256 b ∈ snapDestructs s)) ->
  R t t'.
Proof.
  intros (Hw & Hw' & Hr & Ho) Hwt Hwt' Hrt Hsn Hb. split; [done|]. split; [done|]. split; [done|]. intros b Hb20.
  destruct (Hb b Hb20) as [?|(Hp & Hp' & Hd)]; [done|]. rewrite Hp, Hp'.
  pose proof (Ho b Hb20) as Hob. inversion Hob as [o o' He E1 E2|]; constructor.
  destruct (peek_ok s b o Hw Hb20 (eq_sym E1)) as (_ & Ha & _). destruct (peek_ok s' b o' Hw' Hb20 (eq_sym E2)) as (_ & Ha' & _).
  apply (obj_eqv_move s s'); [done|done| |unfold addrHash; by rewrite Ha|unfold addrHash; rewrite Ha'].
  - rewrite <- (r_snap _ _ Hrt), <- (r_snap _ _ Hr). done.
  - rewrite <- (r_destructs _ _ Hrt), <- (r_destructs _ _ Hr). done.
Qed.

Lemma wf_set s t a x :
  wf s -> snap t = snap s -> (forall b, account_of t b = account_of s b) -> (forall b, b ∈ stateObjectsDirty t -> b ∈ stateObjectsDirty s) ->
  logs t = logs s -> logSize t = logSize s -> stateObjects t = <[a := x]> (stateObjects s) -> obj_ok a x -> wf t.
Proof.
  intros [W1 W2 W3 W4 W5 W6] Hs Hacc Hd Hl Hn Ho Hx. split; rewrite ?Ho, ?Hl, ?Hn, ?Hs; try done.
  - intros b o. destruct (decide (b = a)) as [->|Hne]; [rewrite lookup_insert_eq; by intros [= <-]|].
    rewrite lookup_insert_ne by done. apply W1.
  - intros b d. rewrite Hacc. apply W2.
  - intros b Hb. rewrite lookup_insert_is_Some'. right. apply W3. by apply Hd.
Qed.

Lemma wf_setStateObject s a x : wf s -> obj_ok a x -> wf (setStateObject s x).
Proof. intros Hw Hx. eapply (wf_set s _ a x); try done. destruct Hx as (_ & <- & _). done. Qed.

Lemma wf_rest s t : wf s -> same_rest s t -> stateObjects t = stateObjects s -> wf t.
Proof. intros Hw Hr Ho. by destruct (R_rest s t Hw Hr Ho) as (_ & ? & _). Qed.

Lemma peek_setStateObject s x b :
  peek (setStateObject s x) b = if decide (b = address x) then Some x else peek s b.
Proof.
  unfold peek. simpl. case_decide as Hb; [by rewrite Hb, lookup_insert_eq|]. by rewrite lookup_insert_ne.
Qed.

Lemma set_respects s s' a x x' :
  R s s' -> obj_eqv s s' x x' -> obj_ok a x -> obj_ok a x' -> R (setStateObject s x) (setStateObject s' x').
Proof.
  intros HR He Hx Hx'. pose proof HR as (Hw & Hw' & Hr & _). apply (R_move s s'); try done.
  - by eapply wf_setStateObject.
  - by eapply wf_setStateObject.
  - destruct Hr. by split.
  - intros b Hb. rewrite !peek_setStateObject. destruct Hx as (_ & -> & _). destruct Hx' as (_ & -> & _).
    case_decide; [left; constructor; by apply (obj_eqv_move s s')|by right].
Qed.

Lemma get_respects s s' a :
  R s s' -> in_use a ->
  exists r r' s1 s1', getStateObject s a = Ok (r, s1) /\ getStateObject s' a = Ok (r', s1') /\ R s1 s1' /\
    option_Forall2 (fun o o' => obj_eqv s1 s1' o o' /\ obj_ok a o /\ obj_ok a o') r r'.
Proof.
  intros HR Ha. pose proof HR as (Hw & Hw' & _).
  destruct (get_spec s a Hw Ha) as (s1 & Hg & HR1 & _ & Hr1 & _). destruct (get_spec s' a Hw' Ha) as (s1' & Hg' & HR1' & _ & Hr1' & _).
  exists (live (peek s a)), (live (peek s' a)), s1, s1'. split; [done|]. split; [done|]. split.
  { exact (R_trans _ _ _ (R_sym _ _ HR1) (R_trans _ _ _ HR HR1')). }
  pose proof (R_same_objects s s' a HR Ha) as Hs.
  inversion Hs as [o o' (He & Hk & Hk')|]; simpl; [|constructor]. rewrite <- (e_deleted _ _ _ _ He).
  destruct (deleted o); constructor. split; [|done].
  apply (obj_eqv_move s s'); [done|symmetry; apply Hr1|symmetry; apply Hr1'|..];
    by rewrite ?(r_destructs _ _ Hr1), ?(r_destructs _ _ Hr1').
Qed.

(** Undoing a change of one object. *)
Definition tame (a : addr_t) (f : stateObject T -> stateObject T) : Prop :=
  (forall u u' o o', obj_eqv u u' o o' -> obj_eqv u u' (f o) (f o')) /\ (forall o, obj_ok a o -> obj_ok a (f o)).

Lemma on_object_respects s s' a f t :
  R s s' -> in_use a -> tame a f -> on_object s a f = Ok t -> exists t', on_object s' a f = Ok t' /\ R t t'.
Proof.
  intros HR Ha [Hf Hok]. unfold on_object. destruct (get_respects s s' a HR Ha) as (r & r' & s1 & s1' & -> & -> & HR1 & Hrr).
  bind_simpl. destruct Hrr as [o o' (He & Hk & Hk')|]; [|done]. intros [= <-]. eexists. split; [done|].
  apply (set_respects _ _ a); auto.
Qed.

(** What [stateObject.Code] depends on. *)
Lemma obj_Code_fst o o' :
  code o = code o' -> address o = address o' -> CodeHash (data o) = CodeHash (data o') -> (obj_Code o).1 = (obj_Code o').1.
Proof.
  intros Hc Ha Hh. unfold obj_Code, addrHash. rewrite Hc, Ha, Hh. destruct (code o'); [done|].
  case_decide; [done|]. by destruct (ContractCode _ _).
Qed.

Lemma setBalance_eqv s s' o o' v : obj_eqv s s' o o' -> obj_eqv s s' (setBalance o v) (setBalance o' v).
Proof.
  intros []. split; try done; simpl; [by rewrite e_data0|].
  rewrite (obj_Code_fst _ o), (obj_Code_fst (setBalance o' v) o') by done. done.
Qed.
Lemma setNonce_eqv s s' o o' v : obj_eqv s s' o o' -> obj_eqv s s' (setNonce o v) (setNonce o' v).
Proof.
  intros []. split; try done; simpl; [by rewrite e_data0|].
  rewrite (obj_Code_fst _ o), (obj_Code_fst (setNonce o' v) o') by done. done.
Qed.
Lemma set_marks_eqv s s' o o' b : obj_eqv s s' o o' -> obj_eqv s s' (set_marks o b (deleted o)) (set_marks o' b (deleted o')).
Proof.
  intros []. split; try done; simpl. rewrite (obj_Code_fst _ o), (obj_Code_fst (set_marks o' _ _) o') by done. done.
Qed.
Lemma current_setState s o k v k' : current s (setState o k v) k' = if decide (k' = k) then v else current s o k'.
Proof.
  unfold current. simpl. case_decide as Hk; [by rewrite Hk, lookup_insert_eq|]. by rewrite lookup_insert_ne.
Qed.
Lemma setState_eqv s s' o o' k v : obj_eqv s s' o o' -> obj_eqv s s' (setState o k v) (setState o' k v).
Proof.
  intros []. split; try done.
  - rewrite (obj_Code_fst _ o), (obj_Code_fst (setState o' k v) o') by done. done.
  - intros k'. rewrite !current_setState. by case_decide.
Qed.
Lemma setCode_eqv s s' o o' h c : obj_eqv s s' o o' -> obj_eqv s s' (setCode o h c) (setCode o' h c).
Proof. intros []. split; try done; simpl; [by rewrite e_data0|]. by apply obj_Code_fst. Qed.

Definition entry_ok (e : journalEntry T) : Prop :=
  match e with
  | resetObjectChange p _ => obj_ok (address p) p
  | codeChange a c h => in_use a /\ zlen h = 32 /\ forall c', c = Some c' -> is_slice c'
  | createObjectChange a | suicideChange a _ _ | balanceChange a _ | nonceChange a _ | storageChange a _ _
  | touchChange a => in_use a
  | refundChange _ | addLogChange _ | addPreimageChange _ => True
  end.

Lemma tame_entry a :
  (forall v, tame a (fun o => setBalance o v)) /\ (forall v, tame a (fun o => setNonce o v)) /\
  (forall k v, tame a (fun o => setState o k v)) /\ (forall h c, zlen h = 32 -> (forall c', c = Some c' -> is_slice c') -> tame a (fun o => setCode o h c)).
Proof.
  unfold tame. split_and!; intros; (split; [intros u u' o o'|intros o (? & ? & ? & ? & ?); by split_and!]).
  - apply setBalance_eqv.
  - apply setNonce_eqv.
  - apply setState_eqv.
  - apply setCode_eqv.
Qed.

(** The creation of an account is undone. *)
Lemma wf_uncreate s a :
  wf s -> wf (with_marks (with_objects s (base.delete a (stateObjects s))) (stateObjectsPending s) (stateObjectsDirty s ∖ {[ a ]})).
Proof.
  intros [W1 W2 W3 W4 W5 W6]. split; simpl; try done.
  - intros b o Hb. apply lookup_delete_Some in Hb as [_ Hb]. by apply W1.
  - intros b Hb. rewrite lookup_delete_ne by set_solver. apply W3. set_solver.
Qed.

Lemma uncreate_respects s s' a :
  R s s' -> R (with_marks (with_objects s (base.delete a (stateObjects s))) (stateObjectsPending s) (stateObjectsDirty s ∖ {[ a ]}))
              (with_marks (with_objects s' (base.delete a (stateObjects s'))) (stateObjectsPending s') (stateObjectsDirty s' ∖ {[ a ]})).
Proof.
  intros HR. pose proof HR as (Hw & Hw' & Hr & _).
  assert (Hrt : same_rest (with_marks (with_objects s (base.delete a (stateObjects s))) (stateObjectsPending s) (stateObjectsDirty s ∖ {[ a ]}))
              (with_marks (with_objects s' (base.delete a (stateObjects s'))) (stateObjectsPending s') (stateObjectsDirty s' ∖ {[ a ]})))
    by (destruct Hr; split; simpl; try done; by f_equal).
  apply (R_move s s'); try done; [by apply wf_uncreate..|]. intros b Hb. destruct (decide (b = a)) as [->|Hne].
  - left. unfold peek. simpl. rewrite !lookup_delete_eq. rewrite <- (same_rest_account _ _ a Hrt).
    destruct (account_of _ a); constructor. by apply same_rest_obj.
  - right. unfold peek. simpl. by rewrite !lookup_delete_ne.
Qed.

(** A replaced object comes back. *)
Lemma unreset_respects s s' p prevdestruct t :
  R s s' -> obj_ok (address p) p -> entry_revert (resetObjectChange p prevdestruct) s = Ok t ->
  exists t', entry_revert (resetObjectChange p prevdestruct) s' = Ok t' /\ R t t'.
Proof.
  intros HR Hp. pose proof HR as (Hw & Hw' & Hr & _). cbn [entry_revert snap setStateObject with_objects].
  rewrite <- (r_snap _ _ Hr). assert (HRs : R (setStateObject s p) (setStateObject s' p)).
  { eapply set_respects; [done| |done..]. by apply same_rest_obj. }
  destruct (negb prevdestruct && bool_decide (is_Some (snap s))) eqn:Hsn; intros [= <-]; (eexists; split; [reflexivity|]); [|done].
  apply andb_true_iff in Hsn as [_ Hsn%bool_decide_eq_true].
  pose proof HRs as (Hws & Hws' & Hrs & _). apply (R_move (setStateObject s p) (setStateObject s' p)); try done.
  - destruct Hws. by split.
  - destruct Hws'. by split.
  - destruct Hrs. split; try done. simpl in *. by rewrite r_destructs0.
  - intros b Hb. destruct (decide (b = address p)) as [->|Hne]; [left|right].
    + unfold peek. simpl. rewrite !lookup_insert_eq. constructor. apply obj_eqv_states; simpl; [apply Hrs|by rewrite (r_destructs _ _ Hr)].
    + split; [done|]. split; [done|]. simpl. rewrite elem_of_difference, elem_of_singleton.
      split; [by intros [? _]|]. intros Hin. split; [done|]. intros Heq. apply Hne. apply (w_apart _ Hw); [|done|apply Hp|done]. intros E. rewrite E in Hsn. done.
Qed.

(** Logs, preimages and the refund. *)
Definition same_core s t : Prop :=
  trie t = trie s /\ snap t = snap s /\ snapDestructs t = snapDestructs s /\ stateObjects t = stateObjects s /\
  stateObjectsDirty t = stateObjectsDirty s.

Lemma wf_core s t : wf s -> same_core s t -> (forall h, logs t !! h <> Some []) -> 0 <= logSize t < 2 ^ 64 -> wf t.
Proof.
  intros [] (Ht & Hs & Hd & Ho & Hdi) Hl Hn. split; rewrite ?Ho, ?Hdi, ?Hs; try done.
  intros a d. rewrite (account_of_eqv t s); [apply w_accounts0|by rewrite Ht|done].
Qed.

Lemma R_keep s s' t t' :
  R s s' -> wf t -> wf t' -> same_core s t -> same_core s' t' -> same_rest t t' -> R t t'.
Proof.
  intros HR Hw Hw' (Ht & Hs & Hd & Ho & _) (Ht' & Hs' & Hd' & Ho' & _) Hr. apply (R_move s s'); try done.
  intros b Hb. right. unfold peek. rewrite Ho, Ho', Hd.
  by rewrite (account_of_eqv t s), (account_of_eqv t' s') by (by rewrite ?Ht, ?Ht').
Qed.

Lemma unlog_respects s s' th t :
  R s s' -> entry_revert (addLogChange th) s = Ok t -> exists t', entry_revert (addLogChange th) s' = Ok t' /\ R t t'.
Proof.
  intros HR. pose proof HR as (Hw & Hw' & Hr & _). cbn [entry_revert]. rewrite <- (r_logs _ _ Hr), <- (r_logSize _ _ Hr).
  assert (Hn : 0 <= u64 (logSize s - 1) < 2 ^ 64) by apply u64_range.
  set (l := default [] (logs s !! th)).
  assert (Hstep : forall m n, (forall h, m !! h <> Some []) -> 0 <= n < 2 ^ 64 -> R (with_logs s m n) (with_logs s' m n)).
  { intros m n Hm Hn'. apply (R_keep s s'); try done; [by apply (wf_core s)|by apply (wf_core s')|destruct Hr; by split]. }
  destruct (zlen l =? 1) eqn:H1; [intros [= <-]; eexists; split; [done|]; apply Hstep; [|done]|].
  { intros h Hh. apply lookup_delete_Some in Hh as [_ Hh]. by apply (w_logs _ Hw h). }
  destruct (zlen l =? 0) eqn:H0; [done|]. intros [= <-]. eexists. split; [done|]. apply Hstep; [|done].
  intros h. destruct (decide (h = th)) as [->|Hne]; [rewrite lookup_insert_eq|rewrite lookup_insert_ne by done; by apply w_logs].
  intros [= E]. apply (f_equal length) in E. rewrite length_take in E. simpl in E. unfold zlen in *. lia.
Qed.

Lemma entry_respects e s s' t :
  entry_ok e -> R s s' -> entry_revert e s = Ok t -> exists t', entry_revert e s' = Ok t' /\ R t t'.
Proof.
  intros He HR Hrun. pose proof HR as (Hw & Hw' & Hr & _). destruct (tame_entry (default [] (dirtied e))) as (T1 & T2 & T3 & T4).
  destruct e; simpl in He, T1, T2, T3, T4; try (by eapply on_object_respects; eauto).
  - injection Hrun as <-. eexists. split; [reflexivity|]. by apply uncreate_respects.
  - by eapply unreset_respects.
  - cbn [entry_revert] in *. destruct (get_respects s s' account HR He) as (r & r' & s1 & s1' & Hg & -> & HR1 & Hrr).
    rewrite Hg in Hrun. bind_simpl. simpl in Hrun. destruct Hrr as [o o' (Ho & Hk & Hk')|]; injection Hrun as <-; (eexists; split; [reflexivity|]); [|done].
    apply (set_respects _ _ account); [done|by apply setBalance_eqv, set_marks_eqv|done..].
  - destruct He as (? & ? & ?). eapply on_object_respects; eauto. apply T4; [by rewrite BytesToHash_id|done].
  - injection Hrun as <-. eexists. split; [done|]. apply (R_keep s s'); try done; [by destruct Hw|by destruct Hw'|destruct Hr; by split].
  - by eapply unlog_respects.
  - injection Hrun as <-. eexists. split; [done|]. apply (R_keep s s'); try done; [by destruct Hw|by destruct Hw'|].
    destruct Hr. split; try done. simpl. by f_equal.
  - injection Hrun as <-. by exists s'.
Qed.

Lemma R_journal s j : wf s -> R s (with_journal s j).
Proof. intros Hw. apply R_rest; [done|by split|done]. Qed.

Lemma revert_respects es s s' t :
  Forall entry_ok es -> R s s' -> revert_entries es s = Ok t -> exists t', revert_entries es s' = Ok t' /\ R t t'.
Proof.
  revert s s'. induction es as [|e es IH]; intros s s' Hes HR; cbn [revert_entries]; [intros [= <-]; by exists s'|].
  apply Forall_cons in Hes as [He Hes]. destruct (entry_revert e s) as [u| |] eqn:Hu; [|done..].
  destruct (entry_respects e s s' u He HR Hu) as (u' & -> & HRu). bind_simpl. pose proof HRu as (Hwu & Hwu' & _).
  intros Hrun. eapply IH; [done| |exact Hrun]. destruct (dirtied e); [|done].
  exact (R_trans _ _ _ (R_sym _ _ (R_journal u _ Hwu)) (R_trans _ _ _ HRu (R_journal u' _ Hwu'))).
Qed.

(** ** Every change can be undone *)

(** How often an account was dirtied, but for ripemd, whose touch survives a
    revert. *)
Fixpoint touches (a : addr_t) (es : list (journalEntry T)) : Z :=
  match es with
  | [] => 0
  | e :: es => (if decide (dirtied e = Some a) then 1 else 0) + touches a es
  end.

Definition counted (d : gmap addr_t Z) (es : list (journalEntry T)) : Prop :=
  forall a, a <> ripemd -> d !! a = if touches a es =? 0 then None else Some (touches a es).

Definition dirties_ok s : Prop := counted (dirties (jrnl s)) (entries (jrnl s)).

Lemma touches_app a es es' : touches a (es ++ es') = touches a es + touches a es'.
Proof. induction es as [|e es IH]; simpl; [done|]. rewrite IH. case_decide; lia. Qed.
Lemma touches_nonneg a es : 0 <= touches a es.
Proof. induction es as [|e es IH]; simpl; [done|]. case_decide; lia. Qed.

Lemma counted_append j e : counted (dirties j) (entries j) -> counted (dirties (journal_append j e)) (entries (journal_append j e)).
Proof.
  intros Hc a Ha. simpl. rewrite touches_app. simpl. specialize (Hc a Ha). pose proof (touches_nonneg a (entries j)).
  destruct (dirtied e) as [b|]; [|rewrite decide_False by done; by rewrite !Z.add_0_r].
  destruct (decide (Some b = Some a)) as [[= ->]|Hne].
  - unfold mark. rewrite lookup_insert_eq, Hc, Z.add_0_r. destruct (Z.eqb_spec (touches a (entries j)) 0) as [E|E]; simpl.
    + by rewrite E.
    + destruct (Z.eqb_spec (touches a (entries j) + 1) 0); [lia|done].
  - unfold mark. rewrite lookup_insert_ne by congruence. by rewrite !Z.add_0_r.
Qed.

Lemma counted_unmark d es e :
  counted d (es ++ [e]) -> counted (match dirtied e with Some a => unmark d a | None => d end) es.
Proof.
  intros Hc b Hb. specialize (Hc b Hb). rewrite touches_app in Hc. simpl in Hc. pose proof (touches_nonneg b es).
  destruct (dirtied e) as [a|]; [|rewrite decide_False in Hc by done; by rewrite Z.add_0_r in Hc].
  destruct (decide (Some a = Some b)) as [[= ->]|Hne].
  - unfold unmark. destruct (Z.eqb_spec (touches b es + (1 + 0)) 0); [lia|]. rewrite Hc. simpl.
    replace (touches b es + (1 + 0) - 1) with (touches b es) by lia.
    destruct (touches b es =? 0); [by rewrite lookup_delete_eq|by rewrite lookup_insert_eq].
  - assert (a <> b) by congruence. rewrite Z.add_0_r in Hc. unfold unmark.
    destruct (default 0 (d !! a) - 1 =? 0); [rewrite lookup_delete_ne by done|rewrite lookup_insert_ne by done]; done.
Qed.

(** The entries [es] lead from [s] to [s1], and undoing them leads back. *)
Definition undoes s s1 (es : list (journalEntry T)) : Prop :=
  entries (jrnl s1) = entries (jrnl s) ++ es /\ Forall entry_ok es /\
  exists t, revert_entries (reverse es) s1 = Ok t /\ R t s.

Record step s s1 (es : list (journalEntry T)) : Prop := {
  st_undoes : undoes s s1 es;
  st_wf : wf s1;
  st_revisions : validRevisions s1 = validRevisions s;
  st_next : nextRevisionId s <= nextRevisionId s1;
  st_dirties : dirties_ok s -> dirties_ok s1;
}.

Lemma undoes_read s s1 : R s s1 -> jrnl s1 = jrnl s -> undoes s s1 [].
Proof.
  intros HR Hj. split; [by rewrite Hj, app_nil_r|]. split; [done|]. exists s1. split; [done|]. by apply R_sym.
Qed.

Lemma step_read s s1 : R s s1 -> same_log s s1 -> step s s1 [].
Proof.
  intros HR (Hj & Hv & Hn). pose proof HR as (? & ? & _). split; unfold dirties_ok; rewrite ?Hj; try done; [|lia].
  by apply undoes_read.
Qed.

Lemma revert_entries_app es es' s :
  revert_entries (es ++ es') s = (t ← revert_entries es s; revert_entries es' t : go _).
Proof.
  revert s. induction es as [|e es IH]; intros s; [done|]. cbn [revert_entries app].
  destruct (entry_revert e s) as [u| |]; [|done..]. apply IH.
Qed.

Lemma undoes_trans s s1 s2 es es' : undoes s s1 es -> undoes s1 s2 es' -> undoes s s2 (es ++ es').
Proof.
  intros (E & Hes & u & Hu & HRu) (E' & Hes' & t & Ht & HR). split; [by rewrite E', E, app_assoc|]. split; [by apply Forall_app|].
  rewrite reverse_app, revert_entries_app, Ht. bind_simpl.
  apply (revert_respects _ s1 t) in Hu as (u' & Hu' & HR'); [|by apply Forall_reverse|by apply R_sym].
  exists u'. split; [done|]. exact (R_trans _ _ _ (R_sym _ _ HR') HRu).
Qed.

Lemma step_trans s s1 s2 es es' : step s s1 es -> step s1 s2 es' -> step s s2 (es ++ es').
Proof. intros [] []. split; try done; [by eapply undoes_trans|congruence|lia|auto]. Qed.

(** The end can be replaced by an equivalent state. *)
Lemma undoes_shift s s1 s2 es : undoes s s1 es -> R s1 s2 -> entries (jrnl s2) = entries (jrnl s1) -> undoes s s2 es.
Proof.
  intros (E & Hes & u & Hu & HRu) HR He. split; [by rewrite He|]. split; [done|].
  apply (revert_respects _ s1 s2) in Hu as (u' & Hu' & HR'); [|by apply Forall_reverse|done].
  exists u'. split; [done|]. exact (R_trans _ _ _ (R_sym _ _ HR') HRu).
Qed.

(** One change with its journal entry. *)
Lemma step_one s s1 e t :
  jrnl s1 = journal_append (jrnl s) e -> validRevisions s1 = validRevisions s -> nextRevisionId s1 = nextRevisionId s ->
  entry_ok e -> wf s1 -> entry_revert e s1 = Ok t -> R t s -> step s s1 [e].
Proof.
  intros Hj Hv Hn He Hw Ht HR. split; unfold dirties_ok; rewrite ?Hj; try done; [|lia|apply counted_append].
  pose proof HR as (Hwt & _). split; [by rewrite Hj|]. split; [by constructor|]. simpl. rewrite Ht. bind_simpl. eexists. split; [done|].
  destruct (dirtied e); [|done]. by eapply R_trans; [apply R_sym, R_journal|].
Qed.

Lemma step_object s a o o' e g :
  wf s -> stateObjects s !! a = Some o -> deleted o = false -> deleted o' = false -> obj_ok a o' -> entry_ok e ->
  (forall u, entry_revert e u = on_object u a g) -> obj_eqv s s o (g o') -> obj_ok a (g o') ->
  step s (setStateObject (append_entry s e) o') [e].
Proof.
  intros Hw Ho Hd Hd' Hk He Hg Heq Hk'. pose proof (w_objects _ Hw a o Ho) as Hko.
  assert (Ha : address o' = a) by apply Hk. assert (Ha' : address (g o') = a) by apply Hk'.
  assert (Hobj : stateObjects (setStateObject (append_entry s e) o') !! a = Some o') by (simpl; by rewrite Ha, lookup_insert_eq).
  assert (Hrev : entry_revert e (setStateObject (append_entry s e) o') = Ok (setStateObject (setStateObject (append_entry s e) o') (g o'))).
  { rewrite Hg. unfold on_object, getStateObject, getDeletedStateObject. rewrite Hobj. bind_simpl. by rewrite Hd'. }
  eapply step_one; [done..| |exact Hrev|]; [eapply wf_setStateObject; [|done]; by apply (R_journal s)|]. apply R_sym.
  apply (R_set s _ a o (g o')); [done|by split|unfold peek; by rewrite Ho| | |done].
  - simpl. by rewrite Ha, Ha', insert_insert_eq.
  - eapply obj_eqv_trans; [exact Heq|by apply obj_eqv_states].
Qed.

(** *** Accounts are created *)

(** A state after [createObject], with some new object in place. *)
Lemma create_step s a x :
  wf s -> in_use a -> obj_ok a x ->
  exists s1 es, createObject s a = Ok (setNonce (newObject a (MkAccount 0 0 zero_hash []) true) 0, live (peek s a), s1) /\
    step s (setStateObject s1 x) es /\ stateObjects s1 !! a = Some (setNonce (newObject a (MkAccount 0 0 zero_hash []) true) 0).
Proof.
  intros Hw Ha Hx. unfold createObject. destruct (load_spec s a Hw Ha) as (s0 & -> & HR0 & Hl0 & Hr0 & Ho0). bind_simpl.
  pose proof HR0 as (_ & Hw0 & _). assert (Hxa : address x = a) by apply Hx. pose proof (step_read _ _ HR0 Hl0) as Hst0.
  set (nw := setNonce _ 0). assert (Hnw : address nw = a) by done.
  destruct (peek s a) as [p|] eqn:Hp; simpl.
  - pose proof (w_objects _ Hw0 a p Ho0) as Hk. assert (Hpa : address p = a) by apply Hk.
    set (du := match snap s0 with Some _ => if decide (addrHash p ∈ snapDestructs s0) then (true, s0)
                 else (false, with_destructs s0 ({[addrHash p]} ∪ snapDestructs s0)) | None => (false, s0) end).
    assert (Hdu : exists b d, du = (b, with_destructs s0 d) /\
              (if negb b && bool_decide (is_Some (snap s0)) then d ∖ {[ addrHash p ]} else d) = snapDestructs s0).
    { unfold du. destruct (snap s0) as [sn|] eqn:Hsn.
      - destruct (decide (addrHash p ∈ snapDestructs s0)).
        + exists true, (snapDestructs s0). split; [by destruct s0|done].
        + exists false, ({[addrHash p]} ∪ snapDestructs s0). split; [done|]. simpl. set_solver.
      - exists false, (snapDestructs s0). split; [by destruct s0|]. done. }
    destruct Hdu as (b & d & -> & Hd). simpl. eexists _, _. split; [reflexivity|]. split; [|simpl; by rewrite lookup_insert_eq].
    eapply step_trans; [exact Hst0|]. eapply (step_one s0 _ (resetObjectChange p b)); try done.
    + simpl. by rewrite Hpa.
    + eapply (wf_set s0 _ a x); try done. simpl. by rewrite Hxa, insert_insert_eq.
    + apply R_sym. simpl. destruct (negb b && bool_decide (is_Some (snap s0))); simpl; (apply R_rest; [done|by split|]); simpl;
        rewrite Hpa, Hxa, !insert_insert_eq; by rewrite insert_id.
  - replace (match snap s0 with Some _ | None => (false, s0) end) with (false, s0) by (by destruct (snap s0)).
    eexists _, _. split; [reflexivity|]. split; [|simpl; by rewrite lookup_insert_eq].
    eapply step_trans; [exact Hst0|]. eapply (step_one s0 _ (createObjectChange a)); try done.
    + eapply (wf_set s0 _ a x); try done. simpl. by rewrite Hxa, insert_insert_eq.
    + apply R_sym, R_rest; [done|split; try done; simpl|simpl].
      * assert (a ∉ stateObjectsDirty s0); [|set_solver]. intros Hin. apply (w_dirty _ Hw0) in Hin. rewrite Ho0 in Hin. by destruct Hin.
      * by rewrite Hxa, !insert_insert_eq, delete_insert_id.
Qed.

Lemma setStateObject_id s o : stateObjects s !! address o = Some o -> setStateObject s o = s.
Proof. intros Ho. unfold setStateObject, with_objects. rewrite insert_id by done. by destruct s. Qed.

Definition blank (a : addr_t) : stateObject T := setNonce (newObject a (MkAccount 0 0 zero_hash []) true) 0.

Lemma blank_ok a : in_use a -> obj_ok a (blank a).
Proof. intros Ha. split_and!; try done. simpl. apply keccak_len. Qed.

Lemma GetOrNew_step s a :
  wf s -> in_use a ->
  exists o s1 es, GetOrNewStateObject s a = Ok (o, s1) /\ step s s1 es /\ stateObjects s1 !! a = Some o /\ deleted o = false.
Proof.
  intros Hw Ha. unfold GetOrNewStateObject. destruct (get_spec s a Hw Ha) as (s0 & -> & HR0 & Hl0 & Hr0 & Ho0). bind_simpl.
  pose proof (step_read _ _ HR0 Hl0) as Hst0. destruct (live (peek s a)) as [o|] eqn:Hp.
  - exists o, s0, []. split; [done|]. split; [done|]. destruct (peek s a) as [o'|]; [|done]. simpl in Hp.
    destruct (deleted o') eqn:Hd; [done|]. injection Hp as ->. done.
  - destruct (create_step s0 a (blank a) (st_wf _ _ _ Hst0) Ha (blank_ok a Ha)) as (s1 & es & -> & Hst & Ho). bind_simpl.
    rewrite setStateObject_id in Hst by done. eexists _, s1, _. split; [reflexivity|]. split; [by eapply step_trans|done].
Qed.

Lemma change_step s a f :
  wf s -> in_use a ->
  (forall s o, wf s -> stateObjects s !! a = Some o -> deleted o = false ->
     exists s1 o1 es, f s o = Ok (s1, o1) /\ step s (setStateObject s1 o1) es) ->
  exists s1 es, change s a f = Ok s1 /\ step s s1 es.
Proof.
  intros Hw Ha Hf. unfold change. destruct (GetOrNew_step s a Hw Ha) as (o & s0 & es0 & -> & Hst0 & Ho & Hd). bind_simpl.
  destruct (Hf s0 o (st_wf _ _ _ Hst0) Ho Hd) as (s1 & o1 & es & -> & Hst). bind_simpl.
  eexists _, _. split; [reflexivity|]. by eapply step_trans.
Qed.

Lemma read_spec {A} (P : A -> Prop) s a (none : A) f :
  wf s -> in_use a -> P none ->
  (forall s o, wf s -> stateObjects s !! a = Some o -> exists r o1, f s o = Ok (r, o1) /\ reread s o o1 /\ P r) ->
  exists r s1, read s a none f = Ok (r, s1) /\ P r /\ R s s1 /\ same_log s s1.
Proof.
  intros Hw Ha Hnone Hf. unfold read. destruct (get_spec s a Hw Ha) as (s0 & -> & HR0 & Hl0 & Hr0 & Ho0). bind_simpl.
  pose proof HR0 as (_ & Hw0 & _). destruct (live (peek s a)) as [o|] eqn:Hp; [|by eexists _, s0].
  assert (Ho : stateObjects s0 !! a = Some o).
  { rewrite Ho0. destruct (peek s a) as [o'|]; [|done]. simpl in Hp. by destruct (deleted o'). }
  destruct (Hf s0 o Hw0 Ho) as (r & o1 & -> & Hre & HP). bind_simpl. eexists r, _. split; [reflexivity|]. split; [done|].
  destruct (reread_set s0 a o o1 Hw0 Ho Hre) as [HR1 Hl1]. split; [by eapply R_trans|].
  destruct Hl0 as (? & ? & ?), Hl1 as (? & ? & ?). split_and!; congruence.
Qed.

Lemma read_step {A} s a (none : A) f :
  wf s -> in_use a ->
  (forall s o, wf s -> stateObjects s !! a = Some o -> exists r o1, f s o = Ok (r, o1) /\ reread s o o1) ->
  exists r s1 es, read s a none f = Ok (r, s1) /\ step s s1 es.
Proof.
  intros Hw Ha Hf. destruct (read_spec (fun _ => True) s a none f Hw Ha I) as (r & s1 & Hrun & _ & HR & Hl).
  { intros u o Hwu Ho. destruct (Hf u o Hwu Ho) as (r & o1 & ? & ?). by exists r, o1. }
  exists r, s1, []. split; [done|]. by apply step_read.
Qed.

Lemma reread_refl s o : reread s o o.
Proof. split; [apply obj_eqv_refl|done]. Qed.

Lemma unchanged_step s a o o1 : wf s -> stateObjects s !! a = Some o -> reread s o o1 -> step s (setStateObject s o1) [].
Proof. intros Hw Ho Hre. destruct (reread_set s a o o1 Hw Ho Hre). by apply step_read. Qed.

(** *** Balances, nonces, code, storage *)

Lemma SetBalance_obj_step s a o v :
  wf s -> stateObjects s !! a = Some o -> deleted o = false ->
  exists s1 o1 es, obj_SetBalance s o v = (s1, o1) /\ step s (setStateObject s1 o1) es.
Proof.
  intros Hw Ho Hd. pose proof (w_objects _ Hw a o Ho) as (H20 & Ha & Hc & Hf & Hco). eexists _, _, _. split; [reflexivity|]. rewrite Ha.
  apply (step_object s a o _ _ (fun x => setBalance x (Balance (data o)))); try done. split; try done.
  - simpl. by destruct (data o).
  - by apply obj_Code_fst.
Qed.

Lemma SetNonce_obj_step s a o v :
  wf s -> stateObjects s !! a = Some o -> deleted o = false ->
  exists s1 o1 es, obj_SetNonce s o v = (s1, o1) /\ step s (setStateObject s1 o1) es.
Proof.
  intros Hw Ho Hd. pose proof (w_objects _ Hw a o Ho) as (H20 & Ha & Hc & Hf & Hco). eexists _, _, _. split; [reflexivity|]. rewrite Ha.
  apply (step_object s a o _ _ (fun x => setNonce x (Nonce (data o)))); try done. split; try done.
  - simpl. by destruct (data o).
  - by apply obj_Code_fst.
Qed.

Lemma touch_step s a o : wf s -> stateObjects s !! a = Some o -> step s (touch s o) [touchChange a].
Proof.
  intros Hw Ho. pose proof (w_objects _ Hw a o Ho) as (H20 & Ha & _). unfold touch. rewrite Ha.
  assert (Hst : step s (append_entry s (touchChange a)) [touchChange a]).
  { eapply step_one; [done..|by apply (R_journal s)|reflexivity|]. by apply R_sym, R_journal. }
  destruct (decide (a = ripemd)) as [Hrip|]; [|done]. destruct Hst as [E1 E2 E3 E4 E5]. split; try done.
  - by eapply undoes_shift; [done|apply R_journal|].
  - by apply (R_journal _ _ E2).
  - intros Hd b Hb. specialize (E5 Hd b Hb). simpl in *. unfold mark at 1. rewrite lookup_insert_ne by congruence. done.
Qed.

Lemma AddBalance_obj_step s a o v :
  wf s -> stateObjects s !! a = Some o -> deleted o = false ->
  exists s1 o1 es, obj_AddBalance s o v = (s1, o1) /\ step s (setStateObject s1 o1) es.
Proof.
  intros Hw Ho Hd. unfold obj_AddBalance. destruct (v =? 0); [|by apply SetBalance_obj_step with a].
  destruct (obj_empty o); eexists _, _.
  - pose proof (touch_step s a o Hw Ho) as Hst. pose proof (w_objects _ Hw a o Ho) as (_ & Ha & _).
    eexists. split; [reflexivity|]. rewrite setStateObject_id; [exact Hst|]. unfold touch. rewrite Ha. by case_decide.
  - exists []. split; [reflexivity|]. eapply unchanged_step; [done..|apply reread_refl].
Qed.

Lemma SubBalance_obj_step s a o v :
  wf s -> stateObjects s !! a = Some o -> deleted o = false ->
  exists s1 o1 es, obj_SubBalance s o v = (s1, o1) /\ step s (setStateObject s1 o1) es.
Proof.
  intros Hw Ho Hd. unfold obj_SubBalance. destruct (v =? 0); [|by apply SetBalance_obj_step with a].
  eexists _, _, []. split; [reflexivity|]. eapply unchanged_step; [done..|apply reread_refl].
Qed.

Lemma SetCode_obj_step s a o c :
  (forall b, c = Some b -> is_slice b) -> wf s -> stateObjects s !! a = Some o -> deleted o = false ->
  exists s1 o1 es, obj_SetCode s o (keccak256 (default [] c)) c = (s1, o1) /\ step s (setStateObject s1 o1) es.
Proof.
  intros Hsl Hw Ho Hd. pose proof (w_objects _ Hw a o Ho) as (H20 & Ha & Hc & Hf & Hco). unfold obj_SetCode.
  destruct (obj_Code_spec s o) as (o1 & -> & He & Hf1 & Hd1 & Hco1). eexists _, _, _. split; [reflexivity|].
  rewrite <- (e_addr _ _ _ _ He), Ha, <- (e_data _ _ _ _ He).
  pose proof (keccak_len (default [] c)) as Hlen. assert (Hid : BytesToHash (CodeHash (data o)) = CodeHash (data o)) by by apply BytesToHash_id.
  apply (step_object s a o _ _ (fun x => setCode x (BytesToHash (CodeHash (data o))) (obj_Code o).1)); try done.
  - simpl. by rewrite <- (e_deleted _ _ _ _ He).
  - split_and!; [done|simpl; by rewrite <- (e_addr _ _ _ _ He)|done|simpl; congruence|exact Hsl].
  - split_and!; [done..|]. intros c'. by apply obj_Code_slice.
  - destruct He. rewrite Hid. split; try done; simpl; [rewrite <- e_data0; by destruct (data o)|].
    unfold obj_Code. simpl. destruct (code o) as [c0|]; [done|].
    destruct (decide (CodeHash (data o) = emptyCodeHash)) as [E|E]; [by rewrite ?decide_True|].
    destruct (ContractCode (addrHash o) (BytesToHash (CodeHash (data o)))) eqn:Hcc; simpl; [done|].
    unfold addrHash in *. simpl. rewrite <- e_addr0. by rewrite Hcc.
  - split_and!; [done|simpl; by rewrite <- (e_addr _ _ _ _ He)|simpl; by rewrite Hid|simpl; congruence|]. intros c'. by apply obj_Code_slice.
Qed.

Lemma SetState_obj_step s a o key value :
  wf s -> stateObjects s !! a = Some o -> deleted o = false ->
  exists s1 o1 es, obj_SetState s o key value = Ok (s1, o1) /\ step s (setStateObject s1 o1) es.
Proof.
  intros Hw Ho Hd. pose proof (w_objects _ Hw a o Ho) as (H20 & Ha & Hc & Hf & Hco). unfold obj_SetState. rewrite Hf.
  destruct (obj_GetState_spec s o key Hf) as (o1 & -> & Hre). bind_simpl. destruct (decide (current s o key = value)).
  { eexists _, _, _. split; [reflexivity|]. by eapply unchanged_step. }
  destruct Hre as (He & Hf1 & Hd1 & Hco1). eexists _, _, _. split; [reflexivity|]. rewrite <- (e_addr _ _ _ _ He), Ha.
  assert (Hok : forall v w, obj_ok a (setState (setState o1 key v) key w) /\ obj_ok a (setState o1 key v)).
  { intros v w. unfold obj_ok. simpl. rewrite <- (e_addr _ _ _ _ He), <- (e_data _ _ _ _ He), Hf1. specialize (Hco1 Hco). by split_and!. }
  apply (step_object s a o _ _ (fun x => setState x key (current s o key))); try done; try apply Hok; try exact zero_hash.
  - simpl. by rewrite <- (e_deleted _ _ _ _ He).
  - destruct He. split; try done.
    + rewrite e_code0. by apply obj_Code_fst.
    + intros k. rewrite !current_setState. repeat case_decide; by subst.
Qed.

Lemma CreateAccount_step s a : wf s -> in_use a -> exists s1 es, CreateAccount s a = Ok s1 /\ step s s1 es.
Proof.
  intros Hw Ha. unfold CreateAccount.
  set (x := match live (peek s a) with Some p => setBalance (blank a) (Balance (data p)) | None => blank a end).
  assert (Hx : obj_ok a x) by (destruct (blank_ok a Ha) as (? & ? & ? & ?); unfold x; destruct (live _); done).
  destruct (create_step s a x Hw Ha Hx) as (s1 & es & -> & Hst & Ho). bind_simpl. unfold x in Hst.
  destruct (live (peek s a)); [by eexists _, _|]. rewrite setStateObject_id in Hst by done. by eexists _, _.
Qed.

Lemma Suicide_step s a : wf s -> in_use a -> exists b s1 es, Suicide s a = Ok (b, s1) /\ step s s1 es.
Proof.
  intros Hw Ha. unfold Suicide. destruct (get_spec s a Hw Ha) as (s0 & -> & HR0 & Hl0 & Hr0 & Ho0). bind_simpl.
  pose proof (step_read _ _ HR0 Hl0) as Hst0. destruct (live (peek s a)) as [o|] eqn:Hp; [|by eexists _, s0, _].
  assert (Ho : stateObjects s0 !! a = Some o /\ deleted o = false).
  { rewrite Ho0. destruct (peek s a) as [o'|]; [|done]. simpl in Hp. destruct (deleted o') eqn:Hd; [done|]. injection Hp as ->. done. }
  destruct Ho as [Ho Hd]. pose proof (st_wf _ _ _ Hst0) as Hw0. pose proof (w_objects _ Hw0 a o Ho) as (H20 & Hoa & Hc & Hf).
  eexists _, _, _. split; [reflexivity|]. eapply step_trans; [exact Hst0|].
  set (o1 := setBalance (set_marks o true (deleted o)) 0). set (e := suicideChange a (suicided o) (Balance (data o))).
  assert (Hrev : entry_revert e (setStateObject (append_entry s0 e) o1)
                 = Ok (setStateObject (setStateObject (append_entry s0 e) o1) (setBalance (set_marks o1 (suicided o) (deleted o1)) (Balance (data o))))).
  { unfold e, o1. cbn [entry_revert]. unfold getStateObject, getDeletedStateObject. simpl. rewrite Hoa, lookup_insert_eq. simpl. by rewrite !Hd. }
  eapply (step_one s0 _ e); [done..|eapply (wf_setStateObject _ a); [by apply (R_journal s0)|done]|exact Hrev|].
  apply R_sym. apply (R_set s0 _ a o (setBalance (set_marks o1 (suicided o) (deleted o1)) (Balance (data o)))); try done.
  - unfold peek. by rewrite Ho.
  - simpl. by rewrite Hoa, insert_insert_eq.
  - split; try done; simpl; [by destruct (data o)|]. by apply obj_Code_fst.
Qed.

Lemma AddLog_step s body : wf s -> exists es, step s (AddLog s body) es.
Proof.
  intros Hw. pose proof Hw as [_ _ _ W4 W5]. set (e := addLogChange (thash s) : journalEntry T).
  set (l := default [] (logs s !! thash s)). exists [e].
  assert (Hl : 0 <= u64 (logSize s + 1) < 2 ^ 64) by apply u64_range.
  assert (Hback : u64 (u64 (logSize s + 1) - 1) = logSize s).
  { unfold u64. rewrite Zminus_mod_idemp_l. replace (logSize s + 1 - 1) with (logSize s) by lia. by apply Z.mod_small. }
  assert (Hrev : exists t, entry_revert e (AddLog s body) = Ok t /\ R t s).
  { unfold e, AddLog. cbn [entry_revert]. simpl. rewrite lookup_insert_eq. simpl. fold l. rewrite zlen_app. change (zlen [_]) with 1.
    rewrite Hback. destruct (Z.eqb_spec (zlen l + 1) 1) as [H1|H1]; [|rewrite (proj2 (Z.eqb_neq _ _)) by (unfold zlen; lia)];
      (eexists; split; [reflexivity|]; apply R_sym, R_rest; [done|split; try done; simpl|done]).
    - rewrite delete_insert_eq. assert (Hnil : l = []) by (by destruct l; [|unfold zlen in H1; simpl in H1; lia]).
      rewrite delete_id; [done|]. unfold l in Hnil. specialize (W4 (thash s)). destruct (logs s !! thash s) eqn:E; [|done]. simpl in Hnil. by subst.
    - rewrite insert_insert_eq, length_app. simpl. replace (length l + 1 - 1)%nat with (length l) by lia. rewrite take_app_length.
      rewrite insert_id; [done|]. unfold l in *. destruct (logs s !! thash s); [done|]. done. }
  destruct Hrev as (t & Ht & HR). eapply step_one; [done..| |exact Ht|done]. eapply wf_core; try done.
  intros h. simpl. destruct (decide (h = thash s)) as [->|Hne]; [|rewrite lookup_insert_ne by done; apply W4].
  rewrite lookup_insert_eq. intros [= E]. by destruct (default [] _).
Qed.

Lemma AddPreimage_step s h p : wf s -> exists es, step s (AddPreimage s h p) es.
Proof.
  intros Hw. unfold AddPreimage. destruct (sha3_preimages s !! h) eqn:Hh; [exists []; by apply step_read; [apply R_refl|]|].
  eexists. eapply (step_one s _ (addPreimageChange h)); [done..|by destruct Hw|reflexivity|]. apply R_sym, R_rest; [done|split; try done; simpl|done].
  by rewrite delete_insert_id.
Qed.

Lemma refund_step s r : wf s -> step s (with_refund (append_entry s (refundChange (refund s))) r) [refundChange (refund s)].
Proof.
  intros Hw. eapply (step_one s _ (refundChange (refund s))); [done..|by destruct Hw|reflexivity|]. by apply R_sym, R_rest; [|split|].
Qed.

(** *** Operations *)

Inductive op :=
| OExist (a : addr_t) | OEmpty (a : addr_t) | OGetBalance (a : addr_t) | OGetNonce (a : addr_t) | OGetCode (a : addr_t) | OGetCodeSize (a : addr_t)
| OGetCodeHash (a : addr_t) | OGetState (a : addr_t) (k : hash_t) | OGetCommittedState (a : addr_t) (k : hash_t)
| OHasSuicided (a : addr_t) | OCreateAccount (a : addr_t) | OAddBalance (a : addr_t) (v : Z) | OSubBalance (a : addr_t) (v : Z)
| OSetBalance (a : addr_t) (v : Z) | OSetNonce (a : addr_t) (v : Z) | OSetCode (a : addr_t) (c : option (list Z))
| OSetState (a : addr_t) (k v : hash_t) | OSuicide (a : addr_t) | OAddLog (body : LogBody)
| OAddPreimage (h : hash_t) (p : list Z) | OAddRefund (g : Z) | OSubRefund (g : Z)
| OSnapshot | ORevertToSnapshot (id : Z).

Definition drop_result {A} (r : go (A * StateDB T)) : go (StateDB T) := '(_, s) ← r; Ok s.

Definition exec_op (o : op) s : go (StateDB T) :=
  match o with
  | OExist a => drop_result (Exist s a)
  | OEmpty a => drop_result (Empty s a)
  | OGetBalance a => drop_result (GetBalance s a)
  | OGetNonce a => drop_result (GetNonce s a)
  | OGetCode a => drop_result (GetCode s a)
  | OGetCodeSize a => drop_result (GetCodeSize s a)
  | OGetCodeHash a => drop_result (GetCodeHash s a)
  | OGetState a k => drop_result (GetState s a k)
  | OGetCommittedState a k => drop_result (sdb_GetCommittedState s a k)
  | OHasSuicided a => drop_result (HasSuicided s a)
  | OCreateAccount a => CreateAccount s a
  | OAddBalance a v => AddBalance s a v
  | OSubBalance a v => SubBalance s a v
  | OSetBalance a v => SetBalance s a v
  | OSetNonce a v => SetNonce s a v
  | OSetCode a c => SetCode s a c
  | OSetState a k v => SetState s a k v
  | OSuicide a => drop_result (Suicide s a)
  | OAddLog body => Ok (AddLog s body)
  | OAddPreimage h p => Ok (AddPreimage s h p)
  | OAddRefund g => Ok (AddRefund s g)
  | OSubRefund g => SubRefund s g
  | OSnapshot => Ok (take_snapshot s).2
  | ORevertToSnapshot id => RevertToSnapshot s id
  end.

Fixpoint exec (os : list op) s : go (StateDB T) :=
  match os with [] => Ok s | o :: os => s ← exec_op o s; exec os s end.

(** Addresses are addresses, and a nested revert stays above the snapshot
    [id]. *)
Definition op_ok (id : Z) (o : op) : Prop :=
  match o with
  | OExist a | OEmpty a | OGetBalance a | OGetNonce a | OGetCode a | OGetCodeSize a | OGetCodeHash a | OGetState a _ | OGetCommittedState a _
  | OHasSuicided a | OCreateAccount a | OAddBalance a _ | OSubBalance a _ | OSetBalance a _ | OSetNonce a _
  | OSetState a _ _ | OSuicide a => in_use a
  | OSetCode a c => in_use a /\ forall b, c = Some b -> is_slice b
  | ORevertToSnapshot j => id < j
  | OAddLog _ | OAddPreimage _ _ | OAddRefund _ | OSubRefund _ | OSnapshot => True
  end.

Definition plain (o : op) : Prop := match o with OSnapshot | ORevertToSnapshot _ => False | _ => True end.

Lemma drop_read_step {A} s a (none : A) f s1 :
  wf s -> in_use a -> drop_result (read s a none f) = Ok s1 ->
  (forall s o, wf s -> stateObjects s !! a = Some o -> exists r o1, f s o = Ok (r, o1) /\ reread s o o1) ->
  exists es, step s s1 es.
Proof.
  intros Hw Ha Hrun Hf. destruct (read_step s a none f Hw Ha Hf) as (r & s2 & es & Hr & Hst). unfold drop_result in Hrun.
  rewrite Hr in Hrun. injection Hrun as <-. by exists es.
Qed.

Lemma run_change_step s a f s1 :
  wf s -> in_use a -> change s a f = Ok s1 ->
  (forall s o, wf s -> stateObjects s !! a = Some o -> deleted o = false ->
     exists s1 o1 es, f s o = Ok (s1, o1) /\ step s (setStateObject s1 o1) es) ->
  exists es, step s s1 es.
Proof.
  intros Hw Ha Hrun Hf. destruct (change_step s a f Hw Ha Hf) as (s2 & es & Hr & Hst). rewrite Hr in Hrun. injection Hrun as <-. by exists es.
Qed.

Lemma exec_op_step id (o : op) s s1 : wf s -> op_ok id o -> plain o -> exec_op o s = Ok s1 -> exists es, step s s1 es.
Proof.
  intros Hw Ho Hp Hrun. destruct o; simpl in Ho, Hp, Hrun; try done;
    try (eapply drop_read_step; [done..|exact Hrun|]; intros u o _ _; eexists _, _; split; [reflexivity|apply reread_refl]);
    try (eapply run_change_step; [done..|exact Hrun|]; intros u o Hwu Hou Hdu; simpl).
  - eapply drop_read_step; [done..|exact Hrun|]. intros u o Hwu Hou. simpl.
    destruct (obj_Code_spec u o) as (o1 & -> & ?). by eexists _, _.
  - eapply drop_read_step; [done..|exact Hrun|]. intros u o Hwu Hou. simpl.
    destruct (obj_CodeSize_spec u o) as (n & o1 & -> & ?). by eexists _, _.
  - eapply drop_read_step; [done..|exact Hrun|]. intros u o Hwu Hou. simpl.
    destruct (obj_GetState_spec u o k) as (o1 & -> & ?); [by apply (w_objects _ Hwu _ _ Hou)|]. by eexists _, _.
  - eapply drop_read_step; [done..|exact Hrun|]. intros u o Hwu Hou. simpl.
    destruct (GetCommittedState_spec u o k) as (o1 & -> & ?); [by apply (w_objects _ Hwu _ _ Hou)|]. by eexists _, _.
  - destruct (CreateAccount_step s a Hw Ho) as (s2 & es & Hr & Hst). rewrite Hr in Hrun. injection Hrun as <-. by exists es.
  - destruct (AddBalance_obj_step u a o v Hwu Hou Hdu) as (u1 & o1 & es & -> & ?). by eexists _, _, _.
  - destruct (SubBalance_obj_step u a o v Hwu Hou Hdu) as (u1 & o1 & es & -> & ?). by eexists _, _, _.
  - destruct (SetBalance_obj_step u a o v Hwu Hou Hdu) as (u1 & o1 & es & -> & ?). by eexists _, _, _.
  - destruct (SetNonce_obj_step u a o v Hwu Hou Hdu) as (u1 & o1 & es & -> & ?). by eexists _, _, _.
  - destruct Ho as [Ha Hc]. eapply run_change_step; [done..|exact Hrun|]. intros u o Hwu Hou Hdu.
    destruct (SetCode_obj_step u a o c Hc Hwu Hou Hdu) as (u1 & o1 & es & -> & ?). by eexists _, _, _.
  - by apply (SetState_obj_step u a o k v).
  - destruct (Suicide_step s a Hw Ho) as (b & s2 & es & Hr & Hst). rewrite Hr in Hrun. injection Hrun as <-. by exists es.
  - injection Hrun as <-. by apply AddLog_step.
  - injection Hrun as <-. by apply AddPreimage_step.
  - injection Hrun as <-. eexists. by apply refund_step.
  - unfold SubRefund in Hrun. simpl in Hrun. destruct (g >? refund s); [done|]. injection Hrun as <-. eexists. by apply refund_step.
Qed.

(** ** Snapshots *)

(** *** The binary search *)

Lemma sort_Search_spec fuel f i j :
  0 <= i <= j -> j - i < Z.of_nat fuel -> (forall k l, i <= k <= l -> l < j -> f k = true -> f l = true) ->
  i <= sort_Search fuel f i j <= j /\ (forall k, i <= k < sort_Search fuel f i j -> f k = false) /\
  (forall k, sort_Search fuel f i j <= k < j -> f k = true).
Proof.
  revert i j. induction fuel as [|fuel IH]; intros i j Hij Hf Hmono; [lia|]. simpl.
  destruct (Z.ltb_spec i j) as [Hlt|]; [|split_and!; intros; lia]. set (h := (i + j) / 2).
  assert (Hh : i <= h < j) by (unfold h; split; [apply Z.div_le_lower_bound; lia|apply Z.div_lt_upper_bound; lia]).
  destruct (f h) eqn:Hfh; simpl.
  - destruct (IH i h) as (H1 & H2 & H3); [lia|lia|intros; eapply Hmono; eauto; lia|]. split; [lia|]. split; [done|].
    intros k Hk. destruct (Z_lt_le_dec k h); [apply H3; lia|]. eapply (Hmono h); eauto; lia.
  - destruct (IH (h + 1) j) as (H1 & H2 & H3); [lia|lia|intros; eapply Hmono; eauto; lia|]. split; [lia|]. split; [|done].
    intros k Hk. destruct (Z_lt_le_dec k (h + 1)); [|apply H2; lia]. destruct (f k) eqn:Hk'; [|done].
    rewrite (Hmono k h) in Hfh; [done|lia|lia|done].
Qed.

Definition ascending (revs : list revision) : Prop :=
  forall i j r r', (i < j)%nat -> revs !! i = Some r -> revs !! j = Some r' -> rev_id r < rev_id r'.

Lemma search_revision revs (n : nat) r :
  ascending revs -> revs !! n = Some r ->
  sort_Search (S (length revs)) (fun i => match revs !! Z.to_nat i with Some r => rev_id r | None => 0 end >=? rev_id r) 0 (zlen revs) = Z.of_nat n.
Proof.
  intros Hasc Hn. set (f := fun i => _). pose proof (lookup_lt_Some _ _ _ Hn) as Hlt.
  destruct (sort_Search_spec (S (length revs)) f 0 (zlen revs)) as (H1 & H2 & H3); [unfold zlen; lia|unfold zlen; lia| |].
  { intros k l Hkl Hl. unfold f. destruct (lookup_lt_is_Some_2 revs (Z.to_nat k)) as [x Hx]; [unfold zlen in *; lia|].
    destruct (lookup_lt_is_Some_2 revs (Z.to_nat l)) as [y Hy]; [unfold zlen in *; lia|]. rewrite Hx, Hy.
    destruct (decide (k = l)) as [->|]; [by simplify_eq|]. pose proof (Hasc (Z.to_nat k) (Z.to_nat l) x y ltac:(lia) Hx Hy). lia. }
  set (m := sort_Search _ _ _ _) in *. destruct (Z.lt_trichotomy m (Z.of_nat n)) as [Hm|[|Hm]]; [|done|].
  - specialize (H3 m ltac:(unfold zlen; lia)). unfold f in H3. destruct (lookup_lt_is_Some_2 revs (Z.to_nat m)) as [x Hx]; [lia|].
    rewrite Hx in H3. pose proof (Hasc (Z.to_nat m) n x r ltac:(lia) Hx Hn). lia.
  - specialize (H2 (Z.of_nat n) ltac:(lia)). unfold f in H2. rewrite Nat2Z.id, Hn in H2. lia.
Qed.

(** *** Reverting *)

Lemma get_log s a r s1 : getStateObject s a = Ok (r, s1) -> same_log s s1.
Proof.
  unfold getStateObject, getDeletedStateObject, trie_account. destruct (stateObjects s !! a); [simpl; by intros [= _ <-]|].
  destruct (snap_account s a) as [[?|]|]; simpl; [by intros [= _ <-]..|].
  destruct (t_TryGet (trie s) a) as [[enc|e|] t]; simpl; [|by intros [= _ <-]|done].
  destruct (if zlen enc =? 0 then None else decode_account enc); simpl; by intros [= _ <-].
Qed.

Lemma on_object_log s a f t : on_object s a f = Ok t -> same_log s t.
Proof.
  unfold on_object. destruct (getStateObject s a) as [[r s1]| |] eqn:Hg; [|done..]. apply get_log in Hg. simpl.
  destruct r; [|done]. by intros [= <-].
Qed.

Lemma entry_log e s t : entry_revert e s = Ok t -> same_log s t.
Proof.
  destruct e; cbn [entry_revert]; try (apply on_object_log); try (by intros [= <-]).
  - intros [= <-]. by destruct (negb prevdestruct && bool_decide _).
  - destruct (getStateObject s account) as [[r s1]| |] eqn:Hg; [|done..]. apply get_log in Hg. simpl. destruct r; by intros [= <-].
  - destruct (_ =? 1); [by intros [= <-]|]. destruct (_ =? 0); [done|]. by intros [= <-].
Qed.

Lemma revert_log es s t E :
  revert_entries es s = Ok t -> counted (dirties (jrnl s)) (E ++ reverse es) ->
  entries (jrnl t) = entries (jrnl s) /\ validRevisions t = validRevisions s /\ nextRevisionId t = nextRevisionId s /\
  counted (dirties (jrnl t)) E.
Proof.
  revert s. induction es as [|e es IH]; intros s; cbn [revert_entries].
  { intros [= <-]. by rewrite reverse_nil, app_nil_r. }
  destruct (entry_revert e s) as [u| |] eqn:Hu; [|done..]. apply entry_log in Hu as (Hj & Hv & Hn). bind_simpl.
  rewrite reverse_cons, app_assoc. intros Hrun Hc. apply counted_unmark in Hc. rewrite <- Hj in Hc.
  destruct (dirtied e); (destruct (IH _ Hrun Hc) as (He & Hv' & Hn' & Hc')); simpl in *; rewrite He, Hv', Hn', ?Hj, ?Hv, ?Hn; done.
Qed.

Definition revs_ok s : Prop := ascending (validRevisions s) /\ Forall (fun r => rev_id r < nextRevisionId s) (validRevisions s).

Lemma revert_to s sr es pre r post :
  validRevisions s = pre ++ r :: post -> revs_ok s -> journalIndex r = zlen (entries (jrnl sr)) -> dirties_ok s -> undoes sr s es ->
  exists t, RevertToSnapshot s (rev_id r) = Ok t /\ R t sr /\ entries (jrnl t) = entries (jrnl sr) /\ dirties_ok t /\
    validRevisions t = pre /\ nextRevisionId t = nextRevisionId s.
Proof.
  intros Hv [Hasc _] Hidx Hd (E & Hes & t & Ht & HR). unfold RevertToSnapshot.
  assert (Hr : validRevisions s !! length pre = Some r) by (rewrite Hv; by apply list_lookup_middle).
  rewrite (search_revision _ _ r Hasc Hr), Nat2Z.id, Hr, Z.eqb_refl. unfold journal_revert. rewrite Hidx, E.
  replace (Z.to_nat (zlen (entries (jrnl sr)))) with (length (entries (jrnl sr))) by (unfold zlen; lia).
  rewrite drop_app_length, take_app_length, Ht.
  assert (Hle : zlen (entries (jrnl sr)) <= zlen (entries (jrnl sr) ++ es)) by (unfold zlen; rewrite length_app; lia).
  rewrite (proj2 (Z.leb_le 0 _)), (proj2 (Z.leb_le _ _) Hle) by (unfold zlen; lia).
  bind_simpl. unfold dirties_ok in Hd. rewrite E in Hd. rewrite <- (reverse_involutive es) in Hd.
  destruct (revert_log _ _ _ _ Ht Hd) as (_ & Hv' & Hn' & Hc). eexists. split; [reflexivity|]. pose proof HR as (Hwt & _).
  split_and!; simpl; try done.
  - eapply R_trans; [|exact HR]. apply R_sym, R_rest; [done|by split|done].
  - rewrite Hv. by rewrite take_app_length.
Qed.

(** *** Nested snapshots *)

(** The snapshots taken since [base]: each with the state it was taken in. *)
Inductive frames (base : StateDB T) : list revision -> StateDB T -> Prop :=
| frames_base s es : step base s es -> frames base [] s
| frames_push revs sr s es :
    frames base revs sr -> step (take_snapshot sr).2 s es ->
    frames base (revs ++ [MkRevision (nextRevisionId sr) (zlen (entries (jrnl sr)))]) s.

Lemma ascending_snoc revs r :
  ascending revs -> Forall (fun x => rev_id x < rev_id r) revs -> ascending (revs ++ [r]).
Proof.
  intros Hasc Hlt i j x y Hij Hx Hy. pose proof (lookup_lt_Some _ _ _ Hy) as Hj. rewrite length_app in Hj. simpl in Hj.
  rewrite lookup_app_l in Hx by lia. destruct (decide (j < length revs)%nat).
  - rewrite lookup_app_l in Hy by done. exact (Hasc i j x y Hij Hx Hy).
  - rewrite lookup_app_r in Hy by lia. replace (j - length revs)%nat with O in Hy by lia. injection Hy as <-.
    rewrite Forall_lookup in Hlt. eauto.
Qed.

Lemma snapshot_revs s : revs_ok s -> revs_ok (take_snapshot s).2.
Proof.
  intros [Hasc Hlt]. split; simpl; [by apply ascending_snoc|]. apply Forall_app. split; [|constructor; [simpl; lia|done]].
  eapply Forall_impl; [exact Hlt|]. intros r. simpl. lia.
Qed.

Lemma step_revs s s1 es : step s s1 es -> revs_ok s -> revs_ok s1.
Proof.
  intros [_ _ Hv Hn _] [Hasc Hlt]. split; rewrite Hv; [done|]. eapply Forall_impl; [exact Hlt|]. intros r. simpl. lia.
Qed.

Definition valid s : Prop := wf s /\ dirties_ok s /\ revs_ok s.

Lemma frames_valid base revs s :
  valid base -> frames base revs s ->
  valid s /\ validRevisions s = validRevisions base ++ revs /\ nextRevisionId base <= nextRevisionId s.
Proof.
  intros (Hw & Hd & Hr). induction 1 as [s es Hst|revs sr s es _ [(Hwr & Hdr & Hrr) [Hv Hn]] Hst].
  - pose proof (step_revs _ _ _ Hst Hr). destruct Hst as [_ Hws Hvs Hns Hds]. rewrite app_nil_r. split; [|done]. split; [done|]. by split; [apply Hds|].
  - pose proof (step_revs _ _ _ Hst (snapshot_revs _ Hrr)). destruct Hst as [_ Hws Hvs Hns Hds]. simpl in *.
    split; [split; [done|]; by split; [apply Hds|]|]. split; [by rewrite Hvs, Hv, app_assoc|lia].
Qed.

Lemma snapshot_R s : wf s -> R s (take_snapshot s).2.
Proof. intros Hw. by apply R_rest; [|split|]. Qed.

Lemma frames_undo base revs s : valid base -> frames base revs s -> exists es, undoes base s es.
Proof.
  intros Hb. induction 1 as [s es Hst|revs sr s es Hf [es' IH] Hst]; [exists es; apply Hst|].
  destruct (frames_valid _ _ _ Hb Hf) as ((Hw & _) & _). eexists. eapply undoes_trans; [exact IH|].
  eapply undoes_trans; [apply undoes_read; [by apply snapshot_R|done]|apply Hst].
Qed.

Lemma frames_split base pre r post s :
  valid base -> frames base (pre ++ r :: post) s ->
  exists sr es, frames base pre sr /\ r = MkRevision (nextRevisionId sr) (zlen (entries (jrnl sr))) /\ undoes sr s es /\
    nextRevisionId sr <= nextRevisionId s.
Proof.
  intros Hb Hf. remember (pre ++ r :: post) as revs eqn:E. revert post E.
  induction Hf as [s es Hst|revs sr s es Hf IH Hst]; intros post E; [by destruct pre|].
  destruct (frames_valid _ _ _ Hb Hf) as ((Hw & _) & _). pose proof (st_next _ _ _ Hst) as Hn. simpl in Hn.
  assert (Hsr : undoes sr s ([] ++ es)) by (eapply undoes_trans; [apply undoes_read; [by apply snapshot_R|done]|apply Hst]).
  destruct post as [|x post _] using rev_ind.
  - apply app_inj_tail in E as [<- <-]. exists sr, ([] ++ es). split_and!; [done..|lia].
  - rewrite app_comm_cons, app_assoc in E. apply app_inj_tail in E as [-> _].
    destruct (IH post eq_refl) as (sr' & es' & Hf' & Hr' & Hu' & Hn'). exists sr', (es' ++ ([] ++ es)).
    split_and!; [done..|by eapply undoes_trans|lia].
Qed.

Lemma step_shift s s1 s2 es :
  step s s1 es -> R s2 s1 -> entries (jrnl s2) = entries (jrnl s1) -> dirties_ok s2 -> validRevisions s2 = validRevisions s1 ->
  nextRevisionId s1 <= nextRevisionId s2 -> step s s2 es.
Proof.
  intros [] HR He Hd Hv Hn. pose proof HR as (? & _). split; try done; [|congruence|lia]. eapply undoes_shift; [done|by apply R_sym|done].
Qed.

Lemma frames_shift base revs s s' :
  frames base revs s -> R s' s -> entries (jrnl s') = entries (jrnl s) -> dirties_ok s' -> validRevisions s' = validRevisions s ->
  nextRevisionId s <= nextRevisionId s' -> frames base revs s'.
Proof.
  intros [? es Hst|? sr ? es Hf Hst] HR He Hd Hv Hn; [eapply frames_base|eapply frames_push; [exact Hf|]]; by eapply step_shift.
Qed.

Lemma frames_step base revs s s1 es : frames base revs s -> step s s1 es -> frames base revs s1.
Proof.
  intros [? es' Hst|? sr ? es' Hf Hst] Hst1; [eapply frames_base|eapply frames_push; [exact Hf|]]; by eapply step_trans.
Qed.

Lemma exec_op_frames base revs s (o : op) s1 :
  valid base -> frames base revs s -> op_ok (nextRevisionId base - 1) o -> exec_op o s = Ok s1 ->
  (forall r, r ∈ validRevisions base -> rev_id r <= nextRevisionId base - 1) -> exists revs1, frames base revs1 s1.
Proof.
  intros Hb Hf Hok Hrun Hlow. destruct (frames_valid _ _ _ Hb Hf) as ((Hw & Hd & Hr) & Hv & Hn).
  destruct o; try (destruct (exec_op_step _ _ _ _ Hw Hok I Hrun) as [es Hst]; exists revs; by eapply frames_step).
  - injection Hrun as <-. eexists. eapply frames_push; [exact Hf|]. apply step_read; [|done]. apply R_refl. by apply snapshot_R.
  - simpl in Hok, Hrun.
    assert (Hin : exists r, r ∈ validRevisions s /\ rev_id r = id).
    { unfold RevertToSnapshot in Hrun. destruct (validRevisions s !! _) as [r|] eqn:Hl; [|done].
      destruct (Z.eqb_spec (rev_id r) id); [|done]. exists r. split; [by eapply list_elem_of_lookup_2|done]. }
    destruct Hin as (r & Hin & <-). rewrite Hv in Hin. apply elem_of_app in Hin as [Hin|Hin]; [specialize (Hlow r Hin); lia|].
    apply list_elem_of_split in Hin as (pre & post & ->).
    destruct (frames_split _ _ _ _ _ Hb Hf) as (sr & es & Hfr & -> & Hu & Hnr).
    destruct (frames_valid _ _ _ Hb Hfr) as (_ & Hvr & _). rewrite app_assoc in Hv.
    destruct (revert_to s sr es _ _ _ Hv Hr eq_refl Hd Hu) as (t & Ht & HRt & Het & Hdt & Hvt & Hnt).
    simpl in Ht, Hrun. rewrite Ht in Hrun. injection Hrun as ->. exists pre. eapply frames_shift; try done; [congruence|lia].
Qed.

Lemma exec_frames base revs s (os : list op) s1 :
  valid base -> frames base revs s -> Forall (op_ok (nextRevisionId base - 1)) os -> exec os s = Ok s1 ->
  (forall r, r ∈ validRevisions base -> rev_id r <= nextRevisionId base - 1) -> exists revs1, frames base revs1 s1.
Proof.
  intros Hb Hf Hok Hrun Hlow. revert revs s Hf Hrun. induction os as [|o os IH]; intros revs s Hf; simpl; [intros [= <-]; by exists revs|].
  apply Forall_cons in Hok as [Ho Hos]. destruct (exec_op o s) as [s2| |] eqn:Hs2; [|done..]. bind_simpl.
  destruct (exec_op_frames _ _ _ _ _ Hb Hf Ho Hs2 Hlow) as [revs2 Hf2]. by eapply IH.
Qed.

(** The revert to a snapshot of which [base] is the state. *)
Lemma revert_frames s revs s2 :
  valid s -> frames (take_snapshot s).2 revs s2 ->
  exists t, RevertToSnapshot s2 (take_snapshot s).1 = Ok t /\ R t s /\ entries (jrnl t) = entries (jrnl s) /\ dirties_ok t /\
    validRevisions t = validRevisions s /\ nextRevisionId s <= nextRevisionId t /\ valid t.
Proof.
  intros (Hw & Hd & Hr) Hf. set (base := (take_snapshot s).2) in *.
  assert (Hwb : wf base) by (by apply snapshot_R). assert (Hb : valid base) by (split_and!; [done|done|by apply snapshot_revs]).
  destruct (frames_valid _ _ _ Hb Hf) as ((Hw2 & Hd2 & Hr2) & Hv2 & Hn2). destruct (frames_undo _ _ _ Hb Hf) as [es Hu].
  simpl in Hv2, Hn2. rewrite <- app_assoc in Hv2. simpl in Hv2.
  assert (Hus : undoes s s2 ([] ++ es)) by (eapply undoes_trans; [apply undoes_read; [by apply snapshot_R|done]|exact Hu]).
  destruct (revert_to _ _ _ _ _ _ Hv2 Hr2 eq_refl Hd2 Hus) as (t & Ht & HR & He & Hdt & Hvt & Hnt). exists t. split; [exact Ht|].
  pose proof HR as (Hwt & _). split_and!; try done; [lia|]. split; [done|]. split; [done|].
  destruct Hr as [Hasc Hlt]. split; rewrite Hvt; [done|]. eapply Forall_impl; [exact Hlt|]. intros r. simpl in *. lia.
Qed.

Lemma snapshot_frames s : valid s -> frames (take_snapshot s).2 [] (take_snapshot s).2.
Proof. intros (Hw & _). eapply frames_base, step_read; [|done]. by apply R_refl, snapshot_R. Qed.

(** C5. A state comes back: whatever sequence of reads, changes, nested
    snapshots and reverts follows [Snapshot], [RevertToSnapshot] to its
    identifier succeeds, and the state that results returns the same accounts,
    code, storage, logs, preimages and refund as the one the snapshot was taken
    in, with the same journal, the same dirty accounts (but for ripemd) and the
    same earlier snapshots.  Accounts are compared at the addresses in use, any
    set of addresses that the operations name; with a snapshot tree, which is
    keyed by the hashes of the addresses, these hashes are distinct. *)
Theorem RevertToSnapshot_exact s os s2 :
  valid s -> Forall (op_ok (take_snapshot s).1) os -> exec os (take_snapshot s).2 = Ok s2 ->
  exists t, RevertToSnapshot s2 (take_snapshot s).1 = Ok t /\ eqv t s /\ valid t /\
    entries (jrnl t) = entries (jrnl s) /\ validRevisions t = validRevisions s /\
    forall a, a <> ripemd -> dirties (jrnl t) !! a = dirties (jrnl s) !! a.
Proof.
  intros Hval Hos Hrun. pose proof Hval as (Hw & Hd & Hr). set (base := (take_snapshot s).2) in *.
  assert (Hb : valid base) by (split_and!; [by apply snapshot_R|done|by apply snapshot_revs]).
  assert (Hid : nextRevisionId base - 1 = (take_snapshot s).1) by (simpl; lia).
  destruct (exec_frames base [] base os s2 Hb (snapshot_frames s Hval)) as [revs Hf]; [by rewrite Hid|done| |].
  { intros r Hin. destruct (snapshot_revs _ Hr) as [_ Hlt]. rewrite Forall_forall in Hlt. specialize (Hlt r Hin). simpl in *. lia. }
  destruct (revert_frames s revs s2 Hval Hf) as (t & Ht & (_ & _ & Heqv) & He & Hdt & Hvt & _ & Hvalt). exists t.
  split_and!; try done. intros a Ha. rewrite (Hdt a Ha), (Hd a Ha). by rewrite He.
Qed.

End views.

(** ** A state over a map *)

Module MapState.

Definition toy_keccak (b : list Z) : list Z :=
  if decide (zlen b = 20 /\ bytes_ok b) then replicate 12 0 ++ b else replicate 32 0.

Lemma toy_keccak_len b : zlen (toy_keccak b) = 32.
Proof. unfold toy_keccak. case_decide as H; [|done]. rewrite zlen_app. by destruct H as [-> _]. Qed.

Lemma toy_keccak_bytes b : bytes_ok (toy_keccak b).
Proof.
  unfold toy_keccak. case_decide as H; [apply Forall_app; split; [|apply H]|]; apply Forall_replicate; unfold is_byte; lia.
Qed.

#[local] Instance toy : Keccak := { keccak256 := toy_keccak; keccak_len := toy_keccak_len; keccak_bytes := toy_keccak_bytes }.

Abbreviation store := (gmap (list Z) (list Z)).

#[local] Instance map_trie : TrieOps store := {
  t_TryGet t k := (Ok (default [] (t !! k)), t);
  t_TryUpdate t k v := (Ok tt, <[k := v]> t);
  t_TryDelete t k := (Ok tt, base.delete k t);
  t_Hash t := Ok (replicate 32 0, t);
}.
#[local] Instance map_database : StateDatabase store := {
  OpenTrie _ := Ok ∅;
  OpenStorageTrie _ _ := Ok ∅;
  ContractCode _ _ := None;
  ContractCodeSize _ _ := None;
}.
#[local] Instance map_reads : TrieReads store.
Proof. split; [done|done| |done]. intros h. by exists ∅. Qed.

Definition alice : addr_t := replicate 20 1.
Definition bob : addr_t := replicate 20 2.
Definition account_rlp : list Z := [248; 68; 1; 5; 160] ++ replicate 32 7 ++ [160] ++ replicate 32 9.

(** A state with one stored account and an older revision, on a trie or on a
    snapshot of the trie that has no data yet. *)
Definition started (snapped : bool) : StateDB store :=
  MkStateDB {[ alice := account_rlp ]} (if snapped then Some (MkSnapshot (fun _ => None) (fun _ _ => None)) else None)
    ∅ ∅ ∅ ∅ ∅ ∅ None 0 zero_hash zero_hash 0 ∅ 0 ∅ newJournal [MkRevision 3 0] 4.
Definition start : StateDB store := started false.

Definition program : list op :=
  [OAddBalance bob 7; OSetState alice (replicate 32 1) (replicate 32 2); OAddLog (MkLogBody alice [] [1; 2] 9); OSnapshot; OSetCode bob (Some [96]);
   OSuicide alice; OAddRefund 3; OSnapshot; OAddLog (MkLogBody bob [] [3] 9); ORevertToSnapshot 5; OCreateAccount alice; OSetNonce bob 1;
   OGetState alice (replicate 32 1); OAddPreimage (replicate 32 5) [6]].

Lemma started_valid {IU : Addresses} b : (b = true -> forall a a', in_use a -> in_use a' -> keccak256 a = keccak256 a' -> a = a') -> valid (started b).
Proof.
  intros Hsn. split_and!.
  - split; try done; [|intros Hs; by destruct b; [apply Hsn|]]. intros a d. replace (account_of (started b) a) with (account_of start a) by (by destruct b).
    unfold account_of. simpl. destruct (decide (a = alice)) as [->|Hne].
    + rewrite lookup_singleton_eq. vm_compute. by intros [= <-].
    + by rewrite lookup_singleton_ne.
  - intros a _. done.
  - split; simpl; [|constructor; [simpl; lia|done]]. intros [|i] [|j] r r' Hij; simpl; try done; lia.
Qed.
Lemma start_valid {IU : Addresses} : valid start.
Proof. by apply started_valid. Qed.

Definition outcome_or {A} (d : A) (r : go A) : A := match r with Ok a => a | _ => d end.

#[local] Instance two_addresses : Addresses := fun a => a ∈ [alice; bob].

(** The hypotheses of the theorem hold for a state with a stored account and a
    snapshot, and a program with two nested revisions; the hashes of the two
    addresses differ. *)
Lemma RevertToSnapshot_exact_witness :
  exists s2 t, exec program (take_snapshot (started true)).2 = Ok s2 /\ RevertToSnapshot s2 4 = Ok t /\ eqv t (started true) /\
    (exists o, stateObjects s2 !! alice = Some o /\ Balance (data o) = 5) /\ validRevisions t = [MkRevision 3 0].
Proof.
  set (s2 := outcome_or start (exec program (take_snapshot (started true)).2)).
  assert (Hrun : exec program (take_snapshot (started true)).2 = Ok s2) by (vm_compute; reflexivity).
  destruct (RevertToSnapshot_exact (started true) program s2) as (t & Ht & Heqv & _ & _ & Hv & _).
  - apply started_valid. intros _ a b Ha Hb He. unfold in_use, two_addresses in Ha, Hb. rewrite elem_of_cons, list_elem_of_singleton in Ha, Hb.
    destruct Ha as [->| ->], Hb as [->| ->]; [reflexivity|vm_compute in He; discriminate He..|reflexivity].
  - assert (Ha : in_use alice) by by left. assert (Hb : in_use bob) by by right; left.
    repeat (apply Forall_cons; split); [..|done]; first [exact Ha|exact Hb|exact I|reflexivity|split; [exact Hb|intros ? [= <-]; reflexivity]].
  - exact Hrun.
  - exists s2, t. split; [exact Hrun|]. split; [exact Ht|]. split; [exact Heqv|]. split; [|exact Hv].
    eexists. split; vm_compute; reflexivity.
Defined.
End MapState.
