(* ===== verification/StateRoot.v ===== *)
(** * The root of the state (src/core/state)

    [IntermediateRoot] writes the changed slots of accounts into their storage
    tries and the changed accounts into the account trie, in whatever order Go
    visits its maps, and returns the root of the account trie.  The tries are
    used through an interface that says what they store. *)
From stdpp Require Import prelude list gmap.
From Stdlib Require Import ZArith Lia.
From S2P Require Import Prelude RlpEncode RlpRaw RlpStream TrieEncoding Trie TrieNode TrieHash StateDB StateRevert.

(** [common.TrimLeftZeroes] *)
Fixpoint TrimLeftZeroes (s : list Z) : list Z :=
  match s with x :: s' => if x =? 0 then TrimLeftZeroes s' else s | [] => [] end.

(** [rlp.EncodeToBytes] with a buffer of the pool. *)
Definition encode_item (v : item) : rlp (list Z) := EncodeToBytes v new_encbuf.

(** The encoding of a slot. *)
Definition slot_rlp (value : hash_t) : list Z := match encode_item (IBytes (TrimLeftZeroes value)) with Ok b => b | _ => [] end.

Definition account_item (d : Account) : item := IList [IUint (Nonce d); IBigInt (Balance d); IByteArray (Root d); IBytes (CodeHash d)].

(** [snapshot.SlimAccount] *)
Definition SlimAccount {K : Keccak} (nonce balance : Z) (root codehash : list Z) : item :=
  IList [IUint nonce; IBigInt balance; IBytes (if decide (root = emptyRoot) then [] else root);
         IBytes (if decide (codehash = keccak256 []) then [] else codehash)].
Definition SlimAccountRLP {K : Keccak} (nonce balance : Z) (root codehash : list Z) : go (list Z) :=
  match encode_item (SlimAccount nonce balance root codehash) with Ok b => Ok b | _ => Panic end.


(** [snapshot.FullAccount]; [None] is a decoding error. *)
Definition snap_account_ty : ty := TStruct [TUint 64; TBigInt; TBytes; TBytes] None.
Definition FullAccount {K : Keccak} (data : list Z) : option Account :=
  match DecodeBytes (S (length data)) idle_stream data snap_account_ty with
  | Some (Ok (IList [IUint n; IBigInt b; IBytes r; IBytes c])) =>
      Some (MkAccount n b (if zlen r =? 0 then emptyRoot else r) (if zlen c =? 0 then keccak256 [] else c))
  | _ => None
  end.

Section root.
Context {K : Keccak} {T : Type} {TO : TrieOps T} {SD : StateDatabase T} {MO : MapOrder}.
Implicit Types (o : stateObject T) (s : StateDB T).

(** *** Storage tries (state_object.go) *)

(** [setError] with the error that a trie returned, if any. *)
Definition trie_result o (r : tr unit) : go (stateObject T) :=
  match r with Ok _ => Ok o | Err _ => Ok (setError o ErrTrie) | Panic => Panic end.

(** The body of the loop over the pending slots. *)
Definition write_slot s o (key : hash_t) : go (StateDB T * stateObject T) :=
  let value := default zero_hash (pendingStorage o !! key) in
  if decide (value = default zero_hash (originStorage o !! key)) then Ok (s, o)
  else
    let o := set_storage o (<[key := value]> (originStorage o)) (pendingStorage o) (dirtyStorage o) in
    match obj_trie o with
    | None => Panic
    | Some t =>
        let v := if decide (value = zero_hash) then [] else slot_rlp value in
        let '(r, t) := if decide (value = zero_hash) then t_TryDelete t key else t_TryUpdate t key v in
        o ← trie_result (set_trie o (Some t)) r;
        let s := match snap s with
                 | Some _ => with_snap_data s (snapAccounts s)
                               (<[addrHash o := <[keccak256 key := v]> (default ∅ (snapStorage s !! addrHash o))]> (snapStorage s))
                 | None => s
                 end in
        Ok (s, o)
    end.

Fixpoint write_slots (keys : list hash_t) s o : go (StateDB T * stateObject T) :=
  match keys with
  | [] => Ok (s, o)
  | key :: keys => '(s, o) ← write_slot s o key; write_slots keys s o
  end.

(** The trie, or nil when it was not opened and nothing changed. *)
Definition updateTrie s o : go (StateDB T * stateObject T) :=
  let o := obj_finalise o in
  if decide (pendingStorage o = ∅) then Ok (s, o)
  else
    let s := match snap s with
             | Some _ => with_snap_data s (snapAccounts s) (<[addrHash o := default ∅ (snapStorage s !! addrHash o)]> (snapStorage s))
             | None => s
             end in
    '(_, o) ← getTrie o;
    '(s, o) ← write_slots (map_order (pendingStorage o)) s o;
    Ok (s, set_storage o (originStorage o) ∅ (dirtyStorage o)).

Definition updateRoot s o : go (StateDB T * stateObject T) :=
  '(s, o) ← updateTrie s o;
  match obj_trie o with
  | None => Ok (s, o)
  | Some t =>
      '(h, t) ← t_Hash t;
      Ok (s, set_data (set_trie o (Some t)) (MkAccount (Nonce (data o)) (Balance (data o)) h (CodeHash (data o))))
  end.

(** *** The account trie (statedb.go) *)

Definition sdb_trie_result s (r : tr unit) : go (StateDB T) :=
  match r with Ok _ => Ok s | Err _ => Ok (sdb_setError s ErrTrie) | Panic => Panic end.

Definition updateStateObject s o : go (StateDB T) :=
  match encode_item (account_item (data o)) with
  | Ok enc =>
      let '(r, t) := t_TryUpdate (trie s) (address o) enc in
      s ← sdb_trie_result (with_trie s t (dbErr s)) r;
      match snap s with
      | Some _ =>
          slim ← SlimAccountRLP (Nonce (data o)) (Balance (data o)) (Root (data o)) (CodeHash (data o));
          Ok (with_snap_data s (<[addrHash o := slim]> (snapAccounts s)) (snapStorage s))
      | None => Ok s
      end
  | _ => Panic
  end.

Definition deleteStateObject s o : go (StateDB T) :=
  let '(r, t) := t_TryDelete (trie s) (address o) in
  sdb_trie_result (with_trie s t (dbErr s)) r.

(** The body of the loop over the pending accounts. *)
Definition write_account s (addr : addr_t) : go (StateDB T) :=
  match stateObjects s !! addr with
  | None => Panic
  | Some o =>
      if deleted o then deleteStateObject s o
      else '(s, o) ← updateRoot s o; updateStateObject (with_objects s (<[addr := o]> (stateObjects s))) o
  end.

Fixpoint write_accounts (addrs : list addr_t) s : go (StateDB T) :=
  match addrs with
  | [] => Ok s
  | addr :: addrs => s ← write_account s addr; write_accounts addrs s
  end.

Definition IntermediateRoot s (deleteEmptyObjects : bool) : go (hash_t * StateDB T) :=
  let s := Finalise s deleteEmptyObjects in
  s ← write_accounts (map_order (gset_to_gmap tt (stateObjectsPending s))) s;
  let s := with_marks s ∅ (stateObjectsDirty s) in
  '(h, t) ← t_Hash (trie s);
  Ok (h, with_trie s t (dbErr s)).
End root.

(** ** The encodings *)

Definition is_hash (h : list Z) : Prop := zlen h = 32 /\ bytes_ok h.

(** Accounts that exist: a 64-bit nonce, a balance of at most 256 bits. *)
Definition account_ok (d : Account) : Prop :=
  is_u64 (Nonce d) /\ 0 <= Balance d < 2 ^ 256 /\ is_hash (Root d) /\ is_hash (CodeHash d).

(** Values that a trie stores. *)
Definition is_value (v : list Z) : Prop := v <> [] /\ bytes_ok v /\ zlen v < 2 ^ 47.

Definition account_rlp (d : Account) : list Z := rlp_spec (account_item d).

Lemma zlen_string_bound b : zlen b < 2 ^ 40 -> zlen b <= zlen (string_spec b) <= zlen b + 9.
Proof.
  intros Hb. split; [apply zlen_string_spec|]. pose proof (zlen_nonneg b).
  assert (H9 : zlen (head_spec 0x80 0xB7 (zlen b) ++ b) <= zlen b + 9).
  { rewrite zlen_app, zlen_head_spec by (unfold is_u64; lia). unfold headsize.
    destruct (_ <? _); [lia|]. destruct (intsize_spec (zlen b)) as [? _]; [unfold is_u64; lia|]. lia. }
  unfold string_spec. destruct b as [|x [|y b]]; try exact H9. destruct (x <? 128); [|exact H9]. rewrite zlen_cons. lia.
Qed.

Lemma zlen_list_bound p : zlen p < 2 ^ 40 -> zlen p < zlen (list_spec p) <= zlen p + 9.
Proof.
  intros Hp. pose proof (zlen_nonneg p). unfold list_spec. rewrite zlen_app, zlen_head_spec by (unfold is_u64; lia).
  unfold headsize. destruct (_ <? _); [lia|]. destruct (intsize_spec (zlen p)) as [? _]; [unfold is_u64; lia|]. lia.
Qed.

Lemma zlen_int_le i n : 0 <= i < 256 ^ n -> 0 <= n -> zlen (int_spec i) <= n.
Proof.
  intros Hi Hn. unfold int_spec. rewrite zlen_be_bytes. destruct (decide (i = 0)) as [->|H0]; [done|].
  destruct (bit_len_bounds i) as [Hp [Hlo _]]; [lia|]. rewrite Z2Nat.id by lia.
  destruct (decide ((bit_len i + 7) / 8 <= n)) as [|Hgt]; [done|]. exfalso.
  pose proof (Z.pow_le_mono_r 256 n ((bit_len i + 7) / 8 - 1)). lia.
Qed.

Lemma account_item_ok d : account_ok d -> item_ok (account_item d) /\ nonneg_ints (account_item d) = true.
Proof.
  intros (Hn & Hb & [_ Hr] & [_ Hc]). split; [|simpl; destruct (Z.leb_spec 0 (Balance d)); lia || done].
  simpl. repeat (apply Forall_cons; split; [done|]). constructor.
Qed.

Lemma zlen_account_fields n b r c :
  is_u64 n -> 0 <= b < 2 ^ 256 -> zlen r <= 32 -> zlen c <= 32 ->
  0 < zlen (list_spec (string_spec (int_spec n) ++ string_spec (int_spec b) ++ string_spec r ++ string_spec c ++ [])) < 2 ^ 40.
Proof.
  intros Hn Hb Hr Hc. pose proof (zlen_int_le n 8 Hn ltac:(lia)) as Hn8. pose proof (zlen_int_le b 32 Hb ltac:(lia)) as Hb32.
  pose proof (zlen_string_bound (int_spec n) ltac:(lia)). pose proof (zlen_string_bound (int_spec b) ltac:(lia)).
  pose proof (zlen_string_bound r ltac:(lia)). pose proof (zlen_string_bound c ltac:(lia)).
  pose proof (zlen_nonneg (int_spec n)). pose proof (zlen_nonneg (int_spec b)). pose proof (zlen_nonneg r). pose proof (zlen_nonneg c).
  match goal with |- context [list_spec ?p] => pose proof (zlen_list_bound p) as Hl end.
  rewrite !zlen_app in Hl. change (zlen []) with 0 in Hl. lia.
Qed.

Lemma zlen_account_rlp d : account_ok d -> 0 < zlen (account_rlp d) < 2 ^ 40.
Proof. intros (Hn & Hb & [Hr _] & [Hc _]). by apply zlen_account_fields; try done; lia. Qed.

Lemma encode_account d : account_ok d -> encode_item (account_item d) = Ok (account_rlp d) /\ is_value (account_rlp d).
Proof.
  intros Hd. destruct (account_item_ok d Hd) as [Hok Hnn]. pose proof (zlen_account_rlp d Hd) as Hz. split.
  - unfold encode_item. rewrite EncodeToBytes_spec, Hnn by (done || unfold account_rlp in *; lia). done.
  - split_and!; [intros E; rewrite E in Hz; change (zlen []) with 0 in Hz; lia| |lia]. apply rlp_spec_ok; [done|]. unfold account_rlp in *. lia.
Qed.

(** An account that was written is read back. *)
Lemma decode_account_rlp d : account_ok d -> decode_account (account_rlp d) = Some d.
Proof.
  intros Hd. destruct (encode_account d Hd) as (_ & _ & Hb & Hz). unfold decode_account.
  destruct (DecodeBytes_spec (S (length (account_rlp d))) idle_stream (account_rlp d) account_ty)
    as (o & -> & _ & Ho); [done..|lia|].
  rewrite (proj2 (Ho (account_item d))); [by destruct d|]. split; [|done]. destruct Hd as (Hn & Hbal & [Hrl Hr] & [_ Hc]).
  eexists. split; [done|]. exists [IUint (Nonce d); IBigInt (Balance d); IByteArray (Root d); IBytes (CodeHash d)], [].
  split; [done|]. split; [|done]. unfold zlen in Hrl.
  repeat constructor; eexists; (split; [done|]); try done; [lia|split; [done|lia]].
Qed.

(** The slim encoding of the snapshots loses nothing. *)
Lemma slim_full {K : Keccak} d :
  account_ok d -> exists b, SlimAccountRLP (Nonce d) (Balance d) (Root d) (CodeHash d) = Ok b /\ FullAccount b = Some d.
Proof.
  intros (Hn & Hb & [Hrl Hr] & [Hcl Hc]). unfold SlimAccountRLP, SlimAccount.
  set (r := if decide (Root d = emptyRoot) then [] else Root d). set (c := if decide (CodeHash d = keccak256 []) then [] else CodeHash d).
  assert (Hrok : bytes_ok r /\ zlen r <= 32) by (unfold r; case_decide; split; done || lia).
  assert (Hcok : bytes_ok c /\ zlen c <= 32) by (unfold c; case_decide; split; done || lia).
  set (it := IList _). assert (Hty : has_type snap_account_ty it).
  { eexists. split; [done|]. eexists _, []. split; [by rewrite app_nil_r|]. split; [|done].
    repeat constructor; eexists; (split; [done|]); done || lia || apply Hrok || apply Hcok. }
  destruct (has_type_ok snap_account_ty it eq_refl Hty) as [Hok Hnn].
  pose proof (zlen_account_fields (Nonce d) (Balance d) r c Hn Hb (proj2 Hrok) (proj2 Hcok)) as Hz. change (list_spec _) with (rlp_spec it) in Hz.
  unfold encode_item. rewrite EncodeToBytes_spec, Hnn by (done || lia). exists (rlp_spec it). split; [done|]. unfold FullAccount.
  destruct (DecodeBytes_spec (S (length (rlp_spec it))) idle_stream (rlp_spec it) snap_account_ty) as (o & -> & _ & Ho);
    [done|by apply rlp_spec_ok; [|lia]|lia|lia|].
  rewrite (proj2 (Ho it)) by done. subst it r c. destruct d as [n b r c]. simpl in *.
  by destruct (decide (r = emptyRoot)) as [->|], (decide (c = keccak256 [])) as [->|]; simpl; rewrite ?Hrl, ?Hcl.
Qed.

Lemma TrimLeftZeroes_spec v : exists n, v = replicate n 0 ++ TrimLeftZeroes v.
Proof.
  induction v as [|x v [n IH]]; [by exists 0%nat|]. simpl. destruct (Z.eqb_spec x 0) as [->|].
  - exists (S n). simpl. by f_equal.
  - by exists 0%nat.
Qed.

Lemma BytesToHash_trim v : zlen v = 32 -> BytesToHash (TrimLeftZeroes v) = v.
Proof.
  intros Hv. destruct (TrimLeftZeroes_spec v) as [n Hn]. rewrite Hn, zlen_app, zlen_replicate in Hv.
  unfold BytesToHash. pose proof (zlen_nonneg (TrimLeftZeroes v)).
  destruct (zlen (TrimLeftZeroes v) >? 32) eqn:Hgt; [lia|]. rewrite Hn at 3. f_equal. f_equal. lia.
Qed.

Lemma TrimLeftZeroes_ok v : is_hash v -> bytes_ok (TrimLeftZeroes v) /\ zlen (TrimLeftZeroes v) <= 32.
Proof.
  intros [Hl Hb]. destruct (TrimLeftZeroes_spec v) as [n Hn]. rewrite Hn in Hb, Hl. apply Forall_app in Hb as [_ Hb].
  split; [done|]. rewrite zlen_app, zlen_replicate in Hl. lia.
Qed.

Lemma slot_rlp_eq v : is_hash v -> slot_rlp v = string_spec (TrimLeftZeroes v).
Proof.
  intros Hv. destruct (TrimLeftZeroes_ok v Hv) as [Hb Hl]. pose proof (zlen_string_bound (TrimLeftZeroes v) ltac:(lia)).
  unfold slot_rlp, encode_item. by rewrite EncodeToBytes_spec by (done || simpl; lia).
Qed.

Lemma slot_rlp_value v : is_hash v -> is_value (slot_rlp v).
Proof.
  intros Hv. destruct (TrimLeftZeroes_ok v Hv) as [Hb Hl]. pose proof (zlen_string_bound (TrimLeftZeroes v) ltac:(lia)).
  rewrite slot_rlp_eq by done. split_and!; [|apply string_spec_ok; [done|unfold is_u64; pose proof (zlen_nonneg (TrimLeftZeroes v)); lia]|lia].
  unfold string_spec. destruct (TrimLeftZeroes v) as [|x [|y l]]; [done|by destruct (x <? 128)|]. unfold head_spec. by destruct (_ <? _).
Qed.

(** A slot that was written is read back. *)
Lemma decode_slot_rlp v : is_hash v -> decode_slot (slot_rlp v) = (v, true).
Proof.
  intros Hv. destruct (slot_rlp_value v Hv) as (Hne & Hb & Hz). unfold decode_slot.
  assert (0 < zlen (slot_rlp v)) as Hp by (destruct (slot_rlp v); [done|rewrite zlen_cons; pose proof (zlen_nonneg l); lia]).
  rewrite (proj2 (Z.ltb_lt _ _) Hp). pose proof (slot_rlp_eq v Hv) as He.
  pose proof (Split_complete (string_kind (TrimLeftZeroes v)) (TrimLeftZeroes v) []) as Hs. rewrite app_nil_r in Hs.
  assert (Henc : enc (string_kind (TrimLeftZeroes v)) (TrimLeftZeroes v) = slot_rlp v).
  { rewrite He. unfold string_kind. destruct (TrimLeftZeroes v) as [|x [|y l]]; [done|by destruct (x <? 128)|done]. }
  rewrite Henc in Hs. rewrite Hs by (done || lia || by right). by rewrite BytesToHash_trim by apply Hv.
Qed.

(** ** What the tries promise *)

(** A trie stores a map: the operations succeed and act on the map, for the
    keys in use, and the hash is a function of the map. *)
Class TrieMap (T : Type) {TO : TrieOps T} (is_key : list Z -> Prop) := {
  holds : T -> gmap (list Z) (list Z) -> Prop;
  root_of : gmap (list Z) (list Z) -> hash_t;
  root_is_hash t m : holds t m -> is_hash (root_of m);
  holds_get t m k : holds t m -> is_key k -> exists t', t_TryGet t k = (Ok (default [] (m !! k)), t') /\ holds t' m;
  holds_update t m k v : holds t m -> is_key k -> is_value v -> exists t', t_TryUpdate t k v = (Ok tt, t') /\ holds t' (<[k := v]> m);
  holds_delete t m k : holds t m -> is_key k -> exists t', t_TryDelete t k = (Ok tt, t') /\ holds t' (base.delete k m);
  holds_hash t m : holds t m -> exists t', t_Hash t = Ok (root_of m, t') /\ holds t' m;
}.

(** ** Specification *)

(** A slot is stored unless it is zero. *)
Definition nonzero (v : hash_t) : option hash_t := if decide (v = zero_hash) then None else Some v.

Section spec.
Context {K : Keccak} {T : Type} {TO : TrieOps T} {SD : StateDatabase T} {MO : MapOrder} (is_key : list Z -> Prop) {TM : TrieMap T is_key}.
Implicit Types (o : stateObject T) (s : StateDB T) (σ : Storage).

(** The slots that an object has yet to write. *)
Definition unwritten o : Storage := dirtyStorage o ∪ pendingStorage o.

Definition slots_after o σ : Storage := omap nonzero (unwritten o ∪ σ).

Definition account_after o σ : Account :=
  MkAccount (Nonce (data o)) (Balance (data o)) (root_of (slot_rlp <$> slots_after o σ)) (CodeHash (data o)).

(** The accounts that are written at the end of a transaction. *)
Definition touched s (a : addr_t) : bool :=
  bool_decide (a ∈ stateObjectsPending s) || bool_decide (is_Some (dirties (jrnl s) !! a)) && bool_decide (is_Some (stateObjects s !! a)).

Definition gone (deleteEmptyObjects : bool) s (a : addr_t) o : bool :=
  deleted o || bool_decide (is_Some (dirties (jrnl s) !! a)) && (suicided o || deleteEmptyObjects && obj_empty o).

(** *** Objects that agree with the stored slots *)

Definition slots_ok σ : Prop := map_Forall (fun k v => is_key k /\ is_hash v /\ v <> zero_hash) σ.

Record storage_ok (origin writes : Storage) σ : Prop := {
  st_slots : slots_ok σ;
  st_cached k v : origin !! k = Some v -> v = default zero_hash (σ !! k);
  st_fresh k v : writes !! k = Some v -> origin !! k = None -> σ !! k = None;
  st_writes k v : writes !! k = Some v -> is_key k /\ is_hash v;
}.

(** The storage trie, opened or not, holds the slots. *)
Definition trie_holds o σ : Prop :=
  match obj_trie o with
  | Some t => holds t (slot_rlp <$> σ)
  | None =>
      Root (data o) = root_of (slot_rlp <$> σ) /\
      exists t, OpenStorageTrie (addrHash o) (Root (data o)) = Ok t /\ holds t (slot_rlp <$> σ)
  end.

Record obj_ready o σ : Prop := {
  or_account : account_ok (data o);
  or_trie : trie_holds o σ;
  or_storage : storage_ok (originStorage o) (unwritten o) σ;
}.

(** The live objects agree with the storage [S], and every object that is
    pending exists. *)
Record ready s (S : addr_t -> Storage) : Prop := {
  rd_addr a o : stateObjects s !! a = Some o -> address o = a /\ is_key a;
  rd_live a o : stateObjects s !! a = Some o -> deleted o = false -> obj_ready o (S a);
  rd_pending a : a ∈ stateObjectsPending s -> is_Some (stateObjects s !! a);
}.

(** ** Writing slots *)

Definition put σ (k : hash_t) (v : hash_t) : Storage := if decide (v = zero_hash) then base.delete k σ else <[k := v]> σ.

Lemma lookup_put σ k v k' : put σ k v !! k' = if decide (k = k') then nonzero v else σ !! k'.
Proof.
  unfold put, nonzero. repeat case_decide; subst; rewrite ?lookup_delete_eq, ?lookup_insert_eq, ?lookup_delete_ne, ?lookup_insert_ne; done.
Qed.

Lemma put_same σ k : slots_ok σ -> put σ k (default zero_hash (σ !! k)) = σ.
Proof.
  intros Hs. apply map_eq. intros k'. rewrite lookup_put. case_decide; subst; [|done]. unfold nonzero.
  destruct (σ !! k') as [v|] eqn:E; case_decide as Hd; try done. by destruct (Hs k' v E) as (_ & _ & []).
Qed.

Lemma fmap_put σ k v :
  slot_rlp <$> put σ k v = if decide (v = zero_hash) then base.delete k (slot_rlp <$> σ) else <[k := slot_rlp v]> (slot_rlp <$> σ).
Proof. unfold put. case_decide; [by rewrite fmap_delete|by rewrite fmap_insert]. Qed.

Lemma slots_ok_put σ k v : slots_ok σ -> is_key k -> is_hash v -> slots_ok (put σ k v).
Proof.
  intros Hs Hk Hv k' v'. rewrite lookup_put. case_decide; subst; [|apply Hs]. unfold nonzero. case_decide; [done|]. by intros [= <-].
Qed.

(** The write of a slot, as a change of the trie, the clean cache and the
    snapshot data. *)
Lemma write_slot_ok s o t σ key v :
  obj_trie o = Some t -> holds t (slot_rlp <$> σ) -> pendingStorage o !! key = Some v ->
  storage_ok (originStorage o) (pendingStorage o) σ ->
  exists t' origin st,
    write_slot s o key = Ok (with_snap_data s (snapAccounts s) st, set_storage (set_trie o (Some t')) origin (pendingStorage o) (dirtyStorage o)) /\
    holds t' (slot_rlp <$> put σ key v) /\ storage_ok origin (pendingStorage o) (put σ key v).
Proof.
  intros Ht Hh Hv Hok. destruct (st_writes _ _ _ Hok _ _ Hv) as [Hk Hhash]. unfold write_slot. rewrite Hv. change (default zero_hash (Some v)) with v.
  case_decide as Heq.
  - assert (Hsame : put σ key v = σ).
    { destruct (originStorage o !! key) as [w|] eqn:Ho; simpl in Heq; subst v.
      - rewrite (st_cached _ _ _ Hok _ _ Ho). apply put_same, Hok.
      - pose proof (st_fresh _ _ _ Hok _ _ Hv Ho) as Hn. rewrite <- (put_same σ key) at 2 by apply Hok. by rewrite Hn. }
    exists t, (originStorage o), (snapStorage s). rewrite Hsame. split_and!; [|done|done]. f_equal. f_equal; [by destruct s|]. rewrite <- Ht. by destruct o.
  - cbv zeta. change (obj_trie (set_storage _ _ _ _)) with (obj_trie o). rewrite Ht.
    assert (exists t', (if decide (v = zero_hash) then t_TryDelete t key else t_TryUpdate t key (if decide (v = zero_hash) then [] else slot_rlp v)) = (Ok tt, t') /\
      holds t' (slot_rlp <$> put σ key v)) as (t' & -> & Hh').
    { rewrite fmap_put. case_decide; [by apply holds_delete|]. apply holds_update; [done|done|by apply slot_rlp_value]. }
    simpl trie_result. bind_simpl.
    exists t', (<[key := v]> (originStorage o)). assert (Hs' : storage_ok (<[key := v]> (originStorage o)) (pendingStorage o) (put σ key v)).
    { split; [apply slots_ok_put; done || apply Hok| | |apply Hok].
      * intros k w. rewrite lookup_put. destruct (decide (key = k)) as [->|Hne].
        -- rewrite lookup_insert_eq. intros [= <-]. unfold nonzero. by case_decide.
        -- rewrite lookup_insert_ne by done. apply Hok.
      * intros k w Hw. rewrite lookup_put. destruct (decide (key = k)) as [->|Hne]; [by rewrite lookup_insert_eq|].
        rewrite lookup_insert_ne by done. by apply (st_fresh _ _ _ Hok k w). }
    destruct (snap s); [by eexists|]. exists (snapStorage s). split; [|done]. f_equal. f_equal. by destruct s.
Qed.

Lemma write_slots_ok keys s o t σ :
  obj_trie o = Some t -> holds t (slot_rlp <$> σ) -> storage_ok (originStorage o) (pendingStorage o) σ ->
  (forall k, k ∈ keys -> is_Some (pendingStorage o !! k)) ->
  exists t' origin st σ',
    write_slots keys s o = Ok (with_snap_data s (snapAccounts s) st, set_storage (set_trie o (Some t')) origin (pendingStorage o) (dirtyStorage o)) /\
    holds t' (slot_rlp <$> σ') /\ storage_ok origin (pendingStorage o) σ' /\
    forall k, σ' !! k = if decide (k ∈ keys) then pendingStorage o !! k ≫= nonzero else σ !! k.
Proof.
  revert s o t σ. induction keys as [|key keys IH]; intros s o t σ Ht Hh Hok Hkeys; cbn [write_slots].
  - exists t, (originStorage o), (snapStorage s), σ. split_and!; try done. rewrite <- Ht. by destruct s, o.
  - destruct (Hkeys key) as [v Hv]; [by left|].
    destruct (write_slot_ok s o t σ key v Ht Hh Hv Hok) as (t1 & origin & st & -> & Hh1 & Hok1). bind_simpl.
    match goal with |- context [write_slots keys ?s1 ?o1] => destruct (IH s1 o1 t1 (put σ key v)) as (t' & origin' & st' & σ' & -> & Hh' & Hok' & Hl); [done..| |] end.
    { intros k Hk. apply Hkeys. by right. }
    exists t', origin', st', σ'. split_and!; [done..|]. intros k. rewrite Hl, lookup_put. simpl.
    destruct (decide (k ∈ keys)); [by rewrite decide_True by (by right)|]. destruct (decide (key = k)) as [->|].
    + by rewrite decide_True, Hv by (by left).
    + by rewrite decide_False by (by intros [->|]%elem_of_cons).
Qed.

Lemma slots_after_lookup o σ k : slots_ok σ -> slots_after o σ !! k = match unwritten o !! k with Some v => nonzero v | None => σ !! k end.
Proof.
  intros Hs. unfold slots_after. rewrite lookup_omap, lookup_union. destruct (unwritten o !! k) as [v|], (σ !! k) as [w|] eqn:E; simpl; try done.
  unfold nonzero. rewrite decide_False; [done|]. by destruct (Hs k w E) as (_ & _ & ?).
Qed.

Lemma slots_after_clean o σ : slots_ok σ -> unwritten o = ∅ -> slots_after o σ = σ.
Proof. intros Hs He. apply map_eq. intros k. by rewrite slots_after_lookup, He, lookup_empty by done. Qed.

(** The object after its slots were written. *)
Record written o o' : Prop := {
  wr_address : address o' = address o;
  wr_fake : fakeStorage o' = fakeStorage o;
  wr_code : code o' = code o;
  wr_err : obj_dbErr o' = obj_dbErr o;
  wr_dirtyCode : dirtyCode o' = dirtyCode o;
  wr_suicided : suicided o' = suicided o;
  wr_deleted : deleted o' = deleted o;
  wr_clean : unwritten o' = ∅;
}.

Lemma storage_ok_clean origin writes σ : storage_ok origin writes σ -> storage_ok origin ∅ σ.
Proof. intros [? ? ? ?]. split; try done; intros k v; by rewrite lookup_empty. Qed.

Lemma updateTrie_ok s o σ :
  obj_ready o σ ->
  exists st o', updateTrie s o = Ok (with_snap_data s (snapAccounts s) st, o') /\ written o o' /\ data o' = data o /\
    trie_holds o' (slots_after o σ) /\ storage_ok (originStorage o') ∅ (slots_after o σ).
Proof.
  intros [Hacc Ht Hst]. unfold updateTrie. change (pendingStorage (obj_finalise o)) with (unwritten o). case_decide as He.
  - exists (snapStorage s), (obj_finalise o). rewrite slots_after_clean by (done || apply Hst). split_and!; try done.
    + by destruct s.
    + split; try done. unfold unwritten. simpl. fold (unwritten o). by rewrite He, (left_id_L ∅ (∪)).
    + by eapply storage_ok_clean.
  - set (s1 := match snap s with Some _ => _ | None => s end).
    assert (exists st, s1 = with_snap_data s (snapAccounts s) st) as [st1 ->].
    { unfold s1. destruct (snap s); [by eexists|]. exists (snapStorage s). by destruct s. }
    assert (exists t, getTrie (obj_finalise o) = Ok (t, set_trie (obj_finalise o) (Some t)) /\ holds t (slot_rlp <$> σ)) as (t & -> & Hh).
    { unfold getTrie, trie_holds in *. simpl. destruct (obj_trie o) as [t|] eqn:E; simpl.
      - exists t. split; [|done]. f_equal. f_equal. unfold obj_finalise, set_trie, set_storage. simpl. by rewrite E.
      - destruct Ht as [_ (t & Ht & Hh)]. exists t. change (addrHash (obj_finalise o)) with (addrHash o). by rewrite Ht. }
    bind_simpl. set (o1 := set_trie _ _).
    destruct (write_slots_ok (map_order (pendingStorage o1)) (with_snap_data s (snapAccounts s) st1) o1 t σ)
      as (t' & origin & st & σ' & -> & Hh' & Hok' & Hl); [done..| |].
    { intros k. apply map_order_elem. }
    assert (σ' = slots_after o σ) as ->.
    { apply map_eq. intros k. rewrite Hl, slots_after_lookup by apply Hst. change (pendingStorage o1) with (unwritten o).
      case_decide as Hk; rewrite map_order_elem in Hk; destruct (unwritten o !! k); try done; by destruct Hk. }
    bind_simpl. exists st. eexists. split_and!; [done| |done|done|by eapply storage_ok_clean].
    by split.
Qed.

Lemma updateRoot_ok s o σ :
  obj_ready o σ ->
  exists st o', updateRoot s o = Ok (with_snap_data s (snapAccounts s) st, o') /\ written o o' /\ data o' = account_after o σ /\
    obj_ready o' (slots_after o σ).
Proof.
  intros Ho. pose proof (or_account _ _ Ho) as (Hn & Hb & _ & Hc).
  destruct (updateTrie_ok s o σ Ho) as (st & o' & Hrun & Hw & Hd & Ht & Hs).
  assert (Hacc : account_ok (account_after o σ)).
  { refine (conj Hn (conj Hb (conj _ Hc))). unfold trie_holds in Ht.
    destruct (obj_trie o'); [by eapply root_is_hash|]. destruct Ht as [_ (t & _ & Ht)]. by eapply root_is_hash. }
  unfold updateRoot. rewrite Hrun. bind_simpl.
  unfold trie_holds in Ht. destruct (obj_trie o') as [t|] eqn:E.
  - destruct (holds_hash t _ Ht) as (t' & -> & Hh). bind_simpl. exists st. eexists. split; [done|]. rewrite Hd. split; [|split; [done|]].
    + destruct Hw. by split.
    + split; [done|done|]. pose proof (wr_clean _ _ Hw) as Hcl. change (unwritten _) with (unwritten o') . by rewrite Hcl.
  - exists st, o'. destruct Ht as [Hr Ht]. assert (Hd' : data o' = account_after o σ).
    { unfold account_after. rewrite <- Hr, Hd. by destruct (data o). }
    split_and!; try done. split; [by rewrite Hd'|unfold trie_holds; by rewrite E|]. by rewrite (wr_clean _ _ Hw).
Qed.

(** ** Writing accounts *)

(** What the account trie stores for an object. *)
Definition entry_after o σ : option (list Z) := if deleted o then None else Some (account_rlp (account_after o σ)).

(** The object after it was written: a deleted object stays as it is. *)
Definition settled_obj o σ o' : Prop :=
  if deleted o then o' = o else written o o' /\ data o' = account_after o σ /\ obj_ready o' (slots_after o σ).

(** The states differ at most in the trie, the objects and the snapshot data. *)
Record root_frame s s' : Prop := {
  f_snap : snap s' = snap s;
  f_destructs : snapDestructs s' = snapDestructs s;
  f_pending : stateObjectsPending s' = stateObjectsPending s;
  f_dirty : stateObjectsDirty s' = stateObjectsDirty s;
  f_err : dbErr s' = dbErr s;
}.

(** The snapshot records the accounts that are written. *)
Definition recorded s s' (a : addr_t) o σ : Prop :=
  if decide (snap s = None \/ deleted o = true) then snapAccounts s' = snapAccounts s
  else exists b, snapAccounts s' = <[keccak256 a := b]> (snapAccounts s) /\ FullAccount b = Some (account_after o σ).

Lemma write_account_ok s m a o σ :
  holds (trie s) m -> stateObjects s !! a = Some o -> address o = a -> is_key a -> (deleted o = false -> obj_ready o σ) ->
  exists s' o', write_account s a = Ok s' /\ root_frame s s' /\ holds (trie s') (partial_alter (fun _ => entry_after o σ) a m) /\
    stateObjects s' = <[a := o']> (stateObjects s) /\ settled_obj o σ o' /\ recorded s s' a o σ.
Proof.
  intros Hh Ho Ha Hk Hr. unfold write_account, entry_after, settled_obj, recorded. rewrite Ho. destruct (deleted o).
  - unfold deleteStateObject. rewrite Ha. destruct (holds_delete (trie s) m a Hh Hk) as (t & -> & Ht). eexists _, o.
    split; [done|]. split; [done|]. split; [done|]. rewrite insert_id by done. by rewrite decide_True by auto.
  - destruct (updateRoot_ok s o σ (Hr eq_refl)) as (st & o' & -> & Hw & Hd & Hor). bind_simpl. unfold updateStateObject.
    destruct (encode_account (data o') (or_account _ _ Hor)) as [-> Hv]. simpl trie. rewrite (wr_address _ _ Hw), Ha.
    destruct (holds_update (trie s) m a _ Hh Hk Hv) as (t & -> & Ht). cbn [sdb_trie_result]. bind_simpl.
    change (snap (with_trie _ _ _)) with (snap s). rewrite Hd in Ht.
    destruct (snap s) eqn:Es; bind_simpl.
    + destruct (slim_full (data o') (or_account _ _ Hor)) as (b & -> & Hb). bind_simpl. eexists _, o'. split; [done|].
      split; [by split|]. split; [done|]. split; [done|]. split; [done|]. rewrite decide_False by naive_solver.
      exists b. unfold addrHash. rewrite (wr_address _ _ Hw), Ha. by rewrite <- Hd.
    + eexists _, o'. split; [done|]. split; [by split|]. do 3 (split; [done|]). by rewrite decide_True by auto.
Qed.

Lemma root_frame_trans s1 s2 s3 : root_frame s1 s2 -> root_frame s2 s3 -> root_frame s1 s3.
Proof. intros [] []. split; congruence. Qed.

(** No two live objects have the same address hash. *)
Definition hashes_apart s : Prop :=
  forall a b, is_Some (stateObjects s !! a) -> is_Some (stateObjects s !! b) -> keccak256 a = keccak256 b -> a = b.

Definition recorded_all s s' (l : list addr_t) (S : addr_t -> Storage) : Prop :=
  (forall h, (forall a, a ∈ l -> keccak256 a <> h) -> snapAccounts s' !! h = snapAccounts s !! h) /\
  forall a o, a ∈ l -> stateObjects s !! a = Some o -> snap s <> None -> deleted o = false -> hashes_apart s ->
    exists b, snapAccounts s' !! keccak256 a = Some b /\ FullAccount b = Some (account_after o (S a)).

Lemma recorded_all_cons s s1 s' a o o1 l S :
  a ∉ l -> (forall b, b ∈ l -> is_Some (stateObjects s !! b)) -> stateObjects s !! a = Some o -> snap s1 = snap s ->
  stateObjects s1 = <[a := o1]> (stateObjects s) -> recorded s s1 a o (S a) -> recorded_all s1 s' l S -> recorded_all s s' (a :: l) S.
Proof.
  intros Hna Hl Ho Hsn Hobj Hrec [Hout Hin]. unfold recorded in Hrec. split.
  - intros h Hh. rewrite Hout by (intros b Hb; apply Hh; by right). case_decide; [by rewrite Hrec|].
    destruct Hrec as (b & -> & _). apply lookup_insert_ne, Hh. by left.
  - intros b ob [->|Hb]%elem_of_cons Hob Hs Hd Hap.
    + rewrite Ho in Hob. injection Hob as <-. rewrite decide_False in Hrec by (intros [|]; congruence).
      destruct Hrec as (x & Hx & Hfull). exists x. split; [|done]. rewrite Hout, Hx; [by apply lookup_insert_eq|].
      intros c Hc He. apply Hap in He; [by subst|by apply Hl|by eexists].
    + apply Hin; try done; [|by rewrite Hsn|].
      * rewrite Hobj, lookup_insert_ne; [done|]. by intros ->.
      * intros c d. rewrite Hobj, !lookup_insert_is_Some'. intros Hc Hd'. apply Hap; [destruct Hc as [<-|]|destruct Hd' as [<-|]]; by eauto.
Qed.

Lemma write_accounts_ok l s m S :
  NoDup l -> holds (trie s) m ->
  (forall a, a ∈ l -> exists o, stateObjects s !! a = Some o /\ address o = a /\ is_key a /\ (deleted o = false -> obj_ready o (S a))) ->
  exists s' m', write_accounts l s = Ok s' /\ root_frame s s' /\ holds (trie s') m' /\
    (forall a, m' !! a = if decide (a ∈ l) then stateObjects s !! a ≫= (fun o => entry_after o (S a)) else m !! a) /\
    (forall a, if decide (a ∈ l) then exists o o', stateObjects s !! a = Some o /\ stateObjects s' !! a = Some o' /\ settled_obj o (S a) o'
               else stateObjects s' !! a = stateObjects s !! a) /\
    recorded_all s s' l S.
Proof.
  revert s m. induction l as [|a l IH]; intros s m Hnd Hh Hl; cbn [write_accounts].
  - exists s, m. split_and!; try done; [intros a; by rewrite decide_False by (by apply not_elem_of_nil)..|]. split; [done|]. by intros a o ?%elem_of_nil.
  - apply NoDup_cons in Hnd as [Hna Hnd]. destruct (Hl a) as (o & Ho & Ha & Hk & Hr); [by left|].
    destruct (write_account_ok s m a o (S a) Hh Ho Ha Hk Hr) as (s1 & o1 & -> & Hf & Hh1 & Hobj & Hs & Hrec). bind_simpl.
    assert (Hsame : forall b, b ∈ l -> stateObjects s1 !! b = stateObjects s !! b).
    { intros b Hb. rewrite Hobj. apply lookup_insert_ne. by intros ->. }
    destruct (IH s1 _ Hnd Hh1) as (s' & m' & -> & Hf' & Hh' & Hm' & Ho' & Hrec').
    { intros b Hb. rewrite Hsame by done. apply Hl. by right. }
    exists s', m'. split; [done|]. split; [by eapply root_frame_trans|]. split; [done|]. split_and!.
    + intros b. rewrite Hm'. destruct (decide (b ∈ l)) as [Hb|Hb].
      * by rewrite Hsame, decide_True by (done || by right).
      * destruct (decide (b = a)) as [->|Hne]; [by rewrite lookup_partial_alter_eq, decide_True, Ho by (by left)|].
        rewrite lookup_partial_alter_ne, decide_False by (done || by intros [->|]%elem_of_cons). done.
    + intros b. specialize (Ho' b). destruct (decide (b ∈ l)) as [Hb|Hb].
      * rewrite decide_True by (by right). by rewrite <- Hsame.
      * destruct (decide (b = a)) as [->|Hne].
        -- rewrite decide_True by (by left). exists o, o1. by rewrite Ho', Hobj, lookup_insert_eq.
        -- rewrite decide_False by (by intros [->|]%elem_of_cons). by rewrite Ho', Hobj, lookup_insert_ne.
    + refine (recorded_all_cons s s1 s' a o o1 l S Hna _ Ho (f_snap _ _ Hf) Hobj Hrec Hrec'). intros b Hb. destruct (Hl b) as (ob & -> & _); [by right|by eexists].
Qed.

(** ** The end of a transaction *)

Definition finalised (deleteEmptyObjects : bool) o : stateObject T :=
  if suicided o || (deleteEmptyObjects && obj_empty o) then set_marks o (suicided o) true else obj_finalise o.

(** The parts that [Finalise] reads or changes, and the trie. *)
Record finalise_spec (l : list addr_t) (del : bool) s s' : Prop := {
  fs_trie : trie s' = trie s;
  fs_err : dbErr s' = dbErr s;
  fs_snap : snap s' = snap s;
  fs_objects a : stateObjects s' !! a = (if decide (a ∈ l) then finalised del else id) <$> stateObjects s !! a;
  fs_pending a : a ∈ stateObjectsPending s' <-> a ∈ stateObjectsPending s \/ a ∈ l /\ is_Some (stateObjects s !! a);
  fs_dirty a : a ∈ stateObjectsDirty s' <-> a ∈ stateObjectsDirty s \/ a ∈ l /\ is_Some (stateObjects s !! a);
}.

Lemma finalise_account_ok del s a :
  (forall o, stateObjects s !! a = Some o -> address o = a) -> finalise_spec [a] del s (finalise_account del s a).
Proof.
  intros Ha. unfold finalise_account. destruct (stateObjects s !! a) as [o|] eqn:E.
  - specialize (Ha o eq_refl).
    assert (Hobj : forall b, <[a := finalised del o]> (stateObjects s) !! b = (if decide (b ∈ [a]) then finalised del else id) <$> stateObjects s !! b).
    { intros b. destruct (decide (a = b)) as [<-|Hne].
      - by rewrite lookup_insert_eq, E, decide_True by (by left).
      - rewrite lookup_insert_ne, decide_False by (done || by intros ->%list_elem_of_singleton). by rewrite option_fmap_id. }
    assert (Hpend : forall (X : gset addr_t) b, b ∈ {[ a ]} ∪ X <-> b ∈ X \/ b ∈ [a] /\ is_Some (stateObjects s !! b)).
    { intros X b. rewrite elem_of_union, elem_of_singleton, list_elem_of_singleton. split; [intros [->|]; eauto|]. intros [|[-> _]]; auto. }
    unfold finalised in Hobj. destruct (suicided o || _).
    + unfold setStateObject. change (address (set_marks o (suicided o) true)) with (address o). rewrite Ha. simpl snap.
      destruct (snap s) eqn:Es; split; (done || apply Hpend).
    + unfold setStateObject. change (address (obj_finalise o)) with (address o). rewrite Ha. split; (done || apply Hpend).
  - split; try done.
    + intros b. destruct (decide (b ∈ [a])) as [->%list_elem_of_singleton|]; [by rewrite E|by rewrite option_fmap_id].
    + intros b. rewrite list_elem_of_singleton. split; [by left|]. intros [|[-> [? ?]]]; [done|congruence].
    + intros b. rewrite list_elem_of_singleton. split; [by left|]. intros [|[-> [? ?]]]; [done|congruence].
Qed.

Lemma finalise_accounts_ok del l s :
  NoDup l -> (forall a o, stateObjects s !! a = Some o -> address o = a) -> finalise_spec l del s (foldl (finalise_account del) s l).
Proof.
  revert s. induction l as [|a l IH]; intros s Hnd Ha; simpl.
  - split; try done; intros a; [by rewrite option_fmap_id|rewrite elem_of_nil; naive_solver..].
  - apply NoDup_cons in Hnd as [Hna Hnd]. destruct (finalise_account_ok del s a (Ha a)) as [Ht He Hs Ho Hp Hd].
    assert (Haddr : forall b o, stateObjects (finalise_account del s a) !! b = Some o -> address o = b).
    { intros b o. rewrite Ho, fmap_Some. intros (o' & Ho' & ->). apply Ha in Ho' as <-. case_decide; [|done].
      unfold finalised. by destruct (suicided o' || _). }
    destruct (IH _ Hnd Haddr) as [Ht' He' Hs' Ho' Hp' Hd']. split; try congruence.
    + intros b. rewrite Ho', Ho, <- option_fmap_compose. destruct (decide (b ∈ l)) as [Hb|Hb], (decide (b ∈ [a])) as [Hb'|Hb'].
      * apply list_elem_of_singleton in Hb' as ->. done.
      * by rewrite decide_True by (by right).
      * by rewrite decide_True by (apply list_elem_of_singleton in Hb' as ->; by left).
      * rewrite decide_False; [done|]. intros [->|]%elem_of_cons; [|done]. by apply Hb', list_elem_of_singleton.
    + intros b. rewrite Hp', Hp, Ho, fmap_is_Some, !elem_of_cons, elem_of_nil. tauto.
    + intros b. rewrite Hd', Hd, Ho, fmap_is_Some, !elem_of_cons, elem_of_nil. tauto.
Qed.

Lemma Finalise_ok del s :
  (forall a o, stateObjects s !! a = Some o -> address o = a) -> finalise_spec (map_order (dirties (jrnl s))) del s (Finalise s del).
Proof.
  intros Ha. destruct (finalise_accounts_ok del (map_order (dirties (jrnl s))) s (map_order_NoDup _) Ha) as [].
  unfold Finalise, clearJournalAndRefund. set (s1 := foldl _ _ _) in *. by destruct (entries (jrnl s1)); split.
Qed.

Lemma unwritten_finalise o : unwritten (obj_finalise o) = unwritten o.
Proof. apply (left_id_L ∅ (∪)). Qed.

Lemma ready_finalise o σ : obj_ready o σ -> obj_ready (obj_finalise o) σ.
Proof. intros [Ha Ht Hs]. split; [done|done|]. by rewrite unwritten_finalise. Qed.

(** The object of an address once the transaction is finalised. *)
Definition finalised_at (del : bool) s (a : addr_t) o : stateObject T :=
  (if decide (a ∈ map_order (dirties (jrnl s))) then finalised del else id) o.

Lemma finalised_at_facts del s a o σ :
  deleted (finalised_at del s a o) = gone del s a o /\ address (finalised_at del s a o) = address o /\
  (gone del s a o = false -> obj_ready o σ -> obj_ready (finalised_at del s a o) σ /\
    slots_after (finalised_at del s a o) σ = slots_after o σ /\ account_after (finalised_at del s a o) σ = account_after o σ).
Proof.
  unfold finalised_at, gone. rewrite <- (bool_decide_ext _ _ (map_order_elem (dirties (jrnl s)) a)).
  destruct (decide (a ∈ map_order (dirties (jrnl s)))) as [Hin|Hin]; [rewrite bool_decide_true by done|rewrite bool_decide_false by done].
  - unfold finalised. destruct (suicided o || _); simpl; [by rewrite orb_true_r|]. rewrite orb_false_r. split_and!; [done..|].
    intros _ Ho. unfold account_after, slots_after. rewrite unwritten_finalise. split; [by apply ready_finalise|done].
  - simpl. by rewrite orb_false_r.
Qed.

Lemma touched_object s S a : ready s S -> touched s a = true -> is_Some (stateObjects s !! a).
Proof.
  intros Hr. unfold touched. rewrite orb_true_iff, andb_true_iff, !bool_decide_eq_true. intros [?|[_ ?]]; [by eapply rd_pending|done].
Qed.

Lemma untouched_object del s a : touched s a = false -> finalised_at del s a <$> stateObjects s !! a = stateObjects s !! a.
Proof.
  unfold touched. rewrite orb_false_iff, andb_false_iff, !bool_decide_eq_false, <- map_order_elem. intros [_ Ha].
  unfold finalised_at. destruct (stateObjects s !! a) eqn:E; simpl; [|done]. case_decide; [|done].
  destruct Ha as [|Ha]; [done|]. destruct Ha. by eexists.
Qed.

(** The objects that the next commit visits. *)
Lemma dirty_touched del s S a :
  ready s S -> stateObjectsPending s ⊆ stateObjectsDirty s -> a ∈ stateObjectsDirty (Finalise s del) <-> a ∈ stateObjectsDirty s \/ touched s a = true.
Proof.
  intros Hr Hsub. rewrite (fs_dirty _ _ _ _ (Finalise_ok del s (fun a o H => proj1 (rd_addr _ _ Hr a o H)))). unfold touched.
  rewrite orb_true_iff, andb_true_iff, !bool_decide_eq_true, (map_order_elem (dirties (jrnl s))). specialize (Hsub a). tauto.
Qed.

(** The storage after the transaction. *)
Definition storage_after s (S : addr_t -> Storage) (a : addr_t) : Storage :=
  match stateObjects s !! a with Some o => if touched s a then slots_after o (S a) else S a | None => S a end.

(** The entry of the account trie after the transaction. *)
Definition entry_at (del : bool) s (S : addr_t -> Storage) (m : gmap (list Z) (list Z)) (a : addr_t) : option (list Z) :=
  if touched s a then
    o ← stateObjects s !! a; if gone del s a o then None else Some (account_rlp (account_after o (S a)))
  else m !! a.

Lemma pending_touched del s S a :
  ready s S -> a ∈ map_order (gset_to_gmap tt (stateObjectsPending (Finalise s del))) <-> touched s a = true.
Proof.
  intros Hr. destruct (Finalise_ok del s (fun a o H => proj1 (rd_addr _ _ Hr a o H))) as [_ _ _ _ Hp _].
  rewrite map_order_set, Hp. unfold touched. rewrite orb_true_iff, andb_true_iff, !bool_decide_eq_true, map_order_elem. done.
Qed.

(** The accounts of the trie, the live objects and the snapshot after the
    pending accounts were written. *)
Lemma IntermediateRoot_spec del s S m :
  ready s S -> holds (trie s) m ->
  exists s' m', IntermediateRoot s del = Ok (root_of m', s') /\ holds (trie s') m' /\
    dbErr s' = dbErr s /\ stateObjectsPending s' = ∅ /\ stateObjectsDirty s' = stateObjectsDirty (Finalise s del) /\
    (forall a, m' !! a = entry_at del s S m a) /\
    (forall a, if touched s a then exists o o', stateObjects s !! a = Some o /\ stateObjects s' !! a = Some o' /\
                 settled_obj (finalised_at del s a o) (S a) o'
               else stateObjects s' !! a = stateObjects s !! a) /\
    recorded_all (Finalise s del) s' (map_order (gset_to_gmap tt (stateObjectsPending (Finalise s del)))) S.
Proof.
  intros Hr Hh. pose proof (Finalise_ok del s (fun a o H => proj1 (rd_addr _ _ Hr a o H))) as [Ht He Hs Ho Hp _].
  unfold IntermediateRoot. set (s1 := Finalise s del) in *. set (l := map_order (gset_to_gmap _ _)).
  assert (Hl : forall a, a ∈ l <-> touched s a = true) by (intros a; by apply pending_touched with S).
  assert (Hobj : forall a, stateObjects s1 !! a = finalised_at del s a <$> stateObjects s !! a) by exact Ho.
  destruct (write_accounts_ok l s1 m S) as (s' & m' & -> & Hf & Hh' & Hm' & Hobj' & Hrec).
  - apply map_order_NoDup.
  - by rewrite Ht.
  - intros a Ha. apply Hl in Ha. destruct (touched_object s S a Hr Ha) as [o Hoa]. exists (finalised_at del s a o).
    destruct (finalised_at_facts del s a o (S a)) as (Hd & -> & Hfin). rewrite Hobj, Hoa, Hd.
    destruct (rd_addr _ _ Hr a o Hoa) as [? ?]. split_and!; [done..|]. intros Hg. apply Hfin; [done|].
    apply (rd_live _ _ Hr a o Hoa). unfold gone in Hg. by destruct (deleted o).
  - bind_simpl. destruct (holds_hash _ _ Hh') as (t' & Hrun & Hh''). simpl trie. rewrite Hrun. bind_simpl.
    eexists _, m'. split; [done|]. split; [done|]. split; [by rewrite <- He, <- (f_err _ _ Hf)|]. split; [done|]. split; [apply Hf|]. split_and!; [..|done].
    + intros a. rewrite Hm'. unfold entry_at. destruct (touched s a) eqn:Hta; [rewrite decide_True by (by apply Hl)|rewrite decide_False by (by rewrite Hl, Hta)]; [|done].
      rewrite Hobj. destruct (stateObjects s !! a) as [o|] eqn:Hoa; [simpl|done]. unfold entry_after.
      destruct (finalised_at_facts del s a o (S a)) as (-> & _ & Hfin). destruct (gone del s a o) eqn:Hg; [done|].
      destruct Hfin as (_ & _ & ->); [done| |done]. apply (rd_live _ _ Hr a o Hoa). unfold gone in Hg. by destruct (deleted o).
    + intros a. specialize (Hobj' a). destruct (touched s a) eqn:Hta; [rewrite decide_True in Hobj' by (by apply Hl)|rewrite decide_False in Hobj' by (by rewrite Hl, Hta)].
      * destruct Hobj' as (o1 & o' & Ho1 & Ho' & Hset). rewrite Hobj, fmap_Some in Ho1. destruct Ho1 as (o & Hoa & ->). by exists o, o'.
      * simpl. rewrite Hobj', Hobj. by apply untouched_object.
Qed.

Lemma gone_live del s a o : gone del s a o = false -> deleted o = false.
Proof. unfold gone. by destruct (deleted o). Qed.

(** A live object that was written. *)
Lemma settled_live del s S a o o' :
  ready s S -> stateObjects s !! a = Some o -> gone del s a o = false -> settled_obj (finalised_at del s a o) (S a) o' ->
  address o' = a /\ deleted o' = false /\ data o' = account_after o (S a) /\ unwritten o' = ∅ /\ obj_ready o' (slots_after o (S a)).
Proof.
  intros Hr Ho Hg. destruct (finalised_at_facts del s a o (S a)) as (Hd & Ha & Hfin).
  destruct Hfin as (_ & Hs & Hacc); [done|by apply (rd_live _ _ Hr a o Ho), (gone_live del s a)|].
  unfold settled_obj. rewrite Hd, Hg, Hs, Hacc. intros (Hw & ? & ?). rewrite (wr_address _ _ Hw), (wr_deleted _ _ Hw), Hd, Ha.
  split_and!; try done; [by apply (rd_addr _ _ Hr)|apply Hw].
Qed.

Lemma ready_after del s S s' :
  ready s S -> stateObjectsPending s' = ∅ ->
  (forall a, if touched s a then exists o o', stateObjects s !! a = Some o /\ stateObjects s' !! a = Some o' /\
               settled_obj (finalised_at del s a o) (S a) o'
             else stateObjects s' !! a = stateObjects s !! a) ->
  ready s' (storage_after s S).
Proof.
  intros Hr Hp Hobj. split; [| |intros a; by rewrite Hp].
  - intros a o' Ho'. specialize (Hobj a). destruct (touched s a); [|by apply (rd_addr _ _ Hr); rewrite <- Hobj].
    destruct Hobj as (o & o1 & Ho & Ho1 & Hset). rewrite Ho' in Ho1. injection Ho1 as <-. split; [|by apply (rd_addr _ _ Hr a o)].
    destruct (gone del s a o) eqn:Hg; [|by apply (settled_live del s S a o o')].
    destruct (finalised_at_facts del s a o (S a)) as (Hd & Ha & _). unfold settled_obj in Hset. rewrite Hd, Hg in Hset. subst o'.
    rewrite Ha. by apply (rd_addr _ _ Hr).
  - intros a o' Ho' Hlive. specialize (Hobj a). unfold storage_after. destruct (touched s a).
    + destruct Hobj as (o & o1 & Ho & Ho1 & Hset). rewrite Ho. rewrite Ho' in Ho1. injection Ho1 as <-.
      destruct (gone del s a o) eqn:Hg; [|by apply (settled_live del s S a o o')].
      destruct (finalised_at_facts del s a o (S a)) as (Hd & _ & _). unfold settled_obj in Hset. rewrite Hd, Hg in Hset. congruence.
    + rewrite Ho' in Hobj. rewrite <- Hobj. by apply (rd_live _ _ Hr).
Qed.

Lemma hashes_apart_finalise del s S : ready s S -> hashes_apart s -> hashes_apart (Finalise s del).
Proof.
  intros Hr Hap a b. destruct (Finalise_ok del s (fun a o H => proj1 (rd_addr _ _ Hr a o H))) as [_ _ _ Ho _ _].
  rewrite !Ho, !fmap_is_Some. apply Hap.
Qed.

(** C4. Whatever the order in which Go visits its maps, [IntermediateRoot]
    does not panic and returns the root of the account map in which the entry
    of every account that the transaction touched is removed or replaced by
    the encoding of the account, whose storage root is the root of the stored
    slots with the unwritten ones on top and the zero ones removed; all other
    accounts stay.  The encodings are read back as what was written, the live
    objects agree with the storage again with nothing left to write, and the
    snapshot receives every account that was written. *)
Theorem IntermediateRoot_correct (del : bool) s (S : addr_t -> Storage) (m : gmap (list Z) (list Z)) :
  ready s S -> holds (trie s) m ->
  exists s' m', IntermediateRoot s del = Ok (root_of m', s') /\ holds (trie s') m' /\
    (forall a, m' !! a = entry_at del s S m a) /\
    (forall a o, touched s a = true -> stateObjects s !! a = Some o -> gone del s a o = false ->
       decode_account (account_rlp (account_after o (S a))) = Some (account_after o (S a)) /\
       map_Forall (fun _ v => decode_slot (slot_rlp v) = (v, true)) (slots_after o (S a)) /\
       (exists o', stateObjects s' !! a = Some o' /\ data o' = account_after o (S a) /\ unwritten o' = ∅) /\
       (snap s <> None -> hashes_apart s ->
        exists b, snapAccounts s' !! keccak256 a = Some b /\ FullAccount b = Some (account_after o (S a)))) /\
    ready s' (storage_after s S) /\ dbErr s' = dbErr s /\ stateObjectsPending s' = ∅.
Proof.
  intros Hr Hh. destruct (IntermediateRoot_spec del s S m Hr Hh) as (s' & m' & Hrun & Hh' & He & Hp & _ & Hm & Hobj & Hrec).
  exists s', m'. split; [done|]. split; [done|]. split; [done|]. split_and!; [|by eapply ready_after|done|done].
  intros a o Hta Ho Hg. specialize (Hobj a). rewrite Hta in Hobj. destruct Hobj as (o1 & o' & Ho1 & Ho' & Hset).
  rewrite Ho in Ho1. injection Ho1 as <-. destruct (settled_live del s S a o o' Hr Ho Hg Hset) as (_ & _ & Hd & Hcl & Hor).
  destruct (finalised_at_facts del s a o (S a)) as (Hdel & _ & Hfin). split_and!.
  - apply decode_account_rlp. rewrite <- Hd. apply Hor.
  - intros k v Hk. apply decode_slot_rlp. by apply (st_slots _ _ _ (or_storage _ _ Hor) k v).
  - by exists o'.
  - intros Hsn Hap. destruct (Finalise_ok del s (fun a o H => proj1 (rd_addr _ _ Hr a o H))) as [_ _ Hsn' Hobj _ _].
    destruct Hfin as (_ & _ & <-); [done|by apply (rd_live _ _ Hr a o Ho), (gone_live del s a)|].
    apply Hrec; [by apply pending_touched with S|by rewrite Hobj, Ho|by rewrite Hsn'|by rewrite Hdel|by eapply hashes_apart_finalise].
Qed.
End spec.
