(* ===== verification/SecureTrie.v ===== *)
(** * The secure trie (src/trie/secure_trie.go) and the database of the state

    A trie whose keys are hashed, with the cache of the keys behind the hashes.
    It implements the interface that the state uses, and what the state relies
    on is proved of it. *)
From stdpp Require Import prelude list gmap.
From Stdlib Require Import ZArith Lia.
From S2P Require Import Prelude RlpEncode RlpRaw RlpStream TrieEncoding Trie TrieNode TrieHash TrieDatabase TrieGC TrieCommit StateDB StateRoot.

(** [owned] tells whether [secKeyCacheOwner] points to the trie itself. *)
Record SecureTrie := MkSecure { sec_trie : Trie; secKeyCache : gmap (list Z) (list Z); owned : bool }.

Section secure.
Context {K : Keccak} {db : NodeReader}.
Implicit Types (t : SecureTrie).

Definition NewSecure (root : list Z) : tr SecureTrie :=
  trie ← New root;
  Ok (MkSecure trie ∅ false).

Definition hashKey (key : list Z) : list Z := keccak256 key.

(** The cache of another owner is replaced. *)
Definition getSecKeyCache t : SecureTrie :=
  if owned t then t else MkSecure (sec_trie t) ∅ true.

Definition sec_TryGet t (key : list Z) : tr (list Z) * SecureTrie :=
  match TryGet (sec_trie t) (hashKey key) with
  | (Ok v, trie) => (Ok (default [] v), MkSecure trie (secKeyCache t) (owned t))
  | (Err e, trie) => (Err e, MkSecure trie (secKeyCache t) (owned t))
  | (Panic, _) => (Panic, t)
  end.

Definition sec_TryUpdate t (key value : list Z) : tr unit * SecureTrie :=
  let hk := hashKey key in
  match TryUpdate (sec_trie t) hk value with
  | (Ok _, trie) =>
      let t := getSecKeyCache (MkSecure trie (secKeyCache t) (owned t)) in
      (Ok tt, MkSecure (sec_trie t) (<[hk := key]> (secKeyCache t)) (owned t))
  | (Err e, trie) => (Err e, MkSecure trie (secKeyCache t) (owned t))
  | (Panic, _) => (Panic, t)
  end.

Definition sec_TryDelete t (key : list Z) : tr unit * SecureTrie :=
  let hk := hashKey key in
  let t := getSecKeyCache t in
  let t := MkSecure (sec_trie t) (base.delete hk (secKeyCache t)) (owned t) in
  let '(r, trie) := TryDelete (sec_trie t) hk in
  (r, MkSecure trie (secKeyCache t) (owned t)).

Definition sec_Hash (order : list nat) t : go (list Z * SecureTrie) :=
  '(h, trie) ← Hash order (sec_trie t);
  Ok (h, MkSecure trie (secKeyCache t) (owned t)).

(** The copy shares the cache, but does not own it. *)
Definition sec_Copy t : SecureTrie := MkSecure (sec_trie t) (secKeyCache t) false.
End secure.

Section preimages.
Context {K : Keccak} {C : Type} {CC : CleanCache C} {MO : MapOrder}.
Implicit Types (t : SecureTrie) (d : TrieDatabase.Database C).

Definition GetKey d t (shaKey : list Z) : option (list Z) * SecureTrie :=
  let t := getSecKeyCache t in
  (match secKeyCache t !! shaKey with
   | Some key => Some key
   | None => db_preimage d (BytesToHash shaKey)
   end, t).

(** The preimages that [Commit] stores. *)
Definition store_preimages t d : SecureTrie * TrieDatabase.Database C :=
  let t := getSecKeyCache t in
  if decide (secKeyCache t = ∅) then (t, d)
  else (MkSecure (sec_trie t) ∅ (owned t),
        foldl (fun d hk => insertPreimage d (BytesToHash hk) (default [] (secKeyCache t !! hk))) d (map_order (secKeyCache t))).

Definition sec_Commit (onleaf : option LeafCallback) (order : list nat) t d : go (list Z * SecureTrie * TrieDatabase.Database C) :=
  let '(t, d) := store_preimages t d in
  '(root, trie, d) ← Commit onleaf order (sec_trie t) d;
  Ok (root, MkSecure trie (secKeyCache t) (owned t), d).
End preimages.

(** ** The interfaces of the state *)

(** What the database of the state takes from its caches of code, which are
    third-party packages, and from the disk. *)
Class CodeStore := {
  codeCache : list Z -> list Z;
  codeSizeCache : list Z -> option Z;
  disk_Get : list Z -> list Z;
}.

Section code.
Context {CS : CodeStore}.

(** The prefix is the letter c. *)
Definition codeKey (hash : list Z) : list Z := 99 :: hash.
Definition ReadCodeWithPrefix (hash : list Z) : list Z := disk_Get (codeKey hash).
Definition ReadCode (hash : list Z) : list Z :=
  let data := disk_Get hash in
  if negb (zlen data =? 0) then data else ReadCodeWithPrefix hash.

(** [cachingDB.ContractCode]; what it adds to the caches is what they return
    later. *)
Definition db_ContractCode (codeHash : list Z) : option (list Z) :=
  if 0 <? zlen (codeCache codeHash) then Some (codeCache codeHash)
  else let code := ReadCode codeHash in if 0 <? zlen code then Some code else None.

Definition db_ContractCodeSize (codeHash : list Z) : option Z :=
  match codeSizeCache codeHash with
  | Some cached => Some cached
  | None => zlen <$> db_ContractCode codeHash
  end.
End code.

#[export] Instance secure_ops {K : Keccak} {db : NodeReader} : TrieOps SecureTrie := {
  t_TryGet := sec_TryGet;
  t_TryUpdate := sec_TryUpdate;
  t_TryDelete := sec_TryDelete;
  t_Hash := sec_Hash (seq 0 16);
}.

#[export] Instance cachingDB {db : NodeReader} {CS : CodeStore} : StateDatabase SecureTrie := {
  OpenTrie root := NewSecure root;
  OpenStorageTrie _ root := NewSecure root;
  ContractCode _ codeHash := db_ContractCode codeHash;
  ContractCodeSize _ codeHash := db_ContractCodeSize codeHash;
}.

(** ** The map of a secure trie *)

(** The map of hashed keys. *)
Definition hashed {K : Keccak} (M m : gmap (list Z) (list Z)) : Prop :=
  forall h v, m !! h = Some v <-> exists k, M !! k = Some v /\ h = keccak256 k.

(** The root of the trie that is built from scratch for a map. *)
Definition build {K : Keccak} (l : list (list Z * list Z)) : SecureTrie :=
  foldr (fun kv t => (sec_TryUpdate (db := no_db) t kv.1 kv.2).2) (MkSecure (MkTrie nilNode 0) ∅ false) l.
Definition built_root {K : Keccak} (M : gmap (list Z) (list Z)) : list Z :=
  match sec_Hash (seq 0 16) (build (map_to_list M)) with Ok (h, _) => h | _ => emptyRoot end.

Section map.
Context {K : Keccak} (is_key : list Z -> Prop).
Hypothesis keys_apart : forall k k', is_key k -> is_key k' -> keccak256 k = keccak256 k' -> k = k'.
Implicit Types (M m : gmap (list Z) (list Z)) (t : SecureTrie).

Definition entries_ok M : Prop := map_Forall (fun k v => is_key k /\ is_value v) M.

Lemma hashed_unique M m m' : hashed M m -> hashed M m' -> m = m'.
Proof. intros H H'. apply map_eq. intros h. apply option_eq. intros v. by rewrite (H h v), (H' h v). Qed.

Lemma hashed_lookup M m k : hashed M m -> entries_ok M -> is_key k -> m !! keccak256 k = M !! k.
Proof.
  intros H HM Hk. apply option_eq. intros v. rewrite (H _ v). split; [|by eauto].
  intros (k' & Hv & He). destruct (HM k' v Hv) as [Hk' _]. by rewrite (keys_apart k k' Hk Hk' He).
Qed.

Lemma hashed_insert M m k v : hashed M m -> entries_ok M -> is_key k -> hashed (<[k := v]> M) (<[keccak256 k := v]> m).
Proof.
  intros H HM Hk h w. rewrite lookup_insert_Some, (H h w). split.
  - intros [[<- <-]|[Hne (k' & Hk' & ->)]]; [exists k; by rewrite lookup_insert_eq|].
    exists k'. split; [|done]. rewrite lookup_insert_ne; [done|]. by intros ->.
  - intros (k' & Hl & ->). apply lookup_insert_Some in Hl as [[-> ->]|[Hne Hl]]; [by left|]. right. split; [|by eauto].
    intros He. destruct (HM k' w Hl) as [Hk' _]. by apply Hne, keys_apart.
Qed.

Lemma hashed_delete M m k : hashed M m -> entries_ok M -> is_key k -> hashed (base.delete k M) (base.delete (keccak256 k) m).
Proof.
  intros H HM Hk h w. rewrite lookup_delete_Some, (H h w). split.
  - intros [Hne (k' & Hk' & ->)]. exists k'. rewrite lookup_delete_ne by (by intros ->). done.
  - intros (k' & Hl & ->). apply lookup_delete_Some in Hl as [Hne Hl]. split; [|by eauto].
    intros He. destruct (HM k' w Hl) as [Hk' _]. by apply Hne, keys_apart.
Qed.

Lemma hashed_fits M m : hashed M m -> entries_ok M -> map_fits m.
Proof.
  intros H HM h v Hv. apply H in Hv as (k & Hk & ->). destruct (HM k v Hk) as (_ & _ & Hb & Hz).
  rewrite keccak_len. split_and!; [apply keccak_bytes|done|lia|done].
Qed.

(** The secure trie stores the map. *)
Definition secure_holds {db : NodeReader} t M : Prop := exists m, stores (sec_trie t) m /\ hashed M m /\ entries_ok M.

Section ops.
Context {db : NodeReader}.

Lemma sec_TryGet_ok t M k :
  secure_holds t M -> is_key k -> exists t', sec_TryGet t k = (Ok (default [] (M !! k)), t') /\ secure_holds t' M /\
    secKeyCache t' = secKeyCache t /\ owned t' = owned t.
Proof.
  intros (m & Hs & Hh & HM) Hk. unfold sec_TryGet, hashKey.
  destruct (TryGet_spec (sec_trie t) m (keccak256 k) Hs (keccak_bytes k)) as (t' & -> & Hs').
  eexists. split; [by rewrite (hashed_lookup M)|]. split; [by exists m|done].
Qed.

Lemma sec_TryUpdate_ok t M k v :
  secure_holds t M -> is_key k -> (v <> [] -> is_value v) ->
  exists trie, sec_TryUpdate t k v = (Ok tt, MkSecure trie (<[keccak256 k := k]> (secKeyCache (getSecKeyCache t))) true) /\
    secure_holds (MkSecure trie (<[keccak256 k := k]> (secKeyCache (getSecKeyCache t))) true)
      (if decide (v = []) then base.delete k M else <[k := v]> M).
Proof.
  intros (m & Hs & Hh & HM) Hk Hv. unfold sec_TryUpdate, hashKey.
  destruct (TryUpdate_spec (sec_trie t) m (keccak256 k) v Hs (keccak_bytes k)) as (t' & -> & Hs').
  exists t'. unfold getSecKeyCache. simpl. split; [by destruct (owned t)|]. eexists. split; [exact Hs'|].
  case_decide; (split; [by apply hashed_delete || by apply hashed_insert|]); [by apply map_Forall_delete|].
  apply map_Forall_insert_2; [|done]. split; [done|by apply Hv].
Qed.

Lemma sec_TryDelete_ok t M k :
  secure_holds t M -> is_key k ->
  exists trie, sec_TryDelete t k = (Ok tt, MkSecure trie (base.delete (keccak256 k) (secKeyCache (getSecKeyCache t))) true) /\
    secure_holds (MkSecure trie (base.delete (keccak256 k) (secKeyCache (getSecKeyCache t))) true) (base.delete k M).
Proof.
  intros (m & Hs & Hh & HM) Hk. unfold sec_TryDelete, hashKey.
  destruct (TryUpdate_spec (sec_trie t) m (keccak256 k) [] Hs (keccak_bytes k)) as (t' & Hrun & Hs').
  change (TryUpdate (sec_trie t) (keccak256 k) []) with (TryDelete (sec_trie t) (keccak256 k)) in Hrun.
  rewrite decide_True in Hs' by done. exists t'. replace (sec_trie (MkSecure _ _ _)) with (sec_trie t) by (unfold getSecKeyCache; by destruct (owned t)).
  rewrite Hrun. split; [unfold getSecKeyCache; destruct (owned t) eqn:E; simpl; by rewrite ?E|].
  eexists. split; [exact Hs'|]. split; [by apply hashed_delete|]. by apply map_Forall_delete.
Qed.

Lemma sec_Hash_root order t M T m :
  secure_holds t M -> hashed M m -> tree_map T m -> order ≡ₚ seq 0 16 ->
  exists trie, sec_Hash order t = Ok (mroot T, MkSecure trie (secKeyCache t) (owned t)) /\
    secure_holds (MkSecure trie (secKeyCache t) (owned t)) M.
Proof.
  intros (m' & Hs & Hh & HM) Hm HT Ho. rewrite (hashed_unique M m' m Hh Hm) in Hs. unfold sec_Hash.
  destruct (Hash_spec order (sec_trie t) m T Hs HT (hashed_fits M m Hm HM) Ho) as (t' & -> & Hr & _). bind_simpl.
  exists t'. split; [done|]. exists m. split; [by exists T|done].
Qed.
End ops.

Lemma empty_holds {db : NodeReader} c b : secure_holds (MkSecure (MkTrie nilNode 0) c b) ∅.
Proof.
  exists ∅. split.
  - exists TEmpty. split; [constructor|]. split; [by left|]. intros k v. split; [done|]. intros (key & _ & _ & Hk). by rewrite lookup_empty in Hk.
  - split; [|apply map_Forall_empty]. intros h v. rewrite lookup_empty. split; [done|]. intros (k & Hk & _). by rewrite lookup_empty in Hk.
Qed.

Lemma build_holds (l : list (list Z * list Z)) :
  Forall (fun kv => is_key kv.1 /\ is_value kv.2) l -> secure_holds (db := no_db) (build l) (list_to_map l).
Proof.
  induction 1 as [|[k v] l [Hk Hv] _ IH]; [apply empty_holds|]. simpl in *.
  destruct (sec_TryUpdate_ok (db := no_db) (build l) (list_to_map l) k v IH Hk (fun _ => Hv)) as (t' & -> & Ht).
  by rewrite decide_False in Ht by apply Hv.
Qed.

(** The root that is built for a map is the Merkle root of its tree. *)
Lemma built_root_spec M m T : hashed M m -> entries_ok M -> tree_map T m -> built_root M = mroot T.
Proof.
  intros Hh HM HT. unfold built_root.
  assert (Hb : secure_holds (db := no_db) (build (map_to_list M)) M).
  { rewrite <- (list_to_map_to_list M) at 2. apply build_holds, Forall_forall. intros [k v] Hkv. apply elem_of_map_to_list in Hkv. by apply HM. }
  by destruct (sec_Hash_root (db := no_db) (seq 0 16) _ M T m Hb Hh HT) as (t' & -> & _).
Qed.

Lemma mroot_is_hash T : is_hash (mroot T).
Proof.
  assert (Hm : is_hash (mhash T)) by (split; [apply keccak_len|apply keccak_bytes]).
  destruct T; [|exact Hm..]. split; [done|]. vm_compute. repeat constructor; done.
Qed.

Lemma sec_Hash_ok {db : NodeReader} order t M :
  secure_holds t M -> order ≡ₚ seq 0 16 ->
  exists trie, sec_Hash order t = Ok (built_root M, MkSecure trie (secKeyCache t) (owned t)) /\
    secure_holds (MkSecure trie (secKeyCache t) (owned t)) M.
Proof.
  intros Ht Ho. pose proof Ht as (m & (T & Hr & HT) & Hh & HM). rewrite (built_root_spec M m T) by done. by apply sec_Hash_root with m.
Qed.

#[export] Instance secure_map {db : NodeReader} : TrieMap SecureTrie is_key.
Proof.
  refine {| holds := secure_holds; root_of := built_root |}.
  - intros t M (m & (T & _ & HT) & Hh & HM). rewrite (built_root_spec M m T) by done. apply mroot_is_hash.
  - intros t M k Ht Hk. destruct (sec_TryGet_ok t M k Ht Hk) as (t' & Hrun & Ht' & _). by exists t'.
  - intros t M k v Ht Hk Hv. destruct (sec_TryUpdate_ok t M k v Ht Hk (fun _ => Hv)) as (t' & Hrun & Ht').
    rewrite decide_False in Ht' by apply Hv. by eexists.
  - intros t M k Ht Hk. destruct (sec_TryDelete_ok t M k Ht Hk) as (t' & Hrun & Ht'). by eexists.
  - intros t M Ht. destruct (sec_Hash_ok (seq 0 16) t M Ht) as (t' & Hrun & Ht'); [done|]. by eexists.
Defined.

(** ** The keys behind the hashes *)

(** The cache knows exactly the keys of [C]. *)
Definition known t (C : gset (list Z)) : Prop :=
  set_Forall is_key C /\ forall h k, secKeyCache (getSecKeyCache t) !! h = Some k <-> k ∈ C /\ h = keccak256 k.

Lemma known_lookup t C k :
  known t C -> is_key k -> secKeyCache (getSecKeyCache t) !! keccak256 k = if decide (k ∈ C) then Some k else None.
Proof.
  intros [HC Hc] Hk. case_decide as H; [by apply Hc|]. destruct (_ !! _) as [k'|] eqn:E; [|done].
  apply Hc in E as [Hk' He]. apply keys_apart in He; [by subst|done|by apply HC].
Qed.

Lemma known_insert t C k trie :
  known t C -> is_key k -> known (MkSecure trie (<[keccak256 k := k]> (secKeyCache (getSecKeyCache t))) true) ({[k]} ∪ C).
Proof.
  intros [HC Hc] Hk. split; [apply set_Forall_union; [by apply set_Forall_singleton|done]|]. intros h k'. simpl.
  rewrite lookup_insert_Some, Hc, elem_of_union, elem_of_singleton. split.
  - intros [[<- <-]|[_ [? ?]]]; split; auto.
  - intros [[->| Hin] ->]; [by left|]. destruct (decide (k' = k)) as [->|Hne]; [by left|]. right.
    split; [|done]. intros He. apply Hne. symmetry. apply keys_apart; [done|by apply HC|done].
Qed.

Lemma known_delete t C k trie :
  known t C -> is_key k -> known (MkSecure trie (base.delete (keccak256 k) (secKeyCache (getSecKeyCache t))) true) (C ∖ {[k]}).
Proof.
  intros [HC Hc] Hk. split; [intros x Hx; apply HC; set_solver|]. intros h k'. simpl.
  rewrite lookup_delete_Some, Hc, elem_of_difference, elem_of_singleton. split.
  - intros [Hne [Hin ->]]. split_and!; try done. by intros ->.
  - intros [[Hin Hne] ->]. split; [|done]. intros He. apply Hne. symmetry. apply keys_apart; [done|by apply HC|done].
Qed.
End map.

(** ** Runs of operations *)

Inductive sec_op :=
| SGet (key : list Z)
| SUpdate (key value : list Z)
| SDelete (key : list Z)
| SHash (order : list nat)
| SCopy.

Definition sec_step {K : Keccak} {db : NodeReader} (op : sec_op) (t : SecureTrie) : tr (list Z) * SecureTrie :=
  match op with
  | SGet key => sec_TryGet t key
  | SUpdate key value => let '(r, t) := sec_TryUpdate t key value in (_ ← r; Ok [], t)
  | SDelete key => let '(r, t) := sec_TryDelete t key in (_ ← r; Ok [], t)
  | SHash order => match sec_Hash order t with Ok (h, t) => (Ok h, t) | _ => (Panic, t) end
  | SCopy => (Ok [], sec_Copy t)
  end.

Fixpoint sec_run {K : Keccak} {db : NodeReader} (ops : list sec_op) (t : SecureTrie) : list (tr (list Z)) * SecureTrie :=
  match ops with
  | [] => ([], t)
  | op :: ops => let '(r, t) := sec_step op t in let '(rs, t) := sec_run ops t in (r :: rs, t)
  end.

(** A map with plain keys, and the keys that were updated since the last copy. *)
Record key_map := MkKeyMap { km_map : gmap (list Z) (list Z); km_known : gset (list Z) }.

Definition spec_step {K : Keccak} (op : sec_op) (s : key_map) : list Z * key_map :=
  match op with
  | SGet key => (default [] (km_map s !! key), s)
  | SUpdate key value =>
      ([], MkKeyMap (if decide (value = []) then base.delete key (km_map s) else <[key := value]> (km_map s)) ({[key]} ∪ km_known s))
  | SDelete key => ([], MkKeyMap (base.delete key (km_map s)) (km_known s ∖ {[key]}))
  | SHash _ => (built_root (km_map s), s)
  | SCopy => ([], MkKeyMap (km_map s) ∅)
  end.

Fixpoint spec_run {K : Keccak} (ops : list sec_op) (s : key_map) : list (list Z) * key_map :=
  match ops with
  | [] => ([], s)
  | op :: ops => let '(r, s) := spec_step op s in let '(rs, s) := spec_run ops s in (r :: rs, s)
  end.

Section runs.
Context {K : Keccak} (is_key : list Z -> Prop).
Hypothesis keys_apart : forall k k', is_key k -> is_key k' -> keccak256 k = keccak256 k' -> k = k'.
Context {db : NodeReader}.
Implicit Types (t : SecureTrie) (s : key_map).

Definition op_ok (op : sec_op) : Prop :=
  match op with
  | SGet key | SDelete key => is_key key
  | SUpdate key value => is_key key /\ (value <> [] -> is_value value)
  | SHash order => order ≡ₚ seq 0 16
  | SCopy => True
  end.

Definition secure_rep t s : Prop := secure_holds is_key t (km_map s) /\ known is_key t (km_known s).

Lemma known_same t t' C : secKeyCache t' = secKeyCache t -> owned t' = owned t -> known is_key t C -> known is_key t' C.
Proof. intros Hc Ho. unfold known, getSecKeyCache. rewrite Ho. by destruct (owned t); rewrite ?Hc. Qed.

Lemma sec_step_ok op t s :
  secure_rep t s -> op_ok op ->
  exists t', sec_step op t = (Ok (spec_step op s).1, t') /\ secure_rep t' (spec_step op s).2.
Proof.
  intros [Hh Hk]. destruct op as [key|key value|key|order|]; simpl.
  - intros Hkey. destruct (sec_TryGet_ok is_key keys_apart t _ key Hh Hkey) as (t' & -> & Hh' & Hc & Ho).
    exists t'. split; [done|]. split; [done|]. by apply (known_same t).
  - intros [Hkey Hv]. destruct (sec_TryUpdate_ok is_key keys_apart t _ key value Hh Hkey Hv) as (t' & -> & Hh').
    eexists. split; [done|]. split; [done|]. by apply known_insert.
  - intros Hkey. destruct (sec_TryDelete_ok is_key keys_apart t _ key Hh Hkey) as (t' & -> & Hh').
    eexists. split; [done|]. split; [done|]. by apply known_delete.
  - intros Ho. destruct (sec_Hash_ok is_key keys_apart order t _ Hh Ho) as (t' & -> & Hh').
    eexists. split; [done|]. split; [done|]. by apply (known_same t).
  - intros _. eexists. split; [done|]. split; [done|]. split; [done|]. intros h k. simpl. rewrite lookup_empty. split; [done|]. by intros [?%elem_of_empty _].
Qed.

Lemma sec_run_ok ops t s :
  secure_rep t s -> Forall op_ok ops ->
  exists t', sec_run ops t = (Ok <$> (spec_run ops s).1, t') /\ secure_rep t' (spec_run ops s).2.
Proof.
  intros Hr Hops. revert t s Hr. induction Hops as [|op ops Hop _ IH]; intros t s Hr; [by exists t|]. simpl.
  destruct (sec_step_ok op t s Hr Hop) as (t1 & -> & Hr1). destruct (spec_step op s) as [r s1].
  destruct (IH t1 s1 Hr1) as (t' & -> & Hr'). destruct (spec_run ops s1) as [rs s']. by exists t'.
Qed.

(** *** Preimages *)

Context {C : Type} {CC : CleanCache C} {MO : MapOrder}.
Implicit Types (d : TrieDatabase.Database C).

(** The cached preimages are those of keys in use. *)
Definition preimages_ok d : Prop := forall h k, TrieDatabase.preimages d !! h = Some k -> is_key k /\ h = keccak256 k.

Lemma insertPreimage_ok d k :
  preimages_ok d -> is_key k -> preimages_ok (insertPreimage d (keccak256 k) k) /\
    forall k', is_key k' -> db_preimage (insertPreimage d (keccak256 k) k) (keccak256 k') = if decide (k = k') then Some k else db_preimage d (keccak256 k').
Proof.
  intros Hd Hk. unfold insertPreimage. destruct (TrieDatabase.preimages d !! keccak256 k) as [k0|] eqn:E.
  - split; [done|]. intros k' Hk'. case_decide; [subst k'|done]. unfold db_preimage. rewrite E. apply Hd in E as [Hk0 He].
    by rewrite (keys_apart k k0 Hk Hk0 He).
  - split.
    + intros h k'. simpl. rewrite lookup_insert_Some. intros [[<- <-]|[_ Hl]]; [done|by apply Hd].
    + intros k' Hk'. unfold db_preimage. simpl. case_decide as Heq; [subst; by rewrite lookup_insert_eq|].
      rewrite lookup_insert_ne; [done|]. intros He. by apply Heq, keys_apart.
Qed.

Lemma insert_preimages_ok (l : list (list Z)) d (c : gmap (list Z) (list Z)) :
  (forall h, h ∈ l -> exists k, c !! h = Some k /\ is_key k /\ h = keccak256 k) -> preimages_ok d ->
  forall k', is_key k' ->
    db_preimage (foldl (fun d hk => insertPreimage d (BytesToHash hk) (default [] (c !! hk))) d l) (keccak256 k') =
    if decide (keccak256 k' ∈ l) then Some k' else db_preimage d (keccak256 k').
Proof.
  revert d. induction l as [|h l IH]; intros d Hl Hd k' Hk'; simpl; [done|].
  destruct (Hl h) as (k & Hc & Hk & ->); [by left|]. rewrite Hc, BytesToHash_id by apply keccak_len. simpl default.
  destruct (insertPreimage_ok d k Hd Hk) as [Hd' Hp]. rewrite IH, Hp by (done || intros; apply Hl; by right).
  destruct (decide (keccak256 k' ∈ l)); [by rewrite decide_True by (by right)|]. destruct (decide (k = k')) as [->|Hne].
  - by rewrite decide_True by (by left).
  - rewrite decide_False; [done|]. intros [He|]%elem_of_cons; [|done]. by apply Hne, keys_apart.
Qed.

(** What a lookup of a hash returns, from the cache or the database, before
    and after [Commit] moves the cache there. *)
Lemma keys_found d t s k :
  secure_rep t s -> preimages_ok d -> is_key k ->
  (GetKey d t (keccak256 k)).1 = (if decide (k ∈ km_known s) then Some k else db_preimage d (keccak256 k)) /\
  db_preimage (store_preimages t d).2 (keccak256 k) = (if decide (k ∈ km_known s) then Some k else db_preimage d (keccak256 k)).
Proof.
  intros [_ Hkn] Hd Hk. pose proof (known_lookup is_key keys_apart t _ k Hkn Hk) as Hl. split.
  - unfold GetKey. simpl. rewrite Hl. case_decide; [done|]. by rewrite BytesToHash_id by apply keccak_len.
  - unfold store_preimages. cbv zeta. destruct (decide (secKeyCache (getSecKeyCache t) = ∅)) as [He|He].
    + rewrite He, lookup_empty in Hl. by case_decide.
    + cbn [snd]. rewrite insert_preimages_ok; [|..|done|done].
      * destruct (decide (k ∈ km_known s)); [rewrite decide_True|rewrite decide_False]; rewrite ?map_order_elem, ?Hl; by eauto || by intros [].
      * intros h [k' Hk']%map_order_elem. exists k'. split; [done|]. destruct Hkn as [HC Hc]. apply Hc in Hk' as [Hin ->]. by split; [apply HC|].
Qed.

End runs.

(** ** Examples *)

Module Secure.
#[local] Existing Instance toy_keccak.
#[local] Existing Instance no_db.
#[local] Existing Instance list_order.
#[local] Existing Instance no_cache.
#[local] Instance no_code : CodeStore := {| codeCache _ := []; codeSizeCache _ := None; disk_Get _ := [] |}.

Definition alice : list Z := replicate 20 1.
Definition bob : list Z := replicate 20 2.
Definition slot : list Z := replicate 32 3.
Definition keys : list (list Z) := [alice; bob; slot].
Definition in_use (k : list Z) : Prop := k ∈ keys.

Lemma in_use_apart k k' : in_use k -> in_use k' -> keccak256 k = keccak256 k' -> k = k'.
Proof.
  intros Hk Hk'. repeat (apply elem_of_cons in Hk as [->|Hk]); repeat (apply elem_of_cons in Hk' as [->|Hk']);
    try (by apply elem_of_nil in Hk); try (by apply elem_of_nil in Hk'); vm_compute; done.
Qed.

Definition empty_trie : SecureTrie := MkSecure (MkTrie nilNode 0) ∅ false.
Definition empty_database : TrieDatabase.Database unit := NewDatabaseWithCache (MkDisk ∅ []) None.

Lemma empty_rep : secure_rep in_use empty_trie (MkKeyMap ∅ ∅).
Proof.
  split; [apply (empty_holds in_use)|]. split; [done|]. intros h k. split; [done|]. by intros [?%elem_of_empty _].
Qed.

Lemma in_use_value k v : in_use k -> (zlen v <? 2 ^ 47) = true -> bool_decide (bytes_ok v) = true -> in_use k /\ (v <> [] -> is_value v).
Proof. intros Hk Hz Hb. split; [done|]. intros Hv. apply bool_decide_eq_true in Hb. split_and!; [done|done|lia]. Qed.

(** The run updates two keys, removes one of them and copies the trie. *)
Definition some_ops : list sec_op :=
  [SUpdate alice [1; 2]; SUpdate bob [3]; SCopy; SUpdate slot [4]; SDelete bob; SGet alice; SGet bob; SHash (seq 0 16)].

Lemma some_ops_ok : Forall (op_ok in_use) some_ops.
Proof.
  assert (Ha : in_use alice) by by left. assert (Hb : in_use bob) by by right; left.
  assert (Hs : in_use slot) by by right; right; left.
  repeat (apply Forall_cons; split); [..|done]; simpl op_ok; done || by apply in_use_value.
Qed.


(** A state in which bob, who is stored, self-destructed and alice, who is new,
    wrote a slot. *)
Definition code_hash : list Z := replicate 32 9.
Definition alice_object : stateObject SecureTrie :=
  MkObject alice (MkAccount 1 5 emptyRoot code_hash) None None None ∅ ∅ {[ slot := replicate 32 7 ]} None false false false.
Definition bob_account : Account := MkAccount 2 6 emptyRoot code_hash.
Definition bob_object : stateObject SecureTrie := MkObject bob bob_account None None None ∅ ∅ ∅ None false true false.
Definition account_trie : SecureTrie := (sec_TryUpdate empty_trie bob (account_rlp bob_account)).2.
Definition nothing : Snapshot := MkSnapshot (fun _ => None) (fun _ _ => None).
Definition before : StateDB SecureTrie :=
  MkStateDB account_trie (Some nothing) ∅ ∅ ∅ {[ alice := alice_object; bob := bob_object ]} ∅ ∅ None 0 zero_hash zero_hash 0 ∅ 0 ∅
    (MkJournal [] {[ alice := 1; bob := 1 ]}) [] 0.

#[local] Instance in_use_map : TrieMap SecureTrie in_use := secure_map in_use in_use_apart.

Lemma small_account_ok n b : is_u64 n -> 0 <= b < 2 ^ 256 -> account_ok (MkAccount n b emptyRoot code_hash).
Proof. intros Hn Hb. split; [done|]. split; [done|]. split; (split; [done|solve_decidable]). Qed.

Lemma account_trie_holds : holds account_trie {[ bob := account_rlp bob_account ]}.
Proof.
  assert (Hv : is_value (account_rlp bob_account)) by (apply encode_account, small_account_ok; unfold is_u64; lia).
  destruct (sec_TryUpdate_ok in_use in_use_apart empty_trie ∅ bob (account_rlp bob_account) (empty_holds in_use ∅ false)) as (t & Hrun & Ht); [by right; left|done|].
  unfold account_trie. rewrite Hrun. rewrite decide_False in Ht by apply Hv. exact Ht.
Qed.

Lemma before_object a o :
  stateObjects before !! a = Some o -> a = alice /\ o = alice_object \/ a = bob /\ o = bob_object.
Proof. simpl. rewrite lookup_insert_Some, lookup_singleton_Some. naive_solver. Qed.

Lemma fresh_object_ready o :
  account_ok (data o) -> Root (data o) = emptyRoot -> obj_trie o = None -> originStorage o = ∅ ->
  map_Forall (fun k v => in_use k /\ is_hash v) (unwritten o) -> obj_ready in_use o ∅.
Proof.
  intros Ha Hr Ht Ho Hw. split; [done| |].
  - unfold trie_holds. rewrite Ht, Hr. split; [by vm_compute|]. exists empty_trie. split; [by vm_compute|]. apply (empty_holds in_use).
  - rewrite Ho. by split.
Qed.

Lemma alice_unwritten : unwritten alice_object = {[ slot := replicate 32 7 ]}.
Proof. by vm_compute. Qed.
Lemma bob_unwritten : unwritten bob_object = ∅.
Proof. by vm_compute. Qed.

Lemma before_ready : ready in_use before (fun _ => ∅).
Proof.
  split; [| |by intros a ?%elem_of_empty].
  - intros a o Ho. destruct (before_object a o Ho) as [[-> ->]|[-> ->]]; (split; [done|]); [by left|by right; left].
  - intros a o Ho _. destruct (before_object a o Ho) as [[-> ->]|[-> ->]];
      (apply fresh_object_ready; [apply small_account_ok; unfold is_u64; lia|done|done|done|]); [rewrite alice_unwritten|rewrite bob_unwritten; apply map_Forall_empty].
    apply map_Forall_singleton. split; [by right; right; left|]. split; [done|solve_decidable].
Qed.

Lemma IntermediateRoot_correct_witness :
  exists s' m', IntermediateRoot before true = Ok (built_root m', s') /\ m' !! bob = None /\
    m' !! alice = Some (account_rlp (MkAccount 1 5 (built_root {[ slot := slot_rlp (replicate 32 7) ]}) code_hash)) /\
    (exists b, snapAccounts s' !! keccak256 alice = Some b) /\ ready in_use s' (storage_after before (fun _ => ∅)).
Proof.
  destruct (IntermediateRoot_correct in_use true before (fun _ => ∅) {[ bob := account_rlp bob_account ]})
    as (s' & m' & Hrun & _ & Hm & Hobj & Hready & _ & _).
  - exact before_ready.
  - exact account_trie_holds.
  - exists s', m'. split; [exact Hrun|]. split; [|split; [|split; [|exact Hready]]].
    + rewrite Hm. vm_compute. reflexivity.
    + rewrite Hm. vm_compute. reflexivity.
    + destruct (Hobj alice alice_object) as (_ & _ & _ & Hsnap); [vm_compute; reflexivity..|].
      destruct Hsnap as (b & Hb & _); [done| |by exists b].
      intros a b [o Ho] [o' Ho']. destruct (before_object a o Ho) as [[-> _]|[-> _]], (before_object b o' Ho') as [[-> _]|[-> _]]; vm_compute; done.
Defined.
End Secure.
