(* ===== verification/StateCommit.v ===== *)
(** * Copying and committing the state (src/core/state/statedb.go)

    [Copy] makes a state that can be changed on its own, [Commit] writes a
    state to the database of tries: the code of contracts to the disk, the
    storage tries, and the account trie with references from the accounts to
    their storage.  The file shows that a committed state can be opened again,
    and when a copy has the root of the original. *)
From stdpp Require Import prelude list gmap.
From Stdlib Require Import ZArith Lia.
From S2P Require Import Prelude RlpEncode RlpRaw RlpStream TrieEncoding Trie TrieNode TrieHash TrieDatabase TrieGC TrieFlush TrieCommit StateDB StateRevert StateRoot SecureTrie.

(** ** The state on a database of tries *)

(** The caches of code, from hashicorp/golang-lru and VictoriaMetrics/fastcache. *)
Class CodeCaches := { cached_code : list Z -> list Z; cached_size : list Z -> option Z }.

Section code.
Context {K : Keccak} {C : Type} {CC : CleanCache C} {MO : MapOrder} {CD : CodeCaches}.
Implicit Types (d : TrieDatabase.Database C) (o : stateObject SecureTrie) (s : StateDB SecureTrie).

(** Code is read from the disk below the database. *)
Definition disk_code d : CodeStore :=
  {| codeCache := cached_code; codeSizeCache := cached_size; disk_Get k := default [] (d_data (diskdb d) !! k) |}.
Abbreviation ops d := (secure_ops (db := db_reader d)).
Abbreviation sdb d := (cachingDB (db := db_reader d) (CS := disk_code d)).

(** [New] without snapshots *)
Definition empty_state (tr : SecureTrie) : StateDB SecureTrie :=
  MkStateDB tr None ∅ ∅ ∅ ∅ ∅ ∅ None 0 zero_hash zero_hash 0 ∅ 0 ∅ newJournal [] 0.
Definition state_New d (root : hash_t) : tr (StateDB SecureTrie) :=
  tr ← OpenTrie (StateDatabase := sdb d) root;
  Ok (empty_state tr).

(** *** Copy *)

(** [stateObject.deepCopy] *)
Definition deepCopy o : stateObject SecureTrie :=
  let n := newObject (T := SecureTrie) (address o) (data o) false in
  MkObject (address n) (data n) (obj_dbErr n) (sec_Copy <$> obj_trie o) (code o) (originStorage o) (pendingStorage o) (dirtyStorage o)
    (fakeStorage n) (dirtyCode o) (suicided o) (deleted o).

(** The objects in the journal, marked as dirty and pending *)
Definition copy_journaled s (state : StateDB SecureTrie) (addr : addr_t) : StateDB SecureTrie :=
  match stateObjects s !! addr with
  | Some o =>
      with_marks (with_objects state (<[addr := deepCopy o]> (stateObjects state)))
        ({[ addr ]} ∪ stateObjectsPending state) ({[ addr ]} ∪ stateObjectsDirty state)
  | None => state
  end.

(** An object that was marked before *)
Definition copy_object s (state : StateDB SecureTrie) (addr : addr_t) : go (StateDB SecureTrie) :=
  match stateObjects state !! addr with
  | Some _ => Ok state
  | None =>
      match stateObjects s !! addr with
      | Some o => Ok (with_objects state (<[addr := deepCopy o]> (stateObjects state)))
      | None => Panic
      end
  end.

Fixpoint copy_pending (addrs : list addr_t) s (state : StateDB SecureTrie) : go (StateDB SecureTrie) :=
  match addrs with
  | [] => Ok state
  | addr :: addrs =>
      state ← copy_object s state addr;
      copy_pending addrs s (with_marks state ({[ addr ]} ∪ stateObjectsPending state) (stateObjectsDirty state))
  end.

Fixpoint copy_dirty (addrs : list addr_t) s (state : StateDB SecureTrie) : go (StateDB SecureTrie) :=
  match addrs with
  | [] => Ok state
  | addr :: addrs =>
      state ← copy_object s state addr;
      copy_dirty addrs s (with_marks state (stateObjectsPending state) ({[ addr ]} ∪ stateObjectsDirty state))
  end.

Definition state_Copy s : go (StateDB SecureTrie) :=
  let state := MkStateDB (sec_Copy (trie s)) None ∅ ∅ ∅ ∅ ∅ ∅ None (refund s) zero_hash zero_hash 0 (logs s) (logSize s) (sha3_preimages s) newJournal [] 0 in
  let state := foldl (copy_journaled s) state (map_order (dirties (jrnl s))) in
  state ← copy_pending (map_order (gset_to_gmap tt (stateObjectsPending s))) s state;
  copy_dirty (map_order (gset_to_gmap tt (stateObjectsDirty s))) s state.

(** *** Commit *)

Abbreviation ce A := (outcome state_error A).
Definition lift_ce {A} (m : go A) : ce A := match m with Ok x => Ok x | _ => Panic end.

(** [stateObject.CommitTrie] *)
Definition CommitTrie d s o : ce (StateDB SecureTrie * stateObject SecureTrie * TrieDatabase.Database C) :=
  '(s, o) ← lift_ce (updateTrie (TO := ops d) (SD := sdb d) s o);
  match obj_trie o with
  | None => Ok (s, o, d)
  | Some t =>
      match obj_dbErr o with
      | Some err => Err err
      | None =>
          '(root, t, d) ← lift_ce (sec_Commit None (seq 0 16) t d);
          Ok (s, set_data (set_trie o (Some t)) (MkAccount (Nonce (data o)) (Balance (data o)) root (CodeHash (data o))), d)
      end
  end.

(** [rawdb.WriteCode] *)
Definition WriteCode (b : Batch) (hash : hash_t) (c : list Z) : Batch := batch_Put b (codeKey hash) c.

(** The code of an object that was set since the last commit *)
Definition write_code o (codeWriter : Batch) : stateObject SecureTrie * Batch :=
  match code o, dirtyCode o with
  | Some c, true => (set_code o (Some c) false, WriteCode codeWriter (BytesToHash (CodeHash (data o))) c)
  | _, _ => (o, codeWriter)
  end.

Fixpoint commit_objects (addrs : list addr_t) d s (codeWriter : Batch) : ce (StateDB SecureTrie * TrieDatabase.Database C * Batch) :=
  match addrs with
  | [] => Ok (s, d, codeWriter)
  | addr :: addrs =>
      match stateObjects s !! addr with
      | None => Panic
      | Some o =>
          if deleted o then commit_objects addrs d s codeWriter
          else
            let '(o, codeWriter) := write_code o codeWriter in
            '(s, o, d) ← CommitTrie d s o;
            commit_objects addrs d (with_objects s (<[addr := o]> (stateObjects s))) codeWriter
      end
  end.

(** A failure to write the code ends the process. *)
Definition flush_code d (codeWriter : Batch) : ce (TrieDatabase.Database C) :=
  if b_size codeWriter >? 0 then
    let '(ok, disk) := batch_Write (diskdb d) codeWriter in if ok : bool then Ok (set_disk d disk) else Panic
  else Ok d.

(** The leaf callback: an account refers to its storage. *)
Definition reference_storage : LeafCallback (C := C) := fun leaf parent d =>
  match decode_account leaf with
  | None => Ok d
  | Some account => if decide (Root account = emptyRoot) then Ok d else reference d (Root account) parent
  end.

(** The snapshot tree is updated outside of the model. *)
Definition drop_snap s : StateDB SecureTrie :=
  MkStateDB (trie s) None ∅ ∅ ∅ (stateObjects s) (stateObjectsPending s) (stateObjectsDirty s) (dbErr s) (refund s) (thash s) (bhash s) (txIndex s)
    (logs s) (logSize s) (sha3_preimages s) (jrnl s) (validRevisions s) (nextRevisionId s).

(** [StateDB.Commit] *)
Definition state_Commit d s (deleteEmptyObjects : bool) : ce (hash_t * StateDB SecureTrie * TrieDatabase.Database C) :=
  match dbErr s with
  | Some err => Err err
  | None =>
      '(_, s) ← lift_ce (IntermediateRoot (TO := ops d) (SD := sdb d) s deleteEmptyObjects);
      '(s, d, codeWriter) ← commit_objects (map_order (gset_to_gmap tt (stateObjectsDirty s))) d s NewBatch;
      let s := with_marks s (stateObjectsPending s) ∅ in
      d ← flush_code d codeWriter;
      '(root, t, d) ← lift_ce (sec_Commit (Some reference_storage) (seq 0 16) (trie s) d);
      let s := with_trie s t (dbErr s) in
      Ok (root, match snap s with Some _ => drop_snap s | None => s end, d)
  end.
End code.

(** ** What a database keeps *)

(** The root of a decoded node has its hash and is clean. *)
Lemma decodeNode_flag fuel hash buf n :
  decodeNode fuel hash buf = Ok n -> match n with shortNode _ _ fl | fullNode _ fl => fl = NodeFlag hash false | _ => True end.
Proof.
  destruct fuel as [|fuel]; [done|]. cbn [decodeNode]. destruct (zlen buf =? 0); [done|]. intros H. outcome_inv H.
  destruct (_ =? 2); [|destruct (_ =? 17); [|done]].
  - unfold decodeShort in H. outcome_inv H. destruct (hasTerm _); outcome_inv H; done.
  - unfold decodeFull in H. outcome_inv H. done.
Qed.

Section kept.
Context {K : Keccak} {C : Type} {CC : CleanCache C} {MO : MapOrder} (rank : hash_t -> nat).
Context (is_key : list Z -> Prop) (keys_apart : forall k k', is_key k -> is_key k' -> keccak256 k = keccak256 k' -> k = k').
Implicit Types (d : TrieDatabase.Database C) (M : gmap (list Z) (list Z)) (T : tree).

(** The tree of a map with plain keys. *)
Definition tree_for M T : Prop := entries_ok is_key M /\ exists m, hashed M m /\ tree_map T m.

(** The trie of the map is in the database under its root. *)
Definition kept d (r : hash_t) M : Prop :=
  exists T, tree_for M T /\ TrieCommit.nonzero T /\ r = mroot T /\ (T <> TEmpty -> held (db := db_reader d) T /\ mhash T <> emptyRoot).

Lemma tree_for_unique M T T' : tree_for M T -> tree_for M T' -> T = T'.
Proof.
  intros (_ & m & Hm & HT) (_ & m' & Hm' & HT'). rewrite (hashed_unique _ _ _ Hm' Hm) in HT'. by eapply tree_map_unique.
Qed.

Lemma tree_for_branch M T : tree_for M T -> T = TEmpty \/ branch T.
Proof. intros (_ & m & _ & [[->|Hc] _]); [by left|right]. by apply canon_branch_tree. Qed.

Lemma tree_for_holds {db : NodeReader} t M T : secure_holds is_key t M -> tree_for M T -> rep Trie.Root (root (sec_trie t)) T.
Proof.
  intros (m & (T' & Hr & HT') & Hh & HM) (_ & m' & Hm' & HT). rewrite (hashed_unique _ _ _ Hh Hm') in HT'. by rewrite (tree_map_unique T T' m') by done.
Qed.

Lemma holds_tree_for {db : NodeReader} t M T : tree_for M T -> rep Trie.Root (root (sec_trie t)) T -> secure_holds is_key t M.
Proof. intros (HM & m & Hm & HT) Hr. exists m. split; [by exists T|done]. Qed.

Lemma kept_opens d r M : kept d r M -> exists t, NewSecure (db := db_reader d) r = Ok t /\ secure_holds is_key (db := db_reader d) t M.
Proof.
  intros (T & HT & Hn & -> & Hheld). pose proof HT as (HM & m & Hm & Htm).
  destruct (New_held d m T Htm) as (t & Hnew & Hst).
  { intros Ht. destruct (Hheld Ht) as [Hh He]. split_and!; [done| |done]. destruct (tree_for_branch M T HT); [done|]. apply Hn; [done|constructor]. }
  exists (MkSecure t ∅ false). unfold NewSecure. rewrite Hnew. split; [done|]. by exists m.
Qed.

Lemma kept_extends d d' r M : extends (db_reader d) (db_reader d') -> kept d r M -> kept d' r M.
Proof.
  intros He (T & HT & Hn & -> & Hheld). exists T. split_and!; try done. intros Ht. destruct (Hheld Ht) as [Hh Hr]. split; [|done].
  destruct (tree_for_branch M T HT); [done|]. by apply (held_mono (db_reader d) (db_reader d')).
Qed.

Lemma holds_extends d d' t M T :
  extends (db_reader d) (db_reader d') -> tree_for M T -> TrieCommit.nonzero T -> secure_holds is_key (db := db_reader d) t M -> secure_holds is_key (db := db_reader d') t M.
Proof.
  intros He HT Hn Hh. apply (holds_tree_for (db := db_reader d') t M T); [done|]. apply (rep_extends (db_reader d) (db_reader d')); [done..|].
  by apply (tree_for_holds (db := db_reader d) t M T).
Qed.

Lemma reader_clean d k h n :
  good rank k d -> zlen h = 32 -> h <> zeroHash -> db_reader d h = Some n -> match n with shortNode _ _ fl | fullNode _ fl => fl = NodeFlag (Some h) false | _ => True end.
Proof.
  intros (Hs & Ho & _) Hl Hz. rewrite (reader_content rank) by done. destruct (content d h) as [b|]; [|done]. simpl. unfold decoded, mustDecodeNode.
  destruct (decodeNode _ _ _) as [x| |] eqn:E; try done. intros [= <-]. by apply decodeNode_flag in E.
Qed.

(** A trie that can be opened at the root of its map is kept. *)
Lemma opens_kept d k r M T t :
  good rank k d -> tree_for M T -> TrieCommit.nonzero T -> r = mroot T -> NewSecure (db := db_reader d) r = Ok t -> secure_holds is_key (db := db_reader d) t M -> kept d r M.
Proof.
  intros Hg HT Hn -> Hnew Hh. exists T. split_and!; try done. intros Ht. destruct (tree_for_branch M T HT) as [|Hb]; [done|].
  pose proof (tree_for_holds (db := db_reader d) t M T Hh HT) as Hr. unfold NewSecure, New in Hnew. replace (mroot T) with (mhash T) in Hnew by (by destruct T).
  assert (Hz : mhash T <> zeroHash) by (apply Hn; [done|constructor]).
  rewrite (bool_decide_eq_true_2 (mhash T <> replicate 32 0)) in Hnew by done. simpl andb in Hnew.
  destruct (bool_decide_reflect (mhash T <> emptyRoot)) as [He|He]; [|simpl in Hnew; injection Hnew as <-; simpl in Hr; by inversion Hr; subst].
  unfold resolveHash in Hnew. rewrite mhash_id in Hnew. destruct (db_node (mhash T)) as [n|] eqn:Hdb; [|done]. simpl in Hnew. injection Hnew as <-. simpl in Hr.
  pose proof (reader_clean d k (mhash T) n Hg (keccak_len _) Hz Hdb) as Hfl. split; [|done].
  destruct Hr as [| |? c fl ? Hc Hf|cs fl ts Hcs Hf|h x ? Hx _ _ (_ & _ & Hheld)]; try done; subst fl; by apply Hf.
Qed.
End kept.

(** ** One commit after the other *)

Section commits.
Context {K : Keccak} {C : Type} {CC : CleanCache C} {MO : MapOrder} (rank : hash_t -> nat).
Context (is_key : list Z -> Prop) (keys_apart : forall k k', is_key k -> is_key k' -> keccak256 k = keccak256 k' -> k = k').
(** The trees that are committed. *)
Context (forest : list tree).
Hypothesis forest_acyclic : Forall (acyclic rank) forest.
Hypothesis empty_hash : keccak256 [0x80] = emptyRoot.
Implicit Types (d : TrieDatabase.Database C) (M : gmap (list Z) (list Z)) (T : tree).

(** The hash function has no collision between the nodes of the trees and the
    contents of the database. *)
Definition clash_free d : Prop :=
  forall b b', b = [0x80] \/ (exists T, T ∈ forest /\ b ∈ encodings T) \/ (exists h, zlen h = 32 /\ h <> zeroHash /\ content d h = Some b) ->
  (exists T, T ∈ forest /\ b' ∈ encodings T) -> keccak256 b = keccak256 b' -> b = b'.

(** There is room for [k] more references, and no commit of a tree can clash. *)
Definition fit (k : Z) d : Prop := good rank k d /\ sealed d /\ clash_free d.

Lemma fit_collision_free k d T : fit k d -> T ∈ forest -> collision_free d T.
Proof. intros (_ & _ & Hc) HT b b' Hb Hb'. apply Hc; [|by exists T]. destruct Hb as [?|[?|?]]; [by left|right; left; by exists T|by right; right]. Qed.

Lemma forest_nonzero T : T ∈ forest -> TrieCommit.nonzero T.
Proof. intros HT. eapply acyclic_nonzero. rewrite Forall_forall in forest_acyclic. by apply forest_acyclic. Qed.

(** Contents of 32 bytes are all that matters. *)
Definition same_content d d' : Prop := forall h, zlen h = 32 -> content d' h = content d h.

Lemma fit_same k k' d d' : same_content d d' -> good rank k' d' -> fit k d -> fit k' d'.
Proof.
  intros Hc Hg (_ & Hs & Hf). split; [done|]. split.
  - intros h b Hl Hz. rewrite Hc by done. by apply Hs.
  - intros b b' Hb. apply Hf. destruct Hb as [?|[?|(h & Hl & Hz & Hb)]]; [by left|by right; left|]. right; right. exists h. by rewrite <- Hc.
Qed.

Lemma extends_same k k' d d' : same_content d d' -> good rank k d -> good rank k' d' -> extends (db_reader d) (db_reader d').
Proof. intros Hc (Hs & Ho & _) (Hs' & Ho' & _) h n Hl Hz. by rewrite !(reader_content rank), Hc. Qed.

Lemma blob_in M T x : tree_for is_key M T -> branch x -> sub x T -> blob_of x ∈ encodings T.
Proof.
  intros (HM & m & Hm & HT) Hb Hs. pose proof (tree_map_hashable T m HT (hashed_fits is_key M m Hm HM)) as Hh. destruct HT as [Hc _].
  by destruct (sub_ok x T Hs (or_introl Hc) Hh Hb) as (_ & _ & ?).
Qed.

Lemma fit_grown k k' d d' M T : tree_for is_key M T -> T ∈ forest -> fit k d -> grown rank k' T d d' -> fit k' d'.
Proof.
  intros HM HT (_ & Hs & Hf) [Hg _ _ Hnew _]. split; [done|]. split.
  - intros h b Hl Hz Hb. destruct (Hnew h) as [He|(s & Hbr & Hsub & -> & He)]; [apply Hs; congruence|]. rewrite He in Hb. by injection Hb as <-.
  - intros b b' Hb. apply Hf. destruct Hb as [?|[?|(h & Hl & Hz & Hb)]]; [by left|by right; left|].
    destruct (Hnew h) as [He|(s & Hbr & Hsub & -> & He)]; [right; right; exists h; by rewrite <- He|]. rewrite He in Hb. injection Hb as <-.
    right; left. exists T. split; [done|by eapply blob_in].
Qed.

(** *** Preimages and code *)

Lemma store_preimages_same t d : exists p n, (store_preimages t d).2 = set_preimages d p n.
Proof.
  assert (Hsame : exists p n, d = set_preimages d p n) by (exists (TrieDatabase.preimages d), (preimagesSize d); by destruct d).
  unfold store_preimages. destruct (decide _); [done|]. cbn [snd]. generalize (map_order (secKeyCache (getSecKeyCache t))) as l. intros l.
  assert (H : forall d1, (exists p n, d1 = set_preimages d p n) -> exists p n, foldl (fun d hk => insertPreimage d (BytesToHash hk) (default [] (secKeyCache (getSecKeyCache t) !! hk))) d1 l = set_preimages d p n).
  { clear. induction l as [|h l IH]; intros d1 Hd; [done|]. simpl. apply IH. destruct Hd as (p & n & ->). unfold insertPreimage. destruct (_ !! _); by eexists _, _. }
  by apply H.
Qed.

Lemma good_preimages k d p n : good rank k d -> good rank k (set_preimages d p n).
Proof. intros ([[] ? ? ? ?] & Ho & Hr). split; [|done]. by split. Qed.

(** Writes to other keys than those of nodes. *)
Lemma good_disk k d ws fs :
  (forall x v, (x, v) ∈ ws -> zlen x <> 32) -> good rank k d ->
  good rank k (set_disk d (MkDisk (apply_writes (d_data (diskdb d)) ws) fs)) /\ same_content d (set_disk d (MkDisk (apply_writes (d_data (diskdb d)) ws) fs)).
Proof.
  intros Hws ([Hwf Hcov Hblob Hcl Hlen] & Ho & Hr). set (d' := set_disk _ _).
  assert (Hsame : forall h, zlen h = 32 -> d_data (diskdb d') !! h = d_data (diskdb d) !! h).
  { intros h Hh. simpl. destruct (apply_writes_cases (d_data (diskdb d)) ws h) as [(v & Hin & _)|[_ Hv]]; [by destruct (Hws h v)|done]. }
  assert (Hmono : forall h, d_data (diskdb d') !! h = None -> d_data (diskdb d) !! h = None).
  { intros h. rewrite !eq_None_not_Some. intros Hn Hd. by apply Hn, apply_writes_mono. }
  split; [|intros h Hh; unfold content; rewrite Hsame by done; done]. split; [|done]. split; try done.
  - destruct Hwf. by split.
  - intros h Hh. by apply Hcov, Hmono.
  - intros h n Hn Hz. destruct (Hblob h n Hn Hz) as (b & Hb & Hd). exists b. split; [done|]. intros b'. rewrite Hsame by (by eapply Hlen). apply Hd.
  - intros h b Hh Hg. rewrite Hsame by done. by apply Hcl.
Qed.

(** *** Secure tries *)

Lemma sec_Commit_ok onleaf k d t M T :
  secure_holds is_key (db := db_reader d) t M -> tree_for is_key M T -> T ∈ forest -> 0 <= k -> fit (weight T + k) d ->
  (forall f, onleaf = Some f -> callback_ok rank (leaves T) f) ->
  exists t' d', sec_Commit onleaf (seq 0 16) t d = Ok (mroot T, t', d') /\ fit k d' /\ extends (db_reader d) (db_reader d') /\
    diskdb d' = diskdb d /\ secure_holds is_key (db := db_reader d') t' M /\ kept is_key d' (mroot T) M.
Proof.
  intros Hh HT Hin Hk Hfit Hf. pose proof HT as (HM & m & Hm & Htm). unfold sec_Commit. destruct (store_preimages t d) as [t1 d1] eqn:Hst.
  destruct (store_preimages_same t d) as (p & n & Hd1). rewrite Hst in Hd1. simpl in Hd1.
  assert (Ht1 : sec_trie t1 = sec_trie t).
  { unfold store_preimages, getSecKeyCache in Hst. destruct (owned t); destruct (decide _); by injection Hst as <- _. }
  assert (Hg1 : good rank (weight T + k) d1) by (rewrite Hd1; apply good_preimages, Hfit).
  assert (Hc1 : same_content d d1) by (rewrite Hd1; done).
  assert (He1 : extends (db_reader d) (db_reader d1)) by (eapply extends_same; [done|apply Hfit|done]).
  pose proof (fit_same _ _ _ _ Hc1 Hg1 Hfit) as Hfit1.
  assert (Hh1 : secure_holds is_key (db := db_reader d1) t M) by (eapply holds_extends; [done..|by apply forest_nonzero|done]).
  assert (Hst1 : stores (db := db_reader d1) (G := merkle (db := db_reader d1)) (sec_trie t1) m).
  { destruct Hh1 as (m' & Hs' & Hm' & _). rewrite Ht1. by rewrite (hashed_unique _ _ _ Hm Hm'). }
  destruct (Commit_spec rank onleaf (seq 0 16) k d1 (sec_trie t1) m T) as (t' & d' & -> & Hgr & Hst' & Hheld);
    [done|done|by eapply hashed_fits|done|done|done|apply Hfit1|by eapply fit_collision_free| |done|done|].
  { rewrite Forall_forall in forest_acyclic. by apply forest_acyclic. }
  bind_simpl. eexists _, d'. split; [done|]. split; [by eapply fit_grown|]. pose proof (gr_extends _ _ _ _ _ Hgr) as He2.
  split_and!.
  - intros h x Hl Hz Hx. by apply He2, He1.
  - destruct (gr_env _ _ _ _ _ Hgr) as (-> & _). by rewrite Hd1.
  - exists m. split; [exact Hst'|done].
  - exists T. split_and!; try done; [by apply forest_nonzero|]. intros Ht. by destruct (Hheld Ht) as (? & _ & ?).
Qed.

Lemma fit_le k k' d : k' <= k -> fit k d -> fit k' d.
Proof. intros Hk (Hg & Hs & Hc). split; [by eapply good_le|done]. Qed.

(** *** Storage tries *)

Context {CD : CodeCaches}.
Implicit Types (o : stateObject SecureTrie) (s : StateDB SecureTrie) (σ : Storage).

(** An object that has written its slots; its trie is open or in the database. *)
Record committing d o σ T : Prop := {
  cg_clean : unwritten o = ∅;
  cg_err : obj_dbErr o = None;
  cg_tree : tree_for is_key (slot_rlp <$> σ) T;
  cg_forest : T ∈ forest;
  cg_held : match obj_trie o with
            | Some t => secure_holds is_key (db := db_reader d) t (slot_rlp <$> σ)
            | None => kept is_key d (mroot T) (slot_rlp <$> σ)
            end;
}.

Lemma committing_extends d d' o σ T : extends (db_reader d) (db_reader d') -> committing d o σ T -> committing d' o σ T.
Proof.
  intros He [Hc Herr HT Hin Hh]. split; try done. destruct (obj_trie o); [|by eapply kept_extends]. eapply holds_extends; [done..|by apply forest_nonzero|done].
Qed.

Lemma CommitTrie_ok k d s o σ T :
  committing d o σ T -> 0 <= k -> fit (weight T + k) d ->
  exists o' d', CommitTrie d s o = Ok (s, o', d') /\ fit k d' /\ extends (db_reader d) (db_reader d') /\ diskdb d' = diskdb d /\
    kept is_key d' (mroot T) (slot_rlp <$> σ).
Proof.
  intros [Hc Herr HT Hin Hh] Hk Hfit. unfold CommitTrie, updateTrie. change (pendingStorage (obj_finalise o)) with (unwritten o). rewrite decide_True by done.
  cbn [lift_ce]. bind_simpl. change (obj_trie (obj_finalise o)) with (obj_trie o). change (obj_dbErr (obj_finalise o)) with (obj_dbErr o). rewrite Herr.
  pose proof (weight_nonneg T). destruct (obj_trie o) as [t|].
  - destruct (sec_Commit_ok None k d t _ T Hh HT Hin Hk Hfit) as (t' & d' & -> & Hfit' & He & Hd & _ & Hkept); [done|]. cbn [lift_ce]. bind_simpl.
    eexists _, d'. by split_and!.
  - exists (obj_finalise o), d. split_and!; try done; [eapply fit_le; [|done]; lia|]. by intros h n.
Qed.

(** The code that a commit writes. *)
Definition dirty_code o : list (list Z * list Z) :=
  if deleted o then [] else match code o, dirtyCode o with Some c, true => [(codeKey (BytesToHash (CodeHash (data o))), c)] | _, _ => [] end.
Definition codes s (l : list addr_t) : list (list Z * list Z) := l ≫= fun a => match stateObjects s !! a with Some o => dirty_code o | None => [] end.

Definition batch_ok (b : Batch) : Prop := b_size b = zsum (map (fun kv => zlen kv.2) (b_writes b)).

Lemma write_code_ok d o σ T w :
  committing d o σ T -> deleted o = false -> batch_ok w ->
  exists o' w', write_code o w = (o', w') /\ committing d o' σ T /\ b_writes w' = b_writes w ++ dirty_code o /\ batch_ok w'.
Proof.
  intros [Hc Herr HT Hin Hh] Hd Hw. unfold write_code, dirty_code. rewrite Hd. destruct (code o) as [c|]; [destruct (dirtyCode o)|];
    try (exists o, w; rewrite app_nil_r; split_and!; [done|by split|done|done]).
  eexists _, _. split; [done|]. split; [by split|]. split; [done|]. unfold batch_ok in *. simpl. rewrite map_app, zsum_app, Hw. simpl. lia.
Qed.

Lemma commit_objects_ok (TS : addr_t -> tree) (σ : addr_t -> Storage) l : forall k d s w,
  NoDup l -> 0 <= k -> fit (zsum (map (fun a => weight (TS a)) l) + k) d -> batch_ok w ->
  (forall a, a ∈ l -> exists o, stateObjects s !! a = Some o /\ (deleted o = false -> committing d o (σ a) (TS a))) ->
  exists s' d' w', commit_objects l d s w = Ok (s', d', w') /\ fit k d' /\ extends (db_reader d) (db_reader d') /\ diskdb d' = diskdb d /\ trie s' = trie s /\
    (forall a o, a ∈ l -> stateObjects s !! a = Some o -> deleted o = false -> kept is_key d' (mroot (TS a)) (slot_rlp <$> σ a)) /\
    b_writes w' = b_writes w ++ codes s l /\ batch_ok w'.
Proof.
  induction l as [|a l IH]; intros k d s w Hnd Hk Hfit Hw Hl.
  { exists s, d, w. split_and!; try done; [by intros h n|by intros a o ?%elem_of_nil|by rewrite app_nil_r]. }
  apply NoDup_cons in Hnd as [Hna Hnd]. destruct (Hl a) as (o & Ho & Hco); [left|]. cbn [commit_objects map] in *. rewrite Ho.
  change (zsum (weight (TS a) :: map (fun a => weight (TS a)) l)) with (weight (TS a) + zsum (map (fun a => weight (TS a)) l)) in Hfit. pose proof (weight_nonneg (TS a)).
  assert (Hcodes : codes s (a :: l) = dirty_code o ++ codes s l) by (unfold codes; simpl; by rewrite Ho).
  destruct (deleted o) eqn:Hdel.
  - destruct (IH k d s w) as (s' & d' & w' & Hrun & Hfit' & He & Hd & Ht & Hkept & Hws & Hw'); try done; [eapply fit_le; [|done]; lia|intros b Hb; apply Hl; by right|].
    exists s', d', w'. split_and!; try done.
    + intros b ob [->|Hb]%elem_of_cons Hob; [congruence|by apply Hkept].
    + rewrite Hws, Hcodes. unfold dirty_code. by rewrite Hdel.
  - destruct (write_code_ok d o (σ a) (TS a) w) as (o1 & w1 & -> & Hc1 & Hws1 & Hw1); [by apply Hco|done|done|].
    assert (Hn : 0 <= zsum (map (fun a => weight (TS a)) l)) by (rewrite <- (map_map TS weight); apply weights_nonneg).
    destruct (CommitTrie_ok (zsum (map (fun a => weight (TS a)) l) + k) d s o1 (σ a) (TS a)) as (o2 & d1 & -> & Hfit1 & He1 & Hd1 & Hk1); [done|lia|eapply fit_le; [|done]; lia|].
    bind_simpl. assert (Hsame : forall b, b ∈ l -> <[a := o2]> (stateObjects s) !! b = stateObjects s !! b) by (intros b Hb; apply lookup_insert_ne; by intros ->).
    destruct (IH k d1 (with_objects s (<[a := o2]> (stateObjects s))) w1) as (s' & d' & w' & Hrun & Hfit' & He & Hd & Ht & Hkept & Hws & Hw'); try done.
    { intros b Hb. simpl. rewrite Hsame by done. destruct (Hl b) as (ob & Hob & Hcb); [by right|]. exists ob. split; [done|]. intros Hdb. by eapply committing_extends, Hcb. }
    exists s', d', w'. split; [done|]. split; [done|]. split; [intros h n Hlh Hz Hn'; by apply He, He1|]. split; [congruence|]. split; [done|]. split_and!; [..|done].
    + intros b ob [->|Hb]%elem_of_cons Hob Hdb; [by eapply kept_extends|]. apply (Hkept b ob); [done| |done]. simpl. by rewrite Hsame.
    + rewrite Hws, Hws1, Hcodes, <- app_assoc. f_equal. f_equal. unfold codes. clear -Hsame. induction l as [|b l IHl]; [done|]. simpl.
      rewrite Hsame by left. f_equal. apply IHl. intros c Hc. apply Hsame. by right.
Qed.

Lemma codes_keys s l x v : (x, v) ∈ codes s l -> zlen x <> 32.
Proof.
  unfold codes. intros (a & Hx & _)%list_elem_of_bind. destruct (stateObjects s !! a) as [o|]; [|by apply elem_of_nil in Hx].
  unfold dirty_code in Hx. destruct (deleted o), (code o), (dirtyCode o); try (by apply elem_of_nil in Hx). apply list_elem_of_singleton in Hx as [= -> ->].
  unfold codeKey. rewrite zlen_cons, BytesToHash_len. lia.
Qed.

Lemma flush_code_ok k d s l w :
  fit k d -> b_writes w = codes s l -> batch_ok w -> head (d_faults (diskdb d)) <> Some true ->
  exists d', flush_code d w = Ok d' /\ fit k d' /\ extends (db_reader d) (db_reader d') /\
    (forall x v, (x, v) ∈ codes s l -> v <> [] -> (forall v', (x, v') ∈ codes s l -> v' = v) -> d_data (diskdb d') !! x = Some v).
Proof.
  intros Hfit Hws Hw Hf. unfold flush_code. destruct (Z.gtb_spec (b_size w) 0) as [Hs|Hs].
  - assert (Hrun : batch_Write (diskdb d) w = (true, MkDisk (apply_writes (d_data (diskdb d)) (codes s l)) (tail (d_faults (diskdb d))))).
    { unfold batch_Write. rewrite Hws. destruct (d_faults (diskdb d)) as [|[] fs]; done. }
    rewrite Hrun. destruct (good_disk k d (codes s l) (tail (d_faults (diskdb d)))) as [Hg Hc]; [apply codes_keys|apply Hfit|]. eexists. split; [done|].
    split; [by eapply fit_same|]. split; [by eapply extends_same; [done|apply Hfit|done]|]. intros x v Hin Hv Huniq. simpl.
    destruct (apply_writes_cases (d_data (diskdb d)) (codes s l) x) as [(v' & Hin' & Hv')|[Hn _]]; [by rewrite Hv', (Huniq v')|by destruct (Hn v)].
  - exists d. split_and!; try done; [by intros h n|]. intros x v Hin Hv _. exfalso. unfold batch_ok in Hw. rewrite Hw, Hws in Hs.
    assert (Hz : zlen v <= zsum (map (fun kv => zlen kv.2) (codes s l))).
    { clear -Hin. induction (codes s l) as [|[y z] ws IH]; [by apply elem_of_nil in Hin|]. assert (0 <= zsum (map (fun kv : list Z * list Z => zlen kv.2) ws)).
      { clear. induction ws as [|[y z] ws IH]; simpl; [done|]. pose proof (zlen_nonneg z). unfold zsum in *. lia. }
      simpl. apply elem_of_cons in Hin as [[= -> ->]|Hin]; [unfold zsum in *; lia|]. specialize (IH Hin). pose proof (zlen_nonneg z). unfold zsum in *. lia. }
    destruct v; [done|]. rewrite zlen_cons in Hz. pose proof (zlen_nonneg v). lia.
Qed.

(** *** The account trie *)

Lemma reference_storage_ok T :
  T ∈ forest -> (forall v h acc, leaves T v h -> decode_account v = Some acc -> Root acc <> emptyRoot -> (rank (Root acc) < rank h)%nat) ->
  callback_ok rank (leaves T) (reference_storage (C := C)).
Proof.
  intros HT Hr v h k d Hl Hd Hk Hg. assert (Hstay : exists d', Ok d = (Ok d' : go _) /\ good rank k d' /\ same_env d d' /\ forall x, content d' x = content d x).
  { exists d. split_and!; try done. eapply good_le; [|done]. lia. }
  unfold reference_storage. destruct (decode_account v) as [acc|] eqn:E; [|done]. destruct (decide _) as [|Hne]; [done|].
  apply (reference_good rank); [done|done|by eapply Hr| |done]. destruct Hl as (x & Hb & Hs & _ & ->). by apply (forest_nonzero T HT).
Qed.

(** *** The state *)

Abbreviation ops d := (secure_ops (db := db_reader d)).
Abbreviation sdb d := (cachingDB (db := db_reader d) (CS := disk_code d)).
Abbreviation tmap d := (secure_map is_key keys_apart (db := db_reader d)).
Implicit Types (S : addr_t -> Storage).

(** A state between transactions: its objects agree with the storage [S] and
    its trie with the accounts [m].  An account that is not about to be written
    has its storage in the database, or an object that the commit visits. *)
Record committable d s S m : Prop := {
  cm_ready : StateRoot.ready (TO := ops d) (SD := sdb d) is_key (TM := tmap d) s S;
  cm_trie : secure_holds is_key (db := db_reader d) (trie s) m;
  cm_err : dbErr s = None;
  cm_pending : stateObjectsPending s ⊆ stateObjectsDirty s;
  cm_objects a : a ∈ stateObjectsDirty s -> is_Some (stateObjects s !! a);
  cm_written a o : a ∈ stateObjectsDirty s -> touched s a = false -> stateObjects s !! a = Some o -> unwritten o = ∅;
  cm_errs a o : stateObjects s !! a = Some o -> obj_dbErr o = None;
  cm_entries a v : touched s a = false -> m !! a = Some v ->
    exists acc, account_ok acc /\ v = account_rlp acc /\ slots_ok is_key (S a) /\ Root acc = built_root (slot_rlp <$> S a) /\
      (kept is_key d (Root acc) (slot_rlp <$> S a) \/ a ∈ stateObjectsDirty s /\ exists o, stateObjects s !! a = Some o /\ deleted o = false);
  cm_codes a b oa ob ca cb : stateObjects s !! a = Some oa -> stateObjects s !! b = Some ob -> code oa = Some ca -> code ob = Some cb ->
    BytesToHash (CodeHash (data oa)) = BytesToHash (CodeHash (data ob)) -> ca = cb;
}.

(** The objects that a commit visits. *)
Definition visited del s : list addr_t := map_order (gset_to_gmap tt (stateObjectsDirty (Finalise s del))).

(** The trees of the storage of the live objects. *)
Definition storage_trees del s S (TS : addr_t -> tree) : Prop :=
  forall a o, a ∈ visited del s -> stateObjects s !! a = Some o -> gone del s a o = false ->
    tree_for is_key (slot_rlp <$> storage_after s S a) (TS a) /\ TS a ∈ forest.

Lemma built_root_tree M T : tree_for is_key M T -> built_root M = mroot T.
Proof. intros (HM & m & Hm & HT). by apply (built_root_spec is_key keys_apart M m T). Qed.

Lemma ready_committing k d o σ T :
  obj_ready (TO := ops d) (SD := sdb d) is_key (TM := tmap d) o σ -> unwritten o = ∅ -> obj_dbErr o = None -> good rank k d ->
  tree_for is_key (slot_rlp <$> σ) T -> T ∈ forest -> committing d o σ T.
Proof.
  intros [_ Ht _] Hw He Hg HT Hin. split; try done. unfold trie_holds in Ht. destruct (obj_trie o); [done|]. destruct Ht as (Hr & t & Hopen & Hh).
  pose proof (built_root_tree _ _ HT) as Hb. change (Root (data o) = built_root (slot_rlp <$> σ)) in Hr. rewrite Hb in Hr. rewrite Hr in Hopen.
  by apply (opens_kept rank is_key d k (mroot T) (slot_rlp <$> σ) T t Hg HT (forest_nonzero T Hin) eq_refl).
Qed.

Lemma elem_of_visited del d s S m a : committable d s S m -> a ∈ visited del s <-> a ∈ stateObjectsDirty s \/ touched s a = true.
Proof.
  intros Hc. rewrite <- (dirty_touched (TO := ops d) (SD := sdb d) is_key (TM := tmap d) del s S a (cm_ready _ _ _ _ Hc) (cm_pending _ _ _ _ Hc)).
  apply map_order_set.
Qed.

(** What [IntermediateRoot] leaves of an object. *)
Definition settled_at d del s S (a : addr_t) (oa : option (stateObject SecureTrie)) : Prop :=
  if touched s a then exists o o', stateObjects s !! a = Some o /\ oa = Some o' /\
    settled_obj (TO := ops d) (SD := sdb d) is_key (TM := tmap d) (finalised_at del s a o) (S a) o'
  else oa = stateObjects s !! a.

(** A live object after it was written. *)
Record live_at d del s S (a : addr_t) o' o : Prop := {
  la_object : stateObjects s !! a = Some o;
  la_live : gone del s a o = false;
  la_ready : obj_ready (TO := ops d) (SD := sdb d) is_key (TM := tmap d) o' (storage_after s S a);
  la_err : obj_dbErr o' = None;
  la_code : code o' = code o /\ dirtyCode o' = dirtyCode o /\ CodeHash (data o') = CodeHash (data o);
  la_written : a ∈ visited del s -> unwritten o' = ∅;
  la_data : touched s a = true -> data o' = account_after (TO := ops d) is_key (TM := tmap d) o (S a);
}.

Lemma finalised_at_keeps del s a o :
  obj_dbErr (finalised_at del s a o) = obj_dbErr o /\ code (finalised_at del s a o) = code o /\ dirtyCode (finalised_at del s a o) = dirtyCode o.
Proof. unfold finalised_at, finalised. destruct (decide _); [|done]. by destruct (suicided o || _). Qed.

Lemma settled_live_at d del s S m a o' : committable d s S m -> settled_at d del s S a (Some o') -> deleted o' = false -> exists o, live_at d del s S a o' o.
Proof.
  intros Hc Hs Hdel. pose proof (cm_ready _ _ _ _ Hc) as Hr. unfold settled_at in Hs. destruct (touched s a) eqn:Ht.
  - destruct Hs as (o & o1 & Ho & [= <-] & Hset). exists o. destruct (finalised_at_facts (TO := ops d) (SD := sdb d) is_key (TM := tmap d) del s a o (S a)) as (Hd & _ & _).
    destruct (gone del s a o) eqn:Hg; [unfold settled_obj in Hset; rewrite Hd in Hset; congruence|].
    destruct (settled_live (TO := ops d) (SD := sdb d) is_key (TM := tmap d) del s S a o o' Hr Ho Hg Hset) as (_ & _ & Hdata & Hw & Hor).
    unfold settled_obj in Hset. rewrite Hd in Hset. destruct Hset as ([] & _). destruct (finalised_at_keeps del s a o) as (Hk1 & Hk2 & Hk3).
    split; try done; [unfold storage_after; by rewrite Ho, Ht|rewrite wr_err, Hk1; by apply (cm_errs _ _ _ _ Hc a)|split_and!; [congruence..|by rewrite Hdata]].
  - exists o'. split; [done| |unfold storage_after; rewrite <- Hs, Ht; by apply (rd_live _ _ _ Hr)|by apply (cm_errs _ _ _ _ Hc a)|done| |congruence].
    + destruct (finalised_at_facts (TO := ops d) (SD := sdb d) is_key (TM := tmap d) del s a o' (S a)) as (<- & _ & _).
      pose proof (untouched_object del s a Ht) as Hu. rewrite <- Hs in Hu. simpl in Hu. injection Hu as ->. done.
    + intros Hv. apply (elem_of_visited del d s S m a Hc) in Hv as [Hv|]; [|congruence]. by apply (cm_written _ _ _ _ Hc a).
Qed.

(** *** Reading a state that was opened *)

(** The state gives the account and the slots of an address. *)
Record reads_as d s (a : addr_t) (acc : Account) σ : Prop := {
  ra_exist : exists s', Exist (TO := ops d) s a = Ok (true, s');
  ra_balance : exists s', GetBalance (TO := ops d) s a = Ok (Balance acc, s');
  ra_nonce : exists s', GetNonce (TO := ops d) s a = Ok (Nonce acc, s');
  ra_codehash : exists s', GetCodeHash (TO := ops d) s a = Ok (CodeHash acc, s');
  ra_state key : is_key key -> exists s', GetState (TO := ops d) (SD := sdb d) s a key = Ok (default zero_hash (σ !! key), s');
  ra_code c : c <> [] -> CodeHash acc <> emptyCodeHash -> cached_code (CodeHash acc) ∈ [[]; c] -> default [] (d_data (diskdb d) !! CodeHash acc) ∈ [[]; c] ->
    d_data (diskdb d) !! codeKey (CodeHash acc) = Some c -> exists s', GetCode (TO := ops d) (SD := sdb d) s a = Ok (Some c, s');
}.

Lemma kept_nonzero d r M : kept is_key d r M -> r <> zero_hash.
Proof.
  intros (T & HT & Hn & -> & _). destruct (tree_for_branch is_key M T HT) as [->|Hb]; [by vm_compute|].
  replace (mroot T) with (mhash T) by (by destruct T). apply Hn; [done|constructor].
Qed.

Lemma fresh_missing d t m a :
  secure_holds is_key (db := db_reader d) t m -> is_key a -> m !! a = None -> exists s', Exist (TO := ops d) (empty_state t) a = Ok (false, s').
Proof.
  intros Ht Ha Hm. destruct (holds_get (TrieMap := tmap d) t m a Ht Ha) as (t' & Hget & _). rewrite Hm in Hget.
  unfold Exist, read, getStateObject, getDeletedStateObject, trie_account. simpl. rewrite lookup_empty. cbn [snap_account snap empty_state].
  change (sec_TryGet t a) with (t_TryGet (TrieOps := ops d) t a). rewrite Hget. by eexists.
Qed.

Lemma fresh_object d t m a acc :
  secure_holds is_key (db := db_reader d) t m -> is_key a -> m !! a = Some (account_rlp acc) -> account_ok acc -> Root acc <> zero_hash ->
  exists s', snap s' = None /\
    getStateObject (TO := ops d) (empty_state t) a = Ok (Some (MkObject a acc None None None ∅ ∅ ∅ None false false false), s').
Proof.
  intros Ht Ha Hm Hok Hz. destruct (holds_get (TrieMap := tmap d) t m a Ht Ha) as (t' & Hget & _). rewrite Hm in Hget.
  unfold getStateObject, getDeletedStateObject, trie_account. simpl. rewrite lookup_empty. cbn [snap_account snap empty_state].
  change (sec_TryGet t a) with (t_TryGet (TrieOps := ops d) t a). rewrite Hget. simpl default.
  rewrite decode_account_rlp by done. destruct (zlen_account_rlp acc Hok) as [Hlen _]. destruct (Z.eqb_spec (zlen (account_rlp acc)) 0); [lia|].
  bind_simpl. unfold newObject. rewrite decide_False by done. destruct acc. by eexists (setStateObject (with_trie (empty_state t) t' None) _).
Qed.

Lemma fresh_slot d s a acc σ key :
  snap s = None -> slots_ok is_key σ -> is_key key -> kept is_key d (Root acc) (slot_rlp <$> σ) ->
  exists o', obj_GetState (TO := ops d) (SD := sdb d) s (MkObject a acc None None None ∅ ∅ ∅ None false false false) key = Ok (default zero_hash (σ !! key), o').
Proof.
  intros Hs Hσ Hk Hkept. destruct (kept_opens is_key d _ _ Hkept) as (t & Hnew & Ht).
  destruct (holds_get (TrieMap := tmap d) t _ key Ht Hk) as (t' & Hget & _).
  unfold obj_GetState, GetCommittedState. simpl. rewrite !lookup_empty, Hs. unfold getTrie. simpl.
  rewrite Hnew. bind_simpl.
  change (sec_TryGet t key) with (t_TryGet (TrieOps := ops d) t key). rewrite Hget, lookup_fmap.
  destruct (σ !! key) as [v|] eqn:E; simpl default; [rewrite decode_slot_rlp by (by apply (Hσ key v))|]; by eexists.
Qed.

Lemma fresh_reads d t m a acc σ :
  secure_holds is_key (db := db_reader d) t m -> is_key a -> m !! a = Some (account_rlp acc) -> account_ok acc -> slots_ok is_key σ ->
  kept is_key d (Root acc) (slot_rlp <$> σ) -> reads_as d (empty_state t) a acc σ.
Proof.
  intros Ht Ha Hm Hok Hσ Hkept. destruct (fresh_object d t m a acc) as (s' & Hs & Hobj); [done..|by eapply kept_nonzero|].
  assert (Hch : BytesToHash (CodeHash acc) = CodeHash acc) by (apply BytesToHash_id, Hok).
  split; unfold Exist, GetBalance, GetNonce, GetCodeHash, GetState, GetCode, read; rewrite Hobj; bind_simpl; simpl; rewrite ?Hch; try by eexists.
  - intros key Hk. destruct (fresh_slot d s' a acc σ key Hs Hσ Hk Hkept) as (o' & ->). bind_simpl. by eexists.
  - intros c Hc Hne Hcache Hold Hdisk. unfold obj_Code. simpl. rewrite decide_False by done. rewrite Hch. unfold db_ContractCode, ReadCode, ReadCodeWithPrefix. simpl.
    assert (Hpos : (0 <? zlen c) = true) by (destruct c; [done|]; rewrite zlen_cons; pose proof (zlen_nonneg c); lia).
    assert (Hnz : (zlen c =? 0) = false) by lia. rewrite Hdisk. simpl default.
    apply elem_of_cons in Hcache as [Hcache|Hcache%list_elem_of_singleton]; rewrite Hcache; [|rewrite Hpos; by eexists]. simpl.
    apply elem_of_cons in Hold as [Hold|Hold%list_elem_of_singleton]; rewrite Hold; simpl; rewrite ?Hnz; simpl; rewrite Hpos; by eexists.
Qed.

(** *** The commit of a state *)

(** An account that is stored and its storage, after the commit. *)
Lemma entry_kept del d d' s S m TS s1 a v :
  committable d s S m -> storage_trees del s S TS -> extends (db_reader d) (db_reader d') -> settled_at d del s S a (stateObjects s1 !! a) ->
  (forall o', a ∈ visited del s -> stateObjects s1 !! a = Some o' -> deleted o' = false -> kept is_key d' (mroot (TS a)) (slot_rlp <$> storage_after s S a)) ->
  entry_at (TO := ops d) is_key (TM := tmap d) del s S m a = Some v ->
  exists acc, account_ok acc /\ v = account_rlp acc /\ slots_ok is_key (storage_after s S a) /\ kept is_key d' (Root acc) (slot_rlp <$> storage_after s S a).
Proof.
  intros Hc HTS He Hset Hkept Hv. pose proof (elem_of_visited del d s S m a Hc) as Hvis. unfold entry_at in Hv. destruct (touched s a) eqn:Ht.
  - pose proof Hset as Hset'. unfold settled_at in Hset'. rewrite Ht in Hset'. destruct Hset' as (o & o' & Ho & Ho' & Hobj).
    rewrite Ho in Hv. simpl in Hv. destruct (gone del s a o) eqn:Hg; [done|]. injection Hv as <-.
    destruct (settled_live (TO := ops d) (SD := sdb d) is_key (TM := tmap d) del s S a o o' (cm_ready _ _ _ _ Hc) Ho Hg Hobj) as (_ & Hdel & Hdata & _ & Hor).
    destruct (HTS a o) as [HT _]; [by apply Hvis; right|done|done|]. assert (Hst : storage_after s S a = slots_after o (S a)) by (unfold storage_after; by rewrite Ho, Ht).
    exists (account_after (TO := ops d) is_key (TM := tmap d) o (S a)). rewrite <- Hdata at 1. split_and!; [apply Hor|done|rewrite Hst; apply Hor|].
    change (Root _) with (built_root (slot_rlp <$> slots_after o (S a))). rewrite <- Hst, (built_root_tree _ _ HT). apply (Hkept o'); [by apply Hvis; right|done|done].
  - destruct (cm_entries _ _ _ _ Hc a v Ht Hv) as (acc & Hok & -> & Hs & Hroot & Hor). exists acc.
    assert (Hst : storage_after s S a = S a) by (unfold storage_after; rewrite Ht; by destruct (stateObjects s !! a)). rewrite Hst in *. split_and!; try done.
    destruct Hor as [Hk|(Hd & o & Ho & Hdel)]; [by eapply kept_extends|]. unfold settled_at in Hset. rewrite Ht, Ho in Hset.
    destruct (settled_live_at d del s S m a o Hc) as (o1 & Hla); [unfold settled_at; by rewrite Ht, Ho|done|].
    pose proof (la_object _ _ _ _ _ _ _ Hla) as Ho1. rewrite Ho in Ho1. injection Ho1 as <-.
    destruct (HTS a o) as [HT _]; [by apply Hvis; left|done|by eapply la_live|]. rewrite Hst in HT. rewrite Hroot, (built_root_tree _ _ HT).
    apply (Hkept o); [by apply Hvis; left|done|done].
Qed.

(** The code of the objects that a commit writes. *)
Definition fresh_code del s (h : hash_t) (c : list Z) : Prop :=
  c <> [] /\ exists a o, a ∈ visited del s /\ stateObjects s !! a = Some o /\ gone del s a o = false /\ code o = Some c /\ dirtyCode o = true /\
    h = BytesToHash (CodeHash (data o)).

Lemma live_settled d del s S m a o oa :
  committable d s S m -> stateObjects s !! a = Some o -> gone del s a o = false -> settled_at d del s S a oa -> exists o', oa = Some o' /\ deleted o' = false.
Proof.
  intros Hc Ho Hg Hs. unfold settled_at in Hs. destruct (touched s a).
  - destruct Hs as (o1 & o' & Ho1 & -> & Hset). rewrite Ho in Ho1. injection Ho1 as <-. exists o'. split; [done|].
    by destruct (settled_live (TO := ops d) (SD := sdb d) is_key (TM := tmap d) del s S a o o' (cm_ready _ _ _ _ Hc) Ho Hg Hset) as (_ & ? & _).
  - exists o. split; [congruence|by eapply gone_live].
Qed.

Lemma codes_elem d del s S m s1 x c :
  committable d s S m -> (forall a, settled_at d del s S a (stateObjects s1 !! a)) -> (x, c) ∈ codes s1 (visited del s) ->
  exists a o, a ∈ visited del s /\ stateObjects s !! a = Some o /\ gone del s a o = false /\ code o = Some c /\ dirtyCode o = true /\ x = codeKey (BytesToHash (CodeHash (data o))).
Proof.
  intros Hc Hset (a & Hx & Ha)%list_elem_of_bind. specialize (Hset a). destruct (stateObjects s1 !! a) as [o'|]; [|by apply elem_of_nil in Hx].
  unfold dirty_code in Hx. destruct (deleted o') eqn:Hd; [by apply elem_of_nil in Hx|].
  destruct (settled_live_at d del s S m a o' Hc Hset Hd) as (o & Hla). destruct (la_code _ _ _ _ _ _ _ Hla) as (Hc1 & Hc2 & Hc3).
  destruct (code o') eqn:E1, (dirtyCode o') eqn:E2; try (by apply elem_of_nil in Hx). apply list_elem_of_singleton in Hx as [= -> ->].
  exists a, o. split_and!; [done|by eapply la_object|by eapply la_live|by rewrite <- Hc1|by rewrite <- Hc2|by rewrite Hc3].
Qed.

Lemma codes_written d d' del s S m s1 :
  committable d s S m -> (forall a, settled_at d del s S a (stateObjects s1 !! a)) ->
  (forall x v, (x, v) ∈ codes s1 (visited del s) -> v <> [] -> (forall v', (x, v') ∈ codes s1 (visited del s) -> v' = v) -> d_data (diskdb d') !! x = Some v) ->
  forall h c, fresh_code del s h c -> d_data (diskdb d') !! codeKey h = Some c.
Proof.
  intros Hc Hset Hdisk h c (Hne & a & o & Ha & Ho & Hg & Hcode & Hdc & ->). apply Hdisk; [|done|].
  - destruct (live_settled d del s S m a o _ Hc Ho Hg (Hset a)) as (o' & Ho' & Hdel). pose proof (Hset a) as Hs. rewrite Ho' in Hs.
    destruct (settled_live_at d del s S m a o' Hc Hs Hdel) as (o1 & Hla). pose proof (la_object _ _ _ _ _ _ _ Hla) as Ho1. rewrite Ho in Ho1. injection Ho1 as <-.
    destruct (la_code _ _ _ _ _ _ _ Hla) as (Hc1 & Hc2 & Hc3). apply list_elem_of_bind. exists a. split; [|done]. rewrite Ho'. unfold dirty_code.
    rewrite Hdel, Hc1, Hc2, Hc3, Hcode, Hdc. by left.
  - intros v' Hv'. destruct (codes_elem d del s S m s1 _ _ Hc Hset Hv') as (b & ob & _ & Hob & _ & Hcb & _ & Hx). unfold codeKey in Hx. injection Hx as Hx.
    symmetry. by eapply (cm_codes _ _ _ _ Hc a b).
Qed.

(** The nodes of the accounts are above their storage. *)
Definition accounts_ranked T : Prop :=
  forall v h acc, leaves T v h -> decode_account v = Some acc -> Root acc <> emptyRoot -> (rank (Root acc) < rank h)%nat.

Lemma state_Commit_run (k : Z) del d s S m m' TA TS :
  committable d s S m -> (forall a, m' !! a = entry_at (TO := ops d) is_key (TM := tmap d) del s S m a) ->
  tree_for is_key m' TA -> TA ∈ forest -> accounts_ranked TA -> storage_trees del s S TS ->
  0 <= k -> fit (zsum (map (fun a => weight (TS a)) (visited del s)) + (weight TA + k)) d -> head (d_faults (diskdb d)) <> Some true ->
  exists s' d' s1, state_Commit d s del = Ok (mroot TA, s', d') /\ fit k d' /\ stateObjectsDirty s' = ∅ /\
    extends (db_reader d) (db_reader d') /\ kept is_key d' (mroot TA) m' /\ (forall a, settled_at d del s S a (stateObjects s1 !! a)) /\
    (forall a o', a ∈ visited del s -> stateObjects s1 !! a = Some o' -> deleted o' = false -> kept is_key d' (mroot (TS a)) (slot_rlp <$> storage_after s S a)) /\
    (forall h c, fresh_code del s h c -> d_data (diskdb d') !! codeKey h = Some c).
Proof.
  intros Hc Hm HTA HinA Hrk HTS Hk Hfit Hf. pose proof (weight_nonneg TA).
  destruct (IntermediateRoot_spec (TO := ops d) (SD := sdb d) is_key (TM := tmap d) del s S m (cm_ready _ _ _ _ Hc) (cm_trie _ _ _ _ Hc))
    as (s1 & m1 & Hrun & Hh & _ & _ & Hdirty & Hm1 & Hset & _).
  assert (m1 = m') as -> by (apply map_eq; intros a; by rewrite Hm1, Hm). change (forall a, settled_at d del s S a (stateObjects s1 !! a)) in Hset.
  destruct (commit_objects_ok TS (storage_after s S) (visited del s) (weight TA + k) d s1 NewBatch) as (s2 & d2 & w & Hrun2 & Hfit2 & He2 & Hd2 & Ht2 & Hk2 & Hw & Hb);
    [apply map_order_NoDup|lia|done|done| |].
  { intros a Ha. pose proof (Hset a) as Hs. destruct (stateObjects s1 !! a) as [o'|] eqn:Ho'.
    - exists o'. split; [done|]. intros Hdel. destruct (settled_live_at d del s S m a o' Hc Hs Hdel) as (o & Hla). destruct Hla. destruct (HTS a o) as [HT Hin]; [done..|].
      eapply ready_committing; try done; [by apply la_written0|apply Hfit].
    - unfold settled_at in Hs. destruct (touched s a) eqn:Ht; [by destruct Hs as (? & ? & _ & ? & _)|].
      apply (elem_of_visited del d s S m a Hc) in Ha as [Ha|]; [|congruence]. destruct (cm_objects _ _ _ _ Hc a Ha). congruence. }
  destruct (flush_code_ok (weight TA + k) d2 s1 (visited del s) w) as (d3 & Hrun3 & Hfit3 & He3 & Hcode); [done|done|done|by rewrite Hd2|].
  assert (He : extends (db_reader d) (db_reader d3)) by (intros h n Hl Hz Hn; by apply He3, He2).
  destruct (sec_Commit_ok (Some reference_storage) k d3 (trie s1) m' TA) as (t & d4 & Hrun4 & Hfit4 & He4 & Hd4 & _ & Hk4); try done.
  { eapply (holds_extends is_key d d3); [done|done|by apply forest_nonzero|done]. }
  { intros f [= <-]. by apply reference_storage_ok. }
  unfold state_Commit. rewrite (cm_err _ _ _ _ Hc), Hrun. cbn [lift_ce]. bind_simpl. rewrite Hdirty. fold (visited del s). rewrite Hrun2. bind_simpl.
  rewrite Hrun3. bind_simpl. change (trie (with_marks s2 _ _)) with (trie s2). rewrite Ht2, Hrun4. cbn [lift_ce]. bind_simpl.
  eexists _, d4, s1. split; [done|]. split; [done|]. split; [by destruct (snap _)|]. split; [intros h n Hl Hz Hn; by apply He4, He|]. split; [done|]. split; [done|]. split.
  - intros a o' Ha Ho' Hdel. apply (kept_extends is_key d3); [done|]. apply (kept_extends is_key d2); [done|]. by apply (Hk2 a o').
  - rewrite Hd4. by apply (codes_written d d3 del s S m s1).
Qed.

(** C6. A state that is committed can be opened again.  [Commit] succeeds
    and returns the root of the account map in which every account that was
    touched is removed or replaced; what the database held before it still
    holds, with room for the references of later commits.  [New] at that root
    gives a state that has exactly the accounts of the map, with their
    balances, nonces, code hashes and slots.  The code that contracts were given
    is on the disk under its hash, where [GetCode] finds it unless a cache or an
    older entry has other bytes for that hash. *)
Theorem state_Commit_stores (k : Z) del d s S m m' TA TS :
  committable d s S m -> (forall a, m' !! a = entry_at (TO := ops d) is_key (TM := tmap d) del s S m a) ->
  tree_for is_key m' TA -> TA ∈ forest -> accounts_ranked TA -> storage_trees del s S TS ->
  0 <= k -> fit (zsum (map (fun a => weight (TS a)) (visited del s)) + (weight TA + k)) d -> head (d_faults (diskdb d)) <> Some true ->
  exists s' d' s0, state_Commit d s del = Ok (mroot TA, s', d') /\ fit k d' /\ stateObjectsDirty s' = ∅ /\
    (forall r M, kept is_key d r M -> kept is_key d' r M) /\ (forall h c, fresh_code del s h c -> d_data (diskdb d') !! codeKey h = Some c) /\
    state_New d' (mroot TA) = Ok s0 /\
    (forall a, is_key a -> match m' !! a with
                           | None => exists s'', Exist (TO := ops d') s0 a = Ok (false, s'')
                           | Some v => exists acc, decode_account v = Some acc /\ reads_as d' s0 a acc (storage_after s S a)
                           end).
Proof.
  intros Hc Hm HTA HinA Hrk HTS Hk Hfit Hf.
  destruct (state_Commit_run k del d s S m m' TA TS) as (s' & d' & s1 & Hrun & Hfit' & Hd & He & Hkept & Hset & Hst & Hcode); try done.
  destruct (kept_opens is_key d' _ _ Hkept) as (t & Hnew & Ht). exists s', d', (empty_state t). split_and!; try done.
  - intros r M. by apply kept_extends.
  - unfold state_New. simpl. rewrite Hnew. done.
  - intros a Ha. destruct (m' !! a) as [v|] eqn:Hv; [|by eapply fresh_missing]. pose proof Hv as Hv'. rewrite Hm in Hv'.
    destruct (entry_kept del d d' s S m TS s1 a v Hc HTS He (Hset a) (fun o' => Hst a o') Hv') as (acc & Hok & -> & Hs & Hka).
    exists acc. split; [by apply decode_account_rlp|]. by apply (fresh_reads d' t m').
Qed.
End commits.

(** ** Copies *)

Section copies.
Context {K : Keccak} {MO : MapOrder} {db : NodeReader} {CS : CodeStore}.
Context (is_key : list Z -> Prop) (keys_apart : forall k k', is_key k -> is_key k' -> keccak256 k = keccak256 k' -> k = k').
Implicit Types (o : stateObject SecureTrie) (s c : StateDB SecureTrie) (P D : addr_t -> Prop).

(** The state [c] has copies of some objects of [s]; [P] are pending and [D]
    are dirty. *)
Record copying s c P D : Prop := {
  cy_trie : trie c = sec_Copy (trie s);
  cy_snap : snap c = None;
  cy_jrnl : jrnl c = newJournal;
  cy_objects a o' : stateObjects c !! a = Some o' -> exists o, stateObjects s !! a = Some o /\ o' = deepCopy o;
  cy_pending a : a ∈ stateObjectsPending c <-> P a;
  cy_dirty a : a ∈ stateObjectsDirty c <-> D a;
  cy_held a : P a \/ D a -> is_Some (stateObjects c !! a);
}.

Lemma copying_iff s c P D P' D' : (forall a, P a <-> P' a) -> (forall a, D a <-> D' a) -> copying s c P D -> copying s c P' D'.
Proof. intros HP HD [? ? ? ? Hp Hd Hh]. split; try done; intros a; [by rewrite Hp|by rewrite Hd|rewrite <- HP, <- HD; apply Hh]. Qed.

Lemma copy_insert s c P D a o :
  stateObjects s !! a = Some o -> copying s c P D -> copying s (with_objects c (<[a := deepCopy o]> (stateObjects c))) P D.
Proof.
  intros Ho [? ? ? Hobj ? ? Hh]. split; try done.
  - intros b o'. simpl. rewrite lookup_insert_Some. intros [[<- <-]|[_ Hb]]; [by exists o|by apply Hobj].
  - intros b Hb. simpl. destruct (decide (a = b)) as [<-|]; [rewrite lookup_insert_eq; by eexists|rewrite lookup_insert_ne by done; by apply Hh].
Qed.

(** Marking an address whose object is there. *)
Lemma copy_mark (p q : bool) s c P D a :
  is_Some (stateObjects c !! a) -> copying s c P D ->
  copying s (with_marks c (if p then {[ a ]} ∪ stateObjectsPending c else stateObjectsPending c) (if q then {[ a ]} ∪ stateObjectsDirty c else stateObjectsDirty c))
    (fun b => P b \/ p = true /\ b = a) (fun b => D b \/ q = true /\ b = a).
Proof.
  intros Ha [? ? ? ? Hp Hd Hh]. split; try done.
  - intros b. simpl. rewrite <- Hp. destruct p; [set_solver|naive_solver].
  - intros b. simpl. rewrite <- Hd. destruct q; [set_solver|naive_solver].
  - intros b Hb. assert (b = a \/ P b \/ D b) as [->|Hb'] by tauto; [done|by apply Hh].
Qed.

Lemma copy_journaled_ok l s c P D :
  copying s c P D ->
  copying s (foldl (copy_journaled s) c l) (fun b => P b \/ b ∈ l /\ is_Some (stateObjects s !! b)) (fun b => D b \/ b ∈ l /\ is_Some (stateObjects s !! b)).
Proof.
  revert c P D. induction l as [|a l IH]; intros c P D Hc; simpl.
  - eapply copying_iff, Hc; intros b; rewrite elem_of_nil; tauto.
  - unfold copy_journaled at 2. destruct (stateObjects s !! a) as [o|] eqn:Ho.
    + pose proof (copy_mark true true _ _ _ _ a (mk_is_Some _ _ (lookup_insert_eq _ _ _)) (copy_insert s c P D a o Ho Hc)) as Hm.
      eapply copying_iff, (IH _ _ _ Hm); intros b; rewrite elem_of_cons; (destruct (decide (b = a)) as [->|]; [rewrite Ho|]; naive_solver).
    + eapply copying_iff, (IH _ _ _ Hc); intros b; rewrite elem_of_cons; (destruct (decide (b = a)) as [->|]; [rewrite Ho, is_Some_alt|]; naive_solver).
Qed.

Lemma copy_object_ok s c P D a :
  is_Some (stateObjects s !! a) -> copying s c P D -> exists c', copy_object s c a = Ok c' /\ copying s c' P D /\ is_Some (stateObjects c' !! a).
Proof.
  intros [o Ho] Hc. unfold copy_object. destruct (stateObjects c !! a) eqn:E; [exists c; split_and!; [done|done|by rewrite E]|].
  rewrite Ho. eexists. split; [done|]. split; [by apply copy_insert|]. simpl. rewrite lookup_insert_eq. by eexists.
Qed.

Lemma copy_pending_ok l s c P D :
  (forall a, a ∈ l -> is_Some (stateObjects s !! a)) -> copying s c P D ->
  exists c', copy_pending l s c = Ok c' /\ copying s c' (fun b => P b \/ b ∈ l) D.
Proof.
  revert c P D. induction l as [|a l IH]; intros c P D Hl Hc; simpl.
  - exists c. split; [done|]. eapply copying_iff, Hc; intros b; rewrite ?elem_of_nil; tauto.
  - destruct (copy_object_ok s c P D a) as (c1 & -> & Hc1 & Ha); [apply Hl; by left|done|]. bind_simpl.
    destruct (IH _ _ _ (fun b Hb => Hl b (list_elem_of_further _ _ _ Hb)) (copy_mark true false _ _ _ _ a Ha Hc1)) as (c' & Hrun & Hc').
    exists c'. split; [done|]. eapply copying_iff, Hc'; intros b; rewrite ?elem_of_cons; naive_solver.
Qed.

Lemma copy_dirty_ok l s c P D :
  (forall a, a ∈ l -> is_Some (stateObjects s !! a)) -> copying s c P D ->
  exists c', copy_dirty l s c = Ok c' /\ copying s c' P (fun b => D b \/ b ∈ l).
Proof.
  revert c P D. induction l as [|a l IH]; intros c P D Hl Hc; simpl.
  - exists c. split; [done|]. eapply copying_iff, Hc; intros b; rewrite ?elem_of_nil; tauto.
  - destruct (copy_object_ok s c P D a) as (c1 & -> & Hc1 & Ha); [apply Hl; by left|done|]. bind_simpl.
    destruct (IH _ _ _ (fun b Hb => Hl b (list_elem_of_further _ _ _ Hb)) (copy_mark false true _ _ _ _ a Ha Hc1)) as (c' & Hrun & Hc').
    exists c'. split; [done|]. eapply copying_iff, Hc'; intros b; rewrite ?elem_of_cons; naive_solver.
Qed.

Lemma state_Copy_ok s :
  (forall a, a ∈ stateObjectsPending s ∪ stateObjectsDirty s -> is_Some (stateObjects s !! a)) ->
  let journaled a := is_Some (dirties (jrnl s) !! a) /\ is_Some (stateObjects s !! a) in
  exists c, state_Copy s = Ok c /\ copying s c (fun a => journaled a \/ a ∈ stateObjectsPending s) (fun a => journaled a \/ a ∈ stateObjectsDirty s).
Proof.
  intros Hobj journaled. unfold state_Copy. set (c0 := MkStateDB _ _ _ _ _ _ _ _ _ _ _ _ _ _ _ _ _ _ _).
  assert (H0 : copying s c0 (fun _ => False) (fun _ => False)) by (split; try done; intros a ?; tauto).
  pose proof (copy_journaled_ok (map_order (dirties (jrnl s))) s c0 _ _ H0) as H1.
  destruct (copy_pending_ok (map_order (gset_to_gmap tt (stateObjectsPending s))) s _ _ _ (fun a Ha => Hobj a (elem_of_union_l _ _ _ (proj1 (map_order_set _ a) Ha))) H1)
    as (c1 & Hrun1 & H2).
  destruct (copy_dirty_ok (map_order (gset_to_gmap tt (stateObjectsDirty s))) s _ _ _ (fun a Ha => Hobj a (elem_of_union_r _ _ _ (proj1 (map_order_set _ a) Ha))) H2)
    as (c2 & Hrun2 & H3).
  rewrite Hrun1. bind_simpl.
  exists c2. split; [done|]. eapply copying_iff, H3; intros a; unfold journaled; rewrite ?map_order_set, map_order_elem; tauto.
Qed.

(** A copied object is as good as the original, unless the root of its storage
    is the hash of zeroes, which stands for no root. *)
Lemma deepCopy_data o : Root (data o) <> zero_hash -> data (deepCopy o) = data o.
Proof. intros Hz. unfold deepCopy. simpl. rewrite decide_False by done. by destruct (data o). Qed.

Abbreviation tm := (secure_map is_key keys_apart).

Lemma deepCopy_ready o σ : Root (data o) <> zero_hash -> obj_ready is_key (TM := tm) o σ -> obj_ready is_key (TM := tm) (deepCopy o) σ.
Proof.
  intros Hz [Ha Ht Hs]. split; [by rewrite deepCopy_data| |done]. unfold trie_holds in *. rewrite deepCopy_data by done. simpl.
  destruct (obj_trie o); [exact Ht|done].
Qed.

Lemma copy_touched s c a :
  jrnl c = newJournal -> (a ∈ stateObjectsPending c <-> (is_Some (dirties (jrnl s) !! a) /\ is_Some (stateObjects s !! a)) \/ a ∈ stateObjectsPending s) ->
  touched c a = touched s a.
Proof.
  intros Hj Hp. apply eq_bool_prop_intro. rewrite !Is_true_true. unfold touched. rewrite Hj, !orb_true_iff, !andb_true_iff, !bool_decide_eq_true, Hp.
  simpl. rewrite lookup_empty. assert (Hn : ~ is_Some (@None Z)) by (by intros []). tauto.
Qed.

(** C24. A copy of a state stands for the same state.  Unless an object that
    changed since the last transaction is about to be deleted, [Copy] succeeds,
    its objects agree with the storage and its trie with the accounts of the
    original, and [IntermediateRoot] of the copy returns the root that it
    returns for the original. *)
Theorem Copy_root (del : bool) s (S : addr_t -> Storage) m :
  StateRoot.ready is_key (TM := tm) s S -> secure_holds is_key (trie s) m ->
  (forall a, a ∈ stateObjectsPending s ∪ stateObjectsDirty s -> is_Some (stateObjects s !! a)) ->
  (forall a o, stateObjects s !! a = Some o -> Root (data o) <> zero_hash /\ gone del s a o = deleted o) ->
  exists c, state_Copy s = Ok c /\ StateRoot.ready is_key (TM := tm) c S /\ secure_holds is_key (trie c) m /\
    exists root s' c', IntermediateRoot s del = Ok (root, s') /\ IntermediateRoot c del = Ok (root, c').
Proof.
  intros Hr Hh Hobj Hlive. destruct (state_Copy_ok s Hobj) as (c & Hrun & [Ht _ Hj Hobjs Hp _ Hheld]). exists c. split; [done|].
  assert (Hr' : StateRoot.ready is_key (TM := tm) c S).
  { split.
    - intros a o' (o & Ho & ->)%Hobjs. by apply (rd_addr _ _ _ Hr a o).
    - intros a o' (o & Ho & ->)%Hobjs Hd. apply deepCopy_ready; [by apply (Hlive a)|by apply (rd_live _ _ _ Hr)].
    - intros a Ha. apply Hheld. left. by apply Hp. }
  assert (Hh' : secure_holds is_key (trie c) m) by (rewrite Ht; exact Hh). split; [done|]. split; [done|].
  destruct (IntermediateRoot_spec is_key (TM := tm) del s S m Hr Hh) as (s' & m1 & Hrun1 & _ & _ & _ & _ & Hm1 & _).
  destruct (IntermediateRoot_spec is_key (TM := tm) del c S m Hr' Hh') as (c' & m2 & Hrun2 & _ & _ & _ & _ & Hm2 & _).
  exists (built_root m1), s', c'. split; [exact Hrun1|]. replace m1 with m2; [exact Hrun2|]. apply map_eq. intros a. rewrite Hm1, Hm2. unfold entry_at.
  rewrite (copy_touched s c a Hj (Hp a)). destruct (touched s a) eqn:Hta; [|done].
  assert (Hin : a ∈ stateObjectsPending c) by (rewrite <- (copy_touched s c a Hj (Hp a)) in Hta; unfold touched in Hta; rewrite Hj in Hta; simpl in Hta;
    rewrite lookup_empty, orb_true_iff, andb_true_iff, !bool_decide_eq_true in Hta; destruct Hta as [?|[[? ?] _]]; done).
  destruct (Hheld a (or_introl (proj1 (Hp a) Hin))) as [o' Ho']. destruct (Hobjs a o' Ho') as (o & Ho & ->). rewrite Ho, Ho'. simpl.
  destruct (Hlive a o Ho) as [_ ->]. unfold gone. rewrite Hj. simpl. rewrite lookup_empty, bool_decide_false by (by intros []). simpl. rewrite orb_false_r. done.
Qed.
End copies.

(** ** Example: alice deploys a contract that writes a slot, bob is destroyed *)

Module Committing.
#[local] Existing Instance toy_keccak.
#[local] Existing Instance list_order.
#[local] Existing Instance no_cache.
#[local] Instance no_codes : CodeCaches := {| cached_code _ := []; cached_size _ := None |}.
Import Secure.

Abbreviation database := sample_db0.
Abbreviation reader := (db_reader database).

Definition contract : list Z := [96; 0].
Definition stored : hash_t := replicate 32 7.
Definition alice_object : stateObject SecureTrie :=
  MkObject alice (MkAccount 1 5 emptyRoot code_hash) None None (Some contract) ∅ ∅ {[ slot := stored ]} None true false false.
Definition account_trie : SecureTrie := (sec_TryUpdate (db := reader) empty_trie bob (account_rlp bob_account)).2.
Definition state : StateDB SecureTrie :=
  MkStateDB account_trie None ∅ ∅ ∅ {[ alice := alice_object; bob := bob_object ]} ∅ ∅ None 0 zero_hash zero_hash 0 ∅ 0 ∅
    (MkJournal [] {[ alice := 1; bob := 1 ]}) [] 0.

Definition slots : Storage := {[ slot := stored ]}.
Definition account : Account := MkAccount 1 5 (built_root (slot_rlp <$> slots)) code_hash.
Definition one_leaf (k v : list Z) : tree := TShort (hexkey (keccak256 k)) (TValue v).
Definition storage_tree : tree := one_leaf slot (slot_rlp stored).
Definition accounts_tree : tree := one_leaf alice (account_rlp account).
Definition trees : list tree := [accounts_tree; storage_tree].
Definition example_rank (h : hash_t) : nat := if decide (h = zeroHash) then 2 else if decide (h = mhash accounts_tree) then 1 else 0.

Lemma leaf_sub k v s : branch s -> sub s (one_leaf k v) -> s = one_leaf k v.
Proof. intros Hb Hs. inversion Hs as [|? ? Hs'|]; subst; [done|]. inversion Hs'; subst. done. Qed.

Lemma leaf_for k v : in_use k -> is_value v -> tree_for in_use {[ k := v ]} (one_leaf k v).
Proof.
  intros Hk Hv. split; [by apply map_Forall_singleton|]. exists {[ keccak256 k := v ]}. split.
  - intros h w. rewrite lookup_singleton_Some. split; [intros [<- <-]; exists k; by rewrite lookup_singleton_eq|]. intros (k' & [<- <-]%lookup_singleton_Some & ->). done.
  - split; [right; apply canon_leaf; [apply flat_nibbles, unpack_ok, keccak_bytes|apply Hv]|]. intros key w. cbn [one_leaf tfind]. split.
    + destruct (strip _ key) as [[|? ?]|] eqn:Hs; try done. intros [= <-]. apply strip_Some in Hs as ->. rewrite app_nil_r.
      exists (keccak256 k). split_and!; [done|apply keccak_bytes|apply lookup_singleton_eq].
    + intros (key' & -> & _ & [<- <-]%lookup_singleton_Some). unfold one_leaf. cbn [tfind]. pose proof (strip_app (hexkey (keccak256 k)) []) as Hs. rewrite app_nil_r in Hs. by rewrite Hs.
Qed.

Lemma example_acyclic : Forall (acyclic example_rank) trees.
Proof.
  repeat (apply Forall_cons; split); [..|done]; intros s Hb Hs; rewrite (leaf_sub _ _ s Hb Hs); (split; [vm_compute; lia|]); intros h Hin; vm_compute in Hin; by inversion Hin.
Qed.

Lemma example_fit k : k < 2 ^ 32 -> fit example_rank trees k database.
Proof.
  intros Hk. split; [|split].
  - split; [by apply new_sound|]. split; intros h n; unfold sample_db0; simpl; [intros b|]; by intros [<- <-]%lookup_singleton_Some.
  - intros h b _ Hz Hb. by destruct (sample_content h b).
  - intros x y Hx (T & HT & Hy). assert (Hy' : y ∈ trees ≫= encodings) by (apply list_elem_of_bind; by exists T).
    assert (Hx' : x ∈ [0x80] :: (trees ≫= encodings)).
    { destruct Hx as [->|[(T' & HT' & Hx)|(h & _ & Hz & Hx)]]; [left|right; apply list_elem_of_bind; by exists T'|by destruct (sample_content h x)]. }
    clear Hx Hy HT T. revert x y Hx' Hy'. assert (Hall : Forall (fun x => Forall (fun y => keccak256 x = keccak256 y -> x = y) (trees ≫= encodings)) ([0x80] :: (trees ≫= encodings)))
      by (apply (bool_decide_unpack _); vm_compute; exact I).
    intros x y Hx Hy. rewrite Forall_forall in Hall. specialize (Hall x Hx). rewrite Forall_forall in Hall. by apply Hall.
Qed.

Lemma account_trie_held : secure_holds in_use (db := reader) account_trie {[ bob := account_rlp bob_account ]}.
Proof.
  assert (Hv : is_value (account_rlp bob_account)) by (apply encode_account, small_account_ok; unfold is_u64; lia).
  destruct (sec_TryUpdate_ok (db := reader) in_use in_use_apart empty_trie ∅ bob (account_rlp bob_account) (empty_holds in_use ∅ false)) as (t & Hrun & Ht); [by right; left|done|].
  unfold account_trie. rewrite Hrun. rewrite decide_False in Ht by apply Hv. exact Ht.
Qed.

Lemma state_object a o : stateObjects state !! a = Some o -> a = alice /\ o = alice_object \/ a = bob /\ o = bob_object.
Proof. simpl. rewrite lookup_insert_Some, lookup_singleton_Some. naive_solver. Qed.

Lemma state_touched a : touched state a = bool_decide (a = alice \/ a = bob).
Proof.
  unfold touched. rewrite bool_decide_false by (simpl; apply not_elem_of_empty). simpl orb. destruct (bool_decide_reflect (a = alice \/ a = bob)) as [[->| ->]|Hn]; [by vm_compute..|].
  rewrite bool_decide_false; [done|]. simpl. rewrite lookup_insert_ne, lookup_singleton_ne by (intros <-; tauto). by intros [].
Qed.

Lemma no_slots o :
  account_ok (data o) -> Root (data o) = emptyRoot -> obj_trie o = None -> originStorage o = ∅ -> map_Forall (fun k v => in_use k /\ is_hash v) (unwritten o) ->
  obj_ready (TO := secure_ops (db := reader)) (SD := cachingDB (db := reader) (CS := disk_code database)) in_use (TM := secure_map in_use in_use_apart (db := reader)) o ∅.
Proof.
  intros Ha Hr Ht Ho Hw. split; [done| |rewrite Ho; by split].
  unfold trie_holds. rewrite Ht, Hr. split; [by vm_compute|]. exists empty_trie. split; [by vm_compute|]. apply (empty_holds in_use).
Qed.

Lemma unwritten_slot : map_Forall (fun k v => in_use k /\ is_hash v) (unwritten alice_object).
Proof.
  replace (unwritten alice_object) with slots by (vm_compute; reflexivity). apply map_Forall_singleton. split; [by right; right; left|]. split; [done|solve_decidable].
Qed.

Lemma state_committable : committable in_use in_use_apart database state (fun _ => ∅) {[ bob := account_rlp bob_account ]}.
Proof.
  split; try done.
  - split; [| |by intros a ?%elem_of_empty].
    + intros a o Ho. destruct (state_object a o Ho) as [[-> ->]|[-> ->]]; (split; [done|]); [by left|by right; left].
    + intros a o Ho _. destruct (state_object a o Ho) as [[-> ->]|[-> ->]];
        (apply no_slots; [apply small_account_ok; unfold is_u64; lia|done|done|done|]); [apply unwritten_slot|by vm_compute].
  - exact account_trie_held.
  - intros a o Ho. by destruct (state_object a o Ho) as [[-> ->]|[-> ->]].
  - intros a v Ht [<- _]%lookup_singleton_Some. vm_compute in Ht. done.
  - intros a b oa ob ca cb Ha Hb. destruct (state_object a oa Ha) as [[-> ->]|[-> ->]], (state_object b ob Hb) as [[-> ->]|[-> ->]]; simpl; congruence.
Qed.

Lemma state_entries a :
  ({[ alice := account_rlp account ]} : gmap (list Z) (list Z)) !! a =
  entry_at (TO := secure_ops (db := reader)) in_use (TM := secure_map in_use in_use_apart (db := reader)) true state (fun _ => ∅) {[ bob := account_rlp bob_account ]} a.
Proof.
  destruct (decide (a = alice)) as [->|Ha]; [by vm_compute|]. destruct (decide (a = bob)) as [->|Hb]; [by vm_compute|].
  unfold entry_at. rewrite state_touched, bool_decide_false by tauto. by rewrite !lookup_singleton_ne by done.
Qed.

Lemma stored_slots : storage_after state (fun _ => ∅) alice = slots.
Proof. vm_compute. reflexivity. Qed.

Lemma state_Commit_stores_witness :
  exists s' d' s0, state_Commit database state true = Ok (mroot accounts_tree, s', d') /\ state_New d' (mroot accounts_tree) = Ok s0 /\
    (exists s'', GetBalance (TO := secure_ops (db := db_reader d')) s0 alice = Ok (5, s'')) /\
    (exists s'', GetState (TO := secure_ops (db := db_reader d')) (SD := cachingDB (db := db_reader d') (CS := disk_code d')) s0 alice slot = Ok (stored, s'')) /\
    (exists s'', Exist (TO := secure_ops (db := db_reader d')) s0 bob = Ok (false, s'')) /\
    d_data (diskdb d') !! codeKey code_hash = Some contract.
Proof.
  destruct (state_Commit_stores example_rank in_use in_use_apart trees example_acyclic eq_refl 0 true database state (fun _ => ∅)
    {[ bob := account_rlp bob_account ]} {[ alice := account_rlp account ]} accounts_tree (fun _ => storage_tree)) as (s' & d' & s0 & Hrun & _ & _ & _ & Hcode & Hnew & Hreads).
  - exact state_committable.
  - exact state_entries.
  - apply leaf_for; [by left|]. apply encode_account. split; [by vm_compute|]. split; [by vm_compute|]. split; (split; [by vm_compute|]); apply (bool_decide_unpack _); by vm_compute.
  - by left.
  - intros v h acc (s & Hb & Hs & Hv & ->) Hacc _. rewrite (leaf_sub _ _ s Hb Hs) in *. simpl in Hv. vm_compute in Hv. subst v. vm_compute in Hacc. injection Hacc as <-. vm_compute. lia.
  - intros a o _ Ho Hg. destruct (state_object a o Ho) as [[-> ->]|[-> ->]]; [|by vm_compute in Hg]. rewrite stored_slots. split; [|by right; left].
    unfold slots. rewrite map_fmap_singleton. apply leaf_for; [by right; right; left|]. apply slot_rlp_value. split; [done|solve_decidable].
  - done.
  - apply example_fit. vm_compute. reflexivity.
  - done.
  - exists s', d', s0. split; [exact Hrun|]. split; [exact Hnew|].
    assert (Hin : in_use alice) by by left. assert (Hin' : in_use bob) by by right; left. assert (Hin3 : in_use slot) by by right; right; left.
    pose proof (Hreads alice Hin) as Ha. rewrite lookup_singleton_eq in Ha. destruct Ha as (acc & Hacc & Ha). rewrite stored_slots in Ha.
    assert (He : decode_account (account_rlp account) = Some account) by (by vm_compute). rewrite He in Hacc. injection Hacc as <-.
    pose proof (Hreads bob Hin') as Hb. rewrite lookup_singleton_ne in Hb by done. split; [exact (ra_balance _ _ _ _ _ _ Ha)|].
    split; [exact (ra_state _ _ _ _ _ _ Ha slot Hin3)|]. split; [exact Hb|]. apply Hcode. split; [done|].
    exists alice, alice_object. split; [by apply (bool_decide_unpack _); vm_compute|]. repeat split; vm_compute; reflexivity.
Defined.

(** Bob lives on and was changed in an earlier transaction. *)
Definition bob_alive : stateObject SecureTrie := MkObject bob bob_account None None None ∅ ∅ ∅ None false false false.
Definition calm_state : StateDB SecureTrie :=
  MkStateDB account_trie None ∅ ∅ ∅ {[ alice := alice_object; bob := bob_alive ]} {[ bob ]} {[ bob ]} None 0 zero_hash zero_hash 0 ∅ 0 ∅
    (MkJournal [] {[ alice := 1 ]}) [] 0.

Lemma calm_object a o : stateObjects calm_state !! a = Some o -> a = alice /\ o = alice_object \/ a = bob /\ o = bob_alive.
Proof. simpl. rewrite lookup_insert_Some, lookup_singleton_Some. naive_solver. Qed.

Lemma calm_ready :
  StateRoot.ready (TO := secure_ops (db := reader)) (SD := cachingDB (db := reader) (CS := disk_code database)) in_use
    (TM := secure_map in_use in_use_apart (db := reader)) calm_state (fun _ => ∅).
Proof.
  split.
  - intros a o Ho. destruct (calm_object a o Ho) as [[-> ->]|[-> ->]]; (split; [done|]); [by left|by right; left].
  - intros a o Ho _. destruct (calm_object a o Ho) as [[-> ->]|[-> ->]];
      (apply no_slots; [apply small_account_ok; unfold is_u64; lia|done|done|done|]); [apply unwritten_slot|by vm_compute].
  - intros a Ha. simpl in Ha. apply elem_of_singleton in Ha as ->. by eexists.
Qed.

Lemma Copy_root_witness :
  exists c, state_Copy calm_state = Ok c /\
    exists root s' c', IntermediateRoot (TO := secure_ops (db := reader)) (SD := cachingDB (db := reader) (CS := disk_code database)) calm_state true = Ok (root, s') /\
      IntermediateRoot (TO := secure_ops (db := reader)) (SD := cachingDB (db := reader) (CS := disk_code database)) c true = Ok (root, c').
Proof.
  destruct (Copy_root (db := reader) (CS := disk_code database) in_use in_use_apart true calm_state (fun _ => ∅) {[ bob := account_rlp bob_account ]}) as (c & Hrun & _ & _ & Hroots).
  - exact calm_ready.
  - exact account_trie_held.
  - intros a Ha. simpl in Ha. assert (a = bob) as -> by set_solver. by eexists.
  - intros a o Ho. destruct (calm_object a o Ho) as [[-> ->]|[-> ->]]; (split; [done|vm_compute; reflexivity]).
  - exists c. exact (conj Hrun Hroots).
Defined.

(** The journal is not copied, and with it goes the mark that an account which
    destroyed itself has yet to be deleted: the copy keeps bob. *)
Definition root_after (s : StateDB SecureTrie) : option hash_t :=
  match IntermediateRoot (TO := secure_ops (db := reader)) (SD := cachingDB (db := reader) (CS := disk_code database)) s true with Ok (r, _) => Some r | _ => None end.
Definition copy_root_after (s : StateDB SecureTrie) : option hash_t := match state_Copy s with Ok c => root_after c | _ => None end.

Example Copy_keeps_suicided : bool_decide (root_after state = copy_root_after state) = false.
Proof. vm_compute. reflexivity. Qed.
End Committing.
