(* ===== verification/Digests.v ===== *)
(** * Digests of the native contracts

    The compression function of BLAKE2b (src/crypto/blake2b) and SHA-256 of the
    Go library, on lists of 64-bit and 32-bit words.  Bytes are read modulo
    256. *)
From stdpp Require Import prelude list.
From Stdlib Require Import ZArith Lia.
From S2P Require Import Prelude.

(** [binary.BigEndian] and [binary.LittleEndian], reading and writing. *)
Definition be_read (b : list Z) : Z := be_val (u8 <$> b).
Definition le_read (b : list Z) : Z := be_read (reverse b).
Definition le_write (n : nat) (x : Z) : list Z := reverse (be_bytes n x).

Lemma be_read_bytes b : bytes_ok b -> be_read b = be_val b.
Proof.
  intros H. unfold be_read. f_equal. rewrite <- (list_fmap_id b) at 2. apply list_fmap_ext. intros i x Hx. simpl.
  apply u8_small. by eapply Forall_lookup_1.
Qed.

Lemma u8_bytes b : bytes_ok (u8 <$> b).
Proof. apply Forall_fmap, Forall_true. intros x. apply u8_byte. Qed.

Lemma be_read_range b : 0 <= be_read b < 256 ^ zlen b.
Proof. unfold be_read. pose proof (be_val_bound _ (u8_bytes b)) as H. unfold zlen in *. by rewrite length_fmap in H. Qed.

Lemma le_write_length n x : length (le_write n x) = n.
Proof. unfold le_write. by rewrite length_reverse, be_bytes_length. Qed.

(** The words of a block, [n] of [size] bytes each. *)
Fixpoint words_of (read : list Z -> Z) (size n : nat) (b : list Z) : list Z :=
  match n with
  | O => []
  | S n => read (take size b) :: words_of read size n (drop size b)
  end.

(** ** BLAKE2b (blake2b.go, blake2b_generic.go) *)

Module Blake2b.
Definition iv : list Z :=
  [0x6a09e667f3bcc908; 0xbb67ae8584caa73b; 0x3c6ef372fe94f82b; 0xa54ff53a5f1d36f1;
   0x510e527fade682d1; 0x9b05688c2b3e6c1f; 0x1f83d9abfb41bd6b; 0x5be0cd19137e2179].

Definition precomputed : list (list nat) :=
  [[0; 2; 4; 6; 1; 3; 5; 7; 8; 10; 12; 14; 9; 11; 13; 15];
   [14; 4; 9; 13; 10; 8; 15; 6; 1; 0; 11; 5; 12; 2; 7; 3];
   [11; 12; 5; 15; 8; 0; 2; 13; 10; 3; 7; 9; 14; 6; 1; 4];
   [7; 3; 13; 11; 9; 1; 12; 14; 2; 5; 4; 15; 6; 10; 0; 8];
   [9; 5; 2; 10; 0; 7; 4; 15; 14; 11; 6; 3; 1; 12; 8; 13];
   [2; 6; 0; 8; 12; 10; 11; 3; 4; 7; 15; 1; 13; 5; 14; 9];
   [12; 1; 14; 4; 5; 15; 13; 10; 0; 6; 9; 8; 7; 3; 2; 11];
   [13; 7; 12; 3; 11; 14; 1; 9; 5; 15; 8; 2; 0; 4; 6; 10];
   [6; 14; 11; 0; 15; 9; 3; 8; 12; 13; 1; 10; 2; 7; 4; 5];
   [10; 8; 7; 1; 2; 4; 6; 5; 15; 9; 3; 13; 11; 14; 12; 0]]%nat.

(** [bits.RotateLeft64(x, -k)] *)
Definition rotr64 (x k : Z) : Z := Z.lor (Z.shiftr x k) (u64 (Z.shiftl x (64 - k))).

Definition at_ (v : list Z) (i : nat) : Z := v !!! i.

(** Seven lines of a round: [va += m; va += vb; vd ^= va; ...]. *)
Definition mix (v : list Z) (a b c d : nat) (x r1 r2 : Z) : list Z :=
  let va := u64 (u64 (at_ v a + x) + at_ v b) in
  let vd := rotr64 (Z.lxor (at_ v d) va) r1 in
  let vc := u64 (at_ v c + vd) in
  let vb := rotr64 (Z.lxor (at_ v b) vc) r2 in
  <[b := vb]> (<[c := vc]> (<[d := vd]> (<[a := va]> v))).

(** Four of them, with the words [s[k]], ..., [s[k + 3]] of the message. *)
Definition mix4 (m : list Z) (s : list nat) (lanes : list (nat * nat * nat * nat)) (k : nat) (r1 r2 : Z) (v : list Z) : list Z :=
  foldl (fun v '(i, (a, b, c, d)) => mix v a b c d (at_ m (s !!! i)) r1 r2) v (zip (seq k 4) lanes).

Definition columns : list (nat * nat * nat * nat) := [(0, 4, 8, 12); (1, 5, 9, 13); (2, 6, 10, 14); (3, 7, 11, 15)]%nat.
Definition diagonals : list (nat * nat * nat * nat) := [(0, 5, 10, 15); (1, 6, 11, 12); (2, 7, 8, 13); (3, 4, 9, 14)]%nat.

Definition round (m : list Z) (i : nat) (v : list Z) : list Z :=
  let s := precomputed !!! (i mod 10)%nat in
  mix4 m s diagonals 12 16 63 (mix4 m s diagonals 8 32 24 (mix4 m s columns 4 16 63 (mix4 m s columns 0 32 24 v))).

Fixpoint rounds_from (m : list Z) (i n : nat) (v : list Z) : list Z :=
  match n with O => v | S n => rounds_from m (S i) n (round m i v) end.

Definition fGeneric (h m : list Z) (c0 c1 flag rounds : Z) : list Z :=
  let v := h ++ iv in
  let v := <[12%nat := Z.lxor (at_ v 12) c0]> v in
  let v := <[13%nat := Z.lxor (at_ v 13) c1]> v in
  let v := <[14%nat := Z.lxor (at_ v 14) flag]> v in
  let v := rounds_from m 0 (Z.to_nat rounds) v in
  (fun i => Z.lxor (at_ h i) (Z.lxor (at_ v i) (at_ v (i + 8)))) <$> seq 0 8.

Definition F (h m : list Z) (c0 c1 : Z) (final : bool) (rounds : Z) : list Z :=
  fGeneric h m c0 c1 (if final then 2 ^ 64 - 1 else 0) rounds.

Lemma F_length h m c0 c1 final rounds : length (F h m c0 c1 final rounds) = 8%nat.
Proof. done. Qed.

(** The block of the message abc, with the parameters of BLAKE2b-512. *)
Example F_abc :
  words_of le_read 8 1 (le_write 8 (F (Z.lxor (at_ iv 0) 0x01010040 :: drop 1 iv) (0x636261 :: replicate 15 0) 3 0 true 12 !!! 0%nat)) =
  [le_read [0xba; 0x80; 0xa5; 0x3f; 0x98; 0x1c; 0x4d; 0x0d]].
Proof. vm_compute. reflexivity. Qed.
End Blake2b.

(** ** SHA-256 (crypto/sha256 of the Go library) *)

Module Sha256.
(** The constants are the first 32 bits of the fractional parts of the cube
    roots of the first 64 primes, and of the square roots of the first 8. *)
Definition is_prime (n : nat) : bool := forallb (fun d => negb (Nat.eqb (Nat.modulo n d) 0)) (seq 2 (n - 2)).
Definition primes : list Z := Eval vm_compute in Z.of_nat <$> List.filter is_prime (seq 2 310).

(** The integer cube root, below 2^40. *)
Definition cbrt (n : Z) : Z :=
  foldr (fun i r => let r' := r + 2 ^ Z.of_nat i in if r' * r' * r' <=? n then r' else r) 0 (seq 0 40).

Definition k_table : list Z := Eval vm_compute in (fun p => u32 (cbrt (p * 2 ^ 96))) <$> primes.
Definition init : list Z := Eval vm_compute in (fun p => u32 (Z.sqrt (p * 2 ^ 64))) <$> take 8 primes.

Definition rotr32 (x k : Z) : Z := Z.lor (Z.shiftr x k) (u32 (Z.shiftl x (32 - k))).
Definition lxor3 (x y z : Z) : Z := Z.lxor x (Z.lxor y z).

(** The schedule, the latest word first. *)
Fixpoint schedule (n : nat) (w : list Z) : list Z :=
  match n with
  | O => w
  | S n =>
      let w2 := w !!! 1%nat in
      let w15 := w !!! 14%nat in
      let t1 := lxor3 (rotr32 w2 17) (rotr32 w2 19) (Z.shiftr w2 10) in
      let t2 := lxor3 (rotr32 w15 7) (rotr32 w15 18) (Z.shiftr w15 3) in
      schedule n (u32 (t1 + w !!! 6%nat + t2 + w !!! 15%nat) :: w)
  end.

Definition step (st : list Z) (kw : Z * Z) : list Z :=
  match st with
  | [a; b; c; d; e; f; g; h] =>
      let t1 := u32 (h + lxor3 (rotr32 e 6) (rotr32 e 11) (rotr32 e 25) + Z.lxor (Z.land e f) (Z.land (2 ^ 32 - 1 - e) g) + kw.1 + kw.2) in
      let t2 := u32 (lxor3 (rotr32 a 2) (rotr32 a 13) (rotr32 a 22) + lxor3 (Z.land a b) (Z.land a c) (Z.land b c)) in
      [u32 (t1 + t2); a; b; c; u32 (d + t1); e; f; g]
  | _ => st
  end.

Definition block (st : list Z) (b : list Z) : list Z :=
  let w := reverse (schedule 48 (reverse (words_of be_read 4 16 b))) in
  zip_with (fun x y => u32 (x + y)) st (foldl step st (zip k_table w)).

Fixpoint blocks (n : nat) (st : list Z) (b : list Z) : list Z :=
  match n with O => st | S n => blocks n (block st (take 64 b)) (drop 64 b) end.

Definition pad (b : list Z) : list Z :=
  b ++ [128] ++ replicate (Z.to_nat ((55 - zlen b) mod 64)) 0 ++ be_bytes 8 (8 * zlen b).

Definition Sum256 (b : list Z) : list Z :=
  let p := pad b in concat (be_bytes 4 <$> blocks (length p / 64) init p).

Lemma schedule_length n w : length (schedule n w) = (n + length w)%nat.
Proof. revert w. induction n as [|n IH]; intros w; simpl; [done|]. rewrite IH. simpl. lia. Qed.

Lemma step_length st kw : length (step st kw) = length st.
Proof. unfold step. by repeat case_match. Qed.

Lemma block_length st b : length (block st b) = length st.
Proof.
  unfold block. rewrite length_zip_with. set (l := zip k_table _). clearbody l.
  assert (H : forall l s, length (foldl step s l) = length s).
  { clear l. intros l. induction l as [|x l IH]; intros s; [done|]. simpl. by rewrite IH, step_length. }
  rewrite H. lia.
Qed.

Lemma blocks_length n st b : length (blocks n st b) = length st.
Proof. revert st b. induction n as [|n IH]; intros st b; simpl; [done|]. by rewrite IH, block_length. Qed.

Lemma Sum256_length b : length (Sum256 b) = 32%nat.
Proof.
  unfold Sum256. set (s := blocks _ _ _). assert (Hs : length s = 8%nat) by (unfold s; by rewrite blocks_length).
  clearbody s. do 8 (destruct s as [|? s]; [done|]). by destruct s.
Qed.

Example Sum256_abc : Sum256 [97; 98; 99] =
  be_bytes 32 0xba7816bf8f01cfea414140de5dae2223b00361a396177a9cb410ff61f20015ad.
Proof. vm_compute. reflexivity. Qed.
End Sha256.
