(* ===== verification/Hashimoto.v ===== *)
(** * The proof of work function (src/consensus/ethash/algorithm.go)

    [hashimoto] mixes rows of a large dataset.  A verifier computes the rows it
    needs from a small cache ([hashimotoLight]); a miner reads them from the
    dataset that [generateDataset] fills on several threads ([hashimotoFull]).
    The file shows that the two agree. *)
From stdpp Require Import prelude list.
From Stdlib Require Import ZArith Lia.
From S2P Require Import Prelude TrieHash Digests.

(** Keccak-512, from golang.org/x/crypto/sha3. *)
Class Keccak512 := {
  keccak512 : list Z -> list Z;
  keccak512_len b : length (keccak512 b) = 64%nat;
}.

Definition mixBytes : Z := 128.
Definition hashBytes : Z := 64.
Definition hashWords : Z := 16.
Definition datasetParents : nat := 256.
Definition loopAccesses : nat := 64.

(** [binary.LittleEndian.Uint32(b[off:])] *)
Definition Uint32 (b : list Z) (off : Z) : go Z := w ← slice b off (off + 4); Ok (le_read w).

Definition fnv (a b : Z) : Z := Z.lxor (u32 (a * 0x01000193)) b.

(** [fnvHash]: the entries of [data] beyond those of [mix] are not read. *)
Fixpoint fnvHash (mix data : list Z) : go (list Z) :=
  match mix, data with
  | [], _ => Ok []
  | m :: mix, d :: data => mix ← fnvHash mix data; Ok (fnv m d :: mix)
  | _ :: _, [] => Panic
  end.

(** [x % rows] *)
Definition mod_rows (x rows : Z) : go Z := if rows =? 0 then Panic else Ok (x mod rows).

(** [for i := range l { l[i] = f i }] for a new slice of [n] entries. *)
Fixpoint fill (n : nat) (i : Z) (f : Z -> go Z) : go (list Z) :=
  match n with
  | O => Ok []
  | S n => x ← f i; l ← fill n (i + 1) f; Ok (x :: l)
  end.

(** The bytes of words, and the words of bytes. *)
Definition put_words (ws : list Z) : list Z := concat (map (le_write 4) ws).
Definition get_words (n : nat) (b : list Z) : go (list Z) := fill n 0 (fun i => Uint32 b (i * 4)).

(** [copy(dst[off:], src)] *)
Definition copy_at (dst : list Z) (off : Z) (src : list Z) : go (list Z) :=
  if (0 <=? off) && (off <=? zlen dst) then
    let n := Nat.min (length dst - Z.to_nat off) (length src) in
    Ok (take (Z.to_nat off) dst ++ take n src ++ drop (Z.to_nat off + n) dst)
  else Panic.

Section pow.
Context {K : Keccak} {K512 : Keccak512}.

(** The rounds over the parents of an item. *)
Fixpoint mix_parents (n : nat) (i : Z) (cache : list Z) (index rows : Z) (intMix : list Z) : go (list Z) :=
  match n with
  | O => Ok intMix
  | S n =>
      m ← idx intMix (i mod 16);
      parent ← mod_rows (fnv (Z.lxor index i) m) rows;
      data ← slice_from cache (u32 (parent * hashWords));
      intMix ← fnvHash intMix data;
      mix_parents n (i + 1) cache index rows intMix
  end.

Definition generateDatasetItem (cache : list Z) (index : Z) : go (list Z) :=
  let rows := u32 (zlen cache / hashWords) in
  r ← mod_rows index rows;
  first ← idx cache (u32 (r * hashWords));
  rest ← fill 15 1 (fun i => idx cache (u32 (u32 (r * hashWords) + i)));
  let mix := keccak512 (put_words (Z.lxor first index :: rest)) in
  intMix ← get_words 16 mix;
  intMix ← mix_parents datasetParents 0 cache index rows intMix;
  Ok (keccak512 (put_words intMix)).

(** *** The dataset *)

(** The indices that a thread generates. *)
Definition segment (threads size id : Z) : list Z :=
  let batch := (size + hashBytes * threads - 1) / (hashBytes * threads) in
  let first := id * batch in
  let limit := Z.min (first + batch) (size / hashBytes) in
  seqZ first (limit - first).

Definition tasks (threads size : Z) : list Z := seqZ 0 threads ≫= segment threads size.

(** The threads write different items; [order] is how they interleave. *)
Fixpoint write_items (order : list Z) (percent : Z) (cache dest : list Z) : go (list Z) :=
  match order with
  | [] => Ok dest
  | index :: order =>
      item ← generateDatasetItem cache (u32 index);
      ws ← get_words 16 item;
      dest ← copy_at dest (index * hashWords) ws;
      if percent =? 0 then Panic else write_items order percent cache dest
  end.

Definition generateDataset (order : list Z) (cache dest : list Z) : go (list Z) :=
  let size := zlen dest * 4 in
  write_items order (u32 (size / hashBytes / 100)) cache dest.

(** *** Hashimoto *)

Fixpoint mix_rows (n : nat) (i : Z) (rows seedHead : Z) (lookup : Z -> go (list Z)) (mix temp : list Z) : go (list Z) :=
  match n with
  | O => Ok mix
  | S n =>
      m ← idx mix (i mod zlen mix);
      parent ← mod_rows (fnv (Z.lxor i seedHead) m) rows;
      row ← lookup (u32 (2 * parent));
      temp ← copy_at temp 0 row;
      row ← lookup (u32 (2 * parent + 1));
      temp ← copy_at temp hashWords row;
      mix ← fnvHash mix temp;
      mix_rows n (i + 1) rows seedHead lookup mix temp
  end.

(** [mix[i/4] = fnv(fnv(fnv(mix[i], mix[i+1]), mix[i+2]), mix[i+3])] *)
Fixpoint compress (n : nat) (i : Z) (mix : list Z) : go (list Z) :=
  match n with
  | O => Ok mix
  | S n =>
      a ← idx mix i;
      b ← idx mix (i + 1);
      c ← idx mix (i + 2);
      d ← idx mix (i + 3);
      mix ← upd mix (i / 4) (fnv (fnv (fnv a b) c) d);
      compress n (i + 4) mix
  end.

Definition hashimoto (hash : list Z) (nonce size : Z) (lookup : Z -> go (list Z)) : go (list Z * list Z) :=
  let rows := u32 (size / mixBytes) in
  seed ← copy_at (replicate 40 0) 0 hash;
  seed ← copy_at seed 32 (le_write 8 nonce);
  let seed := keccak512 seed in
  seedHead ← Uint32 seed 0;
  mix ← fill 32 0 (fun i => Uint32 seed (i mod 16 * 4));
  mix ← mix_rows loopAccesses 0 rows seedHead lookup mix (replicate 32 0);
  mix ← compress 8 0 mix;
  mix ← slice mix 0 (zlen mix / 4);
  let digest := put_words mix in
  Ok (digest, keccak256 (seed ++ digest)).

Definition light_lookup (cache : list Z) (index : Z) : go (list Z) :=
  rawData ← generateDatasetItem cache index;
  get_words (length rawData / 4) rawData.

Definition hashimotoLight (size : Z) (cache hash : list Z) (nonce : Z) : go (list Z * list Z) :=
  hashimoto hash nonce size (light_lookup cache).

Definition full_lookup (dataset : list Z) (index : Z) : go (list Z) :=
  let offset := u32 (index * hashWords) in
  slice dataset offset (u32 (offset + hashWords)).

Definition hashimotoFull (dataset hash : list Z) (nonce : Z) : go (list Z * list Z) :=
  hashimoto hash nonce (zlen dataset * 4) (full_lookup dataset).
End pow.

(** ** Nothing is out of range *)

(** A computation that returns a list of a given length. *)
Definition returns (m : go (list Z)) (n : nat) : Prop := exists l, m = Ok l /\ length l = n.

Lemma returns_Ok l n : length l = n -> returns (Ok l) n.
Proof. by exists l. Qed.

Lemma fill_returns n i f :
  (forall j, i <= j < i + Z.of_nat n -> exists x, f j = Ok x) -> returns (fill n i f) n.
Proof.
  revert i. induction n as [|n IH]; intros i Hf; [by apply returns_Ok|]. cbn [fill].
  destruct (Hf i) as [x ->]; [lia|]. bind_simpl. destruct (IH (i + 1)) as (l & -> & Hl); [intros j Hj; apply Hf; lia|].
  bind_simpl. apply returns_Ok. simpl. lia.
Qed.

Lemma Uint32_Ok b off : 0 <= off -> off + 4 <= zlen b -> exists x, Uint32 b off = Ok x.
Proof.
  intros Ho Hb. unfold Uint32, slice. rewrite !(proj2 (Z.leb_le _ _)) by lia. simpl. by eexists.
Qed.

Lemma get_words_returns n b : (4 * n <= length b)%nat -> returns (get_words n b) n.
Proof. intros Hn. apply fill_returns. intros j Hj. apply Uint32_Ok; unfold zlen; lia. Qed.

Lemma idx_in {A} (l : list A) i : 0 <= i < zlen l -> exists x, idx l i = (Ok x : go A).
Proof. intros Hi. by apply idx_in_range. Qed.

Lemma fnvHash_returns mix data : (length mix <= length data)%nat -> returns (fnvHash mix data) (length mix).
Proof.
  revert data. induction mix as [|m mix IH]; intros [|d data] Hl; simpl in Hl; try (by apply returns_Ok); [lia|]. cbn [fnvHash].
  destruct (IH data) as (l & -> & Hl'); [lia|]. bind_simpl. apply returns_Ok. simpl. lia.
Qed.

Lemma mod_rows_Ok x rows : 0 < rows -> exists y, mod_rows x rows = Ok y /\ 0 <= y < rows.
Proof.
  intros Hr. unfold mod_rows. rewrite (proj2 (Z.eqb_neq rows 0)) by lia. eexists. split; [done|]. by apply Z.mod_pos_bound.
Qed.

Lemma copy_at_returns dst off src : 0 <= off <= zlen dst -> returns (copy_at dst off src) (length dst).
Proof.
  intros Ho. unfold copy_at. rewrite !(proj2 (Z.leb_le _ _)) by lia. simpl andb. cbv iota. apply returns_Ok.
  unfold zlen in Ho. rewrite !length_app, !length_take, length_drop. lia.
Qed.

Section total.
Context {K : Keccak} {K512 : Keccak512}.

(** A cache holds at least one row, and its offsets fit 32 bits. *)
Definition cache_ok (cache : list Z) : Prop := 16 <= zlen cache < 2 ^ 32.

Lemma cache_rows cache : cache_ok cache -> exists rows, u32 (zlen cache / hashWords) = rows /\ 0 < rows /\ rows * 16 <= zlen cache.
Proof.
  intros Hc. eexists. split; [done|]. unfold cache_ok, hashWords in *. rewrite u32_small by (Z.div_mod_to_equations; lia). Z.div_mod_to_equations. lia.
Qed.

Lemma mix_parents_returns n i cache index rows mix :
  cache_ok cache -> 0 < rows -> rows * 16 <= zlen cache -> length mix = 16%nat -> returns (mix_parents n i cache index rows mix) 16.
Proof.
  intros Hc Hr Hrc. revert i mix. induction n as [|n IH]; intros i mix Hm; [by apply returns_Ok|]. cbn [mix_parents]. unfold cache_ok in Hc.
  destruct (idx_in mix (i mod 16)) as [m ->]; [unfold zlen; rewrite Hm; Z.div_mod_to_equations; lia|]. bind_simpl.
  destruct (mod_rows_Ok (fnv (Z.lxor index i) m) rows Hr) as (parent & -> & Hp). bind_simpl. unfold hashWords. rewrite u32_small by lia.
  unfold slice_from, slice. rewrite !(proj2 (Z.leb_le _ _)) by lia. simpl andb. cbv iota. bind_simpl.
  match goal with |- context [fnvHash mix ?d] => destruct (fnvHash_returns mix d) as (l & -> & Hl) end.
  { rewrite length_take, length_drop. unfold zlen in *. lia. }
  bind_simpl. apply IH. lia.
Qed.

Lemma generateDatasetItem_returns cache index : cache_ok cache -> returns (generateDatasetItem cache index) 64.
Proof.
  intros Hc. unfold generateDatasetItem. destruct (cache_rows cache Hc) as (rows & -> & Hr & Hrc).
  destruct (mod_rows_Ok index rows Hr) as (r & -> & Hrr). bind_simpl. pose proof Hc as [_ Hc2]. unfold hashWords. rewrite u32_small by lia.
  destruct (idx_in cache (r * 16)) as [first ->]; [lia|]. bind_simpl.
  destruct (fill_returns 15 1 (fun i => idx cache (u32 (r * 16 + i)))) as (rest & -> & Hrest).
  { intros j Hj. rewrite u32_small by lia. apply idx_in. lia. }
  bind_simpl. match goal with |- context [get_words 16 (keccak512 ?x)] => destruct (get_words_returns 16 (keccak512 x)) as (ws & -> & Hws) end.
  { rewrite keccak512_len. lia. }
  bind_simpl. destruct (mix_parents_returns datasetParents 0 cache index rows ws Hc Hr Hrc Hws) as (l & -> & _). bind_simpl. apply returns_Ok, keccak512_len.
Qed.

Lemma light_lookup_returns cache index : cache_ok cache -> returns (light_lookup cache index) 16.
Proof.
  intros Hc. unfold light_lookup. destruct (generateDatasetItem_returns cache index Hc) as (item & -> & Hl). bind_simpl.
  rewrite Hl. apply get_words_returns. rewrite Hl. done.
Qed.

(** *** The rounds of hashimoto *)

Lemma mix_rows_returns n i rows seedHead lookup lookup' mix temp :
  0 < rows < 2 ^ 31 -> length mix = 32%nat -> length temp = 32%nat ->
  (forall j, 0 <= j < 2 * rows -> returns (lookup j) 16 /\ lookup' j = lookup j) ->
  returns (mix_rows n i rows seedHead lookup mix temp) 32 /\
  mix_rows n i rows seedHead lookup' mix temp = mix_rows n i rows seedHead lookup mix temp.
Proof.
  intros Hr Hm Ht Hl. revert i mix temp Hm Ht. induction n as [|n IH]; intros i mix temp Hm Ht; [by split; [apply returns_Ok|]|]. cbn [mix_rows].
  destruct (idx_in mix (i mod zlen mix)) as [m ->]; [unfold zlen; rewrite Hm; Z.div_mod_to_equations; lia|]. bind_simpl.
  destruct (mod_rows_Ok (fnv (Z.lxor i seedHead) m) rows) as (parent & -> & Hp); [lia|]. bind_simpl. rewrite !u32_small by lia.
  destruct (Hl (2 * parent)) as [(r1 & E1 & L1) ->]; [lia|]. rewrite E1. bind_simpl.
  destruct (copy_at_returns temp 0 r1) as (t1 & -> & Lt1); [unfold zlen; lia|]. bind_simpl.
  destruct (Hl (2 * parent + 1)) as [(r2 & E2 & L2) ->]; [lia|]. rewrite E2. bind_simpl.
  destruct (copy_at_returns t1 hashWords r2) as (t2 & -> & Lt2); [unfold zlen, hashWords; lia|]. bind_simpl.
  destruct (fnvHash_returns mix t2) as (mix' & -> & Lm); [lia|]. bind_simpl. apply IH; lia.
Qed.

Lemma compress_returns n i mix :
  0 <= i -> i + 4 * Z.of_nat n <= zlen mix -> returns (compress n i mix) (length mix).
Proof.
  revert i mix. induction n as [|n IH]; intros i mix Hi Hn; [by apply returns_Ok|]. cbn [compress].
  destruct (idx_in mix i) as [a ->]; [lia|]. destruct (idx_in mix (i + 1)) as [b ->]; [lia|].
  destruct (idx_in mix (i + 2)) as [c ->]; [lia|]. destruct (idx_in mix (i + 3)) as [d ->]; [lia|]. bind_simpl.
  assert (0 <= i / 4 < zlen mix) by (Z.div_mod_to_equations; lia).
  unfold upd. rewrite (proj2 (Z.leb_le _ _)), (proj2 (Z.ltb_lt _ _)) by lia. simpl andb. cbv iota. bind_simpl.
  rewrite <- (length_insert mix (Z.to_nat (i / 4)) (fnv (fnv (fnv a b) c) d)). apply IH; [lia|]. unfold zlen in *. rewrite length_insert. lia.
Qed.

Lemma hashimoto_lookups hash nonce size lookup lookup' :
  128 <= size < 2 ^ 34 -> (forall j, 0 <= j < 2 * (size / 128) -> returns (lookup j) 16 /\ lookup' j = lookup j) ->
  exists r, hashimoto hash nonce size lookup = Ok r /\ hashimoto hash nonce size lookup' = Ok r.
Proof.
  intros Hs Hl. unfold hashimoto, mixBytes. assert (Hr : 0 < size / 128 < 2 ^ 31) by (Z.div_mod_to_equations; lia). rewrite u32_small by lia.
  destruct (copy_at_returns (replicate 40 0) 0 hash) as (s1 & -> & L1); [done|]. bind_simpl. rewrite length_replicate in L1.
  destruct (copy_at_returns s1 32 (le_write 8 nonce)) as (s2 & -> & _); [unfold zlen; lia|]. bind_simpl. set (seed := keccak512 s2).
  assert (Lseed : zlen seed = 64) by (unfold zlen, seed; by rewrite keccak512_len).
  destruct (Uint32_Ok seed 0) as [seedHead ->]; [lia..|]. bind_simpl.
  destruct (fill_returns 32 0 (fun i => Uint32 seed (i mod 16 * 4))) as (mix & -> & Lmix).
  { intros j Hj. apply Uint32_Ok; Z.div_mod_to_equations; lia. }
  bind_simpl. destruct (mix_rows_returns loopAccesses 0 (size / 128) seedHead lookup lookup' mix (replicate 32 0) Hr Lmix eq_refl Hl) as [(mix2 & E2 & L2) ->].
  rewrite E2. bind_simpl. destruct (compress_returns 8 0 mix2) as (mix3 & -> & L3); [lia|unfold zlen; lia|]. bind_simpl.
  assert (Hz : zlen mix3 = 32) by (unfold zlen; lia). rewrite Hz. unfold slice. rewrite Hz. change ((0 <=? 0) && (0 <=? 32 / 4) && (32 / 4 <=? 32)) with true. cbv iota. bind_simpl. by eexists.
Qed.
(** ** The dataset *)

(** The row [i] of the dataset. *)
Definition row (dest : list Z) (i : nat) : list Z := take 16 (drop (16 * i) dest).

Lemma row_copy dest (i : nat) ws :
  length ws = 16%nat -> (16 * i + 16 <= length dest)%nat ->
  exists dest', copy_at dest (Z.of_nat i * hashWords) ws = Ok dest' /\ length dest' = length dest /\ row dest' i = ws /\
    forall j, (16 * j + 16 <= length dest)%nat -> j <> i -> row dest' j = row dest j.
Proof.
  intros Hw Hl. unfold copy_at, hashWords. rewrite !(proj2 (Z.leb_le _ _)) by (unfold zlen; lia). simpl andb. cbv iota.
  replace (Z.to_nat (Z.of_nat i * 16)) with (16 * i)%nat by lia. rewrite Nat.min_r, (take_ge ws) by lia. eexists. split; [done|].
  rewrite !length_app, length_take, length_drop. split; [lia|]. unfold row. split.
  - rewrite drop_app_length' by (rewrite length_take; lia). by rewrite take_app_length'.
  - intros j Hj Hne. destruct (decide (j < i)%nat) as [Hlt|Hge].
    + rewrite drop_app_le by (rewrite length_take; lia). rewrite take_app_le by (rewrite length_drop, length_take; lia).
      rewrite skipn_firstn_comm, take_take. f_equal. lia.
    + rewrite drop_app_ge by (rewrite length_take; lia). rewrite length_take, drop_app_ge by (rewrite ?length_take; lia). rewrite drop_drop. f_equal. f_equal. lia.
Qed.

Lemma write_items_spec order percent cache dest n :
  cache_ok cache -> percent <> 0 -> length dest = (16 * n)%nat -> Z.of_nat n <= 2 ^ 32 -> Forall (fun i => 0 <= i < Z.of_nat n) order ->
  exists dest', write_items order percent cache dest = Ok dest' /\ length dest' = (16 * n)%nat /\
    (forall i, (i < n)%nat -> light_lookup cache (Z.of_nat i) = Ok (row dest i) \/ Z.of_nat i ∈ order -> light_lookup cache (Z.of_nat i) = Ok (row dest' i)).
Proof.
  intros Hc Hp Hl Hn Ho. revert dest Hl. induction Ho as [|index order Hi _ IH]; intros dest Hl; cbn [write_items].
  { exists dest. split; [done|]. split; [done|]. intros i _ [?|?%elem_of_nil]; done. }
  pose proof (light_lookup_returns cache index Hc) as Hlook. unfold light_lookup in Hlook. rewrite (u32_small index) by lia.
  destruct (generateDatasetItem_returns cache index Hc) as (item & Eitem & Litem). rewrite Eitem in Hlook |- *. bind_simpl.
  change (m ← Ok item; get_words (length m / 4) m) with (get_words (length item / 4) item) in Hlook. rewrite Litem in Hlook. change (64 / 4)%nat with 16%nat in Hlook.
  destruct Hlook as (ws & Ews & Lws). rewrite Ews. bind_simpl. rewrite <- (Z2Nat.id index) by lia.
  destruct (row_copy dest (Z.to_nat index) ws Lws) as (d1 & -> & L1 & Hrow & Hother); [lia|]. bind_simpl. rewrite (proj2 (Z.eqb_neq percent 0)) by done.
  destruct (IH d1) as (dest' & Hrun & L' & Hall); [lia|]. exists dest'. split; [done|]. split; [done|]. intros i Hin Hor. apply Hall; [done|].
  destruct (decide (i = Z.to_nat index)) as [->|Hne].
  - left. rewrite Hrow. unfold light_lookup. rewrite Z2Nat.id, Eitem by lia. bind_simpl. by rewrite Litem.
  - destruct Hor as [Hor|Hor]; [left; rewrite Hother by lia; done|]. right. apply elem_of_cons in Hor as [Hor|Hor]; [lia|done].
Qed.

(** The segments of the threads cover the items, whatever the number of threads. *)
Lemma tasks_elem threads n i : 1 <= threads -> i ∈ tasks threads (64 * n) <-> 0 <= i < n.
Proof.
  intros Ht. unfold tasks. rewrite list_elem_of_bind. unfold segment, hashBytes.
  replace (64 * n / 64) with n by (rewrite Z.mul_comm, Z.div_mul; lia).
  set (batch := (64 * n + 64 * threads - 1) / (64 * threads)).
  assert (Hb : 64 * n <= batch * (64 * threads)) by (unfold batch; Z.div_mod_to_equations; nia). split.
  - intros (id & Hi & Hid). apply elem_of_seqZ in Hid, Hi. nia.
  - intros Hi. assert (Hbp : 0 < batch) by nia. exists (i / batch). split; apply elem_of_seqZ.
    + Z.div_mod_to_equations. nia.
    + split; [apply Z.div_pos; lia|]. apply Z.div_lt_upper_bound; nia.
Qed.

Lemma full_lookup_row ds n index :
  length ds = (16 * n)%nat -> Z.of_nat n < 2 ^ 28 -> 0 <= index < Z.of_nat n -> full_lookup ds index = Ok (row ds (Z.to_nat index)).
Proof.
  intros Hl Hn Hi. unfold full_lookup, hashWords. rewrite !u32_small by (rewrite ?u32_small; lia). apply slice_Ok. unfold zlen. split; [lia|]. split; [lia|].
  unfold row. f_equal; [lia|]. f_equal. lia.
Qed.
End total.

(** C29. Light and full verification agree.  Whatever the number of threads
    and their interleaving, [generateDataset] fills the dataset without
    leaving an item out, and the digest and result that [hashimotoFull] reads
    from it are those that [hashimotoLight] computes from the cache; nothing is
    out of range.  This holds for less than 2^28 rows; from there on the 32-bit
    offset of [hashimotoFull] wraps around to the first rows. *)
Theorem hashimoto_light_full {K : Keccak} {K512 : Keccak512} (threads : Z) (order cache dest hash : list Z) (nonce : Z) (n : nat) :
  1 <= threads -> order ≡ₚ tasks threads (64 * Z.of_nat n) -> cache_ok cache -> length dest = (16 * n)%nat -> 100 <= Z.of_nat n < 2 ^ 28 ->
  (exists ds r, generateDataset order cache dest = Ok ds /\ length ds = (16 * n)%nat /\
     hashimotoLight (64 * Z.of_nat n) cache hash nonce = Ok r /\ hashimotoFull ds hash nonce = Ok r) /\
  (forall ds index, 2 ^ 28 <= index < 2 ^ 29 -> full_lookup ds index = full_lookup ds (index - 2 ^ 28)).
Proof.
  intros Ht Ho Hc Hl Hn. split.
  2: { intros ds index Hi. unfold full_lookup, hashWords. replace (u32 (index * 16)) with (u32 ((index - 2 ^ 28) * 16)); [done|].
       unfold u32. replace (index * 16) with ((index - 2 ^ 28) * 16 + 1 * 2 ^ 32) by lia. by rewrite Z.mod_add. }
  assert (Hz : zlen dest * 4 = 64 * Z.of_nat n) by (unfold zlen; lia). unfold generateDataset, hashimotoFull, hashimotoLight. rewrite Hz. unfold hashBytes.
  replace (64 * Z.of_nat n / 64) with (Z.of_nat n) by (rewrite Z.mul_comm, Z.div_mul; lia).
  assert (Hmem : forall i, i ∈ order <-> 0 <= i < Z.of_nat n) by (intros i; rewrite Ho; by apply tasks_elem).
  destruct (write_items_spec order (u32 (Z.of_nat n / 100)) cache dest n) as (ds & -> & Lds & Hrows); [done| |done|lia|apply Forall_forall; intros i; apply Hmem|].
  { rewrite u32_small; Z.div_mod_to_equations; lia. }
  assert (Hzd : zlen ds * 4 = 64 * Z.of_nat n) by (unfold zlen; lia).
  destruct (hashimoto_lookups hash nonce (64 * Z.of_nat n) (light_lookup cache) (full_lookup ds)) as (r & Hr & Hr'); [lia| |exists ds, r; split; [done|]; split; [done|]; split; [exact Hr|rewrite Hzd; exact Hr']].
  intros j Hj. assert (Hjn : 0 <= j < Z.of_nat n) by (Z.div_mod_to_equations; lia). split; [by apply light_lookup_returns|].
  rewrite (full_lookup_row ds n) by (done || lia). specialize (Hrows (Z.to_nat j)). rewrite Z2Nat.id in Hrows by lia. symmetry. apply Hrows; [lia|]. right. by apply Hmem.
Qed.

(** ** Example *)

Lemma toy_hash_length b : length (toy_hash b ++ toy_hash (1 :: b)) = 64%nat.
Proof. rewrite length_app. pose proof (toy_hash_ok b) as [H1 _]. pose proof (toy_hash_ok (1 :: b)) as [H2 _]. unfold zlen in *. lia. Qed.

Definition toy_keccak512 : Keccak512 := {| keccak512 b := toy_hash b ++ toy_hash (1 :: b); keccak512_len := toy_hash_length |}.

Definition sample_cache : list Z := seqZ 1 32.

Lemma hashimoto_light_full_witness :
  (exists ds r, generateDataset (K512 := toy_keccak512) (tasks 3 6400) sample_cache (replicate 1600 0) = Ok ds /\ length ds = (16 * 100)%nat /\
     hashimotoLight (K := toy_keccak) (K512 := toy_keccak512) (64 * Z.of_nat 100) sample_cache (replicate 32 7) 42 = Ok r /\
     hashimotoFull (K := toy_keccak) (K512 := toy_keccak512) ds (replicate 32 7) 42 = Ok r) /\
  (forall ds index, 2 ^ 28 <= index < 2 ^ 29 -> full_lookup ds index = full_lookup ds (index - 2 ^ 28)).
Proof.
  apply (hashimoto_light_full (K := toy_keccak) (K512 := toy_keccak512) 3 (tasks 3 6400) sample_cache (replicate 1600 0) (replicate 32 7) 42 100);
    [lia|done|split; vm_compute; done|by rewrite length_replicate|lia].
Defined.
