(* ===== verification/VmBase.v ===== *)
(** * Words, stack and memory of the virtual machine (src/core/vm)

    The 256-bit integers of the package uint256, which is not part of the
    repository, are an interface; the stack, the memory, the sizes and the
    quadratic gas of memory are the code of stack.go, memory.go, common.go,
    memory_table.go and gas_table.go. *)
From stdpp Require Import prelude list gmap.
From Stdlib Require Import ZArith Lia.
From S2P Require Import Prelude.

(** ** The package uint256 *)

(** [uint256.Int] with the methods that the machine uses, and what is relied
    on of them. *)
Class Uint256 := {
  word : Type;
  ToBig : word -> Z;
  FromBig : Z -> word;
  SetUint64 : Z -> word;
  SetBytes : list Z -> word;
  Bytes32 : word -> list Z;
  Bytes20 : word -> list Z;
  WriteToSlice : word -> list Z -> list Z;
  Uint64 : word -> Z;
  IsUint64 : word -> bool;
  IsZero : word -> bool;
  Sign : word -> Z;
  BitLen : word -> Z;
  w_Add : word -> word -> word;
  w_Sub : word -> word -> word;
  w_Mul : word -> word -> word;
  w_Div : word -> word -> word;
  w_SDiv : word -> word -> word;
  w_Mod : word -> word -> word;
  w_SMod : word -> word -> word;
  w_Exp : word -> word -> word;
  ExtendSign : word -> word -> word;
  w_Not : word -> word;
  w_Lt : word -> word -> bool;
  w_Gt : word -> word -> bool;
  w_Slt : word -> word -> bool;
  w_Sgt : word -> word -> bool;
  w_Eq : word -> word -> bool;
  w_And : word -> word -> word;
  w_Or : word -> word -> word;
  w_Xor : word -> word -> word;
  w_Byte : word -> word -> word;
  AddMod : word -> word -> word -> word;
  MulMod : word -> word -> word -> word;
  Lsh : word -> Z -> word;
  Rsh : word -> Z -> word;
  SRsh : word -> Z -> word;
  SetAllOne : word;
  w_One : word;
  w_Zero : word;
  LtUint64 : word -> Z -> bool;
  GtUint64 : word -> Z -> bool;
  ToBig_range w : 0 <= ToBig w < 2 ^ 256;
  FromBig_value z : ToBig (FromBig z) = z mod 2 ^ 256;
  SetUint64_value z : 0 <= z < 2 ^ 64 -> ToBig (SetUint64 z) = z;
  Uint64_value w : Uint64 w = u64 (ToBig w);
  IsUint64_value w : IsUint64 w = (ToBig w <? 2 ^ 64);
  IsZero_value w : IsZero w = (ToBig w =? 0);
  Sign_zero w : (Sign w =? 0) = (ToBig w =? 0);
  Add_value x y : ToBig (w_Add x y) = (ToBig x + ToBig y) mod 2 ^ 256;
  BitLen_range w : 0 <= BitLen w <= 256;
  Bytes32_ok w : zlen (Bytes32 w) = 32 /\ bytes_ok (Bytes32 w);
  Bytes20_ok w : zlen (Bytes20 w) = 20 /\ bytes_ok (Bytes20 w);
  WriteToSlice_ok w dest : 32 <= zlen dest -> WriteToSlice w dest = Bytes32 w ++ drop 32 dest;
}.

(** ** Errors (errors.go) *)

Inductive vm_error :=
| ErrInvalidSubroutineEntry
| ErrOutOfGas
| ErrCodeStoreOutOfGas
| ErrDepth
| ErrInsufficientBalance
| ErrContractAddressCollision
| ErrExecutionReverted
| ErrMaxCodeSizeExceeded
| ErrInvalidJump
| ErrWriteProtection
| ErrReturnDataOutOfBounds
| ErrGasUintOverflow
| ErrInvalidRetsub
| ErrReturnStackExceeded
| ErrSentry
| ErrStackUnderflow (stackLen required : Z)
| ErrStackOverflow (stackLen limit : Z)
| ErrInvalidOpCode (opcode : Z)
| ErrPrecompile (tag : Z).

#[global] Instance vm_error_dec : EqDecision vm_error.
Proof. solve_decision. Defined.

Abbreviation vm A := (outcome vm_error A).

(** A function without errors, called where errors are possible. *)
Definition lift {A} (m : go A) : vm A :=
  match m with Ok a => Ok a | Err e => match e : Empty_set with end | Panic => Panic end.

(** ** Arithmetic with overflow (common/math) *)

Definition MaxUint64 : Z := 2 ^ 64 - 1.
Definition SafeSub (x y : Z) : Z * bool := (u64 (x - y), x <? y).
Definition SafeAdd (x y : Z) : Z * bool := (u64 (x + y), 2 ^ 64 <=? x + y).
Definition SafeMul (x y : Z) : Z * bool := (u64 (x * y), 2 ^ 64 <=? x * y).

(** [r, overflow := f; if overflow { return 0, ErrGasUintOverflow }] *)
Definition checked (r : Z * bool) : vm Z := if r.2 then Err ErrGasUintOverflow else Ok r.1.

(** [int64(x)] for a 64-bit [x] *)
Definition int64 (x : Z) : Z := if x <? 2 ^ 63 then x else x - 2 ^ 64.

Section words.
Context {U : Uint256}.

Definition Uint64WithOverflow (w : word) : Z * bool := (Uint64 w, negb (IsUint64 w)).

(** ** Sizes and data (common.go) *)

Definition calcMemSize64WithUint (off : word) (length64 : Z) : Z * bool :=
  if length64 =? 0 then (0, false)
  else
    let '(offset64, overflow) := Uint64WithOverflow off in
    if (overflow : bool) then (0, true)
    else let val := u64 (offset64 + length64) in (val, val <? offset64).

Definition calcMemSize64 (off l : word) : Z * bool :=
  if negb (IsUint64 l) then (0, true) else calcMemSize64WithUint off (Uint64 l).
End words.

(** [make] panics for more bytes than the runtime can ever allocate, 2^48 on
    the 64-bit platforms; running out of memory below that is not modelled. *)
Definition max_alloc : Z := 2 ^ 48.

Definition RightPadBytes (b : list Z) (l : Z) : go (list Z) :=
  if l <=? zlen b then Ok b
  else if max_alloc <? l then Panic
  else Ok (b ++ replicate (Z.to_nat (l - zlen b)) 0).

Definition LeftPadBytes (b : list Z) (l : Z) : go (list Z) :=
  if l <=? zlen b then Ok b
  else if max_alloc <? l then Panic
  else Ok (replicate (Z.to_nat (l - zlen b)) 0 ++ b).

Definition getData (data : list Z) (start size : Z) : go (list Z) :=
  let length := zlen data in
  let start := if start >? length then length else start in
  let end_ := u64 (start + size) in
  let end_ := if end_ >? length then length else end_ in
  b ← slice data start end_;
  RightPadBytes b (int64 size).

Definition toWordSize (size : Z) : Z :=
  if size >? MaxUint64 - 31 then MaxUint64 / 32 + 1 else (size + 31) / 32.

(** ** The stack (stack.go), its top first *)

Section stack.
Context {A : Type}.

Definition pop (st : list A) : go (A * list A) := match st with x :: st => Ok (x, st) | [] => Panic end.
Definition push (st : list A) (x : A) : list A := x :: st.
Definition Back (st : list A) (n : nat) : go A := match st !! n with Some x => Ok x | None => Panic end.
Definition dup (st : list A) (n : nat) : go (list A) := match st !! (n - 1)%nat with Some x => Ok (push st x) | None => Panic end.
Definition swap (st : list A) (n : nat) : go (list A) :=
  match st !! (n - 1)%nat, st !! 0%nat with
  | Some x, Some y => Ok (<[0%nat := x]> (<[(n - 1)%nat := y]> st))
  | _, _ => Panic
  end.
End stack.

(** ** The memory (memory.go) *)

Record Memory := MkMemory { mem_store : list Z; lastGasCost : Z }.

Definition NewMemory : Memory := MkMemory [] 0.
Definition Len (m : Memory) : Z := zlen (mem_store m).

(** [copy(m.store[offset:offset+size], value)] *)
Definition mem_Set (m : Memory) (offset size : Z) (value : list Z) : go Memory :=
  if size >? 0 then
    let end_ := u64 (offset + size) in
    if end_ >? Len m then Panic
    else if offset >? end_ then Panic
    else
      '(st, _) ← copy_at (mem_store m) offset (take (Z.to_nat (end_ - offset)) value);
      Ok (MkMemory st (lastGasCost m))
  else Ok m.

Definition Set32 `{Uint256} (m : Memory) (offset : Z) (val : word) : go Memory :=
  let end_ := u64 (offset + 32) in
  if end_ >? Len m then Panic
  else if offset >? end_ then Panic
  else
    '(st, _) ← copy_at (mem_store m) offset (replicate 32 0);
    Ok (MkMemory (take (Z.to_nat offset) st ++ WriteToSlice val (drop (Z.to_nat offset) st)) (lastGasCost m)).

Definition mem_Resize (m : Memory) (size : Z) : Memory :=
  if Len m <? size then MkMemory (mem_store m ++ replicate (Z.to_nat (size - Len m)) 0) (lastGasCost m) else m.

Definition GetPtr (m : Memory) (offset size : Z) : go (list Z) :=
  if size =? 0 then Ok []
  else if Len m >? offset then slice (mem_store m) offset (offset + size)
  else Ok [].

Definition GetCopy (m : Memory) (offset size : Z) : go (list Z) :=
  if size =? 0 then Ok []
  else if Len m >? offset then
    if size <? 0 then Panic
    else b ← slice (mem_store m) offset (offset + size); Ok b
  else Ok [].

(** ** The gas of memory (gas_table.go) *)

Definition MemoryGas : Z := 3.
Definition QuadCoeffDiv : Z := 512.

Definition memoryGasCost (m : Memory) (newMemSize : Z) : vm (Z * Memory) :=
  if newMemSize =? 0 then Ok (0, m)
  else if newMemSize >? 137438953440 then Err ErrGasUintOverflow
  else
    let newMemSizeWords := toWordSize newMemSize in
    let newMemSize := u64 (newMemSizeWords * 32) in
    if newMemSize >? Len m then
      let square := u64 (newMemSizeWords * newMemSizeWords) in
      let linCoef := u64 (newMemSizeWords * MemoryGas) in
      let quadCoef := square / QuadCoeffDiv in
      let newTotalFee := u64 (linCoef + quadCoef) in
      let fee := u64 (newTotalFee - lastGasCost m) in
      Ok (fee, MkMemory (mem_store m) newTotalFee)
    else Ok (0, m).

(** ** The stack positions of memory operands (memory_table.go) *)

Section memory_table.
Context {U : Uint256}.
Implicit Types (st : list word).

Definition mem_at st (off len : nat) : go (Z * bool) :=
  o ← Back st off; l ← Back st len; Ok (calcMemSize64 o l).
Definition mem_fixed st (off : nat) (len : Z) : go (Z * bool) :=
  o ← Back st off; Ok (calcMemSize64WithUint o len).
Definition mem_two st (off len off' len' : nat) : go (Z * bool) :=
  '(x, overflow) ← mem_at st off len;
  if (overflow : bool) then Ok (0, true)
  else
    '(y, overflow) ← mem_at st off' len';
    if (overflow : bool) then Ok (0, true)
    else if x >? y then Ok (x, false) else Ok (y, false).

Definition memorySha3 st := mem_at st 0 1.
Definition memoryCallDataCopy st := mem_at st 0 2.
Definition memoryReturnDataCopy st := mem_at st 0 2.
Definition memoryCodeCopy st := mem_at st 0 2.
Definition memoryExtCodeCopy st := mem_at st 1 3.
Definition memoryMLoad st := mem_fixed st 0 32.
Definition memoryMStore8 st := mem_fixed st 0 1.
Definition memoryMStore st := mem_fixed st 0 32.
Definition memoryCreate st := mem_at st 1 2.
Definition memoryCreate2 st := mem_at st 1 2.
Definition memoryCall st := mem_two st 5 6 3 4.
Definition memoryDelegateCall st := mem_two st 4 5 2 3.
Definition memoryStaticCall st := mem_two st 4 5 2 3.
Definition memoryReturn st := mem_at st 0 1.
Definition memoryRevert st := mem_at st 0 1.
Definition memoryLog st := mem_at st 0 1.
End memory_table.

(** ** What memory costs *)

(** The fee for a memory of [w] words. *)
Definition mem_fee (w : Z) : Z := 3 * w + w * w / 512.

Definition mem_limit : Z := 137438953440.

(** The memory has whole words, within the limit, and their fee is paid. *)
Definition mem_ok (m : Memory) : Prop :=
  exists w, 0 <= w /\ Len m = 32 * w /\ Len m <= mem_limit /\ lastGasCost m = mem_fee w.

Lemma mem_fee_mono w w' : 0 <= w <= w' -> mem_fee w <= mem_fee w'.
Proof. intros H. unfold mem_fee. assert (w * w / 512 <= w' * w' / 512) by (apply Z.div_le_mono; nia). lia. Qed.

Lemma mem_fee_small w : 0 <= w <= 4294967295 -> 0 <= mem_fee w < 2 ^ 63 /\ w * w < 2 ^ 64.
Proof.
  intros H. assert (w * w <= 4294967295 * 4294967295) by nia. unfold mem_fee.
  pose proof (Z.div_le_mono (w * w) (4294967295 * 4294967295) 512 ltac:(lia) ltac:(lia)).
  pose proof (Z.div_pos (w * w) 512 ltac:(nia) ltac:(lia)). change (4294967295 * 4294967295 / 512) with 36028797002186752 in *. lia.
Qed.

Lemma Resize_Len m size : Len (mem_Resize m size) = Z.max (Len m) size.
Proof.
  unfold mem_Resize. pose proof (zlen_nonneg (mem_store m)). destruct (Z.ltb_spec (Len m) size); unfold Len in *; simpl; [|lia].
  rewrite zlen_app, zlen_replicate. lia.
Qed.

(** The charge for an expansion to a whole number of words, and the memory
    after it. *)
Lemma memoryGasCost_spec m w :
  mem_ok m -> 0 <= w -> 32 * w <= mem_limit ->
  exists fee m', memoryGasCost m (32 * w) = Ok (fee, m') /\ mem_store m' = mem_store m /\
    fee = mem_fee (Z.max (Len m / 32) w) - mem_fee (Len m / 32) /\ 0 <= fee < 2 ^ 63 /\ mem_ok (mem_Resize m' (32 * w)).
Proof.
  intros (w0 & Hw0 & Hl & Hlim & Hfee) Hw Hmax. unfold mem_limit in *. assert (Hd : Len m / 32 = w0) by (rewrite Hl, Z.mul_comm; by apply Z.div_mul).
  unfold memoryGasCost. rewrite Hd. destruct (Z.eqb_spec (32 * w) 0) as [H0|H0].
  { exists 0, m. rewrite Z.max_l by lia. split_and!; try done; try lia. exists w0. rewrite Resize_Len, Z.max_l by lia.
    unfold mem_limit. split_and!; try done; try lia. unfold mem_Resize. by rewrite (proj2 (Z.ltb_ge _ _)) by lia. }
  rewrite Z.gtb_ltb, (proj2 (Z.ltb_ge _ _)) by lia.
  assert (Hws : toWordSize (32 * w) = w).
  { unfold toWordSize, MaxUint64. rewrite Z.gtb_ltb, (proj2 (Z.ltb_ge _ _)) by lia. symmetry. apply (Z.div_unique _ 32 w 31); lia. }
  rewrite Hws, (u64_small (w * 32)) by lia. rewrite Z.gtb_ltb.
  destruct (mem_fee_small w) as [Hf Hsq]; [lia|]. destruct (mem_fee_small w0) as [Hf0 _]; [lia|].
  destruct (Z.ltb_spec (Len m) (w * 32)) as [Hgt|Hle].
  - pose proof (mem_fee_mono w0 w ltac:(lia)). assert (Hq : 0 <= w * w / 512) by (apply Z.div_pos; nia).
    assert (Htot : u64 (u64 (w * MemoryGas) + u64 (w * w) / QuadCoeffDiv) = mem_fee w).
    { unfold MemoryGas, QuadCoeffDiv. unfold mem_fee in *. rewrite (u64_small (w * 3)), (u64_small (w * w)), u64_small by nia. lia. }
    rewrite Htot, Hfee, u64_small by lia. eexists _, _. split; [reflexivity|]. rewrite Z.max_r by lia. split_and!; try done; try lia.
    exists w. rewrite Resize_Len. change (Len (MkMemory _ _)) with (Len m). unfold mem_limit. rewrite Z.max_r by lia. split_and!; try lia.
    unfold mem_Resize. by destruct (_ <? _).
  - eexists 0, m. split; [reflexivity|]. rewrite Z.max_l by lia. split_and!; try done; try lia. exists w0.
    rewrite Resize_Len, Z.max_l by lia. unfold mem_limit. split_and!; try lia. unfold mem_Resize. by rewrite (proj2 (Z.ltb_ge _ _)) by lia.
Qed.

(** Memory is charged exactly: for a memory whose fee is paid, the charge
    for an expansion to a whole number of words is the difference of the
    quadratic fees over the integers, no 64-bit operation of the computation
    overflows, and after the expansion the fee is paid again; beyond the limit
    the computation fails. *)
Theorem memoryGasCost_exact m w :
  mem_ok m -> 0 <= w ->
  (32 * w <= mem_limit ->
    exists fee m', memoryGasCost m (32 * w) = Ok (fee, m') /\ fee = mem_fee (Z.max (Len m / 32) w) - mem_fee (Len m / 32) /\
      mem_ok (mem_Resize m' (32 * w)) /\ Len (mem_Resize m' (32 * w)) = Z.max (Len m) (32 * w) /\
      take (Z.to_nat (Len m)) (mem_store (mem_Resize m' (32 * w))) = mem_store m) /\
  (mem_limit < 32 * w -> memoryGasCost m (32 * w) = Err ErrGasUintOverflow).
Proof.
  intros Hm Hw. split.
  - intros Hl. destruct (memoryGasCost_spec m w Hm Hw Hl) as (fee & m' & Hrun & Hst & Hfee & _ & Hok). exists fee, m'.
    split; [done|]. split; [done|]. split; [done|]. rewrite Resize_Len. unfold Len at 1. rewrite Hst. split; [done|].
    unfold mem_Resize, Len. rewrite Hst. destruct (_ <? _); simpl; rewrite ?Hst; [apply take_zlen_app|]. unfold zlen. by rewrite Nat2Z.id, firstn_all.
  - intros Hl. unfold memoryGasCost. unfold mem_limit in *. rewrite (proj2 (Z.eqb_neq _ _)) by lia.
    by rewrite Z.gtb_ltb, (proj2 (Z.ltb_lt _ _)) by lia.
Qed.

Lemma memoryGasCost_exact_witness :
  exists fee m', memoryGasCost (MkMemory (replicate 64 0) 6) (32 * 1000) = Ok (fee, m') /\
    fee = mem_fee 1000 - mem_fee 2 /\ mem_ok (mem_Resize m' (32 * 1000)).
Proof.
  destruct (memoryGasCost_exact (MkMemory (replicate 64 0) 6) 1000) as [H _].
  - exists 2. split_and!; vm_compute; done.
  - lia.
  - destruct H as (fee & m' & Hrun & Hfee & Hok & _); [vm_compute; done|]. exists fee, m'. split; [exact Hrun|]. split; [exact Hfee|exact Hok].
Defined.

(** ** Regions of memory *)

Section regions.
Context {U : Uint256}.

(** The region from [o] of length [l] lies in the memory, or is empty. *)
Definition fits (m : Memory) (o l : word) : Prop := ToBig l = 0 \/ ToBig o + ToBig l <= Len m.

Lemma Uint64_small w : ToBig w < 2 ^ 64 -> Uint64 w = ToBig w.
Proof. intros H. rewrite Uint64_value. pose proof (ToBig_range w). apply u64_small. lia. Qed.

Lemma calcMemSize64WithUint_spec off n sz :
  0 <= n < 2 ^ 64 -> calcMemSize64WithUint off n = (sz, false) -> n = 0 /\ sz = 0 \/ ToBig off + n = sz /\ sz < 2 ^ 64.
Proof.
  intros Hn. unfold calcMemSize64WithUint, Uint64WithOverflow. destruct (Z.eqb_spec n 0) as [->|]; [intros [= <-]; by left|].
  rewrite IsUint64_value. destruct (Z.ltb_spec (ToBig off) (2 ^ 64)); simpl; [|done]. rewrite Uint64_small by done.
  pose proof (ToBig_range off). intros E. injection E as <- Hlt. right. apply Z.ltb_ge in Hlt. unfold u64 in *.
  destruct (Z.lt_ge_cases (ToBig off + n) (2 ^ 64)); [rewrite Z.mod_small by lia; lia|].
  rewrite (Z.mod_eq _ (2 ^ 64)) in Hlt by lia. assert ((ToBig off + n) / 2 ^ 64 = 1) by (symmetry; apply (Z.div_unique _ _ 1 (ToBig off + n - 2 ^ 64)); lia).
  lia.
Qed.

Lemma calcMemSize64_fits off l sz m :
  calcMemSize64 off l = (sz, false) -> sz <= Len m -> fits m off l.
Proof.
  unfold calcMemSize64. rewrite IsUint64_value. destruct (Z.ltb_spec (ToBig l) (2 ^ 64)); simpl; [|done].
  pose proof (ToBig_range l). rewrite Uint64_small by done. intros Hc Hsz.
  apply calcMemSize64WithUint_spec in Hc as [[? _]|[? _]]; [left|right|]; lia.
Qed.

Lemma fits_range m o l : mem_ok m -> fits m o l -> ToBig l <> 0 -> ToBig o + ToBig l <= Len m /\ Len m < 2 ^ 38 /\ 0 <= ToBig o /\ 0 < ToBig l.
Proof.
  intros (w & _ & _ & Hl & _) [?|?] Hn; [done|]. unfold mem_limit in Hl. pose proof (ToBig_range o). pose proof (ToBig_range l). lia.
Qed.

Lemma int64_small x : x < 2 ^ 63 -> int64 x = x.
Proof. intros. unfold int64. by rewrite (proj2 (Z.ltb_lt _ _)) by lia. Qed.

Lemma fits_zero o l m : fits m o l -> ToBig l = 0 -> Uint64 l = 0.
Proof. intros _ E. by rewrite Uint64_small, E by lia. Qed.

Lemma slice_ok b i j : 0 <= i <= j -> j <= zlen b ->
  @slice Empty_set Z b i j = Ok (take (Z.to_nat (j - i)) (drop (Z.to_nat i) b)).
Proof. intros. by apply slice_Ok. Qed.

Lemma RightPadBytes_ok b l : l <= max_alloc -> RightPadBytes b l = Ok (b ++ replicate (Z.to_nat (l - zlen b)) 0).
Proof.
  intros Hl. unfold RightPadBytes. destruct (Z.leb_spec l (zlen b)); [|by rewrite (proj2 (Z.ltb_ge _ _))].
  replace (Z.to_nat (l - zlen b)) with 0%nat by lia. by rewrite app_nil_r.
Qed.
Lemma LeftPadBytes_ok b l : l <= max_alloc -> LeftPadBytes b l = Ok (replicate (Z.to_nat (l - zlen b)) 0 ++ b).
Proof.
  intros Hl. unfold LeftPadBytes. destruct (Z.leb_spec l (zlen b)); [|by rewrite (proj2 (Z.ltb_ge _ _))].
  by replace (Z.to_nat (l - zlen b)) with 0%nat by lia.
Qed.

(** The data at a position, with zeros after its end. *)
Lemma getData_spec data start size : is_slice data -> 0 <= start -> 0 <= size <= max_alloc ->
  getData data start size = Ok (take (Z.to_nat size) (drop (Z.to_nat start) data ++ replicate (Z.to_nat size) 0)).
Proof.
  intros Hd Hs Hz. unfold max_alloc in Hz. unfold is_slice in Hd. unfold getData. rewrite !Z.gtb_ltb. pose proof (zlen_nonneg data) as Hn.
  set (i := if zlen data <? start then zlen data else start).
  assert (Hi : 0 <= i <= zlen data) by (unfold i; destruct (Z.ltb_spec (zlen data) start); lia).
  assert (Ei : drop (Z.to_nat start) data = drop (Z.to_nat i) data).
  { unfold i. destruct (Z.ltb_spec (zlen data) start); [|done]. unfold zlen in *. rewrite !skipn_all2; [done|lia..]. }
  rewrite u64_small by lia. set (j := if zlen data <? i + size then zlen data else i + size).
  assert (Hj : i <= j <= zlen data) by (unfold j; destruct (Z.ltb_spec (zlen data) (i + size)); lia).
  rewrite slice_ok by lia. bind_simpl. rewrite int64_small, RightPadBytes_ok by (unfold max_alloc; lia). f_equal. rewrite Ei. set (d := drop (Z.to_nat i) data).
  assert (Hl : zlen d = zlen data - i) by (unfold d; apply zlen_drop; lia).
  assert (Et : take (Z.to_nat (j - i)) d = take (Z.to_nat size) d).
  { unfold j. destruct (Z.ltb_spec (zlen data) (i + size)); [|f_equal; lia]. unfold zlen in *. rewrite !firstn_all2; [done|lia..]. }
  rewrite Et, take_app. f_equal. rewrite take_replicate. unfold zlen. rewrite length_take. f_equal. lia.
Qed.

Lemma GetPtr_fits m o l :
  mem_ok m -> fits m o l ->
  exists b, GetPtr m (int64 (Uint64 o)) (int64 (Uint64 l)) = Ok b /\ zlen b = ToBig l.
Proof.
  intros Hm Hf. unfold GetPtr. destruct (Z.eq_dec (ToBig l) 0) as [E|E].
  { rewrite (fits_zero o l m Hf E). simpl. rewrite E. by exists []. }
  destruct (fits_range m o l Hm Hf E) as (H1 & H2 & H3 & H4). rewrite !Uint64_small, !int64_small by lia.
  rewrite (proj2 (Z.eqb_neq _ _) E), Z.gtb_ltb, (proj2 (Z.ltb_lt _ _)) by lia. rewrite slice_ok by (unfold Len in *; lia).
  eexists. split; [reflexivity|]. replace (ToBig o + ToBig l - ToBig o) with (ToBig l) by lia.
  unfold Len in *. rewrite zlen_take; [done|]. rewrite zlen_drop; lia.
Qed.

Lemma GetCopy_fits m o l :
  mem_ok m -> fits m o l ->
  exists b, GetCopy m (int64 (Uint64 o)) (int64 (Uint64 l)) = Ok b /\ zlen b = ToBig l.
Proof.
  intros Hm Hf. destruct (GetPtr_fits m o l Hm Hf) as (b & Hb & Hl). exists b. split; [|done]. unfold GetCopy, GetPtr in *.
  destruct (int64 (Uint64 l) =? 0); [done|]. destruct (Len m >? int64 (Uint64 o)); [|done].
  rewrite Hb. apply slice_Ok in Hb as (? & _). by rewrite (proj2 (Z.ltb_ge _ _)) by lia.
Qed.

(** A write keeps the length and the fee. *)
Definition written (m m' : Memory) : Prop := Len m' = Len m /\ lastGasCost m' = lastGasCost m.

Lemma written_ok m m' : mem_ok m -> written m m' -> mem_ok m'.
Proof. intros (w & ? & ? & ? & ?) (Hl & Hg). exists w. by rewrite Hl, Hg. Qed.

Lemma copy_at_spec (dst src : list Z) pos :
  0 <= pos -> pos + zlen src <= zlen dst ->
  exists st, @copy_at Empty_set Z dst pos src = Ok (st, zlen src) /\ zlen st = zlen dst /\
    st = take (Z.to_nat pos) dst ++ src ++ drop (Z.to_nat pos + length src) dst.
Proof.
  intros Hp Hl. unfold copy_at. rewrite (proj2 (Z.leb_le 0 pos)), (proj2 (Z.leb_le pos _)) by (pose proof (zlen_nonneg src); lia). simpl.
  rewrite Nat.min_r by (unfold zlen in *; lia). eexists. split; [reflexivity|]. rewrite firstn_all. split; [|done].
  rewrite !zlen_app. unfold zlen in *. rewrite length_take, length_drop. lia.
Qed.

Lemma mem_Set_fits m o l v :
  mem_ok m -> fits m o l -> exists m', mem_Set m (Uint64 o) (Uint64 l) v = Ok m' /\ written m m'.
Proof.
  intros Hm Hf. unfold mem_Set. destruct (Z.eq_dec (ToBig l) 0) as [E|E].
  { rewrite (fits_zero o l m Hf E). by exists m. }
  destruct (fits_range m o l Hm Hf E) as (H1 & H2 & H3 & H4). rewrite !Uint64_small by lia. rewrite u64_small by lia.
  rewrite Z.gtb_ltb, (proj2 (Z.ltb_lt _ _)), !Z.gtb_ltb, !(proj2 (Z.ltb_ge _ _)) by lia.
  set (src := take _ v). assert (Hs : zlen src <= ToBig l) by (unfold src, zlen; rewrite length_take; lia).
  destruct (copy_at_spec (mem_store m) src (ToBig o)) as (st & -> & Hlen & Hst); [lia|unfold Len in *; lia|]. bind_simpl.
  eexists. by split.
Qed.

Lemma Set32_fits m o v :
  mem_ok m -> ToBig o + 32 <= Len m -> exists m', Set32 m (Uint64 o) v = Ok m' /\ written m m'.
Proof.
  intros (w & _ & _ & Hlim & _) Hl. unfold mem_limit in Hlim. pose proof (ToBig_range o) as Ho. unfold Set32.
  rewrite Uint64_small, u64_small, !Z.gtb_ltb, !(proj2 (Z.ltb_ge _ _)) by lia.
  destruct (copy_at_spec (mem_store m) (replicate 32 0) (ToBig o)) as (st & -> & Hlen & Hst); [lia|rewrite zlen_replicate; unfold Len in *; lia|].
  bind_simpl. eexists. split; [reflexivity|]. destruct (Bytes32_ok v) as [H32 _].
  assert (Hd : zlen (drop (Z.to_nat (ToBig o)) st) = Len m - ToBig o) by (rewrite zlen_drop; unfold Len in *; lia).
  rewrite WriteToSlice_ok by lia. split; [|done].
  unfold Len at 1. simpl. rewrite !zlen_app, H32, zlen_take by (unfold Len in *; lia). unfold zlen in *. rewrite length_drop. lia.
Qed.
End regions.

(** ** Words as integers: an implementation of the interface *)

Module ZWords.

Definition word_bytes (n : nat) (x : Z) : list Z := (fun i => x / 256 ^ Z.of_nat i mod 256) <$> reverse (seq 0 n).

Lemma word_bytes_ok n x : zlen (word_bytes n x) = Z.of_nat n /\ bytes_ok (word_bytes n x).
Proof.
  unfold word_bytes, zlen. rewrite length_fmap, length_reverse, length_seq. split; [done|].
  apply Forall_fmap, Forall_true. intros i. unfold is_byte. simpl. apply Z.mod_pos_bound. lia.
Qed.

Definition val (x : Z) : Z := x mod 2 ^ 256.
Definition signed (x : Z) : Z := if val x <? 2 ^ 255 then val x else val x - 2 ^ 256.

Definition bitlen (x : Z) : Z := if val x =? 0 then 0 else Z.log2 (val x) + 1.

Lemma val_range x : 0 <= val x < 2 ^ 256.
Proof. apply Z.mod_pos_bound. lia. Qed.
Lemma val_small z : 0 <= z < 2 ^ 64 -> val z = z.
Proof. intros Hz. unfold val. apply Z.mod_small. lia. Qed.
Lemma val_add x y : val (x + y) = (val x + val y) mod 2 ^ 256.
Proof. unfold val. by rewrite <- Zplus_mod. Qed.
Lemma sgn_zero x : (Z.sgn (signed x) =? 0) = (val x =? 0).
Proof.
  pose proof (val_range x). unfold signed. destruct (Z.ltb_spec (val x) (2 ^ 255)).
  - destruct (Z.eqb_spec (val x) 0) as [->|]; [done|]. destruct (Z.eqb_spec (Z.sgn (val x)) 0); lia.
  - destruct (Z.eqb_spec (val x) 0); [lia|]. destruct (Z.eqb_spec (Z.sgn (val x - 2 ^ 256)) 0); lia.
Qed.
Lemma bitlen_range x : 0 <= bitlen x <= 256.
Proof.
  pose proof (val_range x) as Hr. unfold bitlen. destruct (Z.eqb_spec (val x) 0); [lia|].
  pose proof (Z.log2_nonneg (val x)). pose proof (Z.log2_lt_pow2 (val x) 256). lia.
Qed.

#[local] Instance words : Uint256 := {
  word := Z;
  ToBig := val;
  FromBig z := z;
  SetUint64 z := z;
  SetBytes b := be_val b;
  Bytes32 := word_bytes 32;
  Bytes20 := word_bytes 20;
  WriteToSlice w dest := word_bytes 32 w ++ drop 32 dest;
  Uint64 w := u64 (val w);
  IsUint64 w := val w <? 2 ^ 64;
  IsZero w := val w =? 0;
  Sign w := Z.sgn (signed w);
  BitLen := bitlen;
  w_Add x y := x + y;
  w_Sub x y := x - y;
  w_Mul x y := x * y;
  w_Div x y := val x / val y;
  w_SDiv x y := Z.quot (signed x) (signed y);
  w_Mod x y := if val y =? 0 then 0 else val x mod val y;
  w_SMod x y := if val y =? 0 then 0 else Z.rem (signed x) (signed y);
  w_Exp x y := val x ^ val y;
  ExtendSign x b := if val b <? 31 then let k := 8 * val b + 8 in if val x mod 2 ^ k <? 2 ^ (k - 1) then val x mod 2 ^ k else val x mod 2 ^ k - 2 ^ k else x;
  w_Not x := 2 ^ 256 - 1 - val x;
  w_Lt x y := val x <? val y;
  w_Gt x y := val y <? val x;
  w_Slt x y := signed x <? signed y;
  w_Sgt x y := signed y <? signed x;
  w_Eq x y := val x =? val y;
  w_And x y := Z.land (val x) (val y);
  w_Or x y := Z.lor (val x) (val y);
  w_Xor x y := Z.lxor (val x) (val y);
  w_Byte x n := if val n <? 32 then val x / 256 ^ (31 - val n) mod 256 else 0;
  AddMod x y m := if val m =? 0 then 0 else (val x + val y) mod val m;
  MulMod x y m := if val m =? 0 then 0 else (val x * val y) mod val m;
  Lsh x n := Z.shiftl (val x) n;
  Rsh x n := Z.shiftr (val x) n;
  SRsh x n := Z.shiftr (signed x) n;
  SetAllOne := 2 ^ 256 - 1;
  w_One := 1;
  w_Zero := 0;
  LtUint64 w n := val w <? n;
  GtUint64 w n := val w >? n;
  ToBig_range := val_range;
  FromBig_value z := eq_refl;
  SetUint64_value := val_small;
  Uint64_value w := eq_refl;
  IsUint64_value w := eq_refl;
  IsZero_value w := eq_refl;
  Sign_zero := sgn_zero;
  Add_value := val_add;
  BitLen_range := bitlen_range;
  Bytes32_ok := word_bytes_ok 32;
  Bytes20_ok := word_bytes_ok 20;
  WriteToSlice_ok w dest _ := eq_refl;
}.
End ZWords.
