(* ===== verification/VmCode.v ===== *)
(** * Analysis of contract code (src/core/vm/analysis.go, contract.go)

    The bitmap that marks the data bytes of a program, the caches of bitmaps
    that contracts share, and the test of jump destinations. *)
From stdpp Require Import prelude list gmap.
From Stdlib Require Import ZArith Lia.
From S2P Require Import Prelude VmBase.

(** ** The bitmap *)

Definition PUSH1 : Z := 96.
Definition PUSH32 : Z := 127.
Definition JUMPDEST : Z := 91.
Definition BEGINSUB : Z := 92.

(** [bitvec]: bytes, the bit of position 0 first. *)
Abbreviation bitvec := (list Z).

(** [bits[i] |= m] *)
Definition or_at (bits : bitvec) (i m : Z) : go bitvec :=
  b ← idx bits i; upd bits i (Z.lor b m).

Definition set (bits : bitvec) (pos : Z) : go bitvec := or_at bits (pos / 8) (Z.shiftr 128 (pos mod 8)).

Definition set8 (bits : bitvec) (pos : Z) : go bitvec :=
  bits ← or_at bits (pos / 8) (Z.shiftr 255 (pos mod 8));
  or_at bits (pos / 8 + 1) (255 - Z.shiftr 255 (pos mod 8)).

Definition codeSegment (bits : bitvec) (pos : Z) : go bool :=
  b ← idx bits (pos / 8); Ok (Z.land b (Z.shiftr 128 (pos mod 8)) =? 0).

(** The two loops over the data of a PUSH. *)
Fixpoint set_eights (fuel : nat) (bits : bitvec) (pc numbits : Z) : go (bitvec * Z * Z) :=
  match fuel with
  | O => Panic
  | S fuel =>
      if numbits >=? 8 then bits ← set8 bits pc; set_eights fuel bits (pc + 8) (numbits - 8)
      else Ok (bits, pc, numbits)
  end.

Fixpoint set_ones (fuel : nat) (bits : bitvec) (pc numbits : Z) : go (bitvec * Z) :=
  match fuel with
  | O => Panic
  | S fuel =>
      if numbits >? 0 then bits ← set bits pc; set_ones fuel bits (pc + 1) (numbits - 1)
      else Ok (bits, pc)
  end.

Fixpoint mark_data (fuel : nat) (code : list Z) (bits : bitvec) (pc : Z) : go bitvec :=
  match fuel with
  | O => Panic
  | S fuel =>
      if pc <? zlen code then
        op ← idx code pc;
        if (PUSH1 <=? op) && (op <=? PUSH32) then
          let numbits := op - PUSH1 + 1 in
          '(bits, pc, numbits) ← set_eights 5 bits (pc + 1) numbits;
          '(bits, pc) ← set_ones 9 bits pc numbits;
          mark_data fuel code bits pc
        else mark_data fuel code bits (pc + 1)
      else Ok bits
  end.

Definition codeBitmap (code : list Z) : go bitvec :=
  mark_data (S (length code)) code (replicate (Z.to_nat (zlen code / 8 + 1 + 4)) 0) 0.

(** ** What the bitmap means *)

(** The length of the data after an instruction. *)
Definition push_size (op : Z) : Z := if (PUSH1 <=? op) && (op <=? PUSH32) then op - PUSH1 + 1 else 0.

(** The positions at which an instruction starts. *)
Inductive opcode_at (code : list Z) : Z -> Prop :=
| opcode_first : opcode_at code 0
| opcode_next pc op :
    opcode_at code pc -> idx (E := Empty_set) code pc = Ok op -> opcode_at code (pc + 1 + push_size op).

(** The bit of a position. *)
Definition marked (bits : bitvec) (pos : Z) : bool :=
  Z.testbit (default 0 (bits !! Z.to_nat (pos / 8))) (7 - pos mod 8).

(** The masks, bit by bit. *)
Lemma mask_bits j k :
  0 <= j < 8 -> 0 <= k < 8 ->
  Z.testbit (Z.shiftr 128 k) (7 - j) = bool_decide (j = k) /\
  Z.testbit (Z.shiftr 255 k) (7 - j) = bool_decide (k <= j) /\
  Z.testbit (255 - Z.shiftr 255 k) (7 - j) = bool_decide (j < k).
Proof.
  intros Hj Hk. assert (Hall : forall n m : nat, (n < 8)%nat -> (m < 8)%nat -> forall j k, j = Z.of_nat n -> k = Z.of_nat m ->
    (eqb (Z.testbit (Z.shiftr 128 k) (7 - j)) (j =? k) && eqb (Z.testbit (Z.shiftr 255 k) (7 - j)) (k <=? j) &&
     eqb (Z.testbit (255 - Z.shiftr 255 k) (7 - j)) (j <? k)) = true).
  { intros n m Hn Hm ? ? -> ->. do 8 (destruct n as [|n]; [do 8 (destruct m as [|m]; [reflexivity|]); lia|]). lia. }
  specialize (Hall (Z.to_nat j) (Z.to_nat k) ltac:(lia) ltac:(lia) j k ltac:(lia) ltac:(lia)).
  apply andb_prop in Hall as [Hall H3]. apply andb_prop in Hall as [H1 H2].
  apply eqb_prop in H1, H2, H3. rewrite H1, H2, H3. split_and!; symmetry; repeat case_bool_decide; lia.
Qed.

Lemma or_at_spec bits i m :
  0 <= i < zlen bits ->
  exists bits', or_at bits i m = Ok bits' /\ length bits' = length bits /\
    forall pos, 0 <= pos -> marked bits' pos = marked bits pos || (bool_decide (pos / 8 = i) && Z.testbit m (7 - pos mod 8)).
Proof.
  intros Hi. unfold or_at. destruct (idx_in_range (E := Empty_set) bits i Hi) as [b Hb]. rewrite Hb. bind_simpl.
  apply idx_Ok in Hb as [_ Hb]. unfold upd. rewrite (proj2 (Z.leb_le 0 i)), (proj2 (Z.ltb_lt i _)) by lia. simpl.
  eexists. split; [reflexivity|]. split; [by rewrite length_insert|]. intros pos Hpos. unfold marked.
  pose proof (Z.div_pos pos 8 Hpos ltac:(lia)). case_bool_decide as E.
  - rewrite E, list_lookup_insert_eq, Hb by (unfold zlen in *; lia). simpl. by rewrite Z.lor_spec.
  - rewrite list_lookup_insert_ne by lia. by rewrite orb_false_r.
Qed.

(** The byte and the bit of a position. *)
Lemma byte_pos p : 0 <= p -> p = 8 * (p / 8) + p mod 8 /\ 0 <= p mod 8 < 8.
Proof. intros. split; [apply Z.div_mod; lia|apply Z.mod_pos_bound; lia]. Qed.

Lemma set_spec bits pos :
  0 <= pos -> pos / 8 < zlen bits ->
  exists bits', set bits pos = Ok bits' /\ length bits' = length bits /\
    forall q, 0 <= q -> marked bits' q = marked bits q || bool_decide (q = pos).
Proof.
  intros Hp Hl. pose proof (Z.div_pos pos 8 Hp ltac:(lia)). destruct (or_at_spec bits (pos / 8) (Z.shiftr 128 (pos mod 8))) as (bits' & Hs & Hn & Hm); [lia|].
  exists bits'. split; [done|]. split; [done|]. intros q Hq. rewrite Hm by done. f_equal.
  destruct (byte_pos pos Hp) as [Ep Bp], (byte_pos q Hq) as [Eq Bq].
  destruct (mask_bits (q mod 8) (pos mod 8)) as (-> & _ & _); [lia..|]. repeat case_bool_decide; simpl; try done; lia.
Qed.

Lemma set8_spec bits pos :
  0 <= pos -> pos / 8 + 1 < zlen bits ->
  exists bits', set8 bits pos = Ok bits' /\ length bits' = length bits /\
    forall q, 0 <= q -> marked bits' q = marked bits q || bool_decide (pos <= q < pos + 8).
Proof.
  intros Hp Hl. pose proof (Z.div_pos pos 8 Hp ltac:(lia)). unfold set8.
  destruct (or_at_spec bits (pos / 8) (Z.shiftr 255 (pos mod 8))) as (b1 & -> & Hn1 & Hm1); [lia|]. bind_simpl.
  destruct (or_at_spec b1 (pos / 8 + 1) (255 - Z.shiftr 255 (pos mod 8))) as (b2 & -> & Hn2 & Hm2); [unfold zlen in *; lia|].
  exists b2. split; [done|]. split; [congruence|]. intros q Hq. rewrite Hm2, Hm1 by done. rewrite <- orb_assoc. f_equal.
  destruct (byte_pos pos Hp) as [Ep Bp], (byte_pos q Hq) as [Eq Bq].
  destruct (mask_bits (q mod 8) (pos mod 8)) as (_ & -> & ->); [lia..|]. repeat case_bool_decide; simpl; try done; lia.
Qed.

Lemma codeSegment_spec bits pos :
  0 <= pos -> pos / 8 < zlen bits -> codeSegment bits pos = Ok (negb (marked bits pos)).
Proof.
  intros Hp Hl. pose proof (Z.div_pos pos 8 Hp ltac:(lia)). unfold codeSegment, marked.
  destruct (idx_in_range (E := Empty_set) bits (pos / 8)) as [b Hb]; [lia|]. rewrite Hb. bind_simpl. apply idx_Ok in Hb as [_ ->]. simpl.
  f_equal. destruct (byte_pos pos Hp) as [Ep Bp].
  destruct (Z.testbit b (7 - pos mod 8)) eqn:Hbit; simpl.
  - apply Z.eqb_neq. intros E. apply (f_equal (fun x => Z.testbit x (7 - pos mod 8))) in E.
    rewrite Z.land_spec, Hbit, Z.bits_0 in E. destruct (mask_bits (pos mod 8) (pos mod 8)) as (Hm & _); [lia..|].
    rewrite Hm, bool_decide_true in E; done.
  - apply Z.eqb_eq. apply Z.bits_inj'. intros i Hi. rewrite Z.land_spec, Z.bits_0.
    destruct (decide (i < 8)) as [Hi8|Hi8].
    + destruct (mask_bits (7 - i) (pos mod 8)) as (Hm & _); [lia..|]. replace (7 - (7 - i)) with i in Hm by lia. rewrite Hm.
      case_bool_decide as E; [|by rewrite andb_false_r]. replace i with (7 - pos mod 8) by lia. by rewrite Hbit.
    + rewrite Z.shiftr_spec by lia. change 128 with (2 ^ 7). rewrite Z.pow2_bits_false by lia. by rewrite andb_false_r.
Qed.

(** *** The loops *)

Lemma set_eights_spec fuel bits pc n :
  0 <= pc -> 0 <= n < 8 * Z.of_nat fuel -> (pc + n) / 8 < zlen bits ->
  exists bits', set_eights fuel bits pc n = Ok (bits', pc + 8 * (n / 8), n mod 8) /\ length bits' = length bits /\
    forall q, 0 <= q -> marked bits' q = marked bits q || bool_decide (pc <= q < pc + 8 * (n / 8)).
Proof.
  revert bits pc n. induction fuel as [|fuel IH]; intros bits pc n Hpc Hn Hl; [lia|]. simpl.
  destruct (Z.geb_spec n 8) as [H8|H8].
  - assert (Hd : n / 8 = (n - 8) / 8 + 1 /\ n mod 8 = (n - 8) mod 8).
    { replace n with (n - 8 + 1 * 8) at 1 3 by lia. by rewrite Z.div_add, Z.mod_add by lia. }
    assert (Hl8 : pc / 8 + 1 <= (pc + n) / 8) by (apply Z.div_le_lower_bound; [lia|]; pose proof (Z.mul_div_le pc 8); lia).
    destruct (set8_spec bits pc Hpc) as (b1 & -> & Hn1 & Hm1); [lia|]. bind_simpl.
    destruct (IH b1 (pc + 8) (n - 8)) as (b2 & -> & Hn2 & Hm2); [lia..|replace (pc + 8 + (n - 8)) with (pc + n) by lia; unfold zlen in *; lia|].
    destruct Hd as [-> ->]. exists b2. split; [do 3 f_equal; lia|]. split; [congruence|]. intros q Hq.
    rewrite Hm2, Hm1 by done. pose proof (Z.div_pos (n - 8) 8). rewrite <- orb_assoc. f_equal. repeat case_bool_decide; try done; lia.
  - rewrite Z.div_small, Z.mod_small by lia. exists bits. split; [do 3 f_equal; lia|]. split; [done|]. intros q Hq.
    rewrite bool_decide_false by lia. by rewrite orb_false_r.
Qed.

Lemma set_ones_spec fuel bits pc n :
  0 <= pc -> 0 <= n < Z.of_nat fuel -> (pc + n) / 8 < zlen bits ->
  exists bits', set_ones fuel bits pc n = Ok (bits', pc + n) /\ length bits' = length bits /\
    forall q, 0 <= q -> marked bits' q = marked bits q || bool_decide (pc <= q < pc + n).
Proof.
  revert bits pc n. induction fuel as [|fuel IH]; intros bits pc n Hpc Hn Hl; [lia|]. simpl.
  destruct (Z.gtb_spec n 0) as [H0|H0].
  - destruct (set_spec bits pc Hpc) as (b1 & -> & Hn1 & Hm1); [pose proof (Z.div_le_mono pc (pc + n) 8); lia|]. bind_simpl.
    destruct (IH b1 (pc + 1) (n - 1)) as (b2 & -> & Hn2 & Hm2); [lia..|replace (pc + 1 + (n - 1)) with (pc + n) by lia; unfold zlen in *; lia|].
    exists b2. split; [do 2 f_equal; lia|]. split; [congruence|]. intros q Hq.
    rewrite Hm2, Hm1 by done. rewrite <- orb_assoc. f_equal. repeat case_bool_decide; try done; lia.
  - exists bits. split; [do 2 f_equal; lia|]. split; [done|]. intros q Hq. rewrite bool_decide_false by lia. by rewrite orb_false_r.
Qed.

Lemma push_size_range op : 0 <= push_size op <= 32.
Proof. unfold push_size, PUSH1, PUSH32. destruct (Z.leb_spec 96 op), (Z.leb_spec op 127); simpl; lia. Qed.

Lemma opcode_at_nonneg code q : opcode_at code q -> 0 <= q.
Proof. induction 1 as [|pc op]; [lia|]. pose proof (push_size_range op). lia. Qed.

(** No instruction starts inside the data of another. *)
Lemma opcode_gap code p q op :
  opcode_at code p -> opcode_at code q -> p < q -> idx (E := Empty_set) code p = Ok op -> p + 1 + push_size op <= q.
Proof.
  intros Hp Hq. remember (Z.to_nat (p + q)) as n eqn:Hn. revert p q op Hp Hq Hn.
  induction n as [n IH] using lt_wf_ind. intros p q op Hp Hq Hn Hlt Hop.
  pose proof (opcode_at_nonneg _ _ Hp) as Hp0. destruct Hq as [|q op' Hq Hop']; [lia|].
  pose proof (opcode_at_nonneg _ _ Hq) as Hq0. pose proof (push_size_range op'). pose proof (push_size_range op).
  destruct (Z.lt_trichotomy p q) as [Hpq|[->|Hpq]].
  - pose proof (IH (Z.to_nat (p + q)) ltac:(lia) p q op Hp Hq eq_refl Hpq Hop). lia.
  - rewrite Hop in Hop'. injection Hop' as <-. lia.
  - pose proof (IH (Z.to_nat (q + p)) ltac:(lia) q p op' Hq Hp eq_refl Hpq Hop'). lia.
Qed.

(** The bitmap is right below [pc]. *)
Definition analysed (code : list Z) (bits : bitvec) (pc : Z) : Prop :=
  zlen bits = zlen code / 8 + 5 /\ opcode_at code pc /\
  forall q, 0 <= q -> if marked bits q then q < pc /\ ~ opcode_at code q else pc <= q \/ opcode_at code q.

(** One instruction further, its data marked. *)
Lemma analysed_next code bits bits' pc op :
  analysed code bits pc -> idx (E := Empty_set) code pc = Ok op -> length bits' = length bits ->
  (forall q, 0 <= q -> marked bits' q = marked bits q || bool_decide (pc + 1 <= q < pc + 1 + push_size op)) ->
  analysed code bits' (pc + 1 + push_size op).
Proof.
  intros (Hl & Hpc & Hm) Hop Hlen Hm'. pose proof (push_size_range op). split; [unfold zlen in *; lia|].
  split; [by econstructor|]. intros q Hq. rewrite Hm' by done. specialize (Hm q Hq).
  destruct (marked bits q); simpl; [split; [lia|apply Hm]|]. case_bool_decide as Hb.
  - split; [lia|]. intros Hat. pose proof (opcode_gap _ _ _ _ Hpc Hat ltac:(lia) Hop). lia.
  - destruct Hm as [Hm|]; [|by right]. destruct (decide (q = pc)) as [->|]; [by right|left; lia].
Qed.

Lemma mark_data_spec fuel code bits pc :
  analysed code bits pc -> 0 < Z.of_nat fuel -> zlen code - pc < Z.of_nat fuel ->
  exists bits' pc', mark_data fuel code bits pc = Ok bits' /\ analysed code bits' pc' /\ zlen code <= pc'.
Proof.
  revert bits pc. induction fuel as [|fuel IH]; intros bits pc Ha Hf0 Hf; [lia|cbn [mark_data]].
  pose proof Ha as (Hl & Hpc & Hm). pose proof (opcode_at_nonneg _ _ Hpc) as H0.
    destruct (Z.ltb_spec pc (zlen code)) as [Hlt|]; [|by exists bits, pc].
    destruct (idx_in_range (E := Empty_set) code pc ltac:(lia)) as [op Hop]. rewrite Hop. bind_simpl.
    assert (Hstep : forall b', length b' = length bits ->
      (forall q, 0 <= q -> marked b' q = marked bits q || bool_decide (pc + 1 <= q < pc + 1 + push_size op)) ->
      exists bits' pc', mark_data fuel code b' (pc + 1 + push_size op) = Ok bits' /\ analysed code bits' pc' /\ zlen code <= pc').
    { intros b' Hb Hb'. apply IH; [by eapply analysed_next|lia|]. pose proof (push_size_range op). lia. }
    pose proof (push_size_range op) as Hps. unfold push_size in *.
    destruct ((PUSH1 <=? op) && (op <=? PUSH32)) eqn:Hpush.
    + set (n := op - PUSH1 + 1) in *.
      assert (Hroom : (pc + 1 + n) / 8 < zlen bits).
      { rewrite Hl. apply Z.div_lt_upper_bound; [lia|]. pose proof (Z.div_mod (zlen code) 8). pose proof (Z.mod_pos_bound (zlen code) 8). lia. }
      destruct (set_eights_spec 5 bits (pc + 1) n) as (b1 & -> & Hn1 & Hm1); [lia..|]. bind_simpl.
      pose proof (Z.div_mod n 8). pose proof (Z.mod_pos_bound n 8). pose proof (Z.div_pos n 8).
      destruct (set_ones_spec 9 b1 (pc + 1 + 8 * (n / 8)) (n mod 8)) as (b2 & -> & Hn2 & Hm2);
        [lia..|replace (pc + 1 + 8 * (n / 8) + n mod 8) with (pc + 1 + n) by lia; unfold zlen in *; lia|]. bind_simpl.
      replace (pc + 1 + 8 * (n / 8) + n mod 8) with (pc + 1 + n) by lia. apply Hstep; [congruence|]. intros q Hq.
      rewrite Hm2, Hm1 by done. rewrite <- orb_assoc. f_equal. repeat case_bool_decide; try done; lia.
    + rewrite Z.add_0_r in Hstep. apply Hstep; [done|]. intros q Hq. rewrite bool_decide_false by lia. by rewrite orb_false_r.
Qed.

Lemma analysed_start code : analysed code (replicate (Z.to_nat (zlen code / 8 + 1 + 4)) 0) 0.
Proof.
  pose proof (Z.div_pos (zlen code) 8 (zlen_nonneg code)). split; [rewrite zlen_replicate; lia|]. split; [constructor|].
  intros q Hq. assert (Hz : marked (replicate (Z.to_nat (zlen code / 8 + 1 + 4)) 0) q = false).
  { unfold marked. destruct (replicate _ 0 !! _) as [b|] eqn:Hb; simpl; [|by rewrite Z.bits_0].
    apply lookup_replicate in Hb as [-> _]. by rewrite Z.bits_0. }
  rewrite Hz. by left.
Qed.

(** What a cached bitmap promises. *)
Definition analysis_of (code : list Z) (bits : bitvec) : Prop :=
  forall pos, 0 <= pos < zlen code -> exists b, codeSegment bits pos = Ok b /\ (b = true <-> opcode_at code pos).

Lemma codeBitmap_analysis code : exists bits, codeBitmap code = Ok bits /\ analysis_of code bits.
Proof.
  destruct (mark_data_spec (S (length code)) code _ 0 (analysed_start code)) as (bits & pc & Hrun & (Hl & _ & Hm) & Hpc); [lia|unfold zlen; lia|].
  exists bits. split; [done|]. intros pos Hpos. rewrite codeSegment_spec; [|lia|].
  - eexists. split; [done|]. specialize (Hm pos ltac:(lia)). destruct (marked bits pos); simpl.
    + split; [done|]. intros Hat. by destruct Hm.
    + split; [|done]. intros _. destruct Hm; [lia|done].
  - rewrite Hl. pose proof (Z.div_le_mono pos (zlen code) 8). lia.
Qed.

(** The bitmap of a program is right: the analysis ends without panic, and
    for every position of the code, [codeSegment] tells, in bounds, whether an
    instruction starts there, that is, whether the position is reached from the
    first byte by stepping over instructions with their data. *)
Theorem codeBitmap_correct code :
  exists bits, codeBitmap code = Ok bits /\
    forall pos, 0 <= pos < zlen code -> exists b, codeSegment bits pos = Ok b /\ (b = true <-> opcode_at code pos).
Proof. apply codeBitmap_analysis. Qed.

(** ** Contracts (contract.go) *)

Abbreviation jumpdests := (gmap (list Z) bitvec).

Record Contract := MkContract {
  CallerAddress : list Z;
  self : list Z;
  analysis : option bitvec;
  Code : list Z;
  con_CodeHash : list Z;
  Input : list Z;
  Gas : Z;
  value : Z;
}.

Definition with_analysis (c : Contract) (a : bitvec) : Contract :=
  MkContract (CallerAddress c) (self c) (Some a) (Code c) (con_CodeHash c) (Input c) (Gas c) (value c).
Definition with_gas (c : Contract) (g : Z) : Contract :=
  MkContract (CallerAddress c) (self c) (analysis c) (Code c) (con_CodeHash c) (Input c) g (value c).
Definition with_input (c : Contract) (i : list Z) : Contract :=
  MkContract (CallerAddress c) (self c) (analysis c) (Code c) (con_CodeHash c) i (Gas c) (value c).

Definition no_hash : list Z := replicate 32 0.

(** The caches of analyses: one in the contract, one shared with the contracts
    that call it, under the hash of the code. *)
Definition isCode (jd : jumpdests) (c : Contract) (udest : Z) : go (bool * jumpdests * Contract) :=
  match analysis c with
  | Some a => b ← codeSegment a udest; Ok (b, jd, c)
  | None =>
      if decide (con_CodeHash c = no_hash) then
        a ← codeBitmap (Code c);
        b ← codeSegment a udest;
        Ok (b, jd, with_analysis c a)
      else
        '(a, jd) ← match jd !! con_CodeHash c with
                   | Some a => Ok (a, jd)
                   | None => a ← codeBitmap (Code c); Ok (a, <[con_CodeHash c := a]> jd)
                   end;
        b ← codeSegment a udest;
        Ok (b, jd, with_analysis c a)
  end.

(** An analysis from a cache that is too short for the code: it was made for
    other code with the same hash. *)
Definition short_analysis (jd : jumpdests) (c : Contract) : bool :=
  match analysis c, jd !! con_CodeHash c with
  | Some a, _ => zlen a * 8 <? zlen (Code c)
  | None, Some a => negb (bool_decide (con_CodeHash c = no_hash)) && (zlen a * 8 <? zlen (Code c))
  | None, None => false
  end.

Definition validJumpdest `{Uint256} (jd : jumpdests) (c : Contract) (dest : word) : go (bool * jumpdests * Contract) :=
  let '(udest, overflow) := Uint64WithOverflow dest in
  if (overflow : bool) || (zlen (Code c) <=? udest) then Ok (false, jd, c)
  else
    op ← idx (Code c) udest;
    if negb (op =? JUMPDEST) then Ok (false, jd, c) else isCode jd c udest.

Definition validJumpSubdest (jd : jumpdests) (c : Contract) (udest : Z) : go (bool * jumpdests * Contract) :=
  if (int64 udest <? 0) || (zlen (Code c) <=? udest) then Ok (false, jd, c)
  else
    op ← idx (Code c) udest;
    if negb (op =? BEGINSUB) then Ok (false, jd, c) else isCode jd c udest.

Definition GetByte (c : Contract) (n : Z) : go Z := if n <? zlen (Code c) then idx (Code c) n else Ok 0.
Definition GetOp (c : Contract) (n : Z) : go Z := GetByte c n.

Definition UseGas (c : Contract) (gas : Z) : bool * Contract :=
  if Gas c <? gas then (false, c) else (true, with_gas c (Gas c - gas)).

(** ** Jump destinations *)

(** The shared cache holds analyses of the codes that hashes stand for. *)
Definition cache_ok (code_of : list Z -> list Z) (jd : jumpdests) : Prop :=
  forall h a, jd !! h = Some a -> analysis_of (code_of h) a.

Definition contract_ok (code_of : list Z -> list Z) (c : Contract) : Prop :=
  (con_CodeHash c <> no_hash -> code_of (con_CodeHash c) = Code c) /\
  (forall a, analysis c = Some a -> analysis_of (Code c) a).

(** Contracts that differ in the local cache at most. *)
Definition same_contract (c c' : Contract) : Prop :=
  CallerAddress c' = CallerAddress c /\ self c' = self c /\ Code c' = Code c /\ con_CodeHash c' = con_CodeHash c /\
  Input c' = Input c /\ Gas c' = Gas c /\ value c' = value c.

Lemma isCode_spec code_of jd c pos :
  cache_ok code_of jd -> contract_ok code_of c -> 0 <= pos < zlen (Code c) ->
  exists b jd' c', isCode jd c pos = Ok (b, jd', c') /\ (b = true <-> opcode_at (Code c) pos) /\
    cache_ok code_of jd' /\ contract_ok code_of c' /\ same_contract c c'.
Proof.
  intros Hjd (Hh & Ha) Hpos. unfold isCode.
  destruct (analysis c) as [a|] eqn:Hca.
  { destruct (Ha a eq_refl pos Hpos) as (b & -> & Hb). bind_simpl. eexists b, jd, c. split; [done|]. split; [done|]. split; [done|].
    split; [|done]. by rewrite <- Hca in Ha. }
  destruct (codeBitmap_analysis (Code c)) as (a & Hbm & Hcorr).
  assert (Hdone : forall a jd', analysis_of (Code c) a -> cache_ok code_of jd' ->
    exists b jd'' c', (b ← codeSegment a pos; Ok (b, jd', with_analysis c a) : go _) = Ok (b, jd'', c') /\
      (b = true <-> opcode_at (Code c) pos) /\ cache_ok code_of jd'' /\ contract_ok code_of c' /\ same_contract c c').
  { intros a' jd' Ha' Hjd'. destruct (Ha' pos Hpos) as (b & -> & Hb). bind_simpl. eexists b, jd', _. split; [done|]. split; [done|].
    split; [done|]. split; [|done]. split; [done|]. by intros ? [= <-]. }
  destruct (decide (con_CodeHash c = no_hash)) as [|Hne]; [rewrite Hbm; by apply Hdone|].
  destruct (jd !! con_CodeHash c) as [a'|] eqn:Hl; [|rewrite Hbm]; bind_simpl; apply Hdone.
  - rewrite <- (Hh Hne). by apply Hjd.
  - done.
  - done.
  - intros h x. destruct (decide (h = con_CodeHash c)) as [->|]; [rewrite lookup_insert_eq|rewrite lookup_insert_ne by done; apply Hjd].
    intros [= <-]. by rewrite Hh.
Qed.

(** Only a cached analysis that is too short makes a test panic. *)
Lemma codeSegment_total a pos : 0 <= pos < zlen a * 8 -> exists b, codeSegment a pos = Ok b.
Proof.
  intros Hp. unfold codeSegment. destruct (idx_in_range (E := Empty_set) a (pos / 8)) as [x ->]; [|by eexists].
  split; [apply Z.div_pos; lia|apply Z.div_lt_upper_bound; lia].
Qed.

Lemma isCode_total jd c pos : 0 <= pos < zlen (Code c) -> short_analysis jd c = false -> isCode jd c pos <> Panic.
Proof.
  intros Hp. destruct (codeBitmap_analysis (Code c)) as (a & Hbm & Hcorr). destruct (Hcorr pos Hp) as (b & Hb & _).
  unfold short_analysis, isCode. destruct (analysis c) as [a'|].
  { intros Hl%Z.ltb_ge. destruct (codeSegment_total a' pos) as [b' ->]; [lia|done]. }
  destruct (decide (con_CodeHash c = no_hash)); [intros _; rewrite Hbm; bind_simpl; by rewrite Hb|].
  rewrite bool_decide_false by done. destruct (jd !! con_CodeHash c) as [a'|]; simpl; [|intros _; rewrite Hbm; bind_simpl; by rewrite Hb].
  intros Hl%Z.ltb_ge. destruct (codeSegment_total a' pos) as [b' E]; [lia|]. bind_simpl. by rewrite E.
Qed.

Lemma validJumpdest_total `{Uint256} jd c dest : short_analysis jd c = false -> validJumpdest jd c dest <> Panic.
Proof.
  intros Hs. unfold validJumpdest, Uint64WithOverflow. assert (Hr : 0 <= Uint64 dest) by (rewrite Uint64_value; apply u64_range). destruct (negb (IsUint64 dest)); [done|]. simpl.
  destruct (Z.leb_spec (zlen (Code c)) (Uint64 dest)); [done|]. destruct (idx_in_range (E := Empty_set) (Code c) (Uint64 dest) ltac:(lia)) as [op ->]. bind_simpl.
  destruct (negb _); [done|]. by apply isCode_total.
Qed.

Lemma validJumpSubdest_total jd c udest : 0 <= udest -> short_analysis jd c = false -> validJumpSubdest jd c udest <> Panic.
Proof.
  intros Hu Hs. unfold validJumpSubdest. destruct (int64 udest <? 0); [done|]. simpl.
  destruct (Z.leb_spec (zlen (Code c)) udest); [done|]. destruct (idx_in_range (E := Empty_set) (Code c) udest ltac:(lia)) as [op ->]. bind_simpl.
  destruct (negb _); [done|]. by apply isCode_total.
Qed.

Lemma validJumpdest_spec `{Uint256} code_of jd c dest :
  cache_ok code_of jd -> contract_ok code_of c ->
  exists b jd' c', validJumpdest jd c dest = Ok (b, jd', c') /\
    (b = true <-> (Code c) !! Z.to_nat (ToBig dest) = Some JUMPDEST /\ ToBig dest < 2 ^ 64 /\ opcode_at (Code c) (ToBig dest)) /\
    cache_ok code_of jd' /\ contract_ok code_of c' /\ same_contract c c'.
Proof.
  intros Hjd Hc. pose proof (ToBig_range dest) as Hr. unfold validJumpdest, Uint64WithOverflow. rewrite IsUint64_value.
  destruct (Z.ltb_spec (ToBig dest) (2 ^ 64)) as [H64|H64]; cbn [negb orb].
  2: { eexists false, jd, c. split; [done|]. split; [split; [done|intros (_ & ? & _); lia]|done]. }
  rewrite Uint64_small by done. destruct (Z.leb_spec (zlen (Code c)) (ToBig dest)) as [Hlen|Hlen].
  { eexists false, jd, c. split; [done|]. split; [|done]. split; [done|]. intros (Hl & _). apply lookup_lt_Some in Hl. unfold zlen in *. lia. }
  destruct (idx_in_range (E := Empty_set) (Code c) (ToBig dest) ltac:(lia)) as [op Hop]. rewrite Hop. bind_simpl. apply idx_Ok in Hop as [_ Hop].
  destruct (Z.eqb_spec op JUMPDEST) as [->|Hne]; simpl.
  - destruct (isCode_spec code_of jd c (ToBig dest) Hjd Hc ltac:(lia)) as (b & jd' & c' & -> & Hb & ?). eexists b, jd', c'.
    split; [done|]. split; [|done]. rewrite Hb. naive_solver.
  - eexists false, jd, c. split; [done|]. split; [|done]. split; [done|]. intros (Hl & _). congruence.
Qed.

Lemma validJumpSubdest_spec code_of jd c udest :
  cache_ok code_of jd -> contract_ok code_of c -> 0 <= udest < 2 ^ 64 ->
  exists b jd' c', validJumpSubdest jd c udest = Ok (b, jd', c') /\ (b = true -> udest < zlen (Code c)) /\
    cache_ok code_of jd' /\ contract_ok code_of c' /\ same_contract c c'.
Proof.
  intros Hjd Hc Hu. unfold validJumpSubdest. destruct (_ || _) eqn:E; [by eexists false, jd, c|].
  apply orb_false_elim in E as [_ Hlen]. apply Z.leb_gt in Hlen.
  destruct (idx_in_range (E := Empty_set) (Code c) udest ltac:(lia)) as [op ->]. bind_simpl.
  destruct (op =? BEGINSUB); simpl; [|by eexists false, jd, c].
  destruct (isCode_spec code_of jd c udest Hjd Hc ltac:(lia)) as (b & jd' & c' & -> & Hb & ?). by eexists b, jd', c'.
Qed.

(** Jumps are checked against the code that runs: with caches that hold
    the analyses of the codes that their hashes stand for, [validJumpdest]
    accepts a destination exactly if it is a JUMPDEST instruction of the code,
    never panics, and leaves the caches right. *)
Theorem validJumpdest_correct `{Uint256} code_of jd c dest :
  cache_ok code_of jd -> contract_ok code_of c ->
  exists b jd' c', validJumpdest jd c dest = Ok (b, jd', c') /\
    (b = true <-> (Code c) !! Z.to_nat (ToBig dest) = Some JUMPDEST /\ ToBig dest < 2 ^ 64 /\ opcode_at (Code c) (ToBig dest)) /\
    cache_ok code_of jd' /\ contract_ok code_of c' /\ same_contract c c'.
Proof. apply validJumpdest_spec. Qed.

#[local] Existing Instance ZWords.words.

(** A code with a JUMPDEST byte in the data of a PUSH and one outside. *)
Lemma validJumpdest_correct_witness :
  exists jd c, validJumpdest ∅ (MkContract [] [] None [96; 91; 91; 0] (replicate 32 1) [] 0 0) (FromBig 2) = Ok (true, jd, c) /\
    cache_ok (fun _ => [96; 91; 91; 0]) jd.
Proof.
  destruct (validJumpdest_correct (fun _ => [96; 91; 91; 0]) ∅ (MkContract [] [] None [96; 91; 91; 0] (replicate 32 1) [] 0 0) (FromBig 2))
    as (b & jd & c & Hrun & Hb & Hjd & _).
  - by intros h a.
  - by split.
  - assert (Ht : b = true) by (apply Hb; split; [reflexivity|]; split; [vm_compute; reflexivity|];
      exact (opcode_next [96; 91; 91; 0] 0 96 (opcode_first _) eq_refl)).
    exists jd, c. rewrite <- Ht. split; [exact Hrun|exact Hjd].
Defined.
