(* ===== verification/Vm.v ===== *)
(** * The virtual machine (src/core/vm)

    Instructions, gas, the interpreter loop, and the calls between contracts.
    The state is the interface [vm.StateDB]; the native contracts and the
    256-bit integers are interfaces too.  A slice that a native contract returns
    can be the slice of the caller's memory that it was given, so results keep
    track of that. *)
From stdpp Require Import prelude list gmap.
From Stdlib Require Import ZArith Lia.
From S2P Require Import Prelude RlpEncode TrieEncoding Trie TrieNode TrieHash VmBase VmCode.

(** ** Interfaces *)

Abbreviation address_t := (list Z).

(** [vm.StateDB] (interface.go): reads fill caches, so they return the state. *)
Class VMState (S : Type) := {
  vs_CreateAccount : S -> address_t -> go S;
  vs_SubBalance : S -> address_t -> Z -> go S;
  vs_AddBalance : S -> address_t -> Z -> go S;
  vs_GetBalance : S -> address_t -> go (Z * S);
  vs_GetNonce : S -> address_t -> go (Z * S);
  vs_SetNonce : S -> address_t -> Z -> go S;
  vs_GetCodeHash : S -> address_t -> go (list Z * S);
  vs_GetCode : S -> address_t -> go (list Z * S);
  vs_SetCode : S -> address_t -> list Z -> go S;
  vs_GetCodeSize : S -> address_t -> go (Z * S);
  vs_AddRefund : S -> Z -> S;
  vs_SubRefund : S -> Z -> go S;
  vs_GetRefund : S -> Z;
  vs_GetCommittedState : S -> address_t -> list Z -> go (list Z * S);
  vs_GetState : S -> address_t -> list Z -> go (list Z * S);
  vs_SetState : S -> address_t -> list Z -> list Z -> go S;
  vs_Suicide : S -> address_t -> go (bool * S);
  vs_HasSuicided : S -> address_t -> go (bool * S);
  vs_Exist : S -> address_t -> go (bool * S);
  vs_Empty : S -> address_t -> go (bool * S);
  vs_RevertToSnapshot : S -> Z -> go S;
  vs_Snapshot : S -> Z * S;
  vs_AddLog : S -> LogBody -> S;
  vs_AddPreimage : S -> list Z -> list Z -> S;
}.

(** [PrecompiledContract] (contracts.go).  The result is new, or the input
    slice itself. *)
Inductive output := Fresh (b : list Z) | SameInput.
Record PrecompiledContract := MkPrecompile { RequiredGas : list Z -> go Z; pre_Run : list Z -> vm output }.

Definition IdentityBaseGas : Z := 15.
Definition IdentityPerWordGas : Z := 3.

(** [dataCopy] *)
Definition dataCopy : PrecompiledContract :=
  MkPrecompile (fun input => Ok (u64 (u64 (zlen input + 31) / 32 * IdentityPerWordGas + IdentityBaseGas))) (fun _ => Ok SameInput).

(** The native contracts that call the cryptographic packages. *)
Record Natives := MkNatives {
  ecrecover : PrecompiledContract;
  sha256hash : PrecompiledContract;
  ripemd160hash : PrecompiledContract;
  bigModExp : PrecompiledContract;
  bn256AddIstanbul : PrecompiledContract;
  bn256AddByzantium : PrecompiledContract;
  bn256ScalarMulIstanbul : PrecompiledContract;
  bn256ScalarMulByzantium : PrecompiledContract;
  bn256PairingIstanbul : PrecompiledContract;
  bn256PairingByzantium : PrecompiledContract;
  blake2F : PrecompiledContract;
  nat_G1Add : PrecompiledContract;
  nat_G1Mul : PrecompiledContract;
  nat_G1MultiExp : PrecompiledContract;
  nat_G2Add : PrecompiledContract;
  nat_G2Mul : PrecompiledContract;
  nat_G2MultiExp : PrecompiledContract;
  nat_Pairing : PrecompiledContract;
  nat_MapG1 : PrecompiledContract;
  nat_MapG2 : PrecompiledContract;
}.

(** ** Configuration *)

(** [ctypes.ChainConfigurator]: the blocks at which features start. *)
Record ChainConfig := MkConfig {
  GetEIP2Transition : option Z;
  GetEIP7Transition : option Z;
  GetEIP140Transition : option Z;
  GetEIP145Transition : option Z;
  GetEIP150Transition : option Z;
  GetEIP152Transition : option Z;
  GetEIP160Transition : option Z;
  GetEIP161abcTransition : option Z;
  GetEIP170Transition : option Z;
  GetEIP198Transition : option Z;
  GetEIP211Transition : option Z;
  GetEIP212Transition : option Z;
  GetEIP213Transition : option Z;
  GetEIP214Transition : option Z;
  GetEIP1014Transition : option Z;
  GetEIP1052Transition : option Z;
  GetEIP1108Transition : option Z;
  GetEIP1283Transition : option Z;
  GetEIP1283DisableTransition : option Z;
  GetEIP1344Transition : option Z;
  GetEIP1706Transition : option Z;
  GetEIP1884Transition : option Z;
  GetEIP2028Transition : option Z;
  GetEIP2200Transition : option Z;
  GetEIP2200DisableTransition : option Z;
  GetEIP2537Transition : option Z;
  GetECIP1080Transition : option Z;
  GetChainID : Z;
}.

Definition IsEnabled (fn : option Z) (n : Z) : bool :=
  match fn with None => false | Some f => int64 f <=? n end.

(** [Context] and the parts of [EVM] and [Config] that do not change. *)
Record Env := MkEnv {
  config : ChainConfig;
  natives : Natives;
  GetHash : Z -> list Z;
  Origin : address_t;
  GasPrice : Z;
  Coinbase : address_t;
  GasLimit : Z;
  BlockNumber : Z;
  Time : Z;
  Difficulty : Z;
  NoRecursion : bool;
  EnablePreimageRecording : bool;
}.

Definition enabled (env : Env) (feature : ChainConfig -> option Z) : bool := IsEnabled (feature (config env)) (BlockNumber env).

(** [common.BytesToAddress] *)
Definition BytesToAddress (b : list Z) : address_t :=
  let b := if zlen b >? 20 then drop (Z.to_nat (zlen b - 20)) b else b in
  replicate (Z.to_nat (20 - zlen b)) 0 ++ b.

(** [PrecompiledContractsForConfig] *)
Definition PrecompiledContractsForConfig (env : Env) : gmap address_t PrecompiledContract :=
  let at_ n := BytesToAddress [n] in
  let n := natives env in
  let m := <[at_ 1 := ecrecover n]> (<[at_ 2 := sha256hash n]> (<[at_ 3 := ripemd160hash n]> (<[at_ 4 := dataCopy]> ∅))) in
  let m := if enabled env GetEIP198Transition then <[at_ 5 := bigModExp n]> m else m in
  let m :=
    if enabled env GetEIP213Transition then
      if enabled env GetEIP1108Transition then <[at_ 7 := bn256ScalarMulIstanbul n]> (<[at_ 6 := bn256AddIstanbul n]> m)
      else <[at_ 7 := bn256ScalarMulByzantium n]> (<[at_ 6 := bn256AddByzantium n]> m)
    else m in
  let m :=
    if enabled env GetEIP212Transition then
      if enabled env GetEIP1108Transition then <[at_ 8 := bn256PairingIstanbul n]> m else <[at_ 8 := bn256PairingByzantium n]> m
    else m in
  let m := if enabled env GetEIP152Transition then <[at_ 9 := blake2F n]> m else m in
  if enabled env GetEIP2537Transition then
    let m := <[at_ 12 := nat_G1MultiExp n]> (<[at_ 11 := nat_G1Mul n]> (<[at_ 10 := nat_G1Add n]> m)) in
    let m := <[at_ 15 := nat_G2MultiExp n]> (<[at_ 14 := nat_G2Mul n]> (<[at_ 13 := nat_G2Add n]> m)) in
    <[at_ 18 := nat_MapG2 n]> (<[at_ 17 := nat_MapG1 n]> (<[at_ 16 := nat_Pairing n]> m))
  else m.

(** [RunPrecompiledContract] *)
Definition RunPrecompiledContract (p : PrecompiledContract) (input : list Z) (suppliedGas : Z) : go (output * Z * option vm_error) :=
  gasCost ← RequiredGas p input;
  if suppliedGas <? gasCost then Ok (Fresh [], 0, Some ErrOutOfGas)
  else
    match pre_Run p input with
    | Ok out => Ok (out, suppliedGas - gasCost, None)
    | Err e => Ok (Fresh [], suppliedGas - gasCost, Some e)
    | Panic => Panic
    end.

(** ** Gas constants (params/vars/protocol_params.go, gas.go) *)

Definition GasQuickStep : Z := 2.
Definition GasFastestStep : Z := 3.
Definition GasFastStep : Z := 5.
Definition GasMidStep : Z := 8.
Definition GasSlowStep : Z := 10.
Definition GasExtStep : Z := 20.
Definition StackLimit : Z := 1024.
Definition CallCreateDepth : Z := 1024.
Definition MaxCodeSize : Z := 24576.
Definition CreateDataGas : Z := 200.
Definition CallStipend : Z := 2300.
Definition CallValueTransferGas : Z := 9000.
Definition CallNewAccountGas : Z := 25000.
Definition CreateBySelfdestructGas : Z := 25000.
Definition SelfdestructGasEIP150 : Z := 5000.
Definition SelfdestructRefundGas : Z := 24000.
Definition CopyGas : Z := 3.
Definition LogGas : Z := 375.
Definition LogTopicGas : Z := 375.
Definition LogDataGas : Z := 8.
Definition Sha3Gas : Z := 30.
Definition Sha3WordGas : Z := 6.
Definition ExpGas : Z := 10.
Definition ExpByteFrontier : Z := 10.
Definition ExpByteEIP158 : Z := 50.
Definition CreateGas : Z := 32000.
Definition Create2Gas : Z := 32000.
Definition JumpdestGas : Z := 1.
Definition SstoreSetGas : Z := 20000.
Definition SstoreResetGas : Z := 5000.
Definition SstoreClearGas : Z := 5000.
Definition SstoreRefundGas : Z := 15000.
Definition NetSstoreNoopGas : Z := 200.
Definition NetSstoreInitGas : Z := 20000.
Definition NetSstoreCleanGas : Z := 5000.
Definition NetSstoreDirtyGas : Z := 200.
Definition NetSstoreClearRefund : Z := 15000.
Definition NetSstoreResetRefund : Z := 4800.
Definition NetSstoreResetClearRefund : Z := 19800.
Definition SstoreSentryGasEIP2200 : Z := 2300.
Definition SstoreSetGasEIP2200 : Z := 20000.
Definition SstoreResetGasEIP2200 : Z := 5000.
Definition SstoreClearsScheduleRefundEIP2200 : Z := 15000.
Definition SloadGasFrontier : Z := 50.
Definition SloadGasEIP150 : Z := 200.
Definition SloadGasEIP1884 : Z := 800.
Definition SloadGasEIP2200 : Z := 800.
Definition BalanceGasFrontier : Z := 20.
Definition BalanceGasEIP150 : Z := 400.
Definition BalanceGasEIP1884 : Z := 700.
Definition ExtcodeSizeGasFrontier : Z := 20.
Definition ExtcodeSizeGasEIP150 : Z := 700.
Definition ExtcodeCopyBaseFrontier : Z := 20.
Definition ExtcodeCopyBaseEIP150 : Z := 700.
Definition ExtcodeHashGasConstantinople : Z := 400.
Definition ExtcodeHashGasEIP1884 : Z := 700.
Definition CallGasFrontier : Z := 40.
Definition CallGasEIP150 : Z := 700.

(** ** Running *)

(** Why a run has no result: the fuel of the model is used up, the code
    indexes past the end of a cached analysis, or the refund counter would go
    below zero.  Every other panic is [Panic]. *)
Inductive vm_stop := Exhausted | CachedAnalysis | RefundBelowZero.
Abbreviation run A := (outcome vm_stop A).

Definition panic_as {A} (stop : vm_stop) (m : go A) : run A :=
  match m with Ok a => Ok a | Err e => match e : Empty_set with end | Panic => Err stop end.
Definition run_go {A} (m : go A) : run A :=
  match m with Ok a => Ok a | Err e => match e : Empty_set with end | Panic => Panic end.

(** Computations on a state. *)
Definition ST (σ A : Type) : Type := σ -> run (σ * A).
#[global] Instance ST_ret {σ} : MRet (ST σ) := fun A a s => Ok (s, a).
#[global] Instance ST_bind {σ} : MBind (ST σ) := fun A B f m s => match m s with Ok (s, a) => f a s | Err e => Err e | Panic => Panic end.

Section machine.
Context {U : Uint256} {K : Keccak} {S : Type} {VS : VMState S}.

(** The parts of [EVM] and [EVMInterpreter] that change, with the cache of
    analyses that the contracts of a call share.  [aborts] is what the loads of
    the abort flag return. *)
Record evm := MkEvm {
  state : S;
  depth : Z;
  jd : jumpdests;
  readOnly : bool;
  returnData : list Z;
  CallGasTemp : Z;
  aborts : list bool;
}.

Definition with_state (e : evm) (s : S) : evm := MkEvm s (depth e) (jd e) (readOnly e) (returnData e) (CallGasTemp e) (aborts e).
Definition with_depth (e : evm) (d : Z) : evm := MkEvm (state e) d (jd e) (readOnly e) (returnData e) (CallGasTemp e) (aborts e).
Definition with_jd (e : evm) (j : jumpdests) : evm := MkEvm (state e) (depth e) j (readOnly e) (returnData e) (CallGasTemp e) (aborts e).
Definition with_readOnly (e : evm) (b : bool) : evm := MkEvm (state e) (depth e) (jd e) b (returnData e) (CallGasTemp e) (aborts e).
Definition with_returnData (e : evm) (d : list Z) : evm := MkEvm (state e) (depth e) (jd e) (readOnly e) d (CallGasTemp e) (aborts e).
Definition with_CallGasTemp (e : evm) (g : Z) : evm := MkEvm (state e) (depth e) (jd e) (readOnly e) (returnData e) g (aborts e).
Definition with_aborts (e : evm) (l : list bool) : evm := MkEvm (state e) (depth e) (jd e) (readOnly e) (returnData e) (CallGasTemp e) l.

(** [callCtx] with the locals of [Run]. *)
Record frame := MkFrame {
  pc : Z;
  mem : Memory;
  stack : list word;
  rstack : list Z;
  contract : Contract;
  steps : Z;
}.

Definition with_pc (f : frame) (p : Z) : frame := MkFrame p (mem f) (stack f) (rstack f) (contract f) (steps f).
Definition with_mem (f : frame) (m : Memory) : frame := MkFrame (pc f) m (stack f) (rstack f) (contract f) (steps f).
Definition with_stack (f : frame) (s : list word) : frame := MkFrame (pc f) (mem f) s (rstack f) (contract f) (steps f).
Definition with_rstack (f : frame) (r : list Z) : frame := MkFrame (pc f) (mem f) (stack f) r (contract f) (steps f).
Definition with_contract (f : frame) (c : Contract) : frame := MkFrame (pc f) (mem f) (stack f) (rstack f) c (steps f).
Definition with_steps (f : frame) (n : Z) : frame := MkFrame (pc f) (mem f) (stack f) (rstack f) (contract f) n.

(** Instructions and gas functions: they can return an error, which keeps the
    state. *)
Definition X (A : Type) : Type := ST (frame * evm) (vm_error + A).
#[global] Instance X_ret : MRet X := fun A a s => Ok (s, inr a).
#[global] Instance X_bind : MBind X := fun A B f m s =>
  match m s with Ok (s, inr a) => f a s | Ok (s, inl e) => Ok (s, inl e) | Err e => Err e | Panic => Panic end.

Definition throw {A} (e : vm_error) : X A := fun s => Ok (s, inl e).
Definition get_frame : X frame := fun s => Ok (s, inr s.1).
Definition get_evm : X evm := fun s => Ok (s, inr s.2).
Definition put_frame (f : frame) : X unit := fun s => Ok ((f, s.2), inr ()).
Definition put_evm (e : evm) : X unit := fun s => Ok ((s.1, e), inr ()).
Definition lift_go {A} (m : go A) : X A := fun s => match run_go m with Ok a => Ok (s, inr a) | Err e => Err e | Panic => Panic end.
Definition lift_vm {A} (m : vm A) : X A := fun s => match m with Ok a => Ok (s, inr a) | Err e => Ok (s, inl e) | Panic => Panic end.

(** Operations of the stack, the memory and the state. *)
Definition x_pop : X word := f ← get_frame; '(x, st) ← lift_go (pop (stack f)); _ ← put_frame (with_stack f st); mret x.
Definition x_peek : X word := f ← get_frame; lift_go (Back (stack f) 0).
Definition x_back (n : nat) : X word := f ← get_frame; lift_go (Back (stack f) n).
Definition x_push (x : word) : X unit := f ← get_frame; put_frame (with_stack f (push (stack f) x)).
(** A write to the word that [peek] points to. *)
Definition x_set (x : word) : X unit := f ← get_frame; '(_, st) ← lift_go (pop (stack f)); put_frame (with_stack f (push st x)).
Definition x_mem (g : Memory -> go Memory) : X unit := f ← get_frame; m ← lift_go (g (mem f)); put_frame (with_mem f m).
Definition x_read (g : Memory -> go (list Z)) : X (list Z) := f ← get_frame; lift_go (g (mem f)).
Definition on_db {A} (g : S -> go (A * S)) : X A := e ← get_evm; '(a, s) ← lift_go (g (state e)); _ ← put_evm (with_state e s); mret a.
Definition do_db (g : S -> go S) : X unit := e ← get_evm; s ← lift_go (g (state e)); put_evm (with_state e s).
Definition self_address : X address_t := f ← get_frame; mret (self (contract f)).

(** ** Gas (gas.go, gas_table.go) *)

Section gas.
Context (env : Env).

Definition createGasEip150 (isEip150 : bool) (availableGas : Z) : Z :=
  if isEip150 then availableGas - availableGas / 64 else availableGas.

Definition callGas (isEip150 : bool) (availableGas base : Z) (callCost : word) : vm Z :=
  let whole := if IsUint64 callCost then Ok (Uint64 callCost) else Err ErrGasUintOverflow in
  if isEip150 then
    let availableGas := u64 (availableGas - base) in
    let gas := availableGas - availableGas / 64 in
    if negb (IsUint64 callCost) || (gas <? Uint64 callCost) then Ok gas else whole
  else whole.

Definition x_memoryGasCost (memorySize : Z) : X Z :=
  f ← get_frame;
  '(fee, m) ← lift_vm (memoryGasCost (mem f) memorySize);
  _ ← put_frame (with_mem f m);
  mret fee.

(** [stack.Back(n).Uint64WithOverflow()], an overflow being an error *)
Definition x_back64 (n : nat) : X Z := w ← x_back n; lift_vm (checked (Uint64WithOverflow w)).
Definition add_gas (x y : Z) : X Z := lift_vm (checked (SafeAdd x y)).

Definition memoryCopierGas (stackpos : nat) (memorySize : Z) : X Z :=
  gas ← x_memoryGasCost memorySize;
  words ← x_back64 stackpos;
  words ← lift_vm (checked (SafeMul (toWordSize words) CopyGas));
  add_gas gas words.

Definition db_AddRefund (g : Z) : X unit := do_db (fun s => Ok (vs_AddRefund s g)).
Definition db_SubRefund (g : Z) : X unit :=
  fun s => match panic_as RefundBelowZero (vs_SubRefund (state s.2) g) with
           | Ok s' => Ok ((s.1, with_state s.2 s'), inr ())
           | Err e => Err e
           | Panic => Panic
           end.

Definition hash_eq (a b : list Z) : bool := bool_decide (a = b).

(** The part that the two net metering rules share: a slot of which the
    current value is not the new one. *)
Definition net_metering (init clean dirty clear reset_clear reset : Z) (original current value : list Z) : X Z :=
  if hash_eq original current then
    if hash_eq original no_hash then mret init
    else
      _ ← (if hash_eq value no_hash then db_AddRefund clear else mret ());
      mret clean
  else
    _ ← (if hash_eq original no_hash then mret ()
         else if hash_eq current no_hash then db_SubRefund clear
         else if hash_eq value no_hash then db_AddRefund clear
         else mret ());
    _ ← (if hash_eq original value then
           if hash_eq original no_hash then db_AddRefund reset_clear else db_AddRefund reset
         else mret ());
    mret dirty.

Definition gasSStore (memorySize : Z) : X Z :=
  y ← x_back 1;
  x ← x_back 0;
  self ← self_address;
  current ← on_db (fun s => vs_GetState s self (Bytes32 x));
  if negb (enabled env GetEIP1283Transition) || enabled env GetEIP1283DisableTransition then
    if hash_eq current no_hash && negb (Sign y =? 0) then mret SstoreSetGas
    else if negb (hash_eq current no_hash) && (Sign y =? 0) then _ ← db_AddRefund SstoreRefundGas; mret SstoreClearGas
    else mret SstoreResetGas
  else
    f ← get_frame;
    if (Gas (contract f) <=? CallStipend) && enabled env GetEIP1706Transition then throw ErrOutOfGas
    else
      let value := Bytes32 y in
      if hash_eq current value then mret NetSstoreNoopGas
      else
        original ← on_db (fun s => vs_GetCommittedState s self (Bytes32 x));
        net_metering NetSstoreInitGas NetSstoreCleanGas NetSstoreDirtyGas NetSstoreClearRefund NetSstoreResetClearRefund
          NetSstoreResetRefund original current value.

Definition gasSStoreEIP2200 (memorySize : Z) : X Z :=
  f ← get_frame;
  if Gas (contract f) <=? SstoreSentryGasEIP2200 then throw ErrSentry
  else
    y ← x_back 1;
    x ← x_back 0;
    self ← self_address;
    current ← on_db (fun s => vs_GetState s self (Bytes32 x));
    let value := Bytes32 y in
    if hash_eq current value then mret SloadGasEIP2200
    else
      original ← on_db (fun s => vs_GetCommittedState s self (Bytes32 x));
      net_metering SstoreSetGasEIP2200 SstoreResetGasEIP2200 SloadGasEIP2200 SstoreClearsScheduleRefundEIP2200
        (SstoreSetGasEIP2200 - SloadGasEIP2200) (SstoreResetGasEIP2200 - SloadGasEIP2200) original current value.

Definition makeGasLog (n : Z) (memorySize : Z) : X Z :=
  requestedSize ← x_back64 1;
  gas ← x_memoryGasCost memorySize;
  gas ← add_gas gas LogGas;
  gas ← add_gas gas (n * LogTopicGas);
  memorySizeGas ← lift_vm (checked (SafeMul requestedSize LogDataGas));
  add_gas gas memorySizeGas.

(** The charge for hashing the words of an operand. *)
Definition hash_words (n : nat) (gas : Z) : X Z :=
  wordGas ← x_back64 n;
  wordGas ← lift_vm (checked (SafeMul (toWordSize wordGas) Sha3WordGas));
  add_gas gas wordGas.

Definition gasSha3 (memorySize : Z) : X Z :=
  gas ← x_memoryGasCost memorySize;
  hash_words 1 gas.

Definition pureMemoryGascost (memorySize : Z) : X Z := x_memoryGasCost memorySize.

(** The gas that a creation gets, on top of [gas]. *)
Definition reserve_create (gas : Z) : X Z :=
  f ← get_frame;
  remaining ← lift_vm (checked (SafeSub (Gas (contract f)) gas));
  e ← get_evm;
  let temp := createGasEip150 (enabled env GetEIP150Transition) remaining in
  _ ← put_evm (with_CallGasTemp e temp);
  add_gas gas temp.

Definition gasCreate (memorySize : Z) : X Z :=
  gas ← x_memoryGasCost memorySize;
  reserve_create gas.

Definition gasCreate2 (memorySize : Z) : X Z :=
  gas ← x_memoryGasCost memorySize;
  gas ← hash_words 2 gas;
  reserve_create gas.

Definition gasExp (perByte : Z) (memorySize : Z) : X Z :=
  exponent ← x_back 1;
  let expByteLen := (BitLen exponent + 7) / 8 in
  add_gas (u64 (expByteLen * perByte)) ExpGas.
Definition gasExpFrontier := gasExp ExpByteFrontier.
Definition gasExpEIP158 := gasExp ExpByteEIP158.

(** The gas that a call gets, on top of [gas]. *)
Definition reserve_call (gas : Z) : X Z :=
  f ← get_frame;
  requested ← x_back 0;
  temp ← lift_vm (callGas (enabled env GetEIP150Transition) (Gas (contract f)) gas requested);
  e ← get_evm;
  _ ← put_evm (with_CallGasTemp e temp);
  add_gas gas temp.

Definition gasCall (memorySize : Z) : X Z :=
  value ← x_back 2;
  let transfersValue := negb (IsZero value) in
  addr ← x_back 1;
  let address := Bytes20 addr in
  gas ← (if enabled env GetEIP161abcTransition then
           if transfersValue then
             empty ← on_db (fun s => vs_Empty s address);
             mret (if (empty : bool) then CallNewAccountGas else 0)
           else mret 0
         else
           exist ← on_db (fun s => vs_Exist s address);
           mret (if (exist : bool) then 0 else CallNewAccountGas));
  let gas := gas + (if transfersValue then CallValueTransferGas else 0) in
  memoryGas ← x_memoryGasCost memorySize;
  gas ← add_gas gas memoryGas;
  reserve_call gas.

Definition gasCallCode (memorySize : Z) : X Z :=
  memoryGas ← x_memoryGasCost memorySize;
  value ← x_back 2;
  let gas := if Sign value =? 0 then 0 else CallValueTransferGas in
  gas ← add_gas gas memoryGas;
  reserve_call gas.

Definition gasDelegateCall (memorySize : Z) : X Z := gas ← x_memoryGasCost memorySize; reserve_call gas.
Definition gasStaticCall (memorySize : Z) : X Z := gas ← x_memoryGasCost memorySize; reserve_call gas.

Definition gasSelfdestruct (memorySize : Z) : X Z :=
  self ← self_address;
  gas ← (if enabled env GetEIP150Transition then
           beneficiary ← x_back 0;
           let address := Bytes20 beneficiary in
           if enabled env GetEIP161abcTransition then
             empty ← on_db (fun s => vs_Empty s address);
             if (empty : bool) then
               balance ← on_db (fun s => vs_GetBalance s self);
               mret (SelfdestructGasEIP150 + (if balance =? 0 then 0 else CreateBySelfdestructGas))
             else mret SelfdestructGasEIP150
           else
             exist ← on_db (fun s => vs_Exist s address);
             mret (SelfdestructGasEIP150 + (if (exist : bool) then 0 else CreateBySelfdestructGas))
         else mret 0);
  suicided ← on_db (fun s => vs_HasSuicided s self);
  _ ← (if (suicided : bool) then mret () else db_AddRefund SelfdestructRefundGas);
  mret gas.
End gas.

(** ** Instructions (instructions.go, eips.go) *)

(** The calls that instructions make; the caller is the running contract. *)
Record Calls := MkCalls {
  c_Call : Contract -> address_t -> list Z -> Z -> Z -> ST evm (output * Z * option vm_error);
  c_CallCode : Contract -> address_t -> list Z -> Z -> Z -> ST evm (output * Z * option vm_error);
  c_DelegateCall : Contract -> address_t -> list Z -> Z -> ST evm (output * Z * option vm_error);
  c_StaticCall : Contract -> address_t -> list Z -> Z -> ST evm (output * Z * option vm_error);
  c_Create : Contract -> list Z -> Z -> Z -> ST evm (list Z * address_t * Z * option vm_error);
  c_Create2 : Contract -> list Z -> Z -> Z -> word -> ST evm (list Z * address_t * Z * option vm_error);
}.

Definition lift_st {A} (m : ST evm A) : X A :=
  fun s => match m s.2 with Ok (e, a) => Ok ((s.1, e), inr a) | Err e => Err e | Panic => Panic end.

Section instructions.
Context (env : Env) (calls : Calls).

Abbreviation exec := (X (list Z)).

(** An operation on the two topmost words, the second of which is replaced. *)
Definition binary (f : word -> word -> word) : exec := x ← x_pop; y ← x_peek; _ ← x_set (f x y); mret [].
Definition unary (f : word -> word) : exec := x ← x_peek; _ ← x_set (f x); mret [].
Definition test (f : word -> word -> bool) : exec := binary (fun x y => if f x y then w_One else w_Zero).
Definition pushed (w : word) : exec := _ ← x_push w; mret [].

Definition opAdd := binary w_Add.
Definition opSub := binary w_Sub.
Definition opMul := binary w_Mul.
Definition opDiv := binary w_Div.
Definition opSdiv := binary w_SDiv.
Definition opMod := binary w_Mod.
Definition opSmod := binary w_SMod.
Definition opExp := binary w_Exp.
Definition opSignExtend := binary (fun back num => ExtendSign num back).
Definition opNot := unary w_Not.
Definition opLt := test w_Lt.
Definition opGt := test w_Gt.
Definition opSlt := test w_Slt.
Definition opSgt := test w_Sgt.
Definition opEq := test w_Eq.
Definition opIszero := unary (fun x => if IsZero x then w_One else w_Zero).
Definition opAnd := binary w_And.
Definition opOr := binary w_Or.
Definition opXor := binary w_Xor.
Definition opByte := binary (fun th val => w_Byte val th).

Definition opAddmod : exec :=
  x ← x_pop; y ← x_pop; z ← x_peek;
  _ ← x_set (if IsZero z then w_Zero else AddMod x y z); mret [].
Definition opMulmod : exec := x ← x_pop; y ← x_pop; z ← x_peek; _ ← x_set (MulMod x y z); mret [].

Definition opSHL := binary (fun shift value => if LtUint64 shift 256 then Lsh value (Uint64 shift) else w_Zero).
Definition opSHR := binary (fun shift value => if LtUint64 shift 256 then Rsh value (Uint64 shift) else w_Zero).
Definition opSAR := binary (fun shift value =>
  if GtUint64 shift 256 then (if Sign value >=? 0 then w_Zero else SetAllOne) else SRsh value (Uint64 shift)).

Definition ptr (offset size : word) : X (list Z) := x_read (fun m => GetPtr m (int64 (Uint64 offset)) (int64 (Uint64 size))).
Definition copy_of (offset size : word) : X (list Z) := x_read (fun m => GetCopy m (int64 (Uint64 offset)) (int64 (Uint64 size))).

Definition opSha3 : exec :=
  offset ← x_pop;
  size ← x_peek;
  data ← ptr offset size;
  let hash := keccak256 data in
  _ ← (if EnablePreimageRecording env then do_db (fun s => Ok (vs_AddPreimage s hash data)) else mret ());
  _ ← x_set (SetBytes hash);
  mret [].

Definition opAddress : exec := a ← self_address; pushed (SetBytes a).
Definition opBalance : exec := slot ← x_peek; b ← on_db (fun s => vs_GetBalance s (Bytes20 slot)); _ ← x_set (FromBig b); mret [].
Definition opOrigin : exec := pushed (SetBytes (Origin env)).
Definition opCaller : exec := f ← get_frame; pushed (SetBytes (CallerAddress (contract f))).
Definition opCallValue : exec := f ← get_frame; pushed (FromBig (value (contract f))).

Definition opCallDataLoad : exec :=
  x ← x_peek;
  let '(offset, overflow) := Uint64WithOverflow x in
  if (overflow : bool) then _ ← x_set w_Zero; mret []
  else
    f ← get_frame;
    data ← lift_go (getData (Input (contract f)) offset 32);
    _ ← x_set (SetBytes data);
    mret [].

Definition opCallDataSize : exec := f ← get_frame; pushed (SetUint64 (zlen (Input (contract f)))).

(** Data copied to memory from an offset that is at most [MaxUint64]. *)
Definition copy_data (data : list Z) (memOffset dataOffset length : word) : exec :=
  let '(dataOffset64, overflow) := Uint64WithOverflow dataOffset in
  let dataOffset64 := if (overflow : bool) then MaxUint64 else dataOffset64 in
  d ← lift_go (getData data dataOffset64 (Uint64 length));
  _ ← x_mem (fun m => mem_Set m (Uint64 memOffset) (Uint64 length) d);
  mret [].

Definition opCallDataCopy : exec :=
  memOffset ← x_pop; dataOffset ← x_pop; length ← x_pop;
  f ← get_frame;
  copy_data (Input (contract f)) memOffset dataOffset length.

Definition opReturnDataSize : exec := e ← get_evm; pushed (SetUint64 (zlen (returnData e))).

Definition opReturnDataCopy : exec :=
  memOffset ← x_pop; dataOffset ← x_pop; length ← x_pop;
  let '(offset64, overflow) := Uint64WithOverflow dataOffset in
  if (overflow : bool) then throw ErrReturnDataOutOfBounds
  else
    let '(end64, overflow) := Uint64WithOverflow (w_Add dataOffset length) in
    e ← get_evm;
    if (overflow : bool) || (zlen (returnData e) <? end64) then throw ErrReturnDataOutOfBounds
    else
      d ← lift_go (slice (returnData e) offset64 end64);
      _ ← x_mem (fun m => mem_Set m (Uint64 memOffset) (Uint64 length) d);
      mret [].

Definition opExtCodeSize : exec := slot ← x_peek; n ← on_db (fun s => vs_GetCodeSize s (Bytes20 slot)); _ ← x_set (SetUint64 n); mret [].
Definition opCodeSize : exec := f ← get_frame; pushed (SetUint64 (zlen (Code (contract f)))).

Definition opCodeCopy : exec :=
  memOffset ← x_pop; codeOffset ← x_pop; length ← x_pop;
  f ← get_frame;
  copy_data (Code (contract f)) memOffset codeOffset length.

Definition opExtCodeCopy : exec :=
  a ← x_pop; memOffset ← x_pop; codeOffset ← x_pop; length ← x_pop;
  code ← on_db (fun s => vs_GetCode s (Bytes20 a));
  copy_data code memOffset codeOffset length.

Definition opExtCodeHash : exec :=
  slot ← x_peek;
  let address := Bytes20 slot in
  empty ← on_db (fun s => vs_Empty s address);
  if (empty : bool) then _ ← x_set w_Zero; mret []
  else h ← on_db (fun s => vs_GetCodeHash s address); _ ← x_set (SetBytes h); mret [].

Definition opGasprice : exec := pushed (FromBig (GasPrice env)).

Definition opBlockhash : exec :=
  num ← x_peek;
  let '(num64, overflow) := Uint64WithOverflow num in
  let upper := u64 (BlockNumber env) in
  let lower := if upper <? 257 then 0 else upper - 256 in
  _ ← x_set (if negb overflow && ((lower <=? num64) && (num64 <? upper)) then SetBytes (GetHash env num64) else w_Zero);
  mret [].

Definition opCoinbase : exec := pushed (SetBytes (Coinbase env)).
Definition opTimestamp : exec := pushed (FromBig (Time env)).
Definition opNumber : exec := pushed (FromBig (BlockNumber env)).
Definition opDifficulty : exec := pushed (FromBig (Difficulty env)).
Definition opGasLimit : exec := pushed (SetUint64 (GasLimit env)).
Definition opPop : exec := _ ← x_pop; mret [].

Definition opMload : exec :=
  v ← x_peek;
  b ← x_read (fun m => GetPtr m (int64 (Uint64 v)) 32);
  _ ← x_set (SetBytes b);
  mret [].

Definition opMstore : exec := mStart ← x_pop; val ← x_pop; _ ← x_mem (fun m => Set32 m (Uint64 mStart) val); mret [].

Definition opMstore8 : exec :=
  off ← x_pop; val ← x_pop;
  _ ← x_mem (fun m => st ← upd (mem_store m) (Uint64 off) (u8 (Uint64 val)); Ok (MkMemory st (lastGasCost m)));
  mret [].

Definition opSload : exec :=
  loc ← x_peek;
  self ← self_address;
  v ← on_db (fun s => vs_GetState s self (Bytes32 loc));
  _ ← x_set (SetBytes v);
  mret [].

Definition opSstore : exec :=
  loc ← x_pop; val ← x_pop;
  self ← self_address;
  _ ← do_db (fun s => vs_SetState s self (Bytes32 loc) (Bytes32 val));
  mret [].

(** The test of a destination, with the caches it fills.  It is a fault of its
    own when the analysis was cached for other, shorter code. *)
Definition check_dest (test : jumpdests -> Contract -> go (bool * jumpdests * Contract)) : X bool :=
  fun s =>
    match test (jd s.2) (contract s.1) with
    | Ok (b, j, c) => Ok ((with_contract s.1 c, with_jd s.2 j), inr b)
    | Err e => match e : Empty_set with end
    | Panic => if short_analysis (jd s.2) (contract s.1) then Err CachedAnalysis else Panic
    end.
Definition jump_to (p : Z) : X unit := f ← get_frame; put_frame (with_pc f p).

Definition opJump : exec :=
  pos ← x_pop;
  ok ← check_dest (fun j c => validJumpdest j c pos);
  if (ok : bool) then _ ← jump_to (Uint64 pos); mret [] else throw ErrInvalidJump.

Definition opJumpi : exec :=
  pos ← x_pop; cond ← x_pop;
  if IsZero cond then f ← get_frame; _ ← jump_to (u64 (pc f + 1)); mret []
  else
    ok ← check_dest (fun j c => validJumpdest j c pos);
    if (ok : bool) then _ ← jump_to (Uint64 pos); mret [] else throw ErrInvalidJump.

Definition opJumpdest : exec := mret [].
Definition opBeginSub : exec := throw ErrInvalidSubroutineEntry.

Definition opJumpSub : exec :=
  f ← get_frame;
  if zlen (rstack f) >=? 1023 then throw ErrReturnStackExceeded
  else
    pos ← x_pop;
    if negb (IsUint64 pos) then throw ErrInvalidJump
    else
      ok ← check_dest (fun j c => validJumpSubdest j c (Uint64 pos));
      if (ok : bool) then
        f ← get_frame;
        _ ← put_frame (with_pc (with_rstack f (u32 (pc f) :: rstack f)) (u64 (Uint64 pos + 1)));
        mret []
      else throw ErrInvalidJump.

Definition opReturnSub : exec :=
  f ← get_frame;
  match rstack f with
  | [] => throw ErrInvalidRetsub
  | r :: rs => _ ← put_frame (with_pc (with_rstack f rs) (u64 (r + 1))); mret []
  end.

Definition opPc : exec := f ← get_frame; pushed (SetUint64 (pc f)).
Definition opMsize : exec := f ← get_frame; pushed (SetUint64 (Len (mem f))).
Definition opGas : exec := f ← get_frame; pushed (SetUint64 (Gas (contract f))).

(** [contract.Gas += returnGas] *)
Definition give_back (returnGas : Z) : X unit :=
  f ← get_frame; put_frame (with_contract f (with_gas (contract f) (u64 (Gas (contract f) + returnGas)))).

Definition opCreate : exec :=
  value ← x_pop; offset ← x_pop; size ← x_pop;
  input ← copy_of offset size;
  e ← get_evm;
  f ← get_frame;
  '(res, addr, returnGas, suberr) ← lift_st (c_Create calls (contract f) input (CallGasTemp e) (if IsZero value then 0 else ToBig value));
  let failed :=
    match suberr with
    | None => false
    | Some err => if decide (err = ErrCodeStoreOutOfGas) then enabled env GetEIP2Transition else true
    end in
  _ ← x_push (if failed then w_Zero else SetBytes addr);
  _ ← give_back returnGas;
  mret (if decide (suberr = Some ErrExecutionReverted) then res else []).

Definition opCreate2 : exec :=
  endowment ← x_pop; offset ← x_pop; size ← x_pop; salt ← x_pop;
  input ← copy_of offset size;
  e ← get_evm;
  f ← get_frame;
  '(res, addr, returnGas, suberr) ←
    lift_st (c_Create2 calls (contract f) input (CallGasTemp e) (if IsZero endowment then 0 else ToBig endowment) salt);
  _ ← x_push (match suberr with Some _ => w_Zero | None => SetBytes addr end);
  _ ← give_back returnGas;
  mret (if decide (suberr = Some ErrExecutionReverted) then res else []).

(** The result of a call as a slice: a native contract can return its input,
    which is a part of the memory. *)
Definition deref (out : output) (inOffset inSize : word) : X (list Z) :=
  match out with Fresh b => mret b | SameInput => ptr inOffset inSize end.

(** After a call: its success, its result in memory, the gas it left.  The
    slice that is returned is read after the memory was written. *)
Definition after_call (r : output * Z * option vm_error) (inOffset inSize retOffset retSize : word) : exec :=
  let '(ret, returnGas, err) := r in
  _ ← x_push (match err with Some _ => w_Zero | None => w_One end);
  _ ← (if decide (err = None \/ err = Some ErrExecutionReverted) then
         b ← deref ret inOffset inSize;
         x_mem (fun m => mem_Set m (Uint64 retOffset) (Uint64 retSize) b)
       else mret ());
  _ ← give_back returnGas;
  deref ret inOffset inSize.

(** A call with a value, which adds the stipend. *)
Definition value_call (call : Contract -> address_t -> list Z -> Z -> Z -> ST evm (output * Z * option vm_error)) : exec :=
  _ ← x_pop;
  e ← get_evm;
  let gas := CallGasTemp e in
  addr ← x_pop; value ← x_pop; inOffset ← x_pop; inSize ← x_pop; retOffset ← x_pop; retSize ← x_pop;
  args ← ptr inOffset inSize;
  let gas := if IsZero value then gas else u64 (gas + CallStipend) in
  f ← get_frame;
  r ← lift_st (call (contract f) (Bytes20 addr) args gas (if IsZero value then 0 else ToBig value));
  after_call r inOffset inSize retOffset retSize.

Definition plain_call (call : Contract -> address_t -> list Z -> Z -> ST evm (output * Z * option vm_error)) : exec :=
  _ ← x_pop;
  e ← get_evm;
  let gas := CallGasTemp e in
  addr ← x_pop; inOffset ← x_pop; inSize ← x_pop; retOffset ← x_pop; retSize ← x_pop;
  args ← ptr inOffset inSize;
  f ← get_frame;
  r ← lift_st (call (contract f) (Bytes20 addr) args gas);
  after_call r inOffset inSize retOffset retSize.

Definition opCall := value_call (c_Call calls).
Definition opCallCode := value_call (c_CallCode calls).
Definition opDelegateCall := plain_call (c_DelegateCall calls).
Definition opStaticCall := plain_call (c_StaticCall calls).

Definition opReturn : exec := offset ← x_pop; size ← x_pop; ptr offset size.
Definition opRevert : exec := offset ← x_pop; size ← x_pop; ptr offset size.
Definition opStop : exec := mret [].

Definition opSuicide : exec :=
  beneficiary ← x_pop;
  self ← self_address;
  balance ← on_db (fun s => vs_GetBalance s self);
  _ ← do_db (fun s => vs_AddBalance s (Bytes20 beneficiary) balance);
  _ ← on_db (fun s => vs_Suicide s self);
  mret [].

Fixpoint pop_topics (n : nat) : X (list (list Z)) :=
  match n with
  | O => mret []
  | Datatypes.S n => t ← x_pop; ts ← pop_topics n; mret (Bytes32 t :: ts)
  end.

Definition makeLog (size : nat) : exec :=
  mStart ← x_pop; mSize ← x_pop;
  topics ← pop_topics size;
  d ← copy_of mStart mSize;
  self ← self_address;
  _ ← do_db (fun s => Ok (vs_AddLog s (MkLogBody self topics d (u64 (BlockNumber env)))));
  mret [].

Definition opPush1 : exec :=
  f ← get_frame;
  let p := u64 (pc f + 1) in
  _ ← put_frame (with_pc f p);
  if p <? zlen (Code (contract f)) then b ← lift_go (idx (Code (contract f)) p); pushed (SetUint64 b)
  else pushed w_Zero.

(** The positions of code are below [2^63]. *)
Definition makePush (size : Z) (pushByteSize : Z) : exec :=
  f ← get_frame;
  let codeLen := zlen (Code (contract f)) in
  let start := u64 (pc f + 1) in
  let startMin := if start <? codeLen then start else codeLen in
  let endMin := if startMin + pushByteSize <? codeLen then startMin + pushByteSize else codeLen in
  b ← lift_go (slice (Code (contract f)) startMin endMin);
  b ← lift_go (RightPadBytes b pushByteSize);
  _ ← x_push (SetBytes b);
  f ← get_frame;
  _ ← put_frame (with_pc f (u64 (pc f + size)));
  mret [].

Definition makeDup (size : nat) : exec := f ← get_frame; st ← lift_go (dup (stack f) size); _ ← put_frame (with_stack f st); mret [].
Definition makeSwap (size : nat) : exec := f ← get_frame; st ← lift_go (swap (stack f) (size + 1)); _ ← put_frame (with_stack f st); mret [].

Definition opSelfBalance : exec := self ← self_address; b ← on_db (fun s => vs_GetBalance s self); pushed (FromBig b).
Definition opChainID : exec := pushed (FromBig (GetChainID (config env))).
End instructions.

(** ** The jump table (jump_table.go, stack_table.go, eips.go) *)

Record operation := MkOperation {
  execute : Calls -> X (list Z);
  constantGas : Z;
  dynamicGas : option (Z -> X Z);
  minStack : Z;
  maxStack : Z;
  memorySize : option (list word -> go (Z * bool));
  halts : bool;
  jumps : bool;
  writes : bool;
  reverts : bool;
  returns : bool;
}.

Definition JumpTable : Type := Z -> option operation.
Definition CALL : Z := 241.

Definition max_stack (pop push : Z) : Z := StackLimit + pop - push.
Definition min_stack (pops push : Z) : Z := pops.

(** An operation that takes [pops] words and leaves [pushes]. *)
Definition op_simple (ex : Calls -> X (list Z)) (gas pops pushes : Z) : operation :=
  MkOperation ex gas None (min_stack pops pushes) (max_stack pops pushes) None false false false false false.
Definition op_gas (ex : Calls -> X (list Z)) (gas : Z) (dyn : Z -> X Z) (pops pushes : Z) : operation :=
  MkOperation ex gas (Some dyn) (min_stack pops pushes) (max_stack pops pushes) None false false false false false.
Definition op_mem (ex : Calls -> X (list Z)) (gas : Z) (dyn : Z -> X Z) (pops pushes : Z) (size : list word -> go (Z * bool)) : operation :=
  MkOperation ex gas (Some dyn) (min_stack pops pushes) (max_stack pops pushes) (Some size) false false false false false.

Definition set_halts (o : operation) : operation :=
  MkOperation (execute o) (constantGas o) (dynamicGas o) (minStack o) (maxStack o) (memorySize o) true (jumps o) (writes o) (reverts o) (returns o).
Definition set_jumps (o : operation) : operation :=
  MkOperation (execute o) (constantGas o) (dynamicGas o) (minStack o) (maxStack o) (memorySize o) (halts o) true (writes o) (reverts o) (returns o).
Definition set_writes (o : operation) : operation :=
  MkOperation (execute o) (constantGas o) (dynamicGas o) (minStack o) (maxStack o) (memorySize o) (halts o) (jumps o) true (reverts o) (returns o).
Definition set_reverts (o : operation) : operation :=
  MkOperation (execute o) (constantGas o) (dynamicGas o) (minStack o) (maxStack o) (memorySize o) (halts o) (jumps o) (writes o) true (returns o).
Definition set_returns (o : operation) : operation :=
  MkOperation (execute o) (constantGas o) (dynamicGas o) (minStack o) (maxStack o) (memorySize o) (halts o) (jumps o) (writes o) (reverts o) true.
Definition set_constantGas (g : Z) (o : operation) : operation :=
  MkOperation (execute o) g (dynamicGas o) (minStack o) (maxStack o) (memorySize o) (halts o) (jumps o) (writes o) (reverts o) (returns o).
Definition set_dynamicGas (d : Z -> X Z) (o : operation) : operation :=
  MkOperation (execute o) (constantGas o) (Some d) (minStack o) (maxStack o) (memorySize o) (halts o) (jumps o) (writes o) (reverts o) (returns o).

Section tables.
Context (env : Env).

(** [newBaseInstructionSet] *)
Definition base_entry (op : Z) : option operation :=
  match op with
  | 0 => Some (set_halts (op_simple (fun _ => opStop) 0 0 0))
  | 1 => Some (op_simple (fun _ => opAdd) GasFastestStep 2 1)
  | 2 => Some (op_simple (fun _ => opMul) GasFastStep 2 1)
  | 3 => Some (op_simple (fun _ => opSub) GasFastestStep 2 1)
  | 4 => Some (op_simple (fun _ => opDiv) GasFastStep 2 1)
  | 5 => Some (op_simple (fun _ => opSdiv) GasFastStep 2 1)
  | 6 => Some (op_simple (fun _ => opMod) GasFastStep 2 1)
  | 7 => Some (op_simple (fun _ => opSmod) GasFastStep 2 1)
  | 8 => Some (op_simple (fun _ => opAddmod) GasMidStep 3 1)
  | 9 => Some (op_simple (fun _ => opMulmod) GasMidStep 3 1)
  | 10 => Some (op_gas (fun _ => opExp) 0 gasExpFrontier 2 1)
  | 11 => Some (op_simple (fun _ => opSignExtend) GasFastStep 2 1)
  | 16 => Some (op_simple (fun _ => opLt) GasFastestStep 2 1)
  | 17 => Some (op_simple (fun _ => opGt) GasFastestStep 2 1)
  | 18 => Some (op_simple (fun _ => opSlt) GasFastestStep 2 1)
  | 19 => Some (op_simple (fun _ => opSgt) GasFastestStep 2 1)
  | 20 => Some (op_simple (fun _ => opEq) GasFastestStep 2 1)
  | 21 => Some (op_simple (fun _ => opIszero) GasFastestStep 1 1)
  | 22 => Some (op_simple (fun _ => opAnd) GasFastestStep 2 1)
  | 23 => Some (op_simple (fun _ => opOr) GasFastestStep 2 1)
  | 24 => Some (op_simple (fun _ => opXor) GasFastestStep 2 1)
  | 25 => Some (op_simple (fun _ => opNot) GasFastestStep 1 1)
  | 26 => Some (op_simple (fun _ => opByte) GasFastestStep 2 1)
  | 32 => Some (op_mem (fun _ => opSha3 env) Sha3Gas gasSha3 2 1 memorySha3)
  | 48 => Some (op_simple (fun _ => opAddress) GasQuickStep 0 1)
  | 49 => Some (op_simple (fun _ => opBalance) BalanceGasFrontier 1 1)
  | 50 => Some (op_simple (fun _ => opOrigin env) GasQuickStep 0 1)
  | 51 => Some (op_simple (fun _ => opCaller) GasQuickStep 0 1)
  | 52 => Some (op_simple (fun _ => opCallValue) GasQuickStep 0 1)
  | 53 => Some (op_simple (fun _ => opCallDataLoad) GasFastestStep 1 1)
  | 54 => Some (op_simple (fun _ => opCallDataSize) GasQuickStep 0 1)
  | 55 => Some (op_mem (fun _ => opCallDataCopy) GasFastestStep (memoryCopierGas 2) 3 0 memoryCallDataCopy)
  | 56 => Some (op_simple (fun _ => opCodeSize) GasQuickStep 0 1)
  | 57 => Some (op_mem (fun _ => opCodeCopy) GasFastestStep (memoryCopierGas 2) 3 0 memoryCodeCopy)
  | 58 => Some (op_simple (fun _ => opGasprice env) GasQuickStep 0 1)
  | 59 => Some (op_simple (fun _ => opExtCodeSize) ExtcodeSizeGasFrontier 1 1)
  | 60 => Some (op_mem (fun _ => opExtCodeCopy) ExtcodeCopyBaseFrontier (memoryCopierGas 3) 4 0 memoryExtCodeCopy)
  | 64 => Some (op_simple (fun _ => opBlockhash env) GasExtStep 1 1)
  | 65 => Some (op_simple (fun _ => opCoinbase env) GasQuickStep 0 1)
  | 66 => Some (op_simple (fun _ => opTimestamp env) GasQuickStep 0 1)
  | 67 => Some (op_simple (fun _ => opNumber env) GasQuickStep 0 1)
  | 68 => Some (op_simple (fun _ => opDifficulty env) GasQuickStep 0 1)
  | 69 => Some (op_simple (fun _ => opGasLimit env) GasQuickStep 0 1)
  | 80 => Some (op_simple (fun _ => opPop) GasQuickStep 1 0)
  | 81 => Some (op_mem (fun _ => opMload) GasFastestStep pureMemoryGascost 1 1 memoryMLoad)
  | 82 => Some (op_mem (fun _ => opMstore) GasFastestStep pureMemoryGascost 2 0 memoryMStore)
  | 83 => Some (op_mem (fun _ => opMstore8) GasFastestStep pureMemoryGascost 2 0 memoryMStore8)
  | 84 => Some (op_simple (fun _ => opSload) SloadGasFrontier 1 1)
  | 85 => Some (set_writes (op_gas (fun _ => opSstore) 0 (gasSStore env) 2 0))
  | 86 => Some (set_jumps (op_simple (fun _ => opJump) GasMidStep 1 0))
  | 87 => Some (set_jumps (op_simple (fun _ => opJumpi) GasSlowStep 2 0))
  | 88 => Some (op_simple (fun _ => opPc) GasQuickStep 0 1)
  | 89 => Some (op_simple (fun _ => opMsize) GasQuickStep 0 1)
  | 90 => Some (op_simple (fun _ => opGas) GasQuickStep 0 1)
  | 91 => Some (op_simple (fun _ => opJumpdest) JumpdestGas 0 0)
  | 96 => Some (op_simple (fun _ => opPush1) GasFastestStep 0 1)
  | 240 => Some (set_returns (set_writes (op_mem (opCreate env) CreateGas (gasCreate env) 3 1 memoryCreate)))
  | 241 => Some (set_returns (op_mem opCall CallGasFrontier (gasCall env) 7 1 memoryCall))
  | 242 => Some (set_returns (op_mem opCallCode CallGasFrontier (gasCallCode env) 7 1 memoryCall))
  | 243 => Some (set_halts (op_mem (fun _ => opReturn) 0 pureMemoryGascost 2 0 memoryReturn))
  | 255 => Some (set_writes (set_halts (op_gas (fun _ => opSuicide) 0 (gasSelfdestruct env) 1 0)))
  | _ => None
  end.

Definition newBaseInstructionSet : JumpTable := fun op =>
  if (97 <=? op) && (op <=? 127) then
    (* PUSH2 to PUSH32 *)
    Some (op_simple (fun _ => makePush (op - 95) (op - 95)) GasFastestStep 0 1)
  else if (128 <=? op) && (op <=? 143) then
    (* DUP1 to DUP16: [minDupStack], [maxDupStack] *)
    Some (op_simple (fun _ => makeDup (Z.to_nat (op - 127))) GasFastestStep (op - 127) (op - 127 + 1))
  else if (144 <=? op) && (op <=? 159) then
    (* SWAP1 to SWAP16: [minSwapStack], [maxSwapStack] *)
    Some (op_simple (fun _ => makeSwap (Z.to_nat (op - 143))) GasFastestStep (op - 142) (op - 142))
  else if (160 <=? op) && (op <=? 164) then
    (* LOG0 to LOG4 *)
    Some (set_writes (op_mem (fun _ => makeLog env (Z.to_nat (op - 160))) 0 (makeGasLog (op - 160)) (op - 158) 0 memoryLog))
  else base_entry op.

Definition jt_set (jt : JumpTable) (op : Z) (o : operation) : JumpTable := fun x => if x =? op then Some o else jt x.

(** [jt[op].field = v], a nil dereference when the entry is missing *)
Definition jt_change (jt : JumpTable) (op : Z) (f : operation -> operation) : go JumpTable :=
  match jt op with Some o => Ok (jt_set jt op (f o)) | None => Panic end.

Definition enableSelfBalance (jt : JumpTable) : JumpTable := jt_set jt 71 (op_simple (fun _ => opSelfBalance) GasFastStep 0 1).

Definition enable1884 (jt : JumpTable) : go JumpTable :=
  jt ← jt_change jt 49 (set_constantGas BalanceGasEIP1884);
  jt ← jt_change jt 63 (set_constantGas ExtcodeHashGasEIP1884);
  jt ← jt_change jt 84 (set_constantGas SloadGasEIP1884);
  Ok (enableSelfBalance jt).

Definition enable1344 (jt : JumpTable) : JumpTable := jt_set jt 70 (op_simple (fun _ => opChainID env) GasQuickStep 0 1).

Definition enable2200 (jt : JumpTable) : go JumpTable :=
  jt ← jt_change jt 84 (set_constantGas SloadGasEIP2200);
  jt_change jt 85 (set_dynamicGas gasSStoreEIP2200).

Definition enable2315 (jt : JumpTable) : JumpTable :=
  let jt := jt_set jt 92 (op_simple (fun _ => opBeginSub) GasQuickStep 0 0) in
  let jt := jt_set jt 94 (set_jumps (op_simple (fun _ => opJumpSub) GasSlowStep 1 0)) in
  jt_set jt 93 (set_jumps (op_simple (fun _ => opReturnSub) GasFastStep 0 0)).

Definition when (b : bool) (f : JumpTable -> JumpTable) (jt : JumpTable) : JumpTable := if b then f jt else jt.
Definition when_go (b : bool) (f : JumpTable -> go JumpTable) (jt : JumpTable) : go JumpTable := if b then f jt else Ok jt.

Definition enable150 (jt : JumpTable) : go JumpTable :=
  jt ← jt_change jt 49 (set_constantGas BalanceGasEIP150);
  jt ← jt_change jt 59 (set_constantGas ExtcodeSizeGasEIP150);
  jt ← jt_change jt 84 (set_constantGas SloadGasEIP150);
  jt ← jt_change jt 60 (set_constantGas ExtcodeCopyBaseEIP150);
  jt ← jt_change jt 241 (set_constantGas CallGasEIP150);
  jt ← jt_change jt 242 (set_constantGas CallGasEIP150);
  jt_change jt 244 (set_constantGas CallGasEIP150).

Definition enable145 (jt : JumpTable) : JumpTable :=
  let jt := jt_set jt 27 (op_simple (fun _ => opSHL) GasFastestStep 2 1) in
  let jt := jt_set jt 28 (op_simple (fun _ => opSHR) GasFastestStep 2 1) in
  jt_set jt 29 (op_simple (fun _ => opSAR) GasFastestStep 2 1).

Definition enable211 (jt : JumpTable) : JumpTable :=
  let jt := jt_set jt 61 (op_simple (fun _ => opReturnDataSize) GasQuickStep 0 1) in
  jt_set jt 62 (op_mem (fun _ => opReturnDataCopy) GasFastestStep (memoryCopierGas 2) 3 0 memoryReturnDataCopy).

(** The rules up to EIP160. *)
Definition early_rules : go JumpTable :=
  let on f := enabled env f in
  let jt := newBaseInstructionSet in
  let jt := when (on GetEIP7Transition)
    (fun jt => jt_set jt 244 (set_returns (op_mem opDelegateCall CallGasFrontier (gasDelegateCall env) 6 1 memoryDelegateCall))) jt in
  jt ← when_go (on GetEIP150Transition) enable150 jt;
  when_go (on GetEIP160Transition) (fun jt => jt_change jt 10 (set_dynamicGas gasExpEIP158)) jt.

Definition instructionSetForConfig : go JumpTable :=
  let on f := enabled env f in
  jt ← early_rules;
  let jt := when (on GetEIP140Transition)
    (fun jt => jt_set jt 253 (set_returns (set_reverts (op_mem (fun _ => opRevert) 0 pureMemoryGascost 2 0 memoryRevert)))) jt in
  let jt := when (on GetEIP214Transition)
    (fun jt => jt_set jt 250 (set_returns (op_mem opStaticCall CallGasEIP150 (gasStaticCall env) 6 1 memoryStaticCall))) jt in
  let jt := when (on GetEIP211Transition) enable211 jt in
  let jt := when (on GetEIP145Transition) enable145 jt in
  let jt := when (on GetEIP1014Transition)
    (fun jt => jt_set jt 245 (set_returns (set_writes (op_mem opCreate2 Create2Gas (gasCreate2 env) 4 1 memoryCreate2)))) jt in
  let jt := when (on GetEIP1052Transition)
    (fun jt => jt_set jt 63 (op_simple (fun _ => opExtCodeHash) ExtcodeHashGasConstantinople 1 1)) jt in
  let jt := when (on GetEIP1344Transition) enable1344 jt in
  jt ← when_go (on GetEIP1884Transition) enable1884 jt;
  let jt := when (on GetECIP1080Transition) enableSelfBalance jt in
  when_go (on GetEIP2200Transition && negb (on GetEIP2200DisableTransition)) enable2200 jt.

(** *** Additional rules (eips.go, interpreter.go) *)

(** The [activators] that [EnableEIP] looks up; [None] for an unknown number. *)
Definition EnableEIP (eipNum : Z) (jt : JumpTable) : option (go JumpTable) :=
  match eipNum with
  | 2200 => Some (enable2200 jt)
  | 1884 => Some (enable1884 jt)
  | 1344 => Some (Ok (enable1344 jt))
  | 2315 => Some (Ok (enable2315 jt))
  | _ => None
  end.

Definition ValidEip (eipNum : Z) : bool := bool_decide (eipNum ∈ [2200; 1884; 1344; 2315]).

(** The loop over [cfg.ExtraEips], with the array that the ranged slice and
    [cfg.ExtraEips] share and the length of the latter: dropping an entry
    moves the later entries of the array down. *)
Fixpoint enable_extra (n : nat) (i : Z) (arr : list Z) (len : Z) (jt : JumpTable) : go (JumpTable * list Z) :=
  match n with
  | O => extra ← slice arr 0 len; Ok (jt, extra)
  | Datatypes.S n =>
      eip ← idx arr i;
      match EnableEIP eip jt with
      | Some enabled => jt ← enabled; enable_extra n (i + 1) arr len jt
      | None =>
          tail ← slice arr (i + 1) len;
          enable_extra n (i + 1) (take (Z.to_nat i) arr ++ tail ++ drop (Z.to_nat i + length tail) arr) (i + zlen tail) jt
      end
  end.

(** [NewEVMInterpreter] without a table of its own: the table it runs with, and
    the rules it reports as enabled. *)
Definition NewEVMInterpreter (ExtraEips : list Z) : go (JumpTable * list Z) :=
  jt ← instructionSetForConfig;
  enable_extra (length ExtraEips) 0 ExtraEips (zlen ExtraEips) jt.

(** ** The interpreter (interpreter.go) *)

Inductive next := Continue | Stop (ret : list Z) (err : option vm_error).

(** The size of memory that an operation needs, in whole words. *)
Definition memory_size (o : operation) : X Z :=
  match memorySize o with
  | None => mret 0
  | Some size =>
      f ← get_frame;
      r ← lift_go (size (stack f));
      memSize ← lift_vm (checked r);
      lift_vm (checked (SafeMul (toWordSize memSize) 32))
  end.

Definition use_gas (gas : Z) : X unit :=
  f ← get_frame;
  let '(ok, c) := UseGas (contract f) gas in
  if (ok : bool) then put_frame (with_contract f c) else throw ErrOutOfGas.

(** An error of the gas function is reported as out of gas. *)
Definition out_of_gas {A} (m : X A) : X A := fun s =>
  match m s with Ok (s, inl _) => Ok (s, inl ErrOutOfGas) | r => r end.

(** The checks and charges before an instruction. *)
Definition prepare (jt : JumpTable) : X operation :=
  f ← get_frame;
  e ← get_evm;
  _ ← put_evm (with_CallGasTemp e 0);
  op ← lift_go (GetOp (contract f) (pc f));
  match jt op with
  | None => throw (ErrInvalidOpCode op)
  | Some o =>
      let sLen := zlen (stack f) in
      if sLen <? minStack o then throw (ErrStackUnderflow sLen (minStack o))
      else if sLen >? maxStack o then throw (ErrStackOverflow sLen (maxStack o))
      else
        protected ← (if readOnly e && enabled env GetEIP214Transition then
                       if writes o then mret true
                       else if op =? CALL then value ← x_back 2; mret (negb (Sign value =? 0))
                       else mret false
                     else mret false);
        if (protected : bool) then throw ErrWriteProtection
        else
          _ ← use_gas (constantGas o);
          size ← memory_size o;
          _ ← match dynamicGas o with
              | None => mret ()
              | Some dyn => gas ← out_of_gas (dyn size); use_gas gas
              end;
          _ ← (if size >? 0 then f ← get_frame; put_frame (with_mem f (mem_Resize (mem f) size)) else mret ());
          mret o
  end.

(** The execution of an instruction and what follows it: the return data is
    set, also on an error, and the loop goes on or ends. *)
Definition finish (o : operation) (calls : Calls) : ST (frame * evm) next := fun s =>
  match execute o calls s with
  | Ok ((f, e), r) =>
      let res := match r with inr b => b | inl _ => [] end in
      let e := if returns o then with_returnData e res else e in
      match r with
      | inl err => Ok ((f, e), Stop [] (Some err))
      | inr res =>
          if reverts o then Ok ((f, e), Stop res (Some ErrExecutionReverted))
          else if halts o then Ok ((f, e), Stop res None)
          else if jumps o then Ok ((f, e), Continue)
          else Ok ((with_pc f (u64 (pc f + 1)), e), Continue)
      end
  | Err e => Err e
  | Panic => Panic
  end.

(** The abort flag is loaded every thousand steps. *)
Definition aborted : ST (frame * evm) bool := fun '(f, e) =>
  let f := with_steps f (steps f + 1) in
  if steps f mod 1000 =? 0 then
    match aborts e with
    | b :: bs => Ok ((f, with_aborts e bs), b)
    | [] => Ok ((f, e), false)
    end
  else Ok ((f, e), false).

Definition one_step (jt : JumpTable) (calls : Calls) : ST (frame * evm) next :=
  stop ← aborted;
  if (stop : bool) then mret (Stop [] None)
  else
    r ← (prepare jt : ST (frame * evm) (vm_error + operation));
    match r with
    | inl err => mret (Stop [] (Some err))
    | inr o => finish o calls
    end.

(** ** Contracts and calls (contract.go, evm.go) *)

Inductive ContractRef := AccountRef (a : address_t) | ContractOf (c : Contract).
Definition ref_address (r : ContractRef) : address_t := match r with AccountRef a => a | ContractOf c => self c end.

(** [NewContract] with [SetCallCode]: the cache of analyses is the one of the
    caller, if that is a contract, and new otherwise. *)
Definition NewContract (caller : ContractRef) (object : address_t) (val gas : Z) (hash code : list Z) : Contract :=
  MkContract (ref_address caller) object None code hash [] gas val.
Definition share_cache (caller : ContractRef) : ST evm unit := fun e =>
  Ok (match caller with AccountRef _ => with_jd e ∅ | ContractOf _ => e end, ()).

(** [AsDelegate]: the caller and the value are those of the parent. *)
Definition AsDelegate (parent c : Contract) : Contract :=
  MkContract (CallerAddress parent) (self c) (analysis c) (Code c) (con_CodeHash c) (Input c) (Gas c) (value parent).

Definition e_get : ST evm evm := fun e => Ok (e, e).
Definition e_go {A} (m : go A) : ST evm A := fun e => match run_go m with Ok a => Ok (e, a) | Err x => Err x | Panic => Panic end.
Definition e_on {A} (g : S -> go (A * S)) : ST evm A := fun e =>
  match run_go (g (state e)) with Ok (a, s) => Ok (with_state e s, a) | Err x => Err x | Panic => Panic end.
Definition e_do (g : S -> go S) : ST evm unit := fun e =>
  match run_go (g (state e)) with Ok s => Ok (with_state e s, ()) | Err x => Err x | Panic => Panic end.

(** [CanTransfer] and [Transfer] of core/evm.go *)
Definition CanTransfer (a : address_t) (amount : Z) : ST evm bool := b ← e_on (fun s => vs_GetBalance s a); mret (amount <=? b).
Definition Transfer (sender recipient : address_t) (amount : Z) : ST evm unit :=
  _ ← e_do (fun s => vs_SubBalance s sender amount); e_do (fun s => vs_AddBalance s recipient amount).

Definition Interp : Type := Contract -> list Z -> bool -> ST evm (Contract * list Z * option vm_error).

Section calls.
Context (interp : Interp).

Definition precompile (addr : address_t) : option PrecompiledContract := PrecompiledContractsForConfig env !! addr.

(** The end of a call: on an error the state goes back to the snapshot, and
    the gas is used up unless the code reverted. *)
Definition settle (snapshot : Z) (r : output * Z * option vm_error) : ST evm (output * Z * option vm_error) :=
  let '(ret, gas, err) := r in
  match err with
  | None => mret (ret, gas, err)
  | Some err =>
      _ ← e_do (fun s => vs_RevertToSnapshot s snapshot);
      mret (ret, (if decide (err = ErrExecutionReverted) then gas else 0), Some err)
  end.

Definition snapshot : ST evm Z := e_on (fun s => Ok (vs_Snapshot s)).

(** The limits that every call checks first; [None] lets it go on. *)
Definition limits (gas : Z) : ST evm (option (output * Z * option vm_error)) :=
  e ← e_get;
  mret (if NoRecursion env && (depth e >? 0) then Some (Fresh [], gas, None)
        else if depth e >? CallCreateDepth then Some (Fresh [], gas, Some ErrDepth)
        else None).

Definition enter (c : Contract) (input : list Z) (static : bool) : ST evm (output * Z * option vm_error) :=
  '(c, ret, err) ← interp c input static;
  mret (Fresh ret, Gas c, err).

Definition Call (caller : ContractRef) (addr : address_t) (input : list Z) (gas val : Z) : ST evm (output * Z * option vm_error) :=
  stop ← limits gas;
  match stop with
  | Some r => mret r
  | None =>
      can ← (if val =? 0 then mret true else CanTransfer (ref_address caller) val);
      if negb can then mret (Fresh [], gas, Some ErrInsufficientBalance)
      else
        snap ← snapshot;
        let p := precompile addr in
        exist ← e_on (fun s => vs_Exist s addr);
        if negb exist && bool_decide (p = None) && enabled env GetEIP161abcTransition && (val =? 0) then mret (Fresh [], gas, None)
        else
          _ ← (if (exist : bool) then mret () else e_do (fun s => vs_CreateAccount s addr));
          _ ← Transfer (ref_address caller) addr val;
          r ← match p with
              | Some p => e_go (RunPrecompiledContract p input gas)
              | None =>
                  code ← e_on (fun s => vs_GetCode s addr);
                  if zlen code =? 0 then mret (Fresh [], gas, None)
                  else
                    hash ← e_on (fun s => vs_GetCodeHash s addr);
                    _ ← share_cache caller;
                    enter (NewContract caller addr val gas hash code) input false
              end;
          settle snap r
  end.

Definition CallCode (caller : ContractRef) (addr : address_t) (input : list Z) (gas val : Z) : ST evm (output * Z * option vm_error) :=
  stop ← limits gas;
  match stop with
  | Some r => mret r
  | None =>
      can ← CanTransfer (ref_address caller) val;
      if negb can then mret (Fresh [], gas, Some ErrInsufficientBalance)
      else
        snap ← snapshot;
        r ← match precompile addr with
            | Some p => e_go (RunPrecompiledContract p input gas)
            | None =>
                hash ← e_on (fun s => vs_GetCodeHash s addr);
                code ← e_on (fun s => vs_GetCode s addr);
                _ ← share_cache caller;
                enter (NewContract caller (ref_address caller) val gas hash code) input false
            end;
        settle snap r
  end.

(** The caller of a delegate call is a contract. *)
Definition DelegateCall (caller : Contract) (addr : address_t) (input : list Z) (gas : Z) : ST evm (output * Z * option vm_error) :=
  stop ← limits gas;
  match stop with
  | Some r => mret r
  | None =>
      snap ← snapshot;
      r ← match precompile addr with
          | Some p => e_go (RunPrecompiledContract p input gas)
          | None =>
              hash ← e_on (fun s => vs_GetCodeHash s addr);
              code ← e_on (fun s => vs_GetCode s addr);
              enter (AsDelegate caller (NewContract (ContractOf caller) (self caller) 0 gas hash code)) input false
          end;
      settle snap r
  end.

Definition StaticCall (caller : ContractRef) (addr : address_t) (input : list Z) (gas : Z) : ST evm (output * Z * option vm_error) :=
  stop ← limits gas;
  match stop with
  | Some r => mret r
  | None =>
      snap ← snapshot;
      _ ← e_do (fun s => vs_AddBalance s addr 0);
      r ← match precompile addr with
          | Some p => e_go (RunPrecompiledContract p input gas)
          | None =>
              hash ← e_on (fun s => vs_GetCodeHash s addr);
              code ← e_on (fun s => vs_GetCode s addr);
              _ ← share_cache caller;
              enter (NewContract caller addr 0 gas hash code) input true
          end;
      settle snap r
  end.

(** The end of a creation: the code is stored if its gas is paid; a failure
    undoes the creation. *)
Definition deploy (snap : Z) (address : address_t) (c : Contract) (ret : list Z) (err : option vm_error)
    : ST evm (list Z * address_t * Z * option vm_error) :=
  let maxCodeSizeExceeded := enabled env GetEIP170Transition && (zlen ret >? MaxCodeSize) in
  '(c, err) ←
    (if bool_decide (err = None) && negb maxCodeSizeExceeded then
       let '(ok, c) := UseGas c (u64 (zlen ret * CreateDataGas)) in
       if (ok : bool) then _ ← e_do (fun s => vs_SetCode s address ret); mret (c, None)
       else mret (c, Some ErrCodeStoreOutOfGas)
     else mret (c, err));
  c ← (if maxCodeSizeExceeded || (bool_decide (err <> None) && (enabled env GetEIP2Transition || bool_decide (err <> Some ErrCodeStoreOutOfGas))) then
         _ ← e_do (fun s => vs_RevertToSnapshot s snap);
         mret (if decide (err = Some ErrExecutionReverted) then c else (UseGas c (Gas c)).2)
       else mret c);
  let err := if maxCodeSizeExceeded && bool_decide (err = None) then Some ErrMaxCodeSizeExceeded else err in
  mret (ret, address, Gas c, err).

Definition create (caller : ContractRef) (code hash : list Z) (gas val : Z) (address : address_t)
    : ST evm (list Z * address_t * Z * option vm_error) :=
  let none := replicate 20 0 in
  e ← e_get;
  if depth e >? CallCreateDepth then mret ([], none, gas, Some ErrDepth)
  else
    can ← CanTransfer (ref_address caller) val;
    if negb can then mret ([], none, gas, Some ErrInsufficientBalance)
    else
      nonce ← e_on (fun s => vs_GetNonce s (ref_address caller));
      _ ← e_do (fun s => vs_SetNonce s (ref_address caller) (u64 (nonce + 1)));
      contractHash ← e_on (fun s => vs_GetCodeHash s address);
      nonce ← e_on (fun s => vs_GetNonce s address);
      if negb (nonce =? 0) || (negb (bool_decide (contractHash = no_hash)) && negb (bool_decide (contractHash = keccak256 []))) then
        mret ([], none, 0, Some ErrContractAddressCollision)
      else
        snap ← snapshot;
        _ ← e_do (fun s => vs_CreateAccount s address);
        _ ← (if enabled env GetEIP161abcTransition then e_do (fun s => vs_SetNonce s address 1) else mret ());
        _ ← Transfer (ref_address caller) address val;
        let c := NewContract caller address val gas hash code in
        if NoRecursion env && (depth e >? 0) then mret ([], address, gas, None)
        else
          _ ← share_cache caller;
          '(c, ret, err) ← interp c [] false;
          deploy snap address c ret err.

(** [crypto.CreateAddress], [crypto.CreateAddress2] *)
Definition CreateAddress (b : address_t) (nonce : Z) : go address_t :=
  let data := match EncodeToBytes (IList [IByteArray b; IUint nonce]) (EncBuf [] [] 0 (replicate 9 0)) with Ok d => d | _ => [] end in
  h ← slice_from (keccak256 data) 12;
  Ok (BytesToAddress h).
Definition CreateAddress2 (b : address_t) (salt inithash : list Z) : go address_t :=
  h ← slice_from (keccak256 ([255] ++ b ++ salt ++ inithash)) 12;
  Ok (BytesToAddress h).

Definition Create (caller : ContractRef) (code : list Z) (gas val : Z) : ST evm (list Z * address_t * Z * option vm_error) :=
  nonce ← e_on (fun s => vs_GetNonce s (ref_address caller));
  address ← e_go (CreateAddress (ref_address caller) nonce);
  create caller code no_hash gas val address.

Definition Create2 (caller : ContractRef) (code : list Z) (gas endowment : Z) (salt : word)
    : ST evm (list Z * address_t * Z * option vm_error) :=
  let hash := keccak256 code in
  address ← e_go (CreateAddress2 (ref_address caller) (Bytes32 salt) hash);
  create caller code hash gas endowment address.

Definition calls_of : Calls :=
  MkCalls (fun c => Call (ContractOf c)) (fun c => CallCode (ContractOf c)) DelegateCall (fun c => StaticCall (ContractOf c))
    (fun c => Create (ContractOf c)) (fun c => Create2 (ContractOf c)).
End calls.

(** [EVMInterpreter.Run], around the loop. *)
Definition enter_frame (loop : ST (frame * evm) (list Z * option vm_error)) (ro : bool) (c : Contract) (input : list Z)
    : ST evm (Contract * list Z * option vm_error) := fun e =>
  let d := depth e in
  let set_ro := ro && negb (readOnly e) in
  let e := with_returnData (with_readOnly (with_depth e (d + 1)) (readOnly e || ro)) [] in
  let leave e := with_depth (if set_ro then with_readOnly e false else e) (depth e - 1) in
  if zlen (Code c) =? 0 then Ok (leave e, (c, [], None))
  else
    match loop (MkFrame 0 NewMemory [] [] (with_input c input) 0, e) with
    | Ok ((f, e), (ret, err)) => Ok (leave e, (contract f, ret, err))
    | Err x => Err x
    | Panic => Panic
    end.

Fixpoint loop (jt : JumpTable) (fuel : nat) : ST (frame * evm) (list Z * option vm_error) :=
  match fuel with
  | O => fun _ => Err Exhausted
  | Datatypes.S fuel =>
      r ← one_step jt (calls_of (fun c input ro => enter_frame (loop jt fuel) ro c input));
      match r with
      | Stop ret err => mret (ret, err)
      | Continue => loop jt fuel
      end
  end.

Definition Run (jt : JumpTable) (fuel : nat) : Interp := fun c input ro => enter_frame (loop jt fuel) ro c input.
End tables.
End machine.
