(* ===== verification/VmWp.v ===== *)
(** * Reasoning about the machine (src/core/vm)

    What the machine relies on in the state ([VMLaws]), a weakest precondition
    for instructions and calls, and what the gas functions promise: they do
    not panic, they keep the memory, and what they charge covers the gas that
    the instruction can hand on. *)
From stdpp Require Import prelude list gmap.
From Stdlib Require Import ZArith Lia.
From S2P Require Import Prelude RlpEncode TrieEncoding Trie TrieNode TrieHash VmBase VmCode Vm.

(** ** What the state promises *)

Section promises.
Context {S : Type} (inv : S -> Prop) (since : S -> S -> Prop).

(** A change that a later revert can undo. *)
Definition later_than (s s' : S) : Prop := (inv s -> inv s') /\ forall b, since b s -> since b s'.

Definition reads {A} (P : A -> Prop) (g : S -> go (A * S)) : Prop :=
  forall s, inv s -> exists a s', g s = Ok (a, s') /\ P a /\ later_than s s'.
Definition changes (g : S -> go S) : Prop := forall s, inv s -> exists s', g s = Ok s' /\ later_than s s'.
End promises.

Class VMLaws (S : Type) {VS : VMState S} := {
  inv : S -> Prop;
  (** [since b s]: the state [s] comes from [b], right after a snapshot that is
      still valid in [s]. *)
  since : S -> S -> Prop;
  same_state : S -> S -> Prop;
  l_CreateAccount a : is_addr a -> changes inv since (fun s => vs_CreateAccount s a);
  l_SubBalance a v : is_addr a -> changes inv since (fun s => vs_SubBalance s a v);
  l_AddBalance a v : is_addr a -> changes inv since (fun s => vs_AddBalance s a v);
  l_GetBalance a : is_addr a -> reads inv since (fun _ => True) (fun s => vs_GetBalance s a);
  l_GetNonce a : is_addr a -> reads inv since (fun _ => True) (fun s => vs_GetNonce s a);
  l_SetNonce a v : is_addr a -> changes inv since (fun s => vs_SetNonce s a v);
  l_GetCodeHash a : is_addr a -> reads inv since (fun _ => True) (fun s => vs_GetCodeHash s a);
  l_GetCode a : is_addr a -> reads inv since is_slice (fun s => vs_GetCode s a);
  l_SetCode a c : is_addr a -> is_slice c -> changes inv since (fun s => vs_SetCode s a c);
  l_GetCodeSize a : is_addr a -> reads inv since (fun _ => True) (fun s => vs_GetCodeSize s a);
  l_AddRefund g : changes inv since (fun s => Ok (vs_AddRefund s g));
  l_SubRefund g s s' : inv s -> vs_SubRefund s g = Ok s' -> later_than inv since s s';
  l_GetCommittedState a k : is_addr a -> reads inv since (fun _ => True) (fun s => vs_GetCommittedState s a k);
  l_GetState a k : is_addr a -> reads inv since (fun _ => True) (fun s => vs_GetState s a k);
  l_SetState a k v : is_addr a -> changes inv since (fun s => vs_SetState s a k v);
  l_Suicide a : is_addr a -> reads inv since (fun _ => True) (fun s => vs_Suicide s a);
  l_HasSuicided a : is_addr a -> reads inv since (fun _ => True) (fun s => vs_HasSuicided s a);
  l_Exist a : is_addr a -> reads inv since (fun _ => True) (fun s => vs_Exist s a);
  l_Empty a : is_addr a -> reads inv since (fun _ => True) (fun s => vs_Empty s a);
  l_AddLog l : changes inv since (fun s => Ok (vs_AddLog s l));
  l_AddPreimage h p : changes inv since (fun s => Ok (vs_AddPreimage s h p));
  same_refl s : same_state s s;
  same_trans s1 s2 s3 : same_state s1 s2 -> same_state s2 s3 -> same_state s1 s3;
  same_GetBalance a s v s' : inv s -> is_addr a -> vs_GetBalance s a = Ok (v, s') -> same_state s' s;
  same_GetNonce a s v s' : inv s -> is_addr a -> vs_GetNonce s a = Ok (v, s') -> same_state s' s;
  l_Snapshot s : inv s -> later_than inv since s (vs_Snapshot s).2 /\ since (vs_Snapshot s).2 (vs_Snapshot s).2;
  l_Revert s s2 : inv s -> since (vs_Snapshot s).2 s2 ->
    exists s3, vs_RevertToSnapshot s2 (vs_Snapshot s).1 = Ok s3 /\ same_state s3 s /\ inv s3 /\ forall b, since b s -> since b s3;
}.

(** What native contracts promise: a 64-bit charge, and no panic on inputs for
    which the charge is below the limit. *)
Abbreviation native_limit := (2 ^ 45).
Definition native_ok (p : PrecompiledContract) : Prop :=
  forall input, is_slice input -> exists gas, RequiredGas p input = Ok gas /\ 0 <= gas < 2 ^ 64 /\
    (gas < native_limit ->
     match pre_Run p input with Ok (Fresh b) => is_slice b | Ok SameInput => True | Err _ => True | Panic => False end).

Definition natives_ok (n : Natives) : Prop :=
  native_ok (ecrecover n) /\ native_ok (sha256hash n) /\ native_ok (ripemd160hash n) /\ native_ok (bigModExp n) /\
  native_ok (bn256AddIstanbul n) /\ native_ok (bn256AddByzantium n) /\ native_ok (bn256ScalarMulIstanbul n) /\
  native_ok (bn256ScalarMulByzantium n) /\ native_ok (bn256PairingIstanbul n) /\ native_ok (bn256PairingByzantium n) /\
  native_ok (blake2F n) /\ native_ok (nat_G1Add n) /\ native_ok (nat_G1Mul n) /\ native_ok (nat_G1MultiExp n) /\ native_ok (nat_G2Add n) /\
  native_ok (nat_G2Mul n) /\ native_ok (nat_G2MultiExp n) /\ native_ok (nat_Pairing n) /\ native_ok (nat_MapG1 n) /\ native_ok (nat_MapG2 n).

Section wp.
Context {U : Uint256} {K : Keccak} {S : Type} {VS : VMState S} {VL : VMLaws S}.
Abbreviation evm := (evm (S := S)).
Abbreviation X := (X (S := S)).
Implicit Types (f : frame) (e : evm).

Abbreviation later := (later_than inv since).

Lemma later_refl (s : S) : later s s.
Proof. by split. Qed.
Lemma later_trans (s1 s2 s3 : S) : later s1 s2 -> later s2 s3 -> later s1 s3.
Proof. intros [? ?] [? ?]. split; auto. Qed.

(** ** Weakest preconditions *)

(** A computation ends in a state and with a result for which [Q] holds, or
    with one of the two faults that are allowed. *)
Definition wp {σ A} (m : ST σ A) (Q : σ -> A -> Prop) (s : σ) : Prop :=
  match m s with
  | Ok (s', a) => Q s' a
  | Err Exhausted => False
  | Err CachedAnalysis | Err RefundBelowZero => True
  | Panic => False
  end.

Lemma wp_mono {σ A} (m : ST σ A) (Q Q' : σ -> A -> Prop) s :
  wp m Q s -> (forall s' a, Q s' a -> Q' s' a) -> wp m Q' s.
Proof. unfold wp. intros H HQ. destruct (m s) as [[? ?]|[]|]; auto. Qed.

Lemma wp_st_bind {σ A B} (m : ST σ A) (k : A -> ST σ B) Q s : wp m (fun s a => wp (k a) Q s) s -> wp (m ≫= k) Q s.
Proof. unfold wp, mbind, ST_bind. destruct (m s) as [[? ?]|[]|]; auto. Qed.

Lemma wp_st_ret {σ A} (a : A) (Q : σ -> A -> Prop) s : Q s a -> wp (mret a) Q s.
Proof. done. Qed.

Lemma wp_bind {A B} (m : X A) (k : A -> X B) Q s :
  wp m (fun s r => match r with inr a => wp (k a) Q s | inl err => Q s (inl err) end) s -> wp (m ≫= k : X B) Q s.
Proof. unfold wp, mbind, X_bind. destruct (m s) as [[? [?|?]]|[]|]; auto. Qed.

Lemma wp_ret {A} (a : A) Q s : Q s (inr a) -> wp (mret a : X A) Q s.
Proof. done. Qed.
Lemma wp_throw {A} err (Q : frame * evm -> vm_error + A -> Prop) s : Q s (inl err) -> wp (throw err) Q s.
Proof. done. Qed.
Lemma wp_get_frame Q f e : Q (f, e) (inr f) -> wp get_frame Q (f, e).
Proof. done. Qed.
Lemma wp_get_evm Q f e : Q (f, e) (inr e) -> wp get_evm Q (f, e).
Proof. done. Qed.
Lemma wp_put_frame f' Q f e : Q (f', e) (inr ()) -> wp (put_frame f') Q (f, e).
Proof. done. Qed.
Lemma wp_put_evm e' Q f e : Q (f, e') (inr ()) -> wp (put_evm e') Q (f, e).
Proof. done. Qed.
Lemma wp_self Q f e : Q (f, e) (inr (self (contract f))) -> wp self_address Q (f, e).
Proof. done. Qed.
Lemma wp_lift_go {A} (m : go A) a (Q : frame * evm -> vm_error + A -> Prop) s : m = Ok a -> Q s (inr a) -> wp (lift_go m) Q s.
Proof. by intros ->. Qed.
Lemma wp_lift_vm {A} (m : vm A) (Q : frame * evm -> vm_error + A -> Prop) s : m <> Panic -> (forall a, m = Ok a -> Q s (inr a)) -> (forall err, m = Err err -> Q s (inl err)) -> wp (lift_vm m) Q s.
Proof. unfold wp, lift_vm. destruct m; naive_solver. Qed.
Lemma wp_checked r (Q : frame * evm -> vm_error + Z -> Prop) s : (r.2 = false -> Q s (inr r.1)) -> Q s (inl ErrGasUintOverflow) -> wp (lift_vm (checked r)) Q s.
Proof. unfold checked. destruct r as [z []]; unfold wp, lift_vm; simpl; auto. Qed.

Lemma wp_pop x st Q f e : stack f = x :: st -> Q (with_stack f st, e) (inr x) -> wp x_pop Q (f, e).
Proof. intros Hs HQ. destruct f. simpl in Hs. subst. exact HQ. Qed.
Lemma wp_peek x st Q f e : stack f = x :: st -> Q (f, e) (inr x) -> wp x_peek Q (f, e).
Proof. intros Hs HQ. destruct f. simpl in Hs. subst. exact HQ. Qed.
Lemma wp_back n x Q f e : stack f !! n = Some x -> Q (f, e) (inr x) -> wp (x_back n) Q (f, e).
Proof. intros Hs HQ. unfold wp, x_back, Back, mbind, X_bind, get_frame, lift_go. simpl. by rewrite Hs. Qed.
Lemma wp_push x Q f e : Q (with_stack f (x :: stack f), e) (inr ()) -> wp (x_push x) Q (f, e).
Proof. done. Qed.
Lemma wp_set x y st Q f e : stack f = y :: st -> Q (with_stack f (x :: st), e) (inr ()) -> wp (x_set x) Q (f, e).
Proof. intros Hs HQ. destruct f. simpl in Hs. subst. exact HQ. Qed.
Lemma wp_mem g m Q f e : g (mem f) = Ok m -> Q (with_mem f m, e) (inr ()) -> wp (x_mem g) Q (f, e).
Proof. intros Hs HQ. unfold wp, x_mem, mbind, X_bind, get_frame, lift_go. simpl. by rewrite Hs. Qed.
Lemma wp_read g b Q f e : g (mem f) = Ok b -> Q (f, e) (inr b) -> wp (x_read g) Q (f, e).
Proof. intros Hs HQ. unfold wp, x_read, mbind, X_bind, get_frame, lift_go. simpl. by rewrite Hs. Qed.

Lemma wp_on_db {A} P (g : S -> go (A * S)) Q f e :
  reads inv since P g -> inv (state e) ->
  (forall a s', P a -> later (state e) s' -> inv s' -> Q (f, with_state e s') (inr a)) -> wp (on_db g) Q (f, e).
Proof.
  intros Hg Hi HQ. destruct (Hg _ Hi) as (a & s' & Hr & HP & Hl). unfold wp, on_db, mbind, X_bind, get_evm, lift_go. simpl. rewrite Hr. simpl.
  apply HQ; [done..|]. by apply Hl.
Qed.
Lemma wp_do_db (g : S -> go S) Q f e :
  changes inv since g -> inv (state e) ->
  (forall s', later (state e) s' -> inv s' -> Q (f, with_state e s') (inr ())) -> wp (do_db g) Q (f, e).
Proof.
  intros Hg Hi HQ. destruct (Hg _ Hi) as (s' & Hr & Hl). unfold wp, do_db, mbind, X_bind, get_evm, lift_go. simpl. rewrite Hr. simpl.
  apply HQ; [done..|]. by apply Hl.
Qed.
Lemma wp_SubRefund g Q f e :
  inv (state e) -> (forall s', later (state e) s' -> inv s' -> Q (f, with_state e s') (inr ())) -> wp (db_SubRefund g) Q (f, e).
Proof.
  intros Hi HQ. unfold wp, db_SubRefund, panic_as. simpl. destruct (vs_SubRefund (state e) g) as [s'|[]|] eqn:E; [|done].
  pose proof (l_SubRefund _ _ _ Hi E) as Hl. apply HQ; [done|]. by apply Hl.
Qed.

(** What stays, or moves on, in the machine. *)
Definition evm_step e e' : Prop := later (state e) (state e') /\ depth e' = depth e /\ readOnly e' = readOnly e /\ (inv (state e) -> inv (state e')).

Lemma evm_step_refl e : evm_step e e.
Proof. split; [apply later_refl|done]. Qed.
Lemma evm_step_trans e1 e2 e3 : evm_step e1 e2 -> evm_step e2 e3 -> evm_step e1 e3.
Proof. intros (? & ? & ? & ?) (? & ? & ? & ?). split; [by eapply later_trans|]. split_and!; [congruence..|auto]. Qed.
Lemma evm_step_state e s : later (state e) s -> evm_step e (with_state e s).
Proof. intros Hl. split; [done|]. split_and!; [done..|apply Hl]. Qed.

End wp.

(** One step of a computation. *)
Ltac wstep :=
  lazymatch goal with
  | |- wp (_ ≫= _) _ _ => apply wp_bind
  | |- wp (mret _) _ _ => apply wp_ret
  | |- wp (throw _) _ _ => apply wp_throw
  | |- wp get_frame _ _ => apply wp_get_frame
  | |- wp get_evm _ _ => apply wp_get_evm
  | |- wp (put_frame _) _ _ => apply wp_put_frame
  | |- wp (put_evm _) _ _ => apply wp_put_evm
  | |- wp self_address _ _ => apply wp_self
  | |- wp x_pop _ _ => eapply wp_pop; [reflexivity|]
  | |- wp x_peek _ _ => eapply wp_peek; [reflexivity|]
  | |- wp (x_back _) _ _ => eapply wp_back; [reflexivity|]
  | |- wp (x_push _) _ _ => apply wp_push
  | |- wp (x_set _) _ _ => eapply wp_set; [reflexivity|]
  | |- wp (lift_vm (checked _)) _ _ => apply wp_checked
  end; cbn [with_stack with_mem with_pc with_rstack with_contract with_steps stack mem pc rstack contract steps]; cbv beta iota.
Ltac wsteps := repeat wstep.

Section gas.
Context {U : Uint256} {K : Keccak} {S : Type} {VS : VMState S} {VL : VMLaws S}.
Abbreviation evm := (evm (S := S)).
Abbreviation X := (X (S := S)).
Implicit Types (f : frame) (e : evm).
Abbreviation later := (later_than inv since).

(** ** Frames *)

Definition contract_good (c : Contract) : Prop := is_addr (self c) /\ is_slice (Code c) /\ is_slice (Input c) /\ 0 <= Gas c < 2 ^ 64.

Record frame_ok f : Prop := {
  fo_mem : mem_ok (mem f);
  fo_stack : zlen (stack f) <= StackLimit;
  fo_contract : contract_good (contract f);
  fo_pc : 0 <= pc f;
  fo_rstack : Forall (Z.le 0) (rstack f);
}.

(** ** Gas functions *)

(** What a gas function returns: the memory is as before but for the fee it
    records, and the charge covers what the instruction can give back. *)
Definition charged (const slack : Z) (credit : list word -> Z -> Z) (w : Z) f e (s : frame * evm) (r : vm_error + Z) : Prop :=
  exists m' e', s = (with_mem f m', e') /\ evm_step e e' /\ mem_store m' = mem_store (mem f) /\
    match r with
    | inl _ => True
    | inr gas => 0 <= gas /\ mem_ok (mem_Resize m' (32 * w)) /\
        (gas <= Gas (contract f) -> 0 <= CallGasTemp e' /\ credit (stack f) (CallGasTemp e') + slack <= const + gas)
    end.

Definition dyn_ok (min : Z) (has_mem : bool) (const slack : Z) (credit : list word -> Z -> Z) (d : Z -> X Z) : Prop :=
  forall f e w, frame_ok f -> min <= zlen (stack f) -> inv (state e) -> CallGasTemp e = 0 -> 0 <= w -> (has_mem = false -> w = 0) ->
    wp (d (32 * w)) (charged const slack credit w f e) (f, e).

Definition no_credit : list word -> Z -> Z := fun _ _ => 0.

Lemma wp_memoryGasCost f e w Q :
  frame_ok f -> 0 <= w ->
  (forall fee m', 0 <= fee < 2 ^ 63 -> mem_store m' = mem_store (mem f) -> mem_ok (mem_Resize m' (32 * w)) -> Q (with_mem f m', e) (inr fee)) ->
  (forall err, Q (f, e) (inl err)) -> wp (x_memoryGasCost (32 * w)) Q (f, e).
Proof.
  intros Hf Hw HQ He. unfold x_memoryGasCost. wsteps.
  destruct (Z.le_gt_cases (32 * w) mem_limit) as [Hl|Hl].
  - destruct (memoryGasCost_spec (mem f) w (fo_mem _ Hf) Hw Hl) as (fee & m' & Hrun & Hst & _ & Hr & Hok). rewrite Hrun.
    apply wp_lift_vm; [done| |done]. intros ? [= <-]. wsteps. by apply HQ.
  - assert (Hrun : memoryGasCost (mem f) (32 * w) = Err ErrGasUintOverflow).
    { unfold memoryGasCost, mem_limit in *. rewrite (proj2 (Z.eqb_neq _ _)) by lia. by rewrite Z.gtb_ltb, (proj2 (Z.ltb_lt _ _)) by lia. }
    rewrite Hrun. apply wp_lift_vm; [done|done|]. intros err _. apply He.
Qed.

Lemma with_mem_id f : with_mem f (mem f) = f.
Proof. by destruct f. Qed.

(** An error of a gas function, whatever the memory records. *)
Lemma charged_err const slack credit w f e m' e' err :
  evm_step e e' -> mem_store m' = mem_store (mem f) -> charged const slack credit w f e (with_mem f m', e') (inl err).
Proof. intros. by exists m', e'. Qed.
Lemma charged_err_id const slack credit w f e e' err : evm_step e e' -> charged const slack credit w f e (f, e') (inl err).
Proof. intros. exists (mem f), e'. by rewrite with_mem_id. Qed.

Lemma SafeAdd_ok x y : (SafeAdd x y).2 = false -> 0 <= x + y -> (SafeAdd x y).1 = x + y.
Proof. unfold SafeAdd. simpl. intros H H0. apply Z.leb_gt in H. apply u64_small. lia. Qed.
Lemma SafeMul_ok x y : (SafeMul x y).2 = false -> 0 <= x * y -> (SafeMul x y).1 = x * y.
Proof. unfold SafeMul. simpl. intros H H0. apply Z.leb_gt in H. apply u64_small. lia. Qed.
Lemma SafeSub_ok x y : (SafeSub x y).2 = false -> 0 <= y -> x < 2 ^ 64 -> (SafeSub x y).1 = x - y /\ y <= x.
Proof. unfold SafeSub. simpl. intros H H0 H1. apply Z.ltb_ge in H. split; [apply u64_small; lia|lia]. Qed.

Lemma Uint64_range w : 0 <= Uint64 w < 2 ^ 64.
Proof. rewrite Uint64_value. apply u64_range. Qed.
Lemma toWordSize_nonneg n : 0 <= n -> 0 <= toWordSize n.
Proof. intros. unfold toWordSize, MaxUint64. destruct (_ >? _); [done|]. apply Z.div_pos; lia. Qed.

Lemma pureMemoryGascost_ok min const : 1 <= const -> dyn_ok min true const 1 no_credit pureMemoryGascost.
Proof.
  intros Hc f e w Hf Hmin Hi Ht Hw _. apply wp_memoryGasCost; [done..| |].
  - intros fee m' Hfee Hst Hok. exists m', e. split; [done|]. split; [apply evm_step_refl|]. split; [done|]. split; [lia|].
    split; [done|]. intros _. rewrite Ht. unfold no_credit. lia.
  - intros err. apply charged_err_id, evm_step_refl.
Qed.

Lemma pureMemoryGascost_halt min : dyn_ok min true 0 0 no_credit pureMemoryGascost.
Proof.
  intros f e w Hf Hmin Hi Ht Hw _. apply wp_memoryGasCost; [done..| |].
  - intros fee m' Hfee Hst Hok. exists m', e. split; [done|]. split; [apply evm_step_refl|]. split; [done|]. split; [lia|].
    split; [done|]. intros _. rewrite Ht. unfold no_credit. lia.
  - intros err. apply charged_err_id, evm_step_refl.
Qed.

(** The word at a position of the stack. *)
Lemma stack_at f n : Z.of_nat n < zlen (stack f) -> exists x, stack f !! n = Some x.
Proof. intros H. apply lookup_lt_is_Some_2. unfold zlen in H. lia. Qed.

Lemma wp_back64 n f e Q :
  Z.of_nat n < zlen (stack f) -> (forall x, stack f !! n = Some x -> Q (f, e) (inr (Uint64 x))) -> (forall err, Q (f, e) (inl err)) ->
  wp (x_back64 n) Q (f, e).
Proof.
  intros Hn HQ He. destruct (stack_at f n Hn) as [x Hx]. unfold x_back64. apply wp_bind. eapply wp_back; [done|].
  apply wp_checked; [|apply He]. intros _. by apply HQ.
Qed.

Lemma wp_add_gas x y (Q : frame * evm -> vm_error + Z -> Prop) s :
  0 <= x + y -> Q s (inr (x + y)) -> (forall err, Q s (inl err)) -> wp (add_gas x y) Q s.
Proof. intros H0 HQ He. unfold add_gas. apply wp_checked; [|apply He]. intros H. by rewrite SafeAdd_ok. Qed.

Lemma wp_mul_gas x y (Q : frame * evm -> vm_error + Z -> Prop) s :
  0 <= x * y -> Q s (inr (x * y)) -> (forall err, Q s (inl err)) -> wp (lift_vm (checked (SafeMul x y))) Q s.
Proof. intros H0 HQ He. apply wp_checked; [|apply He]. intros H. by rewrite SafeMul_ok. Qed.

Lemma charged_mem const slack credit w f e m' gas :
  mem_store m' = mem_store (mem f) -> mem_ok (mem_Resize m' (32 * w)) -> CallGasTemp e = 0 -> 0 <= gas ->
  credit (stack f) 0 + slack <= const + gas -> charged const slack credit w f e (with_mem f m', e) (inr gas).
Proof.
  intros Hst Hok Ht Hg Hc. exists m', e. split; [done|]. split; [apply evm_step_refl|]. split; [done|]. split; [done|]. split; [done|].
  intros _. rewrite Ht. split; [done|lia].
Qed.

Lemma memoryCopierGas_ok n min const : Z.of_nat n < min -> 1 <= const -> dyn_ok min true const 1 no_credit (memoryCopierGas n).
Proof.
  intros Hn Hc f e w Hf Hmin Hi Ht Hw _. unfold memoryCopierGas. apply wp_bind. apply wp_memoryGasCost; [done..| |].
  2: { intros err. apply charged_err_id, evm_step_refl. }
  intros fee m' Hfee Hst Hok. assert (He : forall err, charged const 1 no_credit w f e (with_mem f m', e) (inl err))
    by (intros; by apply charged_err; [apply evm_step_refl|]).
  apply wp_bind. apply wp_back64; [simpl; lia| |done]. intros x _. pose proof (Uint64_range x). pose proof (toWordSize_nonneg (Uint64 x)).
  apply wp_bind. unfold CopyGas. apply wp_mul_gas; [lia| |done]. apply wp_add_gas; [lia| |done]. apply charged_mem; try done; unfold no_credit; lia.
Qed.

Lemma gasSha3_ok : dyn_ok 2 true Sha3Gas 1 no_credit gasSha3.
Proof.
  intros f e w Hf Hmin Hi Ht Hw _. unfold gasSha3. apply wp_bind. apply wp_memoryGasCost; [done..| |].
  2: { intros err. apply charged_err_id, evm_step_refl. }
  intros fee m' Hfee Hst Hok. assert (He : forall err, charged Sha3Gas 1 no_credit w f e (with_mem f m', e) (inl err))
    by (intros; by apply charged_err; [apply evm_step_refl|]).
  unfold hash_words. apply wp_bind. apply wp_back64; [simpl; lia| |done]. intros x _. pose proof (Uint64_range x). pose proof (toWordSize_nonneg (Uint64 x)).
  apply wp_bind. unfold Sha3WordGas. apply wp_mul_gas; [lia| |done]. apply wp_add_gas; [lia| |done].
  apply charged_mem; try done; unfold no_credit, Sha3Gas; lia.
Qed.

Lemma makeGasLog_ok n : 0 <= n -> dyn_ok (n + 2) true 0 1 no_credit (makeGasLog n).
Proof.
  intros Hn f e w Hf Hmin Hi Ht Hw _. unfold makeGasLog. apply wp_bind. apply wp_back64; [simpl; lia| |intros; apply charged_err_id, evm_step_refl].
  intros x _. apply wp_bind. apply wp_memoryGasCost; [done..| |intros; apply charged_err_id, evm_step_refl].
  intros fee m' Hfee Hst Hok. assert (He : forall err, charged 0 1 no_credit w f e (with_mem f m', e) (inl err))
    by (intros; by apply charged_err; [apply evm_step_refl|]).
  pose proof (Uint64_range x). unfold LogGas, LogTopicGas, LogDataGas.
  apply wp_bind, wp_add_gas; [lia| |done]. apply wp_bind, wp_add_gas; [lia| |done]. apply wp_bind, wp_mul_gas; [lia| |done].
  apply wp_add_gas; [lia| |done]. apply charged_mem; try done; unfold no_credit; lia.
Qed.

Lemma mem_ok_Resize0 m : mem_ok m -> mem_ok (mem_Resize m (32 * 0)).
Proof.
  intros Hm. unfold mem_Resize. destruct (Z.ltb_spec (Len m) (32 * 0)); [|done]. unfold Len in *. pose proof (zlen_nonneg (mem_store m)). lia.
Qed.

Lemma charged_plain const slack f e e' gas :
  frame_ok f -> evm_step e e' -> CallGasTemp e' = 0 -> 0 <= gas -> slack <= const + gas ->
  charged const slack no_credit 0 f e (f, e') (inr gas).
Proof.
  intros Hf Hs Ht Hg Hc. exists (mem f), e'. rewrite with_mem_id. split; [done|]. split; [done|]. split; [done|]. split; [done|].
  split; [apply mem_ok_Resize0, Hf|]. intros _. rewrite Ht. split; [done|]. unfold no_credit. lia.
Qed.

Lemma gasExp_ok perByte const : 0 <= perByte -> 0 <= const -> dyn_ok 2 false const 1 no_credit (gasExp perByte).
Proof.
  intros Hp Hc f e w Hf Hmin Hi Ht Hw Hnm. rewrite (Hnm eq_refl). unfold gasExp. destruct (stack_at f 1 ltac:(lia)) as [x Hx].
  apply wp_bind. eapply wp_back; [exact Hx|]. cbv beta iota zeta. unfold ExpGas. pose proof (u64_range ((BitLen x + 7) / 8 * perByte)).
  apply wp_add_gas; [lia| |intros; apply charged_err_id, evm_step_refl]. apply charged_plain; try done; lia.
Qed.

(** *** Gas that instructions hand on *)

Definition create_credit : list word -> Z -> Z := fun _ temp => temp.
Definition value_credit : list word -> Z -> Z := fun st temp =>
  temp + match st !! 2%nat with Some v => if IsZero v then 0 else CallStipend | None => 0 end.

Lemma evm_step_temp e e' t : evm_step e e' -> evm_step e (with_CallGasTemp e' t).
Proof. intros (? & ? & ? & ?). by split_and!. Qed.

Lemma charged_temp const slack credit w f e e' m' gas temp :
  evm_step e e' -> mem_store m' = mem_store (mem f) -> mem_ok (mem_Resize m' (32 * w)) -> 0 <= temp -> 0 <= gas ->
  credit (stack f) temp + slack <= const + (gas + temp) ->
  charged const slack credit w f e (with_mem f m', with_CallGasTemp e' temp) (inr (gas + temp)).
Proof.
  intros Hs Hst Hok Ht Hg Hc. exists m', (with_CallGasTemp e' temp). split; [done|]. split; [by apply evm_step_temp|]. split; [done|].
  split; [lia|]. split; [done|]. intros _. simpl. split; [done|lia].
Qed.

Lemma share_64 x : 0 <= x -> 0 <= x - x / 64.
Proof. intros H. pose proof (Z.div_le_upper_bound x 64 x). lia. Qed.

Lemma wp_reserve_create env f e gas Q :
  0 <= gas -> Gas (contract f) < 2 ^ 64 ->
  (forall temp, 0 <= temp -> Q (f, with_CallGasTemp e temp) (inr (gas + temp))) ->
  (forall err t, Q (f, with_CallGasTemp e t) (inl err)) -> (forall err, Q (f, e) (inl err)) -> wp (reserve_create env gas) Q (f, e).
Proof.
  intros Hg Hc HQ He He'. unfold reserve_create. wsteps; [|apply He']. intros Hsub. apply SafeSub_ok in Hsub as [-> Hle]; [|done..].
  wsteps. set (temp := createGasEip150 _ _). assert (Ht : 0 <= temp).
  { unfold temp, createGasEip150. case_match; [apply share_64|]; lia. }
  apply wp_add_gas; [lia|by apply HQ|intros; apply He].
Qed.

Lemma callGas_range b avail base cost temp : callGas b avail base cost = Ok temp -> 0 <= temp.
Proof.
  unfold callGas. pose proof (Uint64_range cost). pose proof (u64_range (avail - base)).
  assert (0 <= u64 (avail - base) - u64 (avail - base) / 64) by (apply share_64; lia).
  destruct b; [destruct (_ || _); [intros [= <-]; done|]|]; (destruct (IsUint64 cost); [intros [= <-]; lia|done]).
Qed.

Lemma wp_reserve_call env f e gas Q :
  0 <= gas -> 0 < zlen (stack f) ->
  (forall temp, 0 <= temp -> Q (f, with_CallGasTemp e temp) (inr (gas + temp))) ->
  (forall err t, Q (f, with_CallGasTemp e t) (inl err)) -> (forall err, Q (f, e) (inl err)) -> wp (reserve_call env gas) Q (f, e).
Proof.
  intros Hg Hs HQ He He'. unfold reserve_call. destruct (stack_at f 0 ltac:(lia)) as [x Hx]. wstep. wstep. wstep. eapply wp_back; [exact Hx|].
  cbv beta iota. wstep. apply wp_lift_vm; [|intros temp Htemp|intros; apply He'].
  { unfold callGas. by destruct (enabled env _), (IsUint64 x); simpl; repeat case_match. }
  apply callGas_range in Htemp. wsteps. apply wp_add_gas; [lia|by apply HQ|intros; apply He].
Qed.

Lemma gasCreate_ok env : dyn_ok 3 true CreateGas 1 create_credit (gasCreate env).
Proof.
  intros f e w Hf Hmin Hi Ht Hw _. unfold gasCreate. apply wp_bind, wp_memoryGasCost; [done..| |intros; apply charged_err_id, evm_step_refl].
  intros fee m' Hfee Hst Hok. apply wp_reserve_create; [lia|apply Hf|..].
  - intros temp Htemp. apply charged_temp; try done; [lia|]. unfold create_credit, CreateGas. lia.
  - intros err t. apply charged_err; [apply evm_step_temp, evm_step_refl|done].
  - intros err. apply charged_err; [apply evm_step_refl|done].
Qed.

Lemma gasCreate2_ok env : dyn_ok 4 true Create2Gas 1 create_credit (gasCreate2 env).
Proof.
  intros f e w Hf Hmin Hi Ht Hw _. unfold gasCreate2. apply wp_bind, wp_memoryGasCost; [done..| |intros; apply charged_err_id, evm_step_refl].
  intros fee m' Hfee Hst Hok. assert (He : forall err, charged Create2Gas 1 create_credit w f e (with_mem f m', e) (inl err))
    by (intros; by apply charged_err; [apply evm_step_refl|]).
  apply wp_bind. unfold hash_words. apply wp_bind, wp_back64; [simpl; lia| |done].
  intros x _. pose proof (Uint64_range x). pose proof (toWordSize_nonneg (Uint64 x)).
  apply wp_bind. unfold Sha3WordGas. apply wp_mul_gas; [lia| |done]. apply wp_add_gas; [lia| |done].
  apply wp_reserve_create; [lia|apply Hf|..|done].
  - intros temp Htemp. apply charged_temp; try done; [lia|]. unfold create_credit, Create2Gas. lia.
  - intros err t. apply charged_err; [apply evm_step_temp, evm_step_refl|done].
Qed.

Lemma gasDelegateCall_ok env const : 1 <= const -> dyn_ok 6 true const 1 create_credit (gasDelegateCall env).
Proof.
  intros Hc f e w Hf Hmin Hi Ht Hw _. unfold gasDelegateCall. apply wp_bind, wp_memoryGasCost; [done..| |intros; apply charged_err_id, evm_step_refl].
  intros fee m' Hfee Hst Hok. apply wp_reserve_call; [lia|simpl; lia|..].
  - intros temp Htemp. apply charged_temp; try done; [lia|]. unfold create_credit. lia.
  - intros err t. apply charged_err; [apply evm_step_temp, evm_step_refl|done].
  - intros err. apply charged_err; [apply evm_step_refl|done].
Qed.

Lemma gasCallCode_ok env const : 1 <= const -> dyn_ok 7 true const 1 value_credit (gasCallCode env).
Proof.
  intros Hc f e w Hf Hmin Hi Ht Hw _. unfold gasCallCode. apply wp_bind, wp_memoryGasCost; [done..| |intros; apply charged_err_id, evm_step_refl].
  intros fee m' Hfee Hst Hok. assert (He : forall err, charged const 1 value_credit w f e (with_mem f m', e) (inl err))
    by (intros; by apply charged_err; [apply evm_step_refl|]).
  destruct (stack_at f 2 ltac:(lia)) as [v Hv]. apply wp_bind. eapply wp_back; [exact Hv|]. cbv beta iota zeta.
  rewrite Sign_zero. apply wp_bind. set (base := if ToBig v =? 0 then 0 else CallValueTransferGas).
  assert (Hb : 0 <= base) by (unfold base; by case_match). apply wp_add_gas; [lia| |done].
  apply wp_reserve_call; [lia|simpl; lia|..|done].
  - intros temp Htemp. apply charged_temp; try done; [lia|]. unfold value_credit. rewrite Hv, IsZero_value.
    unfold base, CallValueTransferGas, CallStipend. case_match; lia.
  - intros err t. apply charged_err; [apply evm_step_temp, evm_step_refl|done].
Qed.

Lemma gasCall_ok env const : 1 <= const -> dyn_ok 7 true const 1 value_credit (gasCall env).
Proof.
  intros Hc f e w Hf Hmin Hi Ht Hw _. unfold gasCall. destruct (stack_at f 2 ltac:(lia)) as [v Hv]. destruct (stack_at f 1 ltac:(lia)) as [a Ha].
  apply wp_bind. eapply wp_back; [exact Hv|]. cbv beta iota zeta. apply wp_bind. eapply wp_back; [exact Ha|]. cbv beta iota zeta.
  assert (Hrest : forall e' base, evm_step e e' -> 0 <= base ->
    wp (memoryGas ← x_memoryGasCost (32 * w);
        gas ← add_gas (base + (if negb (IsZero v) then CallValueTransferGas else 0)) memoryGas;
        reserve_call env gas : X Z) (charged const 1 value_credit w f e) (f, e')).
  { intros e' base He' Hbase. apply wp_bind, wp_memoryGasCost; [done..| |intros; by apply charged_err_id]. intros fee m' Hfee Hst Hok.
    assert (He : forall err, charged const 1 value_credit w f e (with_mem f m', e') (inl err)) by (intros; by apply charged_err).
    assert (0 <= (if negb (IsZero v) then CallValueTransferGas else 0)) by (by case_match).
    apply wp_bind, wp_add_gas; [lia| |done]. apply wp_reserve_call; [lia|simpl; lia|..|done].
    - intros temp Htemp. apply charged_temp; try done; [lia|]. unfold value_credit. rewrite Hv.
      unfold CallValueTransferGas, CallStipend. destruct (IsZero v); simpl; lia.
    - intros err t. apply charged_err; [by apply evm_step_temp|done]. }
  pose proof (Bytes20_ok a) as Haddr. apply wp_bind. destruct (enabled env GetEIP161abcTransition); [clear Hv; set (tv := negb (IsZero v)) in *; destruct tv|].
  - apply wp_bind. eapply wp_on_db; [by apply l_Empty|done|]. intros empty s' _ Hl _. apply wp_ret. cbv beta iota zeta.
    apply Hrest; [by apply evm_step_state|]. by destruct empty.
  - apply wp_ret. cbv beta iota zeta. apply Hrest; [apply evm_step_refl|done].
  - apply wp_bind. eapply wp_on_db; [by apply l_Exist|done|]. intros exist s' _ Hl _. apply wp_ret. cbv beta iota zeta.
    apply Hrest; [by apply evm_step_state|]. by destruct exist.
Qed.

(** *** Storage and refunds *)

(** Computations that touch nothing but the state. *)
Definition quiet {A} (P : A -> Prop) (m : X A) : Prop := forall f e Q,
  inv (state e) ->
  (forall a e', P a -> evm_step e e' -> CallGasTemp e' = CallGasTemp e -> inv (state e') -> Q (f, e') (inr a)) -> wp m Q (f, e).

Lemma quiet_ret {A} (a : A) (P : A -> Prop) : P a -> quiet P (mret a).
Proof. intros Ha f e Q Hi HQ. apply wp_ret. apply HQ; [done|apply evm_step_refl|done..]. Qed.
Lemma quiet_on_db {A} (P : A -> Prop) g : reads inv since P g -> quiet P (on_db g).
Proof. intros Hg f e Q Hi HQ. eapply wp_on_db; [done..|]. intros a s' Ha Hl Hs. apply HQ; [done|apply evm_step_state; exact Hl|done|exact Hs]. Qed.
Lemma quiet_do_db g : changes inv since g -> quiet (fun _ => True) (do_db g).
Proof. intros Hg f e Q Hi HQ. eapply wp_do_db; [done..|]. intros s' Hl Hs. apply HQ; [done|by apply evm_step_state|done..]. Qed.
Lemma quiet_SubRefund g : quiet (fun _ => True) (db_SubRefund g).
Proof. intros f e Q Hi HQ. apply wp_SubRefund; [done|]. intros s' Hl Hs. apply HQ; [done|by apply evm_step_state|done..]. Qed.
Lemma quiet_AddRefund g : quiet (fun _ => True) (db_AddRefund g).
Proof. apply quiet_do_db, l_AddRefund. Qed.
Lemma quiet_bind {A B} (P : A -> Prop) (P' : B -> Prop) (m : X A) (k : A -> X B) :
  quiet P m -> (forall a, P a -> quiet P' (k a)) -> quiet P' (m ≫= k : X B).
Proof.
  intros Hm Hk f e Q Hi HQ. apply wp_bind. apply Hm; [done|]. intros a e1 Ha Hs1 Ht1 Hi1. apply (Hk a Ha); [done|].
  intros b e2 Hb Hs2 Ht2 Hi2. apply HQ; [done|by eapply evm_step_trans|congruence|done].
Qed.

Lemma quiet_if {A} (b : bool) (P : A -> Prop) (m m' : X A) : quiet P m -> quiet P m' -> quiet P (if b then m else m').
Proof. by destruct b. Qed.

Create HintDb quiet discriminated.
Hint Resolve quiet_ret quiet_on_db quiet_do_db quiet_SubRefund quiet_AddRefund quiet_if : quiet.
Hint Extern 0 True => exact I : quiet.

(** A charge that depends on the state. *)
Lemma quiet_dyn min const slack (d : Z -> X Z) :
  (forall f e, frame_ok f -> min <= zlen (stack f) -> inv (state e) -> CallGasTemp e = 0 ->
     wp (d 0) (fun s r => exists e', s = (f, e') /\ evm_step e e' /\ CallGasTemp e' = 0 /\
       match r with inl _ => True | inr gas => 0 <= gas /\ slack <= const + gas end) (f, e)) ->
  dyn_ok min false const slack no_credit d.
Proof.
  intros Hd f e w Hf Hmin Hi Ht Hw Hnm. rewrite (Hnm eq_refl). change (32 * 0) with 0. eapply wp_mono; [by apply Hd|].
  intros s r (e' & -> & Hs & Ht' & Hr). destruct r as [err|gas]; [by apply charged_err_id|]. destruct Hr. by apply charged_plain.
Qed.

Definition positive (gas : Z) : Prop := 1 <= gas.

Lemma net_metering_quiet init clean dirty clear reset_clear reset original current value :
  1 <= init -> 1 <= clean -> 1 <= dirty ->
  quiet positive (net_metering init clean dirty clear reset_clear reset original current value).
Proof.
  intros. unfold net_metering. repeat apply quiet_if; try (by apply quiet_ret);
    repeat (apply (quiet_bind (fun _ => True)); [auto 8 with quiet|intros _ _]); by apply quiet_ret.
Qed.

Lemma gasSStore_quiet env f :
  frame_ok f -> 2 <= zlen (stack f) -> forall e Q, inv (state e) ->
  (forall r e', match r with inl _ => True | inr gas => positive gas end -> evm_step e e' -> CallGasTemp e' = CallGasTemp e -> Q (f, e') r) ->
  wp (gasSStore env 0) Q (f, e).
Proof.
  intros Hf Hmin e Q Hi HQ. destruct (stack_at f 1 ltac:(lia)) as [y Hy]. destruct (stack_at f 0 ltac:(lia)) as [x Hx]. unfold gasSStore.
  apply wp_bind. eapply wp_back; [exact Hy|]. apply wp_bind. eapply wp_back; [exact Hx|]. wstep. wstep. apply wp_bind.
  apply (quiet_on_db _ _ (l_GetState _ _ (proj1 (fo_contract _ Hf)))); [done|]. intros current e1 _ Hs1 Ht1 Hi1.
  assert (Hq : forall m : X Z, quiet positive m -> wp m Q (f, e1)).
  { intros m Hm. apply Hm; [done|]. intros a e2 Ha Hs2 Ht2 _. apply (HQ (inr a)); [done|by eapply evm_step_trans|congruence]. }
  destruct (negb _ || _).
  - apply Hq. repeat apply quiet_if; try (by apply quiet_ret). apply (quiet_bind (fun _ => True)); [auto with quiet|]. intros _ _. by apply quiet_ret.
  - wstep. wstep. destruct (_ && _); [apply (HQ (inl ErrOutOfGas)); done|]. apply Hq. apply quiet_if; [by apply quiet_ret|].
    apply (quiet_bind (fun _ => True)); [apply quiet_on_db, l_GetCommittedState, Hf|]. intros original _. by apply net_metering_quiet.
Qed.

Lemma gasSStore_ok env : dyn_ok 2 false 0 1 no_credit (gasSStore env).
Proof.
  apply quiet_dyn. intros f e Hf Hmin Hi Ht. apply gasSStore_quiet; [done..|]. intros r e' Hr Hs Ht'. exists e'. unfold positive in Hr.
  split; [done|]. split; [done|]. split; [congruence|]. destruct r; [done|lia].
Qed.

Lemma gasSStoreEIP2200_ok : dyn_ok 2 false 0 1 no_credit gasSStoreEIP2200.
Proof.
  apply quiet_dyn. intros f e Hf Hmin Hi Ht. destruct (stack_at f 1 ltac:(lia)) as [y Hy]. destruct (stack_at f 0 ltac:(lia)) as [x Hx].
  unfold gasSStoreEIP2200. wstep. wstep. destruct (_ <=? _).
  { wstep. exists e. split; [done|]. split; [apply evm_step_refl|done]. }
  apply wp_bind. eapply wp_back; [exact Hy|]. apply wp_bind. eapply wp_back; [exact Hx|]. wstep. wstep.
  assert (Hq : quiet positive (current ← on_db (fun s => vs_GetState s (self (contract f)) (Bytes32 x));
    if hash_eq current (Bytes32 y) then mret SloadGasEIP2200
    else original ← on_db (fun s => vs_GetCommittedState s (self (contract f)) (Bytes32 x));
      net_metering SstoreSetGasEIP2200 SstoreResetGasEIP2200 SloadGasEIP2200 SstoreClearsScheduleRefundEIP2200
        (SstoreSetGasEIP2200 - SloadGasEIP2200) (SstoreResetGasEIP2200 - SloadGasEIP2200) original current (Bytes32 y) : X Z)).
  { apply (quiet_bind (fun _ => True)); [apply quiet_on_db, l_GetState, Hf|]. intros current _. apply quiet_if; [by apply quiet_ret|].
    apply (quiet_bind (fun _ => True)); [apply quiet_on_db, l_GetCommittedState, Hf|]. intros original _. by apply net_metering_quiet. }
  apply Hq; [done|]. intros gas e' Hg Hs Ht' _. exists e'. unfold positive in Hg. split; [done|]. split; [done|]. split; [congruence|lia].
Qed.

Lemma wp_back_bind {A B} n x (k : word -> X A) (k' : A -> X B) Q f e :
  stack f !! n = Some x -> wp ((x_back n ≫= k : X A) ≫= k' : X B) Q (f, e) <-> wp (k x ≫= k' : X B) Q (f, e).
Proof. intros Hx. unfold wp, mbind, X_bind, x_back, mbind, X_bind, get_frame, lift_go, Back. simpl. by rewrite Hx. Qed.

Lemma gasSelfdestruct_ok env : dyn_ok 1 false 0 0 no_credit (gasSelfdestruct env).
Proof.
  apply quiet_dyn. intros f e Hf Hmin Hi Ht. destruct (stack_at f 0 ltac:(lia)) as [x Hx]. pose proof (Bytes20_ok x) as Ha.
  pose proof (proj1 (fo_contract _ Hf)) as Hself. unfold gasSelfdestruct. wstep. wstep.
  set (rest := fun gas : Z => suicided ← on_db (fun s => vs_HasSuicided s (self (contract f)));
                              _ ← (if (suicided : bool) then mret () else db_AddRefund SelfdestructRefundGas); mret gas : X Z).
  assert (Hq : forall m : X Z, quiet (Z.le 0) m -> wp (m ≫= rest : X Z) (fun s r => exists e', s = (f, e') /\ evm_step e e' /\ CallGasTemp e' = 0 /\
       match r with inl _ => True | inr gas => 0 <= gas /\ 0 <= 0 + gas end) (f, e)).
  { intros m Hm. apply (quiet_bind (Z.le 0) (Z.le 0) m rest); [done| |done|].
    - intros gas Hg. apply (quiet_bind (fun _ => True)); [by apply quiet_on_db, l_HasSuicided|]. intros b _.
      apply (quiet_bind (fun _ => True)); [apply quiet_if; [by apply quiet_ret|apply quiet_AddRefund]|]. intros _ _. by apply quiet_ret.
    - intros gas e' Hg Hs Ht' _. exists e'. split; [done|]. split; [done|]. split; [congruence|lia]. }
  destruct (enabled env GetEIP150Transition); [|apply Hq; by apply quiet_ret].
  rewrite (wp_back_bind 0 x) by done. apply Hq. cbv beta iota zeta.
  apply quiet_if; (apply (quiet_bind (fun _ => True)); [apply quiet_on_db; first [by apply l_Empty|by apply l_Exist]|intros b _]).
  - apply quiet_if; [|by apply quiet_ret]. apply (quiet_bind (fun _ => True)); [by apply quiet_on_db, l_GetBalance|]. intros bal _.
    apply quiet_ret. unfold SelfdestructGasEIP150, CreateBySelfdestructGas. case_match; lia.
  - apply quiet_ret. unfold SelfdestructGasEIP150, CreateBySelfdestructGas. destruct b; lia.
Qed.
End gas.
