(* ===== verification/VmOps.v ===== *)
(** * The instructions of the machine (src/core/vm/instructions.go)

    Every instruction, run on operands that the tables allow and with the
    memory its operands name, ends without a panic, keeps the invariant of the
    frame, and hands on no more gas than its gas function covered. *)
From stdpp Require Import prelude list gmap.
From Stdlib Require Import ZArith Lia.
From S2P Require Import Prelude RlpEncode TrieEncoding Trie TrieNode TrieHash VmBase VmCode Vm VmWp.

Section posts.
Context {U : Uint256} {K : Keccak} {S : Type} {VS : VMState S} {VL : VMLaws S}.
Abbreviation evm := (evm (S := S)).
Abbreviation X := (X (S := S)).
Implicit Types (f : frame) (e : evm).

(** ** Instructions *)

(** What the calls of an instruction promise, for less than [n] gas. *)
Definition output_ok (o : output) : Prop := match o with Fresh b => is_slice b | SameInput => True end.
Definition call_post (gas : Z) e (e' : evm) (r : output * Z * option vm_error) : Prop :=
  evm_step e e' /\ 0 <= r.1.2 <= gas /\ output_ok r.1.1.
Definition create_post (gas : Z) e (e' : evm) (r : list Z * address_t * Z * option vm_error) : Prop :=
  evm_step e e' /\ 0 <= r.1.2 <= gas /\ is_slice r.1.1.1.

Record calls_ok (n : Z) (calls : Calls (S := S)) : Prop := {
  co_Call c addr args gas val e : is_addr (self c) -> is_addr addr -> is_slice args -> 0 <= gas < n -> inv (state e) ->
    wp (c_Call calls c addr args gas val) (call_post gas e) e;
  co_CallCode c addr args gas val e : is_addr (self c) -> is_addr addr -> is_slice args -> 0 <= gas < n -> inv (state e) ->
    wp (c_CallCode calls c addr args gas val) (call_post gas e) e;
  co_DelegateCall c addr args gas e : is_addr (self c) -> is_addr addr -> is_slice args -> 0 <= gas < n -> inv (state e) ->
    wp (c_DelegateCall calls c addr args gas) (call_post gas e) e;
  co_StaticCall c addr args gas e : is_addr (self c) -> is_addr addr -> is_slice args -> 0 <= gas < n -> inv (state e) ->
    wp (c_StaticCall calls c addr args gas) (call_post gas e) e;
  co_Create c code gas val e : is_addr (self c) -> is_slice code -> 0 <= gas < n -> inv (state e) ->
    wp (c_Create calls c code gas val) (create_post gas e) e;
  co_Create2 c code gas val salt e : is_addr (self c) -> is_slice code -> 0 <= gas < n -> inv (state e) ->
    wp (c_Create2 calls c code gas val salt) (create_post gas e) e;
}.

(** The memory holds the regions that the operands name. *)
Definition sized (size : option (list word -> go (Z * bool))) f : Prop :=
  match size with None => True | Some size => exists sz, size (stack f) = Ok (sz, false) /\ sz <= Len (mem f) end.

Definition exec_post (credit : Z) f e (s : frame * evm) (r : vm_error + list Z) : Prop :=
  exists f' e', s = (f', e') /\ evm_step e e' /\ 0 <= Gas (contract f') <= Gas (contract f) + credit /\
    match r with inl _ => True | inr ret => is_slice ret /\ frame_ok f' end.

Definition exec_ok (min max : Z) (size : option (list word -> go (Z * bool))) (credit : list word -> Z -> Z) (ex : Calls -> X (list Z)) : Prop :=
  forall n calls f e, calls_ok n calls -> frame_ok f -> min <= zlen (stack f) <= max -> inv (state e) -> sized size f ->
    0 <= CallGasTemp e -> 0 <= credit (stack f) (CallGasTemp e) -> credit = no_credit \/ credit (stack f) (CallGasTemp e) < n ->
    Gas (contract f) + credit (stack f) (CallGasTemp e) < 2 ^ 64 ->
    wp (ex calls) (exec_post (credit (stack f) (CallGasTemp e)) f e) (f, e).

(** Contracts that differ in caches and gas at most. *)
Definition alike (c c' : Contract) : Prop := self c' = self c /\ Code c' = Code c /\ Input c' = Input c.

Lemma exec_done credit f e f' e' ret :
  frame_ok f -> evm_step e e' -> mem_ok (mem f') -> zlen (stack f') <= StackLimit -> alike (contract f) (contract f') ->
  0 <= Gas (contract f') <= Gas (contract f) + credit -> Gas (contract f) + credit < 2 ^ 64 -> 0 <= pc f' -> Forall (Z.le 0) (rstack f') ->
  is_slice ret -> exec_post credit f e (f', e') (inr ret).
Proof.
  intros [? ? (? & ? & ? & ?) ? ?] Hs Hm Hst (E1 & E2 & E3) Hg Hc Hpc Hr Hret. exists f', e'. split_and!; try done; try lia.
  split; try done. unfold contract_good. rewrite E1, E2, E3. split_and!; try done; lia.
Qed.

(** The common case: the stack is replaced, and perhaps the state. *)
Lemma exec_stack f e e' st' ret :
  frame_ok f -> evm_step e e' -> zlen st' <= StackLimit -> is_slice ret -> exec_post 0 f e (with_stack f st', e') (inr ret).
Proof.
  intros Hf Hs Hst Hret. pose proof Hf as [? ? (? & ? & ? & ?) ? ?]. apply exec_done; simpl; try done; lia.
Qed.

Lemma exec_mem f e e' st' m' ret :
  frame_ok f -> evm_step e e' -> mem_ok m' -> zlen st' <= StackLimit -> is_slice ret -> exec_post 0 f e (with_mem (with_stack f st') m', e') (inr ret).
Proof.
  intros Hf Hs Hm Hst Hret. pose proof Hf as [? ? (? & ? & ? & ?) ? ?]. apply exec_done; simpl; try done; lia.
Qed.

Lemma exec_err credit f e f' e' err :
  evm_step e e' -> 0 <= Gas (contract f') <= Gas (contract f) + credit -> exec_post credit f e (f', e') (inl err).
Proof. intros. by exists f', e'. Qed.

Lemma is_slice_nil : is_slice [].
Proof. unfold is_slice. by vm_compute. Qed.

Lemma Bytes20_addr w : is_addr (Bytes20 w).
Proof. destruct (Bytes20_ok w) as [H1 H2]. split; [exact H1|exact H2]. Qed.

Lemma sized_at i j f o l : sized (Some (fun st => mem_at st i j)) f -> stack f !! i = Some o -> stack f !! j = Some l -> fits (mem f) o l.
Proof.
  intros (sz & Hsz & Hle) Ho Hl. unfold mem_at, Back in Hsz. rewrite Ho in Hsz. simpl in Hsz. rewrite Hl in Hsz. simpl in Hsz.
  injection Hsz as Hsz. by apply (calcMemSize64_fits _ _ sz).
Qed.
End posts.

Ltac depth_lia := cbn [with_stack with_mem with_pc with_rstack with_contract with_steps stack]; repeat rewrite zlen_cons in *; unfold max_stack, min_stack, StackLimit in *; lia.
(** The parts of a frame, and the words on its stack. *)
Ltac exec_intros :=
  intros n calls [p m st rs c ks] e Hcalls Hf Hlen Hi Hsz Ht Hcr Hn Hgas; pose proof Hf as [Hm Hst Hc Hp Hrs];
  cbn [stack mem contract pc rstack steps] in *; pose proof Hc as (Hself & Hcode & Hinput & Hg); unfold no_credit in *.
Ltac operand x :=
  match goal with Hl : min_stack _ _ <= zlen ?l <= _, Hsz : sized _ ?f |- context [MkFrame _ _ ?l _ _ _] =>
    let rec last l k := lazymatch l with _ :: ?l => last l k | ?s => k s end in
    last l ltac:(fun s => destruct s as [|x s]; [exfalso; revert Hl; unfold min_stack, zlen; cbn [length]; lia|])
  end.
Ltac later_steps := repeat first [apply evm_step_refl | apply evm_step_state; assumption | eapply evm_step_trans; [|apply evm_step_state; eassumption]].
(** The end of an instruction: what it does not touch stays. *)
Ltac exec_end := apply exec_done; cbn [with_stack with_mem with_pc with_rstack with_contract with_steps stack mem contract pc rstack steps]; try assumption;
  try (apply is_slice_nil); try lia; try depth_lia; try later_steps; try by (split; [reflexivity|split; reflexivity]).

(** A read of the state by a law [L]. *)
Ltac read_db L a s' := eapply wp_on_db; [apply L; try assumption; apply Bytes20_addr|try assumption|]; intros a s' ? ? ?; cbv beta iota.
Ltac change_db L s' := eapply wp_do_db; [apply L; try assumption; apply Bytes20_addr|try assumption|]; intros s' ? ?; cbv beta iota.

Ltac region := match goal with H : sized (Some _) ?f |- fits _ ?o ?l => first [exact (sized_at _ _ f o l H eq_refl eq_refl)] end.

Section instructions.
Context {U : Uint256} {K : Keccak} {S : Type} {VS : VMState S} {VL : VMLaws S}.
Abbreviation evm := (evm (S := S)).
Abbreviation X := (X (S := S)).
Implicit Types (f : frame) (e : evm).
Abbreviation later := (later_than inv since).

Lemma binary_ok g : exec_ok (min_stack 2 1) (max_stack 2 1) None no_credit (fun _ => binary g).
Proof. exec_intros. operand x. operand y. unfold binary. wsteps. exec_end. Qed.
Lemma unary_ok g : exec_ok (min_stack 1 1) (max_stack 1 1) None no_credit (fun _ => unary g).
Proof. exec_intros. operand x. unfold unary. wsteps. exec_end. Qed.
Lemma ternary_ok g : exec_ok (min_stack 3 1) (max_stack 3 1) None no_credit
  (fun _ => x ← x_pop; y ← x_pop; z ← x_peek; _ ← x_set (g x y z); mret []).
Proof. exec_intros. operand x. operand y. operand z. wsteps. exec_end. Qed.
Lemma pushed_ok w : exec_ok (min_stack 0 1) (max_stack 0 1) None no_credit (fun _ => pushed w).
Proof. exec_intros. unfold pushed. wsteps. exec_end. Qed.
Lemma pushed_frame_ok g : exec_ok (min_stack 0 1) (max_stack 0 1) None no_credit (fun _ => f ← get_frame; pushed (g f)).
Proof. exec_intros. unfold pushed. wsteps. exec_end. Qed.
Lemma pushed_evm_ok g : exec_ok (min_stack 0 1) (max_stack 0 1) None no_credit (fun _ => e ← get_evm; pushed (g e)).
Proof. exec_intros. unfold pushed. wsteps. exec_end. Qed.
Lemma opAddress_ok : exec_ok (min_stack 0 1) (max_stack 0 1) None no_credit (fun _ => opAddress).
Proof. exec_intros. unfold opAddress, pushed. wsteps. exec_end. Qed.
Lemma opPop_ok : exec_ok (min_stack 1 0) (max_stack 1 0) None no_credit (fun _ => opPop).
Proof. exec_intros. operand x. unfold opPop. wsteps. exec_end. Qed.
Lemma nothing_ok : exec_ok (min_stack 0 0) (max_stack 0 0) None no_credit (fun _ => mret []).
Proof. exec_intros. wsteps. exec_end. Qed.
Lemma opBeginSub_ok : exec_ok (min_stack 0 0) (max_stack 0 0) None no_credit (fun _ => opBeginSub).
Proof. exec_intros. apply wp_throw, exec_err; [apply evm_step_refl|simpl; lia]. Qed.

(** *** State *)


Lemma opBalance_ok : exec_ok (min_stack 1 1) (max_stack 1 1) None no_credit (fun _ => opBalance).
Proof. exec_intros. operand x. unfold opBalance. wsteps. read_db l_GetBalance b s1. wsteps. exec_end. Qed.
Lemma opExtCodeSize_ok : exec_ok (min_stack 1 1) (max_stack 1 1) None no_credit (fun _ => opExtCodeSize).
Proof. exec_intros. operand x. unfold opExtCodeSize. wsteps. read_db l_GetCodeSize b s1. wsteps. exec_end. Qed.
Lemma opExtCodeHash_ok : exec_ok (min_stack 1 1) (max_stack 1 1) None no_credit (fun _ => opExtCodeHash).
Proof.
  exec_intros. operand x. unfold opExtCodeHash. wsteps. read_db l_Empty b s1. destruct b; wsteps; [exec_end|].
  read_db l_GetCodeHash h s2. wsteps. exec_end.
Qed.
Lemma opSload_ok : exec_ok (min_stack 1 1) (max_stack 1 1) None no_credit (fun _ => opSload).
Proof. exec_intros. operand x. unfold opSload. wsteps. read_db l_GetState v s1. wsteps. exec_end. Qed.
Lemma opSstore_ok : exec_ok (min_stack 2 0) (max_stack 2 0) None no_credit (fun _ => opSstore).
Proof. exec_intros. operand x. operand y. unfold opSstore. wsteps. change_db l_SetState s1. wsteps. exec_end. Qed.
Lemma opSelfBalance_ok : exec_ok (min_stack 0 1) (max_stack 0 1) None no_credit (fun _ => opSelfBalance).
Proof. exec_intros. unfold opSelfBalance. wsteps. read_db l_GetBalance v s1. unfold pushed. wsteps. exec_end. Qed.
Lemma opSuicide_ok : exec_ok (min_stack 1 0) (max_stack 1 0) None no_credit (fun _ => opSuicide).
Proof.
  exec_intros. operand x. unfold opSuicide. wsteps. read_db l_GetBalance v s1. wsteps. change_db l_AddBalance s2. wsteps.
  read_db l_Suicide b s3. wsteps. exec_end.
Qed.
Lemma opBlockhash_ok env : exec_ok (min_stack 1 1) (max_stack 1 1) None no_credit (fun _ => opBlockhash env).
Proof. exec_intros. operand x. unfold opBlockhash, Uint64WithOverflow. wsteps. exec_end. Qed.

(** *** Data *)

Lemma getData_ok data start size :
  is_slice data -> 0 <= start -> 0 <= size <= max_alloc -> exists b, getData data start size = Ok b.
Proof. intros. eexists. by apply getData_spec. Qed.

Lemma opCallDataLoad_ok : exec_ok (min_stack 1 1) (max_stack 1 1) None no_credit (fun _ => opCallDataLoad).
Proof.
  exec_intros. operand x. unfold opCallDataLoad, Uint64WithOverflow. wsteps. destruct (negb (IsUint64 x)); wsteps; [exec_end|].
  destruct (getData_ok (Input c) (Uint64 x) 32) as [b Hb]; [done|apply Uint64_range|done|]. eapply wp_lift_go; [exact Hb|]. wsteps. exec_end.
Qed.


Lemma sized_two i j i' j' f o l o' l' :
  sized (Some (fun st => mem_two st i j i' j')) f -> stack f !! i = Some o -> stack f !! j = Some l -> stack f !! i' = Some o' -> stack f !! j' = Some l' ->
  fits (mem f) o l /\ fits (mem f) o' l'.
Proof.
  intros (sz & Hsz & Hle) Ho Hl Ho' Hl'. unfold mem_two, mem_at, Back in Hsz. rewrite Ho in Hsz. simpl in Hsz. rewrite Hl, Ho', Hl' in Hsz.
  simpl in Hsz. destruct (calcMemSize64 o l) as [x []] eqn:Ex; [done|]. destruct (calcMemSize64 o' l') as [y []] eqn:Ey; [done|].
  assert (x <= sz /\ y <= sz) by (rewrite Z.gtb_ltb in Hsz; destruct (Z.ltb_spec y x); injection Hsz as <-; lia).
  split; [apply (calcMemSize64_fits _ _ x)|apply (calcMemSize64_fits _ _ y)]; try done; lia.
Qed.

Lemma sized_fixed i k f o : 0 < k < 2 ^ 64 -> sized (Some (fun st => mem_fixed st i k)) f -> stack f !! i = Some o -> ToBig o + k <= Len (mem f).
Proof.
  intros Hk (sz & Hsz & Hle) Ho. unfold mem_fixed, Back in Hsz. rewrite Ho in Hsz. simpl in Hsz. injection Hsz as Hsz.
  apply calcMemSize64WithUint_spec in Hsz as [[? _]|[? _]]; lia.
Qed.

Lemma fits_slice m o l b : mem_ok m -> fits m o l -> zlen b = ToBig l -> is_slice b.
Proof.
  intros Hm Hf Hb. unfold is_slice. destruct (Z.eq_dec (ToBig l) 0); [lia|]. destruct (fits_range m o l Hm Hf) as (? & ? & ? & ?); [done|lia].
Qed.

Lemma wp_ptr o l Q f e : mem_ok (mem f) -> fits (mem f) o l -> (forall b, is_slice b -> Q (f, e) (inr b)) -> wp (ptr o l) Q (f, e).
Proof.
  intros Hm Hf HQ. destruct (GetPtr_fits _ _ _ Hm Hf) as (b & Hb & Hl). eapply wp_read; [exact Hb|]. by eapply HQ, fits_slice.
Qed.
Lemma wp_copy_of o l Q f e : mem_ok (mem f) -> fits (mem f) o l -> (forall b, is_slice b -> Q (f, e) (inr b)) -> wp (copy_of o l) Q (f, e).
Proof.
  intros Hm Hf HQ. destruct (GetCopy_fits _ _ _ Hm Hf) as (b & Hb & Hl). eapply wp_read; [exact Hb|]. by eapply HQ, fits_slice.
Qed.
Lemma wp_mem_Set o l v Q f e :
  mem_ok (mem f) -> fits (mem f) o l -> (forall m', mem_ok m' -> written (mem f) m' -> Q (with_mem f m', e) (inr ())) ->
  wp (x_mem (fun m => mem_Set m (Uint64 o) (Uint64 l) v)) Q (f, e).
Proof.
  intros Hm Hf HQ. destruct (mem_Set_fits (mem f) o l v Hm Hf) as (m' & Hs & Hw). eapply wp_mem; [exact Hs|]. apply HQ; [|done]. by eapply written_ok.
Qed.

Lemma fits_Uint64 m o l : mem_ok m -> fits m o l -> 0 <= Uint64 l <= max_alloc.
Proof.
  intros Hm Hf. destruct (Z.eq_dec (ToBig l) 0) as [E|E]; [by rewrite (fits_zero o l m Hf E)|].
  destruct (fits_range m o l Hm Hf E) as (? & ? & ? & ?). unfold max_alloc. rewrite Uint64_small; lia.
Qed.

Lemma wp_copy_data data mo po l Q f e :
  is_slice data -> mem_ok (mem f) -> fits (mem f) mo l -> (forall m', mem_ok m' -> Q (with_mem f m', e) (inr [])) ->
  wp (copy_data data mo po l) Q (f, e).
Proof.
  intros Hd Hm Hf HQ. unfold copy_data, Uint64WithOverflow. cbv zeta.
  destruct (getData_ok data (if negb (IsUint64 po) then MaxUint64 else Uint64 po) (Uint64 l)) as [b Hb]; [done| |by eapply fits_Uint64|].
  { destruct (negb _); [done|]. apply Uint64_range. }
  apply wp_bind. eapply wp_lift_go; [exact Hb|]. apply wp_bind, wp_mem_Set; [done..|]. intros m' Hm' _. by apply wp_ret, HQ.
Qed.

Lemma opSha3_ok env : exec_ok (min_stack 2 1) (max_stack 2 1) (Some memorySha3) no_credit (fun _ => opSha3 env).
Proof.
  exec_intros. operand x. operand y. unfold opSha3. wsteps. apply wp_ptr; [done|region|]. intros b Hb. wsteps.
  destruct (EnablePreimageRecording env); [change_db l_AddPreimage s1|]; wsteps; exec_end.
Qed.
Lemma opCallDataCopy_ok : exec_ok (min_stack 3 0) (max_stack 3 0) (Some memoryCallDataCopy) no_credit (fun _ => opCallDataCopy).
Proof.
  exec_intros. operand x. operand y. operand z. unfold opCallDataCopy. wsteps. apply wp_copy_data; [done..|region|]. intros m' Hm'. exec_end.
Qed.
Lemma opCodeCopy_ok : exec_ok (min_stack 3 0) (max_stack 3 0) (Some memoryCodeCopy) no_credit (fun _ => opCodeCopy).
Proof.
  exec_intros. operand x. operand y. operand z. unfold opCodeCopy. wsteps. apply wp_copy_data; [done..|region|]. intros m' Hm'. exec_end.
Qed.
Lemma opExtCodeCopy_ok : exec_ok (min_stack 4 0) (max_stack 4 0) (Some memoryExtCodeCopy) no_credit (fun _ => opExtCodeCopy).
Proof.
  exec_intros. operand w. operand x. operand y. operand z. unfold opExtCodeCopy. wsteps. read_db l_GetCode b s1.
  apply wp_copy_data; [done..|region|]. intros m' Hm'. exec_end.
Qed.

Lemma slice_in b i j : 0 <= i <= j -> j <= zlen b -> exists d, @slice Empty_set Z b i j = Ok d.
Proof. intros. rewrite slice_ok by done. by eexists. Qed.

Lemma opReturnDataCopy_ok : exec_ok (min_stack 3 0) (max_stack 3 0) (Some memoryReturnDataCopy) no_credit (fun _ => opReturnDataCopy).
Proof.
  exec_intros. operand x. operand y. operand z. assert (Hfit : fits m x z) by region. unfold opReturnDataCopy, Uint64WithOverflow. wsteps.
  rewrite !IsUint64_value. destruct (Z.ltb_spec (ToBig y) (2 ^ 64)) as [Hy|Hy]; cbn [negb]; wsteps; [|apply exec_err; [later_steps|simpl; lia]].
  destruct (_ || _) eqn:Eo; wsteps; [apply exec_err; [later_steps|simpl; lia]|].
  apply orb_false_elim in Eo as [E1 E2]. apply negb_false_iff, Z.ltb_lt in E1. apply Z.ltb_ge in E2.
  pose proof (ToBig_range y). pose proof (ToBig_range z). rewrite (Uint64_small (w_Add y z)) in * by done. rewrite (Uint64_small y) by done.
  assert (Hadd : ToBig (w_Add y z) = ToBig y + ToBig z).
  { rewrite Add_value. apply Z.mod_small. destruct (Z.eq_dec (ToBig z) 0); [lia|]. destruct (fits_range m x z Hm Hfit) as (? & ? & ? & ?); [done|lia]. }
  rewrite Hadd in *. destruct (slice_in (returnData e) (ToBig y) (ToBig y + ToBig z)) as [d Hd]; [lia..|].
  eapply wp_lift_go; [exact Hd|]. wsteps. apply wp_mem_Set; [done..|]. intros m' Hm' _. wsteps. exec_end.
Qed.

(** *** Memory *)

Lemma mem_ok_Len m : mem_ok m -> 0 <= Len m < 2 ^ 38.
Proof. intros (w & ? & ? & ? & ?). unfold mem_limit in *. lia. Qed.

Lemma GetPtr_32 m o : mem_ok m -> ToBig o + 32 <= Len m -> exists b, GetPtr m (int64 (Uint64 o)) 32 = Ok b.
Proof.
  intros Hm Hl. apply mem_ok_Len in Hm. pose proof (ToBig_range o). unfold GetPtr. rewrite Uint64_small, int64_small by lia.
  rewrite Z.gtb_ltb, (proj2 (Z.ltb_lt _ _)) by lia. simpl. apply slice_in; unfold Len in *; lia.
Qed.

Lemma opMload_ok : exec_ok (min_stack 1 1) (max_stack 1 1) (Some memoryMLoad) no_credit (fun _ => opMload).
Proof.
  exec_intros. operand x. assert (Hx : ToBig x + 32 <= Len m) by (apply (sized_fixed 0 32 _ x ltac:(lia) Hsz eq_refl)).
  destruct (GetPtr_32 m x Hm Hx) as [b Hb]. unfold opMload. wsteps. eapply wp_read; [exact Hb|]. wsteps. exec_end.
Qed.
Lemma opMstore_ok : exec_ok (min_stack 2 0) (max_stack 2 0) (Some memoryMStore) no_credit (fun _ => opMstore).
Proof.
  exec_intros. operand x. operand y. assert (Hx : ToBig x + 32 <= Len m) by (apply (sized_fixed 0 32 _ x ltac:(lia) Hsz eq_refl)).
  destruct (Set32_fits m x y Hm Hx) as (m' & Hs & Hw). unfold opMstore. wsteps. eapply wp_mem; [exact Hs|]. wsteps.
  assert (mem_ok m') by (by eapply written_ok). exec_end.
Qed.
Lemma opMstore8_ok : exec_ok (min_stack 2 0) (max_stack 2 0) (Some memoryMStore8) no_credit (fun _ => opMstore8).
Proof.
  exec_intros. operand x. operand y. assert (Hx : ToBig x + 1 <= Len m) by (apply (sized_fixed 0 1 _ x ltac:(lia) Hsz eq_refl)).
  pose proof (mem_ok_Len _ Hm). pose proof (ToBig_range x). unfold opMstore8. wsteps. rewrite Uint64_small by lia.
  eapply wp_mem. { unfold upd. unfold Len in *. cbn [mem with_stack]. rewrite (proj2 (Z.leb_le _ _)), (proj2 (Z.ltb_lt _ _)) by lia. reflexivity. }
  wsteps. assert (mem_ok (MkMemory (<[Z.to_nat (ToBig x):=u8 (Uint64 y)]> (mem_store m)) (lastGasCost m))).
  { eapply written_ok; [exact Hm|]. split; [|done]. unfold Len, zlen. simpl. by rewrite length_insert. }
  exec_end.
Qed.

Lemma opReturn_ok : exec_ok (min_stack 2 0) (max_stack 2 0) (Some memoryReturn) no_credit (fun _ => opReturn).
Proof. exec_intros. operand x. operand y. unfold opReturn. wsteps. apply wp_ptr; [done|region|]. intros b Hb. exec_end. Qed.
Lemma opRevert_ok : exec_ok (min_stack 2 0) (max_stack 2 0) (Some memoryRevert) no_credit (fun _ => opRevert).
Proof. exec_intros. operand x. operand y. unfold opRevert. wsteps. apply wp_ptr; [done|region|]. intros b Hb. exec_end. Qed.

Lemma wp_pop_topics k st st' Q p m rs c n e :
  length st = k -> (forall ts, Q (MkFrame p m st' rs c n, e) (inr ts)) -> wp (pop_topics k) Q (MkFrame p m (st ++ st') rs c n, e).
Proof.
  revert st Q. induction k as [|k IH]; intros [|x st] Q Hk HQ; try done; [apply HQ|]. cbn [pop_topics]. apply wp_bind. eapply wp_pop; [reflexivity|].
  apply wp_bind. injection Hk as Hk. apply IH; [done|]. intros ts. apply wp_ret, HQ.
Qed.

Lemma makeLog_ok env k : exec_ok (min_stack (Z.of_nat k + 2) 0) (max_stack (Z.of_nat k + 2) 0) (Some memoryLog) no_credit (fun _ => makeLog env k).
Proof.
  exec_intros. destruct st as [|x [|y st]]; [exfalso; revert Hlen; unfold min_stack, zlen; cbn [length]; lia..|].
  assert (Hk : (k <= length st)%nat) by (revert Hlen; unfold min_stack, zlen; cbn [length]; lia).
  assert (exists st1 st2, st = st1 ++ st2 /\ length st1 = k) as (st1 & st2 & -> & Hl)
    by (exists (take k st), (drop k st); rewrite take_drop, length_take; split; [done|lia]).
  unfold makeLog. wsteps. apply wp_pop_topics; [done|]. intros ts. wsteps. apply wp_copy_of; [done|region|]. intros b Hb. wsteps.
  change_db l_AddLog s1. wsteps. exec_end. rewrite !zlen_cons, zlen_app in Hst. pose proof (zlen_nonneg st1). unfold StackLimit in *. lia.
Qed.

(** *** Jumps *)

Lemma isCode_same jd c pos b jd' c' : isCode jd c pos = Ok (b, jd', c') -> same_contract c c'.
Proof.
  unfold isCode, same_contract. intros H. destruct (analysis c); [by outcome_inv H|]. destruct (decide _); [by outcome_inv H|].
  destruct (jd !! con_CodeHash c); by outcome_inv H.
Qed.
Lemma validJumpdest_same jd c dest b jd' c' : validJumpdest jd c dest = Ok (b, jd', c') -> same_contract c c'.
Proof.
  unfold validJumpdest, Uint64WithOverflow. intros H. destruct (_ || _); [by injection H as <- <- <-|]. outcome_inv H.
  destruct (negb _); [by simplify_eq|]. by eapply isCode_same.
Qed.
Lemma validJumpSubdest_same jd c dest b jd' c' : validJumpSubdest jd c dest = Ok (b, jd', c') -> same_contract c c'.
Proof.
  unfold validJumpSubdest. intros H. destruct (_ || _); [by injection H as <- <- <-|]. outcome_inv H.
  destruct (negb _); [by simplify_eq|]. by eapply isCode_same.
Qed.

Lemma evm_step_jd e e' j : evm_step e e' -> evm_step e (with_jd e' j).
Proof. done. Qed.

Lemma wp_check_dest test Q f e :
  (forall j c b j' c', test j c = Ok (b, j', c') -> same_contract c c') ->
  (forall j c, short_analysis j c = false -> test j c <> Panic) ->
  (forall b j c', same_contract (contract f) c' -> Q (with_contract f c', with_jd e j) (inr b)) -> wp (check_dest test) Q (f, e).
Proof.
  intros Ht Hp HQ. unfold wp, check_dest. cbn [fst snd]. destruct (test (jd e) (contract f)) as [[[b j] c']|[]|] eqn:E; [eapply HQ, Ht, E|].
  destruct (short_analysis _ _) eqn:Hs; [done|]. by apply (Hp _ _ Hs).
Qed.

(** The end of a jump. *)
Lemma exec_jump f e e' p' st' rs' c' :
  frame_ok f -> evm_step e e' -> same_contract (contract f) c' -> 0 <= p' -> zlen st' <= StackLimit -> Forall (Z.le 0) rs' ->
  exec_post 0 f e (MkFrame p' (mem f) st' rs' c' (steps f), e') (inr []).
Proof.
  intros Hf Hs (_ & ? & ? & _ & ? & Hgas & _) Hp Hst Hr. pose proof Hf as [? ? (? & ? & ? & ?) ? ?].
  apply exec_done; cbn [stack mem contract pc rstack steps]; try done; [rewrite Hgas; lia|lia].
Qed.

Lemma opJump_ok : exec_ok (min_stack 1 0) (max_stack 1 0) None no_credit (fun _ => opJump).
Proof.
  exec_intros. operand x. unfold opJump. wsteps. apply wp_check_dest; [intros *; apply validJumpdest_same|intros *; apply validJumpdest_total|]. intros b j c' Hsame.
  destruct b; unfold jump_to; wsteps.
  - apply (exec_jump (MkFrame p m (x :: st) rs c ks)); try done; [apply Uint64_range|depth_lia].
  - apply exec_err; [apply evm_step_jd, evm_step_refl|]. destruct Hsame as (_ & _ & _ & _ & _ & Hgc & _). simpl in *. lia.
Qed.
Lemma opJumpi_ok : exec_ok (min_stack 2 0) (max_stack 2 0) None no_credit (fun _ => opJumpi).
Proof.
  exec_intros. operand x. operand y. unfold opJumpi. wsteps. destruct (IsZero y).
  { unfold jump_to. wsteps. pose proof (u64_range (p + 1)). exec_end. }
  wsteps. apply wp_check_dest; [intros *; apply validJumpdest_same|intros *; apply validJumpdest_total|]. intros b j c' Hsame. destruct b; unfold jump_to; wsteps.
  - apply (exec_jump (MkFrame p m (x :: y :: st) rs c ks)); try done; [apply Uint64_range|depth_lia].
  - apply exec_err; [apply evm_step_jd, evm_step_refl|]. destruct Hsame as (_ & _ & _ & _ & _ & Hgc & _). simpl in *. lia.
Qed.
Lemma opJumpSub_ok : exec_ok (min_stack 1 0) (max_stack 1 0) None no_credit (fun _ => opJumpSub).
Proof.
  exec_intros. operand x. unfold opJumpSub. wsteps. destruct (_ >=? _); wsteps; [apply exec_err; [apply evm_step_refl|simpl; lia]|].
  destruct (negb _); wsteps; [apply exec_err; [apply evm_step_refl|simpl; lia]|].
  apply wp_check_dest; [intros *; apply validJumpSubdest_same|intros *; apply validJumpSubdest_total, Uint64_range|]. intros b j c' Hsame. destruct b; wsteps.
  - apply (exec_jump (MkFrame p m (x :: st) rs c ks)); try done; [apply u64_range|depth_lia|]. constructor; [|done]. unfold u32. by apply Z.mod_pos_bound.
  - apply exec_err; [apply evm_step_jd, evm_step_refl|]. destruct Hsame as (_ & _ & _ & _ & _ & Hgc & _). simpl in *. lia.
Qed.
Lemma opReturnSub_ok : exec_ok (min_stack 0 0) (max_stack 0 0) None no_credit (fun _ => opReturnSub).
Proof.
  exec_intros. unfold opReturnSub. wsteps. destruct rs as [|r rs]; wsteps; [apply exec_err; [apply evm_step_refl|simpl; lia]|].
  inversion_clear Hrs. pose proof (u64_range (r + 1)). exec_end.
Qed.

(** *** Pushes, copies and swaps *)

Lemma opPush1_ok : exec_ok (min_stack 0 1) (max_stack 0 1) None no_credit (fun _ => opPush1).
Proof.
  exec_intros. unfold opPush1, pushed. wsteps. pose proof (u64_range (p + 1)). destruct (Z.ltb_spec (u64 (p + 1)) (zlen (Code c))); wsteps; [|exec_end].
  destruct (idx_in_range (E := Empty_set) (Code c) (u64 (p + 1))) as [b Hb]; [lia|]. eapply wp_lift_go; [exact Hb|]. wsteps. exec_end.
Qed.
Lemma makePush_ok a b : 0 <= b <= max_alloc -> exec_ok (min_stack 0 1) (max_stack 0 1) None no_credit (fun _ => makePush a b).
Proof.
  intros Hb. exec_intros. unfold makePush. wsteps. pose proof (u64_range (p + 1)). pose proof (u64_range (p + a)).
  set (i := if u64 (p + 1) <? _ then _ else _). set (j := if i + b <? _ then _ else _). pose proof (zlen_nonneg (Code c)).
  assert (0 <= i <= zlen (Code c)) by (unfold i; destruct (Z.ltb_spec (u64 (p + 1)) (zlen (Code c))); lia).
  assert (i <= j <= zlen (Code c)) by (unfold j; destruct (Z.ltb_spec (i + b) (zlen (Code c))); lia).
  destruct (slice_in (Code c) i j) as [d Hd]; [lia..|]. eapply wp_lift_go; [exact Hd|]. wsteps.
  eapply wp_lift_go; [apply RightPadBytes_ok, Hb|]. wsteps. exec_end.
Qed.
Lemma makeDup_ok k : (0 < k)%nat -> exec_ok (min_stack (Z.of_nat k) (Z.of_nat k + 1)) (max_stack (Z.of_nat k) (Z.of_nat k + 1)) None no_credit (fun _ => makeDup k).
Proof.
  intros Hk. exec_intros. unfold makeDup, dup. wsteps. destruct (lookup_lt_is_Some_2 st (k - 1)) as [x Hx]; [revert Hlen; unfold min_stack, zlen; lia|].
  rewrite Hx. eapply wp_lift_go; [reflexivity|]. wsteps. exec_end. cbn [stack]. unfold push. depth_lia.
Qed.
Lemma makeSwap_ok k : exec_ok (min_stack (Z.of_nat k + 1) (Z.of_nat k + 1)) (max_stack (Z.of_nat k + 1) (Z.of_nat k + 1)) None no_credit (fun _ => makeSwap k).
Proof.
  exec_intros. unfold makeSwap, swap. wsteps. assert (Hk : (k < length st)%nat) by (revert Hlen; unfold min_stack, zlen; lia).
  destruct (lookup_lt_is_Some_2 st (k + 1 - 1)) as [x ->]; [lia|]. destruct (lookup_lt_is_Some_2 st 0) as [y ->]; [lia|].
  eapply wp_lift_go; [reflexivity|]. wsteps. exec_end. unfold zlen. rewrite !length_insert. done.
Qed.

(** *** Calls *)

Lemma wp_lift_st {A} (m : ST evm A) Q f e : wp m (fun e' a => Q (f, e') (inr a)) e -> wp (lift_st m) Q (f, e).
Proof. unfold wp, lift_st. simpl. destruct (m e) as [[? ?]|[]|]; auto. Qed.

Lemma wp_give_back g Q f e :
  0 <= Gas (contract f) + g < 2 ^ 64 -> Q (with_contract f (with_gas (contract f) (Gas (contract f) + g)), e) (inr ()) -> wp (give_back g) Q (f, e).
Proof. intros Hg HQ. unfold give_back. wsteps. by rewrite u64_small by done. Qed.

Lemma wp_deref out o l Q f e :
  mem_ok (mem f) -> fits (mem f) o l -> output_ok out -> (forall b, is_slice b -> Q (f, e) (inr b)) -> wp (deref out o l) Q (f, e).
Proof. intros Hm Hf Ho HQ. destruct out; [by apply wp_ret, HQ|by apply wp_ptr]. Qed.

Lemma written_fits m m' o l : written m m' -> fits m o l -> fits m' o l.
Proof. intros (Hl & _) Hf. unfold fits. by rewrite Hl. Qed.

Lemma wp_after_call f e e' f0 gas r io il ro rl :
  frame_ok f0 -> 0 <= Gas (contract f0) + gas < 2 ^ 64 -> mem f = mem f0 -> contract f = contract f0 -> rstack f = rstack f0 -> pc f = pc f0 ->
  zlen (stack f) < StackLimit -> call_post gas e e' r -> fits (mem f0) io il -> fits (mem f0) ro rl ->
  wp (after_call r io il ro rl) (exec_post gas f0 e) (f, e').
Proof.
  destruct f0 as [p0 m0 st0 rs0 c0 n0], f as [p m st rs c n]. cbn [stack mem contract pc rstack steps].
  intros Hf0 Hgas -> -> -> -> Hst (Hs & Hg & Hout) Hi Hr. destruct r as [[ret back] err]. simpl in Hg, Hout.
  pose proof Hf0 as [Hm _ (_ & _ & _ & Hgc) Hp Hrs]. cbn [stack mem contract pc rstack steps] in *. unfold after_call. wsteps.
  apply (wp_mono _ (fun s r => exists m', s = (MkFrame p0 m' ((match err with Some _ => w_Zero | None => w_One end) :: st) rs0 c0 n, e') /\ r = inr () /\ mem_ok m' /\ written m0 m')).
  - destruct (decide _); [|by apply wp_ret; exists m0].
    apply wp_bind, wp_deref; [done..|]. intros b _. apply wp_mem_Set; [done..|]. intros m' Hm' Hw. by exists m'.
  - intros ? ? (m' & -> & -> & Hm' & Hw). wsteps. apply wp_give_back; [cbn [contract]; lia|].
    cbn [with_contract mem pc stack rstack contract steps]. apply wp_deref; [done|by eapply written_fits|done|]. intros b Hb.
    apply exec_done; cbn [with_contract with_gas mem pc stack rstack contract steps Gas]; try done; [rewrite zlen_cons; lia|lia..].
Qed.

Lemma value_call_ok call :
  (forall n calls, calls_ok n calls -> forall c addr args gas val e, is_addr (self c) -> is_addr addr -> is_slice args -> 0 <= gas < n -> inv (state e) ->
    wp (call calls c addr args gas val) (call_post gas e) e) ->
  exec_ok (min_stack 7 1) (max_stack 7 1) (Some memoryCall) value_credit (fun calls => value_call (call calls)).
Proof.
  intros Hcall. exec_intros. destruct Hn as [E|Hn]; [by apply (f_equal (fun c => c [] 1)) in E|]. operand g. operand addr. operand v. operand io. operand il. operand ro. operand rl.
  assert (fits m ro rl /\ fits m io il) as [Hr Hin] by (apply (sized_two _ _ _ _ _ _ _ _ _ Hsz); reflexivity).
  unfold value_credit in *. cbn [lookup list_lookup nth] in *. unfold value_call. wsteps. apply wp_ptr; [done..|]. intros args Hargs. wsteps.
  apply wp_lift_st. set (gas := if IsZero v then _ else _).
  assert (Hgas' : gas = CallGasTemp e + (if IsZero v then 0 else CallStipend)) by (unfold gas, CallStipend in *; destruct (IsZero v); rewrite ?u64_small; lia).
  eapply wp_mono; [apply (Hcall n); [done|done|apply Bytes20_addr|done|rewrite Hgas'; done|done]|]. intros e' r Hpost. cbv beta iota.
  rewrite <- Hgas' in *. eapply wp_after_call; try done; [simpl; lia|]. depth_lia.
Qed.

Lemma plain_call_ok call :
  (forall n calls, calls_ok n calls -> forall c addr args gas e, is_addr (self c) -> is_addr addr -> is_slice args -> 0 <= gas < n -> inv (state e) ->
    wp (call calls c addr args gas) (call_post gas e) e) ->
  exec_ok (min_stack 6 1) (max_stack 6 1) (Some memoryDelegateCall) create_credit (fun calls => plain_call (call calls)).
Proof.
  intros Hcall. exec_intros. destruct Hn as [E|Hn]; [by apply (f_equal (fun c => c [] 1)) in E|]. operand g. operand addr. operand io. operand il. operand ro. operand rl.
  assert (fits m ro rl /\ fits m io il) as [Hr Hin] by (apply (sized_two _ _ _ _ _ _ _ _ _ Hsz); reflexivity).
  unfold create_credit in *. unfold plain_call. wsteps. apply wp_ptr; [done..|]. intros args Hargs. wsteps. apply wp_lift_st.
  eapply wp_mono; [apply (Hcall n); [done|done|apply Bytes20_addr|done..]|]. intros e' r Hpost. cbv beta iota.
  eapply wp_after_call; try done; [simpl; lia|]. depth_lia.
Qed.

Lemma exec_created f e e' gas ret st' w back :
  frame_ok f -> 0 <= Gas (contract f) + gas < 2 ^ 64 -> zlen st' < StackLimit -> evm_step e e' -> 0 <= back <= gas -> is_slice ret ->
  wp (_ ← x_push w; _ ← give_back back; mret ret : X (list Z)) (exec_post gas f e) (with_stack f st', e').
Proof.
  intros Hf Hgas Hst Hs Hb Hr. pose proof Hf as [? _ (_ & _ & _ & ?) ? ?]. wsteps. apply wp_give_back; [simpl; lia|]. wsteps.
  apply exec_done; cbn [with_stack with_contract with_gas mem pc stack rstack contract steps Gas]; try done; [rewrite zlen_cons; lia|lia..].
Qed.

Lemma opCreate_ok env : exec_ok (min_stack 3 1) (max_stack 3 1) (Some memoryCreate) create_credit (opCreate env).
Proof.
  exec_intros. destruct Hn as [E|Hn]; [by apply (f_equal (fun c => c [] 1)) in E|]. operand v. operand o. operand l. unfold opCreate, create_credit in *. wsteps. apply wp_copy_of; [done|region|]. intros b Hb. wsteps.
  apply wp_lift_st. eapply wp_mono; [by apply (co_Create n)|]. intros e' [[[res addr] back] err] (Hs & Hback & Hres). cbv beta iota zeta.
  apply (exec_created (MkFrame p m (v :: o :: l :: st) rs c ks) e e' (CallGasTemp e)); try done; [simpl; lia|depth_lia|]. by destruct (decide _).
Qed.
Lemma opCreate2_ok : exec_ok (min_stack 4 1) (max_stack 4 1) (Some memoryCreate2) create_credit opCreate2.
Proof.
  exec_intros. destruct Hn as [E|Hn]; [by apply (f_equal (fun c => c [] 1)) in E|]. operand v. operand o. operand l. operand salt. unfold opCreate2, create_credit in *. wsteps. apply wp_copy_of; [done|region|].
  intros b Hb. wsteps. apply wp_lift_st. eapply wp_mono; [by apply (co_Create2 n)|].
  intros e' [[[res addr] back] err] (Hs & Hback & Hres). cbv beta iota zeta.
  apply (exec_created (MkFrame p m (v :: o :: l :: salt :: st) rs c ks) e e' (CallGasTemp e)); try done; [simpl; lia|depth_lia|]. by destruct (decide _).
Qed.

End instructions.
