(* ===== verification/VmTables.v ===== *)
(** * The tables of operations (src/core/vm/jump_table.go, eips.go)

    Every entry of every table that a configuration gives is one that the
    interpreter can run: it costs more than what it hands on, and its
    instruction is safe on the operands and the memory that the entry asks for.
    Also: when a table can be built at all, and what the additional rules of a
    configuration do. *)
From stdpp Require Import prelude list gmap.
From Stdlib Require Import ZArith Lia.
From S2P Require Import Prelude RlpEncode TrieEncoding Trie TrieNode TrieHash VmBase VmCode Vm VmWp VmOps.

Section tables.
Context {U : Uint256} {K : Keccak} {S : Type} {VS : VMState S} {VL : VMLaws S}.
Abbreviation evm := (evm (S := S)).
Abbreviation X := (X (S := S)).
Implicit Types (f : frame) (e : evm).
Abbreviation later := (later_than inv since).

(** ** Operations and tables *)

(** The memory an operation asks for is a function of its operands. *)
Definition size_ok (min : Z) (size : option (list word -> go (Z * bool))) : Prop :=
  match size with None => True | Some size => forall st, min <= zlen st -> exists r, size st = Ok r /\ 0 <= r.1 end.

(** An operation that goes on costs at least a unit of gas more than it can
    give back. *)
Definition op_ok (o : operation) : Prop :=
  exists credit slack, (halts o || reverts o = false -> slack = 1) /\ (slack = 1 \/ slack = 0 /\ credit = no_credit) /\ 0 <= constantGas o < 2 ^ 64 /\
    (forall st temp, 0 <= temp -> 0 <= credit st temp) /\
    match dynamicGas o with
    | Some d => dyn_ok (minStack o) (bool_decide (memorySize o <> None)) (constantGas o) slack credit d
    | None => credit = no_credit /\ slack <= constantGas o /\ memorySize o = None
    end /\
    size_ok (minStack o) (memorySize o) /\ exec_ok (minStack o) (maxStack o) (memorySize o) credit (execute o).

(** A table whose operations are good; the interpreter looks at the third
    operand of a call. *)
Definition table_ok (jt : JumpTable) : Prop := forall op o, jt op = Some o -> op_ok o /\ (op = CALL -> 3 <= minStack o).

Lemma calcMemSize64_nonneg o l : 0 <= (calcMemSize64 o l).1.
Proof.
  unfold calcMemSize64, calcMemSize64WithUint, Uint64WithOverflow. repeat case_match; simpl; try done. apply u64_range.
Qed.
Lemma calcMemSize64WithUint_nonneg o l : 0 <= (calcMemSize64WithUint o l).1.
Proof. unfold calcMemSize64WithUint, Uint64WithOverflow. repeat case_match; simpl; try done. apply u64_range. Qed.

Lemma Back_ok min (st : list word) n : min <= zlen st -> Z.of_nat n < min -> exists x, Back st n = Ok x.
Proof. intros Hm Hn. unfold Back. destruct (lookup_lt_is_Some_2 st n) as [x ->]; [unfold zlen in *; lia|]. by exists x. Qed.

Lemma mem_at_ok min i j : Z.of_nat i < min -> Z.of_nat j < min -> size_ok min (Some (fun st => mem_at st i j)).
Proof.
  intros Hi Hj st Hst. destruct (Back_ok min st i) as [o Ho]; [done..|]. destruct (Back_ok min st j) as [l Hl]; [done..|].
  unfold mem_at. rewrite Ho. bind_simpl. rewrite Hl. bind_simpl. eexists. split; [done|]. apply calcMemSize64_nonneg.
Qed.
Lemma mem_fixed_ok min i k : Z.of_nat i < min -> size_ok min (Some (fun st => mem_fixed st i k)).
Proof.
  intros Hi st Hst. destruct (Back_ok min st i) as [o Ho]; [done..|].
  unfold mem_fixed. rewrite Ho. bind_simpl. eexists. split; [done|]. apply calcMemSize64WithUint_nonneg.
Qed.
Lemma mem_two_ok min i j i' j' :
  Z.of_nat i < min -> Z.of_nat j < min -> Z.of_nat i' < min -> Z.of_nat j' < min -> size_ok min (Some (fun st => mem_two st i j i' j')).
Proof.
  intros Hi Hj Hi' Hj' st Hst. destruct (mem_at_ok min i j Hi Hj st Hst) as ([x []] & Hx & ?); unfold mem_two; rewrite Hx; bind_simpl; [by eexists|].
  destruct (mem_at_ok min i' j' Hi' Hj' st Hst) as ([y []] & Hy & ?); rewrite Hy; bind_simpl; [by eexists|].
  destruct (x >? y); by eexists.
Qed.

Lemma op_simple_ok ex gas pops pushes :
  1 <= gas < 2 ^ 64 -> exec_ok (min_stack pops pushes) (max_stack pops pushes) None no_credit ex -> op_ok (op_simple ex gas pops pushes).
Proof. intros Hg Hex. exists no_credit, 1. cbn. unfold no_credit at 1. split_and!; try done; try lia; by (left + right). Qed.

Lemma op_halting_ok ex pops pushes :
  exec_ok (min_stack pops pushes) (max_stack pops pushes) None no_credit ex -> op_ok (set_halts (op_simple ex 0 pops pushes)).
Proof. intros Hex. exists no_credit, 0. cbn. unfold no_credit at 1. split_and!; try done; try lia; by (left + right). Qed.

Lemma op_gas_ok ex gas d pops pushes :
  0 <= gas < 2 ^ 64 -> dyn_ok pops false gas 1 no_credit d -> exec_ok (min_stack pops pushes) (max_stack pops pushes) None no_credit ex ->
  op_ok (op_gas ex gas d pops pushes).
Proof. intros Hg Hd Hex. exists no_credit, 1. cbn. unfold no_credit at 1. split_and!; try done; try lia; by (left + right). Qed.

Lemma op_gas_halting_ok ex gas d pops pushes :
  0 <= gas < 2 ^ 64 -> dyn_ok pops false gas 0 no_credit d -> exec_ok (min_stack pops pushes) (max_stack pops pushes) None no_credit ex ->
  op_ok (set_halts (op_gas ex gas d pops pushes)).
Proof. intros Hg Hd Hex. exists no_credit, 0. cbn. unfold no_credit at 1. split_and!; try done; try lia; by (left + right). Qed.

Definition credit_ok (credit : list word -> Z -> Z) : Prop := forall st temp, 0 <= temp -> 0 <= credit st temp.

Lemma op_mem_ok credit ex gas d pops pushes size :
  0 <= gas < 2 ^ 64 -> credit_ok credit -> dyn_ok pops true gas 1 credit d -> size_ok pops (Some size) ->
  exec_ok (min_stack pops pushes) (max_stack pops pushes) (Some size) credit ex -> op_ok (op_mem ex gas d pops pushes size).
Proof. intros Hg Hc Hd Hs Hex. exists credit, 1. cbn. split_and!; try done; try lia; by (left + right). Qed.

Lemma op_mem_ends_ok ex d pops pushes size ends :
  (forall o, halts (ends o) || reverts (ends o) = true) ->
  (forall o, dynamicGas (ends o) = dynamicGas o /\ minStack (ends o) = minStack o /\ maxStack (ends o) = maxStack o /\ memorySize (ends o) = memorySize o /\
     constantGas (ends o) = constantGas o /\ execute (ends o) = execute o) ->
  dyn_ok pops true 0 0 no_credit d -> size_ok pops (Some size) ->
  exec_ok (min_stack pops pushes) (max_stack pops pushes) (Some size) no_credit ex -> op_ok (ends (op_mem ex 0 d pops pushes size)).
Proof.
  intros He Hsame Hd Hs Hex. exists no_credit, 0. rewrite He. destruct (Hsame (op_mem ex 0 d pops pushes size)) as (-> & -> & -> & -> & -> & ->).
  cbn. unfold no_credit at 1. split_and!; try done; try lia; by (left + right).
Qed.

Lemma set_halts_ok o : op_ok o -> op_ok (set_halts o).
Proof. intros (cr & sl & H0 & H). exists cr, sl. split; [done|exact H]. Qed.
Lemma set_writes_ok o : op_ok o -> op_ok (set_writes o).
Proof. done. Qed.
Lemma set_jumps_ok o : op_ok o -> op_ok (set_jumps o).
Proof. done. Qed.
Lemma set_returns_ok o : op_ok o -> op_ok (set_returns o).
Proof. done. Qed.

Lemma no_credit_ok : credit_ok no_credit.
Proof. by intros ? ?. Qed.
Lemma create_credit_ok : credit_ok create_credit.
Proof. by intros ? ?. Qed.
Lemma value_credit_ok : credit_ok value_credit.
Proof. intros st temp H. unfold value_credit, CallStipend. repeat case_match; lia. Qed.

(** Entries that later rules change: those with a new price, and two with a
    new gas function. *)
Definition repriced : list Z := [49; 59; 60; 63; 84; 241; 242; 244].

Record entry_ok (op : Z) (o : operation) : Prop := {
  eo_ok : op_ok o;
  eo_price g : op ∈ repriced -> 1 <= g < 2 ^ 64 -> op_ok (set_constantGas g o);
  eo_exp : op = 10 -> op_ok (set_dynamicGas gasExpEIP158 o);
  eo_sstore : op = 85 -> op_ok (set_dynamicGas gasSStoreEIP2200 o);
  eo_call : op = CALL -> 3 <= minStack o;
}.
Definition entries_ok (jt : JumpTable) : Prop := forall op o, jt op = Some o -> entry_ok op o.

Lemma entry_plain op o : bool_decide (op ∈ repriced) || (op =? 10) || (op =? 85) = false -> op_ok o -> entry_ok op o.
Proof.
  intros H Ho. apply orb_false_elim in H as [[H1 H2]%orb_false_elim H3]. apply bool_decide_eq_false in H1.
  apply Z.eqb_neq in H2, H3. split; try done. intros ->. by destruct H1; apply (bool_decide_eq_true_1 _).
Qed.
Lemma entry_price op g0 o (mk : Z -> operation) :
  bool_decide (op ∈ repriced) = true -> o = mk g0 -> (forall g, set_constantGas g (mk g0) = mk g) -> 1 <= g0 < 2 ^ 64 -> 3 <= minStack (mk g0) \/ op <> CALL ->
  (forall g, 1 <= g < 2 ^ 64 -> op_ok (mk g)) -> entry_ok op o.
Proof.
  intros Hin -> Hset H0 Hm Hok. split; [by apply Hok|intros g _ Hg; rewrite Hset; by apply Hok|intros ->; done..|by destruct Hm].
Qed.
Lemma entry_exp o : op_ok o -> op_ok (set_dynamicGas gasExpEIP158 o) -> entry_ok 10 o.
Proof. intros H1 H2. split; [done|intros g Hin|done..]. by apply (bool_decide_eq_true_2 _) in Hin. Qed.
Lemma entry_sstore o : op_ok o -> op_ok (set_dynamicGas gasSStoreEIP2200 o) -> entry_ok 85 o.
Proof. intros H1 H2. split; [done|intros g Hin|done..]. by apply (bool_decide_eq_true_2 _) in Hin. Qed.

(** *** The base table *)

(** The lemma of an instruction without memory. *)
Ltac instruction :=
  lazymatch goal with
  | |- exec_ok _ _ _ _ (fun _ => opPush1) => exact opPush1_ok
  | |- exec_ok _ _ _ _ (fun _ => opAddress) => exact opAddress_ok
  | |- exec_ok _ _ _ _ (fun _ => opSelfBalance) => exact opSelfBalance_ok
  | |- exec_ok _ _ _ _ (fun _ => opBalance) => exact opBalance_ok
  | |- exec_ok _ _ _ _ (fun _ => opExtCodeSize) => exact opExtCodeSize_ok
  | |- exec_ok _ _ _ _ (fun _ => opExtCodeHash) => exact opExtCodeHash_ok
  | |- exec_ok _ _ _ _ (fun _ => opSload) => exact opSload_ok
  | |- exec_ok _ _ _ _ (fun _ => opCallDataLoad) => exact opCallDataLoad_ok
  | |- exec_ok _ _ _ _ (fun _ => opBlockhash _) => exact (opBlockhash_ok _)
  | |- exec_ok _ _ _ _ (fun _ => opBeginSub) => exact opBeginSub_ok
  | |- exec_ok _ _ _ _ (fun _ => opReturnSub) => exact opReturnSub_ok
  | |- exec_ok _ _ _ _ (fun _ => opJumpSub) => exact opJumpSub_ok
  | |- exec_ok _ _ _ _ (fun _ => opJump) => exact opJump_ok
  | |- exec_ok _ _ _ _ (fun _ => opJumpi) => exact opJumpi_ok
  | |- exec_ok _ _ _ _ (fun _ => opPop) => exact opPop_ok
  | |- exec_ok _ _ _ _ (fun _ => opReturnDataSize) => exact (pushed_evm_ok _)
  | |- exec_ok (min_stack 2 1) _ _ _ _ => exact (binary_ok _)
  | |- exec_ok (min_stack 3 1) _ _ _ _ => exact (ternary_ok _)
  | |- exec_ok (min_stack 1 1) _ _ _ _ => exact (unary_ok _)
  | |- exec_ok (min_stack 0 0) _ _ _ _ => exact nothing_ok
  | |- exec_ok (min_stack 0 1) _ _ _ (fun _ => ?op) =>
      let op := eval red in op in
      lazymatch op with pushed _ => exact (pushed_ok _) | _ => exact (pushed_frame_ok _) end
  end.
Ltac simple_entry := apply op_simple_ok; [by vm_compute|instruction].
Ltac copies L :=
  apply (op_mem_ok no_credit); [by vm_compute|apply no_credit_ok|apply memoryCopierGas_ok; by vm_compute|apply mem_at_ok; by vm_compute|exact L].
Ltac memory L :=
  apply (op_mem_ok no_credit); [by vm_compute|apply no_credit_ok|apply pureMemoryGascost_ok; by vm_compute|apply mem_fixed_ok; by vm_compute|exact L].

Lemma opCall_ok g : 1 <= g < 2 ^ 64 -> forall env, op_ok (set_returns (op_mem opCall g (gasCall env) 7 1 memoryCall)).
Proof.
  intros Hg env. apply set_returns_ok, (op_mem_ok value_credit); [lia|apply value_credit_ok|apply gasCall_ok; lia|apply mem_two_ok; lia|].
  apply value_call_ok. intros n calls Hc. apply Hc.
Qed.
Lemma opCallCode_ok g : 1 <= g < 2 ^ 64 -> forall env, op_ok (set_returns (op_mem opCallCode g (gasCallCode env) 7 1 memoryCall)).
Proof.
  intros Hg env. apply set_returns_ok, (op_mem_ok value_credit); [lia|apply value_credit_ok|apply gasCallCode_ok; lia|apply mem_two_ok; lia|].
  apply value_call_ok. intros n calls Hc. apply Hc.
Qed.
Lemma opDelegateCall_ok g : 1 <= g < 2 ^ 64 -> forall env, op_ok (set_returns (op_mem opDelegateCall g (gasDelegateCall env) 6 1 memoryDelegateCall)).
Proof.
  intros Hg env. apply set_returns_ok, (op_mem_ok create_credit); [lia|apply create_credit_ok|apply gasDelegateCall_ok; lia|apply mem_two_ok; lia|].
  apply plain_call_ok. intros n calls Hc. apply Hc.
Qed.
Lemma opStaticCall_ok g : 1 <= g < 2 ^ 64 -> forall env, op_ok (set_returns (op_mem opStaticCall g (gasStaticCall env) 6 1 memoryStaticCall)).
Proof.
  intros Hg env. apply set_returns_ok, (op_mem_ok create_credit); [lia|apply create_credit_ok|apply gasDelegateCall_ok; lia|apply mem_two_ok; lia|].
  apply plain_call_ok. intros n calls Hc. apply Hc.
Qed.

Lemma gasExp_entry perByte : 0 <= perByte -> op_ok (op_gas (fun _ => opExp) 0 (gasExp perByte) 2 1).
Proof. intros Hp. apply op_gas_ok; [by vm_compute|by apply gasExp_ok|exact (binary_ok _)]. Qed.
Lemma sstore_entry d : dyn_ok 2 false 0 1 no_credit d -> op_ok (set_writes (op_gas (fun _ => opSstore) 0 d 2 0)).
Proof. intros Hd. apply set_writes_ok, op_gas_ok; [by vm_compute|done|exact opSstore_ok]. Qed.
Lemma opSha3_entry env : op_ok (op_mem (fun _ => opSha3 env) Sha3Gas gasSha3 2 1 memorySha3).
Proof. apply (op_mem_ok no_credit); [by vm_compute|apply no_credit_ok|apply gasSha3_ok|by apply mem_at_ok|apply opSha3_ok]. Qed.
Lemma opCreate_entry env : op_ok (set_returns (set_writes (op_mem (opCreate env) CreateGas (gasCreate env) 3 1 memoryCreate))).
Proof. apply (op_mem_ok create_credit); [by vm_compute|apply create_credit_ok|apply gasCreate_ok|by apply mem_at_ok|apply opCreate_ok]. Qed.
Lemma opCreate2_entry env : op_ok (set_returns (set_writes (op_mem opCreate2 Create2Gas (gasCreate2 env) 4 1 memoryCreate2))).
Proof. apply (op_mem_ok create_credit); [by vm_compute|apply create_credit_ok|apply gasCreate2_ok|by apply mem_at_ok|apply opCreate2_ok]. Qed.
Lemma opReturn_entry : op_ok (set_halts (op_mem (fun _ => opReturn) 0 pureMemoryGascost 2 0 memoryReturn)).
Proof. apply op_mem_ends_ok; [done..|apply pureMemoryGascost_halt|by apply mem_at_ok|apply opReturn_ok]. Qed.
Lemma opRevert_entry : op_ok (set_returns (set_reverts (op_mem (fun _ => opRevert) 0 pureMemoryGascost 2 0 memoryRevert))).
Proof.
  apply set_returns_ok, op_mem_ends_ok; [intros; apply orb_true_r|done|apply pureMemoryGascost_halt|by apply mem_at_ok|apply opRevert_ok].
Qed.
Lemma opSuicide_entry env : op_ok (set_writes (set_halts (op_gas (fun _ => opSuicide) 0 (gasSelfdestruct env) 1 0))).
Proof. apply set_writes_ok, op_gas_halting_ok; [by vm_compute|apply gasSelfdestruct_ok|apply opSuicide_ok]. Qed.

Ltac price mk := eapply (entry_price _ _ _ mk); [reflexivity|reflexivity|reflexivity|by vm_compute|by (left + right)|intros ? ?].

Lemma base_entry_ok env : entries_ok (base_entry env).
Proof.
  intros op o. unfold base_entry. intros H.
  repeat match type of H with context [match ?x with _ => _ end] => is_var x; destruct x end; try discriminate H; injection H as <-.
  all: lazymatch goal with
  | |- entry_ok 10 _ => apply entry_exp; [apply (gasExp_entry ExpByteFrontier); by vm_compute|apply (gasExp_entry ExpByteEIP158); by vm_compute]
  | |- entry_ok 85 _ => exact (entry_sstore _ (sstore_entry _ (gasSStore_ok env)) (sstore_entry _ gasSStoreEIP2200_ok))
  | |- entry_ok 60 _ => price (fun g => op_mem (U := U) (S := S) (fun _ => opExtCodeCopy) g (memoryCopierGas 3) 4 0 memoryExtCodeCopy);
      apply (op_mem_ok no_credit); [lia|apply no_credit_ok|apply memoryCopierGas_ok; lia|by apply mem_at_ok|apply opExtCodeCopy_ok]
  | |- entry_ok 241 _ => price (fun g => set_returns (S := S) (op_mem opCall g (gasCall env) 7 1 memoryCall)); by apply opCall_ok
  | |- entry_ok 242 _ => price (fun g => set_returns (S := S) (op_mem opCallCode g (gasCallCode env) 7 1 memoryCall)); by apply opCallCode_ok
  | |- entry_ok _ (op_simple ?ex _ ?a ?b) =>
      first [apply entry_plain; [by vm_compute|simple_entry] | price (fun g => op_simple (S := S) ex g a b); apply op_simple_ok; [done|instruction]]
  | |- entry_ok _ _ => apply entry_plain; [by vm_compute|]
  end.
  all: lazymatch goal with
  | |- op_ok (op_mem (fun _ => opSha3 _) _ _ _ _ _) => apply opSha3_entry
  | |- op_ok (set_returns _) => apply opCreate_entry
  | |- op_ok (set_writes _) => apply opSuicide_entry
  | |- op_ok (set_halts (op_mem _ _ _ _ _ _)) => apply opReturn_entry
  | |- op_ok (set_halts _) => apply op_halting_ok; exact nothing_ok
  | |- op_ok (set_jumps _) => apply set_jumps_ok; simple_entry
  | |- op_ok (op_mem (fun _ => opCallDataCopy) _ _ _ _ _) => copies opCallDataCopy_ok
  | |- op_ok (op_mem (fun _ => opCodeCopy) _ _ _ _ _) => copies opCodeCopy_ok
  | |- op_ok (op_mem (fun _ => opMload) _ _ _ _ _) => memory opMload_ok
  | |- op_ok (op_mem (fun _ => opMstore) _ _ _ _ _) => memory opMstore_ok
  | |- op_ok (op_mem (fun _ => opMstore8) _ _ _ _ _) => memory opMstore8_ok
  end.
Qed.

Lemma newBaseInstructionSet_ok env : entries_ok (newBaseInstructionSet env).
Proof.
  intros op o. unfold newBaseInstructionSet. intros H.
  destruct ((97 <=? op) && (op <=? 127)) eqn:E1; [|destruct ((128 <=? op) && (op <=? 143)) eqn:E2; [|destruct ((144 <=? op) && (op <=? 159)) eqn:E3;
    [|destruct ((160 <=? op) && (op <=? 164)) eqn:E4; [|by apply (base_entry_ok env)]]]]; injection H as <-.
  all: repeat match goal with H : _ && _ = true |- _ => apply andb_prop in H as [?%Z.leb_le ?%Z.leb_le] end.
  all: apply entry_plain; [apply orb_false_intro; [apply orb_false_intro; [apply bool_decide_eq_false; unfold repriced; set_solver by lia|]|]; apply Z.eqb_neq; lia|].
  - apply op_simple_ok; [by vm_compute|apply makePush_ok; unfold max_alloc; lia].
  - apply op_simple_ok; [by vm_compute|]. pose proof (makeDup_ok (Z.to_nat (op - 127))) as Hk. rewrite Z2Nat.id in Hk by lia. apply Hk. lia.
  - apply op_simple_ok; [by vm_compute|]. pose proof (makeSwap_ok (Z.to_nat (op - 143))) as Hk. rewrite Z2Nat.id in Hk by lia.
    by replace (op - 143 + 1) with (op - 142) in Hk by lia.
  - apply set_writes_ok, (op_mem_ok no_credit); [by vm_compute|apply no_credit_ok| |apply mem_at_ok; lia|].
    + pose proof (makeGasLog_ok (op - 160)) as Hk. replace (op - 160 + 2) with (op - 158) in Hk by lia. apply Hk. lia.
    + pose proof (makeLog_ok env (Z.to_nat (op - 160))) as Hk. rewrite Z2Nat.id in Hk by lia. by replace (op - 160 + 2) with (op - 158) in Hk by lia.
Qed.

(** *** The rules that a configuration turns on *)

Lemma jt_set_ok jt op o : entries_ok jt -> entry_ok op o -> entries_ok (jt_set jt op o).
Proof. intros Hjt Ho op' o'. unfold jt_set. destruct (Z.eqb_spec op' op) as [->|]; [by intros [= <-]|apply Hjt]. Qed.

Lemma jt_price_ok jt op g jt' :
  entries_ok jt -> jt_change jt op (set_constantGas g) = Ok jt' -> 1 <= g < 2 ^ 64 -> op ∈ repriced -> entries_ok jt'.
Proof.
  intros Hjt H Hg Hin. unfold jt_change in H. destruct (jt op) as [o|] eqn:E; [|done]. injection H as <-. apply jt_set_ok; [done|].
  destruct (Hjt _ _ E) as [_ Hp _ _ Hm]. split; [by apply Hp|intros g' _ Hg'; by apply (Hp g')|intros ->; by apply (bool_decide_eq_true_2 _) in Hin..|exact Hm].
Qed.
Lemma jt_exp_ok jt jt' : entries_ok jt -> jt_change jt 10 (set_dynamicGas gasExpEIP158) = Ok jt' -> entries_ok jt'.
Proof.
  intros Hjt H. unfold jt_change in H. destruct (jt 10) as [o|] eqn:E; [|done]. injection H as <-. apply jt_set_ok; [done|].
  destruct (Hjt _ _ E) as [_ _ He _ _]. apply entry_exp; by apply He.
Qed.
Lemma jt_sstore_ok jt jt' : entries_ok jt -> jt_change jt 85 (set_dynamicGas gasSStoreEIP2200) = Ok jt' -> entries_ok jt'.
Proof.
  intros Hjt H. unfold jt_change in H. destruct (jt 85) as [o|] eqn:E; [|done]. injection H as <-. apply jt_set_ok; [done|].
  destruct (Hjt _ _ E) as [_ _ _ Hs _]. apply entry_sstore; by apply Hs.
Qed.

Ltac priced := eapply jt_price_ok; [|eassumption|by vm_compute|by apply (bool_decide_eq_true_1 _)].

Lemma when_ok (b : bool) g jt : entries_ok jt -> (entries_ok jt -> entries_ok (g jt)) -> entries_ok (when b g jt).
Proof. destruct b; simpl; auto. Qed.
Lemma when_go_ok (b : bool) g jt jt' : when_go b g jt = Ok jt' -> entries_ok jt -> (forall jt', entries_ok jt -> g jt = Ok jt' -> entries_ok jt') -> entries_ok jt'.
Proof. destruct b; simpl; [eauto|]. by intros [= <-] ? _. Qed.

Ltac added := apply entry_plain; [by vm_compute|simple_entry].

Lemma enable150_ok jt jt' : entries_ok jt -> enable150 jt = Ok jt' -> entries_ok jt'.
Proof. unfold enable150. intros Hjt H. outcome_inv H. do 7 priced. done. Qed.
Lemma enable1884_ok jt jt' : entries_ok jt -> enable1884 jt = Ok jt' -> entries_ok jt'.
Proof. unfold enable1884, enableSelfBalance. intros Hjt H. outcome_inv H. apply jt_set_ok; [do 3 priced; done|added]. Qed.
Lemma enable2200_ok jt jt' : entries_ok jt -> enable2200 jt = Ok jt' -> entries_ok jt'.
Proof. unfold enable2200. intros Hjt H. outcome_inv H. eapply jt_sstore_ok; [|done]. priced. done. Qed.
Lemma enable2315_ok jt : entries_ok jt -> entries_ok (enable2315 jt).
Proof.
  intros Hjt. unfold enable2315. repeat apply jt_set_ok; [done|added|apply entry_plain; [by vm_compute|apply set_jumps_ok; simple_entry]..].
Qed.
Lemma opReturnDataCopy_entry :
  op_ok (op_mem (fun _ => opReturnDataCopy) GasFastestStep (memoryCopierGas 2) 3 0 memoryReturnDataCopy).
Proof. copies opReturnDataCopy_ok. Qed.

Lemma early_rules_entries env jt : early_rules env = Ok jt -> entries_ok jt.
Proof.
  unfold early_rules. intros H. outcome_inv H. eapply when_go_ok; [exact H| |intros ?; apply jt_exp_ok].
  eapply when_go_ok; [exact Hr| |intros ?; apply enable150_ok]. apply when_ok; [apply newBaseInstructionSet_ok|]. intros ?. apply jt_set_ok; [done|].
  price (fun g => set_returns (S := S) (op_mem opDelegateCall g (gasDelegateCall env) 6 1 memoryDelegateCall)). by apply opDelegateCall_ok.
Qed.

Lemma instructionSetForConfig_entries env jt : instructionSetForConfig env = Ok jt -> entries_ok jt.
Proof.
  unfold instructionSetForConfig. intros H. outcome_inv H. eapply when_go_ok; [exact H|clear H|intros ?; apply enable2200_ok].
  apply when_ok; [|intros ?; by apply jt_set_ok; [|added]]. eapply when_go_ok; [exact Hr0| |intros ?; apply enable1884_ok].
  apply when_ok; [|intros ?; by apply jt_set_ok; [|added]].
  apply when_ok. 2: { intros ?. apply jt_set_ok; [done|]. price (fun g => op_simple (S := S) (fun _ => opExtCodeHash) g 1 1). by apply op_simple_ok; [|instruction]. }
  apply when_ok. 2: { intros ?. by apply jt_set_ok; [|apply entry_plain; [|apply opCreate2_entry]]. }
  apply when_ok. 2: { intros ?. unfold enable145. repeat apply jt_set_ok; [done|added..]. }
  apply when_ok. 2: { intros ?. unfold enable211. repeat apply jt_set_ok; [done|added|by apply entry_plain; [|apply opReturnDataCopy_entry]]. }
  apply when_ok. 2: { intros ?. by apply jt_set_ok; [|apply entry_plain; [|apply opStaticCall_ok]]. }
  apply when_ok. 2: { intros ?. by apply jt_set_ok; [|apply entry_plain; [|apply opRevert_entry]]. }
  by eapply early_rules_entries.
Qed.

Lemma table_ok_config env jt : instructionSetForConfig env = Ok jt -> table_ok jt.
Proof. intros H op o Ho. by destruct (instructionSetForConfig_entries env jt H op o Ho). Qed.

Lemma EnableEIP_ok env n jt r jt' : EnableEIP env n jt = Some r -> r = Ok jt' -> entries_ok jt -> entries_ok jt'.
Proof.
  unfold EnableEIP. intros H -> Hjt.
  repeat match type of H with context [match ?x with _ => _ end] => is_var x; destruct x end; try discriminate H; injection H as H.
  all: first [by eapply enable2200_ok | by eapply enable1884_ok | subst jt'].
  all: first [by apply enable2315_ok | apply jt_set_ok; [done|added]].
Qed.

Lemma enable_extra_ok env n i arr len jt jt' ex : enable_extra env n i arr len jt = Ok (jt', ex) -> entries_ok jt -> entries_ok jt'.
Proof.
  revert i arr len jt. induction n as [|n IH]; intros i arr len jt H Hjt; cbn [enable_extra] in H; outcome_inv H; [done|].
  destruct (EnableEIP env r jt) as [en|] eqn:E; outcome_inv H; [|by eapply IH]. eapply IH; [exact H|]. by eapply EnableEIP_ok.
Qed.

Lemma NewEVMInterpreter_table env extra jt ex : NewEVMInterpreter env extra = Ok (jt, ex) -> table_ok jt.
Proof.
  unfold NewEVMInterpreter. intros H. outcome_inv H. intros op o Ho. eapply enable_extra_ok in H; [by destruct (H op o Ho)|]. by eapply instructionSetForConfig_entries.
Qed.

(** *** When a table can be built *)

Definition same_ops (jt jt' : JumpTable (S := S)) : Prop := forall x, is_Some (jt' x) <-> is_Some (jt x).

Lemma jt_set_ops jt op o x : is_Some (jt_set (S := S) jt op o x) <-> x = op \/ is_Some (jt x).
Proof. unfold jt_set. destruct (Z.eqb_spec x op); naive_solver. Qed.

Lemma jt_change_ops jt0 jt op g : same_ops jt0 jt -> is_Some (jt0 op) -> exists jt', jt_change (S := S) jt op g = Ok jt' /\ same_ops jt0 jt'.
Proof.
  intros Hs Ho. pose proof (proj2 (Hs op) Ho) as [o E]. unfold jt_change. rewrite E. eexists. split; [done|]. intros x. rewrite jt_set_ops, (Hs x).
  split; [|by right]. by intros [->|?].
Qed.
Lemma jt_change_none jt0 jt op g : same_ops jt0 jt -> jt0 op = None -> jt_change (S := S) jt op g = Panic.
Proof.
  intros Hs Ho. unfold jt_change. destruct (jt op) eqn:E; [|done]. exfalso. apply (is_Some_None (A := operation (S := S))). rewrite <- Ho. apply Hs. by rewrite E.
Qed.
Lemma same_ops_refl jt : same_ops jt jt.
Proof. done. Qed.

(** Changes one entry of a table that has the same entries as [jt0]. *)
Ltac change_one jt0 Hs :=
  match goal with |- context [jt_change ?jt ?op ?g] =>
    let jt' := fresh "jt" in let E := fresh "E" in let Hs' := fresh "Hs" in
    destruct (jt_change_ops jt0 jt op g Hs) as (jt' & E & Hs'); [|rewrite E; bind_simpl; clear E Hs; rename Hs' into Hs]
  end.

Lemma enable150_ops jt :
  is_Some (jt 49) -> is_Some (jt 59) -> is_Some (jt 84) -> is_Some (jt 60) -> is_Some (jt 241) -> is_Some (jt 242) ->
  (is_Some (jt 244) /\ exists jt', enable150 (S := S) jt = Ok jt' /\ same_ops jt jt') \/ (jt 244 = None /\ enable150 jt = Panic).
Proof.
  intros H1 H2 H3 H4 H5 H6. unfold enable150. pose proof (same_ops_refl jt) as Hs. do 6 (change_one jt Hs; [done|]).
  destruct (jt 244) eqn:E; [left|right]; (split; [done|]); [|by eapply jt_change_none]. eapply jt_change_ops; [done|]. by rewrite E.
Qed.
Lemma enable1884_ops jt :
  is_Some (jt 49) -> is_Some (jt 84) ->
  (is_Some (jt 63) /\ exists jt', enable1884 (S := S) jt = Ok jt' /\ forall x, is_Some (jt x) -> is_Some (jt' x)) \/ (jt 63 = None /\ enable1884 jt = Panic).
Proof.
  intros H1 H2. unfold enable1884. pose proof (same_ops_refl jt) as Hs. change_one jt Hs; [done|].
  destruct (jt 63) eqn:E; [left|right]; (split; [done|]); [|by erewrite jt_change_none]. change_one jt Hs; [by rewrite E|]. change_one jt Hs; [done|].
  eexists. split; [done|]. intros x Hx. apply jt_set_ops. right. by apply Hs.
Qed.
Lemma enable2200_ops jt : is_Some (jt 84) -> is_Some (jt 85) -> exists jt', enable2200 (S := S) jt = Ok jt'.
Proof.
  intros H1 H2. unfold enable2200. pose proof (same_ops_refl jt) as Hs. change_one jt Hs; [done|].
  destruct (jt_change_ops jt jt0 85 (set_dynamicGas gasSStoreEIP2200) Hs H2) as (jt' & E & _). by exists jt'.
Qed.

(** Entries of the base table that the rules refer to. *)
Lemma base_ops env x : x ∈ [49; 59; 84; 60; 241; 242; 10; 85] -> is_Some (newBaseInstructionSet (S := S) env x).
Proof. intros H. repeat (apply elem_of_cons in H as [->|H]; [by eexists|]). by apply elem_of_nil in H. Qed.

Lemma when_at b g jt x : g jt x = jt x -> when (S := S) b g jt x = jt x.
Proof. by destruct b. Qed.
Ltac look := repeat (rewrite when_at; [|reflexivity]).

Lemma early_rules_ops env :
  if enabled env GetEIP150Transition && negb (enabled env GetEIP7Transition) then early_rules (S := S) env = Panic
  else exists jt, early_rules (S := S) env = Ok jt /\ is_Some (jt 49) /\ is_Some (jt 84) /\ is_Some (jt 85) /\ jt 63 = None.
Proof.
  unfold early_rules. set (jt1 := when _ _ _). assert (Hb : forall x, x ∈ [49; 59; 84; 60; 241; 242; 10; 85] -> is_Some (jt1 x)).
  { intros x Hx. apply (base_ops env) in Hx. unfold jt1. destruct (enabled env GetEIP7Transition); [|done]. apply jt_set_ops. by right. }
  assert (H63 : jt1 63 = None) by (unfold jt1; by destruct (enabled env GetEIP7Transition)).
  assert (H244 : jt1 244 = None <-> enabled env GetEIP7Transition = false) by (unfold jt1; by destruct (enabled env GetEIP7Transition)).
  assert (Hexp : forall jt, same_ops jt1 jt -> exists jt', when_go (enabled env GetEIP160Transition) (fun jt => jt_change jt 10 (set_dynamicGas gasExpEIP158)) jt = Ok jt' /\
    is_Some (jt' 49) /\ is_Some (jt' 84) /\ is_Some (jt' 85) /\ jt' 63 = None).
  { intros jt Hs. assert (exists jt', when_go (enabled env GetEIP160Transition) (fun jt => jt_change jt 10 (set_dynamicGas gasExpEIP158)) jt = Ok jt' /\ same_ops jt1 jt') as (jt' & E & Hs').
    { destruct (enabled env GetEIP160Transition); [|by exists jt]. apply jt_change_ops; [done|]. by apply Hb, (bool_decide_eq_true_1 _). }
    exists jt'. split; [done|]. split_and!; [apply Hs', Hb, (bool_decide_eq_true_1 _); done..|]. apply eq_None_not_Some. rewrite (Hs' 63), H63. by intros [? ?]. }
  destruct (enabled env GetEIP150Transition); cbn [andb negb when_go].
  - destruct (enable150_ops jt1) as [([o E244] & jt' & E & Hs)|(E244 & E)]; [apply Hb, (bool_decide_eq_true_1 _); done..| |]; rewrite E; bind_simpl.
    + destruct (enabled env GetEIP7Transition); [by apply Hexp|]. by rewrite (proj2 H244) in E244.
    + by rewrite (proj1 H244 E244).
  - by apply Hexp.
Qed.

(**  The table of a configuration can be built unless EIP150 is on without
    EIP7, or EIP1884 without EIP1052: then it dereferences a nil entry. *)
Theorem instructionSetForConfig_defined env :
  instructionSetForConfig (S := S) env = Panic <->
  (enabled env GetEIP150Transition = true /\ enabled env GetEIP7Transition = false) \/
  (enabled env GetEIP1884Transition = true /\ enabled env GetEIP1052Transition = false).
Proof.
  pose proof (early_rules_ops env) as He. unfold instructionSetForConfig. destruct (enabled env GetEIP150Transition && _) eqn:E150.
  { rewrite He. apply andb_prop in E150 as [? ?%negb_true_iff]. simpl. tauto. }
  destruct He as (r & -> & H49 & H84 & H85 & H63). bind_simpl.
  set (jt2 := when (enabled env GetEIP1344Transition) _ _).
  assert (H2 : jt2 49 = r 49 /\ jt2 84 = r 84 /\ jt2 85 = r 85) by (unfold jt2; look; done). destruct H2 as (E49 & E84 & E85).
  assert (E63 : jt2 63 = None <-> enabled env GetEIP1052Transition = false).
  { unfold jt2. rewrite when_at by reflexivity. destruct (enabled env GetEIP1052Transition); [done|]. cbn [when]. look. done. }
  set (late := fun jt => when_go (enabled env GetEIP2200Transition && _) enable2200 (when _ enableSelfBalance jt)).
  assert (Hlate : forall jt, is_Some (jt 84) -> is_Some (jt 85) -> late jt <> Panic).
  { intros jt Ha Hb. unfold late. destruct (enabled env GetEIP2200Transition && _); [|done]. simpl.
    destruct (enable2200_ops (when (enabled env GetECIP1080Transition) enableSelfBalance jt)) as [? ->]; [by look..|done]. }
  match goal with |- _ <-> ?R => change ((when_go (enabled env GetEIP1884Transition) enable1884 jt2 ≫= late) = Panic <-> R) end.
  apply andb_false_iff in E150. rewrite negb_false_iff in E150. destruct (enabled env GetEIP1884Transition); cbn [when_go].
  - destruct (enable1884_ops jt2) as [([o E] & jt' & -> & Hs)|(E & ->)]; [by rewrite E49|by rewrite E84| |]; bind_simpl.
    + split; [intros H; by apply Hlate in H; [|apply Hs; rewrite ?E84, ?E85..]|]. intros [[? ?]|[_ ?%E63]]; [destruct E150; congruence|congruence].
    + split; [|done]. intros _. right. split; [done|]. by apply E63.
  - bind_simpl. split; [intros H; by apply Hlate in H; rewrite ?E84, ?E85|]. intros [[? ?]|[? _]]; [destruct E150; congruence|done].
Qed.

(** *** Additional rules *)

Lemma EnableEIP_valid env n jt : is_Some (EnableEIP (S := S) env n jt) <-> ValidEip n = true.
Proof.
  unfold ValidEip. rewrite bool_decide_eq_true. split.
  - intros [r H]. unfold EnableEIP in H.
    repeat match type of H with context [match ?x with _ => _ end] => is_var x; destruct x end; try discriminate H; by apply (bool_decide_eq_true_1 _).
  - intros H. repeat (apply elem_of_cons in H as [->|H]; [by eexists|]). by apply elem_of_nil in H.
Qed.
Lemma EnableEIP_invalid env n jt : ValidEip n = false -> EnableEIP (S := S) env n jt = None.
Proof. intros H. apply eq_None_not_Some. rewrite EnableEIP_valid, H. done. Qed.

(** The rules of a list, one after the other. *)
Fixpoint enable_all env (l : list Z) (jt : JumpTable (S := S)) : go JumpTable :=
  match l with
  | [] => Ok jt
  | n :: l => match EnableEIP env n jt with Some r => jt ← r; enable_all env l jt | None => enable_all env l jt end
  end.

Lemma enable_extra_valid env post : forall pre jt len,
  Forall (fun n => ValidEip n = true) post -> 0 <= len <= zlen (pre ++ post) ->
  enable_extra env (length post) (zlen pre) (pre ++ post) len jt =
  (jt ← enable_all env post jt; Ok (jt, take (Z.to_nat len) (pre ++ post))).
Proof.
  induction post as [|n post IH]; intros pre jt len Hv Hlen; cbn [length enable_extra enable_all]; inversion_clear Hv.
  - rewrite slice_ok by lia. bind_simpl. by rewrite Z.sub_0_r.
  - rewrite idx_app. bind_simpl. destruct (EnableEIP env n jt) as [r|] eqn:E.
    + destruct r as [jt'|[]|]; [|done]. bind_simpl. rewrite cons_middle, app_assoc in Hlen |- *. rewrite <- (IH (pre ++ [n])) by done.
      by rewrite zlen_app.
    + exfalso. apply eq_None_not_Some in E. by apply E, EnableEIP_valid.
Qed.

Lemma enable_extra_unknown env bad n l last jt :
  ValidEip bad = false ->
  enable_extra env (length (bad :: n :: l ++ [last])) 0 (bad :: n :: l ++ [last]) (zlen (bad :: n :: l ++ [last])) jt =
  enable_extra env (length (l ++ [last; last])) (zlen [n]) ([n] ++ l ++ [last; last]) (zlen (n :: l ++ [last])) jt.
Proof.
  intros Hbad. set (post := n :: l ++ [last]). change (length (bad :: post)) with (Datatypes.S (length post)).
  remember (length post) as k eqn:Hk. cbn [enable_extra]. rewrite idx_0. bind_simpl. rewrite EnableEIP_invalid by done.
  change (0 + 1) with 1. rewrite slice_ok by (rewrite !zlen_cons; pose proof (zlen_nonneg post); lia). bind_simpl.
  replace (Z.to_nat (zlen (bad :: post) - 1)) with (length post) by (rewrite zlen_cons; unfold zlen; lia).
  change (drop (Z.to_nat 1) (bad :: post)) with post. rewrite firstn_all. change (take (Z.to_nat 0) (bad :: post)) with (@nil Z).
  change (Z.to_nat 0 + length post)%nat with (length post).
  assert (Hd : drop (length post) (bad :: post) = [last]).
  { unfold post. rewrite (app_comm_cons l [last] n), app_comm_cons. apply drop_app_length'. rewrite length_app. simpl. lia. }
  rewrite Hd. f_equal.
  - rewrite Hk. unfold post. cbn [length]. rewrite !length_app. cbn [length]. lia.
  - unfold post. cbn [app]. by rewrite <- app_assoc.
Qed.

(**  The additional rules of the configuration: known ones are all enabled,
    in order.  After an unknown one the entries move while the loop goes on, so
    the rule that follows it is not enabled, although it is reported as
    enabled, and the last is enabled twice; with two unknown rules and nothing
    else the interpreter panics. *)
Theorem NewEVMInterpreter_extra env :
  (forall l, Forall (fun n => ValidEip n = true) l ->
    NewEVMInterpreter (S := S) env l = (jt ← instructionSetForConfig env; jt ← enable_all env l jt; Ok (jt, l))) /\
  (forall bad n l last, ValidEip bad = false -> Forall (fun n => ValidEip n = true) (n :: l ++ [last]) ->
    NewEVMInterpreter (S := S) env (bad :: n :: l ++ [last]) =
    (jt ← instructionSetForConfig env; jt ← enable_all env (l ++ [last; last]) jt; Ok (jt, n :: l ++ [last]))) /\
  (forall bad bad', ValidEip bad = false -> ValidEip bad' = false ->
    NewEVMInterpreter (S := S) env [bad; bad'] = (jt ← instructionSetForConfig env; Panic)).
Proof.
  unfold NewEVMInterpreter. split_and!.
  - intros l Hl. destruct (instructionSetForConfig env) as [jt| |]; [|done..]. bind_simpl.
    etransitivity; [apply (enable_extra_valid env l [] jt (zlen l) Hl); simpl; pose proof (zlen_nonneg l); lia|].
    simpl. unfold zlen. by rewrite Nat2Z.id, firstn_all.
  - intros bad n l last Hbad Hl. destruct (instructionSetForConfig env) as [jt| |]; [|done..]. cbn [mbind outcome_bind].
    rewrite enable_extra_unknown by done.
    inversion_clear Hl as [|? ? _ Hl']. apply Forall_app in Hl' as [Hl Hlast].
    etransitivity; [apply (enable_extra_valid env (l ++ [last; last]) [n])|].
    + apply Forall_app. split; [done|]. inversion_clear Hlast. by repeat constructor.
    + rewrite !zlen_cons, !zlen_app. pose proof (zlen_nonneg l). unfold zlen. simpl. lia.
    + destruct (enable_all _ _ _); [|done..]. simpl. do 2 f_equal. change (n :: l ++ [last; last]) with ((n :: l) ++ [last] ++ [last]).
      rewrite app_assoc. rewrite take_app_length'; [done|]. unfold zlen. simpl. lia.
  - intros bad bad' H1 H2. destruct (instructionSetForConfig env) as [jt| |]; [|done..]. cbn [mbind outcome_bind length enable_extra].
    rewrite idx_0. bind_simpl. rewrite EnableEIP_invalid by done. change (slice [bad; bad'] (0 + 1) (zlen [bad; bad'])) with (@Ok Empty_set _ [bad']). bind_simpl.
    change (idx (E := Empty_set) _ (0 + 1)) with (@Ok Empty_set _ bad'). bind_simpl. by rewrite EnableEIP_invalid.
Qed.
End tables.
