(* ===== verification/VmSafe.v ===== *)
(** * The machine runs safely (src/core/vm)

    The interpreter's loop and the calls: every run ends, keeps to its stack,
    memory and code, and returns no more gas than it was given; a call that
    fails leaves the state as it was. *)
From stdpp Require Import prelude list gmap.
From Stdlib Require Import ZArith Lia.
From S2P Require Import Prelude RlpEncode TrieEncoding Trie TrieNode TrieHash VmBase VmCode Vm VmWp VmOps VmTables.

Section safety.
Context {U : Uint256} {K : Keccak} {S : Type} {VS : VMState S} {VL : VMLaws S}.
Abbreviation evm := (evm (S := S)).
Abbreviation X := (X (S := S)).
Implicit Types (f : frame) (e : evm).
Abbreviation later := (later_than inv since).

(** ** One step *)

(** The machine failed before or in an instruction. *)
Definition failed f e (s : frame * evm) : Prop := exists f' e', s = (f', e') /\ evm_step e e' /\ 0 <= Gas (contract f') <= Gas (contract f).

(** An operation is paid for, and its operands and memory are there. *)
Definition ready f e (s : frame * evm) (o : operation) : Prop :=
  exists f' e' credit slack, s = (f', e') /\ evm_step e e' /\ frame_ok f' /\ minStack o <= zlen (stack f') <= maxStack o /\ sized (memorySize o) f' /\
    0 <= CallGasTemp e' /\ 0 <= credit (stack f') (CallGasTemp e') /\ (slack = 1 \/ slack = 0 /\ credit = no_credit) /\ (halts o || reverts o = false -> slack = 1) /\
    Gas (contract f') + credit (stack f') (CallGasTemp e') + slack <= Gas (contract f) /\
    exec_ok (minStack o) (maxStack o) (memorySize o) credit (execute o).

Lemma wp_use_gas gas Q f e :
  (gas <= Gas (contract f) -> Q (with_contract f (with_gas (contract f) (Gas (contract f) - gas)), e) (inr ())) -> Q (f, e) (inl ErrOutOfGas) ->
  wp (use_gas gas) Q (f, e).
Proof.
  intros H1 H2. unfold use_gas, UseGas. apply wp_bind, wp_get_frame. destruct (Z.ltb_spec (Gas (contract f)) gas); [by apply wp_throw|]. by apply wp_put_frame, H1.
Qed.

Lemma wp_out_of_gas {A} (m : X A) Q s :
  wp m (fun s r => Q s (match r with inl _ => inl ErrOutOfGas | inr a => inr a end)) s -> wp (out_of_gas m) Q s.
Proof. unfold wp, out_of_gas. destruct (m s) as [[? []]|[]|]; auto. Qed.

Lemma toWordSize_covers n w : 0 <= n -> w = toWordSize n -> w * 32 < 2 ^ 64 -> n <= 32 * w.
Proof.
  intros Hn -> H. unfold toWordSize, MaxUint64 in *. destruct (n >? 2 ^ 64 - 1 - 31); [vm_compute in H; discriminate|].
  pose proof (Z.div_mod (n + 31) 32 ltac:(lia)). pose proof (Z.mod_pos_bound (n + 31) 32 ltac:(lia)). lia.
Qed.

(** The size in whole words, which covers what the operands name. *)
Lemma wp_memory_size o Q f e :
  size_ok (minStack o) (memorySize o) -> minStack o <= zlen (stack f) ->
  (forall w, 0 <= w -> (memorySize o = None -> w = 0) -> (forall m', 32 * w <= Len m' -> sized (memorySize o) (with_mem f m')) -> Q (f, e) (inr (32 * w))) ->
  (forall err, Q (f, e) (inl err)) -> wp (memory_size o) Q (f, e).
Proof.
  intros Hsz Hlen HQ He. unfold memory_size. destruct (memorySize o) as [size|].
  2: { apply wp_ret. by apply (HQ 0). }
  destruct (Hsz _ Hlen) as ([sz over] & Hs & Hpos). simpl in Hpos. apply wp_bind, wp_get_frame. apply wp_bind. eapply wp_lift_go; [exact Hs|].
  apply wp_bind, wp_checked; [|apply He]. simpl. intros ->. apply wp_checked; [|apply He]. intros Hover. pose proof (toWordSize_nonneg sz Hpos) as Hw.
  rewrite SafeMul_ok by (done || lia). rewrite Z.mul_comm. apply HQ; [done|done|]. intros m' Hm'. exists sz. split; [done|]. simpl.
  unfold SafeMul in Hover. simpl in Hover. apply Z.leb_gt in Hover. pose proof (toWordSize_covers sz _ Hpos eq_refl Hover). lia.
Qed.

Lemma Resize_zero m : mem_Resize m 0 = m.
Proof. unfold mem_Resize. pose proof (zlen_nonneg (mem_store m)). by rewrite (proj2 (Z.ltb_ge _ _)) by (unfold Len; lia). Qed.

(** The expansion of the memory, before the instruction. *)
Lemma wp_expand w Q f e :
  0 <= w -> Q (with_mem f (mem_Resize (mem f) (32 * w)), e) (inr ()) ->
  wp (if 32 * w >? 0 then f ← get_frame; put_frame (with_mem f (mem_Resize (mem f) (32 * w))) else mret () : X unit) Q (f, e).
Proof.
  intros Hw HQ. rewrite Z.gtb_ltb. destruct (Z.ltb_spec 0 (32 * w)); [by apply wp_bind, wp_get_frame, wp_put_frame|].
  apply wp_ret. replace (32 * w) with 0 in HQ by lia. rewrite Resize_zero in HQ. by destruct f.
Qed.

Lemma frame_ok_gas f g : frame_ok f -> 0 <= g <= Gas (contract f) -> frame_ok (with_contract f (with_gas (contract f) g)).
Proof. intros [? ? (? & ? & ? & ?) ? ?] Hg. split; try done. split_and!; try done; simpl; lia. Qed.
Lemma frame_ok_mem f m : frame_ok f -> mem_ok m -> frame_ok (with_mem f m).
Proof. intros [? ? ? ? ?] Hm. by split. Qed.

(** The dynamic charge, and then the memory. *)
Lemma charge_ready o f f1 e e1 w :
  op_ok o -> frame_ok f -> f1 = with_contract f (with_gas (contract f) (Gas (contract f) - constantGas o)) -> 0 <= constantGas o <= Gas (contract f) ->
  evm_step e e1 -> CallGasTemp e1 = 0 -> inv (state e1) -> minStack o <= zlen (stack f) <= maxStack o ->
  0 <= w -> (memorySize o = None -> w = 0) -> (forall m', 32 * w <= Len m' -> sized (memorySize o) (with_mem f m')) ->
  wp (_ ← match dynamicGas o with None => mret () | Some dyn => gas ← out_of_gas (dyn (32 * w)); use_gas gas end;
      _ ← (if 32 * w >? 0 then f ← get_frame; put_frame (with_mem f (mem_Resize (mem f) (32 * w))) else mret ());
      mret o : X operation)
    (fun s r => match r with inl _ => failed f e s | inr o' => o' = o /\ ready f e s o end) (f1, e1).
Proof.
  intros (credit & slack & Hslack & Hs0 & Hcg & Hcr & Hdyn & Hsz & Hex) Hf Hf1 Hc Hstep Ht Hi Hlen Hw Hnm Hsized.
  assert (Hok1 : frame_ok f1) by (subst; apply frame_ok_gas; [done|lia]). apply wp_bind. destruct (dynamicGas o) as [dyn|].
  - apply wp_bind, wp_out_of_gas. eapply wp_mono.
    { apply Hdyn; try done; [subst; simpl; lia|]. intros Hb. apply Hnm. apply bool_decide_eq_false in Hb. by destruct (memorySize o); [destruct Hb|]. }
    intros s r (m' & e' & -> & Hs' & Hst & Hr). assert (Hs2 : evm_step e e') by (by eapply evm_step_trans).
    destruct r as [err|gas]; cbv beta iota. { exists (with_mem f1 m'), e'. split; [done|]. split; [done|]. subst. simpl. lia. }
    destruct Hr as (Hg0 & Hmem & Hcov). apply wp_use_gas; [|exists (with_mem f1 m'), e'; split; [done|]; split; [done|]; subst; simpl; lia].
    cbn [with_mem contract]. intros Hgas. destruct (Hcov Hgas) as [Htemp Hcredit]. apply wp_bind, wp_expand; [done|]. apply wp_ret. split; [done|].
    eexists _, e', credit, slack. split; [done|]. split; [done|]. subst f1. cbn [with_mem with_contract with_gas contract Gas stack mem] in *. split_and!; try done; try lia.
    + pose proof (frame_ok_gas _ (Gas (contract f) - constantGas o - gas) Hf ltac:(lia)) as Hf'. by apply (frame_ok_mem _ (mem_Resize m' (32 * w)) Hf').
    + specialize (Hsized (mem_Resize m' (32 * w))). rewrite Resize_Len in Hsized. assert (32 * w <= Z.max (Len m') (32 * w)) as H%Hsized by lia. exact H.
    + by apply Hcr.
  - destruct Hdyn as (-> & Hsl & Hnone). apply wp_ret. apply wp_bind. rewrite (Hnm Hnone). apply wp_expand; [done|]. apply wp_ret. split; [done|].
    eexists _, e1, no_credit, slack. split; [done|]. split; [done|]. rewrite Hnone in *. unfold no_credit. rewrite Resize_zero.
    subst f1. cbn [with_mem with_contract with_gas contract Gas stack mem] in *. split_and!; try done; lia.
Qed.

Lemma prepare_ok env jt f e :
  table_ok jt -> frame_ok f -> inv (state e) ->
  wp (prepare env jt) (fun s r => match r with inl _ => failed f e s | inr o => op_ok o /\ ready f e s o end) (f, e).
Proof.
  intros Hjt Hf Hi. pose proof Hf as [_ _ (_ & _ & _ & Hg) Hpc _]. unfold prepare. wsteps.
  set (e1 := with_CallGasTemp e 0). assert (He1 : evm_step e e1) by apply evm_step_temp, evm_step_refl.
  assert (Hfail : failed f e (f, e1)) by (exists f, e1; split_and!; try done; lia).
  assert (exists op, GetOp (contract f) (pc f) = Ok op) as [op Hop].
  { unfold GetOp, GetByte. destruct (Z.ltb_spec (pc f) (zlen (Code (contract f)))); [apply idx_in_range; lia|by eexists]. }
  eapply wp_lift_go; [exact Hop|]. cbv beta iota. destruct (jt op) as [o|] eqn:Ho; [|by apply wp_throw]. destruct (Hjt _ _ Ho) as [Hok Hcall]. cbv zeta.
  destruct (Z.ltb_spec (zlen (stack f)) (minStack o)); [by apply wp_throw|]. rewrite Z.gtb_ltb. destruct (Z.ltb_spec (maxStack o) (zlen (stack f))); [by apply wp_throw|].
  apply wp_bind. apply (wp_mono _ (fun s r => s = (f, e1) /\ exists b, r = inr b)).
  { destruct (_ && _); [|by apply wp_ret; eauto]. destruct (writes o); [by apply wp_ret; eauto|]. destruct (Z.eqb_spec op CALL) as [->|]; [|by apply wp_ret; eauto].
    destruct (stack_at f 2) as [x Hx]; [specialize (Hcall eq_refl); lia|]. apply wp_bind. eapply wp_back; [exact Hx|]. apply wp_ret. eauto. }
  intros s r (-> & b & ->). destruct b; [by apply wp_throw|]. pose proof Hok as (credit & slack & _ & _ & Hcg & _ & _ & Hsz & _).
  apply wp_bind, wp_use_gas; [|done]. intros Hgas. apply wp_bind, wp_memory_size; [done|simpl; lia| |].
  - intros w Hw Hnm Hsized. eapply wp_mono; [apply (charge_ready o f _ e e1 w); try done; lia|]. intros s [err|o'] Hr; [done|]. by destruct Hr as [-> Hr].
  - intros err. eexists _, e1. split; [done|]. split; [done|]. simpl. lia.
Qed.

(** What a step does: it ends the run, or goes on with less gas. *)
Definition step_post f e (s : frame * evm) (r : next) : Prop :=
  exists f' e', s = (f', e') /\ evm_step e e' /\ 0 <= Gas (contract f') <= Gas (contract f) /\
    match r with Stop ret _ => is_slice ret | Continue => frame_ok f' /\ Gas (contract f') < Gas (contract f) end.

Lemma evm_step_returnData e e' r : evm_step e e' -> evm_step e (with_returnData e' r).
Proof. done. Qed.

Lemma finish_ok n calls f e s o :
  calls_ok n calls -> Gas (contract f) <= n -> frame_ok f -> inv (state e) -> ready f e s o -> wp (finish o calls) (step_post f e) s.
Proof.
  intros Hcalls Hn Hf Hi (f' & e' & credit & slack & -> & Hs & Hf' & Hlen & Hsz & Ht & Hcr & Hsl & Hcont & Hgas & Hex).
  pose proof Hf as [_ _ (_ & _ & _ & Hg) _ _]. pose proof Hf' as [_ _ (_ & _ & _ & Hg') _ _].
  assert (Hrun : wp (execute o calls) (exec_post (credit (stack f') (CallGasTemp e')) f' e') (f', e')).
  { apply (Hex n); try done; [by apply Hs|destruct Hsl as [->|[_ ->]]; [right; lia|by left]|lia]. }
  unfold wp, finish in *. destruct (execute o calls (f', e')) as [[[f2 e2] r]|[]|]; try done. destruct Hrun as (f3 & e3 & [= <- <-] & Hs2 & Hg2 & Hr).
  assert (Hs3 : evm_step e (if returns o then with_returnData e2 match r with inl _ => [] | inr b => b end else e2)).
  { destruct (returns o); [apply evm_step_returnData|]; by eapply evm_step_trans. }
  assert (0 <= Gas (contract f2) <= Gas (contract f)) by (destruct Hsl as [->|[-> _]]; lia). destruct r as [err|res].
  { eexists _, _. split; [done|]. split; [done|]. split; [done|]. apply is_slice_nil. }
  destruct Hr as [Hres Hf2]. destruct (reverts o) eqn:Er; [by eexists _, _|]. destruct (halts o) eqn:Eh; [by eexists _, _|].
  rewrite (Hcont eq_refl) in Hgas. destruct (jumps o).
  - eexists _, _. split; [done|]. split; [done|]. split; [done|]. split; [done|lia].
  - eexists _, _. split; [done|]. split; [done|]. split; [done|]. split; [|simpl; lia]. destruct Hf2 as [? ? ? ? ?]. split; try done. apply u64_range.
Qed.

Lemma one_step_ok env jt n calls f e :
  table_ok jt -> calls_ok n calls -> Gas (contract f) <= n -> frame_ok f -> inv (state e) -> wp (one_step env jt calls) (step_post f e) (f, e).
Proof.
  intros Hjt Hcalls Hn Hf Hi. pose proof Hf as [? ? (? & ? & ? & Hg) ? ?].
  assert (Hstop : forall f' e', evm_step e e' -> contract f' = contract f -> step_post f e (f', e') (Stop [] None)).
  { intros f' e' He' Hc. exists f', e'. rewrite Hc. split; [done|]. split; [done|]. split; [lia|]. apply is_slice_nil. }
  assert (Hgo : forall f' e', evm_step e e' -> frame_ok f' -> contract f' = contract f -> inv (state e') ->
    wp (r ← (prepare env jt : ST (frame * evm) (vm_error + operation)); match r with inl err => mret (Stop [] (Some err)) | inr o => finish o calls end)
      (step_post f e) (f', e')).
  { intros f' e' He' Hf' Hc Hi'. apply wp_st_bind. eapply wp_mono; [by apply prepare_ok|]. intros s [err|o] Hr; cbv beta iota.
    - destruct Hr as (f2 & e2 & -> & Hs & Hg2). apply wp_st_ret. exists f2, e2. rewrite Hc in Hg2. split; [done|]. split; [by eapply evm_step_trans|].
      split; [done|]. apply is_slice_nil.
    - destruct Hr as [_ Hr]. eapply wp_mono; [apply (finish_ok n calls f' e'); try done; by rewrite Hc|].
      intros s' r (f2 & e2 & -> & Hs & Hg2 & Hr2). exists f2, e2. rewrite Hc in Hg2, Hr2. split; [done|]. split; [by eapply evm_step_trans|]. by split. }
  unfold one_step. apply wp_st_bind. unfold aborted. unfold wp at 1. cbv zeta.
  destruct (_ mod _ =? 0); [destruct (aborts e) as [|[] ?]|].
  - by apply Hgo.
  - by apply Hstop.
  - by apply Hgo.
  - by apply Hgo.
Qed.

(** ** Calls *)

Lemma wp_e_get (Q : evm -> evm -> Prop) e : Q e e -> wp e_get Q e.
Proof. done. Qed.
Lemma wp_e_go {A} (m : go A) a (Q : evm -> A -> Prop) e : m = Ok a -> Q e a -> wp (e_go m) Q e.
Proof. by intros ->. Qed.
Lemma wp_e_on {A} P (g : S -> go (A * S)) (Q : evm -> A -> Prop) e :
  reads inv since P g -> inv (state e) ->
  (forall a s', g (state e) = Ok (a, s') -> P a -> inv s' -> evm_step e (with_state e s') -> Q (with_state e s') a) -> wp (e_on g) Q e.
Proof.
  intros Hg Hi HQ. destruct (Hg _ Hi) as (a & s' & Hr & HP & Hl). unfold wp, e_on, run_go. rewrite Hr. apply HQ; [done..|by apply Hl|by apply evm_step_state].
Qed.
Lemma wp_e_do (g : S -> go S) (Q : evm -> unit -> Prop) e :
  changes inv since g -> inv (state e) -> (forall s', inv s' -> evm_step e (with_state e s') -> Q (with_state e s') ()) -> wp (e_do g) Q e.
Proof.
  intros Hg Hi HQ. destruct (Hg _ Hi) as (s' & Hr & Hl). unfold wp, e_do, run_go. rewrite Hr. apply HQ; [by apply Hl|by apply evm_step_state].
Qed.

(** What a call promises: besides [call_post], a failed call leaves the state
    as it was. *)
Definition call_spec (gas : Z) e (e' : evm) (r : output * Z * option vm_error) : Prop :=
  call_post gas e e' r /\ (r.2 <> None -> same_state (state e') (state e)).

Lemma wp_limits gas Q e :
  (Q e None) -> (forall r, r.1.2 = gas -> r.1.1 = Fresh [] -> Q e (Some r)) -> forall env, wp (limits (S := S) env gas) Q e.
Proof. intros H1 H2 env. unfold limits. apply wp_st_bind, wp_e_get, wp_st_ret. destruct (_ && _); [by apply H2|]. destruct (_ >? _); [by apply H2|done]. Qed.

Lemma call_spec_stop gas e r : 0 <= gas -> r.1.2 = gas -> r.1.1 = Fresh [] -> call_spec gas e e r.
Proof.
  intros Hg E1 E2. split; [|intros _; apply same_refl]. unfold call_post. rewrite E1, E2. split; [apply evm_step_refl|]. split; [lia|apply is_slice_nil].
Qed.

(** The end of a call that took a snapshot in [e1], after [e0]. *)
Lemma wp_settle gas e0 e1 e r :
  inv (state e1) -> evm_step e0 e1 -> same_state (state e1) (state e0) -> 0 <= r.1.2 <= gas -> output_ok r.1.1 ->
  evm_step (with_state e1 (vs_Snapshot (state e1)).2) e -> wp (settle (vs_Snapshot (state e1)).1 r) (call_spec gas e0) e.
Proof.
  intros Hi Hs Hsame Hg Ho He. destruct r as [[ret left] [err|]]; unfold settle; simpl in Hg, Ho; destruct (l_Snapshot _ Hi) as [Hl Hsince].
  - pose proof He as ((_ & Hse) & Hd & Hro & _). destruct (l_Revert _ (state e) Hi) as (s3 & Hrev & Hst & Hinv & Hb); [by apply Hse|].
    apply wp_st_bind. unfold wp at 1, e_do, run_go. rewrite Hrev. apply wp_st_ret. split.
    + split; [|split; [cbn; case_decide; lia|done]]. destruct Hs as ((Hs1 & Hs2) & Hs3 & Hs4 & Hs5).
      split; [split; [done|intros b Hb'; by apply Hb, Hs2]|]. simpl in *. split_and!; [congruence|congruence|done].
    + intros _. simpl. by eapply same_trans.
  - apply wp_st_ret. split; [|done]. split; [|done]. eapply evm_step_trans; [exact Hs|]. eapply evm_step_trans; [by apply evm_step_state|done].
Qed.

(** *** Native contracts *)

Lemma dataCopy_ok : native_ok dataCopy.
Proof. intros input _. eexists. split; [done|]. split; [apply u64_range|done]. Qed.

Lemma natives_map_ok env : natives_ok (natives env) -> map_Forall (fun _ p => native_ok p) (PrecompiledContractsForConfig env).
Proof.
  intros Hn. unfold natives_ok in Hn. destruct_and! Hn. unfold PrecompiledContractsForConfig. cbv zeta.
  repeat case_match; repeat (apply map_Forall_insert_2; [first [assumption | apply dataCopy_ok]|]); apply map_Forall_empty.
Qed.

Lemma RunPrecompiledContract_ok env addr p input gas :
  natives_ok (natives env) -> precompile env addr = Some p -> is_slice input -> 0 <= gas < native_limit ->
  exists r, RunPrecompiledContract p input gas = Ok r /\ 0 <= r.1.2 <= gas /\ output_ok r.1.1.
Proof.
  intros Hn Hp Hin Hg. pose proof (natives_map_ok env Hn _ _ Hp input Hin) as (cost & Hr & Hc & Hrun). unfold RunPrecompiledContract.
  rewrite Hr. bind_simpl. destruct (Z.ltb_spec gas cost); [eexists; split; [done|]; split; [simpl; lia|apply is_slice_nil]|].
  specialize (Hrun ltac:(lia)). destruct (pre_Run p input) as [out|err|]; [|eexists; split; [done|]; split; [simpl; lia|apply is_slice_nil]|done].
  eexists. split; [done|]. split; [simpl; lia|by destruct out].
Qed.

(** *** The interpreter, as calls see it *)

Definition interp_ok (n : Z) (interp : Interp (S := S)) : Prop :=
  forall c input ro e, is_addr (self c) -> is_slice (Code c) -> is_slice input -> 0 <= Gas c < n -> Gas c < 2 ^ 64 -> inv (state e) ->
    wp (interp c input ro) (fun e' r => evm_step e e' /\ 0 <= Gas r.1.1 <= Gas c /\ is_slice r.1.2) e.

Section with_interp.
Context (env : Env) (Hnat : natives_ok (natives env)) (n : Z) (interp : Interp (S := S)) (Hint : interp_ok n interp) (Hn : n <= native_limit).

Lemma wp_CanTransfer a v (Q : evm -> bool -> Prop) e :
  is_addr a -> inv (state e) -> (forall b s', inv s' -> evm_step e (with_state e s') -> same_state s' (state e) -> Q (with_state e s') b) ->
  wp (CanTransfer a v) Q e.
Proof.
  intros Ha Hi HQ. unfold CanTransfer. apply wp_st_bind. eapply wp_e_on; [by apply l_GetBalance|done|]. intros b s' Hr _ Hi' Hs. apply wp_st_ret, HQ; try done.
  by eapply same_GetBalance.
Qed.

Lemma wp_snapshot (Q : evm -> Z -> Prop) e :
  inv (state e) -> (inv (vs_Snapshot (state e)).2 -> Q (with_state e (vs_Snapshot (state e)).2) (vs_Snapshot (state e)).1) -> wp snapshot Q e.
Proof.
  intros Hi HQ. unfold snapshot, wp, e_on, run_go. destruct (l_Snapshot _ Hi) as [[Hl _] _]. destruct (vs_Snapshot (state e)). by apply HQ, Hl.
Qed.

Lemma wp_enter c input ro gas (Q : evm -> output * Z * option vm_error -> Prop) e :
  is_addr (self c) -> is_slice (Code c) -> is_slice input -> Gas c = gas -> 0 <= gas < n -> inv (state e) ->
  (forall e' r, evm_step e e' -> 0 <= r.1.2 <= gas -> output_ok r.1.1 -> Q e' r) -> wp (enter interp c input ro) Q e.
Proof.
  intros Ha Hc Hi Hg Hgas Hinv HQ. unfold enter. apply wp_st_bind. eapply wp_mono; [apply Hint; try done; rewrite Hg; lia|].
  intros e' [[c' ret] err] (Hs & Hg' & Hr). apply wp_st_ret, HQ; [done|simpl in *; lia|done].
Qed.

Lemma share_cache_state caller e : exists e', share_cache caller e = Ok (e', ()) /\ evm_step e e' /\ state e' = state e.
Proof. destruct caller; eexists; (split; [done|]); by split. Qed.
Lemma wp_share_cache caller (Q : evm -> unit -> Prop) e : (forall e', evm_step e e' -> state e' = state e -> Q e' ()) -> wp (share_cache caller) Q e.
Proof. intros HQ. destruct (share_cache_state caller e) as (e' & E & Hs & Hst). unfold wp. rewrite E. by apply HQ. Qed.

(** The middle of a call, from the snapshot in [e1] to its end. *)
Lemma wp_settled gas e0 e1 e m :
  inv (state e1) -> evm_step e0 e1 -> same_state (state e1) (state e0) -> inv (state e) -> evm_step (with_state e1 (vs_Snapshot (state e1)).2) e ->
  wp m (fun e' r => evm_step e e' /\ 0 <= r.1.2 <= gas /\ output_ok r.1.1) e ->
  wp (r ← m; settle (vs_Snapshot (state e1)).1 r) (call_spec gas e0) e.
Proof.
  intros Hi Hs Hsame Hie He Hm. apply wp_st_bind. eapply wp_mono; [exact Hm|]. intros e' r (Hs' & Hg & Ho). apply wp_settle; try done.
  by eapply evm_step_trans.
Qed.

(** Code of another account, run for the caller or for that account. *)
Lemma wp_code addr gas e (k : list Z -> list Z -> ST evm (output * Z * option vm_error)) :
  is_addr addr -> inv (state e) ->
  (forall hash code e', is_slice code -> inv (state e') -> evm_step e e' -> wp (k hash code) (fun e'' r => evm_step e' e'' /\ 0 <= r.1.2 <= gas /\ output_ok r.1.1) e') ->
  wp (hash ← e_on (fun s => vs_GetCodeHash s addr); code ← e_on (fun s => vs_GetCode s addr); k hash code)
    (fun e' r => evm_step e e' /\ 0 <= r.1.2 <= gas /\ output_ok r.1.1) e.
Proof.
  intros Ha Hi Hk. apply wp_st_bind. eapply wp_e_on; [by apply l_GetCodeHash|done|]. intros hash s1 _ _ Hi1 Hs1.
  apply wp_st_bind. eapply wp_e_on; [by apply l_GetCode|done|]. intros code s2 _ Hcode Hi2 Hs2.
  assert (Hs : evm_step e (with_state (with_state e s1) s2)) by (by eapply evm_step_trans).
  eapply wp_mono; [by apply Hk|]. intros e' r (Hs' & Hr). split; [by eapply evm_step_trans|done].
Qed.

Lemma wp_native addr p input gas e : precompile env addr = Some p -> is_slice input -> 0 <= gas < n ->
  wp (e_go (RunPrecompiledContract p input gas)) (fun e' r => evm_step e e' /\ 0 <= r.1.2 <= gas /\ output_ok r.1.1) e.
Proof.
  intros Hp Hin Hg. destruct (RunPrecompiledContract_ok env addr p input gas Hnat Hp Hin ltac:(lia)) as (r & Hr & Hle & Ho).
  eapply wp_e_go; [exact Hr|]. split; [apply evm_step_refl|done].
Qed.

(** Code that runs in a new contract. *)
Lemma wp_run_code caller c input ro gas e :
  is_addr (self c) -> is_slice (Code c) -> is_slice input -> Gas c = gas -> 0 <= gas < n -> inv (state e) ->
  wp (_ ← share_cache caller; enter interp c input ro) (fun e' r => evm_step e e' /\ 0 <= r.1.2 <= gas /\ output_ok r.1.1) e.
Proof.
  intros Ha Hc Hi Hg Hgas Hinv. apply wp_st_bind, wp_share_cache. intros e' Hs Hst. eapply wp_enter; try done; [by rewrite Hst|].
  intros e'' r Hs' Hr Ho. split; [by eapply evm_step_trans|done].
Qed.

Lemma Call_ok caller addr input gas val e :
  is_addr (ref_address caller) -> is_addr addr -> is_slice input -> 0 <= gas < n -> inv (state e) ->
  wp (Call env interp caller addr input gas val) (call_spec gas e) e.
Proof.
  intros Hca Ha Hi Hg Hinv. unfold Call. apply wp_st_bind, wp_limits; [|intros r E1 E2; apply wp_st_ret; by apply call_spec_stop; [lia|..]].
  apply wp_st_bind. apply (wp_mono _ (fun e1 _ => inv (state e1) /\ evm_step e e1 /\ same_state (state e1) (state e))).
  { destruct (val =? 0); [apply wp_st_ret; split; [done|]; split; [apply evm_step_refl|apply same_refl]|]. by apply wp_CanTransfer. }
  intros e1 can (Hi1 & Hs1 & Hsame1). destruct can; cbn [negb].
  2: { apply wp_st_ret. split; [|done]. split; [done|]. split; [simpl; lia|apply is_slice_nil]. }
  apply wp_st_bind, wp_snapshot; [done|]. intros Hi2. set (e2 := with_state e1 _). cbv zeta.
  apply wp_st_bind. eapply wp_e_on; [by apply l_Exist|done|]. intros ex s3 _ _ Hi3 Hs3. set (e3 := with_state e2 s3) in *.
  assert (Hs12 : evm_step e1 e2) by (apply evm_step_state; by apply l_Snapshot).
  destruct (negb ex && _ && _ && _).
  { apply wp_st_ret. split; [|done]. split; [|split; [simpl; lia|apply is_slice_nil]]. eapply evm_step_trans; [done|]. by eapply evm_step_trans. }
  apply wp_st_bind. apply (wp_mono _ (fun e4 _ => inv (state e4) /\ evm_step e2 e4)).
  { destruct ex; [by apply wp_st_ret|]. eapply wp_e_do; [by apply l_CreateAccount|done|]. intros s' Hi' Hs'. split; [done|by eapply evm_step_trans]. }
  intros e4 _ (Hi4 & Hs4). apply wp_st_bind. unfold Transfer. apply wp_st_bind.
  eapply wp_e_do; [by apply l_SubBalance|done|]. intros s5 Hi5 Hs5. eapply wp_e_do; [by apply l_AddBalance|done|]. intros s6 Hi6 Hs6.
  assert (Hs46 : evm_step e2 (with_state (with_state e4 s5) s6)) by (eapply evm_step_trans; [exact Hs4|]; by eapply evm_step_trans).
  apply wp_settled with (e1 := e1); try done. destruct (precompile env addr) as [p|] eqn:Hp; [by apply (wp_native addr)|].
  set (e6 := with_state _ s6) in *. apply wp_st_bind. eapply wp_e_on; [by apply l_GetCode|done|]. intros code s7 _ Hcode Hi7 Hs7.
  destruct (zlen code =? 0). { apply wp_st_ret. split; [done|]. split; [simpl; lia|apply is_slice_nil]. }
  apply wp_st_bind. eapply wp_e_on; [by apply l_GetCodeHash|done|]. intros hash s8 _ _ Hi8 Hs8.
  eapply wp_mono; [by apply (wp_run_code caller (NewContract caller addr val gas hash code) input false gas)|].
  intros e9 r (Hs9 & Hr). split; [|done]. eapply evm_step_trans; [exact Hs7|]. by eapply evm_step_trans.
Qed.

(** After the checks of the other calls. *)
Lemma wp_other_call e e1 e2 addr gas input caller ro mk :
  inv (state e1) -> evm_step e e1 -> same_state (state e1) (state e) -> evm_step (with_state e1 (vs_Snapshot (state e1)).2) e2 -> inv (state e2) ->
  is_addr addr -> is_slice input -> 0 <= gas < n ->
  (forall hash code, self (mk hash code) = addr \/ is_addr (self (mk hash code))) -> (forall hash code, Code (mk hash code) = code /\ Gas (mk hash code) = gas) ->
  wp (r ← match precompile env addr with
          | Some p => e_go (RunPrecompiledContract p input gas)
          | None => hash ← e_on (fun s => vs_GetCodeHash s addr); code ← e_on (fun s => vs_GetCode s addr);
                    _ ← share_cache caller; enter interp (mk hash code) input ro
          end; settle (vs_Snapshot (state e1)).1 r) (call_spec gas e) e2.
Proof.
  intros Hi1 Hs1 Hsame Hs2 Hi2 Ha Hin Hg Hself Hmk. apply wp_settled; try done.
  destruct (precompile env addr) as [p|] eqn:Hp; [by apply (wp_native addr)|].
  apply wp_code; [done..|]. intros hash code e' Hcode Hi' Hs'. destruct (Hmk hash code) as [E1 E2].
  apply wp_run_code; try done; [by destruct (Hself hash code) as [->|]|by rewrite E1].
Qed.

Lemma CallCode_ok caller addr input gas val e :
  is_addr (ref_address caller) -> is_addr addr -> is_slice input -> 0 <= gas < n -> inv (state e) ->
  wp (CallCode env interp caller addr input gas val) (call_spec gas e) e.
Proof.
  intros Hca Ha Hi Hg Hinv. unfold CallCode. apply wp_st_bind, wp_limits; [|intros r E1 E2; apply wp_st_ret; by apply call_spec_stop; [lia|..]].
  apply wp_st_bind. apply wp_CanTransfer; [done..|]. intros can s1 Hi1 Hs1 Hsame1. destruct can; cbn [negb].
  2: { apply wp_st_ret. split; [|done]. split; [done|]. split; [simpl; lia|apply is_slice_nil]. }
  apply wp_st_bind, wp_snapshot; [done|]. intros Hi2. apply (wp_other_call e (with_state e s1)); try done; first [apply evm_step_refl|by right].
Qed.

Lemma StaticCall_ok caller addr input gas e :
  is_addr (ref_address caller) -> is_addr addr -> is_slice input -> 0 <= gas < n -> inv (state e) ->
  wp (StaticCall env interp caller addr input gas) (call_spec gas e) e.
Proof.
  intros Hca Ha Hi Hg Hinv. unfold StaticCall. apply wp_st_bind, wp_limits; [|intros r E1 E2; apply wp_st_ret; by apply call_spec_stop; [lia|..]].
  apply wp_st_bind, wp_snapshot; [done|]. intros Hi2. apply wp_st_bind. eapply wp_e_do; [by apply l_AddBalance|done|]. intros s3 Hi3 Hs3.
  apply (wp_other_call e e); try done; first [apply evm_step_refl|apply same_refl|by left].
Qed.

Lemma DelegateCall_ok caller addr input gas e :
  is_addr (self caller) -> is_addr addr -> is_slice input -> 0 <= gas < n -> inv (state e) ->
  wp (DelegateCall env interp caller addr input gas) (call_spec gas e) e.
Proof.
  intros Hca Ha Hi Hg Hinv. unfold DelegateCall. apply wp_st_bind, wp_limits; [|intros r E1 E2; apply wp_st_ret; by apply call_spec_stop; [lia|..]].
  apply wp_st_bind, wp_snapshot; [done|]. intros Hi2. apply wp_settled; try done; try apply evm_step_refl; try apply same_refl.
  destruct (precompile env addr) as [p|] eqn:Hp; [by apply (wp_native addr)|].
  apply wp_code; [done..|]. intros hash code e' Hcode Hi' Hs'. eapply wp_enter; try done.
Qed.

(** *** Creation *)

(** The revert to a snapshot taken in [e1]. *)
Lemma wp_revert e1 e (Q : evm -> unit -> Prop) :
  inv (state e1) -> evm_step (with_state e1 (vs_Snapshot (state e1)).2) e ->
  (forall s', inv s' -> evm_step e1 (with_state e s') -> same_state s' (state e1) -> Q (with_state e s') ()) ->
  wp (e_do (fun s => vs_RevertToSnapshot s (vs_Snapshot (state e1)).1)) Q e.
Proof.
  intros Hi ((_ & Hse) & Hd & Hro & _) HQ. destruct (l_Snapshot _ Hi) as [Hl Hsince].
  destruct (l_Revert _ (state e) Hi) as (s3 & Hrev & Hst & Hinv & Hb); [by apply Hse|].
  unfold wp, e_do, run_go. rewrite Hrev. apply HQ; [done| |done]. split; [by split|]. by split_and!.
Qed.

Lemma UseGas_spec c g : 0 <= g -> 0 <= Gas c -> 0 <= Gas (UseGas c g).2 <= Gas c.
Proof. intros. unfold UseGas. destruct (Z.ltb_spec (Gas c) g); simpl; lia. Qed.

Lemma deploy_ok e1 e address c ret err gas :
  inv (state e1) -> evm_step (with_state e1 (vs_Snapshot (state e1)).2) e -> is_addr address -> is_slice ret -> 0 <= Gas c <= gas ->
  wp (deploy env (vs_Snapshot (state e1)).1 address c ret err) (create_post gas e1) e.
Proof.
  intros Hi Hs Ha Hr Hg. assert (Hie : inv (state e)) by (by apply Hs, l_Snapshot).
  unfold deploy. set (exceeded := _ && (_ >? _)). apply wp_st_bind.
  apply (wp_mono _ (fun e2 r => evm_step (with_state e1 (vs_Snapshot (state e1)).2) e2 /\ 0 <= Gas r.1 <= gas)).
  - destruct (bool_decide _ && negb _); [|by apply wp_st_ret; split]. pose proof (u64_range (zlen ret * CreateDataGas)).
    pose proof (UseGas_spec c (u64 (zlen ret * CreateDataGas)) ltac:(lia) ltac:(lia)) as Hu. destruct (UseGas c _) as [[] c']; simpl in Hu.
    + apply wp_st_bind. eapply wp_e_do; [by apply l_SetCode|done|]. intros s' Hi' Hs'. apply wp_st_ret. split; [by eapply evm_step_trans|simpl; lia].
    + apply wp_st_ret. split; [done|simpl; lia].
  - intros e2 [c2 err2] (Hs2 & Hg2). simpl in Hg2. cbv beta iota. assert (Hs02 : evm_step e1 e2) by (eapply evm_step_trans; [|exact Hs2]; by apply evm_step_state, l_Snapshot).
    apply wp_st_bind. apply (wp_mono _ (fun e3 c3 => evm_step e1 e3 /\ 0 <= Gas c3 <= gas)).
    + destruct (_ || _); [|by apply wp_st_ret; split]. apply wp_st_bind, (wp_revert e1); [done..|]. intros s' Hi' Hs' _. apply wp_st_ret. split; [done|].
      pose proof (UseGas_spec c2 (Gas c2) ltac:(lia) ltac:(lia)). case_decide; lia.
    + intros e3 c3 (Hs3 & Hg3). apply wp_st_ret. by split.
Qed.

Lemma create_ok caller code hash gas val address e :
  is_addr (ref_address caller) -> is_addr address -> is_slice code -> 0 <= gas < n -> inv (state e) ->
  wp (create env interp caller code hash gas val address) (create_post gas e) e.
Proof.
  intros Hca Ha Hcode Hg Hi.
  assert (Hstop : forall e' a left err, evm_step e e' -> 0 <= left <= gas -> create_post gas e e' ([], a, left, err)).
  { intros e' a left err Hs Hl. split; [done|]. split; [done|apply is_slice_nil]. }
  unfold create. cbv zeta. apply wp_st_bind, wp_e_get. destruct (_ >? _); [apply wp_st_ret, Hstop; [apply evm_step_refl|lia]|].
  apply wp_st_bind, wp_CanTransfer; [done..|]. intros can s1 Hi1 Hs1 _. destruct can; cbn [negb]; [|apply wp_st_ret, Hstop; [done|lia]].
  apply wp_st_bind. eapply wp_e_on; [by apply l_GetNonce|done|]. intros nonce s2 _ _ Hi2 Hs2.
  apply wp_st_bind. eapply wp_e_do; [by apply l_SetNonce|done|]. intros s3 Hi3 Hs3.
  apply wp_st_bind. eapply wp_e_on; [by apply l_GetCodeHash|done|]. intros chash s4 _ _ Hi4 Hs4.
  apply wp_st_bind. eapply wp_e_on; [by apply l_GetNonce|done|]. intros nonce' s5 _ _ Hi5 Hs5. set (e5 := with_state _ s5) in *.
  assert (Hs05 : evm_step e e5) by (do 4 (eapply evm_step_trans; [eassumption|]); done).
  destruct (_ || _); [apply wp_st_ret, Hstop; [done|lia]|]. apply wp_st_bind, wp_snapshot; [done|]. intros Hi6. set (e6 := with_state e5 _).
  assert (Hs56 : evm_step e5 e6) by (by apply evm_step_state, l_Snapshot).
  apply wp_st_bind. eapply wp_e_do; [by apply l_CreateAccount|done|]. intros s7 Hi7 Hs7.
  apply wp_st_bind. apply (wp_mono _ (fun e8 _ => inv (state e8) /\ evm_step e6 e8)).
  { destruct (enabled _ _); [|by apply wp_st_ret; split]. eapply wp_e_do; [by apply l_SetNonce|done|]. intros s' Hi' Hs'. split; [done|by eapply evm_step_trans]. }
  intros e8 _ (Hi8 & Hs8). apply wp_st_bind. unfold Transfer. apply wp_st_bind.
  eapply wp_e_do; [by apply l_SubBalance|done|]. intros s9 Hi9 Hs9. eapply wp_e_do; [by apply l_AddBalance|done|]. intros s10 Hi10 Hs10.
  set (e10 := with_state _ s10) in *. assert (Hs610 : evm_step e6 e10) by (eapply evm_step_trans; [exact Hs8|]; by eapply evm_step_trans).
  destruct (_ && _); [apply wp_st_ret, Hstop; [|lia]; eapply evm_step_trans; [exact Hs05|]; by eapply evm_step_trans|].
  apply wp_st_bind, wp_share_cache. intros e11 Hs11 Hst11. apply wp_st_bind. eapply wp_mono; [apply Hint; try done; first [by rewrite Hst11|apply is_slice_nil|simpl; lia]|].
  intros e12 [[c12 ret] err] (Hs12 & Hg12 & Hr). cbv beta iota. eapply wp_mono; [apply (deploy_ok e5) with (gas := gas); try done|].
  { eapply evm_step_trans; [exact Hs610|]. by eapply evm_step_trans. }
  intros e13 r (Hs13 & Hr13). split; [by eapply evm_step_trans|done].
Qed.

Lemma address_of_hash b : exists a, (h ← slice_from (keccak256 b) 12; Ok (BytesToAddress h) : go address_t) = Ok a /\ is_addr a.
Proof.
  unfold slice_from. pose proof (keccak_len b) as Hl. rewrite Hl, slice_ok by lia. bind_simpl. eexists. split; [done|].
  change (Z.to_nat (32 - 12)) with 20%nat. change (Z.to_nat 12) with 12%nat. set (h := take 20 (drop 12 (keccak256 b))).
  assert (Hh : zlen h = 20) by (unfold h, zlen in *; rewrite length_take, length_drop; lia).
  assert (Hb : bytes_ok h) by (apply Forall_take, Forall_drop, keccak_bytes). unfold BytesToAddress.
  rewrite Hh. change (20 >? 20) with false. cbv iota zeta. rewrite Hh. by split.
Qed.

Lemma Create_ok caller code gas val e :
  is_addr (ref_address caller) -> is_slice code -> 0 <= gas < n -> inv (state e) -> wp (Create env interp caller code gas val) (create_post gas e) e.
Proof.
  intros Hca Hcode Hg Hi. unfold Create. apply wp_st_bind. eapply wp_e_on; [by apply l_GetNonce|done|]. intros nonce s1 _ _ Hi1 Hs1.
  unfold CreateAddress. set (data := match EncodeToBytes _ _ with Ok d => d | _ => [] end). destruct (address_of_hash data) as (a & Ha & Haddr).
  apply wp_st_bind. eapply wp_e_go; [exact Ha|]. eapply wp_mono; [by apply create_ok|]. intros e' r (Hs & Hr). split; [by eapply evm_step_trans|done].
Qed.
Lemma Create2_ok caller code gas val salt e :
  is_addr (ref_address caller) -> is_slice code -> 0 <= gas < n -> inv (state e) -> wp (Create2 env interp caller code gas val salt) (create_post gas e) e.
Proof.
  intros Hca Hcode Hg Hi. unfold Create2, CreateAddress2. destruct (address_of_hash ([255] ++ ref_address caller ++ Bytes32 salt ++ keccak256 code)) as (a & Ha & Haddr).
  apply wp_st_bind. eapply wp_e_go; [exact Ha|]. by apply create_ok.
Qed.

Lemma spec_post gas e m : wp m (call_spec gas e) e -> wp m (call_post gas e) e.
Proof. intros H. eapply wp_mono; [exact H|]. by intros ? ? [? _]. Qed.

Lemma calls_of_ok : calls_ok n (calls_of env interp).
Proof.
  split; intros; cbn [calls_of c_Call c_CallCode c_DelegateCall c_StaticCall c_Create c_Create2].
  1-4: apply spec_post.
  - by apply Call_ok.
  - by apply CallCode_ok.
  - by apply DelegateCall_ok.
  - by apply StaticCall_ok.
  - by apply Create_ok.
  - by apply Create2_ok.
Qed.
End with_interp.

(** ** Runs *)

(** The end of a run of a frame. *)
Definition run_post f e (s : frame * evm) (r : list Z * option vm_error) : Prop :=
  exists f' e', s = (f', e') /\ evm_step e e' /\ 0 <= Gas (contract f') <= Gas (contract f) /\ is_slice r.1.

Lemma enter_frame_ok loop ro c input e :
  (forall f e, frame_ok f -> Gas (contract f) = Gas c -> inv (state e) -> wp loop (run_post f e) (f, e)) ->
  is_addr (self c) -> is_slice (Code c) -> is_slice input -> 0 <= Gas c < 2 ^ 64 -> inv (state e) ->
  wp (enter_frame loop ro c input) (fun e' r => evm_step e e' /\ 0 <= Gas r.1.1 <= Gas c /\ is_slice r.1.2) e.
Proof.
  intros Hloop Ha Hc Hin Hg Hi. set (e1 := with_returnData (with_readOnly (with_depth e (depth e + 1)) (readOnly e || ro)) []).
  assert (Hleave : forall e', evm_step e1 e' -> evm_step e (with_depth (if ro && negb (readOnly e) then with_readOnly e' false else e') (depth e' - 1))).
  { intros e' (Hl & Hd & Hro & Hinv). unfold e1 in *. simpl in *.
    destruct ro, (readOnly e) eqn:Ero; simpl in *; (split; [done|]); (split; [simpl; lia|]); (split; [simpl; congruence|done]). }
  unfold wp at 1, enter_frame. cbv zeta. fold e1. destruct (_ =? 0). { split; [apply Hleave, evm_step_refl|]. split; [simpl; lia|apply is_slice_nil]. }
  assert (Hf : frame_ok (MkFrame 0 NewMemory [] [] (with_input c input) 0)).
  { split; try done; [exists 0; by split_and!]. }
  specialize (Hloop _ e1 Hf eq_refl Hi). unfold wp in Hloop. destruct (loop _) as [[[f' e'] [ret err]]|[]|]; try done.
  destruct Hloop as (f2 & e2 & [= <- <-] & Hs & Hgas & Hret). split; [by apply Hleave|]. by split.
Qed.

Lemma loop_ok env jt fuel : natives_ok (natives env) -> table_ok jt -> Z.of_nat fuel <= native_limit -> forall f e,
  frame_ok f -> Gas (contract f) < Z.of_nat fuel -> inv (state e) -> wp (loop env jt fuel) (run_post f e) (f, e).
Proof.
  intros Hnat Hjt. induction fuel as [|fuel IH]; intros Hfuel f e Hf Hgas Hi. { destruct Hf as [_ _ (_ & _ & _ & ?) _ _]. lia. }
  assert (Hint : interp_ok (Z.of_nat fuel) (fun c input ro => enter_frame (loop env jt fuel) ro c input)).
  { intros c input ro e' Ha Hc Hin Hg H64 Hi'. apply enter_frame_ok; try done; [|lia]. intros f' e'' Hf' Hg' Hi''. apply IH; try done; lia. }
  cbn [loop]. apply wp_st_bind. eapply wp_mono; [apply (one_step_ok env jt (Z.of_nat fuel)); try done; [|lia]|].
  - apply calls_of_ok; try done; lia.
  - intros s r (f' & e' & -> & Hs & Hg & Hr). destruct r as [|ret err]; [|apply wp_st_ret; by exists f', e'].
    destruct Hr as [Hf' Hlt]. eapply wp_mono; [apply IH; try done; [lia|lia|by apply Hs]|].
    intros s'' r (f2 & e2 & -> & Hs2 & Hg2 & Hr2). exists f2, e2. split; [done|]. split; [by eapply evm_step_trans|]. split; [lia|done].
Qed.

(** C1. A run of a contract, with a table that the interpreter builds and
    for the gas of the contract, which is below 2^45, ends after at most a step
    per unit of gas, provided that the native contracts keep their promises.
    It does not index its stack, memory, code or data out of range, and it
    leaves no more gas than it had, and the depth and the write protection as
    they were.  What can go wrong is a cached analysis that is too short for
    the code, for which the code hashes must collide, and a refund counter
    below zero; both are panics of the program, and nothing is claimed of the
    state then. *)
Theorem Run_safe env extra jt reported c input ro e :
  natives_ok (natives env) -> NewEVMInterpreter env extra = Ok (jt, reported) ->
  is_addr (self c) -> is_slice (Code c) -> is_slice input -> 0 <= Gas c < native_limit -> inv (state e) ->
  match Run env jt (Datatypes.S (Z.to_nat (Gas c))) c input ro e with
  | Ok (e', (c', ret, err)) => 0 <= Gas c' <= Gas c /\ depth e' = depth e /\ readOnly e' = readOnly e /\ inv (state e') /\ is_slice ret
  | Err CachedAnalysis | Err RefundBelowZero => True
  | Err Exhausted | Panic => False
  end.
Proof.
  intros Hnat Hjt Ha Hc Hin Hg Hi. apply NewEVMInterpreter_table in Hjt.
  assert (Hrun : wp (Run env jt (Datatypes.S (Z.to_nat (Gas c))) c input ro) (fun e' r => evm_step e e' /\ 0 <= Gas r.1.1 <= Gas c /\ is_slice r.1.2) e).
  { apply enter_frame_ok; try done; [|lia]. intros f e' Hf Hgf Hi'. apply loop_ok; try done; lia. }
  unfold wp in Hrun. destruct (Run _ _ _ _ _ _ _) as [[e' [[c' ret] err]]|[]|]; try done. destruct Hrun as ((_ & Hd & Hro & Hinv) & Hg' & Hr).
  simpl in *. split_and!; try done; try lia; auto.
Qed.

Lemma Run_interp_ok env extra jt reported fuel :
  natives_ok (natives env) -> NewEVMInterpreter env extra = Ok (jt, reported) -> Z.of_nat fuel <= native_limit -> interp_ok (Z.of_nat fuel) (Run env jt fuel).
Proof.
  intros Hnat Hjt Hf c input ro e Ha Hc Hin Hg H64 Hi. apply NewEVMInterpreter_table in Hjt. apply enter_frame_ok; try done; [|lia].
  intros f e' Hf' Hgf Hi'. apply loop_ok; try done. lia.
Qed.

(** The calls that a contract can make. *)
Inductive call_op := KCall (value : Z) | KCallCode (value : Z) | KDelegateCall | KStaticCall.

Definition do_call env (interp : Interp (S := S)) (k : call_op) (c : Contract) (addr : address_t) (input : list Z) (gas : Z) : ST evm (output * Z * option vm_error) :=
  match k with
  | KCall v => Call env interp (ContractOf c) addr input gas v
  | KCallCode v => CallCode env interp (ContractOf c) addr input gas v
  | KDelegateCall => DelegateCall env interp c addr input gas
  | KStaticCall => StaticCall env interp (ContractOf c) addr input gas
  end.

Lemma do_call_ok env extra jt reported k c addr input gas e :
  natives_ok (natives env) -> NewEVMInterpreter env extra = Ok (jt, reported) ->
  is_addr (self c) -> is_addr addr -> is_slice input -> 0 <= gas < native_limit -> inv (state e) ->
  wp (do_call env (Run env jt (Datatypes.S (Z.to_nat gas))) k c addr input gas) (call_spec gas e) e.
Proof.
  intros Hnat Hjt Ha Haddr Hin Hg Hi. pose proof (Run_interp_ok env extra jt reported (Datatypes.S (Z.to_nat gas)) Hnat Hjt ltac:(lia)) as Hint.
  destruct k; [eapply Call_ok|eapply CallCode_ok|eapply DelegateCall_ok|eapply StaticCall_ok]; try done; lia.
Qed.

(** C2. A call is atomic: when it returns an error, for whatever reason and
    however deep the calls and snapshots below it, the state is as it was
    before; it leaves no more gas than it was given, which is below 2^45, if
    the native contracts keep their promises.  The two faults [CachedAnalysis]
    and [RefundBelowZero] are panics of the program, from which no state comes
    back: nothing is claimed of them.  No other panic happens. *)
Theorem do_call_atomic env extra jt reported k c addr input gas e :
  natives_ok (natives env) -> NewEVMInterpreter env extra = Ok (jt, reported) ->
  is_addr (self c) -> is_addr addr -> is_slice input -> 0 <= gas < native_limit -> inv (state e) ->
  match do_call env (Run env jt (Datatypes.S (Z.to_nat gas))) k c addr input gas e with
  | Ok (e', (out, rest, err)) => 0 <= rest <= gas /\ depth e' = depth e /\ inv (state e') /\ (err <> None -> same_state (state e') (state e))
  | Err CachedAnalysis | Err RefundBelowZero => True
  | Err Exhausted | Panic => False
  end.
Proof.
  intros Hnat Hjt Ha Haddr Hin Hg Hi. pose proof (do_call_ok env extra jt reported k c addr input gas e Hnat Hjt Ha Haddr Hin Hg Hi) as Hrun.
  unfold wp in Hrun. destruct (do_call _ _ _ _ _ _ _ _) as [[e' [[out rest] err]]|[]|]; try done.
  destruct Hrun as [((_ & Hd & _ & Hinv) & Hle & _) Hsame]. simpl in *. split_and!; try done; try lia; auto.
Qed.

(** ** The result of the identity contract *)

Lemma GetPtr_spec m o l : mem_ok m -> fits m o l -> ToBig l <> 0 ->
  GetPtr m (int64 (Uint64 o)) (int64 (Uint64 l)) = Ok (take (Z.to_nat (ToBig l)) (drop (Z.to_nat (ToBig o)) (mem_store m))).
Proof.
  intros Hm Hf E. destruct (fits_range m o l Hm Hf E) as (? & ? & ? & ?). unfold GetPtr. rewrite !Uint64_small, !int64_small by lia.
  rewrite (proj2 (Z.eqb_neq _ _) E), Z.gtb_ltb, (proj2 (Z.ltb_lt _ _)) by lia. rewrite slice_ok by (unfold Len in *; lia).
  by replace (ToBig o + ToBig l - ToBig o) with (ToBig l) by lia.
Qed.

Lemma mem_Set_spec m o l v : mem_ok m -> fits m o l -> ToBig l <> 0 -> zlen v = ToBig l ->
  mem_Set m (Uint64 o) (Uint64 l) v =
  Ok (MkMemory (take (Z.to_nat (ToBig o)) (mem_store m) ++ v ++ drop (Z.to_nat (ToBig o + ToBig l)) (mem_store m)) (lastGasCost m)).
Proof.
  intros Hm Hf E Hv. destruct (fits_range m o l Hm Hf E) as (? & ? & ? & ?). unfold mem_Set. rewrite !Uint64_small by lia. rewrite u64_small by lia.
  rewrite Z.gtb_ltb, (proj2 (Z.ltb_lt _ _)), !Z.gtb_ltb, !(proj2 (Z.ltb_ge _ _)) by lia.
  rewrite (firstn_all2 v) by (unfold zlen in *; lia).
  destruct (copy_at_spec (mem_store m) v (ToBig o)) as (st & -> & Hlen & ->); [lia|unfold Len in *; lia|]. bind_simpl.
  do 5 f_equal. unfold zlen in *. lia.
Qed.

(** Reading a region after its content was written [k] bytes further on. *)
Lemma overlap_read (st b : list Z) (o l k : nat) : b = take l (drop o st) -> (k < l)%nat -> (o + k + l <= length st)%nat ->
  take l (drop o (take (o + k) st ++ b ++ drop (o + k + l) st)) = take k b ++ take (l - k) b.
Proof.
  intros Hb Hk Hlen. assert (Hlb : length b = l) by (rewrite Hb, length_take, length_drop; lia).
  assert (Hd : drop o (take (o + k) st) = take k b) by (rewrite Hb, take_take, Nat.min_l by lia; by rewrite take_drop_commute).
  rewrite drop_app_le by (rewrite length_take; lia). rewrite Hd. assert (Hlk : length (take k b) = k) by (rewrite length_take; lia).
  rewrite take_app, Hlk, (firstn_all2 (take k b)) by lia. f_equal. rewrite take_app_le by lia. done.
Qed.

(**  The native identity contract returns the caller's memory itself, and
    the caller reads that slice again after it wrote the result to memory.
    When the output region starts inside the input region, what the call
    reports as return data is not the data that was passed: its end is
    replaced by its beginning. *)
Theorem identity_returnData_aliased f e io il ro b back :
  mem_ok (mem f) -> fits (mem f) io il -> fits (mem f) ro il -> ToBig io < ToBig ro < ToBig io + ToBig il ->
  b = take (Z.to_nat (ToBig il)) (drop (Z.to_nat (ToBig io)) (mem_store (mem f))) ->
  exists f' k, k = Z.to_nat (ToBig ro - ToBig io) /\
    after_call (SameInput, back, None) io il ro il (f, e) = Ok ((f', e), inr (take k b ++ take (length b - k) b)).
Proof.
  intros Hm Hin Hout Hov Hb. set (k := Z.to_nat (ToBig ro - ToBig io)). assert (E : ToBig il <> 0) by lia.
  destruct (fits_range _ io il Hm Hin E) as (? & ? & ? & ?). destruct (fits_range _ ro il Hm Hout E) as (? & ? & ? & ?).
  assert (Hlb : length b = Z.to_nat (ToBig il)) by (rewrite Hb, length_take, length_drop; unfold Len, zlen in *; lia).
  pose proof (GetPtr_spec _ io il Hm Hin E) as Hget. rewrite <- Hb in Hget.
  pose proof (mem_Set_spec _ ro il b Hm Hout E ltac:(unfold zlen; lia)) as Hset. set (m' := MkMemory _ _) in Hset.
  assert (Hw : written (mem f) m').
  { split; [|done]. unfold m', Len. simpl. rewrite !zlen_app. unfold zlen. rewrite length_take, length_drop. unfold Len, zlen in *. lia. }
  pose proof (GetPtr_spec m' io il (written_ok _ _ Hm Hw) (written_fits _ _ _ _ Hw Hin) E) as Hget'.
  assert (Hr : take (Z.to_nat (ToBig il)) (drop (Z.to_nat (ToBig io)) (mem_store m')) = take k b ++ take (length b - k) b).
  { unfold m'. simpl. rewrite Hlb. replace (Z.to_nat (ToBig ro)) with (Z.to_nat (ToBig io) + k)%nat by (unfold k; lia).
    replace (Z.to_nat (ToBig ro + ToBig il)) with (Z.to_nat (ToBig io) + k + Z.to_nat (ToBig il))%nat by (unfold k; lia).
    apply overlap_read; [done|unfold k; lia|]. unfold Len, zlen in *. unfold k. lia. }
  rewrite Hr in Hget'. eexists _, k. split; [done|].
  unfold after_call, deref, ptr, x_read, x_mem, x_push, give_back, mbind, X_bind, get_frame, put_frame, lift_go. simpl.
  rewrite Hget. simpl. rewrite Hset. simpl. rewrite Hget'. reflexivity.
Qed.
End safety.
