(* ===== verification/StateTransition.v ===== *)
(** * Transactions (src/core/state_transition.go, src/core/gaspool.go)

    A message buys gas, pays its intrinsic gas, runs in the machine, and gets
    back what it did not use; the rest goes to the miner.  The amounts are
    64-bit numbers, and the gas of a block is counted by a pool. *)
From stdpp Require Import prelude list gmap.
From Stdlib Require Import ZArith Lia.
From S2P Require Import Prelude RlpEncode TrieEncoding Trie TrieNode TrieHash VmBase VmCode Vm VmWp VmOps VmTables VmSafe.

(** ** Data *)

Inductive core_error :=
| ErrNonceTooLow
| ErrNonceTooHigh
| ErrGasLimitReached
| ErrInsufficientFundsForTransfer
| ErrInsufficientFunds
| core_ErrGasUintOverflow
| ErrIntrinsicGas.

Record Message := MkMessage {
  From : address_t;
  To : option address_t;
  msg_GasPrice : Z;
  msg_Gas : Z;
  msg_Value : Z;
  msg_Nonce : Z;
  CheckNonce : bool;
  msg_Data : list Z;
}.

Record ExecutionResult := MkResult { UsedGas : Z; res_Err : option vm_error; ReturnData : list Z }.

(** The parts of [StateTransition] that change; [gp] is the pool it shares with
    the other transactions of the block. *)
Record StateTransition := MkTransition { gp : Z; gas : Z; initialGas : Z }.

Definition TxGas : Z := 21000.
Definition TxGasContractCreation : Z := 53000.
Definition TxDataZeroGas : Z := 4.
Definition TxDataNonZeroGasFrontier : Z := 68.
Definition TxDataNonZeroGasEIP2028 : Z := 16.

(** ** The gas pool (gaspool.go) *)

Definition AddGas (gp amount : Z) : go Z := if gp >? MaxUint64 - amount then Panic else Ok (u64 (gp + amount)).
Definition SubGas (gp amount : Z) : core_error + Z := if gp <? amount then inl ErrGasLimitReached else inr (gp - amount).

(** ** Intrinsic gas *)

Fixpoint count_nonzero (data : list Z) : Z :=
  match data with [] => 0 | byt :: data => (if byt =? 0 then 0 else 1) + count_nonzero data end.

Definition IntrinsicGas (data : list Z) (contractCreation isEIP2 isEIP2028 : bool) : core_error + Z :=
  let gas := if contractCreation && isEIP2 then TxGasContractCreation else TxGas in
  if zlen data >? 0 then
    let nz := count_nonzero data in
    let nonZeroGas := if isEIP2028 then TxDataNonZeroGasEIP2028 else TxDataNonZeroGasFrontier in
    if (MaxUint64 - gas) / nonZeroGas <? nz then inl core_ErrGasUintOverflow
    else
      let gas := u64 (gas + u64 (nz * nonZeroGas)) in
      let z := u64 (zlen data - nz) in
      if (MaxUint64 - gas) / TxDataZeroGas <? z then inl core_ErrGasUintOverflow
      else inr (u64 (gas + u64 (z * TxDataZeroGas)))
  else inr gas.

(** ** The transition *)

Section transition.
Context {U : Uint256} {K : Keccak} {S : Type} {VS : VMState S}.
Context (env : Env) (interp : Interp (S := S)).
Abbreviation evm := (evm (S := S)).

Definition buyGas (msg : Message) (st : StateTransition) : ST evm (StateTransition * option core_error) :=
  let mgval := msg_Gas msg * msg_GasPrice msg in
  balance ← e_on (fun s => vs_GetBalance s (From msg));
  if balance <? mgval then mret (st, Some ErrInsufficientFunds)
  else
    match SubGas (gp st) (msg_Gas msg) with
    | inl err => mret (st, Some err)
    | inr pool =>
        _ ← e_do (fun s => vs_SubBalance s (From msg) mgval);
        mret (MkTransition pool (u64 (gas st + msg_Gas msg)) (msg_Gas msg), None)
    end.

Definition preCheck (msg : Message) (st : StateTransition) : ST evm (StateTransition * option core_error) :=
  bad ← (if CheckNonce msg then
           nonce ← e_on (fun s => vs_GetNonce s (From msg));
           mret (if nonce <? msg_Nonce msg then Some ErrNonceTooHigh
                 else if nonce >? msg_Nonce msg then Some ErrNonceTooLow else None)
         else mret None);
  match bad with
  | Some err => mret (st, Some err)
  | None => buyGas msg st
  end.

Definition gasUsed (st : StateTransition) : Z := u64 (initialGas st - gas st).

(** The refund counter is a 64-bit number. *)
Definition refundGas (msg : Message) (st : StateTransition) : ST evm StateTransition :=
  e ← e_get;
  let counter := u64 (vs_GetRefund (state e)) in
  let refund := gasUsed st / 2 in
  let refund := if refund >? counter then counter else refund in
  let st := MkTransition (gp st) (u64 (gas st + refund)) (initialGas st) in
  _ ← e_do (fun s => vs_AddBalance s (From msg) (gas st * msg_GasPrice msg));
  pool ← e_go (AddGas (gp st) (gas st));
  mret (MkTransition pool (gas st) (initialGas st)).

(** The call or the creation that the message asks for. *)
Definition execute_msg (msg : Message) (gas : Z) : ST evm (list Z * Z * option vm_error) :=
  match To msg with
  | None =>
      '(ret, _, gas, err) ← Create env interp (AccountRef (From msg)) (msg_Data msg) gas (msg_Value msg);
      mret (ret, gas, err)
  | Some to =>
      nonce ← e_on (fun s => vs_GetNonce s (From msg));
      _ ← e_do (fun s => vs_SetNonce s (From msg) (u64 (nonce + 1)));
      '(ret, gas, err) ← Call env interp (AccountRef (From msg)) to (msg_Data msg) gas (msg_Value msg);
      mret (match ret with Fresh b => b | SameInput => msg_Data msg end, gas, err)
  end.

Definition intrinsic (msg : Message) : core_error + Z :=
  IntrinsicGas (msg_Data msg) (bool_decide (To msg = None)) (enabled env GetEIP2Transition) (enabled env GetEIP2028Transition).

Definition TransitionDb (msg : Message) (st : StateTransition) : ST evm (StateTransition * (core_error + ExecutionResult)) :=
  '(st, err) ← preCheck msg st;
  match err with
  | Some err => mret (st, inl err)
  | None =>
      match intrinsic msg with
      | inl err => mret (st, inl err)
      | inr needed =>
          if gas st <? needed then mret (st, inl ErrIntrinsicGas)
          else
            let st := MkTransition (gp st) (gas st - needed) (initialGas st) in
            can ← (if msg_Value msg >? 0 then CanTransfer (From msg) (msg_Value msg) else mret true);
            if negb can then mret (st, inl ErrInsufficientFundsForTransfer)
            else
              '(ret, rest, vmerr) ← execute_msg msg (gas st);
              st ← refundGas msg (MkTransition (gp st) rest (initialGas st));
              _ ← e_do (fun s => vs_AddBalance s (Coinbase env) (gasUsed st * msg_GasPrice msg));
              mret (st, inr (MkResult (gasUsed st) vmerr ret))
      end
  end.

(** [ApplyMessage], on the pool of the block. *)
Definition ApplyMessage (msg : Message) (pool : Z) : ST evm (StateTransition * (core_error + ExecutionResult)) :=
  TransitionDb msg (MkTransition pool 0 0).
End transition.

(** * What a transaction does *)

(** The charge of a message, over the integers. *)
Definition intrinsic_cost (data : list Z) (contractCreation isEIP2 isEIP2028 : bool) : Z :=
  (if contractCreation && isEIP2 then TxGasContractCreation else TxGas) +
  count_nonzero data * (if isEIP2028 then TxDataNonZeroGasEIP2028 else TxDataNonZeroGasFrontier) + (zlen data - count_nonzero data) * TxDataZeroGas.

Lemma nonzero_range data : 0 <= count_nonzero data <= zlen data.
Proof. induction data as [|b data IH]; [done|]. rewrite zlen_cons. cbn [count_nonzero]. destruct (b =? 0); lia. Qed.

Lemma room_for n k p : 0 < p -> ((n / p <? k) = false <-> k * p <= n).
Proof.
  intros Hp. rewrite Z.ltb_ge. split; intros H.
  - pose proof (Z.mul_div_le n p Hp). nia.
  - apply Z.div_le_lower_bound; lia.
Qed.

(** The 64-bit computation is exact, or reports that it is not. *)
Lemma IntrinsicGas_exact data creation isEIP2 isEIP2028 : is_slice data ->
  let cost := intrinsic_cost data creation isEIP2 isEIP2028 in
  IntrinsicGas data creation isEIP2 isEIP2028 = if cost <=? MaxUint64 then inr cost else inl core_ErrGasUintOverflow.
Proof.
  intros Hd cost. unfold IntrinsicGas, cost, intrinsic_cost, is_slice, MaxUint64, TxDataZeroGas in *. pose proof (nonzero_range data) as Hn.
  set (base := if creation && isEIP2 then _ else _). assert (Hb : 0 <= base < 2 ^ 16) by (unfold base; by destruct (creation && isEIP2)).
  set (p := if isEIP2028 then _ else _). assert (Hp : 4 <= p <= 68) by (unfold p, TxDataNonZeroGasEIP2028, TxDataNonZeroGasFrontier; destruct isEIP2028; lia).
  assert (Hm : 0 <= count_nonzero data * p) by nia. rewrite Z.gtb_ltb. destruct (Z.ltb_spec 0 (zlen data)) as [Hl|Hl].
  2: { assert (E0 : count_nonzero data = 0) by lia. assert (E1 : zlen data = 0) by lia. rewrite E0, E1. rewrite (proj2 (Z.leb_le _ _)) by lia. f_equal. lia. }
  destruct (_ / p <? count_nonzero data) eqn:E1.
  { apply not_false_iff_true in E1. rewrite room_for in E1 by lia. rewrite (proj2 (Z.leb_gt _ _)) by lia. done. }
  apply room_for in E1; [|lia]. rewrite (u64_small (count_nonzero data * p)), (u64_small (base + _)), (u64_small (zlen data - _)) by lia.
  destruct (_ / 4 <? _) eqn:E2.
  { apply not_false_iff_true in E2. rewrite room_for in E2 by lia. rewrite (proj2 (Z.leb_gt _ _)) by lia. done. }
  apply room_for in E2; [|lia]. rewrite (proj2 (Z.leb_le _ _)) by lia. rewrite (u64_small ((zlen data - count_nonzero data) * 4)), u64_small by lia. done.
Qed.

Lemma IntrinsicGas_bound data creation isEIP2 isEIP2028 g : is_slice data -> IntrinsicGas data creation isEIP2 isEIP2028 = inr g ->
  g = intrinsic_cost data creation isEIP2 isEIP2028 /\ TxGas <= g < 2 ^ 64.
Proof.
  intros Hd H. rewrite IntrinsicGas_exact in H by done. unfold MaxUint64 in H. destruct (Z.leb_spec (intrinsic_cost data creation isEIP2 isEIP2028) (2 ^ 64 - 1)); [|done].
  injection H as <-. split; [done|]. split; [|lia]. unfold intrinsic_cost, TxGas, TxGasContractCreation, TxDataZeroGas, TxDataNonZeroGasEIP2028, TxDataNonZeroGasFrontier.
  pose proof (nonzero_range data). destruct (creation && isEIP2), isEIP2028; lia.
Qed.

(** Messages with Go values. *)
Definition msg_ok (msg : Message) : Prop :=
  is_addr (From msg) /\ (forall to, To msg = Some to -> is_addr to) /\ 0 <= msg_Gas msg < native_limit /\ is_slice (msg_Data msg).

Section accounting.
Context {U : Uint256} {K : Keccak} {S : Type} {VS : VMState S} {VL : VMLaws S}.
Abbreviation evm := (evm (S := S)).
Implicit Types (e : evm) (msg : Message) (st : StateTransition).

Lemma wp_e_do_eq (g : S -> go S) (Q : evm -> unit -> Prop) e :
  changes inv since g -> inv (state e) ->
  (forall s', g (state e) = Ok s' -> inv s' -> evm_step e (with_state e s') -> Q (with_state e s') ()) -> wp (e_do g) Q e.
Proof.
  intros Hg Hi HQ. destruct (Hg _ Hi) as (s' & Hr & Hl). unfold wp, e_do, run_go. rewrite Hr. apply HQ; [done|by apply Hl|by apply evm_step_state].
Qed.

(** The state after the gas was bought in the state of [e]. *)
Definition bought msg e (s : S) : Prop := exists s0, same_state s0 (state e) /\ vs_SubBalance s0 (From msg) (msg_Gas msg * msg_GasPrice msg) = Ok s.

(** The errors after which nothing has been bought. *)
Definition early (err : core_error) : bool :=
  match err with ErrNonceTooLow | ErrNonceTooHigh | ErrInsufficientFunds | ErrGasLimitReached => true | _ => false end.

Definition checked_post msg st e (e' : evm) (r : StateTransition * option core_error) : Prop :=
  evm_step e e' /\
  match r.2 with
  | Some err => early err = true /\ r.1 = st /\ same_state (state e') (state e)
  | None => msg_Gas msg <= gp st /\ r.1 = MkTransition (gp st - msg_Gas msg) (u64 (gas st + msg_Gas msg)) (msg_Gas msg) /\ bought msg e (state e')
  end.

Lemma buyGas_ok msg st e0 e : is_addr (From msg) -> inv (state e) -> evm_step e0 e -> same_state (state e) (state e0) ->
  wp (buyGas msg st) (checked_post msg st e0) e.
Proof.
  intros Ha Hi Hs0 Hsame. unfold buyGas. apply wp_st_bind. eapply wp_e_on; [by apply l_GetBalance|done|]. intros bal s1 Hr _ Hi1 Hs1.
  assert (Hs01 : evm_step e0 (with_state e s1)) by (by eapply evm_step_trans).
  assert (Hsame1 : same_state s1 (state e0)) by (eapply same_trans; [exact (same_GetBalance _ _ _ _ Hi Ha Hr)|done]).
  destruct (_ <? _); [by apply wp_st_ret; split|]. unfold SubGas. destruct (Z.ltb_spec (gp st) (msg_Gas msg)); cbv iota; [by apply wp_st_ret; split|].
  apply wp_st_bind. eapply wp_e_do_eq; [by apply l_SubBalance|done|]. intros s2 Hr2 Hi2 Hs2. apply wp_st_ret. split; [by eapply evm_step_trans|].
  split; [done|]. split; [done|]. by exists s1.
Qed.

Lemma preCheck_ok msg st e : is_addr (From msg) -> inv (state e) -> wp (preCheck msg st) (checked_post msg st e) e.
Proof.
  intros Ha Hi. unfold preCheck. apply wp_st_bind. destruct (CheckNonce msg).
  2: { apply wp_st_ret, buyGas_ok; first [done|apply evm_step_refl|apply same_refl]. }
  apply wp_st_bind. eapply wp_e_on; [by apply l_GetNonce|done|]. intros nonce s1 Hr _ Hi1 Hs1. apply wp_st_ret.
  assert (Hsame : same_state s1 (state e)) by exact (same_GetNonce _ _ _ _ Hi Ha Hr).
  destruct (_ <? _); [by apply wp_st_ret; split|]. destruct (_ >? _); [by apply wp_st_ret; split|]. by apply buyGas_ok.
Qed.

(** Execution: a message call that fails changes nothing but the nonce. *)
Definition executed_post msg (g : Z) e (e' : evm) (r : list Z * Z * option vm_error) : Prop :=
  evm_step e e' /\ 0 <= r.1.2 <= g /\
  (r.2 <> None -> To msg <> None ->
    exists s0 n s1, same_state s0 (state e) /\ vs_SetNonce s0 (From msg) n = Ok s1 /\ same_state (state e') s1).

Lemma execute_ok env interp n msg g e :
  natives_ok (natives env) -> interp_ok n interp -> n <= native_limit -> msg_ok msg -> 0 <= g < n -> inv (state e) ->
  wp (execute_msg env interp msg g) (executed_post msg g e) e.
Proof.
  intros Hnat Hint Hn (Ha & Hto & _ & Hd) Hg Hi. unfold execute_msg. destruct (To msg) as [to|] eqn:Et.
  - apply wp_st_bind. eapply wp_e_on; [by apply l_GetNonce|done|]. intros nonce s1 Hr1 _ Hi1 Hs1.
    apply wp_st_bind. eapply wp_e_do_eq; [by apply l_SetNonce|done|]. intros s2 Hr2 Hi2 Hs2.
    apply wp_st_bind. eapply wp_mono; [apply (Call_ok env Hnat n interp Hint Hn); try done; by apply Hto|].
    intros e3 [[ret rest] err] ((Hs3 & Hl & _) & Hsame). apply wp_st_ret. split; [do 2 (eapply evm_step_trans; [eassumption|]); done|]. split; [done|].
    intros Herr _. exists s1, (u64 (nonce + 1)), s2. split; [exact (same_GetNonce _ _ _ _ Hi Ha Hr1)|]. split; [done|]. by apply Hsame.
  - apply wp_st_bind. eapply wp_mono; [by apply (Create_ok env n interp Hint Hn)|].
    intros e3 [[[ret addr] rest] err] (Hs3 & Hl & _). apply wp_st_ret. split; [done|]. split; [done|]. by rewrite Et.
Qed.

Lemma refundGas_ok msg st e : is_addr (From msg) -> inv (state e) -> 0 <= gas st <= initialGas st -> 0 <= gp st -> gp st + initialGas st < 2 ^ 64 ->
  wp (refundGas msg st) (fun e' st' => evm_step e e' /\ initialGas st' = initialGas st /\
    gas st <= gas st' <= gas st + (initialGas st - gas st) / 2 /\ gp st' = gp st + gas st' /\
    vs_AddBalance (state e) (From msg) (gas st' * msg_GasPrice msg) = Ok (state e')) e.
Proof.
  intros Ha Hi Hg Hp Hs. unfold refundGas. apply wp_st_bind, wp_e_get. unfold gasUsed. rewrite (u64_small (initialGas st - gas st)) by lia.
  set (half := (initialGas st - gas st) / 2). pose proof (Z.div_pos (initialGas st - gas st) 2 ltac:(lia) ltac:(lia)).
  pose proof (Z.mul_div_le (initialGas st - gas st) 2 ltac:(lia)). fold half in H, H0. pose proof (u64_range (vs_GetRefund (state e))).
  set (r := if half >? _ then _ else half). assert (Hr : 0 <= r <= half) by (unfold r; rewrite Z.gtb_ltb; destruct (Z.ltb_spec (u64 (vs_GetRefund (state e))) half); lia).
  clearbody r. cbn [gas gp initialGas]. rewrite (u64_small (gas st + r)) by lia.
  apply wp_st_bind. eapply wp_e_do_eq; [by apply l_AddBalance|done|]. intros s' Hadd Hi' Hs'. apply wp_st_bind.
  eapply wp_e_go; [unfold AddGas, MaxUint64; rewrite Z.gtb_ltb, (proj2 (Z.ltb_ge _ _)) by lia; by rewrite u64_small by lia|].
  apply wp_st_ret. split; [done|]. cbn [gas gp initialGas]. split; [done|]. split; [lia|]. by split.
Qed.

(** The end of a transition that was accepted, with the payments: the gas was
    bought in the state before; the sender gets back what was not used, the
    miner the rest. *)
Definition accepted env msg pool e (e' : evm) (st : StateTransition) (res : ExecutionResult) : Prop :=
  exists needed, intrinsic env msg = inr needed /\ needed <= 2 * UsedGas res /\ UsedGas res <= msg_Gas msg <= pool /\ gp st = pool - UsedGas res /\
  exists s1 s2 s3, bought msg e s1 /\
    vs_AddBalance s2 (From msg) ((msg_Gas msg - UsedGas res) * msg_GasPrice msg) = Ok s3 /\
    vs_AddBalance s3 (Coinbase env) (UsedGas res * msg_GasPrice msg) = Ok (state e') /\
    (res_Err res <> None -> To msg <> None -> exists s1' n sn, same_state s1' s1 /\ vs_SetNonce s1' (From msg) n = Ok sn /\ same_state s2 sn).

Definition transition_post env msg pool e (e' : evm) (r : StateTransition * (core_error + ExecutionResult)) : Prop :=
  evm_step e e' /\
  match r.2 with
  | inr res => accepted env msg pool e e' r.1 res
  | inl err =>
      if early err then gp r.1 = pool /\ same_state (state e') (state e)
      else gp r.1 = pool - msg_Gas msg /\ exists s1, bought msg e s1 /\ same_state (state e') s1
  end.

Lemma ApplyMessage_ok env interp n msg pool e :
  natives_ok (natives env) -> interp_ok n interp -> n <= native_limit -> msg_ok msg -> msg_Gas msg < n -> is_addr (Coinbase env) -> 0 <= pool < 2 ^ 64 ->
  inv (state e) -> wp (ApplyMessage env interp msg pool) (transition_post env msg pool e) e.
Proof.
  intros Hnat Hint Hn Hmsg Hgn Hcb Hpool Hi. pose proof Hmsg as (Ha & Hto & Hg & Hd). unfold ApplyMessage, TransitionDb.
  apply wp_st_bind. eapply wp_mono; [by apply preCheck_ok|]. intros e1 [st1 err] (Hs1 & Hc). cbn [fst snd] in Hc. destruct err as [err|].
  { destruct Hc as (He & -> & Hsame). apply wp_st_ret. split; [done|]. cbn [snd fst]. by rewrite He. }
  destruct Hc as (Hle & -> & Hb). cbn [gp gas initialGas] in *. rewrite u64_small by lia. rewrite Z.add_0_l.
  assert (Hi1 : inv (state e1)) by (by apply Hs1).
  assert (Hlate : forall err st e', early err = false -> evm_step e e' -> same_state (state e') (state e1) -> gp st = pool - msg_Gas msg ->
    transition_post env msg pool e e' (st, inl err)).
  { intros err st e' He Hs Hsame Hgp. split; [done|]. cbn [snd fst]. rewrite He. split; [done|]. by exists (state e1). }
  destruct (intrinsic env msg) as [err|needed] eqn:Ein.
  { apply wp_st_ret, Hlate; try done; [|apply same_refl]. unfold intrinsic in Ein. rewrite IntrinsicGas_exact in Ein by done. destruct (_ <=? _); [done|]. by injection Ein as <-. }
  pose proof (IntrinsicGas_bound _ _ _ _ _ Hd Ein) as (_ & Hneed). destruct (Z.ltb_spec (msg_Gas msg) needed); [apply wp_st_ret, Hlate; try done; apply same_refl|].
  unfold TxGas in Hneed. apply wp_st_bind. apply (wp_mono _ (fun e2 _ => evm_step e e2 /\ inv (state e2) /\ same_state (state e2) (state e1))).
  { destruct (_ >? _); [|apply wp_st_ret; split; [done|]; split; [done|apply same_refl]].
    eapply wp_CanTransfer; [done..|]. intros b s' Hi' Hs' Hsame. split; [by eapply evm_step_trans|]. by split. }
  intros e2 can (Hs2 & Hi2 & Hsame2). destruct can; cbn [negb]; [|by apply wp_st_ret, Hlate].
  apply wp_st_bind. eapply wp_mono; [apply (execute_ok env interp n); try done; lia|]. intros e3 [[ret rest] vmerr] (Hs3 & Hrest & Hfail). cbn [fst snd] in Hrest, Hfail.
  assert (Hi3 : inv (state e3)) by (by apply Hs3). apply wp_st_bind.
  eapply wp_mono; [apply refundGas_ok; try done; cbn [gas gp initialGas]; lia|]. cbn [gas gp initialGas]. intros e4 st4 (Hs4 & Hini & Hg4 & Hgp & Hadd).
  assert (Hi4 : inv (state e4)) by (by apply Hs4). pose proof (Z.mul_div_le (msg_Gas msg - rest) 2 ltac:(lia)).
  assert (Hused : gasUsed st4 = msg_Gas msg - gas st4) by (unfold gasUsed; rewrite Hini; apply u64_small; lia).
  apply wp_st_bind. eapply wp_e_do_eq; [by apply l_AddBalance|done|]. intros s5 Hfee Hi5 Hs5. apply wp_st_ret. split.
  { do 3 (eapply evm_step_trans; [eassumption|]). done. }
  cbn [snd fst]. exists needed. cbn [UsedGas res_Err]. rewrite Hused in *. split; [done|]. split; [lia|]. split; [lia|]. split; [lia|].
  exists (state e1), (state e3), (state e4). split; [done|]. split; [by replace (msg_Gas msg - (msg_Gas msg - gas st4)) with (gas st4) by lia|].
  split; [done|]. intros Herr Ht. destruct (Hfail Herr Ht) as (s0 & n0 & sn & Hs0 & Hset & Hsn). exists s0, n0, sn. split; [by eapply same_trans|]. by split.
Qed.

Lemma ApplyMessage_total env extra jt reported msg pool e :
  natives_ok (natives env) -> NewEVMInterpreter env extra = Ok (jt, reported) -> msg_ok msg -> is_addr (Coinbase env) -> 0 <= pool < 2 ^ 64 -> inv (state e) ->
  match ApplyMessage env (Run env jt (Datatypes.S (Z.to_nat (msg_Gas msg)))) msg pool e with
  | Ok (e', (st, inr res)) => inv (state e') /\ depth e' = depth e /\ accepted env msg pool e e' st res
  | Ok (e', (st, inl err)) =>
      inv (state e') /\
      if early err then gp st = pool /\ same_state (state e') (state e)
      else gp st = pool - msg_Gas msg /\ exists s1, bought msg e s1 /\ same_state (state e') s1
  | Err CachedAnalysis | Err RefundBelowZero => True
  | Err Exhausted | Panic => False
  end.
Proof.
  intros Hnat Hjt Hmsg Hcb Hpool Hi. pose proof Hmsg as (_ & _ & Hg & _).
  pose proof (Run_interp_ok env extra jt reported (Datatypes.S (Z.to_nat (msg_Gas msg))) Hnat Hjt ltac:(lia)) as Hint.
  pose proof (ApplyMessage_ok env _ _ msg pool e Hnat Hint ltac:(lia) Hmsg ltac:(lia) Hcb Hpool Hi) as H. unfold wp in H.
  destruct (ApplyMessage _ _ _ _ _) as [[e' [st [err|res]]]|[]|]; try done; destruct H as ((_ & Hd & _ & Hinv) & Hpost); auto.
Qed.

(** C3.  Transactions account for their gas.  An accepted message uses at most
    the gas that it bought, of which the pool has lost exactly what was used,
    and at least half of its intrinsic gas; the purchase is split without loss
    between the sender and the miner, and a message call that fails changes
    nothing else but the nonce.  A message that is refused before the purchase
    leaves the state and the pool alone; one that is refused afterwards has
    been charged, and the pool does not get its gas back. *)
Theorem ApplyMessage_accounts env extra jt reported msg pool e :
  natives_ok (natives env) -> NewEVMInterpreter env extra = Ok (jt, reported) -> msg_ok msg -> is_addr (Coinbase env) -> 0 <= pool < 2 ^ 64 -> inv (state e) ->
  match ApplyMessage env (Run env jt (Datatypes.S (Z.to_nat (msg_Gas msg)))) msg pool e with
  | Ok (e', (st, inr res)) => inv (state e') /\ depth e' = depth e /\ accepted env msg pool e e' st res
  | Ok (e', (st, inl err)) =>
      inv (state e') /\
      if early err then gp st = pool /\ same_state (state e') (state e)
      else gp st = pool - msg_Gas msg /\ exists s1, bought msg e s1 /\ same_state (state e') s1
  | Err CachedAnalysis | Err RefundBelowZero => True
  | Err Exhausted | Panic => False
  end.
Proof. apply ApplyMessage_total. Qed.
End accounting.
