(* ===== verification/Ethash.v ===== *)
(** * The rules of ethash (src/consensus/ethash/consensus.go, consensus_classic.go)

    The difficulty of a block, the verification of headers and uncles, the
    rewards, the checks of src/consensus/misc, and the gas limit that a miner
    chooses (src/core/block_validator.go).  The file shows what an accepted
    header and an accepted chain satisfy, that the ways to configure the delays
    of the difficulty bomb agree, and how much is issued. *)
From stdpp Require Import prelude list gmap.
From Stdlib Require Import ZArith Lia.
From S2P Require Import Prelude RlpEncode RlpRaw RlpStream TrieEncoding Trie TrieNode TrieHash Header Digests Hashimoto VmBase VmCode Vm.

(** ** Configuration *)

(** The part of [ctypes.ChainConfigurator] for ethash; a nil pointer is [None]. *)
Record EthashConfig := MkEthashConfig {
  ec_chain : ChainConfig;
  GetEIP161dTransition : option Z;
  GetEIP658Transition : option Z;
  GetEthashEIP100BTransition : option Z;
  GetEthashEIP649Transition : option Z;
  GetEthashEIP779Transition : option Z;
  GetEthashEIP1234Transition : option Z;
  GetEthashEIP2384Transition : option Z;
  GetEthashECIP1010PauseTransition : option Z;
  GetEthashECIP1010ContinueTransition : option Z;
  GetEthashECIP1017Transition : option Z;
  GetEthashECIP1017EraRounds : option Z;
  GetEthashECIP1041Transition : option Z;
  GetEthashDifficultyBombDelaySchedule : gmap Z Z;
  GetEthashBlockRewardSchedule : gmap Z Z;
  GetForkCanonHash : Z -> list Z;
}.

(** The order in which Go ranges over a schedule. *)
Class ScheduleOrder := {
  schedule_order : gmap Z Z -> list (Z * Z);
  schedule_order_spec m : schedule_order m ≡ₚ map_to_list m;
}.

(** [*p] *)
Definition deref {E A} (p : option A) : outcome E A := match p with Some x => Ok x | None => Panic end.

Definition DifficultyBoundDivisor : Z := 2048.
Definition MinimumDifficulty : Z := 131072.
Definition DurationLimit : Z := 13.
Definition EIP2DifficultyIncrementDivisor : Z := 10.
Definition EIP100FDifficultyIncrementDivisor : Z := 9.
Definition EIP649DifficultyBombDelay : Z := 3000000.
Definition EIP1234DifficultyBombDelay : Z := 5000000.
Definition EIP2384DifficultyBombDelay : Z := 9000000.
Definition ExpDiffPeriod : Z := 100000.
Definition FrontierBlockReward : Z := 5 * 10 ^ 18.
Definition EIP649FBlockReward : Z := 3 * 10 ^ 18.
Definition EIP1234FBlockReward : Z := 2 * 10 ^ 18.
Definition DisinflationRateQuotient : Z := 4.
Definition DisinflationRateDivisor : Z := 5.
Definition GasLimitBoundDivisor : Z := 1024.
Definition MinGasLimit : Z := 5000.
Definition MaximumExtraDataSize : Z := 32.
Definition DAOForkExtraRange : Z := 10.
Definition DAOForkBlockExtra : list Z := [0x64; 0x61; 0x6f; 0x2d; 0x68; 0x61; 0x72; 0x64; 0x2d; 0x66; 0x6f; 0x72; 0x6b].

(** ** Difficulty *)

Definition parent_time_delta (t : Z) (p : Header) : Z := t - hd_Time p.
Definition parent_diff_over_dbd (p : Header) : Z := hd_Difficulty p / DifficultyBoundDivisor.

Section difficulty.
Context {K : Keccak} {SO : ScheduleOrder}.

(** The adjustment, before the bomb. *)
Definition adjustment (config : EthashConfig) (time : Z) (parent : Header) : Z :=
  let next := hd_Number parent + 1 in
  let out :=
    if IsEnabled (GetEthashEIP100BTransition config) next then
      let out := parent_time_delta time parent / EIP100FDifficultyIncrementDivisor in
      let out := if decide (hd_UncleHash parent = EmptyUncleHash) then 1 - out else 2 - out in
      let out := Z.max out (-99) in
      parent_diff_over_dbd parent * out + hd_Difficulty parent
    else if IsEnabled (GetEIP2Transition (ec_chain config)) next then
      let out := 1 - parent_time_delta time parent / EIP2DifficultyIncrementDivisor in
      let out := Z.max out (-99) in
      parent_diff_over_dbd parent * out + hd_Difficulty parent
    else if parent_time_delta time parent <? DurationLimit then hd_Difficulty parent + parent_diff_over_dbd parent
    else hd_Difficulty parent - parent_diff_over_dbd parent in
  Z.max out MinimumDifficulty.

Definition ecip1010Explosion (config : EthashConfig) (next exPeriodRef : Z) : go Z :=
  continue ← deref (GetEthashECIP1010ContinueTransition config);
  pause ← deref (GetEthashECIP1010PauseTransition config);
  if u64 next <? continue then Ok pause else Ok (exPeriodRef - u64 (continue - pause)).

(** The block number that the delay of a fork fakes. *)
Definition fake_number (parent : Header) (delay : Z) : Z :=
  let delayWithOffset := delay - 1 in
  if hd_Number parent >=? delayWithOffset then hd_Number parent - delayWithOffset else 0.

Definition schedule_number (order : list (Z * Z)) (exPeriodRef : Z) : Z :=
  foldl (fun fake p => if exPeriodRef <? int64 p.1 then fake else fake - p.2) exPeriodRef order.

Definition explosion_ref (config : EthashConfig) (parent : Header) : go Z :=
  let next := hd_Number parent + 1 in
  let exPeriodRef := hd_Number parent + 1 in
  if IsEnabled (GetEthashECIP1010PauseTransition config) next then ecip1010Explosion config next exPeriodRef
  else if negb (bool_decide (GetEthashDifficultyBombDelaySchedule config = ∅)) then
    Ok (schedule_number (schedule_order (GetEthashDifficultyBombDelaySchedule config)) exPeriodRef)
  else if IsEnabled (GetEthashEIP2384Transition config) next then Ok (fake_number parent EIP2384DifficultyBombDelay)
  else if IsEnabled (GetEthashEIP1234Transition config) next then Ok (fake_number parent EIP1234DifficultyBombDelay)
  else if IsEnabled (GetEthashEIP649Transition config) next then Ok (fake_number parent EIP649DifficultyBombDelay)
  else Ok exPeriodRef.

Definition explosion (exPeriodRef : Z) : Z :=
  let x := exPeriodRef / ExpDiffPeriod in
  if x >? 1 then 2 ^ (x - 2) else 0.

Definition CalcDifficulty (config : EthashConfig) (time : Z) (parent : Header) : go Z :=
  let out := adjustment config time parent in
  if IsEnabled (GetEthashECIP1041Transition config) (hd_Number parent + 1) then Ok out
  else
    exPeriodRef ← explosion_ref config parent;
    Ok (out + explosion exPeriodRef).
End difficulty.

(** ** Headers *)

(** The result of an operation on [int64]. *)
Definition wrap64 (x : Z) : Z := (x + 2 ^ 63) mod 2 ^ 64 - 2 ^ 63.

Inductive header_error :=
| ErrUnknownAncestor | ErrFutureBlock | ErrInvalidNumber
| ErrExtraTooLong (size : Z) | errOlderBlockTime | ErrWrongDifficulty (have want : Z)
| ErrGasLimitCap (have : Z) | ErrGasUsed (have limit : Z) | ErrGasLimit (have parent limit : Z)
| errInvalidDifficulty | errInvalidMixDigest | errInvalidPoW
| ErrBadProDAOExtra | ErrForkHash (number : Z)
| errTooManyUncles | errDuplicateUncle | errUncleIsAncestor | errDanglingUncle.

Abbreviation he A := (outcome header_error A).

Definition lift_he {A} (m : go A) : he A := match m with Ok x => Ok x | _ => Panic end.

Inductive Mode := ModeNormal | ModeShared | ModeTest | ModeFake | ModeFullFake.
#[global] Instance Mode_eq_dec : EqDecision Mode.
Proof. solve_decision. Defined.

Inductive Ethash := MkEthash (PowMode : Mode) (fakeFail : Z) (shared : option Ethash).
Definition PowMode (e : Ethash) : Mode := let '(MkEthash m _ _) := e in m.

(** The chain that a header is checked against. *)
Record ChainReader := MkChain { GetHeader : list Z -> Z -> option Header; GetBlock : list Z -> Z -> option Block }.

(** The caches and datasets, which are kept on disk, and the table of their
    sizes: the cache of a block number, its dataset when it is there, and the
    size of the dataset. *)
Class PowData := {
  pow_cache : Z -> list Z;
  pow_dataset : Z -> option (list Z);
  pow_size : Z -> Z;
}.

Section headers.
Context {K : Keccak} {K512 : Keccak512} {PD : PowData} {SO : ScheduleOrder}.

(** [verifySeal]; [header.Nonce.Uint64()] is big-endian. *)
Definition seal_result (e : Ethash) (header : Header) (fulldag : bool) : go (list Z * list Z) :=
  let number := u64 (hd_Number header) in
  let light :=
    let size := if decide (PowMode e = ModeTest) then 32 * 1024 else pow_size number in
    hashimotoLight size (pow_cache number) (SealHash header) (be_val (hd_Nonce header)) in
  if fulldag then
    match pow_dataset number with
    | Some dataset => hashimotoFull dataset (SealHash header) (be_val (hd_Nonce header))
    | None => light
    end
  else light.

Fixpoint verifySeal (e : Ethash) (header : Header) (fulldag : bool) : he unit :=
  let '(MkEthash mode fakeFail shared) := e in
  if decide (mode = ModeFake \/ mode = ModeFullFake) then
    if fakeFail =? u64 (hd_Number header) then Err errInvalidPoW else Ok tt
  else
    match shared with
    | Some s => verifySeal s header fulldag
    | None =>
        if hd_Difficulty header <=? 0 then Err errInvalidDifficulty
        else
          '(digest, result) ← lift_he (seal_result e header fulldag);
          if decide (hd_MixDigest header = digest) then
            let target := 2 ^ 256 / hd_Difficulty header in
            if be_val result >? target then Err errInvalidPoW else Ok tt
          else Err errInvalidMixDigest
    end.

Definition VerifySeal (e : Ethash) (header : Header) : he unit := verifySeal e header false.

(** *** src/consensus/misc *)

Definition VerifyDAOHeaderExtraData (config : EthashConfig) (header : Header) : he unit :=
  match GetEthashEIP779Transition config with
  | None => Ok tt
  | Some daoForkBlock =>
      let limit := daoForkBlock + DAOForkExtraRange in
      if (hd_Number header <? daoForkBlock) || (hd_Number header >=? limit) then Ok tt
      else if decide (hd_Extra header = DAOForkBlockExtra) then Ok tt
      else Err ErrBadProDAOExtra
  end.

Definition VerifyForkHashes (config : EthashConfig) (header : Header) (uncle : bool) : he unit :=
  if uncle then Ok tt
  else
    let wantHash := GetForkCanonHash config (u64 (hd_Number header)) in
    if decide (wantHash = replicate 32 0) then Ok tt
    else if decide (wantHash = header_Hash header) then Ok tt
    else Err (ErrForkHash (u64 (hd_Number header))).

(** *** [verifyHeader]

    [now] is the time of the clock, in seconds. *)
Definition verifyHeader (e : Ethash) (config : EthashConfig) (now : Z) (header parent : Header) (uncle seal : bool) : he unit :=
  if u64 (zlen (hd_Extra header)) >? MaximumExtraDataSize then Err (ErrExtraTooLong (zlen (hd_Extra header)))
  else if negb uncle && (hd_Time header >? u64 (now + 15)) then Err ErrFutureBlock
  else if hd_Time header <=? hd_Time parent then Err errOlderBlockTime
  else
    expected ← lift_he (CalcDifficulty config (hd_Time header) parent);
    if negb (expected =? hd_Difficulty header) then Err (ErrWrongDifficulty (hd_Difficulty header) expected)
    else if hd_GasLimit header >? 0x7fffffffffffffff then Err (ErrGasLimitCap (hd_GasLimit header))
    else if hd_GasUsed header >? hd_GasLimit header then Err (ErrGasUsed (hd_GasUsed header) (hd_GasLimit header))
    else
      let diff := wrap64 (int64 (hd_GasLimit parent) - int64 (hd_GasLimit header)) in
      let diff := if diff <? 0 then wrap64 (diff * -1) else diff in
      let limit := hd_GasLimit parent / GasLimitBoundDivisor in
      if (u64 diff >=? limit) || (hd_GasLimit header <? MinGasLimit) then Err (ErrGasLimit (hd_GasLimit header) (hd_GasLimit parent) limit)
      else if negb (hd_Number header - hd_Number parent =? 1) then Err ErrInvalidNumber
      else
        _ ← (if seal then VerifySeal e header else Ok tt);
        _ ← VerifyDAOHeaderExtraData config header;
        VerifyForkHashes config header uncle.

Definition VerifyHeader (e : Ethash) (config : EthashConfig) (chain : ChainReader) (now : Z) (header : Header) (seal : bool) : he unit :=
  if decide (PowMode e = ModeFullFake) then Ok tt
  else
    let number := u64 (hd_Number header) in
    match GetHeader chain (header_Hash header) number with
    | Some _ => Ok tt
    | None =>
        match GetHeader chain (hd_ParentHash header) (u64 (number - 1)) with
        | None => Err ErrUnknownAncestor
        | Some parent => verifyHeader e config now header parent false seal
        end
    end.

Definition verifyHeaderWorker (e : Ethash) (config : EthashConfig) (chain : ChainReader) (now : Z) (headers : list Header) (seals : list bool) (index : Z)
    : he unit :=
  header ← idx headers index;
  parent ←
    (if index =? 0 then Ok (GetHeader chain (hd_ParentHash header) (u64 (u64 (hd_Number header) - 1)))
     else
       prev ← idx headers (index - 1);
       Ok (if decide (header_Hash prev = hd_ParentHash header) then Some prev else None));
  match parent with
  | None => Err ErrUnknownAncestor
  | Some parent =>
      match GetHeader chain (header_Hash header) (u64 (hd_Number header)) with
      | Some _ => Ok tt
      | None => seal ← idx seals index; verifyHeader e config now header parent false seal
      end
  end.

(** *** Uncles *)

Definition maxUncles : Z := 2.

(** The ancestors and their uncles, up to seven generations. *)
Fixpoint gather (n : nat) (chain : ChainReader) (parent : list Z) (number : Z) (uncles : gset (list Z)) (ancestors : gmap (list Z) Header)
    : gset (list Z) * gmap (list Z) Header :=
  match n with
  | O => (uncles, ancestors)
  | S n =>
      match GetBlock chain parent number with
      | None => (uncles, ancestors)
      | Some ancestor =>
          let ancestors := <[header_Hash (bk_header ancestor) := bk_header ancestor]> ancestors in
          let uncles := uncles ∪ list_to_set (map header_Hash (bk_uncles ancestor)) in
          gather n chain (hd_ParentHash (bk_header ancestor)) (u64 (number - 1)) uncles ancestors
      end
  end.

Fixpoint check_uncles (e : Ethash) (config : EthashConfig) (now : Z) (block : Block) (l : list Header) (uncles : gset (list Z))
    (ancestors : gmap (list Z) Header) : he unit :=
  match l with
  | [] => Ok tt
  | uncle :: l =>
      let hash := header_Hash uncle in
      if decide (hash ∈ uncles) then Err errDuplicateUncle
      else
        let uncles := {[ hash ]} ∪ uncles in
        match ancestors !! hash with
        | Some _ => Err errUncleIsAncestor
        | None =>
            match ancestors !! hd_ParentHash uncle with
            | None => Err errDanglingUncle
            | Some parent =>
                if decide (hd_ParentHash uncle = hd_ParentHash (bk_header block)) then Err errDanglingUncle
                else
                  _ ← verifyHeader e config now uncle parent true true;
                  check_uncles e config now block l uncles ancestors
            end
        end
  end.

Definition VerifyUncles (e : Ethash) (config : EthashConfig) (chain : ChainReader) (now : Z) (block : Block) : he unit :=
  if decide (PowMode e = ModeFullFake) then Ok tt
  else if zlen (bk_uncles block) >? maxUncles then Err errTooManyUncles
  else if zlen (bk_uncles block) =? 0 then Ok tt
  else
    let number := u64 (u64 (hd_Number (bk_header block)) - 1) in
    let '(uncles, ancestors) := gather 7 chain (hd_ParentHash (bk_header block)) number ∅ ∅ in
    let hash := header_Hash (bk_header block) in
    check_uncles e config now block (bk_uncles block) ({[ hash ]} ∪ uncles) (<[hash := bk_header block]> ancestors).

(** [Prepare] *)
Definition Prepare (config : EthashConfig) (chain : ChainReader) (header : Header) : he Header :=
  match GetHeader chain (hd_ParentHash header) (u64 (u64 (hd_Number header) - 1)) with
  | None => Err ErrUnknownAncestor
  | Some parent =>
      d ← lift_he (CalcDifficulty config (hd_Time header) parent);
      Ok (with_difficulty header d)
  end.
End headers.

(** ** Rewards *)

Section rewards.
Context {SO : ScheduleOrder}.

Definition EthashBlockReward (config : EthashConfig) (n : Z) : Z :=
  if IsEnabled (GetEthashEIP1234Transition config) n then EIP1234FBlockReward
  else if IsEnabled (GetEthashEIP649Transition config) n then EIP649FBlockReward
  else
    (foldl (fun acc p => if (p.1 <=? u64 n) && (p.1 >=? acc.1) then p else acc) (0, FrontierBlockReward)
       (schedule_order (GetEthashBlockRewardSchedule config))).2.

Definition GetBlockEra (blockNum eraLength : Z) : go Z :=
  if blockNum <? 1 then Ok 0
  else if eraLength =? 0 then Panic
  else
    let remainder := (blockNum - 1) mod eraLength in
    let base := blockNum - remainder in
    let d := base / eraLength in
    Ok (d - d mod 1).

Definition GetBlockWinnerRewardByEra (era blockReward : Z) : Z :=
  if era =? 0 then blockReward
  else blockReward * DisinflationRateQuotient ^ era / DisinflationRateDivisor ^ era.

Definition getEraUncleBlockReward (era blockReward : Z) : Z := GetBlockWinnerRewardByEra era blockReward / 32.

Definition uncle_share (header uncle : Header) (blockReward : Z) : Z := (hd_Number uncle + 8 - hd_Number header) * blockReward / 8.

Definition GetBlockUncleRewardByEra (era : Z) (header uncle : Header) (blockReward : Z) : Z :=
  if era =? 0 then uncle_share header uncle blockReward else getEraUncleBlockReward era blockReward.

Definition GetBlockWinnerRewardForUnclesByEra (era : Z) (uncles : list Header) (blockReward : Z) : Z :=
  foldl (fun r _ => r + getEraUncleBlockReward era blockReward) 0 uncles.

Definition ecip1017BlockReward (config : EthashConfig) (header : Header) (uncles : list Header) : go (Z * list Z) :=
  let blockReward := FrontierBlockReward in
  eraLen ← deref (GetEthashECIP1017EraRounds config);
  era ← GetBlockEra (hd_Number header) eraLen;
  let wr := GetBlockWinnerRewardByEra era blockReward in
  let wurs := GetBlockWinnerRewardForUnclesByEra era uncles blockReward in
  Ok (wr + wurs, map (fun uncle => GetBlockUncleRewardByEra era header uncle blockReward) uncles).

Definition GetRewards (config : EthashConfig) (header : Header) (uncles : list Header) : go (Z * list Z) :=
  if IsEnabled (GetEthashECIP1017Transition config) (hd_Number header) then ecip1017BlockReward config header uncles
  else
    let blockReward := EthashBlockReward config (hd_Number header) in
    Ok (foldl (fun reward _ => reward + blockReward / 32) blockReward uncles,
        map (fun uncle => uncle_share header uncle blockReward) uncles).
End rewards.

(** ** The gas limit of the next block (src/core/block_validator.go) *)

Definition CalcGasLimit (parent : Header) (gasFloor gasCeil : Z) : Z :=
  let contrib := u64 (hd_GasUsed parent + hd_GasUsed parent / 2) / GasLimitBoundDivisor in
  let decay := u64 (hd_GasLimit parent / GasLimitBoundDivisor - 1) in
  let limit := u64 (u64 (hd_GasLimit parent - decay) + contrib) in
  let limit := if limit <? MinGasLimit then MinGasLimit else limit in
  if limit <? gasFloor then
    let limit := u64 (hd_GasLimit parent + decay) in
    if limit >? gasFloor then gasFloor else limit
  else if limit >? gasCeil then
    let limit := u64 (hd_GasLimit parent - decay) in
    if limit <? gasCeil then gasCeil else limit
  else limit.

(** ** Difficulty: bounds and schedules *)

Section difficulty_facts.
Context {K : Keccak}.

Lemma adjustment_min config t p : MinimumDifficulty <= adjustment config t p.
Proof. unfold adjustment. lia. Qed.

Lemma explosion_nonneg r : 0 <= explosion r.
Proof. unfold explosion. destruct (_ >? 1); [|done]. apply Z.pow_nonneg. lia. Qed.

Lemma dbd_nonneg p : 0 <= hd_Difficulty p -> 0 <= parent_diff_over_dbd p.
Proof. intros Hd. apply Z.div_pos; [done|]. unfold DifficultyBoundDivisor. lia. Qed.

(** A later block never has a higher difficulty. *)
Lemma adjustment_antitone config t t' p : 0 <= hd_Difficulty p -> t <= t' -> adjustment config t' p <= adjustment config t p.
Proof.
  intros Hd%dbd_nonneg Ht. unfold adjustment, parent_time_delta, EIP100FDifficultyIncrementDivisor, EIP2DifficultyIncrementDivisor.
  set (q := parent_diff_over_dbd p) in *. apply Z.max_le_compat_r.
  assert (H9 : (t - hd_Time p) / 9 <= (t' - hd_Time p) / 9) by (apply Z.div_le_mono; lia).
  assert (H10 : (t - hd_Time p) / 10 <= (t' - hd_Time p) / 10) by (apply Z.div_le_mono; lia).
  destruct (IsEnabled (GetEthashEIP100BTransition config) _); [|destruct (IsEnabled (GetEIP2Transition (ec_chain config)) _)].
  - destruct (decide _); nia.
  - nia.
  - destruct (Z.ltb_spec (t - hd_Time p) DurationLimit), (Z.ltb_spec (t' - hd_Time p) DurationLimit); lia.
Qed.

(** It changes by at most two steps up and ninety-nine down. *)
Lemma adjustment_range config t p :
  MinimumDifficulty <= hd_Difficulty p -> hd_Time p < t ->
  hd_Difficulty p - 99 * parent_diff_over_dbd p <= adjustment config t p <= hd_Difficulty p + 2 * parent_diff_over_dbd p.
Proof.
  intros Hd Ht. unfold adjustment. pose proof (dbd_nonneg p) as Hq. set (q := parent_diff_over_dbd p) in *.
  assert (0 <= q) by (apply Hq; unfold MinimumDifficulty in Hd; lia). clear Hq. unfold parent_time_delta, EIP100FDifficultyIncrementDivisor, EIP2DifficultyIncrementDivisor.
  assert (H9 : 0 <= (t - hd_Time p) / 9) by (apply Z.div_pos; lia). assert (H10 : 0 <= (t - hd_Time p) / 10) by (apply Z.div_pos; lia).
  split; [apply Z.max_le_iff; left|apply Z.max_lub; [|lia]]; (destruct (IsEnabled (GetEthashEIP100BTransition config) _); [destruct (decide _); nia|]);
    (destruct (IsEnabled (GetEIP2Transition (ec_chain config)) _); [nia|]); destruct (_ <? DurationLimit); lia.
Qed.
End difficulty_facts.

(** The delays of the schedule add up, in any order. *)
Lemma schedule_number_perm l l' r : l ≡ₚ l' -> schedule_number l r = schedule_number l' r.
Proof.
  unfold schedule_number. set (f := fun fake (p : Z * Z) => if r <? int64 p.1 then fake else fake - p.2).
  intros Hp. generalize r at 1 2. induction Hp as [|x l l' _ IH|x y l|l1 l2 l3 _ IH1 _ IH2]; intros a; simpl.
  - done.
  - apply IH.
  - f_equal. unfold f. destruct (r <? int64 x.1), (r <? int64 y.1); lia.
  - by rewrite IH1, IH2.
Qed.

Section bomb.
Context {K : Keccak}.

(** The number that the forks fake is never negative; the bomb is off anyway. *)
Lemma explosion_fake p delay r : r = hd_Number p + 1 - delay -> explosion (fake_number p delay) = explosion r.
Proof.
  intros ->. unfold fake_number, explosion, ExpDiffPeriod. destruct (Z.geb_spec (hd_Number p) (delay - 1)) as [Hge|Hlt].
  - by replace (hd_Number p - (delay - 1)) with (hd_Number p + 1 - delay) by lia.
  - assert ((hd_Number p + 1 - delay) / 100000 < 0) by (apply Z.div_lt_upper_bound; lia).
    rewrite (Z.gtb_ltb ((hd_Number p + 1 - delay) / 100000)), (proj2 (Z.ltb_ge 1 _)) by lia. done.
Qed.

(** The same configuration with the delays given by forks. *)
Definition with_forks (c : EthashConfig) (b1 b2 b3 : Z) : EthashConfig :=
  MkEthashConfig (ec_chain c) (GetEIP161dTransition c) (GetEIP658Transition c) (GetEthashEIP100BTransition c) (Some b1) (GetEthashEIP779Transition c)
    (Some b2) (Some b3) (GetEthashECIP1010PauseTransition c) (GetEthashECIP1010ContinueTransition c) (GetEthashECIP1017Transition c)
    (GetEthashECIP1017EraRounds c) (GetEthashECIP1041Transition c) ∅ (GetEthashBlockRewardSchedule c) (GetForkCanonHash c).

Definition three_delays (b1 b2 b3 : Z) : gmap Z Z := {[ b1 := 3000000; b2 := 2000000; b3 := 4000000 ]}.

Lemma three_delays_list b1 b2 b3 : b1 < b2 < b3 -> map_to_list (three_delays b1 b2 b3) ≡ₚ [(b1, 3000000); (b2, 2000000); (b3, 4000000)].
Proof.
  intros Hb. unfold three_delays. rewrite map_to_list_insert, map_to_list_insert, map_to_list_singleton; [done|..].
  - apply lookup_singleton_None. lia.
  - apply lookup_insert_None. split; [apply lookup_singleton_None|]; lia.
Qed.

Lemma explosion_schedule {SO : ScheduleOrder} c b1 b2 b3 p :
  b1 < b2 < b3 -> 0 <= b1 -> b3 < 2 ^ 63 -> GetEthashDifficultyBombDelaySchedule c = three_delays b1 b2 b3 ->
  IsEnabled (GetEthashECIP1010PauseTransition c) (hd_Number p + 1) = false ->
  exists r r', explosion_ref c p = Ok r /\ explosion_ref (with_forks c b1 b2 b3) p = Ok r' /\ explosion r = explosion r'.
Proof.
  intros Hb H0 H3 Hs Hp. unfold explosion_ref. cbn [with_forks GetEthashECIP1010PauseTransition GetEthashDifficultyBombDelaySchedule GetEthashEIP2384Transition GetEthashEIP1234Transition GetEthashEIP649Transition].
  rewrite Hp, Hs, (bool_decide_eq_false_2 (three_delays b1 b2 b3 = ∅)) by (unfold three_delays; apply insert_non_empty).
  rewrite (bool_decide_eq_true_2 ((∅ : gmap Z Z) = ∅)) by done. simpl negb. cbv iota.
  rewrite (schedule_number_perm _ _ _ (schedule_order_spec (three_delays b1 b2 b3))), (schedule_number_perm _ _ _ (three_delays_list b1 b2 b3 Hb)).
  unfold IsEnabled, schedule_number. cbn [foldl fst snd]. assert (Hi : forall b, 0 <= b < 2 ^ 63 -> int64 b = b) by (intros b Hbb; apply int64_small; lia).
  rewrite !Hi by lia. set (n := hd_Number p + 1). rewrite !Z.leb_antisym.
  destruct (Z.ltb_spec n b3), (Z.ltb_spec n b2), (Z.ltb_spec n b1); try lia; simpl negb; cbv iota; eexists _, _; (split; [done|]); (split; [done|]); try done;
    symmetry; apply explosion_fake; unfold EIP2384DifficultyBombDelay, EIP1234DifficultyBombDelay, EIP649DifficultyBombDelay; lia.
Qed.

(** The two ways to configure the delay of the difficulty bomb agree: a
    schedule with delays of three, two and four million blocks, which are
    added up in whatever order the map is ranged over, gives every block the
    difficulty that the forks of EIP 649, 1234 and 2384 at the same blocks
    give it. *)
Theorem bomb_delays_agree {SO : ScheduleOrder} (c : EthashConfig) (b1 b2 b3 t : Z) (p : Header) :
  b1 < b2 < b3 -> 0 <= b1 -> b3 < 2 ^ 63 -> GetEthashDifficultyBombDelaySchedule c = three_delays b1 b2 b3 ->
  IsEnabled (GetEthashECIP1010PauseTransition c) (hd_Number p + 1) = false ->
  CalcDifficulty c t p = CalcDifficulty (with_forks c b1 b2 b3) t p.
Proof.
  intros Hb H0 H3 Hs Hp. destruct (explosion_schedule c b1 b2 b3 p Hb H0 H3 Hs Hp) as (r & r' & Hr & Hr' & He).
  unfold CalcDifficulty. rewrite Hr, Hr'. bind_simpl. by rewrite He.
Qed.
End bomb.

(** ** Accepted headers *)

Section verify.
Context {K : Keccak} {K512 : Keccak512} {PD : PowData} {SO : ScheduleOrder}.

Lemma CalcDifficulty_min config t p d : CalcDifficulty config t p = Ok d -> MinimumDifficulty <= d.
Proof.
  unfold CalcDifficulty. pose proof (adjustment_min config t p). destruct (IsEnabled _ _); [by intros [= <-]|].
  intros (r & _ & [= <-])%bind_Ok. pose proof (explosion_nonneg r). lia.
Qed.

(** The bomb is ticking only if ECIP 1010 is configured with its end. *)
Definition explosion_configured (config : EthashConfig) : Prop :=
  is_Some (GetEthashECIP1010PauseTransition config) -> is_Some (GetEthashECIP1010ContinueTransition config).

Lemma CalcDifficulty_Ok config p :
  explosion_configured config -> exists x, 0 <= x /\ forall t, CalcDifficulty config t p = Ok (adjustment config t p + x).
Proof.
  intros Hc. unfold CalcDifficulty. destruct (IsEnabled (GetEthashECIP1041Transition config) _); [exists 0; split; [done|]; intros t; f_equal; lia|].
  assert (exists r, explosion_ref config p = Ok r) as [r ->].
  { unfold explosion_ref. destruct (IsEnabled (GetEthashECIP1010PauseTransition config) _) eqn:Hp; [|repeat case_match; by eexists].
    unfold ecip1010Explosion, explosion_configured in *. destruct (GetEthashECIP1010PauseTransition config) as [pause|]; [|done]. destruct Hc as [c ->]; [done|].
    simpl. bind_simpl. destruct (_ <? _); by eexists. }
  exists (explosion r). split; [apply explosion_nonneg|]. done.
Qed.


(** What the protocol asks of a header, given its parent. *)
Record valid_header (e : Ethash) (config : EthashConfig) (now : Z) (header parent : Header) (uncle seal : bool) : Prop := {
  valid_extra : zlen (hd_Extra header) <= 32;
  valid_future : uncle = false -> hd_Time header <= u64 (now + 15);
  valid_time : hd_Time parent < hd_Time header;
  valid_difficulty : CalcDifficulty config (hd_Time header) parent = Ok (hd_Difficulty header);
  valid_gas_limit : 5000 <= hd_GasLimit header < 2 ^ 63;
  valid_gas_used : hd_GasUsed header <= hd_GasLimit header;
  valid_gas_change : Z.abs (hd_GasLimit parent - hd_GasLimit header) < hd_GasLimit parent / 1024;
  valid_number : hd_Number header = hd_Number parent + 1;
  valid_seal : seal = true -> VerifySeal e header = Ok tt;
  valid_dao : VerifyDAOHeaderExtraData config header = Ok tt;
  valid_fork : VerifyForkHashes config header uncle = Ok tt;
}.

Lemma wrap64_small x : - 2 ^ 63 <= x < 2 ^ 63 -> wrap64 x = x.
Proof. intros Hx. unfold wrap64. rewrite Z.mod_small; lia. Qed.

(** The change of the gas limit is computed without overflow. *)
Lemma gas_change_spec a b :
  0 <= a < 2 ^ 63 -> 0 <= b < 2 ^ 63 ->
  u64 (if wrap64 (int64 a - int64 b) <? 0 then wrap64 (wrap64 (int64 a - int64 b) * -1) else wrap64 (int64 a - int64 b)) = Z.abs (a - b).
Proof.
  intros Ha Hb. rewrite !int64_small by lia. rewrite (wrap64_small (a - b)) by lia.
  destruct (Z.ltb_spec (a - b) 0); [rewrite wrap64_small by lia|]; rewrite u64_small by lia; lia.
Qed.

Lemma verifyHeader_spec e config now header parent uncle seal :
  is_u64 (hd_GasLimit header) -> 0 <= hd_GasLimit parent < 2 ^ 63 -> zlen (hd_Extra header) < 2 ^ 64 ->
  verifyHeader e config now header parent uncle seal = Ok tt <-> valid_header e config now header parent uncle seal.
Proof.
  intros Hg Hpg Hx. unfold is_u64 in Hg. unfold verifyHeader, MaximumExtraDataSize. pose proof (zlen_nonneg (hd_Extra header)). rewrite u64_small by lia.
  destruct (Z.gtb_spec (zlen (hd_Extra header)) 32); [split; [done|intros []; lia]|].
  destruct (negb uncle && (hd_Time header >? u64 (now + 15))) eqn:Hfut.
  { split; [done|intros []]. apply andb_true_iff in Hfut as [Hu Hf]. destruct uncle; [done|]. specialize (valid_future0 eq_refl). lia. }
  destruct (Z.leb_spec (hd_Time header) (hd_Time parent)); [split; [done|intros []; lia]|].
  destruct (CalcDifficulty config (hd_Time header) parent) as [d| |] eqn:Hd; [|split; [done|intros []; congruence]..]. simpl lift_he. bind_simpl.
  destruct (Z.eqb_spec d (hd_Difficulty header)) as [->|Hne]; simpl negb; cbv iota; [|split; [done|intros []; congruence]].
  destruct (Z.gtb_spec (hd_GasLimit header) 0x7fffffffffffffff); [split; [done|intros []; lia]|].
  destruct (Z.gtb_spec (hd_GasUsed header) (hd_GasLimit header)); [split; [done|intros []; lia]|].
  cbv zeta. rewrite gas_change_spec by lia. unfold GasLimitBoundDivisor, MinGasLimit. rewrite Z.geb_leb.
  destruct (Z.leb_spec (hd_GasLimit parent / 1024) (Z.abs (hd_GasLimit parent - hd_GasLimit header))); simpl orb; cbv iota; [split; [done|intros []; lia]|].
  destruct (Z.ltb_spec (hd_GasLimit header) 5000); [split; [done|intros []; lia]|].
  destruct (Z.eqb_spec (hd_Number header - hd_Number parent) 1); simpl negb; cbv iota; [|split; [done|intros []; lia]].
  assert (Hfut' : uncle = false -> hd_Time header <= u64 (now + 15)).
  { intros ->. simpl in Hfut. lia. }
  destruct (if seal then VerifySeal e header else Ok tt) as [[]| |] eqn:Hseal; bind_simpl; [|split; [done|intros []; destruct seal; [by rewrite valid_seal0 in Hseal|done]]..].
  destruct (VerifyDAOHeaderExtraData config header) as [[]| |] eqn:Hdao; bind_simpl; [|split; [done|intros []; congruence]..].
  split; [|by intros []]. intros Hfork. split; try done; try lia. intros ->. done.
Qed.

(** C36. [verifyHeader] accepts a header exactly if it is valid: extra data of
    at most 32 bytes, a time after the parent's and not in the future, the
    difficulty of [CalcDifficulty], a gas limit that is within its bounds and
    changes by less than a 1024th, no more gas used than that, the next number,
    a valid seal and the fields of the forks.  The signed arithmetic on gas
    limits does not overflow. *)
Theorem verifyHeader_exact (e : Ethash) (config : EthashConfig) (now : Z) (header parent : Header) (uncle seal : bool) :
  is_u64 (hd_GasLimit header) -> 0 <= hd_GasLimit parent < 2 ^ 63 -> zlen (hd_Extra header) < 2 ^ 64 ->
  verifyHeader e config now header parent uncle seal = Ok tt <-> valid_header e config now header parent uncle seal.
Proof. apply verifyHeader_spec. Qed.
(** *** Uncles *)

(** The ancestors of a block, up to [n] generations. *)
Fixpoint ancestor_blocks (n : nat) (chain : ChainReader) (parent : list Z) (number : Z) : list Block :=
  match n with
  | O => []
  | S n =>
      match GetBlock chain parent number with
      | None => []
      | Some b => b :: ancestor_blocks n chain (hd_ParentHash (bk_header b)) (u64 (number - 1))
      end
  end.

Definition ancestors_of (chain : ChainReader) (block : Block) : list Block :=
  ancestor_blocks 7 chain (hd_ParentHash (bk_header block)) (u64 (u64 (hd_Number (bk_header block)) - 1)).

Definition family (chain : ChainReader) (block : Block) : list Header := bk_header block :: map bk_header (ancestors_of chain block).

(** What the protocol asks of the uncles of a block. *)
Record valid_uncles (e : Ethash) (config : EthashConfig) (chain : ChainReader) (now : Z) (block : Block) : Prop := {
  uncles_few : zlen (bk_uncles block) <= 2;
  uncles_distinct : NoDup (map header_Hash (bk_uncles block));
  uncles_new u b : u ∈ bk_uncles block -> b ∈ ancestors_of chain block -> header_Hash u ∉ map header_Hash (bk_uncles b);
  uncles_no_ancestor u : u ∈ bk_uncles block -> header_Hash u ∉ map header_Hash (family chain block);
  uncles_related u : u ∈ bk_uncles block -> hd_ParentHash u <> hd_ParentHash (bk_header block) /\
    exists p, p ∈ family chain block /\ header_Hash p = hd_ParentHash u /\ valid_header e config now u p true true;
}.

(** The headers of [l] by their hashes. *)
Definition keyed (A : gmap (list Z) Header) (l : list Header) : Prop := forall h p, A !! h = Some p <-> p ∈ l /\ header_Hash p = h.

Definition collision_free (l : list Header) : Prop := forall p q, p ∈ l -> q ∈ l -> header_Hash p = header_Hash q -> p = q.

Lemma keyed_insert A l p : keyed A l -> collision_free (p :: l) -> keyed (<[header_Hash p := p]> A) (p :: l).
Proof.
  intros Hk Hc h q. rewrite lookup_insert_Some, (Hk h q), elem_of_cons. split.
  - intros [[<- <-]|(Hne & Hq & Hh)]; [|by split; [right|]]. split; [by left|done].
  - intros [[->|Hq] <-]; [by left|]. destruct (decide (header_Hash p = header_Hash q)) as [He|]; [left|by right].
    split; [done|]. apply Hc; [left|by right|done].
Qed.

Lemma keyed_proper A l l' : (forall p, p ∈ l <-> p ∈ l') -> keyed A l -> keyed A l'.
Proof. intros Hl Hk h p. by rewrite <- (Hl p). Qed.

Lemma collision_free_proper l l' : (forall p, p ∈ l' -> p ∈ l) -> collision_free l -> collision_free l'.
Proof. intros Hl Hc p q Hp Hq. apply Hc; by apply Hl. Qed.

Lemma collision_free_NoDup l : NoDup (map header_Hash l) -> collision_free l.
Proof.
  intros Hnd p q Hp Hq He. apply list_elem_of_lookup in Hp as [i Hi]. apply list_elem_of_lookup in Hq as [j Hj].
  assert (i = j) as ->; [|congruence]. apply (NoDup_lookup _ i j (header_Hash p) Hnd); rewrite list_lookup_fmap; [by rewrite Hi|]. rewrite Hj. simpl. by rewrite He.
Qed.

Lemma gather_spec n chain parent number U A l :
  keyed A l -> collision_free (map bk_header (ancestor_blocks n chain parent number) ++ l) ->
  let bs := ancestor_blocks n chain parent number in
  exists U' A', gather n chain parent number U A = (U', A') /\
    (forall h, h ∈ U' <-> h ∈ U \/ exists b, b ∈ bs /\ h ∈ map header_Hash (bk_uncles b)) /\ keyed A' (map bk_header bs ++ l).
Proof.
  revert parent number U A l. induction n as [|n IH]; intros parent number U A l Hk Hc; simpl.
  { exists U, A. split; [done|]. split; [|done]. intros h. split; [by left|]. intros [?|(b & Hb & _)]; [done|by apply elem_of_nil in Hb]. }
  simpl in Hc. destruct (GetBlock chain parent number) as [b|]; simpl in *.
  2: { exists U, A. split; [done|]. split; [|done]. intros h. split; [by left|]. intros [?|(b & Hb & _)]; [done|by apply elem_of_nil in Hb]. }
  set (bs := ancestor_blocks n chain (hd_ParentHash (bk_header b)) (u64 (number - 1))) in *.
  assert (Hk2 : keyed (<[header_Hash (bk_header b) := bk_header b]> A) (bk_header b :: l)).
  { apply keyed_insert; [done|]. eapply collision_free_proper, Hc. intros p. rewrite !elem_of_cons, elem_of_app. tauto. }
  destruct (IH (hd_ParentHash (bk_header b)) (u64 (number - 1)) (U ∪ list_to_set (map header_Hash (bk_uncles b))) _ _ Hk2) as (U' & A' & -> & HU & HA).
  { eapply collision_free_proper, Hc. intros p. rewrite elem_of_app, !elem_of_cons, elem_of_app. fold bs. tauto. }
  exists U', A'. split; [done|]. split.
  - intros h. rewrite HU, elem_of_union, elem_of_list_to_set. fold bs. setoid_rewrite elem_of_cons. naive_solver.
  - eapply keyed_proper, HA. intros p. fold bs. rewrite elem_of_app, !elem_of_cons, elem_of_app. tauto.
Qed.
(** What the loop asks of one uncle. *)
Definition uncle_ok (e : Ethash) (config : EthashConfig) (now : Z) (block : Block) (U : gset (list Z)) (fam : list Header) (u : Header) : Prop :=
  header_Hash u ∉ U /\ header_Hash u ∉ map header_Hash fam /\ hd_ParentHash u <> hd_ParentHash (bk_header block) /\
  exists p, p ∈ fam /\ header_Hash p = hd_ParentHash u /\ verifyHeader e config now u p true true = Ok tt.

Lemma keyed_None A fam h : keyed A fam -> A !! h = None <-> h ∉ map header_Hash fam.
Proof.
  intros Hk. rewrite eq_None_not_Some. apply not_iff_compat. rewrite list_elem_of_fmap. split.
  - intros [p Hp%Hk]. exists p. by destruct Hp as [? <-].
  - intros (p & -> & Hp). exists p. by apply Hk.
Qed.

Lemma check_uncles_cons e config now block u l U A fam :
  keyed A fam -> collision_free fam ->
  check_uncles e config now block (u :: l) U A = Ok tt <-> uncle_ok e config now block U fam u /\ check_uncles e config now block l ({[ header_Hash u ]} ∪ U) A = Ok tt.
Proof.
  intros Hk Hc. unfold uncle_ok. simpl. case_decide as HU; [naive_solver|].
  destruct (A !! header_Hash u) as [q|] eqn:Hq.
  { split; [done|]. intros ((_ & Hn & _) & _). apply (keyed_None A fam) in Hn; [congruence|done]. }
  apply (keyed_None A fam) in Hq; [|done]. destruct (A !! hd_ParentHash u) as [p|] eqn:Hp.
  2: { split; [done|]. intros ((_ & _ & _ & p & Hp1 & Hp2 & _) & _). assert (A !! hd_ParentHash u = Some p) by (by apply Hk). congruence. }
  apply Hk in Hp as [Hp Hph]. case_decide as Hd; [naive_solver|].
  assert (Hv : (exists p, p ∈ fam /\ header_Hash p = hd_ParentHash u /\ verifyHeader e config now u p true true = Ok tt) <-> verifyHeader e config now u p true true = Ok tt).
  { split; [|eauto]. intros (p' & Hp' & Hph' & Hv). rewrite <- (Hc p' p); [done..|congruence]. }
  rewrite Hv. destruct (verifyHeader e config now u p true true) as [[]| |]; bind_simpl; naive_solver.
Qed.

Lemma check_uncles_spec e config now block l U A fam :
  keyed A fam -> collision_free fam ->
  check_uncles e config now block l U A = Ok tt <-> NoDup (map header_Hash l) /\ forall u, u ∈ l -> uncle_ok e config now block U fam u.
Proof.
  intros Hk Hc. revert U. induction l as [|u l IH]; intros U.
  - simpl. split; [|done]. intros _. split; [constructor|]. by intros u Hu%elem_of_nil.
  - rewrite (check_uncles_cons e config now block u l U A fam), IH by done. simpl. rewrite NoDup_cons. setoid_rewrite elem_of_cons. split.
    + intros (Hu & Hnd & Hl). split; [split; [|done]|].
      * intros (w & Hw & Hwl)%list_elem_of_fmap. destruct (Hl w Hwl) as [Hn _]. set_solver.
      * intros w [->|Hw]; [done|]. destruct (Hl w Hw) as (Hn & Hrest). split; [set_solver|done].
    + intros ((Hn & Hnd) & Hl). split; [apply Hl; by left|]. split; [done|]. intros w Hw. destruct (Hl w (or_intror Hw)) as (Hw1 & Hrest).
      split; [|done]. rewrite elem_of_union, elem_of_singleton. intros [He|?]; [|done]. apply Hn. rewrite <- He. by apply list_elem_of_fmap_2.
Qed.

Lemma uncle_ok_valid e config chain now block U :
  Forall (fun u => is_u64 (hd_GasLimit u) /\ zlen (hd_Extra u) < 2 ^ 64) (bk_uncles block) ->
  Forall (fun p => 0 <= hd_GasLimit p < 2 ^ 63) (family chain block) ->
  (forall h, h ∈ U <-> h ∈ (∅ : gset (list Z)) \/ exists b, b ∈ ancestors_of chain block /\ h ∈ map header_Hash (bk_uncles b)) ->
  forall u, u ∈ bk_uncles block ->
  uncle_ok e config now block ({[header_Hash (bk_header block)]} ∪ U) (family chain block) u <->
    (forall b, b ∈ ancestors_of chain block -> header_Hash u ∉ map header_Hash (bk_uncles b)) /\ header_Hash u ∉ map header_Hash (family chain block) /\
    hd_ParentHash u <> hd_ParentHash (bk_header block) /\
    exists p, p ∈ family chain block /\ header_Hash p = hd_ParentHash u /\ valid_header e config now u p true true.
Proof.
  intros Hu Hf HU u Hin. destruct (proj1 (Forall_forall _ _) Hu u Hin) as [Hg Hx]. unfold uncle_ok. rewrite elem_of_union, elem_of_singleton, HU.
  assert (Hv : (exists p, p ∈ family chain block /\ header_Hash p = hd_ParentHash u /\ verifyHeader e config now u p true true = Ok tt) <->
    exists p, p ∈ family chain block /\ header_Hash p = hd_ParentHash u /\ valid_header e config now u p true true).
  { assert (Hs : forall p, p ∈ family chain block -> verifyHeader e config now u p true true = Ok tt <-> valid_header e config now u p true true).
    { intros p Hp. apply verifyHeader_spec; [done| |done]. by apply (proj1 (Forall_forall _ _) Hf). }
    split; intros (p & Hp & Hph & H); exists p; (split; [done|]); (split; [done|]); by apply Hs. }
  rewrite Hv. assert (Hb : header_Hash u ∉ map header_Hash (family chain block) -> header_Hash u <> header_Hash (bk_header block)).
  { intros Hn He. apply Hn. rewrite He. unfold family. simpl. left. }
  split.
  - intros (H1 & H2 & H3). split; [|done]. intros b Hbin Hh. apply H1. right. right. by exists b.
  - intros (H1 & H2 & H3). split; [|done]. intros [He|[Hn|(b & Hbin & Hh)]]; [by apply Hb|by apply elem_of_empty in Hn|by apply (H1 b)].
Qed.

(** C26. Unless the engine accepts everything, [VerifyUncles] accepts a block
    exactly if its uncles are valid: at most two of them, all different, none
    that is the block, an ancestor, or an uncle of an ancestor of the last seven
    generations, each a valid header after the block itself or one of these
    ancestors, but not a sibling of the block.  That a child of the block passes
    is how the program is written: the block is put among the ancestors.  The
    hashes of these headers must be distinct. *)
Theorem VerifyUncles_exact (e : Ethash) (config : EthashConfig) (chain : ChainReader) (now : Z) (block : Block) :
  PowMode e <> ModeFullFake -> collision_free (family chain block) ->
  Forall (fun u => is_u64 (hd_GasLimit u) /\ zlen (hd_Extra u) < 2 ^ 64) (bk_uncles block) ->
  Forall (fun p => 0 <= hd_GasLimit p < 2 ^ 63) (family chain block) ->
  VerifyUncles e config chain now block = Ok tt <-> valid_uncles e config chain now block.
Proof.
  intros Hm Hc Hu Hf. unfold VerifyUncles. rewrite decide_False by done. unfold maxUncles.
  destruct (Z.gtb_spec (zlen (bk_uncles block)) 2) as [Hl|Hl]; [split; [done|intros []; lia]|].
  destruct (Z.eqb_spec (zlen (bk_uncles block)) 0) as [H0|_].
  { split; [|done]. intros _. unfold zlen in H0. destruct (bk_uncles block) eqn:He; [|simpl in H0; lia].
    split; rewrite ?He; [done|constructor|by intros ? ? ?%elem_of_nil|by intros ? ?%elem_of_nil..]. }
  destruct (gather_spec 7 chain (hd_ParentHash (bk_header block)) (u64 (u64 (hd_Number (bk_header block)) - 1)) ∅ ∅ []) as (U & A & -> & HU & HA).
  { intros h p. rewrite lookup_empty. split; [done|]. by intros [?%elem_of_nil _]. }
  { rewrite app_nil_r. eapply collision_free_proper, Hc. intros p. by right. }
  rewrite app_nil_r in HA. fold (ancestors_of chain block) in HU, HA.
  rewrite (check_uncles_spec _ _ _ _ _ _ _ (family chain block)); [|by apply keyed_insert|done].
  pose proof (uncle_ok_valid e config chain now block U Hu Hf HU) as Hok.
  split.
  - intros [Hnd Hall]. split; try done; intros u; [intros b Hin Hb|intros Hin|intros Hin]; destruct (proj1 (Hok u Hin) (Hall u Hin)) as (H1 & H2 & H3); [by apply H1|done..].
  - intros [_ Hnd Hnew Hna Hrel]. split; [done|]. intros u Hin. apply Hok; [done|]. split; [intros b Hb; by apply (Hnew u b)|]. split; [by apply Hna|]. by apply Hrel.
Qed.
End verify.

(** ** The gas limit that a miner chooses *)

(** What [verifyHeader] asks of a gas limit. *)
Definition valid_gas_step (parent limit : Z) : Prop := 5000 <= limit < 2 ^ 63 /\ Z.abs (parent - limit) < parent / 1024.

Lemma CalcGasLimit_eq p floor ceil :
  5000 <= hd_GasLimit p <= 2 ^ 62 -> 0 <= hd_GasUsed p <= hd_GasLimit p -> 0 <= floor < 2 ^ 64 -> 0 <= ceil < 2 ^ 64 ->
  let decay := hd_GasLimit p / 1024 - 1 in
  let wanted := Z.max 5000 (hd_GasLimit p - decay + (hd_GasUsed p + hd_GasUsed p / 2) / 1024) in
  CalcGasLimit p floor ceil =
    if wanted <? floor then Z.min floor (hd_GasLimit p + decay) else if wanted >? ceil then Z.max ceil (hd_GasLimit p - decay) else wanted.
Proof.
  intros Hg Hu Hf Hc decay wanted. unfold CalcGasLimit, GasLimitBoundDivisor, MinGasLimit.
  assert (Hu2 : 0 <= hd_GasUsed p / 2 <= hd_GasUsed p) by (split; [apply Z.div_pos|apply Z.div_le_upper_bound]; lia).
  assert (Hc2 : 0 <= (hd_GasUsed p + hd_GasUsed p / 2) / 1024 <= hd_GasUsed p) by (split; [apply Z.div_pos|apply Z.div_le_upper_bound]; lia).
  assert (Hq : 4 <= hd_GasLimit p / 1024 <= hd_GasLimit p) by (split; [apply Z.div_le_lower_bound|apply Z.div_le_upper_bound]; lia).
  rewrite (u64_small (hd_GasUsed p + _)), (u64_small (hd_GasLimit p / 1024 - 1)) by lia. fold decay. assert (Hd : 3 <= decay < hd_GasLimit p) by (unfold decay; lia).
  rewrite (u64_small (hd_GasLimit p - decay)), (u64_small (hd_GasLimit p - decay + _)), (u64_small (hd_GasLimit p + decay)) by lia.
  set (l := hd_GasLimit p - decay + _) in *. replace (if l <? 5000 then 5000 else l) with wanted by (unfold wanted; destruct (Z.ltb_spec l 5000); lia).
  destruct (wanted <? floor); [destruct (Z.gtb_spec (hd_GasLimit p + decay) floor); lia|].
  destruct (wanted >? ceil); [destruct (Z.ltb_spec (hd_GasLimit p - decay) ceil); lia|done].
Qed.

(** C39. The gas limit that [CalcGasLimit] proposes passes the check of
    [verifyHeader] if the parent has a limit of at least 5120, and stays
    between the floor and the ceiling if the parent's limit is there.  After a
    full block with a smaller limit it proposes one that the check refuses, if
    the parent's limit plus four is between the floor and the ceiling. *)
Theorem CalcGasLimit_valid (p : Header) (floor ceil : Z) :
  5000 <= hd_GasLimit p <= 2 ^ 62 -> 0 <= hd_GasUsed p <= hd_GasLimit p -> 0 <= floor < 2 ^ 64 -> 5000 <= ceil < 2 ^ 64 ->
  (5120 <= hd_GasLimit p -> valid_gas_step (hd_GasLimit p) (CalcGasLimit p floor ceil)) /\
  (floor <= hd_GasLimit p <= ceil -> floor <= CalcGasLimit p floor ceil <= ceil) /\
  (hd_GasLimit p < 5120 -> hd_GasUsed p = hd_GasLimit p -> floor <= hd_GasLimit p + 4 <= ceil -> ~ valid_gas_step (hd_GasLimit p) (CalcGasLimit p floor ceil)).
Proof.
  intros Hg Hu Hf Hc. rewrite CalcGasLimit_eq by lia. cbv zeta. unfold valid_gas_step.
  assert (Hq : 4 <= hd_GasLimit p / 1024) by (apply Z.div_le_lower_bound; lia). pose proof (Z.mul_div_le (hd_GasLimit p) 1024 ltac:(lia)).
  pose proof (Z.mul_succ_div_gt (hd_GasLimit p) 1024 ltac:(lia)). pose proof (Z.mul_div_le (hd_GasUsed p) 2 ltac:(lia)). pose proof (Z.mul_succ_div_gt (hd_GasUsed p) 2 ltac:(lia)).
  pose proof (Z.mul_div_le (hd_GasUsed p + hd_GasUsed p / 2) 1024 ltac:(lia)). pose proof (Z.mul_succ_div_gt (hd_GasUsed p + hd_GasUsed p / 2) 1024 ltac:(lia)).
  set (q := hd_GasLimit p / 1024) in *. set (h := hd_GasUsed p / 2) in *. set (c := (hd_GasUsed p + h) / 1024) in *.
  set (w := Z.max 5000 _). assert (Hw : w = Z.max 5000 (hd_GasLimit p - (q - 1) + c)) by done. clearbody q h c w.
  destruct (Z.ltb_spec w floor), (Z.gtb_spec w ceil); split; intros; try split; lia.
Qed.

(** ** What a block issues *)

(** The reward of a schedule is the one with the last activation. *)
Definition latest_reward (m : gmap Z Z) (n R : Z) : Prop :=
  (exists a, m !! a = Some R /\ a <= n /\ forall a', is_Some (m !! a') -> a' <= n -> a' <= a) \/
  (R = FrontierBlockReward /\ forall a, is_Some (m !! a) -> n < a).

Definition latest_step (n : Z) (acc p : Z * Z) : Z * Z := if (p.1 <=? n) && (p.1 >=? acc.1) then p else acc.

Lemma latest_fold n l :
  Forall (fun p => 0 <= p.1) l ->
  let r := foldl (latest_step n) (0, FrontierBlockReward) l in
  (r ∈ l /\ r.1 <= n /\ forall p, p ∈ l -> p.1 <= n -> p.1 <= r.1) \/ (r = (0, FrontierBlockReward) /\ forall p, p ∈ l -> n < p.1).
Proof.
  induction l as [|p l IH] using rev_ind; intros Hl; [right; split; [done|]; by intros p ?%elem_of_nil|].
  apply Forall_app in Hl as [Hl [Hp _]%Forall_cons]. specialize (IH Hl). simpl in *. rewrite foldl_app. simpl. set (r := foldl _ _ l) in *.
  assert (H1 : forall q, q ∈ l ++ [p] <-> q ∈ l \/ q = p) by (intros q; rewrite elem_of_app, list_elem_of_singleton; done).
  unfold latest_step at 1 2 3 4. destruct (Z.leb_spec p.1 n) as [Hn|Hn]; simpl.
  - destruct (Z.geb_spec p.1 r.1) as [Hge|Hlt]; left.
    + split; [apply H1; by right|]. split; [done|]. intros q [Hq| ->]%H1 Hqn; [|lia]. destruct IH as [(_ & _ & IH)|[_ IH]]; specialize (IH q Hq); [|lia]. specialize (IH Hqn). lia.
    + destruct IH as [(Hr & Hrn & IH)|[Hr _]]; [|rewrite Hr in Hlt; simpl in Hlt; lia].
      split; [apply H1; by left|]. split; [done|]. intros q [Hq| ->]%H1 Hqn; [by apply IH|lia].
  - destruct IH as [(Hr & Hrn & IH)|[Hr IH]]; [left|right].
    + split; [apply H1; by left|]. split; [done|]. intros q [Hq| ->]%H1 Hqn; [by apply IH|lia].
    + split; [done|]. intros q [Hq| ->]%H1; [by apply IH|done].
Qed.

Section issue.
Context {SO : ScheduleOrder}.

Lemma EthashBlockReward_schedule config n :
  IsEnabled (GetEthashEIP1234Transition config) n = false -> IsEnabled (GetEthashEIP649Transition config) n = false ->
  map_Forall (fun a _ => 0 <= a) (GetEthashBlockRewardSchedule config) ->
  latest_reward (GetEthashBlockRewardSchedule config) (u64 n) (EthashBlockReward config n).
Proof.
  intros H1 H2 Hm. unfold EthashBlockReward. rewrite H1, H2. set (m := GetEthashBlockRewardSchedule config) in *.
  assert (Hin : forall p, p ∈ schedule_order m <-> m !! p.1 = Some p.2) by (intros [a r]; rewrite schedule_order_spec; apply elem_of_map_to_list).
  destruct (latest_fold (u64 n) (schedule_order m)) as [(Hr & Hn & Hall)|[Hr Hall]].
  - apply Forall_forall. intros p Hp%Hin. by apply (Hm p.1 p.2).
  - left. eexists. split; [by apply Hin, Hr|]. split; [done|]. intros a' [r' Ha'] Hle. by apply (Hall (a', r')); [apply Hin|].
  - right. fold (latest_step (u64 n)). rewrite Hr. split; [done|]. intros a [r Ha]. by apply (Hall (a, r)), Hin.
Qed.

Lemma GetBlockEra_eq n len : 1 <= n -> 2 <= len -> GetBlockEra n len = Ok ((n - 1) / len).
Proof.
  intros Hn Hl. unfold GetBlockEra. rewrite (proj2 (Z.ltb_ge n 1)), (proj2 (Z.eqb_neq len 0)) by lia. f_equal. rewrite Z.mod_1_r, Z.sub_0_r.
  pose proof (Z.div_mod (n - 1) len ltac:(lia)). replace (n - (n - 1) mod len) with ((n - 1) / len * len + 1) by lia.
  rewrite Z.div_add_l by lia. by rewrite (Z.div_small 1 len), Z.add_0_r by lia.
Qed.
(** The reward of a block without uncles. *)
Definition base_reward (config : EthashConfig) (n R : Z) : Prop :=
  if IsEnabled (GetEthashECIP1017Transition config) n then
    exists rounds, GetEthashECIP1017EraRounds config = Some rounds /\ R = FrontierBlockReward * 4 ^ ((n - 1) / rounds) / 5 ^ ((n - 1) / rounds)
  else if IsEnabled (GetEthashEIP1234Transition config) n then R = 2 * 10 ^ 18
  else if IsEnabled (GetEthashEIP649Transition config) n then R = 3 * 10 ^ 18
  else latest_reward (GetEthashBlockRewardSchedule config) (u64 n) R.

Definition rewards_configured (config : EthashConfig) : Prop :=
  map_Forall (fun a r => 0 <= a /\ 0 <= r) (GetEthashBlockRewardSchedule config) /\
  (is_Some (GetEthashECIP1017Transition config) -> exists rounds, GetEthashECIP1017EraRounds config = Some rounds /\ 2 <= rounds).

Lemma foldl_add {A} (l : list A) (c acc : Z) : foldl (fun r _ => r + c) acc l = acc + Z.of_nat (length l) * c.
Proof. revert acc. induction l as [|x l IH]; intros acc; [simpl; lia|]. change (length (x :: l)) with (S (length l)). simpl foldl. rewrite IH. lia. Qed.

Lemma winner_reward era : 0 <= era -> GetBlockWinnerRewardByEra era FrontierBlockReward = FrontierBlockReward * 4 ^ era / 5 ^ era.
Proof.
  intros He. unfold GetBlockWinnerRewardByEra. destruct (Z.eqb_spec era 0) as [->|_]; [|done]. by rewrite !Z.pow_0_r, Z.div_1_r, Z.mul_1_r.
Qed.

Lemma EthashBlockReward_base config n :
  rewards_configured config -> IsEnabled (GetEthashECIP1017Transition config) n = false ->
  base_reward config n (EthashBlockReward config n) /\ 0 <= EthashBlockReward config n.
Proof.
  intros [Hm _] Hn. unfold base_reward. rewrite Hn. destruct (IsEnabled (GetEthashEIP1234Transition config) n) eqn:E1.
  { unfold EthashBlockReward. rewrite E1. split; [reflexivity|]. unfold EIP1234FBlockReward. lia. }
  destruct (IsEnabled (GetEthashEIP649Transition config) n) eqn:E2.
  { unfold EthashBlockReward. rewrite E1, E2. split; [reflexivity|]. unfold EIP649FBlockReward. lia. }
  pose proof (EthashBlockReward_schedule config n E1 E2) as Hs. split; [by apply Hs; intros a r [? _]%Hm|]. destruct Hs as [(a & Ha & _)|[-> _]]; [by intros a r [? _]%Hm|by apply Hm in Ha as [_ ?]|unfold FrontierBlockReward; lia].
Qed.

Lemma uncle_share_bound header uncle R : 0 <= R -> hd_Number header - 8 <= hd_Number uncle < hd_Number header -> 0 <= uncle_share header uncle R <= 7 * R / 8.
Proof.
  intros HR Hu. unfold uncle_share. split; [apply Z.div_pos; nia|]. apply Z.div_le_mono; nia.
Qed.
Lemma issue_total R shares :
  0 <= R -> Forall (fun x => 0 <= x <= 7 * R / 8) shares -> zlen shares <= 2 -> 16 * (R + zlen shares * (R / 32) + foldr Z.add 0 shares) <= 45 * R.
Proof.
  intros HR Hs Hz. unfold zlen in *. pose proof (Z.mul_div_le R 32 ltac:(lia)). pose proof (Z.mul_div_le (7 * R) 8 ltac:(lia)).
  assert (0 <= R / 32) by (apply Z.div_pos; lia). destruct shares as [|x [|y [|]]]; simpl in *; rewrite ?Forall_cons in Hs; nia.
Qed.

Lemma era_reward_nonneg era : 0 <= era -> 0 <= FrontierBlockReward * 4 ^ era / 5 ^ era.
Proof. intros He. apply Z.div_pos; [apply Z.mul_nonneg_nonneg; [unfold FrontierBlockReward; lia|apply Z.pow_nonneg; lia]|apply Z.pow_pos_nonneg; lia]. Qed.

Lemma era_share_bound era header uncle :
  0 <= era -> hd_Number header - 8 <= hd_Number uncle < hd_Number header ->
  0 <= GetBlockUncleRewardByEra era header uncle FrontierBlockReward <= 7 * (FrontierBlockReward * 4 ^ era / 5 ^ era) / 8.
Proof.
  intros He Hu. set (R := FrontierBlockReward * 4 ^ era / 5 ^ era). pose proof (era_reward_nonneg era He : 0 <= R) as HR. unfold GetBlockUncleRewardByEra, getEraUncleBlockReward. rewrite winner_reward by done. fold R. destruct (Z.eqb_spec era 0) as [E0|_].
  - replace FrontierBlockReward with R by (unfold R; by rewrite E0, !Z.pow_0_r, Z.div_1_r, Z.mul_1_r). by apply uncle_share_bound.
  - split; [apply Z.div_pos; lia|]. apply Z.div_le_lower_bound; [lia|]. pose proof (Z.mul_div_le R 32 ltac:(lia)). lia.
Qed.

(** The amounts, before they are bounded. *)
Lemma GetRewards_eq config header uncles :
  rewards_configured config -> 1 <= hd_Number header -> Forall (fun u => hd_Number header - 8 <= hd_Number u < hd_Number header) uncles ->
  exists R shares, GetRewards config header uncles = Ok (R + zlen uncles * (R / 32), shares) /\ base_reward config (hd_Number header) R /\ 0 <= R /\
    length shares = length uncles /\ Forall (fun x => 0 <= x <= 7 * R / 8) shares.
Proof.
  intros Hc Hn Hu. unfold GetRewards. destruct (IsEnabled (GetEthashECIP1017Transition config) (hd_Number header)) eqn:He.
  - destruct (proj2 Hc) as (rounds & Hr & H2); [unfold IsEnabled in He; destruct (GetEthashECIP1017Transition config); [done|discriminate]|].
    unfold ecip1017BlockReward. rewrite Hr. simpl. bind_simpl. rewrite GetBlockEra_eq by lia. bind_simpl. set (era := (hd_Number header - 1) / rounds).
    assert (He0 : 0 <= era) by (apply Z.div_pos; lia). exists (FrontierBlockReward * 4 ^ era / 5 ^ era). eexists.
    unfold GetBlockWinnerRewardForUnclesByEra, getEraUncleBlockReward. rewrite foldl_add, winner_reward, Z.add_0_l by done. split; [done|].
    unfold base_reward. rewrite He. split; [by exists rounds|]. rewrite length_map, Forall_map. split; [by apply era_reward_nonneg|]. split; [done|].
    eapply Forall_impl; [exact Hu|]. intros u Hu'. by apply era_share_bound.
  - destruct (EthashBlockReward_base config (hd_Number header) Hc He) as [Hb HR]. eexists _, _. rewrite foldl_add. split; [done|]. split; [done|]. split; [done|].
    rewrite length_map, Forall_map. split; [done|]. eapply Forall_impl; [exact Hu|]. intros u Hu'. by apply uncle_share_bound.
Qed.

(** C38. What a block issues: the miner gets the reward of the block, which is
    that of the last activation in the schedule whatever the order of the map,
    or the fork's, or four fifths per era of ECIP 1017, and a 32nd of it per
    uncle; an uncle of the last eight generations gets at most seven eighths.
    With the two uncles that are allowed this is less than three rewards. *)
Theorem GetRewards_issue (config : EthashConfig) (header : Header) (uncles : list Header) :
  rewards_configured config -> 1 <= hd_Number header -> Forall (fun u => hd_Number header - 8 <= hd_Number u < hd_Number header) uncles ->
  exists R miner shares, GetRewards config header uncles = Ok (miner, shares) /\ base_reward config (hd_Number header) R /\ 0 <= R /\
    miner = R + zlen uncles * (R / 32) /\ length shares = length uncles /\ Forall (fun x => 0 <= x <= 7 * R / 8) shares /\
    (zlen uncles <= 2 -> 16 * (miner + foldr Z.add 0 shares) <= 45 * R).
Proof.
  intros Hc Hn Hu. destruct (GetRewards_eq config header uncles Hc Hn Hu) as (R & shares & Hrun & Hb & HR & Hl & Hs).
  exists R, (R + zlen uncles * (R / 32)), shares. split_and!; try done. assert (Hz : zlen uncles = zlen shares) by (unfold zlen; lia). rewrite Hz. by apply issue_total.
Qed.
End issue.

(** ** Examples *)

Module Examples.
#[local] Existing Instance toy_keccak.
#[local] Existing Instance toy_keccak512.

Definition toy_order : ScheduleOrder := {| schedule_order := map_to_list; schedule_order_spec m := reflexivity _ |}.
#[local] Existing Instance toy_order.
(** No caches: the seals of the examples are faked. *)
Definition toy_pow : PowData := {| pow_cache _ := []; pow_dataset _ := None; pow_size _ := 0 |}.
#[local] Existing Instance toy_pow.

Definition no_forks : ChainConfig :=
  MkConfig None None None None None None None None None None None None None None None None None None None None None None None None None None None 61.

Definition sample_config : EthashConfig :=
  MkEthashConfig no_forks None None (Some 0) None None None None None None None None None (three_delays 5 7 9) {[ 0 := 5 * 10 ^ 18; 8 := 4 * 10 ^ 18 ]}
    (fun _ => replicate 32 0).

Definition faker : Ethash := MkEthash ModeFake 1000 None.

(** A header after [p], seventeen seconds later, with the difficulty that it
    has to have. *)
Definition next_header (p : Header) (coinbase : list Z) : Header :=
  let d := match CalcDifficulty sample_config (hd_Time p + 17) p with Ok d => d | _ => 0 end in
  MkHeader (header_Hash p) EmptyUncleHash coinbase (replicate 32 2) (replicate 32 3) (replicate 32 4) (replicate 256 0) d (hd_Number p + 1) (hd_GasLimit p + 1000) 21000
    (hd_Time p + 17) [1; 2] (replicate 32 0) (replicate 8 0).

Definition header10 : Header :=
  MkHeader (replicate 32 1) EmptyUncleHash (replicate 20 0) (replicate 32 2) (replicate 32 3) (replicate 32 4) (replicate 256 0) 5000000 10 8000000 0 100 []
    (replicate 32 0) (replicate 8 0).
Definition header11 : Header := next_header header10 (replicate 20 1).
Definition header12 : Header := next_header header11 (replicate 20 2).
Definition uncle11 : Header := next_header header10 (replicate 20 9).

Lemma bomb_delays_agree_witness : CalcDifficulty sample_config 117 header10 = CalcDifficulty (with_forks sample_config 5 7 9) 117 header10.
Proof. apply (bomb_delays_agree sample_config 5 7 9 117 header10); [lia|lia|lia|reflexivity|reflexivity]. Defined.


Lemma verifyHeader_exact_witness : valid_header faker sample_config 1000 header11 header10 false true.
Proof. apply (verifyHeader_exact faker sample_config 1000 header11 header10 false true); [vm_compute; done|vm_compute; done|vm_compute; done|vm_compute; reflexivity]. Defined.

(** The chain of [header10] and [header11], and a block on it with an uncle. *)
Definition sample_chain : ChainReader :=
  MkChain (fun h _ => if decide (h = header_Hash header10) then Some header10 else None)
    (fun h _ => if decide (h = header_Hash header11) then Some (MkBlock header11 [] [])
                else if decide (h = header_Hash header10) then Some (MkBlock header10 [] []) else None).
Definition sample_block : Block := MkBlock header12 [uncle11] [].

Lemma sample_family : family sample_chain sample_block = [header12; header11; header10].
Proof. vm_compute. reflexivity. Qed.

Lemma sample_family_distinct : collision_free (family sample_chain sample_block).
Proof.
  apply collision_free_NoDup. rewrite sample_family. solve_decidable.
Qed.

Lemma VerifyUncles_exact_witness : VerifyUncles faker sample_config sample_chain 1000 sample_block = Ok tt /\ valid_uncles faker sample_config sample_chain 1000 sample_block.
Proof.
  assert (H : VerifyUncles faker sample_config sample_chain 1000 sample_block = Ok tt) by (vm_compute; reflexivity). split; [exact H|].
  apply (VerifyUncles_exact faker sample_config sample_chain 1000 sample_block); [done|apply sample_family_distinct| | |exact H].
  - repeat constructor; vm_compute; done.
  - rewrite sample_family. repeat constructor; vm_compute; done.
Defined.

(** A full block with the smallest limit. *)
Definition full_block : Header :=
  MkHeader (replicate 32 1) EmptyUncleHash (replicate 20 0) (replicate 32 2) (replicate 32 3) (replicate 32 4) (replicate 256 0) 131072 1 5000 5000 100 []
    (replicate 32 0) (replicate 8 0).

Lemma CalcGasLimit_valid_witness : valid_gas_step 8000000 (CalcGasLimit header10 6000000 9000000) /\ ~ valid_gas_step 5000 (CalcGasLimit full_block 4000 9000000).
Proof.
  split.
  - apply (CalcGasLimit_valid header10 6000000 9000000); simpl; lia.
  - apply (CalcGasLimit_valid full_block 4000 9000000); simpl; lia.
Defined.

Lemma GetRewards_issue_witness : exists shares, GetRewards sample_config header12 [uncle11] = Ok (4 * 10 ^ 18 + 4 * 10 ^ 18 / 32, shares).
Proof.
  destruct (GetRewards_issue sample_config header12 [uncle11]) as (R & m & shares & H & _).
  - split; [|by intros [? [=]]]. apply map_Forall_insert_2; [done|]. apply map_Forall_singleton. done.
  - vm_compute. done.
  - repeat constructor; vm_compute; done.
  - exists shares. rewrite H. vm_compute in H. injection H as <- <-. reflexivity.
Defined.
End Examples.
