(* ===== verification/VerifyHeaders.v ===== *)
(** * Verifying a batch of headers (src/consensus/ethash/consensus.go)

    [VerifyHeaders] hands the headers to workers over channels and delivers
    their results in the order of the headers.  The goroutines are a step
    relation: the main loop sends an index, a worker computes, a worker reports
    that it is done, the main loop receives the report and delivers what is
    complete.  The file shows that every run delivers exactly the results of
    the headers, in order, and that an accepted batch is a valid chain. *)
From stdpp Require Import prelude list.
From Stdlib Require Import ZArith Lia.
From S2P Require Import Prelude TrieHash Header Digests Hashimoto VmBase VmCode Vm Ethash.

(** ** The goroutines *)

Section goroutines.
Context {R : Type} (nil : R).
(** The result for an index, the number of headers and of workers. *)
Context (work : nat -> R) (len workers : nat).

Record vstate := MkV {
  v_in : nat;              (* the next index to send *)
  v_out : nat;             (* the next result to deliver *)
  v_checked : list bool;
  v_errors : list R;       (* shared with the workers *)
  v_busy : list nat;       (* received by a worker *)
  v_ready : list nat;      (* computed, to be reported *)
  v_done : list nat;       (* in the buffer of the channel done *)
  v_delivered : list R;    (* in the channel errorsOut *)
  v_returned : bool;       (* the main loop has returned *)
}.

Definition v_start : vstate := MkV 0 0 (replicate len false) (replicate len nil) [] [] [] [] false.

(** [for checked[index] = true; checked[out]; out++ { ... }] *)
Fixpoint deliver (fuel : nat) (checked : list bool) (errors : list R) (out : nat) (delivered : list R) : option (nat * list R * bool) :=
  match fuel with
  | O => None
  | S fuel =>
      match checked !! out, errors !! out with
      | Some true, Some err =>
          let delivered := delivered ++ [err] in
          if Nat.eqb out (len - 1) then Some (out, delivered, true)
          else deliver fuel checked errors (S out) delivered
      | Some false, _ => Some (out, delivered, false)
      | _, _ => None
      end
  end.

Inductive vstep : vstate -> vstate -> Prop :=
| step_send i o ch er b r d s :
    (i < len)%nat -> (length b + length r < workers)%nat ->
    vstep (MkV i o ch er b r d s false) (MkV (S i) o ch er (i :: b) r d s false)
| step_work i o ch er b1 x b2 r d s q :
    vstep (MkV i o ch er (b1 ++ x :: b2) r d s q) (MkV i o ch (<[x := work x]> er) (b1 ++ b2) (x :: r) d s q)
| step_report i o ch er b r1 x r2 d s q :
    (length d < workers)%nat ->
    vstep (MkV i o ch er b (r1 ++ x :: r2) d s q) (MkV i o ch er b (r1 ++ r2) (d ++ [x]) s q)
| step_receive i o ch er b r x d s o' s' q' :
    deliver (S len) (<[x := true]> ch) er o s = Some (o', s', q') ->
    vstep (MkV i o ch er b r (x :: d) s false) (MkV i o' (<[x := true]> ch) er b r d s' q').

(** The caller closes the channel [abort]. *)
Inductive vabort : vstate -> vstate -> Prop :=
| step_abort i o ch er b r d s : vabort (MkV i o ch er b r d s false) (MkV i o ch er b r d s true).

(** ** Invariant *)

(** The indices that are somewhere between being sent and being received. *)
Definition in_flight (v : vstate) : list nat := v_busy v ++ v_ready v ++ v_done v.

Record vinv (v : vstate) : Prop := {
  inv_lengths : length (v_checked v) = len /\ length (v_errors v) = len;
  inv_in : (v_in v <= len)%nat;
  inv_nodup : NoDup (in_flight v);
  inv_flight : forall i : nat, i ∈ in_flight v <-> (i < v_in v)%nat /\ v_checked v !! i = Some false;
  inv_late : forall i : nat, (v_in v <= i < len)%nat -> v_checked v !! i = Some false;
  inv_errors : forall i : nat, (i < v_in v)%nat -> i ∉ v_busy v -> v_errors v !! i = Some (work i);
  inv_out : (v_out v < len)%nat /\ forall i : nat, (i < v_out v)%nat -> v_checked v !! i = Some true;
  inv_delivered : v_delivered v = map work (seq 0 (v_out v)) /\ (v_checked v !! v_out v = Some false \/ v_returned v = true) \/
    v_delivered v = map work (seq 0 len) /\ v_returned v = true;
}.

Lemma deliver_spec fuel (ch : list bool) (er : list R) (out : nat) :
  length ch = len -> (out < len)%nat -> (len - out < fuel)%nat ->
  (forall i : nat, ch !! i = Some true -> er !! i = Some (work i)) -> (forall i : nat, (i < out)%nat -> ch !! i = Some true) ->
  exists (out' : nat) (q : bool), deliver fuel ch er out (map work (seq 0 out)) = Some (out', if q then map work (seq 0 len) else map work (seq 0 out'), q) /\
    (out' < len)%nat /\ (forall i : nat, (i < out')%nat -> ch !! i = Some true) /\ (q = false -> ch !! out' = Some false).
Proof.
  intros Hl Ho Hf Her Hb. revert out Ho Hf Hb. induction fuel as [|fuel IH]; intros out Ho Hf Hb; [lia|]. cbn [deliver].
  destruct (lookup_lt_is_Some_2 ch out) as [c Hc]; [lia|]. rewrite Hc. destruct c; [|by exists out, false].
  rewrite (Her out Hc). assert (Hs : map work (seq 0 out) ++ [work out] = map work (seq 0 (S out))) by (by rewrite seq_S, map_app).
  rewrite Hs. destruct (Nat.eqb_spec out (len - 1)) as [->|Hne].
  - exists (len - 1)%nat, true. replace (S (len - 1)) with len by lia. done.
  - apply IH; [lia..|]. intros i Hi. destruct (decide (i = out)) as [->|]; [done|]. apply Hb. lia.
Qed.

Lemma vinv_start : (0 < len)%nat -> vinv v_start.
Proof.
  intros Hlen. split; simpl.
  - by rewrite !length_replicate.
  - lia.
  - constructor.
  - intros i. split; [by intros ?%elem_of_nil|lia].
  - intros i Hi. apply lookup_replicate_2. lia.
  - lia.
  - split; [done|lia].
  - left. split; [done|]. left. by apply lookup_replicate_2.
Qed.

Lemma vinv_send i o ch er b r d s :
  (i < len)%nat -> vinv (MkV i o ch er b r d s false) -> vinv (MkV (S i) o ch er (i :: b) r d s false).
Proof.
  intros Hi [Hl Hin Hnd Hfl Hlate Herr Hout Hdel]. unfold in_flight in *. simpl in *. split; simpl; try done; unfold in_flight; simpl.
  - apply NoDup_cons. split; [|done]. intros Hx%Hfl. lia.
  - intros j. rewrite elem_of_cons, Hfl. split.
    + intros [->|[? ?]]; [|split; [lia|done]]. split; [lia|]. apply Hlate. lia.
    + intros [Hj ?]. destruct (decide (j = i)) as [->|]; [by left|]. right. split; [lia|done].
  - intros j Hj. apply Hlate. lia.
  - intros j Hj Hjb. rewrite elem_of_cons in Hjb. apply Herr; [|naive_solver]. destruct (decide (j = i)); [naive_solver|lia].
Qed.

Lemma vinv_work i o ch er b1 x b2 r d s q :
  vinv (MkV i o ch er (b1 ++ x :: b2) r d s q) -> vinv (MkV i o ch (<[x := work x]> er) (b1 ++ b2) (x :: r) d s q).
Proof.
  intros [Hl Hin Hnd Hfl Hlate Herr Hout Hdel]. unfold in_flight in *. simpl in *.
  assert (Hp : (b1 ++ b2) ++ (x :: r) ++ d ≡ₚ (b1 ++ x :: b2) ++ r ++ d) by (simpl; rewrite <- !app_assoc; simpl; solve_Permutation).
  assert (Hx : (x < i)%nat) by (apply (Hfl x); apply elem_of_app; left; apply elem_of_app; right; left).
  split; simpl; try done; unfold in_flight; simpl v_busy; simpl v_ready; simpl v_done.
  - by rewrite length_insert.
  - by rewrite Hp.
  - intros j. by rewrite Hp.
  - intros j Hj Hjb. destruct (decide (j = x)) as [->|Hne]; [apply list_lookup_insert_eq; lia|]. rewrite list_lookup_insert_ne by done. apply Herr; [done|].
    rewrite elem_of_app, elem_of_cons in *. naive_solver.
Qed.

Lemma vinv_report i o ch er b r1 x r2 d s q :
  vinv (MkV i o ch er b (r1 ++ x :: r2) d s q) -> vinv (MkV i o ch er b (r1 ++ r2) (d ++ [x]) s q).
Proof.
  intros [Hl Hin Hnd Hfl Hlate Herr Hout Hdel]. unfold in_flight in *. simpl in *.
  assert (Hp : b ++ (r1 ++ r2) ++ d ++ [x] ≡ₚ b ++ (r1 ++ x :: r2) ++ d) by (rewrite <- !app_assoc; simpl; solve_Permutation).
  split; simpl; try done; unfold in_flight; simpl v_busy; simpl v_ready; simpl v_done.
  - by rewrite Hp.
  - intros j. by rewrite Hp.
Qed.

(** What the main loop delivers on a report. *)
Lemma receive_deliver i o ch er b r x d s :
  vinv (MkV i o ch er b r (x :: d) s false) ->
  exists (o' : nat) (q : bool), deliver (S len) (<[x := true]> ch) er o s = Some (o', if q then map work (seq 0 len) else map work (seq 0 o'), q) /\
    (o' < len)%nat /\ (forall j : nat, (j < o')%nat -> (<[x := true]> ch : list bool) !! j = Some true) /\
    (q = false -> (<[x := true]> ch : list bool) !! o' = Some false).
Proof.
  intros [[Hl1 Hl2] Hin Hnd Hfl Hlate Herr [Ho Hob] Hdel]. unfold in_flight in *.
  cbn [v_in v_out v_checked v_errors v_busy v_ready v_done v_delivered v_returned] in *.
  assert (Hp : b ++ r ++ x :: d ≡ₚ x :: b ++ r ++ d) by solve_Permutation. rewrite Hp in Hnd. apply NoDup_cons in Hnd as [Hxn Hnd].
  assert (Hx : (x < i)%nat /\ ch !! x = Some false) by (apply Hfl; rewrite Hp; left). destruct Hx as [Hx Hxc].
  destruct Hdel as [[-> _]|[_ ?]]; [|done]. apply deliver_spec; [by rewrite length_insert|done|lia| |].
  - intros j Hj. apply Herr.
    + destruct (decide (j < i)%nat) as [|Hge]; [done|]. rewrite list_lookup_insert_ne in Hj by lia. pose proof (lookup_lt_Some _ _ _ Hj). by rewrite Hlate in Hj by lia.
    + intros Hjb. destruct (proj1 (Hfl j)) as [_ Hjf]; [apply elem_of_app; by left|].
      rewrite list_lookup_insert_ne in Hj; [congruence|]. intros <-. apply Hxn, elem_of_app. by left.
  - intros j Hj. destruct (decide (j = x)) as [->|]; [apply list_lookup_insert_eq; lia|]. rewrite list_lookup_insert_ne by done. by apply Hob.
Qed.

Lemma vinv_receive i o ch er b r x d s o' s' q' :
  deliver (S len) (<[x := true]> ch) er o s = Some (o', s', q') ->
  vinv (MkV i o ch er b r (x :: d) s false) -> vinv (MkV i o' (<[x := true]> ch) er b r d s' q').
Proof.
  intros Hdl Hv. destruct (receive_deliver _ _ _ _ _ _ _ _ _ Hv) as (o2 & q2 & Hrun & Ho2 & Hb2 & Hq2). rewrite Hrun in Hdl. injection Hdl as <- <- <-.
  destruct Hv as [[Hl1 Hl2] Hin Hnd Hfl Hlate Herr _ _]. unfold in_flight in *.
  cbn [v_in v_out v_checked v_errors v_busy v_ready v_done v_delivered v_returned] in *.
  assert (Hp : b ++ r ++ x :: d ≡ₚ x :: b ++ r ++ d) by solve_Permutation. rewrite Hp in Hnd. apply NoDup_cons in Hnd as [Hxn Hnd].
  assert (Hx : (x < i)%nat /\ ch !! x = Some false) by (apply Hfl; rewrite Hp; left). destruct Hx as [Hx Hxc].
  split; simpl; try done; unfold in_flight; simpl v_busy; simpl v_ready; simpl v_done.
  - by rewrite length_insert.
  - intros j. split.
    + intros Hj. destruct (decide (j = x)) as [->|]; [done|]. rewrite list_lookup_insert_ne by done. apply Hfl. rewrite Hp. by right.
    + intros [Hj Hjc]. destruct (decide (j = x)) as [->|]; [rewrite list_lookup_insert_eq in Hjc by lia; done|]. rewrite list_lookup_insert_ne in Hjc by done.
      assert (Hj' : j ∈ b ++ r ++ x :: d) by (by apply Hfl). rewrite Hp in Hj'. by apply elem_of_cons in Hj' as [?|?].
  - intros j Hj. rewrite list_lookup_insert_ne by lia. by apply Hlate.
  - destruct q2; [by right|left]. split; [done|]. left. by apply Hq2.
Qed.

Lemma vinv_step v v' : vinv v -> vstep v v' -> vinv v'.
Proof.
  intros Hv Hs. destruct Hs; [by apply vinv_send|by apply vinv_work|by apply vinv_report|by eapply vinv_receive].
Qed.

Lemma vinv_abort v v' : vinv v -> vabort v v' -> vinv v'.
Proof.
  intros [Hl Hin Hnd Hfl Hlate Herr Hout Hdel] Hs. destruct Hs. split; try done. simpl in *. destruct Hdel as [[? _]|[? ?]]; [left|by right]. split; [done|by right].
Qed.
(** ** Every run ends, with all results *)

Definition work_left (v : vstate) : nat := 4 * (len - v_in v) + 3 * length (v_busy v) + 2 * length (v_ready v) + length (v_done v).

Lemma step_decreases v v' : vstep v v' -> (work_left v' < work_left v)%nat.
Proof. intros Hs. destruct Hs; unfold work_left; simpl; rewrite ?length_app; simpl; rewrite ?length_app; lia. Qed.

Lemma progress v : (0 < workers)%nat -> vinv v -> v_returned v = false -> exists v', vstep v v'.
Proof.
  intros Hw Hv Hr. destruct v as [i o ch er b r [|x d] s q]; simpl in Hr; subst q.
  2: { destruct (receive_deliver _ _ _ _ _ _ _ _ _ Hv) as (o' & q & Hrun & _). eexists. by eapply step_receive. }
  destruct b as [|x b]; [|eexists; apply (step_work _ _ _ _ [])]. destruct r as [|x r]; [|eexists; by apply (step_report _ _ _ _ _ [])].
  destruct Hv as [Hl Hin Hnd Hfl Hlate Herr [Ho Hob] Hdel]. simpl in *. destruct (decide (i < len)%nat) as [Hi|Hi]; [eexists; apply step_send; simpl; lia|].
  exfalso. destruct Hdel as [[_ [Hf|?]]|[_ ?]]; [|done..]. assert (Hn : o ∈ ([] : list nat)) by (apply Hfl; split; [lia|done]). by apply elem_of_nil in Hn.
Qed.

(** Without an abort, the main loop returns when all is delivered. *)
Definition complete (v : vstate) : Prop := v_returned v = true -> v_delivered v = map work (seq 0 len).

Lemma complete_step v v' : vinv v -> complete v -> vstep v v' -> complete v'.
Proof.
  intros Hv Hc Hs. destruct Hs as [| | |i o ch er b r x d s o' s' q' Hdl]; try done. unfold complete. simpl. intros ->.
  destruct (receive_deliver _ _ _ _ _ _ _ _ _ Hv) as (o2 & q2 & Hrun & _). rewrite Hrun in Hdl. by injection Hdl as <- <- ->.
Qed.

Lemma run_inv k v : (0 < len)%nat -> nsteps vstep k v_start v -> vinv v /\ complete v /\ (k + work_left v <= 4 * len)%nat.
Proof.
  intros Hlen. revert v. induction k as [|k IH]; intros v Hr.
  - inversion Hr; subst. split; [by apply vinv_start|]. split; [done|]. unfold work_left. simpl. lia.
  - apply nsteps_inv_r in Hr as (v1 & Hr & Hs). destruct (IH v1 Hr) as (Hv & Hc & Hk). split; [by eapply vinv_step|]. split; [by eapply complete_step|].
    pose proof (step_decreases _ _ Hs). lia.
Qed.

Lemma run_prefix v : (0 < len)%nat -> rtc (fun a b => vstep a b \/ vabort a b) v_start v -> v_delivered v `prefix_of` map work (seq 0 len).
Proof.
  intros Hlen Hr. assert (Hv : vinv v).
  { revert Hr. apply (rtc_ind_r (fun v => vinv v)); [by apply vinv_start|]. intros y z _ [Hs|Hs] Hy; [by eapply vinv_step|by eapply vinv_abort]. }
  destruct (inv_delivered _ Hv) as [[-> _]|[-> _]]; [|done]. destruct (inv_out _ Hv) as [Ho _]. exists (map work (seq (v_out v) (len - v_out v))).
  rewrite <- map_app. f_equal. replace len with (v_out v + (len - v_out v))%nat at 1 by lia. apply seq_app.
Qed.
End goroutines.

(** ** The batch *)

Section batch.
Context {K : Keccak} {K512 : Keccak512} {PD : PowData} {SO : ScheduleOrder}.
(** [now i] is the clock when header [i] is checked, [procs] what
    [runtime.GOMAXPROCS] returns. *)
Context (e : Ethash) (config : EthashConfig) (chain : ChainReader) (now : nat -> Z) (headers : list Header) (seals : list bool) (procs : nat).

Definition worker (i : nat) : he unit := verifyHeaderWorker e config chain (now i) headers seals (Z.of_nat i).

(** A value of type [error], nil being [None], and the outcome it stands for. *)
Definition to_error (m : he unit) : option header_error := match m with Err err => Some err | _ => None end.
Definition of_error (err : option header_error) : he unit := match err with Some err => Err err | None => Ok tt end.

(** [VerifyHeaders]: the state in which the goroutines start, and their steps. *)
Definition VerifyHeaders : vstate (R := option header_error) :=
  if decide (PowMode e = ModeFullFake \/ headers = []) then MkV 0 0 [] [] [] [] [] (replicate (length headers) None) true
  else v_start None (length headers).

Definition verify_step : vstate (R := option header_error) -> vstate (R := option header_error) -> Prop :=
  vstep (fun i => to_error (worker i)) (length headers) (if Nat.ltb (length headers) procs then length headers else procs).

Lemma workers_pos : headers <> [] -> (0 < procs)%nat -> (0 < if Nat.ltb (length headers) procs then length headers else procs)%nat.
Proof. intros Hh Hp. destruct (Nat.ltb_spec (length headers) procs); [|done]. destruct headers; [done|]. simpl. lia. Qed.

Lemma of_to_error n : (forall i, (i < n)%nat -> worker i <> Panic) -> map of_error (map (fun i => to_error (worker i)) (seq 0 n)) = map worker (seq 0 n).
Proof.
  intros Hp. rewrite map_map. apply map_ext_in. intros i Hi%in_seq. specialize (Hp i ltac:(lia)). by destruct (worker i) as [[]| |].
Qed.

(** The early return has nothing left to do. *)
Lemma early_return k v : nsteps verify_step k (MkV 0 0 [] [] [] [] [] (replicate (length headers) None) true) v ->
  k = 0%nat /\ v = MkV 0 0 [] [] [] [] [] (replicate (length headers) None) true.
Proof.
  intros Hr. inversion Hr as [|? ? y ? Hs]; subst; [done|]. exfalso. unfold verify_step in Hs.
  inversion Hs; subst; match goal with H : _ ++ _ :: _ = [] |- _ => by apply app_eq_nil in H as [_ ?] end.
Qed.

Lemma run_complete k v :
  PowMode e <> ModeFullFake -> (0 < procs)%nat -> nsteps verify_step k VerifyHeaders v ->
  (k <= 4 * length headers)%nat /\
  (v_returned v = true -> v_delivered v = map (fun i => to_error (worker i)) (seq 0 (length headers))) /\
  (v_returned v = false -> exists v', verify_step v v').
Proof.
  intros Hm Hp. unfold VerifyHeaders. destruct (decide _) as [[?|He]|Hn]; [done| |].
  - intros [-> ->]%early_return. rewrite He. simpl. split; [lia|done].
  - intros Hr. assert (Hh : headers <> []) by naive_solver.
    assert (Hl : (0 < length headers)%nat) by (destruct headers; [done|simpl; lia]).
    destruct (run_inv _ _ _ _ k v Hl Hr) as (Hv & Hc & Hk). split; [lia|]. split; [done|]. apply progress; [by apply workers_pos|done].
Qed.
Lemma run_prefix_batch v :
  PowMode e <> ModeFullFake -> rtc (fun a b => verify_step a b \/ vabort a b) VerifyHeaders v ->
  v_delivered v `prefix_of` map (fun i => to_error (worker i)) (seq 0 (length headers)).
Proof.
  intros Hm. unfold VerifyHeaders. destruct (decide _) as [[?|He]|Hn]; [done| |].
  - intros Hr. apply rtc_inv in Hr as [<-|(y & [Hs|Hs] & _)]; [by rewrite He| |inversion Hs].
    destruct (early_return 1 y) as [? _]; [by apply nsteps_once|done].
  - intros Hr. eapply run_prefix, Hr. destruct headers; [naive_solver|simpl; lia].
Qed.

(** C25. [VerifyHeaders] delivers the results of its headers in their order:
    whatever the interleaving of the workers and whenever the caller aborts,
    what has been delivered are the results of the first headers.  Without an
    abort no run is longer than four steps per header and none gets stuck
    before the main loop returns, and then every header has its result. *)
Theorem VerifyHeaders_delivers :
  PowMode e <> ModeFullFake -> (0 < procs)%nat -> (forall i, (i < length headers)%nat -> worker i <> Panic) ->
  (forall v, rtc (fun a b => verify_step a b \/ vabort a b) VerifyHeaders v -> map of_error (v_delivered v) `prefix_of` map worker (seq 0 (length headers))) /\
  (forall k v, nsteps verify_step k VerifyHeaders v ->
     (k <= 4 * length headers)%nat /\
     (v_returned v = true -> map of_error (v_delivered v) = map worker (seq 0 (length headers))) /\
     (v_returned v = false -> exists v', verify_step v v')).
Proof.
  intros Hm Hp Hnp. rewrite <- of_to_error by done. split.
  - intros v [l Hl]%run_prefix_batch; [|done]. exists (map of_error l). by rewrite Hl, map_app.
  - intros k v Hr. destruct (run_complete k v Hm Hp Hr) as (Hk & Hd & Hs). split; [done|]. split; [|done]. intros Hret. by rewrite Hd.
Qed.

(** ** An accepted batch is a chain *)

(** The parent of header [i] is entry [i] of [p0 :: headers]. *)
Definition chain_valid (p0 : Header) : Prop :=
  forall i h seal, headers !! i = Some h -> seals !! i = Some seal ->
  exists parent, (p0 :: headers) !! i = Some parent /\ (i <> 0%nat -> hd_ParentHash h = header_Hash parent) /\
    valid_header e config (now i) h parent false seal.

(** The headers are not known yet, the parent of the first one is. *)
Record batch_ok (p0 : Header) : Prop := {
  batch_new : Forall (fun h => is_u64 (hd_GasLimit h) /\ zlen (hd_Extra h) < 2 ^ 64 /\ GetHeader chain (header_Hash h) (u64 (hd_Number h)) = None) headers;
  batch_seals : length seals = length headers;
  batch_parent : forall h0, headers !! 0%nat = Some h0 -> GetHeader chain (hd_ParentHash h0) (u64 (u64 (hd_Number h0) - 1)) = Some p0;
  batch_gas : 0 <= hd_GasLimit p0 < 2 ^ 63;
}.

Lemma idx_lookup {E A} (l : list A) (i : nat) x : l !! i = Some x -> @idx E A l (Z.of_nat i) = Ok x.
Proof. intros Hl. apply idx_Ok. rewrite Nat2Z.id. split; [lia|done]. Qed.

Lemma worker_spec p0 i h seal parent :
  batch_ok p0 -> headers !! i = Some h -> seals !! i = Some seal -> (p0 :: headers) !! i = Some parent ->
  worker i = if decide (i = 0%nat \/ header_Hash parent = hd_ParentHash h) then verifyHeader e config (now i) h parent false seal else Err ErrUnknownAncestor.
Proof.
  intros [Hnew _ Hpar _] Hh Hs Hp. destruct (proj1 (Forall_lookup _ _) Hnew i h Hh) as (_ & _ & Hn).
  unfold worker, verifyHeaderWorker. rewrite (idx_lookup headers i h) by done. bind_simpl. destruct i as [|j].
  - simpl in Hp. injection Hp as ->. rewrite (decide_True (P := 0%nat = 0%nat \/ _)) by (by left). simpl. rewrite Hpar by done. bind_simpl. rewrite Hn.
    rewrite (idx_lookup seals 0 seal) by done. by bind_simpl.
  - simpl in Hp. rewrite (proj2 (Z.eqb_neq _ 0)) by lia. replace (Z.of_nat (S j) - 1) with (Z.of_nat j) by lia.
    rewrite (idx_lookup headers j parent) by done. bind_simpl. destruct (decide (header_Hash parent = hd_ParentHash h)) as [He|He].
    + rewrite Hn, (decide_True (P := S j = 0%nat \/ _)) by (by right). rewrite (idx_lookup seals (S j) seal) by done. by bind_simpl.
    + rewrite (decide_False (P := S j = 0%nat \/ _)); [done|]. intros [?|?]; done.
Qed.
Lemma worker_valid p0 i h seal parent :
  batch_ok p0 -> headers !! i = Some h -> seals !! i = Some seal -> (p0 :: headers) !! i = Some parent -> 0 <= hd_GasLimit parent < 2 ^ 63 ->
  worker i = Ok tt <-> (i <> 0%nat -> hd_ParentHash h = header_Hash parent) /\ valid_header e config (now i) h parent false seal.
Proof.
  intros Hb Hh Hs Hp Hg. rewrite (worker_spec p0 i h seal parent) by done. destruct (proj1 (Forall_lookup _ _) (batch_new _ Hb) i h Hh) as (Hu & Hx & _).
  case_decide as Hd; [rewrite verifyHeader_spec by done; split; [|by intros [_ ?]]|split; [done|]].
  - intros Hv. split; [|done]. intros Hi. destruct Hd as [?|Hd]; [done|by rewrite Hd].
  - intros [Hi _]. destruct Hd. destruct (decide (i = 0%nat)); [by left|right]. by rewrite Hi.
Qed.

(** Entry [i] of the batch has a seal flag and a parent. *)
Lemma batch_lookup p0 i h : batch_ok p0 -> headers !! i = Some h -> is_Some (seals !! i) /\ is_Some ((p0 :: headers) !! i).
Proof.
  intros Hb Hh%lookup_lt_Some. pose proof (batch_seals _ Hb). split; apply lookup_lt_is_Some; simpl; lia.
Qed.

Lemma accepted_gas p0 i parent :
  batch_ok p0 -> (forall j, (j < i)%nat -> worker j = Ok tt) -> (p0 :: headers) !! i = Some parent -> 0 <= hd_GasLimit parent < 2 ^ 63.
Proof.
  intros Hb. revert parent. induction i as [|i IH]; intros parent Hok Hp; [injection Hp as <-; apply (batch_gas _ Hb)|].
  simpl in Hp. destruct (batch_lookup p0 i parent Hb Hp) as [[seal Hs] [q Hq]].
  destruct (proj1 (worker_valid p0 i parent seal q Hb Hp Hs Hq (IH q ltac:(auto with lia) Hq)) ltac:(auto with lia)) as [_ Hv].
  pose proof (valid_gas_limit _ _ _ _ _ _ _ Hv). lia.
Qed.

Lemma valid_gas p0 i parent : batch_ok p0 -> chain_valid p0 -> (p0 :: headers) !! i = Some parent -> 0 <= hd_GasLimit parent < 2 ^ 63.
Proof.
  intros Hb Hc Hp. destruct i as [|i]; [injection Hp as <-; apply (batch_gas _ Hb)|]. simpl in Hp.
  destruct (batch_lookup p0 i parent Hb Hp) as [[seal Hs] _]. destruct (Hc i parent seal Hp Hs) as (q & _ & _ & Hv). pose proof (valid_gas_limit _ _ _ _ _ _ _ Hv). lia.
Qed.

Lemma accepted_iff p0 : batch_ok p0 -> (forall i, (i < length headers)%nat -> worker i = Ok tt) <-> chain_valid p0.
Proof.
  intros Hb. split.
  - intros Hok i h seal Hh Hs. destruct (batch_lookup p0 i h Hb Hh) as [_ [parent Hp]]. exists parent. split; [done|]. pose proof (lookup_lt_Some _ _ _ Hh) as Hi.
    apply (worker_valid p0); [done..| |by apply Hok]. apply (accepted_gas p0 i); [done| |done]. intros j Hj. apply Hok. lia.
  - intros Hc i Hi. apply lookup_lt_is_Some in Hi as [h Hh]. destruct (batch_lookup p0 i h Hb Hh) as [[seal Hs] _].
    destruct (Hc i h seal Hh Hs) as (parent & Hp & Hl & Hv). apply (worker_valid p0 i h seal parent); [done..| |done]. by apply (valid_gas p0 i).
Qed.

(** Along a chain the numbers count up and the times increase. *)
Lemma chain_numbers p0 i h :
  batch_ok p0 -> chain_valid p0 -> headers !! i = Some h ->
  hd_Number h = hd_Number p0 + 1 + Z.of_nat i /\ hd_Time p0 + Z.of_nat i < hd_Time h /\ MinimumDifficulty <= hd_Difficulty h.
Proof.
  intros Hb Hc. revert h. induction i as [|i IH]; intros h Hh; destruct (batch_lookup p0 _ h Hb Hh) as [[seal Hs] _];
    destruct (Hc _ h seal Hh Hs) as (parent & Hp & _ & [_ _ Ht Hd _ _ _ Hn _ _ _]); simpl in Hp.
  - injection Hp as <-. apply CalcDifficulty_min in Hd. lia.
  - destruct (IH parent Hp) as (IHn & IHt & _). apply CalcDifficulty_min in Hd. lia.
Qed.

(** C13. When [VerifyHeaders] has delivered all its results for a batch of new
    headers, they are all nil exactly if the batch is a valid chain on top of
    the known parent: every header is valid after the one before it and names
    its hash.  The numbers of such a chain count up, its times increase and no
    difficulty is below the minimum. *)
Theorem VerifyHeaders_chain (p0 : Header) (k : nat) (v : vstate) :
  batch_ok p0 -> PowMode e <> ModeFullFake -> (0 < procs)%nat -> (forall i, (i < length headers)%nat -> worker i <> Panic) ->
  nsteps verify_step k VerifyHeaders v -> v_returned v = true ->
  (Forall (fun err => err = None) (v_delivered v) <-> chain_valid p0) /\
  (chain_valid p0 -> forall i h, headers !! i = Some h ->
     hd_Number h = hd_Number p0 + 1 + Z.of_nat i /\ hd_Time p0 + Z.of_nat i < hd_Time h /\ MinimumDifficulty <= hd_Difficulty h).
Proof.
  intros Hb Hm Hp Hnp Hr Hret. split; [|intros Hc i h; by apply chain_numbers]. destruct (run_complete k v Hm Hp Hr) as (_ & Hd & _).
  rewrite Hd, <- accepted_iff by done. rewrite Forall_map, Forall_seq. apply forall_proper. intros i. split.
  - intros H Hi. specialize (H ltac:(lia)). specialize (Hnp i Hi). simpl in H. by destruct (worker i) as [[]| |].
  - intros H Hi. simpl. by rewrite H by lia.
Qed.
End batch.

(** ** Examples *)

Module BatchExamples.
Import Examples.
#[local] Existing Instance toy_keccak.
#[local] Existing Instance toy_keccak512.
#[local] Existing Instance toy_order.
#[local] Existing Instance toy_pow.

Definition batch : list Header := [header11; header12].
Definition clock : nat -> Z := fun i => 1000 + Z.of_nat i.

Lemma batch_workers i : (i < length batch)%nat -> worker faker sample_config sample_chain clock batch [true; false] i = Ok tt.
Proof. intros Hi. destruct i as [|[|i]]; [vm_compute; reflexivity..|simpl in Hi; lia]. Qed.

Lemma batch_no_panic i : (i < length batch)%nat -> worker faker sample_config sample_chain clock batch [true; false] i <> Panic.
Proof. intros Hi. by rewrite batch_workers. Qed.

Lemma batch_is_ok : batch_ok sample_chain batch [true; false] header10.
Proof.
  split; [|done| |vm_compute; done].
  - repeat constructor; vm_compute; done.
  - intros h [= <-]. vm_compute. reflexivity.
Qed.

(** A run with one worker. *)
Definition batch_end : vstate (R := option header_error) := MkV 2 1 [true; true] [None; None] [] [] [] [None; None] true.

Lemma batch_run : nsteps (verify_step faker sample_config sample_chain clock batch [true; false] 1) 8 (VerifyHeaders faker batch) batch_end.
Proof.
  assert (Hw : forall i, (i < length batch)%nat -> to_error (worker faker sample_config sample_chain clock batch [true; false] i) = None).
  { intros i Hi. by rewrite batch_workers. }
  unfold verify_step. change (VerifyHeaders faker batch) with (MkV (R := option header_error) 0 0 [false; false] [None; None] [] [] [] [] false).
  eapply nsteps_l; [apply step_send; simpl; lia|]. eapply nsteps_l; [apply (step_work _ _ _ _ _ _ _ [])|]. cbv beta. rewrite Hw by (simpl; lia).
  eapply nsteps_l; [apply (step_report _ _ _ _ _ _ _ _ []); simpl; lia|]. eapply nsteps_l; [by apply step_receive|].
  eapply nsteps_l; [apply step_send; simpl; lia|]. eapply nsteps_l; [apply (step_work _ _ _ _ _ _ _ [])|]. cbv beta. rewrite Hw by (simpl; lia).
  eapply nsteps_l; [apply (step_report _ _ _ _ _ _ _ _ []); simpl; lia|]. eapply nsteps_l; [by apply step_receive|]. apply nsteps_O.
Qed.

Lemma VerifyHeaders_delivers_witness : map of_error (v_delivered batch_end) = [Ok tt; Ok tt].
Proof.
  destruct (VerifyHeaders_delivers faker sample_config sample_chain clock batch [true; false] 1) as [_ H]; [done|lia|apply batch_no_panic|].
  destruct (H 8%nat batch_end batch_run) as (_ & Hd & _). rewrite Hd by reflexivity. simpl. by rewrite !batch_workers by (simpl; lia).
Defined.

Lemma VerifyHeaders_chain_witness : chain_valid faker sample_config clock batch [true; false] header10 /\ hd_Number header12 = hd_Number header10 + 2.
Proof.
  destruct (VerifyHeaders_chain faker sample_config sample_chain clock batch [true; false] 1 header10 8 batch_end) as [H1 H2];
    [apply batch_is_ok|done|lia|apply batch_no_panic|apply batch_run|done|].
  assert (Hc : chain_valid faker sample_config clock batch [true; false] header10) by (apply H1; repeat constructor). split; [exact Hc|].
  destruct (H2 Hc 1%nat header12) as [Hn _]; [reflexivity|]. rewrite Hn. reflexivity.
Defined.
End BatchExamples.
