(* ===== verification/VmNatives.v ===== *)
(** * The native contracts (src/core/vm/contracts.go)

    Their charges and what they do with their inputs.  The arithmetic of the
    curves (crypto/secp256k1, crypto/bn256, crypto/bls12381) and RIPEMD-160 are
    an interface.  Bytes are read modulo 256. *)
From stdpp Require Import prelude list gmap.
From Stdlib Require Import ZArith Lia.
From S2P Require Import Prelude RlpEncode TrieEncoding Trie TrieNode TrieHash Digests VmBase VmCode Vm VmWp VmOps.

(** ** Interfaces *)

(** A group of [bls12381], [G1] or [G2]. *)
Class PointGroup := {
  point : Type;
  DecodePoint : list Z -> vm_error + point;
  EncodePoint : point -> list Z;
  p_Add : point -> point -> point;
  MulScalar : point -> Z -> point;
  MultiExp : list point -> list Z -> point;
  InCorrectSubgroup : point -> bool;
  MapToCurve : list Z -> vm_error + point;
  EncodePoint_size p : zlen (EncodePoint p) <= 256;
}.
Arguments point : clear implicits.

(** The packages that the native contracts call. *)
Class Packages := {
  RecoverPubkey : list Z -> list Z -> option (list Z);
  RecoverPubkey_size msg sig pub : RecoverPubkey msg sig = Some pub -> zlen pub = 65;
  ripemd160 : list Z -> list Z;
  ripemd160_size b : zlen (ripemd160 b) = 20;
  bn_G1 : Type;
  bn_G2 : Type;
  Unmarshal_G1 : list Z -> vm_error + bn_G1;
  Unmarshal_G2 : list Z -> vm_error + bn_G2;
  bn_Marshal : bn_G1 -> list Z;
  bn_Marshal_size p : zlen (bn_Marshal p) = 64;
  bn_Add : bn_G1 -> bn_G1 -> bn_G1;
  bn_ScalarMult : bn_G1 -> Z -> bn_G1;
  PairingCheck : list bn_G1 -> list bn_G2 -> bool;
  bls_G1 : PointGroup;
  bls_G2 : PointGroup;
  bls_Check : list (point bls_G1 * point bls_G2) -> bool;
}.

(** ** Prices (params/vars/protocol_params.go) *)

Definition EcrecoverGas : Z := 3000.
Definition Sha256BaseGas : Z := 60.
Definition Sha256PerWordGas : Z := 12.
Definition Ripemd160BaseGas : Z := 600.
Definition Ripemd160PerWordGas : Z := 120.
Definition ModExpQuadCoeffDiv : Z := 20.
Definition Bn256AddGasByzantium : Z := 500.
Definition Bn256AddGasIstanbul : Z := 150.
Definition Bn256ScalarMulGasByzantium : Z := 40000.
Definition Bn256ScalarMulGasIstanbul : Z := 6000.
Definition Bn256PairingBaseGasByzantium : Z := 100000.
Definition Bn256PairingBaseGasIstanbul : Z := 45000.
Definition Bn256PairingPerPointGasByzantium : Z := 80000.
Definition Bn256PairingPerPointGasIstanbul : Z := 34000.
Definition Bls12381G1AddGas : Z := 600.
Definition Bls12381G1MulGas : Z := 12000.
Definition Bls12381G2AddGas : Z := 4500.
Definition Bls12381G2MulGas : Z := 55000.
Definition Bls12381PairingBaseGas : Z := 115000.
Definition Bls12381PairingPerPairGas : Z := 23000.
Definition Bls12381MapG1Gas : Z := 5500.
Definition Bls12381MapG2Gas : Z := 110000.

Definition Bls12381MultiExpDiscountTable : list Z :=
  [1200; 888; 764; 641; 594; 547; 500; 453; 438; 423; 408; 394; 379; 364; 349; 334;
   330; 326; 322; 318; 314; 310; 306; 302; 298; 294; 289; 285; 281; 277; 273; 269;
   268; 266; 265; 263; 262; 260; 259; 257; 256; 254; 253; 251; 250; 248; 247; 245;
   244; 242; 241; 239; 238; 236; 235; 233; 232; 231; 229; 228; 226; 225; 223; 222;
   221; 220; 219; 219; 218; 217; 216; 216; 215; 214; 213; 213; 212; 211; 211; 210;
   209; 208; 208; 207; 206; 205; 205; 204; 203; 202; 202; 201; 200; 199; 199; 198;
   197; 196; 196; 195; 194; 193; 193; 192; 191; 191; 190; 189; 188; 188; 187; 186;
   185; 185; 184; 183; 182; 182; 181; 180; 179; 179; 178; 177; 176; 176; 175; 174].

(** ** Integers and bytes *)

(** [big.Int]: [SetBytes], [BitLen], [Bytes] and [Exp] of numbers that are not
    negative. *)
Definition big_SetBytes (b : list Z) : Z := be_read b.
Definition big_BitLen (x : Z) : Z := if x =? 0 then 0 else Z.log2 x + 1.
Definition big_Bytes (x : Z) : list Z := be_bytes (Z.to_nat ((big_BitLen x + 7) / 8)) x.

Fixpoint pow_mod (b m : Z) (e : BinNums.positive) : Z :=
  match e with
  | xH => b mod m
  | xO e => let r := pow_mod b m e in (r * r) mod m
  | xI e => let r := pow_mod b m e in (r * r mod m * b) mod m
  end.
Definition big_Exp (b e m : Z) : Z := match e with Zpos p => pow_mod b m p | _ => 1 mod m end.

Definition allZero (b : list Z) : bool := forallb (fun x => x =? 0) b.

(** The decoding of a point, with its error. *)
Definition decoded {A} (r : vm_error + A) : vm A := match r with inr a => Ok a | inl e => Err e end.

(** The errors of this file. *)
Definition errBadPairingInput : vm_error := ErrPrecompile 0.
Definition errBlake2FInvalidInputLength : vm_error := ErrPrecompile 1.
Definition errBlake2FInvalidFinalFlag : vm_error := ErrPrecompile 2.
Definition errBLS12381InvalidInputLength : vm_error := ErrPrecompile 3.
Definition errBLS12381InvalidFieldElementTopBytes : vm_error := ErrPrecompile 4.
Definition errBLS12381G1PointSubgroup : vm_error := ErrPrecompile 5.
Definition errBLS12381G2PointSubgroup : vm_error := ErrPrecompile 6.
Definition errInvalidFieldElementLength : vm_error := ErrPrecompile 7.

Section natives.
Context {K : Keccak} {P : Packages}.

(** ** Signatures and digests *)

Definition secp256k1N : Z := 0xfffffffffffffffffffffffffffffffebaaedce6af48a03bbfd25e8cd0364141.
Definition secp256k1halfN : Z := secp256k1N / 2.

(** [crypto.ValidateSignatureValues] *)
Definition ValidateSignatureValues (v r s : Z) (homestead : bool) : bool :=
  if (r <? 1) || (s <? 1) then false
  else if homestead && (secp256k1halfN <? s) then false
  else (r <? secp256k1N) && (s <? secp256k1N) && ((v =? 0) || (v =? 1)).

Definition ecrecover_Run (input : list Z) : vm output :=
  input ← lift (RightPadBytes input 128);
  rb ← slice input 64 96;
  sb ← slice input 96 128;
  let r := big_SetBytes rb in
  let s := big_SetBytes sb in
  v ← idx input 63;
  let v := u8 (v - 27) in
  zeros ← slice input 32 63;
  if negb (allZero zeros) || negb (ValidateSignatureValues v r s false) then Ok (Fresh [])
  else
    rs ← slice input 64 128;
    hash ← slice input 0 32;
    match RecoverPubkey hash (rs ++ [v]) with
    | None => Ok (Fresh [])
    | Some pubKey =>
        key ← slice_from pubKey 1;
        h ← slice_from (keccak256 key) 12;
        h ← lift (LeftPadBytes h 32);
        Ok (Fresh h)
    end.
Definition the_ecrecover : PrecompiledContract := MkPrecompile (fun _ => Ok EcrecoverGas) ecrecover_Run.

(** [uint64(len(input)+31)/32*perWord + base] *)
Definition per_word (perWord base : Z) (input : list Z) : Z := u64 (u64 (u64 (zlen input + 31) / 32 * perWord) + base).

Definition the_sha256hash : PrecompiledContract :=
  MkPrecompile (fun input => Ok (per_word Sha256PerWordGas Sha256BaseGas input)) (fun input => Ok (Fresh (Sha256.Sum256 (u8 <$> input)))).
Definition the_ripemd160hash : PrecompiledContract :=
  MkPrecompile (fun input => Ok (per_word Ripemd160PerWordGas Ripemd160BaseGas input)) (fun input => b ← lift (LeftPadBytes (ripemd160 input) 32); Ok (Fresh b)).

(** ** Modular exponentiation *)

(** [new(big.Int).SetBytes(getData(input, start, size))] *)
Definition data_at {E} (input : list Z) (start size : Z) : outcome E Z :=
  match getData input start size with Ok b => Ok (big_SetBytes b) | _ => Panic end.
Definition length_at {E} (input : list Z) (pos : Z) : outcome E Z := data_at input pos 32.

(** What follows the lengths. *)
Definition operands {E} (input : list Z) : outcome E (list Z) := if zlen input >? 96 then slice_from input 96 else slice input 0 0.

Definition complexity (x : Z) : Z :=
  if x <=? 64 then x * x
  else if x <=? 1024 then x * x / 4 + (96 * x - 3072)
  else x * x / 16 + (480 * x - 199680).

Definition bigModExp_RequiredGas (input : list Z) : go Z :=
  baseLen ← length_at input 0;
  expLen ← length_at input 32;
  modLen ← length_at input 64;
  input ← operands input;
  expHead ← (if zlen input <=? baseLen then Ok 0
             else if expLen >? 32 then data_at input (u64 baseLen) 32
             else data_at input (u64 baseLen) (u64 expLen));
  let bitlen := big_BitLen expHead in
  let msb := if bitlen >? 0 then bitlen - 1 else 0 in
  let adjExpLen := (if expLen >? 32 then 8 * (expLen - 32) else 0) + msb in
  let gas := complexity (Z.max modLen baseLen) * Z.max adjExpLen 1 / ModExpQuadCoeffDiv in
  Ok (if big_BitLen gas >? 64 then MaxUint64 else u64 gas).

Definition bigModExp_Run (input : list Z) : vm output :=
  baseLen ← length_at input 0;
  expLen ← length_at input 32;
  modLen ← length_at input 64;
  let baseLen := u64 baseLen in
  let expLen := u64 expLen in
  let modLen := u64 modLen in
  input ← operands input;
  if (baseLen =? 0) && (modLen =? 0) then Ok (Fresh [])
  else
    base ← data_at input 0 baseLen;
    exp ← data_at input baseLen expLen;
    mod_ ← data_at input (u64 (baseLen + expLen)) modLen;
    b ← lift (if big_BitLen mod_ =? 0 then LeftPadBytes [] (int64 modLen)
              else LeftPadBytes (big_Bytes (big_Exp base exp mod_)) (int64 modLen));
    Ok (Fresh b).
Definition the_bigModExp : PrecompiledContract := MkPrecompile bigModExp_RequiredGas bigModExp_Run.

(** ** The curve bn256 *)

Definition newCurvePoint (blob : list Z) : vm bn_G1 := decoded (Unmarshal_G1 blob).
Definition newTwistPoint (blob : list Z) : vm bn_G2 := decoded (Unmarshal_G2 blob).

Definition runBn256Add (input : list Z) : vm output :=
  b ← lift (getData input 0 64);
  x ← newCurvePoint b;
  b ← lift (getData input 64 64);
  y ← newCurvePoint b;
  Ok (Fresh (bn_Marshal (bn_Add x y))).

Definition runBn256ScalarMul (input : list Z) : vm output :=
  b ← lift (getData input 0 64);
  p ← newCurvePoint b;
  b ← lift (getData input 64 32);
  Ok (Fresh (bn_Marshal (bn_ScalarMult p (big_SetBytes b)))).

Definition true32Byte : list Z := replicate 31 0 ++ [1].
Definition false32Byte : list Z := replicate 32 0.

Fixpoint pairing_points (fuel : nat) (input : list Z) (i : Z) (cs : list bn_G1) (ts : list bn_G2) : vm (list bn_G1 * list bn_G2) :=
  match fuel with
  | O => Panic
  | S fuel =>
      if i <? zlen input then
        b ← slice input i (i + 64);
        c ← newCurvePoint b;
        b ← slice input (i + 64) (i + 192);
        t ← newTwistPoint b;
        pairing_points fuel input (i + 192) (cs ++ [c]) (ts ++ [t])
      else Ok (cs, ts)
  end.

Definition runBn256Pairing (input : list Z) : vm output :=
  if zlen input mod 192 >? 0 then Err errBadPairingInput
  else
    '(cs, ts) ← pairing_points (S (length input)) input 0 [] [];
    Ok (Fresh (if PairingCheck cs ts then true32Byte else false32Byte)).

Definition the_bn256AddIstanbul : PrecompiledContract := MkPrecompile (fun _ => Ok Bn256AddGasIstanbul) runBn256Add.
Definition the_bn256AddByzantium : PrecompiledContract := MkPrecompile (fun _ => Ok Bn256AddGasByzantium) runBn256Add.
Definition the_bn256ScalarMulIstanbul : PrecompiledContract := MkPrecompile (fun _ => Ok Bn256ScalarMulGasIstanbul) runBn256ScalarMul.
Definition the_bn256ScalarMulByzantium : PrecompiledContract := MkPrecompile (fun _ => Ok Bn256ScalarMulGasByzantium) runBn256ScalarMul.

(** [base + uint64(len(input)/size)*perItem] *)
Definition per_item (base perItem size : Z) (input : list Z) : Z := u64 (base + u64 (zlen input / size * perItem)).
Definition the_bn256PairingIstanbul : PrecompiledContract :=
  MkPrecompile (fun input => Ok (per_item Bn256PairingBaseGasIstanbul Bn256PairingPerPointGasIstanbul 192 input)) runBn256Pairing.
Definition the_bn256PairingByzantium : PrecompiledContract :=
  MkPrecompile (fun input => Ok (per_item Bn256PairingBaseGasByzantium Bn256PairingPerPointGasByzantium 192 input)) runBn256Pairing.

(** ** BLAKE2b *)

Definition blake2FInputLength : Z := 213.
Definition blake2FFinalBlockBytes : Z := 1.
Definition blake2FNonFinalBlockBytes : Z := 0.

Definition blake2F_RequiredGas (input : list Z) : go Z :=
  if negb (zlen input =? blake2FInputLength) then Ok 0
  else b ← slice input 0 4; Ok (be_read b).

Definition blake2F_Run (input : list Z) : vm output :=
  if negb (zlen input =? blake2FInputLength) then Err errBlake2FInvalidInputLength
  else
    flag ← idx input 212;
    let flag := u8 flag in
    if negb (flag =? blake2FNonFinalBlockBytes) && negb (flag =? blake2FFinalBlockBytes) then Err errBlake2FInvalidFinalFlag
    else
      rb ← slice input 0 4;
      hb ← slice input 4 68;
      mb ← slice input 68 196;
      t0 ← slice input 196 204;
      t1 ← slice input 204 212;
      let h := words_of le_read 8 8 hb in
      let m := words_of le_read 8 16 mb in
      let h := Blake2b.F h m (le_read t0) (le_read t1) (flag =? blake2FFinalBlockBytes) (be_read rb) in
      Ok (Fresh (concat (le_write 8 <$> h))).
Definition the_blake2F : PrecompiledContract := MkPrecompile blake2F_RequiredGas blake2F_Run.

(** ** The curve BLS12-381 *)

Section group.
Context (g : PointGroup) (size : Z).

(** Addition, multiplication and multiple multiplication in a group of which
    points have [size] bytes. *)
Definition bls_Add_Run (input : list Z) : vm output :=
  if negb (zlen input =? 2 * size) then Err errBLS12381InvalidInputLength
  else
    b ← slice input 0 size;
    p0 ← decoded (DecodePoint b);
    b ← slice_from input size;
    p1 ← decoded (DecodePoint b);
    Ok (Fresh (EncodePoint (p_Add p0 p1))).

Definition bls_Mul_Run (input : list Z) : vm output :=
  if negb (zlen input =? size + 32) then Err errBLS12381InvalidInputLength
  else
    b ← slice input 0 size;
    p0 ← decoded (DecodePoint b);
    b ← slice_from input size;
    Ok (Fresh (EncodePoint (MulScalar p0 (big_SetBytes b)))).

Definition bls_MultiExp_gas (mulGas : Z) (input : list Z) : go Z :=
  let k := zlen input / (size + 32) in
  if k =? 0 then Ok 0
  else
    let dLen := zlen Bls12381MultiExpDiscountTable in
    discount ← (if k <? dLen then idx Bls12381MultiExpDiscountTable (k - 1) else idx Bls12381MultiExpDiscountTable (dLen - 1));
    Ok (u64 (u64 (k * mulGas) * discount) / 1000).

Fixpoint multiexp_pairs (k : nat) (input : list Z) (off : Z) : vm (list (point g) * list Z) :=
  match k with
  | O => Ok ([], [])
  | S k =>
      b ← slice input off (off + size);
      p ← decoded (DecodePoint b);
      b ← slice input (off + size) (off + size + 32);
      '(ps, es) ← multiexp_pairs k input (off + size + 32);
      Ok (p :: ps, big_SetBytes b :: es)
  end.

Definition bls_MultiExp_Run (input : list Z) : vm output :=
  let k := zlen input / (size + 32) in
  if (zlen input =? 0) || negb (zlen input mod (size + 32) =? 0) then Err errBLS12381InvalidInputLength
  else
    '(points, scalars) ← multiexp_pairs (Z.to_nat k) input 0;
    Ok (Fresh (EncodePoint (MultiExp points scalars))).
End group.

Fixpoint bls_pairs (k : nat) (input : list Z) (off : Z) (acc : list (point bls_G1 * point bls_G2)) : vm (list (point bls_G1 * point bls_G2)) :=
  match k with
  | O => Ok acc
  | S k =>
      b ← slice input off (off + 128);
      p1 ← decoded (DecodePoint (PointGroup := bls_G1) b);
      b ← slice input (off + 128) (off + 384);
      p2 ← decoded (DecodePoint (PointGroup := bls_G2) b);
      if negb (InCorrectSubgroup p1) then Err errBLS12381G1PointSubgroup
      else if negb (InCorrectSubgroup p2) then Err errBLS12381G2PointSubgroup
      else bls_pairs k input (off + 384) (acc ++ [(p1, p2)])
  end.

Definition bls_Pairing_Run (input : list Z) : vm output :=
  let k := zlen input / 384 in
  if (zlen input =? 0) || negb (zlen input mod 384 =? 0) then Err errBLS12381InvalidInputLength
  else
    pairs ← bls_pairs (Z.to_nat k) input 0 [];
    Ok (Fresh (if bls_Check pairs then true32Byte else false32Byte)).

Definition decodeBLS12381FieldElement (b : list Z) : vm (list Z) :=
  if negb (zlen b =? 64) then Err errInvalidFieldElementLength
  else
    top ← slice b 0 16;
    if negb (allZero top) then Err errBLS12381InvalidFieldElementTopBytes else slice_from b 16.

Definition bls_MapG1_Run (input : list Z) : vm output :=
  if negb (zlen input =? 64) then Err errBLS12381InvalidInputLength
  else
    fe ← decodeBLS12381FieldElement input;
    r ← decoded (MapToCurve (PointGroup := bls_G1) fe);
    Ok (Fresh (EncodePoint r)).

Definition bls_MapG2_Run (input : list Z) : vm output :=
  if negb (zlen input =? 128) then Err errBLS12381InvalidInputLength
  else
    b ← slice input 0 64;
    c0 ← decodeBLS12381FieldElement b;
    b ← slice_from input 64;
    c1 ← decodeBLS12381FieldElement b;
    r ← decoded (MapToCurve (PointGroup := bls_G2) (c1 ++ c0));
    Ok (Fresh (EncodePoint r)).

Definition bls12381G1Add : PrecompiledContract := MkPrecompile (fun _ => Ok Bls12381G1AddGas) (bls_Add_Run bls_G1 128).
Definition bls12381G1Mul : PrecompiledContract := MkPrecompile (fun _ => Ok Bls12381G1MulGas) (bls_Mul_Run bls_G1 128).
Definition bls12381G1MultiExp : PrecompiledContract := MkPrecompile (bls_MultiExp_gas 128 Bls12381G1MulGas) (bls_MultiExp_Run bls_G1 128).
Definition bls12381G2Add : PrecompiledContract := MkPrecompile (fun _ => Ok Bls12381G2AddGas) (bls_Add_Run bls_G2 256).
Definition bls12381G2Mul : PrecompiledContract := MkPrecompile (fun _ => Ok Bls12381G2MulGas) (bls_Mul_Run bls_G2 256).
Definition bls12381G2MultiExp : PrecompiledContract := MkPrecompile (bls_MultiExp_gas 256 Bls12381G2MulGas) (bls_MultiExp_Run bls_G2 256).
Definition bls12381Pairing : PrecompiledContract :=
  MkPrecompile (fun input => Ok (per_item Bls12381PairingBaseGas Bls12381PairingPerPairGas 384 input)) bls_Pairing_Run.
Definition bls12381MapG1 : PrecompiledContract := MkPrecompile (fun _ => Ok Bls12381MapG1Gas) bls_MapG1_Run.
Definition bls12381MapG2 : PrecompiledContract := MkPrecompile (fun _ => Ok Bls12381MapG2Gas) bls_MapG2_Run.

(** ** All of them *)

Definition the_natives : Natives :=
  MkNatives the_ecrecover the_sha256hash the_ripemd160hash the_bigModExp the_bn256AddIstanbul the_bn256AddByzantium
    the_bn256ScalarMulIstanbul the_bn256ScalarMulByzantium the_bn256PairingIstanbul the_bn256PairingByzantium the_blake2F
    bls12381G1Add bls12381G1Mul bls12381G1MultiExp bls12381G2Add bls12381G2Mul bls12381G2MultiExp bls12381Pairing bls12381MapG1 bls12381MapG2.
End natives.

(** * Native contracts keep their promises *)

(** A computation does not panic, and its result is in [Q]. *)
Definition safe {A} (Q : A -> Prop) (m : vm A) : Prop := match m with Ok a => Q a | Err _ => True | Panic => False end.

Lemma safe_bind {A B} (Q : B -> Prop) (m : vm A) (f : A -> vm B) : safe (fun a => safe Q (f a)) m -> safe Q (m ≫= f).
Proof. by destruct m. Qed.
Lemma safe_ok {A} (Q : A -> Prop) (m : vm A) a : m = Ok a -> Q a -> safe Q m.
Proof. by intros -> H. Qed.
Lemma safe_slice (Q : list Z -> Prop) b i j : 0 <= i <= j -> j <= zlen b -> (forall r, zlen r = j - i -> Q r) -> safe Q (slice b i j).
Proof.
  intros Hi Hj HQ. eapply safe_ok; [by apply slice_Ok|]. apply HQ. rewrite zlen_take; [done|]. rewrite zlen_drop; lia.
Qed.
Lemma safe_slice_from (Q : list Z -> Prop) b i : 0 <= i <= zlen b -> (forall r, zlen r = zlen b - i -> Q r) -> safe Q (slice_from b i).
Proof. intros Hi HQ. apply safe_slice; [lia..|done]. Qed.
Lemma safe_idx (Q : Z -> Prop) b i : 0 <= i < zlen b -> (forall x, Q x) -> safe Q (idx b i).
Proof. intros Hi HQ. destruct (idx_in_range (E := vm_error) b i Hi) as [x E]. by eapply safe_ok. Qed.
Lemma safe_decoded {A} (Q : A -> Prop) r : (forall a, Q a) -> safe Q (decoded r).
Proof. intros H. destruct r; [done|apply H]. Qed.
Lemma safe_getData (Q : list Z -> Prop) b i n : is_slice b -> 0 <= i -> 0 <= n <= max_alloc -> (forall r, Q r) -> safe Q (lift (getData b i n)).
Proof. intros Hb Hi Hn HQ. rewrite getData_spec by done. simpl. apply HQ. Qed.

Ltac safe_step :=
  match goal with
  | |- safe _ (_ ≫= _) => apply safe_bind
  | |- safe _ (if ?b then _ else _) => let E := fresh "E" in destruct b eqn:E
  | |- safe _ (Err _) => done
  | |- safe _ (slice _ _ _) => apply safe_slice; [..|intros ? ?]
  | |- safe _ (slice_from _ _) => apply safe_slice_from; [|intros ? ?]
  | |- safe _ (idx _ _) => apply safe_idx; [|intros ?]
  | |- safe _ (decoded _) => apply safe_decoded; intros ?
  | |- safe _ (lift (getData _ _ _)) => apply safe_getData; [..|intros ?]
  end.

(** Outputs that fit a slice. *)
Definition out_ok (o : output) : Prop := match o with Fresh b => is_slice b | SameInput => True end.

Lemma native_intro (gas : list Z -> go Z) run :
  (forall input, is_slice input -> exists g, gas input = Ok g /\ 0 <= g < 2 ^ 64) ->
  (forall input g, is_slice input -> gas input = Ok g -> g < native_limit -> safe out_ok (run input)) -> native_ok (MkPrecompile gas run).
Proof.
  intros Hg Hr input Hin. destruct (Hg input Hin) as (g & Eg & Hrange). exists g. split; [done|]. split; [done|]. intros Hlim.
  specialize (Hr input g Hin Eg Hlim). simpl. unfold safe, out_ok in Hr. by destruct (run input) as [[]| |].
Qed.

(** A charge that is a number of 64 bits, and a contract that never panics. *)
Lemma native_total (gas : list Z -> Z) run :
  (forall input, 0 <= gas input < 2 ^ 64) -> (forall input, is_slice input -> safe out_ok (run input)) -> native_ok (MkPrecompile (fun i => Ok (gas i)) run).
Proof. intros Hg Hr. apply native_intro; [by intros input _; eexists|]. intros input g Hin _ _. by apply Hr. Qed.

Section promises.
Context {K : Keccak} {P : Packages}.

Lemma slice_short b n : zlen b <= n -> n < 2 ^ 63 -> is_slice b.
Proof. unfold is_slice. lia. Qed.

(** Padded on the left. *)
Definition padded (b : list Z) (l : Z) : list Z := replicate (Z.to_nat (l - zlen b)) 0 ++ b.
Lemma padded_zlen b l : zlen (padded b l) = Z.max (zlen b) l.
Proof. unfold padded. rewrite zlen_app, zlen_replicate. pose proof (zlen_nonneg b). lia. Qed.

Lemma safe_LeftPad (Q : output -> Prop) b l : l <= max_alloc -> Q (Fresh (padded b l)) -> safe Q (lift (LeftPadBytes b l) ≫= fun b => Ok (Fresh b)).
Proof. intros Hl HQ. by rewrite LeftPadBytes_ok. Qed.

Lemma ecrecover_ok : native_ok the_ecrecover.
Proof.
  apply (native_total (fun _ => EcrecoverGas)); [done|]. intros input Hin. unfold ecrecover_Run.
  rewrite RightPadBytes_ok by done. set (b := input ++ replicate (Z.to_nat (128 - zlen input)) 0).
  assert (Hl : 128 <= zlen b) by (unfold b; rewrite zlen_app, zlen_replicate; lia). clearbody b. cbn [lift]. bind_simpl.
  repeat (safe_step; try lia); try apply is_slice_nil.
  destruct (RecoverPubkey _ _) as [pub|] eqn:Hp; [|apply is_slice_nil]. apply RecoverPubkey_size in Hp.
  do 4 (safe_step; rewrite ?keccak_len in *; try lia). apply safe_LeftPad; [done|]. apply (slice_short _ 32); [|lia]. rewrite padded_zlen. lia.
Qed.

Lemma sha256hash_ok : native_ok the_sha256hash.
Proof.
  apply native_total; [intros input; apply u64_range|]. intros input _. simpl. apply (slice_short _ 32); [|lia].
  unfold zlen. by rewrite Sha256.Sum256_length.
Qed.
Lemma ripemd160hash_ok : native_ok the_ripemd160hash.
Proof.
  apply native_total; [intros input; apply u64_range|]. intros input _. apply safe_LeftPad; [done|]. apply (slice_short _ 32); [|lia].
  rewrite padded_zlen, ripemd160_size. lia.
Qed.

Lemma bn_Marshal_ok p : out_ok (Fresh (bn_Marshal p)).
Proof. apply (slice_short _ 64); [|lia]. by rewrite bn_Marshal_size. Qed.

Lemma runBn256Add_safe input : is_slice input -> safe out_ok (runBn256Add input).
Proof. intros Hin. unfold runBn256Add, newCurvePoint. repeat (safe_step; try lia; try done). apply bn_Marshal_ok. Qed.
Lemma runBn256ScalarMul_safe input : is_slice input -> safe out_ok (runBn256ScalarMul input).
Proof. intros Hin. unfold runBn256ScalarMul, newCurvePoint. repeat (safe_step; try lia; try done). apply bn_Marshal_ok. Qed.

Lemma pairing_points_safe fuel input i cs ts :
  0 <= i <= zlen input -> (zlen input - i) mod 192 = 0 -> zlen input - i < Z.of_nat fuel -> safe (fun _ => True) (pairing_points fuel input i cs ts).
Proof.
  revert i cs ts. induction fuel as [|fuel IH]; intros i cs ts Hi Hm Hf; [lia|]. cbn [pairing_points].
  destruct (Z.ltb_spec i (zlen input)) as [Hlt|]; [|done]. assert (Hr : i + 192 <= zlen input).
  { pose proof (Z.div_mod (zlen input - i) 192 ltac:(lia)). lia. }
  unfold newCurvePoint, newTwistPoint. repeat (safe_step; try lia). apply IH; [lia| |lia]. replace (zlen input - (i + 192)) with (zlen input - i + (-1) * 192) by lia. by rewrite Z.mod_add.
Qed.

Lemma runBn256Pairing_safe input : safe out_ok (runBn256Pairing input).
Proof.
  unfold runBn256Pairing. pose proof (Z.mod_pos_bound (zlen input) 192 ltac:(lia)). pose proof (zlen_nonneg input). safe_step; [done|].
  rewrite Z.gtb_ltb in E. apply Z.ltb_ge in E. apply safe_bind.
  pose proof (pairing_points_safe (S (length input)) input 0 [] []) as Hp. unfold safe in *.
  destruct (pairing_points _ _ _ _ _) as [[cs ts]| |]; [by destruct (PairingCheck _ _)|done|]. apply Hp; [lia|rewrite Z.sub_0_r; lia|unfold zlen; lia].
Qed.

Lemma concat_words n ws : length (concat (le_write n <$> ws)) = (n * length ws)%nat.
Proof. induction ws as [|w ws IH]; [simpl; lia|]. rewrite fmap_cons. cbn [concat length]. rewrite length_app, le_write_length, IH. lia. Qed.

Lemma blake2F_ok : native_ok the_blake2F.
Proof.
  apply native_intro.
  - intros input _. unfold blake2F_RequiredGas. destruct (Z.eqb_spec (zlen input) blake2FInputLength) as [E|]; simpl; [|by eexists].
    rewrite slice_ok by (unfold blake2FInputLength in E; lia). bind_simpl. eexists. split; [done|].
    set (b := take _ _). pose proof (be_read_range b) as Hr. assert (Hb : zlen b <= 4) by (unfold b, zlen; rewrite length_take; lia).
    pose proof (Z.pow_le_mono_r 256 (zlen b) 4 ltac:(lia) Hb). lia.
  - intros input g _ _ _. unfold blake2F_Run. safe_step; [done|]. apply negb_false_iff, Z.eqb_eq in E. unfold blake2FInputLength in E.
    repeat (safe_step; try lia). apply (slice_short (concat _) 64); [|lia]. unfold zlen. rewrite concat_words, Blake2b.F_length. lia.
Qed.

(** *** BLS12-381 *)

Lemma EncodePoint_ok (g : PointGroup) p : out_ok (Fresh (EncodePoint p)).
Proof. apply (slice_short _ 256); [apply EncodePoint_size|lia]. Qed.

Section group_ok.
Context (g : PointGroup) (size : Z) (Hsize : 0 <= size).

Lemma bls_Add_safe input : safe out_ok (bls_Add_Run g size input).
Proof.
  unfold bls_Add_Run. safe_step; [done|]. apply negb_false_iff, Z.eqb_eq in E. repeat (safe_step; try lia). apply EncodePoint_ok.
Qed.
Lemma bls_Mul_safe input : safe out_ok (bls_Mul_Run g size input).
Proof.
  unfold bls_Mul_Run. safe_step; [done|]. apply negb_false_iff, Z.eqb_eq in E. repeat (safe_step; try lia). apply EncodePoint_ok.
Qed.

Lemma multiexp_pairs_safe k input off :
  0 <= off -> off + Z.of_nat k * (size + 32) <= zlen input -> safe (fun _ => True) (multiexp_pairs g size k input off).
Proof.
  revert off. induction k as [|k IH]; intros off Ho Hl; [done|]. cbn [multiexp_pairs].
  assert (off + size + 32 + Z.of_nat k * (size + 32) <= zlen input) by lia.
  assert (0 <= Z.of_nat k * (size + 32)) by nia. repeat (safe_step; try lia). specialize (IH (off + size + 32) ltac:(lia) ltac:(lia)). unfold safe in *.
  by destruct (multiexp_pairs _ _ _ _ _) as [[]| |].
Qed.

Lemma bls_MultiExp_safe input : safe out_ok (bls_MultiExp_Run g size input).
Proof.
  unfold bls_MultiExp_Run. pose proof (zlen_nonneg input). safe_step; [done|]. apply safe_bind.
  pose proof (multiexp_pairs_safe (Z.to_nat (zlen input / (size + 32))) input 0 ltac:(lia)) as Hm.
  pose proof (Z.mul_div_le (zlen input) (size + 32) ltac:(lia)). pose proof (Z.div_pos (zlen input) (size + 32) ltac:(lia) ltac:(lia)).
  specialize (Hm ltac:(rewrite Z2Nat.id by done; lia)). unfold safe in *. destruct (multiexp_pairs _ _ _ _ _) as [[ps es]| |]; [apply EncodePoint_ok|done|done].
Qed.
End group_ok.

Lemma discounts i : 0 <= i < 128 -> exists d, @idx Empty_set Z Bls12381MultiExpDiscountTable i = Ok d.
Proof. intros Hi. by apply idx_in_range. Qed.

Lemma bls_MultiExp_gas_ok size mulGas input : 0 <= size -> exists g, bls_MultiExp_gas size mulGas input = Ok g /\ 0 <= g < 2 ^ 64.
Proof.
  intros Hs. unfold bls_MultiExp_gas. destruct (Z.eqb_spec (zlen input / (size + 32)) 0) as [|Hk]; [by eexists|].
  pose proof (Z.div_pos (zlen input) (size + 32) (zlen_nonneg _) ltac:(lia)). set (k := zlen input / (size + 32)) in *.
  change (zlen Bls12381MultiExpDiscountTable) with 128.
  destruct (discounts (if k <? 128 then k - 1 else 127)) as [d Hd]; [destruct (Z.ltb_spec k 128); lia|].
  assert (E : (if k <? 128 then @idx Empty_set Z Bls12381MultiExpDiscountTable (k - 1) else idx Bls12381MultiExpDiscountTable (128 - 1)) = Ok d).
  { by destruct (k <? 128). }
  rewrite E. bind_simpl. eexists. split; [done|]. pose proof (u64_range (u64 (k * mulGas) * d)). split; [apply Z.div_pos; lia|]. apply Z.div_lt_upper_bound; lia.
Qed.

Lemma bls_pairs_safe k input off acc : 0 <= off -> off + Z.of_nat k * 384 <= zlen input -> safe (fun _ => True) (bls_pairs k input off acc).
Proof.
  revert off acc. induction k as [|k IH]; intros off acc Ho Hl; [done|]. cbn [bls_pairs]. repeat (safe_step; try lia). apply IH; lia.
Qed.

Lemma bls_Pairing_safe input : safe out_ok (bls_Pairing_Run input).
Proof.
  unfold bls_Pairing_Run. pose proof (zlen_nonneg input). safe_step; [done|]. apply safe_bind.
  pose proof (bls_pairs_safe (Z.to_nat (zlen input / 384)) input 0 [] ltac:(lia)) as Hm. pose proof (Z.mul_div_le (zlen input) 384 ltac:(lia)).
  pose proof (Z.div_pos (zlen input) 384 ltac:(lia) ltac:(lia)). specialize (Hm ltac:(lia)). unfold safe in *.
  destruct (bls_pairs _ _ _ _); [by destruct (bls_Check _)|done|done].
Qed.

Lemma decode_field_safe (Q : list Z -> Prop) b : (forall r, Q r) -> safe Q (decodeBLS12381FieldElement b).
Proof.
  intros HQ. unfold decodeBLS12381FieldElement. safe_step; [done|]. apply negb_false_iff, Z.eqb_eq in E. repeat (safe_step; try lia). apply HQ.
Qed.

Lemma bls_MapG1_safe input : safe out_ok (bls_MapG1_Run input).
Proof.
  unfold bls_MapG1_Run. safe_step; [done|]. apply safe_bind, decode_field_safe. intros fe. repeat (safe_step; try lia). apply EncodePoint_ok.
Qed.
Lemma bls_MapG2_safe input : safe out_ok (bls_MapG2_Run input).
Proof.
  unfold bls_MapG2_Run. safe_step; [done|]. apply negb_false_iff, Z.eqb_eq in E. do 2 (safe_step; try lia). apply safe_bind, decode_field_safe. intros c0.
  do 2 (safe_step; try lia). apply safe_bind, decode_field_safe. intros c1. repeat (safe_step; try lia). apply EncodePoint_ok.
Qed.

(** *** Modular exponentiation *)

(** The number in [size] bytes at a position, with zeros after the end. *)
Definition operand (input : list Z) (start size : Z) : Z :=
  be_read (take (Z.to_nat size) (drop (Z.to_nat start) input ++ replicate (Z.to_nat size) 0)).

Lemma operand_range input start size : 0 <= size -> 0 <= operand input start size < 256 ^ size.
Proof.
  intros Hs. unfold operand. set (b := take _ _). pose proof (be_read_range b) as H. assert (Hb : zlen b <= size) by (unfold b, zlen; rewrite length_take; lia).
  pose proof (Z.pow_le_mono_r 256 (zlen b) size ltac:(lia) Hb). lia.
Qed.

Lemma data_at_spec E input start size : is_slice input -> 0 <= start -> 0 <= size <= max_alloc -> @data_at E input start size = Ok (operand input start size).
Proof. intros. unfold data_at. by rewrite getData_spec. Qed.

Lemma operands_spec E input : is_slice input -> @operands E input = Ok (drop 96 input).
Proof.
  intros Hin. unfold operands. rewrite Z.gtb_ltb. destruct (Z.ltb_spec 96 (zlen input)).
  - unfold slice_from. apply slice_Ok. split_and!; [lia..|]. change (Z.to_nat 96) with 96%nat. rewrite firstn_all2; [done|]. rewrite length_drop. unfold zlen in *. lia.
  - rewrite skipn_all2 by (unfold zlen in *; lia). apply slice_Ok. pose proof (zlen_nonneg input). split_and!; [lia..|done].
Qed.

Lemma drop_slice n b : is_slice b -> is_slice (drop n b).
Proof. unfold is_slice, zlen. rewrite length_drop. lia. Qed.

Lemma BitLen_le x n : 0 <= x -> 0 <= n -> big_BitLen x <= n <-> x < 2 ^ n.
Proof.
  intros Hx Hn. unfold big_BitLen. destruct (Z.eqb_spec x 0) as [->|]; [split; [intros; apply Z.pow_pos_nonneg; lia|lia]|].
  rewrite (Z.log2_lt_pow2 x n) by lia. lia.
Qed.
Lemma BitLen_nonneg x : 0 <= big_BitLen x.
Proof. unfold big_BitLen. destruct (x =? 0); [done|]. pose proof (Z.log2_nonneg x). lia. Qed.

Lemma complexity_pos x : 1 <= x -> 1 <= complexity x.
Proof.
  intros Hx. unfold complexity. destruct (Z.leb_spec x 64); [nia|]. destruct (Z.leb_spec x 1024).
  - pose proof (Z.div_pos (x * x) 4 ltac:(nia) ltac:(lia)). lia.
  - pose proof (Z.div_pos (x * x) 16 ltac:(nia) ltac:(lia)). lia.
Qed.
Lemma complexity_large x : 2 ^ 40 <= x -> 2 ^ 76 <= complexity x.
Proof.
  intros Hx. unfold complexity. destruct (Z.leb_spec x 64); [lia|]. destruct (Z.leb_spec x 1024); [lia|].
  assert (2 ^ 80 <= x * x) by (change (2 ^ 80) with (2 ^ 40 * 2 ^ 40); nia). pose proof (Z.div_le_mono (2 ^ 80) (x * x) 16 ltac:(lia) ltac:(lia)) as Hd.
  change (2 ^ 80 / 16) with (2 ^ 76) in Hd. lia.
Qed.

(** The charge bounds the lengths of the operands. *)
Lemma charge_bounds bl el ml a : 0 <= bl -> 0 <= ml -> 0 <= a -> (32 < el -> 8 * (el - 32) <= a) ->
  complexity (Z.max ml bl) * Z.max a 1 / ModExpQuadCoeffDiv < native_limit ->
  bl = 0 /\ ml = 0 \/ bl < 2 ^ 40 /\ ml < 2 ^ 40 /\ el < 2 ^ 48.
Proof.
  intros Hb Hm Ha He Hg. unfold ModExpQuadCoeffDiv in Hg. set (c := complexity (Z.max ml bl)) in *.
  destruct (Z.eq_dec (Z.max ml bl) 0) as [|Hz]; [left; lia|]. right. assert (Hc : 1 <= c) by (apply complexity_pos; lia).
  assert (Hg' : c * Z.max a 1 < 20 * native_limit).
  { pose proof (Z.div_mod (c * Z.max a 1) 20 ltac:(lia)). pose proof (Z.mod_pos_bound (c * Z.max a 1) 20 ltac:(lia)). lia. }
  assert (Hs : Z.max ml bl < 2 ^ 40).
  { destruct (Z.lt_ge_cases (Z.max ml bl) (2 ^ 40)) as [|Hl]; [done|]. apply complexity_large in Hl. fold c in Hl. nia. }
  split_and!; [lia|lia|]. destruct (Z.lt_ge_cases el (2 ^ 48)) as [|Hl]; [done|]. specialize (He ltac:(lia)). nia.
Qed.

Lemma head_spec E input bl el : is_slice input -> 0 <= bl -> 0 <= el -> exists h, 0 <= h /\
  (if zlen input <=? bl then @Ok E Z 0 else if el >? 32 then data_at input (u64 bl) 32 else data_at input (u64 bl) (u64 el)) = Ok h.
Proof.
  intros Hin Hb He. destruct (zlen input <=? bl); [by exists 0|]. rewrite Z.gtb_ltb. pose proof (u64_range bl). destruct (Z.ltb_spec 32 el).
  - rewrite data_at_spec by (done || (unfold max_alloc; lia)). eexists. split; [|done]. by apply operand_range.
  - rewrite (u64_small el) by lia. rewrite data_at_spec by (done || (unfold max_alloc; lia)). eexists. split; [|done]. by apply operand_range.
Qed.

Lemma bigModExp_charge input : is_slice input ->
  exists g, bigModExp_RequiredGas input = Ok g /\ 0 <= g < 2 ^ 64 /\
    (g < native_limit -> operand input 0 32 = 0 /\ operand input 64 32 = 0 \/
      operand input 0 32 < 2 ^ 40 /\ operand input 64 32 < 2 ^ 40 /\ operand input 32 32 < 2 ^ 48).
Proof.
  intros Hin. unfold bigModExp_RequiredGas, length_at. rewrite !data_at_spec by (done || (unfold max_alloc; lia)). bind_simpl.
  rewrite operands_spec by done. bind_simpl. pose proof (operand_range input 0 32 ltac:(lia)) as Hb. pose proof (operand_range input 32 32 ltac:(lia)) as He.
  pose proof (operand_range input 64 32 ltac:(lia)) as Hm. set (bl := operand input 0 32) in *. set (el := operand input 32 32) in *. set (ml := operand input 64 32) in *.
  destruct (head_spec Empty_set (drop 96 input) bl el) as (h & Hh & ->); [by apply drop_slice|lia..|]. bind_simpl.
  set (msb := if big_BitLen h >? 0 then big_BitLen h - 1 else 0).
  assert (Hmsb : 0 <= msb) by (unfold msb; rewrite Z.gtb_ltb; destruct (Z.ltb_spec 0 (big_BitLen h)); lia).
  set (a := (if el >? 32 then 8 * (el - 32) else 0) + msb).
  assert (Ha : 0 <= a /\ (32 < el -> 8 * (el - 32) <= a)) by (unfold a; rewrite Z.gtb_ltb; destruct (Z.ltb_spec 32 el); lia).
  set (gas := complexity _ * _ / _). assert (Hgas : 0 <= gas).
  { apply Z.div_pos; [|done]. apply Z.mul_nonneg_nonneg; [|lia]. unfold complexity. pose proof (complexity_pos (Z.max ml bl)). unfold complexity in *.
    destruct (Z.eq_dec (Z.max ml bl) 0) as [->|]; [done|lia]. }
  eexists. split; [done|]. rewrite Z.gtb_ltb. destruct (Z.ltb_spec 64 (big_BitLen gas)) as [Hl|Hl].
  - unfold MaxUint64. split; [lia|]. lia.
  - apply BitLen_le in Hl; [|done..]. rewrite u64_small by lia. split; [lia|]. intros Hlim. apply (charge_bounds bl el ml a); [lia..|exact Hlim].
Qed.

Lemma big_Bytes_zlen x n : 0 <= x < 256 ^ n -> 0 <= n -> zlen (big_Bytes x) <= n.
Proof.
  intros Hx Hn. unfold big_Bytes, zlen. rewrite be_bytes_length. pose proof (BitLen_nonneg x).
  assert (Hb : big_BitLen x <= 8 * n). { apply BitLen_le; [lia..|]. rewrite Z.pow_mul_r by lia. apply Hx. }
  rewrite Z2Nat.id by (apply Z.div_pos; lia). apply Z.lt_succ_r, Z.div_lt_upper_bound; lia.
Qed.

Lemma big_Exp_range b e m : 0 < m -> 0 <= big_Exp b e m < m.
Proof. intros Hm. unfold big_Exp. destruct e as [|p|p]; [by apply Z.mod_pos_bound| |by apply Z.mod_pos_bound]. destruct p; by apply Z.mod_pos_bound. Qed.

(** The end of the contract: a number below the modulus, in as many bytes as the
    modulus had. *)
Definition mod_output (B E M ml : Z) : list Z :=
  if big_BitLen M =? 0 then padded [] ml else padded (big_Bytes (big_Exp B E M)) ml.

Lemma mod_output_zlen B E M ml : 0 <= ml -> 0 <= M < 256 ^ ml -> zlen (mod_output B E M ml) = ml.
Proof.
  intros Hml HM. unfold mod_output. pose proof (BitLen_le M 0 ltac:(lia) ltac:(lia)) as H0. pose proof (BitLen_nonneg M).
  destruct (Z.eqb_spec (big_BitLen M) 0); rewrite padded_zlen; [rewrite zlen_nil; lia|]. assert (0 < M) by (simpl in H0; lia).
  pose proof (big_Exp_range B E M ltac:(lia)). pose proof (big_Bytes_zlen (big_Exp B E M) ml ltac:(lia) ltac:(lia)). pose proof (zlen_nonneg (big_Bytes (big_Exp B E M))). lia.
Qed.

(** The contract on lengths that fit. *)
Lemma bigModExp_runs input bl el ml : is_slice input ->
  bl = u64 (operand input 0 32) -> el = u64 (operand input 32 32) -> ml = u64 (operand input 64 32) ->
  0 <= bl <= max_alloc -> 0 <= el <= max_alloc -> 0 <= ml <= max_alloc ->
  let d := drop 96 input in
  bigModExp_Run input = Ok (Fresh (if (bl =? 0) && (ml =? 0) then [] else
    mod_output (operand d 0 bl) (operand d bl el) (operand d (u64 (bl + el)) ml) ml)).
Proof.
  intros Hin -> -> -> Hb He Hm d. unfold bigModExp_Run, length_at. rewrite !data_at_spec by (done || (unfold max_alloc; lia)). bind_simpl.
  rewrite operands_spec by done. bind_simpl. fold d. destruct (_ && _); [done|]. assert (Hd : is_slice d) by (by apply drop_slice).
  rewrite !data_at_spec by (done || lia || apply u64_range). bind_simpl. rewrite int64_small by (unfold max_alloc in *; lia). unfold mod_output. by destruct (big_BitLen _ =? 0); rewrite LeftPadBytes_ok by apply Hm.
Qed.

Lemma bigModExp_ok : native_ok the_bigModExp.
Proof.
  apply native_intro; [intros input Hin; destruct (bigModExp_charge input Hin) as (g & ? & ? & _); by exists g|].
  intros input g Hin Hg Hlim. destruct (bigModExp_charge input Hin) as (g' & E & _ & Hb). rewrite E in Hg. injection Hg as ->. specialize (Hb Hlim).
  pose proof (operand_range input 0 32 ltac:(lia)) as Hbl. pose proof (operand_range input 32 32 ltac:(lia)) as Hel. pose proof (operand_range input 64 32 ltac:(lia)) as Hml.
  destruct Hb as [[E1 E2]|(H1 & H2 & H3)].
  - unfold bigModExp_Run, length_at. rewrite !data_at_spec by (done || (unfold max_alloc; lia)). bind_simpl. rewrite operands_spec by done. bind_simpl. rewrite E1, E2. apply is_slice_nil.
  - rewrite (bigModExp_runs input _ _ _ Hin eq_refl eq_refl eq_refl) by (unfold max_alloc; rewrite u64_small; lia). simpl. destruct (_ && _); [apply is_slice_nil|].
    rewrite (u64_small (operand input 64 32)) by lia. unfold is_slice. rewrite mod_output_zlen; [lia|lia|]. apply operand_range. lia.
Qed.

(** *** The result of the exponentiation *)

Lemma pow_mod_spec b m e : 0 < m -> pow_mod b m e = b ^ Zpos e mod m.
Proof.
  intros Hm. induction e as [e IH|e IH|]; cbn [pow_mod].
  - rewrite IH, <- Zmult_mod, Zmult_mod_idemp_l. f_equal. rewrite (Pos2Z.inj_xI e), Z.pow_add_r, Z.pow_1_r, Z.pow_twice_r by lia. lia.
  - rewrite IH, <- Zmult_mod. f_equal. rewrite (Pos2Z.inj_xO e), Z.pow_twice_r by lia. lia.
  - by rewrite Z.pow_1_r.
Qed.
Lemma big_Exp_spec b e m : 0 <= e -> 0 < m -> big_Exp b e m = b ^ e mod m.
Proof. intros He Hm. destruct e as [|p|p]; [done|by apply pow_mod_spec|lia]. Qed.

Lemma be_val_zeros n b : be_val (replicate n 0 ++ b) = be_val b.
Proof. induction n as [|n IH]; [done|]. exact IH. Qed.
Lemma padded_val b n : be_val (padded b n) = be_val b.
Proof. apply be_val_zeros. Qed.
Lemma big_Bytes_val x : 0 <= x -> be_val (big_Bytes x) = x.
Proof.
  intros Hx. unfold big_Bytes. apply be_val_bytes. split; [done|]. pose proof (BitLen_nonneg x).
  pose proof (Z.div_pos (big_BitLen x + 7) 8 ltac:(lia) ltac:(lia)). rewrite Z2Nat.id by done. change 256 with (2 ^ 8). rewrite <- Z.pow_mul_r by lia. apply BitLen_le; [done|lia|].
  pose proof (Z.div_mod (big_BitLen x + 7) 8 ltac:(lia)). pose proof (Z.mod_pos_bound (big_BitLen x + 7) 8 ltac:(lia)). lia.
Qed.

Lemma mod_output_val B E M ml : 0 <= E -> 0 <= M -> be_val (mod_output B E M ml) = if M =? 0 then 0 else B ^ E mod M.
Proof.
  intros HE HM. unfold mod_output. pose proof (BitLen_le M 0 ltac:(lia) ltac:(lia)) as H0. pose proof (BitLen_nonneg M). simpl in H0.
  destruct (Z.eqb_spec (big_BitLen M) 0), (Z.eqb_spec M 0); rewrite padded_val; try lia; [done|].
  rewrite big_Bytes_val by (apply big_Exp_range; lia). apply big_Exp_spec; lia.
Qed.

(** A length in the head of an input. *)
Lemma operand_at (pre b rest : list Z) (i n : Z) : i = zlen pre -> n = zlen b -> bytes_ok b -> operand (pre ++ b ++ rest) i n = be_val b.
Proof.
  intros -> -> Hb. unfold operand. rewrite drop_zlen_app, <- app_assoc, take_zlen_app. by apply be_read_bytes.
Qed.
Lemma length_field pre n rest i : i = zlen pre -> 0 <= n < 2 ^ 64 -> operand (pre ++ be_bytes 32 n ++ rest) i 32 = n.
Proof.
  intros Hi Hn. rewrite operand_at; [apply be_val_bytes|done| |apply be_bytes_ok].
  - split; [lia|]. eapply Z.lt_le_trans; [apply Hn|]. by vm_compute.
  - unfold zlen. by rewrite be_bytes_length.
Qed.

Definition exp_input (bl el ml : Z) (data : list Z) : list Z := be_bytes 32 bl ++ be_bytes 32 el ++ be_bytes 32 ml ++ data.

(**  The native exponentiation computes powers: on an input with the
    lengths of three operands and the operands, cut off or followed by anything,
    where the missing bytes count as zeros, the result has as many bytes as the
    modulus and is the power of the base modulo the modulus, and 0 for a modulus
    of 0. *)
Theorem bigModExp_correct bl el ml data :
  0 <= bl <= max_alloc -> 0 <= el <= max_alloc -> 0 <= ml <= max_alloc -> zlen data < 2 ^ 62 ->
  let B := operand data 0 bl in
  let E := operand data bl el in
  let M := operand data (bl + el) ml in
  exists out, bigModExp_Run (exp_input bl el ml data) = Ok (Fresh out) /\ zlen out = ml /\ be_val out = if M =? 0 then 0 else B ^ E mod M.
Proof.
  intros Hb He Hm Hd B E M. unfold max_alloc in *. assert (H32 : forall x, zlen (be_bytes 32 x) = 32) by (intros x; unfold zlen; by rewrite be_bytes_length).
  assert (Hin : is_slice (exp_input bl el ml data)) by (unfold is_slice, exp_input; rewrite !zlen_app, !H32; lia).
  assert (E1 : operand (exp_input bl el ml data) 0 32 = bl) by (apply (length_field []); [done|lia]).
  assert (E2 : operand (exp_input bl el ml data) 32 32 = el) by (apply (length_field (be_bytes 32 bl)); [by rewrite H32|lia]).
  assert (E3 : operand (exp_input bl el ml data) 64 32 = ml).
  { unfold exp_input. rewrite (app_assoc (be_bytes 32 bl)). apply length_field; [by rewrite zlen_app, !H32|lia]. }
  assert (E4 : drop 96 (exp_input bl el ml data) = data).
  { set (h := be_bytes 32 bl ++ be_bytes 32 el ++ be_bytes 32 ml). assert (Hh : zlen h = 96) by (unfold h; by rewrite !zlen_app, !H32).
    pose proof (drop_zlen_app h data) as D. rewrite Hh in D. rewrite <- D at 2. unfold exp_input, h. by rewrite <- !app_assoc. }
  rewrite (bigModExp_runs _ bl el ml Hin) by (unfold max_alloc; rewrite ?E1, ?E2, ?E3, ?u64_small; lia). rewrite E4, u64_small by lia. fold B E M.
  pose proof (operand_range data bl el ltac:(lia)) as HE. fold E in HE. pose proof (operand_range data (bl + el) ml ltac:(lia)) as HM. fold M in HM.
  eexists. split; [done|]. destruct (Z.eqb_spec bl 0), (Z.eqb_spec ml 0) as [->|]; simpl;
    try (split; [apply mod_output_zlen; [lia|exact HM]|apply mod_output_val; lia]).
  split; [done|]. destruct (Z.eqb_spec M 0); [done|]. simpl in HM. lia.
Qed.

(** 3^5 mod 100, with the last bytes left out. *)
Lemma bigModExp_correct_witness :
  exists out, bigModExp_Run (exp_input 1 1 2 [3; 5; 1]) = Ok (Fresh out) /\ zlen out = 2 /\ be_val out = 3 ^ 5 mod 256.
Proof. destruct (bigModExp_correct 1 1 2 [3; 5; 1]) as (out & H); [done..|]. exists out. exact H. Defined.

(** A base of one byte and an exponent of [2^50] bytes. *)
Definition long_exponent : list Z := exp_input 1 (2 ^ 50) 1 [1; 1].

Lemma the_natives_ok : natives_ok the_natives.
Proof.
  assert (H1 : forall g, 0 <= g < 2 ^ 64 -> forall run, (forall input, is_slice input -> safe out_ok (run input)) -> native_ok (MkPrecompile (fun _ => Ok g) run)).
  { intros g Hg run Hr. by apply (native_total (fun _ => g)). }
  assert (H2 : forall a b n run, (forall input, is_slice input -> safe out_ok (run input)) -> native_ok (MkPrecompile (fun i => Ok (per_item a b n i)) run)).
  { intros a b n run Hr. apply native_total; [intros input; apply u64_range|done]. }
  assert (H3 : forall g size mul, 0 <= size -> native_ok (MkPrecompile (bls_MultiExp_gas size mul) (bls_MultiExp_Run g size))).
  { intros g size mul Hs. apply native_intro; [intros input _; by apply bls_MultiExp_gas_ok|]. intros input _ _ _ _. by apply bls_MultiExp_safe. }
  unfold natives_ok. cbn [the_natives ecrecover sha256hash ripemd160hash bigModExp bn256AddIstanbul bn256AddByzantium bn256ScalarMulIstanbul
    bn256ScalarMulByzantium bn256PairingIstanbul bn256PairingByzantium blake2F nat_G1Add nat_G1Mul nat_G1MultiExp nat_G2Add nat_G2Mul nat_G2MultiExp
    nat_Pairing nat_MapG1 nat_MapG2].
  split_and!; first
    [ apply ecrecover_ok | apply sha256hash_ok | apply ripemd160hash_ok | apply bigModExp_ok | apply blake2F_ok | by apply H3
    | apply H2; intros; first [apply runBn256Pairing_safe | apply bls_Pairing_safe]
    | apply H1; [done|]; intros; first [by apply runBn256Add_safe | by apply runBn256ScalarMul_safe | by apply bls_Add_safe | by apply bls_Mul_safe
        | apply bls_MapG1_safe | apply bls_MapG2_safe] ].
Qed.

(** C40.  The native contracts are well behaved on every input: the charge is a
    number of 64 bits, and with a charge below 2^45 the contract returns a slice
    or an error and does not panic, by an index out of range or by asking for
    more memory than the runtime can address.  The limit matters: a modular
    exponentiation with an exponent of 2^50 bytes costs less than 2^49 and
    panics. *)
Theorem natives_safe :
  natives_ok the_natives /\
  (is_slice long_exponent /\ bytes_ok long_exponent /\
   (exists gas, RequiredGas the_bigModExp long_exponent = Ok gas /\ gas < 2 ^ 49) /\ pre_Run the_bigModExp long_exponent = Panic).
Proof.
  split; [apply the_natives_ok|]. split; [by vm_compute|]. split; [|split].
  - repeat (apply Forall_app; split; [apply be_bytes_ok|]). by repeat constructor.
  - eexists. split; [vm_compute; reflexivity|]. vm_compute. reflexivity.
  - vm_compute. reflexivity.
Qed.
End promises.
