(* ===== verification/VmStateDB.v ===== *)
(** * The machine on the state (src/core/vm on src/core/state)

    [StateDB] implements the interface [StateDB] of the machine, with all it
    promises: so the theorems on the machine hold for it, and a failed call
    undoes through the journal all that was done below it.  At the end, a
    concrete machine on a concrete state. *)
From stdpp Require Import prelude list gmap.
From Stdlib Require Import ZArith Lia.
From S2P Require Import Prelude RlpEncode RlpRaw RlpStream TrieEncoding Trie TrieNode TrieHash StateDB StateRevert.
From S2P Require Import Digests VmBase VmCode Vm VmWp VmOps VmTables VmSafe StateTransition VmNatives.

Section on_statedb.
Context {K : Keccak} {T : Type} {TO : TrieOps T} {SD : StateDatabase T}.

(** The methods of [StateDB] that the machine calls.  A nil code is read as an
    empty one; empty code that is set is nil, since a run that returns nothing
    returns nil. *)
#[export] Instance statedb_state : VMState (StateDB T) := {
  vs_CreateAccount := CreateAccount;
  vs_SubBalance := SubBalance;
  vs_AddBalance := AddBalance;
  vs_GetBalance := GetBalance;
  vs_GetNonce := GetNonce;
  vs_SetNonce := SetNonce;
  vs_GetCodeHash := GetCodeHash;
  vs_GetCode s a := '(c, s) ← GetCode s a; Ok (default [] c, s);
  vs_SetCode s a c := SetCode s a (match c with [] => None | _ => Some c end);
  vs_GetCodeSize := GetCodeSize;
  vs_AddRefund := AddRefund;
  vs_SubRefund := SubRefund;
  vs_GetRefund := GetRefund;
  vs_GetCommittedState := sdb_GetCommittedState;
  vs_GetState := GetState;
  vs_SetState := SetState;
  vs_Suicide := Suicide;
  vs_HasSuicided := HasSuicided;
  vs_Exist := Exist;
  vs_Empty := Empty;
  vs_RevertToSnapshot := RevertToSnapshot;
  vs_Snapshot := take_snapshot;
  vs_AddLog := AddLog;
  vs_AddPreimage := AddPreimage;
}.

(** The machine can come to any address. *)
#[export] Instance all_addresses : Addresses := is_addr.

Context {TR : TrieReads T}.

(** A state reached from [b] while the snapshots of [b] are still valid. *)
Definition reached (b s : StateDB T) : Prop := valid b /\ exists revs, frames b revs s.

Lemma step_later s s1 es : valid s -> step s s1 es -> later_than valid reached s s1.
Proof.
  intros (Hw & Hd & Hr) Hst. split.
  - intros _. pose proof (step_revs _ _ _ Hst Hr). destruct Hst as [_ ? _ _ Hds]. split; [done|]. by split; [apply Hds|].
  - intros b (Hb & revs & Hf). split; [done|]. exists revs. by eapply frames_step.
Qed.

Lemma reads_later {A} (P : A -> Prop) a (none : A) f :
  is_addr a -> P none ->
  (forall s o, wf s -> stateObjects s !! a = Some o -> exists r o1, f s o = Ok (r, o1) /\ reread s o o1 /\ P r) ->
  reads valid reached P (fun s => read s a none f).
Proof.
  intros Ha Hnone Hf s Hv. destruct (read_spec P s a none f) as (r & s1 & Hrun & HP & HR & Hl); [by apply Hv|done..|].
  exists r, s1. split; [done|]. split; [done|]. by eapply step_later, step_read.
Qed.

Lemma changes_later a f :
  is_addr a ->
  (forall s o, wf s -> stateObjects s !! a = Some o -> deleted o = false ->
     exists s1 o1 es, f s o = Ok (s1, o1) /\ step s (setStateObject s1 o1) es) ->
  changes valid reached (fun s => change s a f).
Proof.
  intros Ha Hf s Hv. destruct (change_step s a f) as (s1 & es & Hrun & Hst); [by apply Hv|done..|].
  exists s1. split; [done|]. by eapply step_later.
Qed.

Ltac plain_read := intros; apply reads_later; [done..|]; intros s o Hw Ho; eexists _, _; split; [reflexivity|]; split; [apply reread_refl|done].

Lemma GetCode_later a : is_addr a -> reads valid reached is_slice (fun s => '(c, s) ← GetCode s a; Ok (default [] c, s)).
Proof.
  intros Ha s Hv. destruct (reads_later (fun c => is_slice (default [] c)) a None (fun _ o => Ok (obj_Code o)) Ha is_slice_nil) with s
    as (c & s1 & Hrun & Hc & Hl); [|done|].
  - intros u o Hw Ho. destruct (obj_Code_spec u o) as (o1 & E & Hre). rewrite E. eexists _, o1. split; [done|]. split; [done|].
    destruct (obj_Code o).1 as [c|] eqn:Ec; [|apply is_slice_nil]. eapply obj_Code_slice; [|exact Ec]. by apply (w_objects _ Hw _ _ Ho).
  - exists (default [] c), s1. unfold GetCode. rewrite Hrun. done.
Qed.

Lemma GetState_later a k : is_addr a -> reads valid reached (fun _ => True) (fun s => GetState s a k).
Proof.
  intros Ha. apply reads_later; [done..|]. intros s o Hw Ho. destruct (obj_GetState_spec s o k) as (o1 & E & Hre); [by apply (w_objects _ Hw _ _ Ho)|].
  by exists (current s o k), o1.
Qed.
Lemma GetCommittedState_later a k : is_addr a -> reads valid reached (fun _ => True) (fun s => sdb_GetCommittedState s a k).
Proof.
  intros Ha. apply reads_later; [done..|]. intros s o Hw Ho. destruct (GetCommittedState_spec s o k) as (o1 & E & Hre); [by apply (w_objects _ Hw _ _ Ho)|].
  by exists (committed s o k), o1.
Qed.
Lemma GetCodeSize_later a : is_addr a -> reads valid reached (fun _ => True) (fun s => GetCodeSize s a).
Proof.
  intros Ha. apply reads_later; [done..|]. intros s o Hw Ho. destruct (obj_CodeSize_spec s o) as (n & o1 & E & Hre). rewrite E. by exists n, o1.
Qed.
Lemma GetBalance_later a : is_addr a -> reads valid reached (fun _ => True) (fun s => GetBalance s a).
Proof. plain_read. Qed.
Lemma GetNonce_later a : is_addr a -> reads valid reached (fun _ => True) (fun s => GetNonce s a).
Proof. plain_read. Qed.
Lemma GetCodeHash_later a : is_addr a -> reads valid reached (fun _ => True) (fun s => GetCodeHash s a).
Proof. plain_read. Qed.
Lemma HasSuicided_later a : is_addr a -> reads valid reached (fun _ => True) (fun s => HasSuicided s a).
Proof. plain_read. Qed.
Lemma Exist_later a : is_addr a -> reads valid reached (fun _ => True) (fun s => Exist s a).
Proof. plain_read. Qed.
Lemma Empty_later a : is_addr a -> reads valid reached (fun _ => True) (fun s => Empty s a).
Proof. plain_read. Qed.

Lemma SubBalance_later a v : is_addr a -> changes valid reached (fun s => SubBalance s a v).
Proof.
  intros Ha. apply changes_later; [done|]. intros s o Hw Ho Hd. destruct (SubBalance_obj_step s a o v Hw Ho Hd) as (s1 & o1 & es & -> & ?). by eexists _, _, _.
Qed.
Lemma AddBalance_later a v : is_addr a -> changes valid reached (fun s => AddBalance s a v).
Proof.
  intros Ha. apply changes_later; [done|]. intros s o Hw Ho Hd. destruct (AddBalance_obj_step s a o v Hw Ho Hd) as (s1 & o1 & es & -> & ?). by eexists _, _, _.
Qed.
Lemma SetNonce_later a v : is_addr a -> changes valid reached (fun s => SetNonce s a v).
Proof.
  intros Ha. apply changes_later; [done|]. intros s o Hw Ho Hd. destruct (SetNonce_obj_step s a o v Hw Ho Hd) as (s1 & o1 & es & -> & ?). by eexists _, _, _.
Qed.
Lemma SetCode_later a c : is_addr a -> is_slice c -> changes valid reached (fun s => vs_SetCode s a c).
Proof.
  intros Ha Hc. apply changes_later; [done|]. intros s o Hw Ho Hd. destruct (SetCode_obj_step s a o (match c with [] => None | _ => Some c end)) as (s1 & o1 & es & -> & ?); [destruct c; [done|by intros b [= <-]]|done..|].
  by eexists _, _, _.
Qed.
Lemma SetState_later a k v : is_addr a -> changes valid reached (fun s => SetState s a k v).
Proof. intros Ha. apply changes_later; [done|]. intros s o Hw Ho Hd. by apply (SetState_obj_step s a). Qed.
Lemma CreateAccount_later a : is_addr a -> changes valid reached (fun s => CreateAccount s a).
Proof.
  intros Ha s Hv. destruct (CreateAccount_step s a) as (s1 & es & Hrun & Hst); [by apply Hv|done|]. exists s1. split; [done|]. by eapply step_later.
Qed.
Lemma Suicide_later a : is_addr a -> reads valid reached (fun _ => True) (fun s => Suicide s a).
Proof.
  intros Ha s Hv. destruct (Suicide_step s a) as (b & s1 & es & Hrun & Hst); [by apply Hv|done|]. exists b, s1. split; [done|]. split; [done|]. by eapply step_later.
Qed.
Lemma AddLog_later l : changes valid reached (fun s => Ok (AddLog s l)).
Proof. intros s Hv. destruct (AddLog_step s l) as (es & Hst); [by apply Hv|]. eexists. split; [done|]. by eapply step_later. Qed.
Lemma AddPreimage_later h p : changes valid reached (fun s => Ok (AddPreimage s h p)).
Proof. intros s Hv. destruct (AddPreimage_step s h p) as (es & Hst); [by apply Hv|]. eexists. split; [done|]. by eapply step_later. Qed.
Lemma AddRefund_later g : changes valid reached (fun s => Ok (AddRefund s g)).
Proof. intros s Hv. eexists. split; [done|]. eapply step_later; [done|]. apply refund_step, Hv. Qed.
Lemma SubRefund_later g s s' : valid s -> SubRefund s g = Ok s' -> later_than valid reached s s'.
Proof.
  intros Hv H. unfold SubRefund in H. simpl in H. destruct (g >? refund s); [done|]. injection H as <-. eapply step_later; [done|]. apply refund_step, Hv.
Qed.

Lemma read_eqv (f : stateObject T -> Z) a s v s' : valid s -> is_addr a -> read s a 0 (fun _ o => Ok (f o, o)) = Ok (v, s') -> eqv s' s.
Proof.
  intros Hv Ha H. destruct (read_spec (fun _ => True) s a 0 (fun _ o => Ok (f o, o))) as (r & s1 & Hrun & _ & (_ & _ & HR) & _); [by apply Hv|done..| |].
  - intros u o _ _. eexists _, _. split; [reflexivity|]. split; [apply reread_refl|done].
  - rewrite Hrun in H. injection H as <- <-. by apply eqv_sym.
Qed.

Lemma snapshot_later s : valid s -> later_than valid reached s (take_snapshot s).2 /\ reached (take_snapshot s).2 (take_snapshot s).2.
Proof.
  intros Hv. pose proof Hv as (Hw & Hd & Hr).
  assert (Hb : valid (take_snapshot s).2) by (split_and!; [by apply snapshot_R|done|by apply snapshot_revs]).
  split; [|by split; [|eexists; apply snapshot_frames]]. split; [done|]. intros b (Hvb & revs & Hf). split; [done|]. eexists. eapply frames_push; [exact Hf|].
  apply step_read; [|done]. by apply R_refl, snapshot_R.
Qed.

Lemma revert_later s s2 : valid s -> reached (take_snapshot s).2 s2 ->
  exists s3, RevertToSnapshot s2 (take_snapshot s).1 = Ok s3 /\ eqv s3 s /\ valid s3 /\ forall b, reached b s -> reached b s3.
Proof.
  intros Hv (_ & revs & Hf). destruct (revert_frames s revs s2 Hv Hf) as (t & Ht & HR & He & Hd & Hvt & Hn & Hval). exists t.
  pose proof HR as (_ & _ & Heqv). split_and!; try done. intros b (Hvb & revs' & Hf'). split; [done|]. exists revs'. by eapply frames_shift.
Qed.

Definition statedb_laws : VMLaws (StateDB T) := {|
  inv := valid;
  since := reached;
  same_state := eqv;
  l_CreateAccount := CreateAccount_later;
  l_SubBalance := SubBalance_later;
  l_AddBalance := AddBalance_later;
  l_GetBalance := GetBalance_later;
  l_GetNonce := GetNonce_later;
  l_SetNonce := SetNonce_later;
  l_GetCodeHash := GetCodeHash_later;
  l_GetCode := GetCode_later;
  l_SetCode := SetCode_later;
  l_GetCodeSize := GetCodeSize_later;
  l_AddRefund := AddRefund_later;
  l_SubRefund := SubRefund_later;
  l_GetCommittedState := GetCommittedState_later;
  l_GetState := GetState_later;
  l_SetState := SetState_later;
  l_Suicide := Suicide_later;
  l_HasSuicided := HasSuicided_later;
  l_Exist := Exist_later;
  l_Empty := Empty_later;
  l_AddLog := AddLog_later;
  l_AddPreimage := AddPreimage_later;
  same_refl := eqv_refl;
  same_trans := eqv_trans;
  same_GetBalance := read_eqv (fun o => Balance (data o));
  same_GetNonce := read_eqv (fun o => Nonce (data o));
  l_Snapshot := snapshot_later;
  l_Revert := revert_later;
|}.
End on_statedb.

(** ** A concrete machine *)

Module Concrete.
#[local] Existing Instance ZWords.words.
#[local] Existing Instance MapState.toy.
#[local] Existing Instance MapState.map_trie.
#[local] Existing Instance MapState.map_database.
#[local] Existing Instance MapState.map_reads.
Abbreviation db := (StateDB MapState.store).
#[local] Instance laws : VMLaws db := statedb_laws.

(** The integers with addition, in place of the curves. *)
#[local] Program Instance integers : PointGroup := {
  point := Z;
  DecodePoint b := inr (be_read b);
  EncodePoint := be_bytes 128;
  p_Add := Z.add;
  MulScalar := Z.mul;
  MultiExp ps es := foldr Z.add 0 (zip_with Z.mul ps es);
  InCorrectSubgroup _ := true;
  MapToCurve b := inr (be_read b);
}.
Next Obligation. intros p. unfold zlen. by rewrite be_bytes_length. Qed.
#[local] Program Instance packages : Packages := {
  RecoverPubkey msg sig := Some (be_bytes 65 (be_read msg + be_read sig));
  ripemd160 b := be_bytes 20 (be_read b);
  bn_G1 := Z;
  bn_G2 := Z;
  Unmarshal_G1 b := inr (be_read b);
  Unmarshal_G2 b := inr (be_read b);
  bn_Marshal := be_bytes 64;
  bn_Add := Z.add;
  bn_ScalarMult := Z.mul;
  PairingCheck a b := foldr Z.add 0 a =? foldr Z.add 0 b;
  bls_G1 := integers;
  bls_G2 := integers;
  bls_Check ps := foldr Z.add 0 ps.*1 =? foldr Z.add 0 ps.*2;
}.
Next Obligation. intros msg sig pub H. replace pub with (be_bytes 65 (be_read msg + be_read sig)) by congruence. unfold zlen. by rewrite be_bytes_length. Qed.
Next Obligation. intros b. unfold zlen. by rewrite be_bytes_length. Qed.
Next Obligation. intros p. unfold zlen. by rewrite be_bytes_length. Qed.

(** The promises of the native contracts. *)
Lemma natives_safe_witness : native_ok the_bigModExp /\ pre_Run the_bigModExp long_exponent = Panic.
Proof. destruct natives_safe as [(_ & _ & _ & H & _) (_ & _ & _ & E)]. split; [exact H|exact E]. Defined.

(** All features, but the net metering of EIP1283 and the switches that turn
    features off again. *)
Definition all_on : ChainConfig :=
  let on := Some 0 in
  MkConfig on on on on on on on on on on on on on on on on on None None on on on on on None on on 61.
Definition env : Env := MkEnv all_on the_natives (fun _ => replicate 32 0) (replicate 20 9) 1 (replicate 20 8) 8000000 12 1000 17 false false.

Definition jt : JumpTable (S := db) := match NewEVMInterpreter (S := db) env [] with Ok (jt, _) => jt | _ => fun _ => None end.

Lemma jt_built : NewEVMInterpreter (S := db) env [] = Ok (jt, []).
Proof. reflexivity. Qed.

(** The additional rules, for a configuration with an unknown one. *)
Lemma NewEVMInterpreter_extra_witness :
  NewEVMInterpreter (S := db) env [1; 2200; 2315; 1344] =
  (jt ← instructionSetForConfig env; jt ← enable_all env [2315; 1344; 1344] jt; Ok (jt, [2200; 2315; 1344])).
Proof.
  destruct (NewEVMInterpreter_extra (S := db) env) as (_ & Hskip & _). apply (Hskip 1 2200 [2315] 1344); [reflexivity|]. repeat constructor.
Defined.

Definition data32 : list Z := (fun i => Z.of_nat i) <$> seq 1 32.

(** Stores 32 bytes, passes them to the identity contract with an output that
    starts at byte 16, and returns what the call reports. *)
Definition identity_code : list Z :=
  [127] ++ data32 ++ [96; 0; 82] ++ [96; 32; 96; 16; 96; 32; 96; 0; 96; 4; 97; 3; 232; 250] ++ [96; 32; 96; 0; 96; 64; 62; 96; 32; 96; 64; 243].
Definition caller_contract (code : list Z) (gas : Z) : Contract :=
  MkContract (replicate 20 9) MapState.alice None code no_hash [] gas 0.
Definition machine (s : db) : evm := MkEvm s 0 ∅ false [] 0 [].

Definition asker : Contract := caller_contract identity_code 5000.

Lemma alice_addr : is_addr MapState.alice.
Proof. by repeat constructor. Qed.
Lemma asker_code : is_slice (Code asker).
Proof. by vm_compute. Qed.
Lemma asker_gas : 0 <= Gas asker < 2 ^ 64.
Proof. by vm_compute. Qed.

(** The run ends within its gas, and what the identity contract is reported to
    have returned is not what it was given. *)
Lemma Run_safe_witness :
  match Run env jt (S (Z.to_nat (Gas asker))) asker [] false (machine MapState.start) with
  | Ok (e', (c', ret, err)) => 0 <= Gas c' <= Gas asker /\ err = None /\ ret = take 16 data32 ++ take 16 data32
  | _ => False
  end.
Proof.
  assert (E : match Run env jt (S (Z.to_nat (Gas asker))) asker [] false (machine MapState.start) with
    | Ok (_, (_, ret, err)) => err = None /\ ret = take 16 data32 ++ take 16 data32 | _ => False end) by (vm_compute; split; reflexivity).
  pose proof (Run_safe env [] jt [] asker [] false (machine MapState.start) the_natives_ok jt_built alice_addr asker_code is_slice_nil asker_gas
    MapState.start_valid) as H.
  destruct (Run _ _ _ _ _ _ _) as [[e' [[c' ret] err]]| |]; [|destruct E..]. destruct H as (H1 & _). destruct E as (E1 & E2). done.
Defined.

(** Code that stores a value and reverts. *)
Definition reverting : list Z := [96; 5; 96; 1; 85; 96; 0; 96; 0; 253].
Definition with_code : db := MapState.outcome_or MapState.start (SetCode MapState.start MapState.bob (Some reverting)).

Lemma bob_addr : is_addr MapState.bob.
Proof. by repeat constructor. Qed.

Lemma with_code_valid : valid with_code.
Proof.
  destruct (SetCode_later MapState.bob reverting bob_addr ltac:(by vm_compute) MapState.start MapState.start_valid) as (s' & E & Hl & _).
  unfold with_code. change (SetCode MapState.start MapState.bob (Some reverting)) with (vs_SetCode MapState.start MapState.bob reverting). rewrite E. by apply Hl, MapState.start_valid.
Qed.

Definition payer : Contract := caller_contract [] 30000.
Lemma payer_gas : 0 <= 30000 < 2 ^ 64.
Proof. by vm_compute. Qed.

(** A call that transfers a value and stores, and then reverts, leaves the
    state as it was. *)
Lemma do_call_atomic_witness :
  match do_call env (Run env jt (S (Z.to_nat 30000))) (KCall 3) payer MapState.bob [] 30000 (machine with_code) with
  | Ok (e', (_, rest, err)) => err = Some ErrExecutionReverted /\ 0 < rest <= 30000 /\ eqv (state e') with_code
  | _ => False
  end.
Proof.
  assert (E : match do_call env (Run env jt (S (Z.to_nat 30000))) (KCall 3) payer MapState.bob [] 30000 (machine with_code) with
    | Ok (_, (_, rest, err)) => err = Some ErrExecutionReverted /\ (0 <? rest) = true | _ => False end) by (vm_compute; split; reflexivity).
  pose proof (do_call_atomic env [] jt [] (KCall 3) payer MapState.bob [] 30000 (machine with_code) the_natives_ok jt_built alice_addr bob_addr is_slice_nil
    payer_gas with_code_valid) as H.
  destruct (do_call _ _ _ _ _ _ _ _) as [[e' [[out rest] err]]| |]; [|destruct E..]. destruct E as (-> & Hr%Z.ltb_lt). destruct H as (H1 & _ & _ & H2).
  split; [done|]. split; [lia|]. by apply H2.
Defined.

(** A frame after the memory was filled. *)
Definition alias_frame : frame := MkFrame 0 (MkMemory (data32 ++ replicate 32 0) 6) [] [] (caller_contract [] 100) 0.

Lemma identity_returnData_aliased_witness :
  exists f', after_call (S := db) (SameInput, 7, None) (FromBig 0) (FromBig 32) (FromBig 16) (FromBig 32) (alias_frame, machine MapState.start) =
    Ok ((f', machine MapState.start), inr (take 16 data32 ++ take 16 data32)) /\ take 16 data32 ++ take 16 data32 <> data32.
Proof.
  destruct (identity_returnData_aliased (S := db) alias_frame (machine MapState.start) (FromBig 0) (FromBig 32) (FromBig 16) data32 7) as (f' & k & -> & H).
  - exists 2. by vm_compute.
  - right. by vm_compute.
  - right. by vm_compute.
  - by vm_compute.
  - by vm_compute.
  - exists f'. split; [exact H|done].
Defined.

(** ** A transaction *)

Definition funded : db := MapState.outcome_or with_code (AddBalance with_code MapState.alice 1000000).

Lemma funded_valid : valid funded.
Proof.
  destruct (AddBalance_later MapState.alice 1000000 alice_addr with_code with_code_valid) as (s' & E & Hl & _).
  unfold funded. rewrite E. by apply Hl, with_code_valid.
Qed.

(** A message to the code that stores and reverts. *)
Definition payment : Message := MkMessage MapState.alice (Some MapState.bob) 2 60000 3 1 true [0; 1].

Lemma payment_ok : msg_ok payment.
Proof. split; [apply alice_addr|]. split; [intros to [= <-]; apply bob_addr|]. split; [done|]. by vm_compute. Qed.
Lemma pool_range : 0 <= 100000 < 2 ^ 64.
Proof. by vm_compute. Qed.
Lemma miner_addr : is_addr (Coinbase env).
Proof. by repeat constructor. Qed.

(** The message is charged for the code that it ran, and has no other effect. *)
Lemma ApplyMessage_accounts_witness :
  match ApplyMessage env (Run env jt (S (Z.to_nat (msg_Gas payment)))) payment 100000 (machine funded) with
  | Ok (e', (st, inr res)) => res_Err res = Some ErrExecutionReverted /\ gp st = 100000 - UsedGas res /\ 21020 < UsedGas res <= 60000
  | _ => False
  end.
Proof.
  assert (E : match ApplyMessage env (Run env jt (S (Z.to_nat (msg_Gas payment)))) payment 100000 (machine funded) with
    | Ok (_, (_, inr res)) => res_Err res = Some ErrExecutionReverted /\ (21020 <? UsedGas res) = true | _ => False end) by (vm_compute; split; reflexivity).
  pose proof (ApplyMessage_accounts env [] jt [] payment 100000 (machine funded) the_natives_ok jt_built payment_ok miner_addr pool_range funded_valid) as H.
  destruct (ApplyMessage _ _ _ _ _) as [[e' [st [err|res]]]| |]; [destruct E| |destruct E..]. destruct E as (E1 & E2%Z.ltb_lt).
  destruct H as (_ & _ & needed & _ & _ & Hu & Hg & _). split; [exact E1|]. split; [exact Hg|]. split; [exact E2|apply Hu].
Defined.
End Concrete.
