(* ===== verification/Transactions.v ===== *)
(** * Transactions and their signatures (src/core/types/transaction.go, transaction_signing.go)

    A transaction is signed over a hash that depends on the rules of the chain,
    and its sender is recovered from the signature.  The file shows that what
    was signed is recovered, that the chain id protects from replays, and that
    the cache of the sender is invisible.  The curve is an interface. *)
From stdpp Require Import prelude list gmap.
From Stdlib Require Import ZArith Lia.
From S2P Require Import Prelude RlpEncode RlpRaw RlpStream TrieEncoding Trie TrieNode TrieHash StackTrie DeriveSha Header.
From S2P Require Import Digests VmBase VmCode Vm VmNatives StateTransition.

(** ** Interface: the package crypto/secp256k1 *)

(** [Sign] returns R, S and V, with S in the lower half of the group and V 0 or
    1; the public key is recovered from the digest and the signature. *)
Class Secp256k1 := {
  private_key : Type;
  public_key : private_key -> list Z;
  secp_Sign : list Z -> private_key -> option (list Z);
  secp_RecoverPubkey : list Z -> list Z -> option (list Z);
  public_key_format k : exists xy, public_key k = 4 :: xy /\ zlen xy = 64;
  secp_Sign_format digest k sig : secp_Sign digest k = Some sig ->
    exists r s v, sig = be_bytes 32 r ++ be_bytes 32 s ++ [v] /\ 1 <= r < secp256k1N /\ 1 <= s <= secp256k1halfN /\ (v = 0 \/ v = 1);
  secp_Sign_recovers digest k sig : secp_Sign digest k = Some sig -> secp_RecoverPubkey digest sig = Some (public_key k);
}.

(** ** Data *)

Record txdata := MkTxdata {
  AccountNonce : Z;
  Price : Z;
  tx_GasLimit : Z;
  Recipient : option (list Z);
  Amount : Z;
  Payload : list Z;
  tx_V : Z;
  tx_R : Z;
  tx_S : Z;
}.

Inductive Signer := FrontierSigner | HomesteadSigner | EIP155Signer (chainId : Z).

(** A transaction, with the cache of its sender. *)
Record Transaction := MkTransaction { tx_data : txdata; tx_from : option (Signer * list Z) }.

Inductive tx_error := ErrInvalidChainId | ErrInvalidSig | ErrRecover | ErrInvalidPublicKey | ErrSign.
Abbreviation txr A := (outcome tx_error A).

Definition Signer_Equal (s s2 : Signer) : bool :=
  match s, s2 with
  | FrontierSigner, FrontierSigner | HomesteadSigner, HomesteadSigner => true
  | EIP155Signer c, EIP155Signer c2 => c2 =? c
  | _, _ => false
  end.

(** [x.Uint64()] *)
Definition big_Uint64 (x : Z) : Z := u64 (Z.abs x).

Definition isProtectedV (V : Z) : bool :=
  if bit_len V <=? 8 then negb (big_Uint64 V =? 27) && negb (big_Uint64 V =? 28) else true.

Definition deriveChainId (v : Z) : Z :=
  if bit_len v <=? 64 then
    let v := big_Uint64 v in
    if (v =? 27) || (v =? 28) then 0 else u64 (v - 35) / 2
  else (v - 35) / 2.

Definition MakeSigner (GetEIP155Transition : option Z) (config : ChainConfig) (blockNumber : Z) : Signer :=
  if IsEnabled GetEIP155Transition blockNumber then EIP155Signer (GetChainID config)
  else if IsEnabled (GetEIP2Transition config) blockNumber then HomesteadSigner
  else FrontierSigner.

(** The fields that are signed; a nil recipient is an empty string. *)
Definition recipient_item (to : option (list Z)) : item := match to with Some a => IByteArray a | None => INilPtr true end.
Definition signed_items (d : txdata) : list item :=
  [IUint (AccountNonce d); IBigInt (Price d); IUint (tx_GasLimit d); recipient_item (Recipient d); IBigInt (Amount d); IBytes (Payload d)].

(** [EncodeRLP] *)
Definition tx_item (d : txdata) : item := IList (signed_items d ++ [IBigInt (tx_V d); IBigInt (tx_R d); IBigInt (tx_S d)]).

Section signing.
Context {K : Keccak} {C : Secp256k1}.

Definition signer_Hash (s : Signer) (d : txdata) : list Z :=
  match s with
  | EIP155Signer chainId => rlpHash (IList (signed_items d ++ [IBigInt chainId; IUint 0; IUint 0]))
  | _ => rlpHash (IList (signed_items d))
  end.

Definition tx_Hash (d : txdata) : list Z := rlpHash (tx_item d).

(** [copy(sig[32-len(b):32], b)] on zeroes *)
Definition padded32 (b : list Z) : txr (list Z) := if zlen b >? 32 then Panic else Ok (replicate (Z.to_nat (32 - zlen b)) 0 ++ b).

Definition recoverPlain (sighash : list Z) (R S Vb : Z) (homestead : bool) : txr (list Z) :=
  if bit_len Vb >? 8 then Err ErrInvalidSig
  else
    let V := u8 (big_Uint64 Vb - 27) in
    if negb (ValidateSignatureValues V R S homestead) then Err ErrInvalidSig
    else
      r ← padded32 (big_Bytes R);
      s ← padded32 (big_Bytes S);
      match secp_RecoverPubkey sighash (r ++ s ++ [V]) with
      | None => Err ErrRecover
      | Some pub =>
          match pub with
          | [] => Err ErrInvalidPublicKey
          | x :: key => if negb (x =? 4) then Err ErrInvalidPublicKey else Ok (drop 12 (keccak256 key))
          end
      end.

(** The method [Sender] of the signers *)
Definition signer_Sender (s : Signer) (d : txdata) : txr (list Z) :=
  match s with
  | FrontierSigner => recoverPlain (signer_Hash s d) (tx_R d) (tx_S d) (tx_V d) false
  | HomesteadSigner => recoverPlain (signer_Hash s d) (tx_R d) (tx_S d) (tx_V d) true
  | EIP155Signer chainId =>
      if negb (isProtectedV (tx_V d)) then recoverPlain (signer_Hash HomesteadSigner d) (tx_R d) (tx_S d) (tx_V d) true
      else if negb (deriveChainId (tx_V d) =? chainId) then Err ErrInvalidChainId
      else recoverPlain (signer_Hash s d) (tx_R d) (tx_S d) (tx_V d - 2 * chainId - 8) true
  end.

(** The function [Sender], which fills the cache *)
Definition Sender (s : Signer) (tx : Transaction) : txr (list Z) * Transaction :=
  let miss :=
    match signer_Sender s (tx_data tx) with
    | Ok addr => (Ok addr, MkTransaction (tx_data tx) (Some (s, addr)))
    | r => (r, tx)
    end in
  match tx_from tx with
  | Some (s', from) => if Signer_Equal s' s then (Ok from, tx) else miss
  | None => miss
  end.

(** [SignatureValues] *)
Definition SignatureValues (s : Signer) (sig : list Z) : txr (Z * Z * Z) :=
  if negb (zlen sig =? 65) then Panic
  else
    r ← slice sig 0 32;
    s' ← slice sig 32 64;
    b ← idx sig 64;
    match s with
    | EIP155Signer chainId =>
        if negb (chainId =? 0) then Ok (be_val r, be_val s', u8 (b + 35) + 2 * chainId) else Ok (be_val r, be_val s', u8 (b + 27))
    | _ => Ok (be_val r, be_val s', u8 (b + 27))
    end.

Definition with_vrs (d : txdata) (v r s : Z) : txdata :=
  MkTxdata (AccountNonce d) (Price d) (tx_GasLimit d) (Recipient d) (Amount d) (Payload d) v r s.

Definition WithSignature (tx : Transaction) (s : Signer) (sig : list Z) : txr Transaction :=
  '(r, s', v) ← SignatureValues s sig;
  Ok (MkTransaction (with_vrs (tx_data tx) v r s') None).

Definition SignTx (tx : Transaction) (s : Signer) (prv : private_key) : txr Transaction :=
  match secp_Sign (signer_Hash s (tx_data tx)) prv with
  | None => Err ErrSign
  | Some sig => WithSignature tx s sig
  end.

(** [crypto.PubkeyToAddress] *)
Definition PubkeyToAddress (prv : private_key) : list Z := BytesToAddress (drop 12 (keccak256 (drop 1 (public_key prv)))).

(** [AsMessage] *)
Definition AsMessage (tx : Transaction) (s : Signer) : txr Message * Transaction :=
  let '(from, tx) := Sender s tx in
  let d := tx_data tx in
  (match from with
   | Ok from => Ok (MkMessage from (Recipient d) (Price d) (tx_GasLimit d) (Amount d) (AccountNonce d) true (Payload d))
   | Err e => Err e
   | Panic => Panic
   end, tx).
End signing.

(** ** Recovery of what was signed *)

Section recovery.
Context {K : Keccak} {C : Secp256k1}.

Lemma padded32_spec x : 0 <= x < 2 ^ 256 -> padded32 (big_Bytes x) = Ok (be_bytes 32 x).
Proof.
  intros Hx. unfold padded32. set (b := big_Bytes x). assert (Hl : zlen b <= 32).
  { unfold b, big_Bytes, zlen. rewrite be_bytes_length. pose proof (BitLen_nonneg x).
    assert (big_BitLen x <= 256) by (unfold big_BitLen; destruct (Z.eqb_spec x 0); [lia|]; pose proof (proj1 (Z.log2_lt_pow2 x 256 ltac:(lia)) ltac:(lia)); lia).
    rewrite Z2Nat.id by (apply Z.div_pos; lia). assert ((big_BitLen x + 7) / 8 < 33) by (apply Z.div_lt_upper_bound; lia). lia. }
  rewrite Z.gtb_ltb, (proj2 (Z.ltb_ge 32 (zlen b))) by lia. f_equal. set (l := replicate _ 0 ++ b).
  assert (Hlen : length l = 32%nat) by (unfold l; rewrite length_app, length_replicate; unfold zlen in *; lia).
  rewrite <- Hlen, <- (big_Bytes_val x) at 1 by lia. fold b. rewrite <- (be_val_zeros (Z.to_nat (32 - zlen b)) b). fold l. symmetry. apply be_bytes_val.
  apply Forall_app. split; [apply Forall_replicate; unfold is_byte; lia|apply be_bytes_ok].
Qed.

(** A signature that the curve produced. *)
Definition good_sig (sig : list Z) (r s v : Z) : Prop :=
  sig = be_bytes 32 r ++ be_bytes 32 s ++ [v] /\ 1 <= r < secp256k1N /\ 1 <= s <= secp256k1halfN /\ (v = 0 \/ v = 1).

Lemma good_range sig r s v : good_sig sig r s v -> 0 <= r < 2 ^ 256 /\ 0 <= s < 2 ^ 256 /\ s < secp256k1N.
Proof. intros (_ & Hr & Hs & _). assert (secp256k1N < 2 ^ 256 /\ 2 * secp256k1halfN < secp256k1N) as [H1 H2] by done. lia. Qed.

Definition v_of (signer : Signer) (v : Z) : Z := match signer with EIP155Signer c => if c =? 0 then v + 27 else v + 35 + 2 * c | _ => v + 27 end.

Lemma SignatureValues_good signer sig r s v : good_sig sig r s v -> SignatureValues signer sig = Ok (r, s, v_of signer v).
Proof.
  intros Hg. destruct (good_range _ _ _ _ Hg) as (Hr & Hs & _). destruct Hg as (-> & _ & _ & Hv). unfold SignatureValues.
  assert (Hl : forall x, zlen (be_bytes 32 x) = 32) by (intros x; apply zlen_be_bytes).
  rewrite !zlen_app, !Hl. simpl negb. cbv iota.
  pose proof (slice_app (E := tx_error) [] (be_bytes 32 r) (be_bytes 32 s ++ [v])) as E1. pose proof (slice_app (E := tx_error) (be_bytes 32 r) (be_bytes 32 s) [v]) as E2.
  pose proof (idx_app (E := tx_error) (be_bytes 32 r ++ be_bytes 32 s) v []) as E3. rewrite <- (app_assoc (be_bytes 32 r)) in E3.
  rewrite zlen_app, (Hl r), (Hl s) in E3. rewrite (Hl r), (Hl s) in E2. rewrite (Hl r) in E1. change (zlen (A := Z) []) with 0 in E1. rewrite app_nil_l in E1.
  change (0 + 32) with 32 in E1. change (32 + 32) with 64 in E2, E3.
  rewrite E1, E2, E3. bind_simpl. rewrite !be_val_bytes by done. assert (H27 : u8 (v + 27) = v + 27) by (by destruct Hv as [->| ->]).
  assert (H35 : u8 (v + 35) = v + 35) by (by destruct Hv as [->| ->]). rewrite H27, H35. unfold v_of. destruct signer as [| |c]; [done..|]. by destruct (c =? 0).
Qed.

Lemma recoverPlain_good digest prv sig r s v Vb homestead :
  secp_Sign digest prv = Some sig -> good_sig sig r s v -> Vb = v + 27 -> recoverPlain digest r s Vb homestead = Ok (PubkeyToAddress prv).
Proof.
  intros Hsign Hg ->. destruct (good_range _ _ _ _ Hg) as (Hr & Hs & HsN). pose proof Hg as (Esig & Hr1 & Hs1 & Hv). unfold recoverPlain.
  assert (HV : (bit_len (v + 27) >? 8) = false /\ u8 (big_Uint64 (v + 27) - 27) = v) by (by destruct Hv as [->| ->]). destruct HV as [-> ->].
  assert (Hval : ValidateSignatureValues v r s homestead = true).
  { unfold ValidateSignatureValues. rewrite (proj2 (Z.ltb_ge r 1)), (proj2 (Z.ltb_ge s 1)) by lia. simpl orb.
    rewrite (proj2 (Z.ltb_ge secp256k1halfN s)), andb_false_r by lia. rewrite (proj2 (Z.ltb_lt r _)), (proj2 (Z.ltb_lt s _)) by lia. by destruct Hv as [->| ->]. }
  rewrite Hval. simpl negb. cbv iota. rewrite !padded32_spec by done. bind_simpl. rewrite <- Esig, (secp_Sign_recovers _ _ _ Hsign).
  unfold PubkeyToAddress. destruct (public_key_format prv) as (xy & -> & _). simpl. f_equal. change (drop 0 xy) with xy.
  pose proof (keccak_len xy) as Hk. unfold BytesToAddress. assert (Hz : zlen (drop 12 (keccak256 xy)) = 20) by (unfold zlen in *; rewrite length_drop; lia).
  rewrite Hz. cbv zeta iota. change (20 >? 20) with false. cbv iota. by rewrite Hz.
Qed.

Lemma bit_len_lt x n : 0 < x -> 0 <= n -> bit_len x <= n -> x < 2 ^ n.
Proof.
  intros Hx Hn Hb. unfold bit_len in Hb. rewrite (proj2 (Z.eqb_neq x 0)), Z.abs_eq in Hb by lia. apply Z.log2_lt_pow2; lia.
Qed.

(** The values of V that protected signatures have. *)
Lemma protected_V c v : 0 < c -> v = 0 \/ v = 1 -> isProtectedV (v + 35 + 2 * c) = true /\ deriveChainId (v + 35 + 2 * c) = c.
Proof.
  intros Hc Hv. set (V := v + 35 + 2 * c). assert (HV : 37 <= V) by (unfold V; lia). unfold isProtectedV, deriveChainId, big_Uint64. rewrite Z.abs_eq by lia.
  assert (Hd : (V - 35) / 2 = c).
  { replace (V - 35) with (c * 2 + v) by (unfold V; lia). rewrite Z.div_add_l by lia. rewrite (Z.div_small v 2) by lia. lia. }
  split.
  - destruct (Z.leb_spec (bit_len V) 8) as [H8|]; [|done]. assert (V < 2 ^ 64) by (pose proof (bit_len_lt V 8 ltac:(lia) ltac:(lia) H8); lia). rewrite u64_small by lia.
    rewrite (proj2 (Z.eqb_neq V 27)), (proj2 (Z.eqb_neq V 28)) by lia. done.
  - destruct (Z.leb_spec (bit_len V) 64) as [H64|]; [|done]. pose proof (bit_len_lt V 64 ltac:(lia) ltac:(lia) H64). rewrite !u64_small by lia.
    rewrite (proj2 (Z.eqb_neq V 27)), (proj2 (Z.eqb_neq V 28)) by lia. done.
Qed.

Lemma SignTx_good tx signer prv tx' :
  SignTx tx signer prv = Ok tx' ->
  exists sig r s v, secp_Sign (signer_Hash signer (tx_data tx)) prv = Some sig /\ good_sig sig r s v /\ tx' = MkTransaction (with_vrs (tx_data tx) (v_of signer v) r s) None.
Proof.
  unfold SignTx. destruct (secp_Sign _ prv) as [sig|] eqn:Hs; [|done]. destruct (secp_Sign_format _ _ _ Hs) as (r & s & v & Hg).
  unfold WithSignature. rewrite (SignatureValues_good signer sig r s v Hg). bind_simpl. intros [= <-]. by exists sig, r, s, v.
Qed.

Lemma SignTx_defined tx signer prv sig : secp_Sign (signer_Hash signer (tx_data tx)) prv = Some sig -> exists tx', SignTx tx signer prv = Ok tx'.
Proof.
  intros Hs. unfold SignTx. rewrite Hs. destruct (secp_Sign_format _ _ _ Hs) as (r & s & v & Hg). unfold WithSignature. rewrite (SignatureValues_good signer sig r s v Hg).
  bind_simpl. by eexists.
Qed.

Definition signer_ok (signer : Signer) : Prop := match signer with EIP155Signer c => 0 < c | _ => True end.

(** C27. What was signed is recovered: whenever the curve signs the hash of a
    transaction, the signed transaction has the same contents, and every signer
    recovers from it the address of the key, for chain ids of any size but
    zero.  With chain id zero the signature covers the chain id, but the sender
    is recovered from the hash without it. *)
Theorem SignTx_Sender (tx : Transaction) (signer : Signer) (prv : private_key) (sig : list Z) :
  secp_Sign (signer_Hash signer (tx_data tx)) prv = Some sig ->
  exists tx', SignTx tx signer prv = Ok tx' /\ signed_items (tx_data tx') = signed_items (tx_data tx) /\
    (signer_ok signer -> (Sender signer tx').1 = Ok (PubkeyToAddress prv)) /\
    (signer = EIP155Signer 0 -> (Sender signer tx').1 = signer_Sender HomesteadSigner (tx_data tx')).
Proof.
  intros Hs. destruct (SignTx_defined tx signer prv sig Hs) as [tx' Htx]. exists tx'. split; [done|].
  destruct (SignTx_good tx signer prv tx' Htx) as (sig' & r & s & v & Hs' & Hg & ->). split; [done|]. pose proof Hg as (_ & _ & _ & Hv).
  assert (H1 : forall d, (Sender signer (MkTransaction d None)).1 = signer_Sender signer d) by (intros d; unfold Sender; simpl; by destruct (signer_Sender signer d)).
  rewrite H1. split.
  - intros Hok. destruct signer as [| |c]; simpl.
    + by eapply recoverPlain_good.
    + by eapply recoverPlain_good.
    + simpl in Hok. rewrite (proj2 (Z.eqb_neq c 0)) by lia. destruct (protected_V c v Hok Hv) as [-> ->]. rewrite Z.eqb_refl. simpl negb. cbv iota.
      eapply (recoverPlain_good _ _ _ _ _ v); [exact Hs'|done|lia].
  - intros ->. simpl. by destruct Hv as [->| ->].
Qed.

Lemma recoverPlain_protected digest R S c v homestead : 0 < c -> v = 0 \/ v = 1 -> recoverPlain digest R S (v + 35 + 2 * c) homestead = Err ErrInvalidSig.
Proof.
  intros Hc Hv. unfold recoverPlain. set (V := v + 35 + 2 * c). assert (HV : 37 <= V) by (unfold V; lia). rewrite Z.gtb_ltb.
  destruct (Z.ltb_spec 8 (bit_len V)) as [|H8]; [done|]. pose proof (bit_len_lt V 8 ltac:(lia) ltac:(lia) H8). unfold big_Uint64. rewrite Z.abs_eq, u64_small by lia.
  rewrite u8_small by (unfold is_byte; lia). unfold ValidateSignatureValues. rewrite (proj2 (Z.eqb_neq (V - 27) 0)), (proj2 (Z.eqb_neq (V - 27) 1)), andb_false_r by lia.
  destruct ((R <? 1) || (S <? 1)); [done|]. by destruct (homestead && (secp256k1halfN <? S)).
Qed.

(** *** The signed hash determines the contents *)

Definition txdata_ok (d : txdata) : Prop :=
  is_u64 (AccountNonce d) /\ 0 <= Price d /\ is_u64 (tx_GasLimit d) /\ (forall a, Recipient d = Some a -> length a = 20%nat /\ bytes_ok a) /\ 0 <= Amount d /\
  bytes_ok (Payload d).

Definition eip155_item (c : Z) (d : txdata) : item := IList (signed_items d ++ [IBigInt c; IUint 0; IUint 0]).

Definition eip155_ty : ty :=
  TStruct [TUint 64; TBigInt; TUint 64; TNilPtr String (TByteArray 20); TBigInt; TBytes; TBigInt; TUint 64; TUint 64] None.

Lemma recipient_has_type to : (forall a, to = Some a -> length a = 20%nat /\ bytes_ok a) -> has_type (TNilPtr String (TByteArray 20)) (recipient_item to).
Proof.
  intros H. destruct to as [a|]; [right|by left]. destruct (H a eq_refl) as [Hl Hb]. split; [by exists a|].
  cbn [recipient_item rlp_spec]. assert (Hz : 20 <= zlen (string_spec a)); [|by split; intros E; rewrite E in Hz; vm_compute in Hz].
  pose proof (zlen_string_large a). assert (zlen a = 20) by (unfold zlen; by rewrite Hl). lia.
Qed.

Lemma eip155_has_type c d : 0 <= c -> txdata_ok d -> has_type eip155_ty (eip155_item c d).
Proof.
  intros Hc (Hn & Hp & Hg & Hr & Ha & Hb). eexists. split; [reflexivity|]. eexists _, []. rewrite app_nil_r. split; [reflexivity|]. split; [|done]. unfold is_u64 in *.
  do 3 (constructor; [eexists; split; [reflexivity|]; done|]). constructor; [by apply recipient_has_type|]. repeat (constructor; [eexists; split; [reflexivity|]; done|]). constructor.
Qed.

Lemma signer_Hash_inj c c' d d' :
  0 <= c -> 0 <= c' -> txdata_ok d -> txdata_ok d' -> zlen (rlp_spec (eip155_item c d)) < 2 ^ 47 -> zlen (rlp_spec (eip155_item c' d')) < 2 ^ 47 ->
  (keccak256 (rlp_spec (eip155_item c d)) = keccak256 (rlp_spec (eip155_item c' d')) -> rlp_spec (eip155_item c d) = rlp_spec (eip155_item c' d')) ->
  signer_Hash (EIP155Signer c) d = signer_Hash (EIP155Signer c') d' -> signed_items d = signed_items d' /\ c = c'.
Proof.
  intros Hc Hc' Hd Hd' Hz Hz' Hk. pose proof (eip155_has_type c d Hc Hd) as Ht. pose proof (eip155_has_type c' d' Hc' Hd') as Ht'.
  destruct (has_type_ok eip155_ty _ ltac:(done) Ht) as [Hok Hnn]. destruct (has_type_ok eip155_ty _ ltac:(done) Ht') as [Hok' Hnn'].
  cbn [signer_Hash]. fold (eip155_item c d) (eip155_item c' d'). unfold rlpHash. rewrite !Encode_new by (done || lia). rewrite Hnn, Hnn'. intros He.
  pose proof (rlp_typed_inj eip155_ty _ _ ltac:(done) Ht Ht' Hz (Hk He)) as Hi. apply (f_equal (fun it => match it with IList l => l | _ => [] end)) in Hi. cbv beta iota delta [eip155_item] in Hi.
  apply app_inj_2 in Hi as [H1 [= H2]]; [|done]. done.
Qed.

(** C28. A transaction that was signed for a chain counts on no other: the
    signers of the other chains refuse it as such, the signers from before
    EIP 155 refuse its signature, and the hash that was signed is that of no
    other contents and no other chain, unless the hash function has a collision
    there.  A signature from before EIP 155 counts on every chain. *)
Theorem EIP155_replay (tx : Transaction) (c : Z) (prv : private_key) (tx' : Transaction) :
  0 < c -> SignTx tx (EIP155Signer c) prv = Ok tx' ->
  (forall c', c' <> c -> signer_Sender (EIP155Signer c') (tx_data tx') = Err ErrInvalidChainId) /\
  signer_Sender HomesteadSigner (tx_data tx') = Err ErrInvalidSig /\ signer_Sender FrontierSigner (tx_data tx') = Err ErrInvalidSig /\
  (forall c' d, 0 <= c' -> txdata_ok (tx_data tx') -> txdata_ok d ->
     zlen (rlp_spec (eip155_item c (tx_data tx'))) < 2 ^ 47 -> zlen (rlp_spec (eip155_item c' d)) < 2 ^ 47 ->
     (keccak256 (rlp_spec (eip155_item c (tx_data tx'))) = keccak256 (rlp_spec (eip155_item c' d)) -> rlp_spec (eip155_item c (tx_data tx')) = rlp_spec (eip155_item c' d)) ->
     signer_Hash (EIP155Signer c) (tx_data tx') = signer_Hash (EIP155Signer c') d -> signed_items (tx_data tx') = signed_items d /\ c = c') /\
  (forall txh c', SignTx tx HomesteadSigner prv = Ok txh -> signer_Sender (EIP155Signer c') (tx_data txh) = Ok (PubkeyToAddress prv)).
Proof.
  intros Hc Htx. destruct (SignTx_good _ _ _ _ Htx) as (sig & r & s & v & Hs & Hg & ->). pose proof Hg as (_ & _ & _ & Hv).
  simpl tx_data. cbn [v_of]. rewrite (proj2 (Z.eqb_neq c 0)) by lia. destruct (protected_V c v Hc Hv) as [HP HD]. split_and!.
  - intros c' Hne. cbn [signer_Sender with_vrs tx_V]. rewrite HP, HD, (proj2 (Z.eqb_neq c c')) by done. done.
  - by apply recoverPlain_protected.
  - by apply recoverPlain_protected.
  - intros c' d Hc'. apply signer_Hash_inj; lia.
  - intros txh c' Hh. destruct (SignTx_good _ _ _ _ Hh) as (sig' & r' & s' & v' & Hs' & Hg' & ->). pose proof Hg' as (_ & _ & _ & Hv').
    cbn [signer_Sender with_vrs tx_V tx_data v_of]. assert (HN : isProtectedV (v' + 27) = false) by (by destruct Hv' as [->| ->]). rewrite HN. simpl negb. cbv iota.
    by eapply recoverPlain_good.
Qed.

(** *** The cache *)

Lemma Signer_Equal_spec s s' : Signer_Equal s s' = true <-> s = s'.
Proof.
  split; [|intros ->; destruct s'; [done..|apply Z.eqb_refl]]. destruct s, s'; simpl; try done. by intros ->%Z.eqb_eq.
Qed.

Definition cache_ok (tx : Transaction) : Prop := forall s a, tx_from tx = Some (s, a) -> signer_Sender s (tx_data tx) = Ok a.

Lemma Sender_cached s tx : cache_ok tx -> (Sender s tx).1 = signer_Sender s (tx_data tx) /\ cache_ok (Sender s tx).2 /\ tx_data (Sender s tx).2 = tx_data tx.
Proof.
  intros Hc. unfold Sender. set (miss := match signer_Sender s (tx_data tx) with Ok _ => _ | _ => _ end).
  assert (Hm : miss.1 = signer_Sender s (tx_data tx) /\ cache_ok miss.2 /\ tx_data miss.2 = tx_data tx).
  { unfold miss. destruct (signer_Sender s (tx_data tx)) as [a| |] eqn:E; [|done..]. split; [done|]. split; [|done]. by intros s' a' [= <- <-]. }
  destruct (tx_from tx) as [[s' from]|] eqn:E; [|done]. destruct (Signer_Equal s' s) eqn:Eq; [|done]. apply Signer_Equal_spec in Eq as ->.
  split; [|done]. symmetry. by apply Hc.
Qed.
End recovery.

(** ** Examples *)

Module TxExamples.
#[local] Existing Instance toy_keccak.

(** A curve that writes the key into the signature. *)
Definition toy_sign (k : Z) : list Z := be_bytes 32 (1 + k mod 2 ^ 64) ++ be_bytes 32 1 ++ [0].
Definition toy_public (k : Z) : list Z := 4 :: be_bytes 64 (k mod 2 ^ 64).
Definition toy_recover (sig : list Z) : list Z := 4 :: be_bytes 64 (be_val (take 32 sig) - 1).

Lemma toy_public_format k : exists xy, toy_public k = 4 :: xy /\ zlen xy = 64.
Proof. eexists. split; [done|]. apply zlen_be_bytes. Qed.

Lemma toy_sign_format (digest : list Z) k sig : Some (toy_sign k) = Some sig ->
  exists r s v, sig = be_bytes 32 r ++ be_bytes 32 s ++ [v] /\ 1 <= r < secp256k1N /\ 1 <= s <= secp256k1halfN /\ (v = 0 \/ v = 1).
Proof.
  intros [= <-]. pose proof (Z.mod_pos_bound k (2 ^ 64) ltac:(lia)). assert (2 ^ 64 + 1 < secp256k1N /\ 1 <= secp256k1halfN) as [H1 H2] by done.
  exists (1 + k mod 2 ^ 64), 1, 0. split; [done|]. split; [lia|]. split; [lia|]. by left.
Qed.

Lemma toy_sign_recovers (digest : list Z) k sig : Some (toy_sign k) = Some sig -> Some (toy_recover sig) = Some (toy_public k).
Proof.
  intros [= <-]. pose proof (Z.mod_pos_bound k (2 ^ 64) ltac:(lia)). unfold toy_recover, toy_sign. rewrite take_app_length' by (by rewrite be_bytes_length).
  rewrite be_val_bytes by lia. by replace (1 + k mod 2 ^ 64 - 1) with (k mod 2 ^ 64) by lia.
Qed.

#[export] Instance toy_curve : Secp256k1 := {|
  private_key := Z;
  public_key := toy_public;
  secp_Sign _ k := Some (toy_sign k);
  secp_RecoverPubkey _ sig := Some (toy_recover sig);
  public_key_format := toy_public_format;
  secp_Sign_format := toy_sign_format;
  secp_Sign_recovers := toy_sign_recovers;
|}.

Definition sample_tx : Transaction := MkTransaction (MkTxdata 3 20 21000 (Some (replicate 20 7)) 1000 [1; 2; 3] 0 0 0) None.
Definition sample_key : private_key := 123456789.
Definition sample_sig : list Z := toy_sign 123456789.

(** A chain id of more than 64 bits. *)
Lemma SignTx_Sender_witness :
  exists tx', SignTx sample_tx (EIP155Signer (2 ^ 70)) sample_key = Ok tx' /\ (Sender (EIP155Signer (2 ^ 70)) tx').1 = Ok (PubkeyToAddress sample_key).
Proof.
  destruct (SignTx_Sender sample_tx (EIP155Signer (2 ^ 70)) sample_key sample_sig) as (tx' & H & _ & Hs & _); [vm_compute; reflexivity|].
  exists tx'. split; [exact H|]. apply Hs. simpl. lia.
Defined.

Definition signed61 : Transaction := match SignTx sample_tx (EIP155Signer 61) sample_key with Ok tx => tx | _ => sample_tx end.

Lemma EIP155_replay_witness : signer_Sender (EIP155Signer 1) (tx_data signed61) = Err ErrInvalidChainId.
Proof. apply (EIP155_replay sample_tx 61 sample_key signed61); [lia|vm_compute; reflexivity|lia]. Defined.
End TxExamples.
