(* ===== verification/Receipts.v ===== *)
(** * Receipts and their blooms (src/core/types/receipt.go, bloom9.go, log.go)

    The receipt of a transaction, its encoding, and the filter over the
    addresses and topics of its logs.  The file shows that the filter of a
    block finds everything that was logged in it, and that the encoding of the
    status is read back. *)
From stdpp Require Import prelude list gmap.
From Stdlib Require Import ZArith Lia.
From S2P Require Import Prelude RlpEncode TrieEncoding Trie TrieNode TrieHash StateDB.

(** ** Data *)

Record Receipt := MkReceipt {
  PostState : list Z;
  Status : Z;
  CumulativeGasUsed : Z;
  Bloom : list Z;
  Logs : list Log;
  rc_TxHash : list Z;
  ContractAddress : list Z;
  rc_GasUsed : Z;
  rc_BlockHash : list Z;
  rc_BlockNumber : Z;
  TransactionIndex : Z;
}.

Definition ReceiptStatusFailed : Z := 0.
Definition ReceiptStatusSuccessful : Z := 1.

(** [NewReceipt] *)
Definition NewReceipt (root : list Z) (failed : bool) (cumulativeGasUsed : Z) : Receipt :=
  MkReceipt root (if failed then ReceiptStatusFailed else ReceiptStatusSuccessful) cumulativeGasUsed (replicate 256 0) [] (replicate 32 0) (replicate 20 0) 0
    (replicate 32 0) 0 0.

Definition statusEncoding (r : Receipt) : list Z :=
  if zlen (PostState r) =? 0 then if Status r =? ReceiptStatusFailed then [] else [1] else PostState r.

(** The post state and the status after [setStatus] *)
Definition setStatus (r : Receipt) (postStateOrStatus : list Z) : option (list Z * Z) :=
  if decide (postStateOrStatus = [1]) then Some (PostState r, ReceiptStatusSuccessful)
  else if decide (postStateOrStatus = []) then Some (PostState r, ReceiptStatusFailed)
  else if zlen postStateOrStatus =? 32 then Some (postStateOrStatus, Status r)
  else None.

(** [EncodeRLP] of logs and receipts *)
Definition log_item (l : Log) : item :=
  IList [IByteArray (log_Address (log_body l)); IList (map IByteArray (log_Topics (log_body l))); IBytes (log_Data (log_body l))].
Definition receipt_item (r : Receipt) : item :=
  IList [IBytes (statusEncoding r); IUint (CumulativeGasUsed r); IByteArray (Bloom r); IList (map log_item (Logs r))].

(** [GetRlp] *)
Definition receipt_GetRlp (r : Receipt) : go (list Z) := match EncodeToBytes (receipt_item r) new_encbuf with Ok b => Ok b | _ => Panic end.

(** ** Blooms *)

Section bloom.
Context {K : Keccak}.

(** A byte to change and the bit to set in it, from two bytes of the hash. *)
Definition bloom_position (hi lo : Z) : Z * Z :=
  (256 - Z.shiftr (Z.land (hi * 256 + lo) 0x7ff) 3 - 1, u8 (Z.shiftl 1 (Z.land lo 7))).

Definition bloomValues (data : list Z) : go (list (Z * Z)) :=
  hashbuf ← slice (keccak256 data) 0 6;
  h0 ← idx hashbuf 0; h1 ← idx hashbuf 1; h2 ← idx hashbuf 2; h3 ← idx hashbuf 3; h4 ← idx hashbuf 4; h5 ← idx hashbuf 5;
  Ok [bloom_position h0 h1; bloom_position h2 h3; bloom_position h4 h5].

(** [b[i] |= v] *)
Definition or_byte (b : list Z) (p : Z * Z) : go (list Z) := x ← idx b p.1; upd b p.1 (Z.lor x p.2).

Fixpoint or_bytes (b : list Z) (ps : list (Z * Z)) : go (list Z) :=
  match ps with [] => Ok b | p :: ps => b ← or_byte b p; or_bytes b ps end.

(** [add] *)
Definition bloom_add (b : list Z) (d : list Z) : go (list Z) := ps ← bloomValues d; or_bytes b ps.

Fixpoint test_bytes (b : list Z) (ps : list (Z * Z)) : go bool :=
  match ps with [] => Ok true | p :: ps => x ← idx b p.1; if p.2 =? Z.land p.2 x then test_bytes b ps else Ok false end.

(** [Test], [BloomLookup] *)
Definition bloom_Test (b topic : list Z) : go bool := ps ← bloomValues topic; test_bytes b ps.

Fixpoint add_all (b : list Z) (ds : list (list Z)) : go (list Z) :=
  match ds with [] => Ok b | d :: ds => b ← bloom_add b d; add_all b ds end.

(** What a log puts into the filter. *)
Definition log_entries (l : Log) : list (list Z) := log_Address (log_body l) :: log_Topics (log_body l).

Definition LogsBloom (logs : list Log) : go (list Z) := add_all (replicate 256 0) (logs ≫= log_entries).

Definition CreateBloom (receipts : list Receipt) : go (list Z) := add_all (replicate 256 0) (receipts ≫= fun r => Logs r ≫= log_entries).

(** ** What the filter finds *)

Definition position_ok (p : Z * Z) : Prop := 0 <= p.1 < 256 /\ 0 <= p.2.

Lemma bloom_position_ok hi lo : 0 <= hi -> 0 <= lo -> position_ok (bloom_position hi lo).
Proof.
  intros Hh Hl. split; cbn [fst snd bloom_position]; [|pose proof (u8_byte (Z.shiftl 1 (Z.land lo 7))) as H8; unfold is_byte in H8; lia].
  change 0x7ff with (Z.ones 11). rewrite Z.land_ones by lia. rewrite Z.shiftr_div_pow2 by lia. pose proof (Z.mod_pos_bound (hi * 256 + lo) (2 ^ 11) ltac:(lia)).
  pose proof (Z.div_pos ((hi * 256 + lo) mod 2 ^ 11) (2 ^ 3) ltac:(lia) ltac:(lia)).
  assert ((hi * 256 + lo) mod 2 ^ 11 / 2 ^ 3 < 256) by (apply Z.div_lt_upper_bound; lia). lia.
Qed.

Lemma bloomValues_ok d : exists ps, bloomValues d = Ok ps /\ Forall position_ok ps.
Proof.
  pose proof (keccak_len d) as Hl. pose proof (keccak_bytes d) as Hb. unfold bloomValues. set (h := keccak256 d) in *. clearbody h. unfold zlen in Hl.
  destruct h as [|h0 [|h1 [|h2 [|h3 [|h4 [|h5 r]]]]]]; try (simpl in Hl; lia).
  assert (E : @slice Empty_set _ (h0 :: h1 :: h2 :: h3 :: h4 :: h5 :: r) 0 6 = Ok [h0; h1; h2; h3; h4; h5]) by (apply slice_Ok; unfold zlen; simpl length; split; [lia|]; split; [lia|done]).
  rewrite E. bind_simpl. cbn. eexists. split; [reflexivity|]. rewrite !Forall_cons in Hb. unfold is_byte in Hb.
  repeat constructor; apply bloom_position_ok; lia.
Qed.

(** [b'] has at least the bits of [b]. *)
Definition covers (b b' : list Z) : Prop := length b' = length b /\ forall i x, b !! i = Some x -> exists x', b' !! i = Some x' /\ Z.land x' x = x.

Lemma covers_refl b : covers b b.
Proof. split; [done|]. intros i x Hx. exists x. split; [done|apply Z.land_diag]. Qed.

Lemma covers_trans a b c : covers a b -> covers b c -> covers a c.
Proof.
  intros [Hl Hab] [Hl' Hbc]. split; [congruence|]. intros i x Hx. destruct (Hab i x Hx) as (y & Hy & Exy). destruct (Hbc i y Hy) as (z & Hz & Eyz).
  exists z. split; [done|]. rewrite <- Exy at 1. by rewrite Z.land_assoc, Eyz.
Qed.

Lemma lor_covers x y : Z.land (Z.lor x y) x = x /\ Z.land (Z.lor x y) y = y.
Proof. split; apply Z.bits_inj'; intros n _; rewrite Z.land_spec, Z.lor_spec; by destruct (Z.testbit x n), (Z.testbit y n). Qed.

Lemma or_byte_ok b p : length b = 256%nat -> position_ok p ->
  exists b' x', or_byte b p = Ok b' /\ covers b b' /\ b' !! Z.to_nat p.1 = Some x' /\ Z.land x' p.2 = p.2.
Proof.
  intros Hl [Hp _]. unfold or_byte. destruct (idx_in_range (E := Empty_set) b p.1) as [x Hx]; [unfold zlen; lia|]. rewrite Hx. bind_simpl.
  apply idx_Ok in Hx as [_ Hx]. unfold upd. rewrite (proj2 (Z.leb_le 0 p.1)), (proj2 (Z.ltb_lt p.1 (zlen b))) by (unfold zlen; lia). simpl.
  assert (Hn : (Z.to_nat p.1 < length b)%nat) by lia.
  exists (<[Z.to_nat p.1 := Z.lor x p.2]> b), (Z.lor x p.2). split; [done|]. split; [|split; [by apply list_lookup_insert_eq|apply lor_covers]].
  split; [apply length_insert|]. intros i y Hy. destruct (decide (i = Z.to_nat p.1)) as [->|Hne].
  - exists (Z.lor x p.2). split; [by apply list_lookup_insert_eq|]. assert (y = x) as -> by congruence. apply lor_covers.
  - exists y. split; [by rewrite list_lookup_insert_ne|apply Z.land_diag].
Qed.

(** A filter that has all the bits of the positions. *)
Definition has_bits (b : list Z) (ps : list (Z * Z)) : Prop := Forall (fun p => exists x, b !! Z.to_nat p.1 = Some x /\ Z.land x p.2 = p.2) ps.

Lemma has_bits_covers b b' ps : covers b b' -> has_bits b ps -> has_bits b' ps.
Proof.
  intros [_ Hc] Hb. eapply Forall_impl; [exact Hb|]. intros p (x & Hx & Ex). destruct (Hc _ _ Hx) as (x' & Hx' & Ex'). exists x'. split; [done|].
  rewrite <- Ex at 1. by rewrite Z.land_assoc, Ex'.
Qed.

Lemma or_bytes_ok b ps : length b = 256%nat -> Forall position_ok ps -> exists b', or_bytes b ps = Ok b' /\ covers b b' /\ has_bits b' ps.
Proof.
  intros Hl Hp. revert b Hl. induction Hp as [|p ps Hp _ IH]; intros b Hl; simpl.
  - exists b. split; [done|]. split; [apply covers_refl|constructor].
  - destruct (or_byte_ok b p Hl Hp) as (b1 & x & -> & Hc & Hx & Ex). bind_simpl. destruct (IH b1) as (b2 & Hr & Hc2 & Hb2); [destruct Hc; congruence|].
    exists b2. split; [done|]. split; [by eapply covers_trans|]. constructor; [|done].
    assert (Hh : has_bits b2 [p]) by (eapply has_bits_covers; [exact Hc2|]; constructor; [by exists x|constructor]). by inversion Hh.
Qed.

Lemma test_bytes_ok b ps : Forall position_ok ps -> has_bits b ps -> test_bytes b ps = Ok true.
Proof.
  induction ps as [|p ps IH]; intros Hp Hb; [done|]. apply Forall_cons in Hp as [[Hp _] Hps]. apply Forall_cons in Hb as [(x & Hx & Ex) Hb]. simpl.
  assert (E : @idx Empty_set _ b p.1 = Ok x) by (apply idx_Ok; split; [lia|done]). rewrite E. bind_simpl. rewrite Z.land_comm, Ex, Z.eqb_refl. by apply IH.
Qed.

Lemma add_all_ok b ds :
  length b = 256%nat -> exists b', add_all b ds = Ok b' /\ covers b b' /\ Forall (fun d => exists ps, bloomValues d = Ok ps /\ Forall position_ok ps /\ has_bits b' ps) ds.
Proof.
  revert b. induction ds as [|d ds IH]; intros b Hl; simpl.
  - exists b. split; [done|]. split; [apply covers_refl|constructor].
  - unfold bloom_add. destruct (bloomValues_ok d) as (ps & Hps & Hok). rewrite Hps. bind_simpl. destruct (or_bytes_ok b ps Hl Hok) as (b1 & -> & Hc & Hb). bind_simpl.
    destruct (IH b1) as (b2 & Hr & Hc2 & Hall); [destruct Hc; congruence|]. exists b2. split; [done|]. split; [by eapply covers_trans|]. constructor; [|done].
    exists ps. split; [done|]. split; [done|]. by eapply has_bits_covers.
Qed.

(** C35. The filter of a block has no false negatives: [CreateBloom] does not
    panic, it is the filter of all logs, and it finds the address and every
    topic of every log of every receipt. *)
Theorem CreateBloom_complete (receipts : list Receipt) :
  exists b, CreateBloom receipts = Ok b /\ zlen b = 256 /\ LogsBloom (receipts ≫= Logs) = Ok b /\
    forall r l d, r ∈ receipts -> l ∈ Logs r -> d ∈ log_entries l -> bloom_Test b d = Ok true.
Proof.
  unfold CreateBloom, LogsBloom. destruct (add_all_ok (replicate 256 0) (receipts ≫= fun r => Logs r ≫= log_entries)) as (b & Hb & [Hl _] & Hall); [done|].
  exists b. split; [done|]. split; [unfold zlen; rewrite Hl; done|]. split.
  - rewrite <- Hb. f_equal. clear. induction receipts as [|r rs IH]; [done|].
    change ((r :: rs) ≫= Logs) with (Logs r ++ (rs ≫= Logs)). by rewrite bind_app, IH.
  - intros r l d Hr Hlg Hd. rewrite Forall_forall in Hall. destruct (Hall d) as (ps & Hps & Hok & Hbits).
    + apply list_elem_of_bind. exists r. split; [|done]. apply list_elem_of_bind. by exists l.
    + unfold bloom_Test. rewrite Hps. bind_simpl. by apply test_bytes_ok.
Qed.

(** The status is read back: a receipt has a post state of 32 bytes, or none
    and a status. *)
Lemma statusEncoding_setStatus r :
  (PostState r = [] /\ (Status r = 0 \/ Status r = 1)) \/ zlen (PostState r) = 32 ->
  setStatus (NewReceipt [] (Status r =? 0) 0) (statusEncoding r) = Some (PostState r, if zlen (PostState r) =? 0 then Status r else if Status r =? 0 then 0 else 1).
Proof.
  intros [[Hp Hs]|Hp]; unfold statusEncoding, setStatus; [rewrite Hp; simpl|].
  - by destruct Hs as [->| ->].
  - rewrite Hp. simpl. destruct (decide (PostState r = [1])) as [E|_]; [by rewrite E in Hp|]. destruct (decide (PostState r = [])) as [E|_]; [by rewrite E in Hp|].
    rewrite Hp. simpl. by destruct (Status r =? 0).
Qed.
End bloom.

(** ** An example *)

Module ReceiptExamples.
Definition sample_log : Log := MkLog (MkLogBody (replicate 20 1) [replicate 32 2] [3] 7) (replicate 32 0) (replicate 32 0) 0 0.
Definition sample_receipt : Receipt :=
  MkReceipt [] 1 21000 (replicate 256 0) [sample_log] (replicate 32 0) (replicate 20 0) 21000 (replicate 32 0) 7 0.

Lemma CreateBloom_complete_witness :
  exists b, CreateBloom (K := toy_keccak) [sample_receipt] = Ok b /\ bloom_Test (K := toy_keccak) b (replicate 32 2) = Ok true.
Proof.
  destruct (CreateBloom_complete (K := toy_keccak) [sample_receipt]) as (b & Hb & _ & _ & Hf). exists b. split; [exact Hb|].
  apply (Hf sample_receipt sample_log); [left|left|right; left].
Defined.
End ReceiptExamples.
