(* ===== verification/Blocks.v ===== *)
(** * Blocks (src/core/state_processor.go, block_validator.go, evm.go)

    A block is executed transaction by transaction on the state, with one pool
    of gas, and its rewards are added; what comes out is compared with its
    header.  The file shows that the gas is accounted for, that the header
    commits to the body, and that the cache of block hashes is invisible.  The
    state is an interface, which [StateDB] implements. *)
From stdpp Require Import prelude list gmap.
From Stdlib Require Import ZArith Lia.
From S2P Require Import Prelude RlpEncode RlpRaw RlpStream TrieEncoding Trie TrieNode TrieHash StackTrie DeriveSha Header StateDB StateRevert StateRoot.
From S2P Require Import Digests Hashimoto VmBase VmCode Vm VmWp VmOps VmTables VmSafe StateTransition Ethash VmNatives VmStateDB Transactions Receipts.

(** ** Interface: the state between transactions *)

Class BlockState (S : Type) := {
  bs_SetBalance : S -> address_t -> Z -> go S;
  bs_Prepare : S -> list Z -> list Z -> Z -> S;
  bs_Finalise : S -> bool -> S;
  bs_IntermediateRoot : S -> bool -> go (list Z * S);
  bs_GetLogs : S -> list Z -> list Log;
  bs_BlockHash : S -> list Z;
  bs_TxIndex : S -> Z;
}.

Class BlockLaws (S : Type) {VS : VMState S} {VL : VMLaws S} {BS : BlockState S} := {
  bl_SetBalance a v s : is_addr a -> inv s -> exists s', bs_SetBalance s a v = Ok s' /\ inv s';
  bl_Prepare s th bh ti : inv s -> inv (bs_Prepare s th bh ti);
  bl_Finalise s del : inv s -> inv (bs_Finalise s del);
}.

(** ** Block hashes (evm.go) *)

Section hashes.
Context (chain : ChainReader).

(** The loop of the closure, from the last known hash. *)
Fixpoint hash_walk (fuel : nat) (cache : list (list Z)) (lastKnownHash : list Z) (lastKnownNumber n : Z) : option (list Z * list (list Z)) :=
  match fuel with
  | O => None
  | S fuel =>
      match GetHeader chain lastKnownHash lastKnownNumber with
      | None => Some (replicate 32 0, cache)
      | Some header =>
          let cache := cache ++ [hd_ParentHash header] in
          let lastKnownNumber := u64 (u64 (hd_Number header) - 1) in
          if n =? lastKnownNumber then Some (hd_ParentHash header, cache) else hash_walk fuel cache (hd_ParentHash header) lastKnownNumber n
      end
  end.

(** [GetHashFn]: a call of the closure, with the cache before and after. *)
Definition GetHashFn (fuel : nat) (ref : Header) (cache : list (list Z)) (n : Z) : option (list Z * list (list Z)) :=
  let cache := if zlen cache =? 0 then [hd_ParentHash ref] else cache in
  let idx := u64 (u64 (u64 (hd_Number ref) - n) - 1) in
  if idx <? zlen cache then (fun h => (h, cache)) <$> cache !! Z.to_nat idx
  else
    lastKnownHash ← last cache;
    hash_walk fuel cache lastKnownHash (u64 (u64 (hd_Number ref) - zlen cache)) n.
End hashes.

(** ** Processing (state_processor.go) *)

Definition DAORefundContract : address_t := be_bytes 20 0xbf4ed7b27f1d666546e30d74d50d173d20bca754.

Definition DAODrainList : list address_t := map (be_bytes 20)
  [0xd4fe7bc31cedb7bfb8a345f31e668033056b2728; 0xb3fb0e5aba0e20e5c49d252dfd30e102b171a425; 0x2c19c7f9ae8b751e37aeb2d93a699722395ae18f;
   0xecd135fa4f61a655311e86238c92adcd779555d2; 0x1975bd06d486162d5dc297798dfc41edd5d160a7; 0xa3acf3a1e16b1d7c315e23510fdd7847b48234f6;
   0x319f70bab6845585f412ec7724b744fec6095c85; 0x06706dd3f2c9abf0a21ddcc6941d9b86f0596936; 0x5c8536898fbb74fc7445814902fd08422eac56d0;
   0x6966ab0d485353095148a2155858910e0965b6f9; 0x779543a0491a837ca36ce8c635d6154e3c4911a6; 0x2a5ed960395e2a49b1c758cef4aa15213cfd874c;
   0x5c6e67ccd5849c0d29219c4f95f1a7a93b3f5dc5; 0x9c50426be05db97f5d64fc54bf89eff947f0a321; 0x200450f06520bdd6c527622a273333384d870efb;
   0xbe8539bfe837b67d1282b2b1d61c3f723966f049; 0x6b0c4d41ba9ab8d8cfb5d379c69a612f2ced8ecb; 0xf1385fb24aad0cd7432824085e42aff90886fef5;
   0xd1ac8b1ef1b69ff51d1d401a476e7e612414f091; 0x8163e7fb499e90f8544ea62bbf80d21cd26d9efd; 0x51e0ddd9998364a2eb38588679f0d2c42653e4a6;
   0x627a0a960c079c21c34f7612d5d230e01b4ad4c7; 0xf0b1aa0eb660754448a7937c022e30aa692fe0c5; 0x24c4d950dfd4dd1902bbed3508144a54542bba94;
   0x9f27daea7aca0aa0446220b98d028715e3bc803d; 0xa5dc5acd6a7968a4554d89d65e59b7fd3bff0f90; 0xd9aef3a1e38a39c16b31d1ace71bca8ef58d315b;
   0x63ed5a272de2f6d968408b4acb9024f4cc208ebf; 0x6f6704e5a10332af6672e50b3d9754dc460dfa4d; 0x77ca7b50b6cd7e2f3fa008e24ab793fd56cb15f6;
   0x492ea3bb0f3315521c31f273e565b868fc090f17; 0x0ff30d6de14a8224aa97b78aea5388d1c51c1f00; 0x9ea779f907f0b315b364b0cfc39a0fde5b02a416;
   0xceaeb481747ca6c540a000c1f3641f8cef161fa7; 0xcc34673c6c40e791051898567a1222daf90be287; 0x579a80d909f346fbfb1189493f521d7f48d52238;
   0xe308bd1ac5fda103967359b2712dd89deffb7973; 0x4cb31628079fb14e4bc3cd5e30c2f7489b00960c; 0xac1ecab32727358dba8962a0f3b261731aad9723;
   0x4fd6ace747f06ece9c49699c7cabc62d02211f75; 0x440c59b325d2997a134c2c7c60a8c61611212bad; 0x4486a3d68fac6967006d7a517b889fd3f98c102b;
   0x9c15b54878ba618f494b38f0ae7443db6af648ba; 0x27b137a85656544b1ccb5a0f2e561a5703c6a68f; 0x21c7fdb9ed8d291d79ffd82eb2c4356ec0d81241;
   0x23b75c2f6791eef49c69684db4c6c1f93bf49a50; 0x1ca6abd14d30affe533b24d7a21bff4c2d5e1f3b; 0xb9637156d330c0d605a791f1c31ba5890582fe1c;
   0x6131c42fa982e56929107413a9d526fd99405560; 0x1591fc0f688c81fbeb17f5426a162a7024d430c2; 0x542a9515200d14b68e934e9830d91645a980dd7a;
   0xc4bbd073882dd2add2424cf47d35213405b01324; 0x782495b7b3355efb2833d56ecb34dc22ad7dfcc4; 0x58b95c9a9d5d26825e70a82b6adb139d3fd829eb;
   0x3ba4d81db016dc2890c81f3acec2454bff5aada5; 0xb52042c8ca3f8aa246fa79c3feaa3d959347c0ab; 0xe4ae1efdfc53b73893af49113d8694a057b9c0d1;
   0x3c02a7bc0391e86d91b7d144e61c2c01a25a79c5; 0x0737a6b837f97f46ebade41b9bc3e1c509c85c53; 0x97f43a37f595ab5dd318fb46e7a155eae057317a;
   0x52c5317c848ba20c7504cb2c8052abd1fde29d03; 0x4863226780fe7c0356454236d3b1c8792785748d; 0x5d2b2e6fcbe3b11d26b525e085ff818dae332479;
   0x5f9f3392e9f62f63b8eac0beb55541fc8627f42c; 0x057b56736d32b86616a10f619859c6cd6f59092a; 0x9aa008f65de0b923a2a4f02012ad034a5e2e2192;
   0x304a554a310c7e546dfe434669c62820b7d83490; 0x914d1b8b43e92723e64fd0a06f5bdb8dd9b10c79; 0x4deb0033bb26bc534b197e61d19e0733e5679784;
   0x07f5c1e1bc2c93e0402f23341973a0e043f7bf8a; 0x35a051a0010aba705c9008d7a7eff6fb88f6ea7b; 0x4fa802324e929786dbda3b8820dc7834e9134a2a;
   0x9da397b9e80755301a3b32173283a91c0ef6c87e; 0x8d9edb3054ce5c5774a420ac37ebae0ac02343c6; 0x0101f3be8ebb4bbd39a2e3b9a3639d4259832fd9;
   0x5dc28b15dffed94048d73806ce4b7a4612a1d48f; 0xbcf899e6c7d9d5a215ab1e3444c86806fa854c76; 0x12e626b0eebfe86a56d633b9864e389b45dcb260;
   0xa2f1ccba9395d7fcb155bba8bc92db9bafaeade7; 0xec8e57756626fdc07c63ad2eafbd28d08e7b0ca5; 0xd164b088bd9108b60d0ca3751da4bceb207b0782;
   0x6231b6d0d5e77fe001c2a460bd9584fee60d409b; 0x1cba23d343a983e9b5cfd19496b9a9701ada385f; 0xa82f360a8d3455c5c41366975bde739c37bfeb8a;
   0x9fcd2deaff372a39cc679d5c5e4de7bafb0b1339; 0x005f5cee7a43331d5a3d3eec71305925a62f34b6; 0x0e0da70933f4c7849fc0d203f5d1d43b9ae4532d;
   0xd131637d5275fd1a68a3200f4ad25c71a2a9522e; 0xbc07118b9ac290e4622f5e77a0853539789effbe; 0x47e7aa56d6bdf3f36be34619660de61275420af8;
   0xacd87e28b0c9d1254e868b81cba4cc20d9a32225; 0xadf80daec7ba8dcf15392f1ac611fff65d94f880; 0x5524c55fb03cf21f549444ccbecb664d0acad706;
   0x40b803a9abce16f50f36a77ba41180eb90023925; 0xfe24cdd8648121a43a7c86d289be4dd2951ed49f; 0x17802f43a0137c506ba92291391a8a8f207f487d;
   0x253488078a4edf4d6f42f113d1e62836a942cf1a; 0x86af3e9626fce1957c82e88cbf04ddf3a2ed7915; 0xb136707642a4ea12fb4bae820f03d2562ebff487;
   0xdbe9b615a3ae8709af8b93336ce9b477e4ac0940; 0xf14c14075d6c4ed84b86798af0956deef67365b5; 0xca544e5c4687d109611d0f8f928b53a25af72448;
   0xaeeb8ff27288bdabc0fa5ebb731b6f409507516c; 0xcbb9d3703e651b0d496cdefb8b92c25aeb2171f7; 0x6d87578288b6cb5549d5076a207456a1f6a63dc0;
   0xb2c6f0dfbb716ac562e2d85d6cb2f8d5ee87603e; 0xaccc230e8a6e5be9160b8cdf2864dd2a001c28b6; 0x2b3455ec7fedf16e646268bf88846bd7a2319bb2;
   0x4613f3bca5c44ea06337a9e439fbc6d42e501d0a; 0xd343b217de44030afaa275f54d31a9317c7f441e; 0x84ef4b2357079cd7a7c69fd7a37cd0609a679106;
   0xda2fef9e4a3230988ff17df2165440f37e8b1708; 0xf4c64518ea10f995918a454158c6b61407ea345c; 0x7602b46df5390e432ef1c307d4f2c9ff6d65cc97;
   0xbb9bc244d798123fde783fcc1c72d3bb8c189413; 0x807640a13483f8ac783c557fcdf27be11ea4ac7a].

(** [OutOfFuel] is an error of the model; it is shown not to occur. *)
Inductive block_error := TxError (err : tx_error) | MsgError (err : core_error) | OutOfFuel.
Abbreviation br A := (outcome block_error A).

Definition lift_br {A} (m : go A) : br A := match m with Ok x => Ok x | _ => Panic end.

(** What the configuration, the node and the packages contribute. *)
Record Node := MkNode {
  nd_config : EthashConfig;
  GetEIP155Transition : option Z;
  nd_natives : Natives;
  nd_chain : ChainReader;
  nd_NoRecursion : bool;
  nd_EnablePreimageRecording : bool;
  ExtraEips : list Z;
}.

Section process.
Context {U : Uint256} {K : Keccak} {C : Secp256k1} {SO : ScheduleOrder} {S : Type} {VS : VMState S} {BS : BlockState S}.
Context (node : Node).

(** [NewEVMContext]; the author of an ethash block is its coinbase. *)
Definition NewEVMContext (msg : Message) (header : Header) : Env :=
  MkEnv (ec_chain (nd_config node)) (nd_natives node)
    (fun n => match GetHashFn (nd_chain node) (Z.to_nat (hd_Number header)) header [] n with Some (h, _) => h | None => replicate 32 0 end)
    (From msg) (msg_GasPrice msg) (hd_Coinbase header) (hd_GasLimit header) (hd_Number header) (hd_Time header) (hd_Difficulty header)
    (nd_NoRecursion node) (nd_EnablePreimageRecording node).

(** [NewEVM] *)
Definition NewEVM (statedb : S) : evm (S := S) := MkEvm statedb 0 ∅ false [] 0 [].

(** The receipt of a transaction that was applied. *)
Definition tx_receipt (statedb : S) (header : Header) (tx : Transaction) (msg : Message) (root : list Z) (result : ExecutionResult) (usedGas : Z) : br Receipt :=
  let receipt := NewReceipt root (bool_decide (res_Err result <> None)) usedGas in
  let hash := tx_Hash (tx_data tx) in
  addr ← (if bool_decide (To msg = None) then lift_br (CreateAddress (From msg) (AccountNonce (tx_data tx))) else Ok (ContractAddress receipt));
  let logs := bs_GetLogs statedb hash in
  let with_bloom bloom :=
    MkReceipt (PostState receipt) (Status receipt) usedGas bloom logs hash addr (UsedGas result) (bs_BlockHash statedb) (hd_Number header) (bs_TxIndex statedb) in
  bloom ← lift_br (CreateBloom [with_bloom (Bloom receipt)]);
  Ok (with_bloom bloom).

Definition ApplyTransaction (gp : Z) (statedb : S) (header : Header) (tx : Transaction) (usedGas : Z) : br (Z * S * Z * Receipt) :=
  let config := nd_config node in
  match (AsMessage tx (MakeSigner (GetEIP155Transition node) (ec_chain config) (hd_Number header))).1 with
  | Err err => Err (TxError err)
  | Panic => Panic
  | Ok msg =>
      let env := NewEVMContext msg header in
      '(jt, _) ← lift_br (NewEVMInterpreter (S := S) env (ExtraEips node));
      match ApplyMessage env (Run env jt (Datatypes.S (Z.to_nat (msg_Gas msg)))) msg gp (NewEVM statedb) with
      | Err Exhausted => Err OutOfFuel
      | Err CachedAnalysis | Err RefundBelowZero | Panic => Panic
      | Ok (_, (_, inl err)) => Err (MsgError err)
      | Ok (e, (st, inr result)) =>
          let eip161d := IsEnabled (GetEIP161dTransition config) (hd_Number header) in
          '(root, statedb) ←
            (if IsEnabled (GetEIP658Transition config) (hd_Number header) then Ok ([], bs_Finalise (state e) eip161d)
             else lift_br (bs_IntermediateRoot (state e) eip161d));
          let usedGas := u64 (usedGas + UsedGas result) in
          receipt ← tx_receipt statedb header tx msg root result usedGas;
          Ok (StateTransition.gp st, statedb, usedGas, receipt)
      end
  end.

(** [ApplyDAOHardFork] (src/consensus/misc/dao.go) *)
Fixpoint drain_accounts (addrs : list address_t) (statedb : S) : go S :=
  match addrs with
  | [] => Ok statedb
  | addr :: addrs =>
      '(balance, statedb) ← vs_GetBalance statedb addr;
      statedb ← vs_AddBalance statedb DAORefundContract balance;
      statedb ← bs_SetBalance statedb addr 0;
      drain_accounts addrs statedb
  end.

Definition ApplyDAOHardFork (statedb : S) : go S :=
  '(exists_, statedb) ← vs_Exist statedb DAORefundContract;
  statedb ← (if negb exists_ then vs_CreateAccount statedb DAORefundContract else Ok statedb);
  drain_accounts DAODrainList statedb.

(** The loop over the transactions *)
Fixpoint apply_all (header : Header) (txs : list Transaction) (i gp : Z) (statedb : S) (usedGas : Z) : br (Z * S * Z * list Receipt) :=
  match txs with
  | [] => Ok (gp, statedb, usedGas, [])
  | tx :: txs =>
      let statedb := bs_Prepare statedb (tx_Hash (tx_data tx)) (header_Hash header) i in
      '(gp, statedb, usedGas, receipt) ← ApplyTransaction gp statedb header tx usedGas;
      '(gp, statedb, usedGas, receipts) ← apply_all header txs (i + 1) gp statedb usedGas;
      Ok (gp, statedb, usedGas, receipt :: receipts)
  end.

(** [accumulateRewards] (src/consensus/ethash/consensus.go) *)
Fixpoint reward_uncles (uncles : list Header) (rewards : list Z) (statedb : S) : go S :=
  match uncles with
  | [] => Ok statedb
  | uncle :: uncles =>
      reward ← idx rewards 0;
      statedb ← vs_AddBalance statedb (hd_Coinbase uncle) reward;
      reward_uncles uncles (drop 1 rewards) statedb
  end.

Definition accumulateRewards (statedb : S) (header : Header) (uncles : list Header) : go S :=
  '(minerReward, uncleRewards) ← GetRewards (nd_config node) header uncles;
  statedb ← reward_uncles uncles uncleRewards statedb;
  vs_AddBalance statedb (hd_Coinbase header) minerReward.

(** [Ethash.Finalize] *)
Definition Finalize (header : Header) (statedb : S) (uncles : list Header) : go (Header * S) :=
  statedb ← accumulateRewards statedb header uncles;
  '(root, statedb) ← bs_IntermediateRoot statedb (IsEnabled (GetEIP161dTransition (nd_config node)) (hd_Number header));
  Ok (with_root header root, statedb).

(** The fork of the DAO, at its block *)
Definition dao_fork (header : Header) (statedb : S) : go S :=
  match GetEthashEIP779Transition (nd_config node) with
  | Some daoNumber =>
      if IsEnabled (Some daoNumber) (hd_Number header) && (daoNumber =? u64 (hd_Number header)) then ApplyDAOHardFork statedb else Ok statedb
  | None => Ok statedb
  end.

Definition Process (header : Header) (uncles : list Header) (txs : list Transaction) (statedb : S) : br (S * list Receipt * list Log * Z) :=
  gp ← lift_br (AddGas 0 (hd_GasLimit header));
  statedb ← lift_br (dao_fork header statedb);
  '(_, statedb, usedGas, receipts) ← apply_all header txs 0 gp statedb 0;
  '(_, statedb) ← lift_br (Finalize header statedb uncles);
  Ok (statedb, receipts, receipts ≫= Logs, usedGas).
End process.

(** ** Validation (block_validator.go) *)

Inductive body_error :=
| ErrKnownBlock | BadUncles (err : header_error) | UncleRootMismatch (have want : list Z) | TxRootMismatch (have want : list Z)
| body_ErrUnknownAncestor | ErrPrunedAncestor
| GasUsedMismatch (remote local : Z) | BloomMismatch | ReceiptRootMismatch (remote local : list Z) | StateRootMismatch (remote local : list Z).
Abbreviation bd A := (outcome body_error A).

Definition lift_bd {A} (m : go A) : bd A := match m with Ok x => Ok x | _ => Panic end.

(** What the blockchain has stored. *)
Record Stored := MkStored { HasBlock : list Z -> Z -> bool; HasBlockAndState : list Z -> Z -> bool }.

Section validate.
Context {K : Keccak} {K512 : Keccak512} {PD : PowData} {SO : ScheduleOrder}.

Definition ValidateBody (e : Ethash) (config : EthashConfig) (chain : ChainReader) (stored : Stored) (now : Z) (block : Block) : bd unit :=
  let header := bk_header block in
  let number := u64 (hd_Number header) in
  if HasBlockAndState stored (header_Hash header) number then Err ErrKnownBlock
  else
    match VerifyUncles e config chain now block with
    | Err err => Err (BadUncles err)
    | Panic => Panic
    | Ok _ =>
        let hash := CalcUncleHash (bk_uncles block) in
        if decide (hash = hd_UncleHash header) then
          hash ← lift_bd (DeriveSha (HH := stack_hasher) (bk_transactions block) NewStackTrie);
          if decide (hash = hd_TxHash header) then
            if negb (HasBlockAndState stored (hd_ParentHash header) (u64 (number - 1))) then
              if negb (HasBlock stored (hd_ParentHash header) (u64 (number - 1))) then Err body_ErrUnknownAncestor else Err ErrPrunedAncestor
            else Ok tt
          else Err (TxRootMismatch hash (hd_TxHash header))
        else Err (UncleRootMismatch hash (hd_UncleHash header))
    end.

Fixpoint receipts_rlp (receipts : list Receipt) : go (list (list Z)) :=
  match receipts with [] => Ok [] | r :: rs => b ← receipt_GetRlp r; bs ← receipts_rlp rs; Ok (b :: bs) end.

Definition ValidateState {S : Type} {BS : BlockState S} (config : EthashConfig) (header : Header) (statedb : S) (receipts : list Receipt) (usedGas : Z) : bd S :=
  if negb (hd_GasUsed header =? usedGas) then Err (GasUsedMismatch (hd_GasUsed header) usedGas)
  else
    rbloom ← lift_bd (CreateBloom receipts);
    if decide (rbloom = hd_Bloom header) then
      items ← lift_bd (receipts_rlp receipts);
      receiptSha ← lift_bd (DeriveSha (HH := stack_hasher) items NewStackTrie);
      if decide (receiptSha = hd_ReceiptHash header) then
        '(root, statedb) ← lift_bd (bs_IntermediateRoot statedb (IsEnabled (GetEIP161dTransition config) (hd_Number header)));
        if decide (hd_Root header = root) then Ok statedb else Err (StateRootMismatch (hd_Root header) root)
      else Err (ReceiptRootMismatch (hd_ReceiptHash header) receiptSha)
    else Err BloomMismatch.
End validate.

(** ** What a transaction and a block use *)

Section sender.
Context {K : Keccak} {C : Secp256k1}.

Lemma recoverPlain_addr digest R S V hs : match recoverPlain digest R S V hs with Ok a => is_addr a | Err _ => True | Panic => False end.
Proof.
  unfold recoverPlain. destruct (_ >? 8); [done|]. destruct (ValidateSignatureValues _ R S hs) eqn:Hv; [|done]. simpl negb. cbv iota.
  assert (Hr : 0 <= R < 2 ^ 256 /\ 0 <= S < 2 ^ 256).
  { unfold ValidateSignatureValues in Hv. destruct (Z.ltb_spec R 1), (Z.ltb_spec S 1); try done. simpl in Hv. destruct (hs && _); [done|].
    apply andb_true_iff in Hv as [[Hr Hs]%andb_true_iff _]. assert (secp256k1N < 2 ^ 256) by done. lia. }
  rewrite !padded32_spec by apply Hr. bind_simpl. destruct (secp_RecoverPubkey _ _) as [[|x key]|]; [done| |done]. destruct (x =? 4); [|done].
  pose proof (keccak_len key). split; [unfold zlen in *; rewrite length_drop; lia|]. apply Forall_drop, keccak_bytes.
Qed.

(** A transaction as it is decoded: an address to send to, less gas than the
    machine can run out of. *)
Definition tx_ok (tx : Transaction) : Prop :=
  cache_ok tx /\ (forall a, Recipient (tx_data tx) = Some a -> is_addr a) /\ 0 <= tx_GasLimit (tx_data tx) < native_limit /\ is_slice (Payload (tx_data tx)).

Lemma AsMessage_ok tx s : tx_ok tx ->
  match (AsMessage tx s).1 with Ok msg => msg_ok msg /\ msg_Gas msg = tx_GasLimit (tx_data tx) | Err _ => True | Panic => False end.
Proof.
  intros (Hc & Hto & Hg & Hp). unfold AsMessage. destruct (Sender_cached s tx Hc) as (Hr & _ & Hd). destruct (Sender s tx) as [r tx']. simpl in *. subst r. rewrite Hd.
  assert (Ha : match signer_Sender s (tx_data tx) with Ok a => is_addr a | Err _ => True | Panic => False end).
  { destruct s as [| |c]; cbn [signer_Sender]; [apply recoverPlain_addr..|]. destruct (negb (isProtectedV _)); [apply recoverPlain_addr|]. destruct (negb _); [done|apply recoverPlain_addr]. }
  destruct (signer_Sender s (tx_data tx)) as [a| |]; [|done..]. split; [|done]. split; [done|]. split; [done|]. by split.
Qed.
End sender.

Section accounting.
Context {U : Uint256} {K : Keccak} {C : Secp256k1} {SO : ScheduleOrder} {S : Type} {VS : VMState S} {VL : VMLaws S} {BS : BlockState S} {BL : BlockLaws S}.
Context (node : Node) (header : Header).
Hypothesis natives_fine : natives_ok (nd_natives node).
Hypothesis table_built : forall msg, exists jt reported, NewEVMInterpreter (S := S) (NewEVMContext node msg header) (ExtraEips node) = Ok (jt, reported).
Hypothesis coinbase_addr : is_addr (hd_Coinbase header).
(** From Byzantium on, receipts have a status and no root. *)
Hypothesis byzantium : IsEnabled (GetEIP658Transition (nd_config node)) (hd_Number header) = true.
Implicit Types (s : S).

Lemma CreateAddress_Ok b nonce : exists a, CreateAddress b nonce = Ok a.
Proof.
  unfold CreateAddress. set (data := match EncodeToBytes _ _ with Ok d => d | _ => [] end). destruct (address_of_hash data) as (a & Ha & Haddr).
  eexists. exact Ha.
Qed.

Lemma tx_receipt_ok s tx msg root result used :
  exists r, tx_receipt s header tx msg root result used = Ok r /\ rc_GasUsed r = UsedGas result /\ CumulativeGasUsed r = used /\ rc_TxHash r = tx_Hash (tx_data tx) /\
    Logs r = bs_GetLogs s (tx_Hash (tx_data tx)).
Proof.
  unfold tx_receipt. cbv zeta. set (pick := if bool_decide (To msg = None) then _ else _). assert (exists a, pick = Ok a) as [a ->].
  { unfold pick. destruct (bool_decide _); [|by eexists]. destruct (CreateAddress_Ok (From msg) (AccountNonce (tx_data tx))) as [a ->]. by eexists. }
  bind_simpl. match goal with |- context [CreateBloom ?l] => destruct (add_all_ok (replicate 256 0) (l ≫= fun r => Logs r ≫= log_entries)) as (b & Hb & _); [done|]; unfold CreateBloom; rewrite Hb end.
  bind_simpl. eexists. split; [reflexivity|]. done.
Qed.

(** A transaction that was applied used its gas from the pool. *)
Definition applied (tx : Transaction) (r : Receipt) : Prop :=
  10500 <= rc_GasUsed r <= tx_GasLimit (tx_data tx) /\ rc_TxHash r = tx_Hash (tx_data tx).

(** The message of a transaction runs into one of the two faults of the
    machine. *)
Definition faulty (gp : Z) s (tx : Transaction) : Prop :=
  exists msg jt reported fault,
    (AsMessage tx (MakeSigner (GetEIP155Transition node) (ec_chain (nd_config node)) (hd_Number header))).1 = Ok msg /\
    NewEVMInterpreter (S := S) (NewEVMContext node msg header) (ExtraEips node) = Ok (jt, reported) /\
    ApplyMessage (NewEVMContext node msg header) (Run (NewEVMContext node msg header) jt (Datatypes.S (Z.to_nat (msg_Gas msg)))) msg gp (NewEVM s) = Err fault /\
    (fault = CachedAnalysis \/ fault = RefundBelowZero).

Lemma ApplyTransaction_ok gp s tx used :
  inv s -> tx_ok tx -> 0 <= gp -> 0 <= used -> used + gp < 2 ^ 64 ->
  match ApplyTransaction node gp s header tx used with
  | Ok (gp', s', used', r) => inv s' /\ applied tx r /\ gp' = gp - rc_GasUsed r /\ used' = used + rc_GasUsed r /\ CumulativeGasUsed r = used' /\ 0 <= gp'
  | Err e => e <> OutOfFuel
  | Panic => faulty gp s tx
  end.
Proof.
  intros Hi Htx Hgp Hu Hsum. unfold ApplyTransaction. pose proof (AsMessage_ok tx (MakeSigner (GetEIP155Transition node) (ec_chain (nd_config node)) (hd_Number header)) Htx) as Hm.
  destruct (AsMessage tx _).1 as [msg| |] eqn:Em; [|done..]. destruct Hm as [Hmsg Hgas]. destruct (table_built msg) as (jt & rep & Hjt). rewrite Hjt. cbn [lift_br]. bind_simpl.
  set (env := NewEVMContext node msg header) in *.
  pose proof (ApplyMessage_total env (ExtraEips node) jt rep msg gp (NewEVM s) natives_fine Hjt Hmsg coinbase_addr ltac:(lia) Hi) as H.
  destruct (ApplyMessage _ _ _ _ _) as [[e [st [err|res]]]|[]|] eqn:Er; [done| |done|exists msg, jt, rep; eauto 7..|done]. destruct H as (Hi' & _ & needed & Hneed & H1 & H2 & H3 & _).
  rewrite byzantium. cbv zeta. bind_simpl. destruct (IntrinsicGas_bound _ _ _ _ _ (proj2 (proj2 (proj2 Hmsg))) Hneed) as [_ Hn]. unfold TxGas in Hn.
  rewrite (u64_small (used + UsedGas res)) by lia.
  match goal with |- context [tx_receipt ?a ?b ?c ?d ?e ?f ?g] => destruct (tx_receipt_ok a c d e f g) as (r & -> & Hr1 & Hr2 & Hr3 & _) end. bind_simpl.
  split; [by apply bl_Finalise|]. unfold applied. rewrite Hr1, Hr2, Hr3, <- Hgas. split; [split; [lia|done]|]. lia.
Qed.

Definition gas_sum (rs : list Receipt) : Z := foldr (fun r n => rc_GasUsed r + n) 0 rs.

(** The cumulative gas of the receipts, after [used]. *)
Fixpoint cumulative (used : Z) (rs : list Receipt) : Prop :=
  match rs with [] => True | r :: rs => CumulativeGasUsed r = used + rc_GasUsed r /\ cumulative (used + rc_GasUsed r) rs end.

(** A transaction [tx] of which [P] holds, after the ones before it were
    applied. *)
Definition stops_at (txs : list Transaction) (i gp : Z) s (used : Z) (P : Z -> S -> Z -> Transaction -> Prop) : Prop :=
  exists pre tx post gp' s' used' rs, txs = pre ++ tx :: post /\ apply_all node header pre i gp s used = Ok (gp', s', used', rs) /\
    P gp' (bs_Prepare s' (tx_Hash (tx_data tx)) (header_Hash header) (i + zlen pre)) used' tx.

Lemma stops_first tx txs i gp s used P : P gp (bs_Prepare s (tx_Hash (tx_data tx)) (header_Hash header) i) used tx -> stops_at (tx :: txs) i gp s used P.
Proof. intros HP. exists [], tx, txs, gp, s, used, []. rewrite zlen_nil, Z.add_0_r. done. Qed.

Lemma stops_later tx txs i gp s used gp' s' used' r P :
  ApplyTransaction node gp (bs_Prepare s (tx_Hash (tx_data tx)) (header_Hash header) i) header tx used = Ok (gp', s', used', r) ->
  stops_at txs (i + 1) gp' s' used' P -> stops_at (tx :: txs) i gp s used P.
Proof.
  intros Hrun (pre & tx' & post & gp2 & s2 & used2 & rs & -> & Hpre & HP). exists (tx :: pre), tx', post, gp2, s2, used2, (r :: rs). split; [done|].
  cbn [apply_all]. rewrite Hrun. bind_simpl. rewrite Hpre. bind_simpl. split; [done|]. rewrite zlen_cons. by replace (i + (1 + zlen pre)) with (i + 1 + zlen pre) by lia.
Qed.

Lemma apply_all_ok txs i gp s used :
  inv s -> Forall tx_ok txs -> 0 <= gp -> 0 <= used -> used + gp < 2 ^ 64 ->
  match apply_all node header txs i gp s used with
  | Ok (gp', s', used', rs) => inv s' /\ Forall2 applied txs rs /\ cumulative used rs /\ used' = used + gas_sum rs /\ gp' = gp - gas_sum rs /\ 0 <= gp'
  | Err e => e <> OutOfFuel /\ stops_at txs i gp s used (fun gp s used tx => ApplyTransaction node gp s header tx used = Err e)
  | Panic => stops_at txs i gp s used (fun gp s _ tx => faulty gp s tx)
  end.
Proof.
  intros Hi Htxs. revert i gp s used Hi. induction Htxs as [|tx txs Htx _ IH]; intros i gp s used Hi Hgp Hu Hsum; cbn [apply_all].
  { split; [done|]. split; [constructor|]. split; [done|]. cbn [gas_sum foldr]. lia. }
  pose proof (ApplyTransaction_ok gp (bs_Prepare s (tx_Hash (tx_data tx)) (header_Hash header) i) tx used (bl_Prepare _ _ _ _ Hi) Htx Hgp Hu Hsum) as H.
  destruct (ApplyTransaction node gp _ header tx used) as [[[[gp1 s1] used1] r]|e|] eqn:Erun; bind_simpl; [|by split; [|apply stops_first]|by apply stops_first].
  destruct H as (Hi1 & Ha & Hgp1 & Hu1 & Hc & Hge). assert (Hg : 0 <= rc_GasUsed r) by (destruct Ha; lia).
  specialize (IH (i + 1) gp1 s1 used1 Hi1 Hge ltac:(lia) ltac:(lia)).
  destruct (apply_all node header txs (i + 1) gp1 s1 used1) as [[[[gp2 s2] used2] rs]|e|]; bind_simpl; [|split; [apply IH|]; exact (stops_later _ _ _ _ _ _ _ _ _ _ _ Erun (proj2 IH))|exact (stops_later _ _ _ _ _ _ _ _ _ _ _ Erun IH)].
  destruct IH as (Hi2 & Ha2 & Hc2 & Hu2 & Hgp2 & Hge2). split; [done|]. split; [by constructor|]. cbn [cumulative gas_sum foldr]. fold (gas_sum rs). rewrite <- Hu1.
  split; [split; [lia|done]|]. lia.
Qed.

(** *** The fork of the DAO and the rewards *)

Lemma vs_changes_ok (g : S -> go S) s : changes inv since g -> inv s -> exists s', g s = Ok s' /\ inv s'.
Proof. intros Hg Hi. destruct (Hg s Hi) as (s' & Hr & Hl & _). exists s'. auto. Qed.

Lemma drain_ok addrs s : is_addr DAORefundContract -> Forall is_addr addrs -> inv s -> exists s', drain_accounts addrs s = Ok s' /\ inv s'.
Proof.
  intros Hd Ha. revert s. induction Ha as [|a addrs Ha _ IH]; intros s Hi; cbn [drain_accounts]; [by exists s|].
  destruct (l_GetBalance a Ha s Hi) as (b & s1 & -> & _ & Hl & _). bind_simpl.
  destruct (vs_changes_ok _ s1 (l_AddBalance DAORefundContract b Hd) (Hl Hi)) as (s2 & -> & Hi2). bind_simpl.
  destruct (bl_SetBalance a 0 s2 Ha Hi2) as (s3 & -> & Hi3). bind_simpl. by apply IH.
Qed.

Lemma dao_addrs : is_addr DAORefundContract /\ Forall is_addr DAODrainList.
Proof.
  assert (Hb : forall x, is_addr (be_bytes 20 x)) by (intros x; split; [by rewrite be_bytes_length|apply be_bytes_ok]).
  split; [apply Hb|]. apply Forall_map, Forall_forall. intros x _. apply Hb.
Qed.

Lemma dao_fork_ok s : inv s -> exists s', dao_fork node header s = Ok s' /\ inv s'.
Proof.
  intros Hi. unfold dao_fork. destruct (GetEthashEIP779Transition (nd_config node)); [|by exists s]. destruct (_ && _); [|by exists s].
  destruct dao_addrs as [Hd Ha]. unfold ApplyDAOHardFork. destruct (l_Exist _ Hd s Hi) as (b & s1 & -> & _ & Hl & _). bind_simpl. destruct b; cbn [negb].
  - bind_simpl. by apply drain_ok; [..|apply Hl].
  - destruct (vs_changes_ok _ s1 (l_CreateAccount DAORefundContract Hd) (Hl Hi)) as (s2 & -> & Hi2). bind_simpl. by apply drain_ok.
Qed.

Lemma reward_uncles_ok uncles rewards s :
  Forall (fun u => is_addr (hd_Coinbase u)) uncles -> length rewards = length uncles -> inv s -> exists s', reward_uncles uncles rewards s = Ok s' /\ inv s'.
Proof.
  intros Hu. revert rewards s. induction Hu as [|u us Hu _ IH]; intros [|r rs] s Hl Hi; cbn [reward_uncles]; try done; [by exists s|].
  change (@idx Empty_set Z (r :: rs) 0) with (@Ok Empty_set Z r). bind_simpl. destruct (vs_changes_ok _ s (l_AddBalance _ r Hu) Hi) as (s1 & -> & Hi1). bind_simpl.
  change (drop 1 (r :: rs)) with (drop 0 rs). rewrite drop_0. apply IH; [by injection Hl|done].
Qed.

Lemma accumulateRewards_ok uncles s :
  rewards_configured (nd_config node) -> 1 <= hd_Number header ->
  Forall (fun u => is_addr (hd_Coinbase u) /\ hd_Number header - 8 <= hd_Number u < hd_Number header) uncles -> inv s ->
  exists s', accumulateRewards node s header uncles = Ok s' /\ inv s'.
Proof.
  intros Hc Hn Hu Hi. unfold accumulateRewards. destruct (GetRewards_eq (nd_config node) header uncles Hc Hn) as (R & shares & -> & _ & _ & Hl & _).
  { eapply Forall_impl; [exact Hu|]. by intros u [_ ?]. }
  bind_simpl. destruct (reward_uncles_ok uncles shares s) as (s1 & -> & Hi1); [by eapply Forall_impl; [exact Hu|]; intros u [? _]|done|done|]. bind_simpl.
  exact (vs_changes_ok _ s1 (l_AddBalance _ _ coinbase_addr) Hi1).
Qed.

(** The account trie of the state after the rewards has no root. *)
Definition rootless (uncles : list Header) (txs : list Transaction) s : Prop :=
  exists s1 gp s2 used rs s3, dao_fork node header s = Ok s1 /\ apply_all node header txs 0 (hd_GasLimit header) s1 0 = Ok (gp, s2, used, rs) /\
    accumulateRewards node s2 header uncles = Ok s3 /\ bs_IntermediateRoot s3 (IsEnabled (GetEIP161dTransition (nd_config node)) (hd_Number header)) = Panic.

End accounting.

(** ** [StateDB] as the state of a block *)

Section on_statedb.
Context {K : Keccak} {T : Type} {TO : TrieOps T} {SD : StateDatabase T} {TR : TrieReads T} {MO : MapOrder}.
Implicit Types (s : StateDB T).

#[export] Instance statedb_block : BlockState (StateDB T) := {
  bs_SetBalance := SetBalance;
  bs_Prepare := StateDB.Prepare;
  bs_Finalise := Finalise;
  bs_IntermediateRoot := IntermediateRoot;
  bs_GetLogs s h := default [] (logs s !! h);
  bs_BlockHash := bhash;
  bs_TxIndex := txIndex;
}.

Lemma wf_finalise_account del s a : wf s -> wf (finalise_account del s a).
Proof.
  intros [Ho Ha Hd Hl Hz Hap]. unfold finalise_account. destruct (stateObjects s !! a) as [o|] eqn:E; [|by split].
  pose proof (Ho a o E) as (Haddr & Hao & Hcode & Hfake & Hok).
  assert (Hnew : forall o', (forall b, obj_ok b o -> obj_ok b o') -> address o' = a -> forall b x, <[address o' := o']> (stateObjects s) !! b = Some x -> obj_ok b x).
  { intros o' Hkeep He b x. rewrite He, lookup_insert_Some. intros [[<- <-]|[_ Hx]]; [by apply Hkeep, Ho|by apply Ho]. }
  assert (Hdirty : forall o' b, address o' = a -> b ∈ {[ a ]} ∪ stateObjectsDirty s -> is_Some (<[address o' := o']> (stateObjects s) !! b)).
  { intros o' b He. rewrite elem_of_union, elem_of_singleton, He. intros [->|Hb]; [rewrite lookup_insert_eq; by eexists|]. apply lookup_insert_is_Some. destruct (decide (a = b)); [by left|right].
    split; [done|]. by apply Hd. }
  destruct (suicided o || _); [destruct (snap (setStateObject s (set_marks o (suicided o) true))) eqn:Es|].
  all: split; [| exact Ha | | exact Hl | exact Hz | exact Hap].
  1, 3: exact (Hnew (set_marks o (suicided o) true) (fun b H => H) Hao).
  1, 2: exact (fun b => Hdirty (set_marks o (suicided o) true) b Hao).
  - exact (Hnew (obj_finalise o) (fun b H => H) Hao).
  - exact (fun b => Hdirty (obj_finalise o) b Hao).
Qed.

Lemma valid_Finalise s del : valid s -> valid (Finalise s del).
Proof.
  intros (Hw & Hd & Hr). unfold Finalise. set (s1 := foldl (finalise_account del) s _).
  assert (H1 : wf s1 /\ jrnl s1 = jrnl s).
  { unfold s1. generalize (map_order (dirties (jrnl s))) as l. intros l. revert s s1 Hw Hd Hr. induction l as [|a l IH]; intros s s1 Hw Hd Hr; [done|]. simpl.
    assert (Hj : jrnl (finalise_account del s a) = jrnl s /\ validRevisions (finalise_account del s a) = validRevisions s /\
      nextRevisionId (finalise_account del s a) = nextRevisionId s).
    { unfold finalise_account. destruct (stateObjects s !! a) as [o|]; [|done]. destruct (suicided o || _); [|done]. by destruct (snap (setStateObject s _)). }
    destruct Hj as (Hj & Hv & Hn). destruct (IH (finalise_account del s a)) as [IHw IHj]; [by apply wf_finalise_account|by unfold dirties_ok; rewrite Hj|by unfold revs_ok; rewrite Hv, Hn|].
    split; [done|]. by rewrite IHj. }
  clearbody s1. destruct H1 as [[Ho Ha Hdy Hl Hz Hap] Hj]. unfold clearJournalAndRefund. split; [|split].
  - destruct (entries (jrnl s1)); by split.
  - unfold dirties_ok in *. rewrite <- Hj in Hd. destruct (entries (jrnl s1)) eqn:E; simpl; [by rewrite E|]. by intros a Ha'.
  - split; [by intros i j r r' _ Hi|constructor].
Qed.

Lemma valid_Prepare s th bh ti : valid s -> valid (StateDB.Prepare s th bh ti).
Proof. intros ([Ho Ha Hd Hl Hz Hap] & Hdj & Hr). split; [by split|]. by split. Qed.

#[local] Instance laws : VMLaws (StateDB T) := statedb_laws.

Lemma valid_SetBalance a v s : is_addr a -> valid s -> exists s', SetBalance s a v = Ok s' /\ valid s'.
Proof.
  intros Ha Hv. destruct (changes_later a (fun s o => Ok (obj_SetBalance s o v)) Ha) with s as (s' & Hr & Hl & _); [|done|].
  - intros u o Hw Ho Hd. destruct (SetBalance_obj_step u a o v Hw Ho Hd) as (s1 & o1 & es & -> & ?). by eexists _, _, _.
  - exists s'. split; [done|]. by apply Hl.
Qed.

Definition statedb_block_laws : BlockLaws (StateDB T) := {|
  bl_SetBalance := valid_SetBalance;
  bl_Prepare := valid_Prepare;
  bl_Finalise := valid_Finalise;
|}.
End on_statedb.

(** ** The cache of block hashes *)

Section hash_cache.
Context (chain : ChainReader) (ref : Header).

(** The hashes of the ancestors of [ref], the nearest first. *)
Fixpoint ancestor_hashes (n : nat) (h : list Z) (number : Z) : list (list Z) :=
  match n with
  | O => []
  | S n => h :: match GetHeader chain h number with Some header => ancestor_hashes n (hd_ParentHash header) (number - 1) | None => [] end
  end.

Definition hashes : list (list Z) := ancestor_hashes (Z.to_nat (hd_Number ref)) (hd_ParentHash ref) (hd_Number ref - 1).

(** [GetHeader] returns a header with the number that was asked for. *)
Hypothesis numbered : forall h m header, GetHeader chain h m = Some header -> hd_Number header = m.
Hypothesis ref_number : 1 <= hd_Number ref < 2 ^ 64.

Lemma ancestor_next n h number k :
  (S k < n)%nat -> (ancestor_hashes n h number) !! S k =
    (h' ← ancestor_hashes n h number !! k; header ← GetHeader chain h' (number - Z.of_nat k); Some (hd_ParentHash header)).
Proof.
  revert n h number. induction k as [|k IH]; intros [|[|n]] h number Hk; try lia.
  - rewrite Z.sub_0_r. simpl. by destruct (GetHeader chain h number).
  - change (ancestor_hashes (S (S n)) h number) with (h :: match GetHeader chain h number with Some header => ancestor_hashes (S n) (hd_ParentHash header) (number - 1) | None => [] end).
    destruct (GetHeader chain h number) as [header|]; [|done].
    change ((h :: ancestor_hashes (S n) (hd_ParentHash header) (number - 1)) !! S (S k)) with (ancestor_hashes (S n) (hd_ParentHash header) (number - 1) !! S k).
    change ((h :: ancestor_hashes (S n) (hd_ParentHash header) (number - 1)) !! S k) with (ancestor_hashes (S n) (hd_ParentHash header) (number - 1) !! k).
    rewrite IH by lia. by replace (number - 1 - Z.of_nat k) with (number - Z.of_nat (S k)) by lia.
Qed.

Lemma hashes_next k h :
  (S k < Z.to_nat (hd_Number ref))%nat -> hashes !! k = Some h ->
  hashes !! S k = hd_ParentHash <$> GetHeader chain h (hd_Number ref - 1 - Z.of_nat k).
Proof. intros Hk Hh. unfold hashes in *. rewrite ancestor_next by done. rewrite Hh. simpl. by destruct (GetHeader _ _ _). Qed.

Lemma hash_walk_spec fuel k h j :
  hashes !! k = Some h -> (k < j < Z.to_nat (hd_Number ref))%nat -> (j - k <= fuel)%nat ->
  hash_walk chain fuel (take (S k) hashes) h (hd_Number ref - 1 - Z.of_nat k) (hd_Number ref - 1 - Z.of_nat j) = Some (default (replicate 32 0) (hashes !! j), take (S j) hashes).
Proof.
  revert k h. induction fuel as [|fuel IH]; intros k h Hh Hj Hf; [lia|]. cbn [hash_walk]. pose proof (hashes_next k h ltac:(lia) Hh) as Hn.
  destruct (GetHeader chain h _) as [header|] eqn:Hg; simpl in Hn.
  - apply numbered in Hg. rewrite Hg, (u64_small (hd_Number ref - 1 - Z.of_nat k)), (u64_small (hd_Number ref - 1 - Z.of_nat k - 1)) by lia.
    assert (Hc : take (S k) hashes ++ [hd_ParentHash header] = take (S (S k)) hashes) by (symmetry; by apply take_S_r). rewrite Hc.
    replace (hd_Number ref - 1 - Z.of_nat k - 1) with (hd_Number ref - 1 - Z.of_nat (S k)) by lia.
    destruct (Z.eqb_spec (hd_Number ref - 1 - Z.of_nat j) (hd_Number ref - 1 - Z.of_nat (S k))) as [He|He].
    + assert (j = S k) as -> by lia. by rewrite Hn.
    + apply IH; [done|lia|lia].
  - apply lookup_ge_None in Hn. rewrite (lookup_ge_None_2 hashes j), !take_ge by lia. done.
Qed.

(** The cache of [GetHashFn] is invisible: after any calls, the closure
    returns for a block below the reference the hash of the ancestor with that
    number, or zero where the chain of headers ends before, and keeps a cache
    of the nearest ancestors. *)
Theorem GetHashFn_cached (k : nat) (n : Z) :
  0 <= n < hd_Number ref ->
  exists k', GetHashFn chain (Z.to_nat (hd_Number ref)) ref (take k hashes) n =
    Some (default (replicate 32 0) (hashes !! Z.to_nat (hd_Number ref - 1 - n)), take k' hashes).
Proof.
  intros Hn. set (N := Z.to_nat (hd_Number ref)). assert (HN : exists N', N = S N') by (exists (N - 1)%nat; unfold N; lia). destruct HN as [N' HN].
  assert (H0 : hashes !! 0%nat = Some (hd_ParentHash ref) /\ length hashes <> 0%nat) by (unfold hashes; fold N; rewrite HN; done). destruct H0 as [H0 Hl0].
  unfold GetHashFn. set (cache := if zlen (take k hashes) =? 0 then [hd_ParentHash ref] else take k hashes).
  assert (Hc : exists m, cache = take (S m) hashes /\ (m < length hashes)%nat).
  { unfold cache, zlen. rewrite length_take. destruct (Z.eqb_spec (Z.of_nat (k `min` length hashes)) 0) as [E|E].
    - exists 0%nat. split; [|lia]. destruct hashes as [|x l]; [done|]. simpl in H0 |- *. by injection H0 as ->.
    - exists (Nat.min k (length hashes) - 1)%nat. split; [|lia]. replace (S (k `min` length hashes - 1)) with (k `min` length hashes)%nat by lia.
      destruct (decide (k <= length hashes)%nat); [by rewrite Nat.min_l by lia|]. rewrite Nat.min_r, !take_ge by lia. done. }
  destruct Hc as (m & -> & Hm). assert (Hlen : length (take (S m) hashes) = S m) by (rewrite length_take; lia). unfold zlen. rewrite Hlen.
  rewrite (u64_small (hd_Number ref)), (u64_small (hd_Number ref - n)), (u64_small (hd_Number ref - n - 1)) by lia.
  replace (hd_Number ref - n - 1) with (hd_Number ref - 1 - n) by lia. set (j := Z.to_nat (hd_Number ref - 1 - n)).
  destruct (Z.ltb_spec (hd_Number ref - 1 - n) (Z.of_nat (S m))) as [Hlt|Hge].
  - exists (S m). fold j. rewrite lookup_take_lt by lia. assert (is_Some (hashes !! j)) as [h Hh] by (apply lookup_lt_is_Some; lia). by rewrite Hh.
  - exists (S j). assert (is_Some (hashes !! m)) as [h Hh] by (by apply lookup_lt_is_Some). rewrite last_lookup, Hlen. simpl Init.Nat.pred.
    rewrite lookup_take_lt, Hh by lia. simpl. rewrite u64_small by lia. replace (hd_Number ref - Z.of_nat (S m)) with (hd_Number ref - 1 - Z.of_nat m) by lia.
    replace n with (hd_Number ref - 1 - Z.of_nat j) at 1 by lia. apply hash_walk_spec; [done|unfold N; lia|unfold N; lia].
Qed.
End hash_cache.

(** ** The header commits to the body *)

Section body.
Context {K : Keccak} {K512 : Keccak512} {PD : PowData} {SO : ScheduleOrder}.

Definition uncles_item (uncles : list Header) : item := IList (map header_item uncles).

Lemma CalcUncleHash_spec uncles :
  Forall header_ok uncles -> zlen (rlp_spec (uncles_item uncles)) < 2 ^ 47 -> CalcUncleHash uncles = keccak256 (rlp_spec (uncles_item uncles)).
Proof.
  intros Hu Hz. assert (He : CalcUncleHash uncles = rlpHash (uncles_item uncles)).
  { unfold CalcUncleHash. destruct (Z.eqb_spec (zlen uncles) 0) as [E|_]; [|done]. unfold zlen in E. by destruct uncles; [|simpl in E; lia]. }
  assert (Ht : has_type (TSlice header_ty) (uncles_item uncles)).
  { eexists. split; [reflexivity|]. apply Forall_map. eapply Forall_impl; [exact Hu|]. intros u. apply header_has_type. }
  destruct (has_type_ok (TSlice header_ty) _ header_ty_ok Ht) as [Hok Hnn]. rewrite He. unfold rlpHash. rewrite Encode_new by (done || lia). by rewrite Hnn.
Qed.

Lemma CalcUncleHash_inj us us' :
  Forall header_ok us -> Forall header_ok us' -> zlen (rlp_spec (uncles_item us)) < 2 ^ 47 -> zlen (rlp_spec (uncles_item us')) < 2 ^ 47 ->
  (keccak256 (rlp_spec (uncles_item us)) = keccak256 (rlp_spec (uncles_item us')) -> rlp_spec (uncles_item us) = rlp_spec (uncles_item us')) ->
  CalcUncleHash us = CalcUncleHash us' -> us = us'.
Proof.
  intros Hu Hu' Hz Hz' Hk. rewrite !CalcUncleHash_spec by done. intros He.
  assert (Ht : forall l, Forall header_ok l -> has_type (TSlice header_ty) (uncles_item l)).
  { intros l Hl. eexists. split; [reflexivity|]. apply Forall_map. eapply Forall_impl; [exact Hl|]. intros u. apply header_has_type. }
  pose proof (rlp_typed_inj (TSlice header_ty) _ _ header_ty_ok (Ht us Hu) (Ht us' Hu') Hz (Hk He)) as Hi. injection Hi as Hi.
  assert (Inj (=) (=) header_item) by (intros x y; apply header_item_inj). by apply (inj (fmap (M := list) header_item)) in Hi.
Qed.

Lemma ValidateBody_roots e config chain stored now b :
  ValidateBody e config chain stored now b = Ok tt ->
  CalcUncleHash (bk_uncles b) = hd_UncleHash (bk_header b) /\ DeriveSha (HH := stack_hasher) (bk_transactions b) NewStackTrie = Ok (hd_TxHash (bk_header b)).
Proof.
  unfold ValidateBody. destruct (HasBlockAndState _ _ _); [done|]. destruct (VerifyUncles _ _ _ _ _); [|done..]. case_decide as Hu; [|done].
  destruct (DeriveSha _ _) as [h|[]|]; cbn [lift_bd]; bind_simpl; [|done]. case_decide as Ht; [|done]. intros _. split; [done|by rewrite Ht].
Qed.

(** Blocks as they are decoded; transactions have at least twelve bytes. *)
Record block_ok (b : Block) : Prop := {
  ok_header : header_ok (bk_header b);
  ok_uncles : Forall header_ok (bk_uncles b) /\ zlen (rlp_spec (uncles_item (bk_uncles b))) < 2 ^ 47;
  ok_transactions : list_ok (bk_transactions b) /\ items_large (bk_transactions b);
}.

(** No collision among what is hashed for the two blocks. *)
Record no_block_collision (b b' : Block) (T T' : tree) : Prop := {
  nc_header : keccak256 (rlp_spec (header_item (bk_header b))) = keccak256 (rlp_spec (header_item (bk_header b'))) ->
    rlp_spec (header_item (bk_header b)) = rlp_spec (header_item (bk_header b'));
  nc_uncles : keccak256 (rlp_spec (uncles_item (bk_uncles b))) = keccak256 (rlp_spec (uncles_item (bk_uncles b'))) ->
    rlp_spec (uncles_item (bk_uncles b)) = rlp_spec (uncles_item (bk_uncles b'));
  nc_trees : no_collision T T';
}.

(** C14. The hash of a block commits to its body: two blocks with the same
    header hash that [ValidateBody] accepts, on whatever chain and at whatever
    time, have the same header, the same uncles and the same transactions, in
    their order, unless the hash function has a collision there. *)
Theorem ValidateBody_binding e e' config config' chain chain' stored stored' now now' (b b' : Block) (T T' : tree) :
  block_ok b -> block_ok b' -> keccak256 [0x80] = emptyRoot ->
  tree_map T (index_map (bk_transactions b)) -> tree_map T' (index_map (bk_transactions b')) -> no_block_collision b b' T T' ->
  ValidateBody e config chain stored now b = Ok tt -> ValidateBody e' config' chain' stored' now' b' = Ok tt ->
  header_Hash (bk_header b) = header_Hash (bk_header b') -> b = b'.
Proof.
  intros [Hh [Hu Huz] [Ht Htl]] [Hh' [Hu' Huz'] [Ht' Htl']] Hke HT HT' [Nh Nu Nt] [Eu Et]%ValidateBody_roots [Eu' Et']%ValidateBody_roots Heq.
  pose proof (header_Hash_inj _ _ Hh Hh' Nh Heq) as Ehd. rewrite Ehd in Eu, Et.
  assert (Eun : bk_uncles b = bk_uncles b') by (apply CalcUncleHash_inj; [done..|congruence]).
  assert (Etx : bk_transactions b = bk_transactions b') by (by eapply DeriveSha_inj).
  destruct b, b'. simpl in *. congruence.
Qed.
End body.

(** ** Examples *)

Module BlockExamples.
Import TxExamples.
#[local] Existing Instance ZWords.words.
#[local] Existing Instance MapState.toy.
#[local] Existing Instance MapState.map_trie.
#[local] Existing Instance MapState.map_database.
#[local] Existing Instance MapState.map_reads.
#[local] Existing Instance Examples.toy_order.
#[local] Existing Instance toy_curve.
#[local] Existing Instance Concrete.packages.
Abbreviation db := (StateDB MapState.store).

#[local] Instance key_order : MapOrder := {| map_order V m := (map_to_list m).*1; map_order_spec V m := reflexivity _ |}.
#[local] Instance laws : VMLaws db := statedb_laws.
#[local] Instance block_laws : BlockLaws db := statedb_block_laws.

Definition sample_node : Node :=
  MkNode (MkEthashConfig Concrete.all_on (Some 0) (Some 0) (Some 0) None None None None None None None None None ∅ ∅ (fun _ => replicate 32 0)) None the_natives
    (MkChain (fun _ _ => None) (fun _ _ => None)) false false [].

Definition block : Header :=
  MkHeader (replicate 32 1) (replicate 32 2) (replicate 20 8) (replicate 32 0) (replicate 32 3) (replicate 32 4) (replicate 256 0) 17 12 100000 21000 1000 [] (replicate 32 0)
    (replicate 8 0).

(** The address of every key under the toy hash. *)
Definition sender : addr_t := replicate 20 0.
Definition rich : db := MapState.outcome_or MapState.start (AddBalance MapState.start sender 1000000).

Lemma rich_valid : valid rich.
Proof.
  destruct (AddBalance_later sender 1000000 ltac:(by repeat constructor) MapState.start MapState.start_valid) as (s' & E & Hl & _).
  unfold rich. rewrite E. by apply Hl, MapState.start_valid.
Qed.

Definition transfer : Transaction :=
  match SignTx (MkTransaction (MkTxdata 0 2 30000 (Some MapState.bob) 5 [] 0 0 0) None) HomesteadSigner (123 : private_key) with Ok tx => tx | _ => sample_tx end.

Lemma transfer_ok : tx_ok transfer.
Proof. split; [done|]. split; [intros a [= <-]; by repeat constructor|]. split; [vm_compute; done|]. by vm_compute. Qed.

Lemma table_of msg : exists jt reported, NewEVMInterpreter (S := db) (NewEVMContext sample_node msg block) (ExtraEips sample_node) = Ok (jt, reported).
Proof. eexists _, _. reflexivity. Qed.

Lemma block_miner : is_addr (hd_Coinbase block).
Proof. by repeat constructor. Qed.
Lemma rewards_ok : rewards_configured (nd_config sample_node).
Proof. split; [apply map_Forall_empty|by intros [? [=]]]. Qed.
Lemma block_number : 1 <= hd_Number block.
Proof. done. Qed.
Lemma block_gas : is_u64 (hd_GasLimit block).
Proof. done. Qed.
Lemma no_uncles : Forall (fun u => is_addr (hd_Coinbase u) /\ hd_Number block - 8 <= hd_Number u < hd_Number block) [].
Proof. constructor. Qed.
Lemma transfers_ok : Forall tx_ok [transfer].
Proof. constructor; [apply transfer_ok|constructor]. Qed.

End BlockExamples.

Module BodyExamples.
Import Examples.
#[local] Existing Instance toy_keccak.
#[local] Existing Instance toy_keccak512.
#[local] Existing Instance toy_order.
#[local] Existing Instance toy_pow.

(** The ancestors of [header12]. *)
Definition header_chain : ChainReader := MkChain (fun _ m => if m =? 11 then Some header11 else if m =? 10 then Some header10 else None) (fun _ _ => None).

Lemma header_chain_numbered h m header : GetHeader header_chain h m = Some header -> hd_Number header = m.
Proof. simpl. destruct (Z.eqb_spec m 11) as [->|_]; [by intros [= <-]|]. destruct (Z.eqb_spec m 10) as [->|_]; [by intros [= <-]|done]. Qed.

(** The hash of block 10, with the cache as block 11 leaves it. *)
Lemma GetHashFn_cached_witness : exists cache, GetHashFn header_chain 12 header12 [header_Hash header11] 10 = Some (header_Hash header10, cache).
Proof.
  destruct (GetHashFn_cached header_chain header12 header_chain_numbered ltac:(split; vm_compute; done) 1 10 ltac:(split; vm_compute; done)) as [k' H].
  assert (E1 : take 1 (hashes header_chain header12) = [header_Hash header11]) by (vm_compute; reflexivity). rewrite E1 in H.
  assert (E2 : hashes header_chain header12 !! Z.to_nat (hd_Number header12 - 1 - 10) = Some (header_Hash header10)) by (vm_compute; reflexivity). rewrite E2 in H.
  exists (take k' (hashes header_chain header12)). exact H.
Defined.

(** A block with one transaction. *)
Definition body_header : Header :=
  MkHeader (replicate 32 1) (CalcUncleHash []) (replicate 20 8) (replicate 32 0)
    (match DeriveSha (HH := stack_hasher) one_item NewStackTrie with Ok h => h | _ => [] end)
    (replicate 32 4) (replicate 256 0) 17 12 100000 21000 1000 [] (replicate 32 0) (replicate 8 0).
Definition body : Block := MkBlock body_header [] one_item.

Lemma body_ok : block_ok body.
Proof.
  split; [|split; [constructor|vm_compute; done]|apply one_item_ok].
  split; [vm_compute; done|]. split; [solve_decidable|]. vm_compute. done.
Qed.

Lemma body_no_collision : no_block_collision body body one_tree one_tree.
Proof.
  split; [done|done|]. apply apart_check. vm_compute. reflexivity.
Qed.

(** The same block on two chains. *)
Lemma ValidateBody_binding_witness : body = body.
Proof.
  apply (ValidateBody_binding faker faker sample_config sample_config sample_chain header_chain (MkStored (fun _ _ => true) (fun _ n => n =? 11))
    (MkStored (fun _ _ => false) (fun _ n => n <? 12)) 1000 2000 body body one_tree one_tree);
    [apply body_ok|apply body_ok|reflexivity|apply one_tree_map|apply one_tree_map|apply body_no_collision|vm_compute; reflexivity|vm_compute; reflexivity|reflexivity].
Defined.
End BodyExamples.
