(* ===== verification/Assembly.v ===== *)
(** * Assembling a block (src/core/types/block.go, src/consensus/ethash/consensus.go)

    [FinalizeAndAssemble] fills in the roots of a header from the state, the
    transactions, the receipts and the uncles.  The file shows that the
    validator, which hashes the lists in another way and the state once more,
    finds the same roots. *)
From stdpp Require Import prelude list gmap.
From Stdlib Require Import ZArith Lia.
From S2P Require Import Prelude RlpEncode RlpRaw RlpStream TrieEncoding Trie TrieNode TrieHash StackTrie DeriveSha Header TrieDatabase TrieGC StateDB StateRevert StateRoot SecureTrie.
From S2P Require Import Digests Hashimoto VmBase VmCode Vm Ethash VmNatives VmStateDB Transactions Receipts Blocks.

(** ** The root of a state that has just been hashed *)

Section again.
Context {K : Keccak} {T : Type} {TO : TrieOps T} {SD : StateDatabase T} {MO : MapOrder} (is_key : list Z -> Prop) {TM : TrieMap T is_key}.
Implicit Types (o : stateObject T) (s : StateDB T).

Lemma write_slot_jrnl s o key s' o' : write_slot s o key = Ok (s', o') -> jrnl s' = jrnl s.
Proof.
  unfold write_slot. destruct (decide _); [by intros [= <- _]|]. destruct (obj_trie _) as [t|]; [|done]. destruct (if decide (_ = zero_hash) then _ else _) as [r t'].
  intros H. outcome_inv H. by destruct (snap s).
Qed.

Lemma write_slots_jrnl keys s o s' o' : write_slots keys s o = Ok (s', o') -> jrnl s' = jrnl s.
Proof.
  revert s o. induction keys as [|key keys IH]; intros s o H; cbn [write_slots] in H; [by injection H as <- _|].
  outcome_inv H. rewrite (IH _ _ H). by eapply write_slot_jrnl.
Qed.

Lemma updateRoot_jrnl s o s' o' : updateRoot s o = Ok (s', o') -> jrnl s' = jrnl s.
Proof.
  unfold updateRoot, updateTrie. intros H. apply bind_Ok in H as ([s1 o1] & H1 & H2).
  assert (E : jrnl s' = jrnl s1) by (destruct (obj_trie o1); [outcome_inv H2; done|by injection H2 as <- _]). rewrite E. clear H2 E.
  destruct (decide _); [by injection H1 as <- _|]. outcome_inv H1. rewrite (write_slots_jrnl _ _ _ _ _ Hr0). by destruct (snap s).
Qed.

Lemma write_account_jrnl s a s' : write_account s a = Ok s' -> jrnl s' = jrnl s.
Proof.
  unfold write_account. destruct (stateObjects s !! a) as [o|]; [|done]. destruct (deleted o).
  - unfold deleteStateObject, sdb_trie_result. destruct (t_TryDelete _ _) as [[| |] t]; [by intros [= <-]|by intros [= <-]; unfold sdb_setError; simpl; destruct (dbErr s)|done].
  - intros H. apply bind_Ok in H as ([s1 o1] & H1 & H2). rewrite <- (updateRoot_jrnl _ _ _ _ H1). unfold updateStateObject, sdb_trie_result in H2.
    destruct (encode_item _); [|done..]. destruct (t_TryUpdate _ _ _) as [r t]. apply bind_Ok in H2 as (s2 & H2 & H3).
    assert (E : jrnl s2 = jrnl s1) by (destruct r; [by injection H2 as <-|injection H2 as <-; unfold sdb_setError; simpl; by destruct (dbErr s1)|done]). rewrite <- E.
    destruct (snap s2); [outcome_inv H3; done|by injection H3 as <-].
Qed.

Lemma IntermediateRoot_jrnl s del r s' : IntermediateRoot s del = Ok (r, s') -> jrnl s' = jrnl (Finalise s del).
Proof.
  unfold IntermediateRoot. intros H. apply bind_Ok in H as (s1 & H1 & H2). assert (E : jrnl s' = jrnl s1) by (outcome_inv H2; done). rewrite E. clear H2 E.
  set (l := map_order _) in H1. clearbody l. revert H1. generalize (Finalise s del) as u. induction l as [|a l IH]; intros u H; cbn [write_accounts] in H; [by injection H as <-|].
  apply bind_Ok in H as (u1 & H1 & H2). rewrite (IH _ H2). by eapply write_account_jrnl.
Qed.

Lemma finalise_account_jrnl del s a : jrnl (finalise_account del s a) = jrnl s.
Proof. unfold finalise_account. destruct (stateObjects s !! a) as [o|]; [|done]. destruct (suicided o || _); [|done]. by destruct (snap (setStateObject s _)). Qed.

Lemma Finalise_dirties s del a : is_Some (dirties (jrnl (Finalise s del)) !! a) -> is_Some (dirties (jrnl s) !! a).
Proof.
  unfold Finalise, clearJournalAndRefund. set (s1 := foldl _ _ _).
  assert (E : jrnl s1 = jrnl s).
  { unfold s1. generalize (map_order (dirties (jrnl s))) as l. intros l. clear s1. revert s. induction l as [|b l IH]; intros s; [done|]. simpl. rewrite IH. apply finalise_account_jrnl. }
  rewrite <- E. destruct (entries (jrnl s1)); [done|]. simpl. rewrite lookup_empty. by intros [? ?].
Qed.

(** The entry of an account does not change when it is written again. *)
Lemma entry_again del s S s' m' a :
  ready is_key s S -> ready is_key s' (storage_after s S) -> stateObjectsPending s' = ∅ -> (is_Some (dirties (jrnl s') !! a) -> is_Some (dirties (jrnl s) !! a)) ->
  (if touched s a then exists o o', stateObjects s !! a = Some o /\ stateObjects s' !! a = Some o' /\ settled_obj is_key (finalised_at del s a o) (S a) o'
   else stateObjects s' !! a = stateObjects s !! a) ->
  (touched s a = true -> m' !! a = entry_at is_key del s S m' a) -> entry_at is_key del s' (storage_after s S) m' a = m' !! a.
Proof.
  intros Hr Hr' Hp Hd Hobj Hm. unfold entry_at at 1. destruct (touched s' a) eqn:Ht'; [|done].
  assert (Hdirty : is_Some (dirties (jrnl s) !! a) /\ is_Some (stateObjects s' !! a)).
  { unfold touched in Ht'. rewrite Hp in Ht'. apply orb_true_iff in Ht' as [Ht'|[H1 H2]%andb_true_iff]; [apply bool_decide_eq_true in Ht'; set_solver|].
    apply bool_decide_eq_true in H1, H2. auto. }
  destruct Hdirty as [Hdirty [x Hx]]. destruct (touched s a) eqn:Ht.
  2: { exfalso. unfold touched in Ht. rewrite Hobj in Hx. rewrite (bool_decide_true (is_Some (dirties _ !! a))), (bool_decide_true (is_Some (stateObjects s !! a))), orb_true_r in Ht; [done|by eexists|done]. }
  destruct Hobj as (o & o' & Ho & Ho' & Hset). rewrite (Hm eq_refl). unfold entry_at. rewrite Ht, Ho, Ho'. simpl. destruct (gone del s a o) eqn:Hg.
  - unfold settled_obj in Hset. destruct (finalised_at_facts is_key del s a o (S a)) as (Hdel & _ & _). rewrite Hdel, Hg in Hset. subst o'. unfold gone. by rewrite Hdel, Hg.
  - destruct (settled_live is_key del s S a o o' Hr Ho Hg Hset) as (_ & Hlive & Hdata & Hclean & Hor).
    assert (Hsui : suicided o' = suicided o).
    { unfold settled_obj in Hset. destruct (finalised_at_facts is_key del s a o (S a)) as (Hdel & _ & _). rewrite Hdel, Hg in Hset. destruct Hset as [Hw _].
      rewrite (wr_suicided _ _ Hw). unfold finalised_at. case_decide; [|done]. unfold finalised. by destruct (suicided o || _). }
    assert (Hg' : gone del s' a o' = false).
    { unfold gone in Hg |- *. rewrite (bool_decide_true (is_Some (dirties (jrnl s) !! a))) in Hg by done. apply orb_false_iff in Hg as [_ Hg]. rewrite Hlive, Hsui. simpl in Hg |- *.
      assert (He : obj_empty o' = obj_empty o) by (unfold obj_empty; by rewrite Hdata). rewrite He, Hg. by rewrite andb_false_r. }
    rewrite Hg'. f_equal. f_equal. unfold storage_after. rewrite Ho, Ht. unfold account_after at 1. rewrite (slots_after_clean is_key); [by rewrite Hdata|apply Hor|done].
Qed.

(** A state that has just been hashed has the same root again. *)
Lemma IntermediateRoot_again del s S m :
  ready is_key s S -> holds (trie s) m -> exists r s' s'', IntermediateRoot s del = Ok (r, s') /\ IntermediateRoot s' del = Ok (r, s'').
Proof.
  intros Hr Hh. destruct (IntermediateRoot_spec is_key del s S m Hr Hh) as (s' & m' & Hrun & Hh' & _ & Hp & _ & Hm & Hobj & _).
  pose proof (ready_after is_key del s S s' Hr Hp Hobj) as Hr'. destruct (IntermediateRoot_spec is_key del s' _ m' Hr' Hh') as (s'' & m'' & Hrun' & _ & _ & _ & _ & Hm' & _ & _).
  exists (root_of m'), s', s''. split; [done|]. rewrite Hrun'. do 3 f_equal. apply map_eq. intros a. rewrite Hm'. apply entry_again; try done.
  - rewrite (IntermediateRoot_jrnl _ _ _ _ Hrun). apply Finalise_dirties.
  - apply Hobj.
  - intros Ht. rewrite Hm. unfold entry_at. by rewrite Ht.
Qed.
End again.

(** ** Assembling *)

(** The header with the roots of its lists. *)
Definition with_lists (h : Header) (txHash receiptHash bloom uncleHash : list Z) : Header :=
  MkHeader (hd_ParentHash h) uncleHash (hd_Coinbase h) (hd_Root h) txHash receiptHash bloom (hd_Difficulty h) (hd_Number h) (hd_GasLimit h) (hd_GasUsed h) (hd_Time h)
    (hd_Extra h) (hd_MixDigest h) (hd_Nonce h).

Section assemble.
Context {K : Keccak} {db : NodeReader} {SO : ScheduleOrder}.

(** [NewBlock], with the encoded transactions and a trie as the hasher;
    [DeriveSha] resets it before each use. *)
Definition NewBlock (order : list nat) (hasher : Trie) (header : Header) (txs : list (list Z)) (uncles : list Header) (receipts : list Receipt) : go Block :=
  txHash ← (if zlen txs =? 0 then Ok emptyRoot else DeriveSha (HH := trie_hasher order) txs hasher);
  '(receiptHash, bloom) ←
    (if zlen receipts =? 0 then Ok (emptyRoot, hd_Bloom header)
     else
       items ← receipts_rlp receipts;
       h ← DeriveSha (HH := trie_hasher order) items hasher;
       b ← CreateBloom receipts;
       Ok (h, b));
  let uncleHash := if zlen uncles =? 0 then EmptyUncleHash else CalcUncleHash uncles in
  Ok (MkBlock (with_lists header txHash receiptHash bloom uncleHash) uncles txs).

(** [FinalizeAndAssemble] *)
Definition FinalizeAndAssemble {S : Type} {VS : VMState S} {BS : BlockState S} (node : Node) (order : list nat) (hasher : Trie) (header : Header) (statedb : S)
    (txs : list (list Z)) (uncles : list Header) (receipts : list Receipt) : go (Block * S) :=
  '(header, statedb) ← Finalize node header statedb uncles;
  block ← NewBlock order hasher header txs uncles receipts;
  Ok (block, statedb).

(** The two ways to hash a list agree, also on the empty one. *)
Lemma list_root order hasher items :
  list_ok items -> items_large items -> order ≡ₚ seq 0 16 ->
  exists h, (if zlen items =? 0 then Ok emptyRoot else DeriveSha (HH := trie_hasher order) items hasher) = Ok h /\ DeriveSha (HH := stack_hasher) items NewStackTrie = Ok h.
Proof.
  intros Hok Hl Ho. destruct (DeriveSha_roots items NewStackTrie Hok Hl) as (T & HT & Hf & Hs). destruct (Z.eqb_spec (zlen items) 0) as [E|E].
  - exists emptyRoot. split; [done|]. unfold zlen in E. destruct items; [|simpl in E; lia]. reflexivity.
  - exists (mroot T). split; [by apply DeriveSha_trie|done].
Qed.
End assemble.

Section agreement.
Context {K : Keccak} {K512 : Keccak512} {PD : PowData} {db : NodeReader} {SO : ScheduleOrder}.
Context {T : Type} {TO : TrieOps T} {SD : StateDatabase T} {TR : TrieReads T} {MO : MapOrder} (is_key : list Z -> Prop) {TM : TrieMap T is_key}.

Lemma receipts_rlp_length receipts items : receipts_rlp receipts = Ok items -> length items = length receipts.
Proof.
  revert items. induction receipts as [|r rs IH]; intros items H; cbn [receipts_rlp] in H; [by injection H as <-|]. outcome_inv H. simpl. f_equal. by apply IH.
Qed.

(** The lists of a new block are what the validator computes. *)
Lemma NewBlock_lists order hasher header txs uncles receipts items :
  order ≡ₚ seq 0 16 -> list_ok txs -> items_large txs -> receipts_rlp receipts = Ok items -> list_ok items -> items_large items ->
  (receipts = [] -> hd_Bloom header = replicate 256 0) ->
  exists txHash receiptHash bloom, NewBlock order hasher header txs uncles receipts = Ok (MkBlock (with_lists header txHash receiptHash bloom (CalcUncleHash uncles)) uncles txs) /\
    DeriveSha (HH := stack_hasher) txs NewStackTrie = Ok txHash /\ DeriveSha (HH := stack_hasher) items NewStackTrie = Ok receiptHash /\ CreateBloom receipts = Ok bloom.
Proof.
  intros Ho Ht Htl Hr Hi Hil Hb. destruct (list_root order hasher txs Ht Htl Ho) as (txHash & H1 & H2). destruct (list_root order hasher items Hi Hil Ho) as (rh & H3 & H4).
  assert (Hc : exists bloom, CreateBloom receipts = Ok bloom /\ (receipts = [] -> bloom = hd_Bloom header)).
  { unfold CreateBloom. destruct (add_all_ok (replicate 256 0) (receipts ≫= fun r => Logs r ≫= log_entries)) as (b & Hrun & _); [done|]. exists b. split; [done|].
    intros ->. rewrite Hb by done. simpl in Hrun. by injection Hrun as <-. }
  destruct Hc as (bloom & Hbl & Hbl0). exists txHash, rh, bloom. split; [|done]. unfold NewBlock. rewrite H1. bind_simpl.
  assert (Hu : (if zlen uncles =? 0 then EmptyUncleHash else CalcUncleHash uncles) = CalcUncleHash uncles) by (unfold CalcUncleHash; by destruct (zlen uncles =? 0)).
  rewrite Hu. assert (Hz : zlen items = zlen receipts) by (unfold zlen; by rewrite (receipts_rlp_length _ _ Hr)). rewrite Hz in H3.
  destruct (Z.eqb_spec (zlen receipts) 0) as [E|E].
  - bind_simpl. injection H3 as <-. unfold zlen in E. destruct receipts; [|simpl in E; lia]. by rewrite Hbl0.
  - rewrite Hr. bind_simpl. rewrite H3. bind_simpl. rewrite Hbl. by bind_simpl.
Qed.

(** C12. What a miner assembles, the validator accepts.  After the rewards have
    been added to a state that agrees with its tries, [FinalizeAndAssemble]
    returns a block for which [ValidateState], which hashes the state again and
    the lists with the stack trie, finds the header's bloom and roots, and
    [ValidateBody] finds the roots of the transactions and the uncles. *)
Theorem Assemble_validates (node : Node) (order : list nat) (hasher : Trie) (header : Header) (s s1 : StateDB T) (S : addr_t -> Storage) (m : gmap (list Z) (list Z))
    (txs : list (list Z)) (uncles : list Header) (receipts : list Receipt) (items : list (list Z)) :
  accumulateRewards node s header uncles = Ok s1 -> ready is_key s1 S -> holds (trie s1) m ->
  order ≡ₚ seq 0 16 -> list_ok txs -> items_large txs -> receipts_rlp receipts = Ok items -> list_ok items -> items_large items ->
  (receipts = [] -> hd_Bloom header = replicate 256 0) ->
  exists block s2, FinalizeAndAssemble node order hasher header s txs uncles receipts = Ok (block, s2) /\ bk_transactions block = txs /\ bk_uncles block = uncles /\
    (exists s3, ValidateState (nd_config node) (bk_header block) s2 receipts (hd_GasUsed header) = Ok s3) /\
    (forall e chain stored now, HasBlockAndState stored (header_Hash (bk_header block)) (u64 (hd_Number header)) = false ->
       VerifyUncles e (nd_config node) chain now block = Ok tt -> HasBlockAndState stored (hd_ParentHash header) (u64 (u64 (hd_Number header) - 1)) = true ->
       ValidateBody e (nd_config node) chain stored now block = Ok tt).
Proof.
  intros Hacc Hready Hholds Ho Ht Htl Hr Hi Hil Hb. set (del := IsEnabled (GetEIP161dTransition (nd_config node)) (hd_Number header)).
  destruct (IntermediateRoot_again is_key del s1 S m Hready Hholds) as (root & s2 & s3 & H1 & H2).
  destruct (NewBlock_lists order hasher (with_root header root) txs uncles receipts items Ho Ht Htl Hr Hi Hil Hb) as (txHash & rh & bloom & Hnew & Htx & Hrh & Hbl).
  eexists _, s2. split; [unfold FinalizeAndAssemble, Finalize; rewrite Hacc; bind_simpl; cbn [bs_IntermediateRoot statedb_block]; fold del; rewrite H1; bind_simpl; rewrite Hnew; by bind_simpl|].
  split; [done|]. split; [done|]. split.
  - exists s3. unfold ValidateState. cbn [bk_header with_lists with_root hd_GasUsed hd_Bloom hd_ReceiptHash hd_Number hd_Root]. rewrite Z.eqb_refl. simpl negb. cbv iota.
    rewrite Hbl. cbn [lift_bd]. bind_simpl. rewrite decide_True by done. rewrite Hr. cbn [lift_bd]. bind_simpl. rewrite Hrh. cbn [lift_bd]. bind_simpl. rewrite decide_True by done.
    cbn [bs_IntermediateRoot statedb_block]. fold del. rewrite H2. cbn [lift_bd]. bind_simpl. by rewrite decide_True by done.
  - intros e chain stored now Hk Hun Hpar. unfold ValidateBody. cbn [bk_header bk_uncles bk_transactions with_lists with_root hd_UncleHash hd_TxHash hd_Number hd_ParentHash] in *.
    rewrite Hk, Hun, decide_True by done. rewrite Htx. cbn [lift_bd]. bind_simpl. rewrite decide_True by done. by rewrite Hpar.
Qed.
End agreement.

(** ** Examples *)

Module AssemblyExamples.
Import Examples Secure.
#[local] Existing Instance toy_keccak.
#[local] Existing Instance toy_keccak512.
#[local] Existing Instance toy_pow.
#[local] Existing Instance toy_order.
#[local] Existing Instance no_db.
#[local] Existing Instance list_order.
#[local] Existing Instance no_cache.
#[local] Existing Instance no_code.
#[local] Existing Instance in_use_map.
#[local] Existing Instance Concrete.packages.

Definition miner_node : Node :=
  MkNode (MkEthashConfig no_forks (Some 0) (Some 0) (Some 0) None None None None None None None None None ∅ ∅ (fun _ => replicate 32 0)) None the_natives
    BodyExamples.header_chain false false [].

Definition mined : Header :=
  MkHeader (replicate 32 1) (replicate 32 0) alice (replicate 32 0) (replicate 32 0) (replicate 32 0) (replicate 256 0) 17 12 100000 21000 1000 [] (replicate 32 0) (replicate 8 0).
Definition mined_receipt : Receipt :=
  MkReceipt [] 1 21000 (replicate 256 0) [] (replicate 32 5) (replicate 20 0) 21000 (replicate 32 0) 12 0.

(** The state of the example for [IntermediateRoot], with the reward of alice. *)
Definition rewarded : StateDB SecureTrie := MapState.outcome_or before (accumulateRewards miner_node before mined []).
Definition alice_rich : stateObject SecureTrie := set_data alice_object (MkAccount 1 (5 + 5 * 10 ^ 18) emptyRoot code_hash).

Lemma rewarded_runs : accumulateRewards miner_node before mined [] = Ok rewarded.
Proof.
  assert (E : match accumulateRewards miner_node before mined [] with Ok _ => true | _ => false end = true) by (vm_compute; reflexivity).
  unfold rewarded. by destruct (accumulateRewards _ _ _ _).
Qed.

Lemma rewarded_objects a o : stateObjects rewarded !! a = Some o -> a = alice /\ o = alice_rich \/ a = bob /\ o = bob_object.
Proof.
  assert (E : stateObjects rewarded = {[ alice := alice_rich; bob := bob_object ]}) by (vm_compute; reflexivity). rewrite E.
  rewrite lookup_insert_Some, lookup_singleton_Some. intros [[<- <-]|[_ [<- <-]]]; [left|right]; split; reflexivity.
Qed.

Lemma rewarded_ready : ready in_use rewarded (fun _ => ∅).
Proof.
  assert (Hp : stateObjectsPending rewarded = ∅) by (vm_compute; reflexivity). split; [| |by intros a; rewrite Hp; intros ?%elem_of_empty].
  - intros a o Ho. destruct (rewarded_objects a o Ho) as [[-> ->]|[-> ->]]; (split; [done|]); [by left|by right; left].
  - intros a o Ho _. destruct (rewarded_objects a o Ho) as [[-> ->]|[-> ->]];
      (apply fresh_object_ready; [apply small_account_ok; unfold is_u64; lia|done|done|done|]); [|rewrite bob_unwritten; apply map_Forall_empty].
    change (unwritten alice_rich) with (unwritten alice_object). rewrite alice_unwritten. apply map_Forall_singleton. split; [by right; right; left|]. split; [done|solve_decidable].
Qed.

Lemma rewarded_holds : holds (trie rewarded) {[ bob := account_rlp bob_account ]}.
Proof. assert (E : trie rewarded = account_trie) by (vm_compute; reflexivity). rewrite E. apply account_trie_holds. Qed.

Definition mined_items : list (list Z) := match receipts_rlp [mined_receipt] with Ok l => l | _ => [] end.

Lemma mined_items_ok : list_ok mined_items /\ items_large mined_items.
Proof. apply items_ok_by; [vm_compute; done|]. solve_decidable. Qed.

Lemma Assemble_validates_witness :
  exists block s2 s3, FinalizeAndAssemble miner_node (seq 0 16) (MkTrie nilNode 0) mined before one_item [] [mined_receipt] = Ok (block, s2) /\
    ValidateState (nd_config miner_node) (bk_header block) s2 [mined_receipt] 21000 = Ok s3.
Proof.
  destruct (Assemble_validates in_use miner_node (seq 0 16) (MkTrie nilNode 0) mined before rewarded (fun _ => ∅) {[ bob := account_rlp bob_account ]} one_item []
    [mined_receipt] mined_items) as (block & s2 & H1 & _ & _ & [s3 H2] & _);
    [apply rewarded_runs|apply rewarded_ready|apply rewarded_holds|done|apply one_item_ok|apply one_item_ok|vm_compute; reflexivity|apply mined_items_ok|apply mined_items_ok|done|].
  exists block, s2, s3. split; [exact H1|exact H2].
Defined.
End AssemblyExamples.
